(* ===== verification/_CoqProject ===== *)
-Q . S2P
Prelude.v
Bytes.v
RlpRaw.v
RlpEncode.v
RlpDecode.v
TrieKeys.v
Trie.v
TrieSpec.v
TrieMap.v
TrieHash.v
TrieNode.v
TrieCommit.v
TrieDB.v
TrieProof.v
StackTrie.v
DeriveList.v
State.v
StateRevert.v
StateSnapshot.v
SortCache.v
DAType.v
FilePool.v
Fetcher.v
Intake.v
RlpDA.v
P2P.v
PeerSet.v
Gossip.v
Dispatcher.v
Handlers.v
ForkID.v
Handshake.v
OrderedMap.v
TimeText.v
Store.v
Ledger.v
AbiType.v
AbiNames.v
AbiCodec.v
AbiSpec.v
AbiRead.v
AbiBind.v
Contracts.v
ChainSync.v
ScriptParser.v
Bitcoin.v
SyncLoop.v
Api.v
