(* ===== verification/Prelude.v ===== *)
(** * Verification of the data-availability node

    The program is a Go node that keeps data-availability records (file data
    with a KZG commitment and signatures).  It grew out of go-ethereum: records
    arrive from users and peers, wait in a pool, are announced to and fetched
    from other peers, and are completed and stored in an SQL database once a
    transaction of a layer-one chain (Ethereum or Bitcoin) confirms their
    commitment.  This library models the path of a record through the node,
    translating the Go functions into Rocq functions of the same names.  Paths
    below are under [src/].

    ** How the parts interact

    A peer's bytes are split into protocols ([P2P]), decoded ([RlpDecode]) and
    handled ([Handlers]), which hands packets to the pool and the fetcher
    ([Intake], [FilePool], [Fetcher]) and responses to the requests that wait
    for them ([Dispatcher]).  New records are broadcast and announced
    to the peers of the peer set ([PeerSet], [Gossip], [RlpEncode]).  The
    synchronisers ([ChainSync], [Bitcoin] with [ScriptParser]) read layer-one
    blocks, find commitments, write the ledger tables ([Ledger]), complete the
    pooled records and store them ([Store]).

    ** Files

    - [Prelude]: results of Go code ([outcome]: a value, a panic, or fuel used
      up), machine integers, slices, reachability, tactics and hints.
    - [Bytes]: [common/bytes.go], [common/types.go], [common/hexutil]: hashes,
      addresses, hexadecimal text.
    - [RlpRaw], [RlpEncode], [RlpDecode]: the package [rlp].  Go's reflected
      types are the values of [rtype], values are [rval].
    - [TrieKeys], [Trie]: the package [trie]: keys, nodes and their decoding,
      reading, insertion, deletion, with the tracer.  [TrieHash]: the encoding
      of nodes and the hasher.  [TrieCommit]: the committer and node sets.
      [TrieSpec] has the tree a trie stands for and the proofs of the
      operations, [TrieMap] the trie as a map, [TrieNode] what hashes and stored
      nodes say of the tree, [TrieDB] the trie over a database.  [TrieProof]:
      single proofs, [trie/proof.go].  [StackTrie]: [trie/stacktrie.go], for keys
      in increasing order.
    - [DeriveList]: the hash of a list, [core/types/hashing.go].
    - [State]: the accounts within a block, [core/state]: the cached objects
      (records [StateDB], [stateObject]), the journal, access list and transient
      storage, finalisation and intermediate roots.  [StateRevert] has the
      relation of states that answer alike and shows that a journal entry
      takes back what was logged with it, [StateSnapshot] the snapshots.
    - [SortCache]: [eth/btcsortmap.go], [eth/btctxsortmap.go].
    - [DAType]: the record and its signers, [core/types/file.go],
      [fileData_signing.go], [Singer.go].
    - [FilePool]: [core/txpool/filedatapool]: the pool (record [FilePool]) and its
      journal.
    - [Fetcher]: [eth/fetcher/fileData_fetcher.go]: the loop (record
      [FileDataFetcher], one function per case of the [select]).
    - [Intake]: [Notify], [Enqueue] and [eth/handler_eth.go].
    - [RlpDA]: the encoding of records, which implements the codec interface
      that [FilePool] is written against.
    - [P2P]: the multiplexing of protocols in [p2p/peer.go].
    - [PeerSet]: [eth/peerset.go] and the life of a connection in
      [eth/handler.go].
    - [Gossip]: the sending side of [eth/protocols/eth] and the broadcasts of
      [eth/handler.go].
    - [Handlers]: the receiving side of [eth/protocols/eth].
    - [ForkID]: [core/forkid/forkid.go], with the fork fields of
      [params/config.go].  [Handshake]: the handshake of
      [eth/protocols/eth/handshake.go] as [eth/handler.go] calls it.
    - [Dispatcher]: [eth/protocols/eth/dispatcher.go].
    - [OrderedMap]: [ethdb/db/sortmap.go].
    - [TimeText]: the part of Go's [time] the store uses.
    - [Store]: [ethdb/db/dadata.go].
    - [Ledger]: the other tables of [ethdb/db].
    - [AbiType], [AbiCodec]: the types of contract arguments with their parser, and
      how values are packed and unpacked, [accounts/abi].  [AbiNames] has the
      proofs about the parser and about unused names, [AbiSpec] the
      documented encoding and the proof that packing gives it, [AbiRead]
      the proofs of unpacking.  [AbiBind]: methods, events, bound contracts
      and the setting of Go structs.  [Contracts]: the bindings of [contract/]
      that the synchroniser uses.
    - [ChainSync]: [eth/sync.go] for Ethereum.
    - [ScriptParser]: [eth/scriptparser].
    - [Bitcoin]: [eth/worker_service.go] and [eth/sync.go] for Bitcoin.
    - [SyncLoop]: the timer of [eth/sync.go] and the flag between its runs.
    - [Api]: what users call, [eth/api_backend.go] and [internal/ethapi/api.go].

    ** Conventions

    A struct is a [Record], an enumeration or the cases of an event an
    [Inductive] type.  Code that can panic answers an [outcome]; errors are
    values.  Integers are [Z], with the wrap-around of their width written out
    ([u8], [u32], [u64], [i64]) wherever the code can reach it.  Bytes and
    strings are lists of [Z].  Go maps are [gmap]; the order in which a map is
    ranged over, the readings of the clock and the answers of the file system,
    the network and the layer-one node are arguments, so that theorems hold for
    all of them.  Loops of goroutines are step functions on their state, and
    invariants are shown for all reachable states ([reachable]).  Where records
    are shared and written through pointers ([ChainSync]) they live in a heap.

    Code that is not part of the repository is a class with its laws apart,
    each with a concrete instance to show that the laws can hold: [KZG] and
    [KZGWords] (gnark's digest), [Crypto] and [Keccak] (Keccak and secp256k1),
    [SDK] (the KZG SDK), [Gorm], [Tables] and [BtcTables] (gorm and SQLite), btcd's
    tokenizer and client, [sorts] (the sorting of [slices]), [popsElements]
    (the set of golang-set).  [DACodec] and [DAStore] are interfaces between
    parts of the repository; [RlpDA.rlpCodecLaws] and [Store.sqlDAStore]
    implement them.  [TrieDB] is what the trie expects of its database, and
    [TrieHasher] what [DeriveSha] expects of a trie; the stack trie and the trie
    implement it.  [StateDatabase] is the interface of tries, contract code and
    snapshot layers that [core/state/database.go] gives to a state;
    [StateReadLaws] says that reading changes no later answer.

    ** What the theorems show

    - RLP: the encoder that fills in list headers afterwards writes the
      documented encoding ([Encode_correct], [Read_correct]); the decoder never
      panics on a byte slice and accepts exactly what the encoder writes for the
      answered value, which has the type asked for ([DecodeBytes_canonical],
      [DecodeBytes_roundtrip]).  For records: [record_roundtrip],
      [record_canonical]; an unlimited stream can panic
      ([damaged_journal_panics]).
    - Networking: [matchProtocols] implements the layout of the common
      protocols ([matchProtocols_correct]), so that messages reach the protocol
      they were written for ([message_reaches_protocol]); the peer set agrees
      with the running connections ([peerset_invariant]); broadcasts and
      announcements reach the peers that lack a record
      ([BroadcastFileData_correct], [announceStart_correct]), and what becomes of
      sent records up to the pool of the receiver ([sent_records_arrive]); a
      request is answered at most once ([dispatcher_at_most_once]); exactly which
      messages make a node panic, on the way to its pool, its fetcher and its
      database ([handleMessage_panics]).  The fork filter follows its specification
      ([fork_filter_correct]), and nodes of the same chain shake hands wherever
      they are on it ([handshake_connects]).
    - Pool and fetcher: invariants over all reachable states ([pool_invariant],
      [fetcher_invariant]), [Add] as a sequence of single additions
      ([Add_sequential]), what a start loads from the journal and leaves of it
      ([restart_loads_then_forgets]), and which
      event can make the fetcher panic ([loop_panics_only_on_timeout]).
    - Signatures: what is hashed determines what is signed
      ([eip155Preimage_injective]), and a signature recovers its signer
      ([SingerTool_roundtrip]).
    - Synchronisation: a record that one transaction confirms leaves the pool
      ([confirmed_record_leaves_pool]; one that two confirm does not,
      [twice_confirmed_stays]), the ledger is written completely or not
      at all ([ledger_all_or_nothing]), runs do not overlap if the layer-one
      node answers in time ([sync_exclusive]), every block is processed once
      ([fromGenesis_covers], with the head excluded; [RunSync_height]); the logs of the commitment
      contract are read back and no log makes the parser panic
      ([ParseSendDACommitment_roundtrip], [ParseSendDACommitment_total]), nor
      does an answer to a call ([NAMESPACE_correct]), since values survive packing and unpacking
      ([Pack_Unpack]) and unpacking ends on any data, within the ranges of the
      types that are checked ([Unpack_total]);
      inscriptions are read back
      ([inscription_roundtrip]) and become briefs ([GenerateBrief_correct]).
    - Storage: which fields of a stored record read back and what becomes of the
      others ([saved_record_reads_back]), the
      ordered map and the sort caches work ([OrderedMap_correct],
      [Sort_correct]).
    - The trie: over the life of a database it is a map
      ([sessions_refine_map]), and its root hash stands for that map, whatever
      the order of the operations ([root_hash_stands_for_map]).  Proofs convince a
      verifier ([Prove_VerifyProof]), and nothing else does as long as the
      database of proof nodes has no other bytes under the hash of a node
      ([VerifyProof_sound]).  The stack trie has the same hashes
      ([stack_trie_hash]) and writes a complete trie ([stack_trie_commit]), so
      that [DeriveSha] gives the hash of the list as a map
      ([DeriveSha_correct]), which determines the list ([DeriveSha_binding]).
    - The state: reverting to a valid snapshot gives back the answers of its
      time, whatever happened since ([snapshot_revert]).
    - The interface for users: what a caller of [SendDAByParams] gets, and what
      of it can be relied on ([SendDAByParams_correct]).
    - Defects of the code are stated as theorems too, for example
      [submit_misread], [checkReorg_never_rewinds],
      [failed_request_stalls], [syncs_overlap], [empty_event_panics],
      [SendBatchDA_shares] and [file_datas_messages_unsendable].

    ** Fuel

    Recursions that are not structural take fuel and answer [Stuck] without;
    the callers give enough, and the theorems say so by excluding [Stuck].  A
    decoder gets the length of its input plus the depth of the type, since every
    element of a list takes a byte or a level of nesting; the journal's loop the
    length of the file; quicksort the length of the slice; [knownCache.Add] the
    size of the set; [Enqueue] the number of records; a synchronisation from
    genesis the number of chunks ([chunkRounds]); the retries of [Get] and
    [GetDAByCommit] two rounds; an operation on the trie two levels for every
    nibble of the key, one for the node and one for a reference to it
    ([levels]); the decoder of nodes the length of the buffer; the verifier of a
    proof one round for every nibble; the binary search for a snapshot the
    number of valid ones; a type expression its length, and the search for
    an unused name the number of names in use.

    ** Not modelled

    - In [rlp]: struct tags, [uint256.Int], types with their own [EncodeRLP] or
      [DecodeRLP] and the cache of types, which the record does not use.
    - In [trie]: the databases behind the tries, of which [TrieDB] states what a
      trie relies on; iterators, range proofs and the sync scheduler.
    - In [core/state]: [SetStorage], which is for debugging and not journaled, [Commit] and the deletion of destructed storage, the
      prefetcher, dumps and iterators, the layers of the snapshot tree.
    - Locks: each modelled operation holds its lock for its whole length.
    - The parts of [eth/protocols/eth] for blocks, headers and transactions, the
      snap protocol, and the packages inherited from go-ethereum which the path
      of a record does not enter (consensus, wallets, RPC, the
      command line, discovery and the encrypted transport).
    - In [accounts/abi]: the decoding of JSON, text forms, [MakeTopics],
      unpacking into maps, transactions and subscriptions; the tables of
      [unicode] are a class ([Unicode]).  In [contract/]: the generated methods
      that nothing calls.
    - What a failed decoding leaves in its target is a parameter of [Handlers].
    - Clocks: the zone has one offset, without summer time ([Api.hourStart]).
    - Floating point: the transaction fee of the Bitcoin worker is a parameter.

    Candidates for the next extension are the databases of the trie, the
    key-value caches and the event loops of [eth/handler.go]. *)

From stdpp Require Export base numbers list gmap fin_maps sets strings.
From Stdlib Require Export ZArith Lia Permutation.

(** ** Outcomes of Go code

    A Go function that can fail at run time (an index out of range, a nil
    dereference, an explicit [panic]) is a function into [outcome].  [Stuck]
    is what a recursion with fuel answers when its fuel is used up; every
    theorem about a fuelled function shows that [Stuck] does not occur with
    the fuel its callers give. *)

Inductive outcome (A : Type) : Type :=
| Done (a : A)
| Panic
| Stuck.
Arguments Done {A} a.
Arguments Panic {A}.
Arguments Stuck {A}.

#[export] Instance outcome_ret : MRet outcome := fun A a => Done a.
#[export] Instance outcome_bind : MBind outcome := fun A B f m =>
  match m with Done a => f a | Panic => Panic | Stuck => Stuck end.
#[export] Instance outcome_fmap : FMap outcome := fun A B f m =>
  match m with Done a => Done (f a) | Panic => Panic | Stuck => Stuck end.

#[export] Instance Done_inj A : Inj (=) (=) (@Done A).
Proof. by intros ? ? [=]. Qed.

Definition isDone {A : Type} (o : outcome A) : bool := match o with Done _ => true | _ => false end.

Lemma isDone_true {A : Type} (o : outcome A) : isDone o = true -> exists a, o = Done a.
Proof. destruct o; [eauto|done..]. Qed.

(** [fold_outcome f l s]: a [for ... range l] loop whose body may panic. *)
Fixpoint fold_outcome {A S : Type} (f : S -> A -> outcome S) (l : list A) (s : S) : outcome S :=
  match l with
  | [] => Done s
  | a :: l => match f s a with
              | Done s => fold_outcome f l s
              | Panic => Panic
              | Stuck => Stuck
              end
  end.

(** ** Machine integers *)

Definition wrap (w z : Z) : Z := z `mod` 2 ^ w.
Definition u8 (z : Z) : Z := wrap 8 z.
Definition u32 (z : Z) : Z := wrap 32 z.
Definition u64 (z : Z) : Z := wrap 64 z.

(** Two's complement reading of the low [w] bits. *)
Definition swrap (w z : Z) : Z := (z + 2 ^ (w - 1)) `mod` 2 ^ w - 2 ^ (w - 1).
Definition i64 (z : Z) : Z := swrap 64 z.

Definition in_u64 (z : Z) : Prop := (0 <= z < 2 ^ 64)%Z.
Definition in_i64 (z : Z) : Prop := (- 2 ^ 63 <= z < 2 ^ 63)%Z.

(** ** Slices: indexed reads and writes with Go's bounds checks *)

Definition index {A : Type} (l : list A) (i : Z) : outcome A :=
  if decide (0 <= i)%Z
  then match l !! Z.to_nat i with Some x => Done x | None => Panic end
  else Panic.

Definition store {A : Type} (l : list A) (i : Z) (x : A) : outcome (list A) :=
  if decide (0 <= i < Z.of_nat (length l))%Z
  then Done (<[Z.to_nat i := x]> l)
  else Panic.

(** [s[lo:hi]] on a slice whose capacity is its length. *)
Definition subslice {A : Type} (l : list A) (lo hi : Z) : outcome (list A) :=
  if decide (0 <= lo <= hi /\ hi <= Z.of_nat (length l))%Z
  then Done (take (Z.to_nat (hi - lo)) (drop (Z.to_nat lo) l))
  else Panic.

(** ** Automation *)

Create HintDb go.

(** Split every [match]/[if] of the goal and of the hypotheses, then simplify. *)
Ltac go_split :=
  repeat first
    [ progress simplify_eq/=
    | case_decide
    | case_match ].

Ltac go := go_split; try done; eauto with go; try lia.

(** ** Lemmas on machine integers *)

Lemma wrap_small w z : (0 <= z < 2 ^ w)%Z -> wrap w z = z.
Proof. intros. unfold wrap. by apply Z.mod_small. Qed.

Lemma wrap_bound w z : (0 <= w)%Z -> (0 <= wrap w z < 2 ^ w)%Z.
Proof. intros. unfold wrap. apply Z.mod_pos_bound. by apply Z.pow_pos_nonneg. Qed.

Lemma u64_small z : in_u64 z -> u64 z = z.
Proof. apply wrap_small. Qed.

Lemma u64_bound z : in_u64 (u64 z).
Proof. apply wrap_bound. lia. Qed.

Lemma i64_small z : in_i64 z -> i64 z = z.
Proof.
  unfold in_i64, i64, swrap. intros.
  change (64 - 1)%Z with 63%Z. rewrite Z.mod_small; lia.
Qed.

(** A [uint64] stored as an [int64] and read back is unchanged. *)
Lemma u64_i64 z : in_u64 z -> u64 (i64 z) = z.
Proof.
  unfold in_u64, u64, wrap, i64, swrap. intros.
  rewrite Zminus_mod_idemp_l. replace (z + 2 ^ (64 - 1) - 2 ^ (64 - 1))%Z with z by lia.
  by apply Z.mod_small.
Qed.

#[export] Hint Resolve u64_bound : go.

(** ** Lemmas on slices *)

Lemma index_nat {A} (l : list A) (i : nat) x :
  l !! i = Some x -> index l (Z.of_nat i) = Done x.
Proof. unfold index. intros H. rewrite decide_True by lia. by rewrite Nat2Z.id, H. Qed.

Lemma index_0 {A} (x : A) l : index (x :: l) 0 = Done x.
Proof. done. Qed.

Lemma index_Done {A} (l : list A) (i : Z) x :
  index l i = Done x <-> (0 <= i)%Z /\ l !! Z.to_nat i = Some x.
Proof. unfold index. split; intros; go_split; naive_solver. Qed.

Lemma index_in_range {A} (l : list A) (i : Z) :
  (0 <= i < Z.of_nat (length l))%Z -> exists x, index l i = Done x.
Proof.
  intros H. destruct (lookup_lt_is_Some_2 l (Z.to_nat i)) as [x Hx]; [lia|].
  exists x. apply index_Done. split; [lia | done].
Qed.

Lemma store_Done {A} (l : list A) (i : Z) (x : A) :
  (0 <= i < Z.of_nat (length l))%Z -> store l i x = Done (<[Z.to_nat i := x]> l).
Proof. intros. unfold store. by rewrite decide_True. Qed.

#[export] Hint Resolve index_in_range store_Done : go.

(** ** Loops *)

Lemma fold_outcome_app {A S} (f : S -> A -> outcome S) l1 l2 s :
  fold_outcome f (l1 ++ l2) s = (s' ← fold_outcome f l1 s; fold_outcome f l2 s').
Proof. revert s. induction l1 as [|a l1 IH]; intros s; simpl; [done|]. by destruct (f s a). Qed.

(** A loop whose body preserves [I] and never panics under it runs to the end. *)
Lemma fold_outcome_inv {A S} (I : list A -> S -> Prop) (f : S -> A -> outcome S) l s :
  I l s ->
  (forall a l' s, I (a :: l') s -> exists s', f s a = Done s' /\ I l' s') ->
  exists s', fold_outcome f l s = Done s' /\ I [] s'.
Proof.
  intros HI Hstep. revert s HI. induction l as [|a l IH]; intros s HI; simpl; [eauto|].
  destruct (Hstep _ _ _ HI) as (s' & -> & HI'). auto.
Qed.

Lemma fold_outcome_not_stuck {A S} (f : S -> A -> outcome S) l s : (forall s a, f s a <> Stuck) -> fold_outcome f l s <> Stuck.
Proof. intros Hf. revert s. induction l as [|a l IH]; intros s; [done|]. cbn [fold_outcome]. specialize (Hf s a). by destruct (f s a). Qed.

(** An element on which the body panics makes the loop panic. *)
Lemma fold_outcome_Panic {A S} (f : S -> A -> outcome S) l a s :
  (forall s a, f s a <> Stuck) -> a ∈ l -> (forall s, f s a = Panic) -> fold_outcome f l s = Panic.
Proof.
  intros Hst Ha Hp. revert s. induction l as [|b l IH]; intros s; [by apply not_elem_of_nil in Ha|]. cbn [fold_outcome].
  apply elem_of_cons in Ha as [<-|Ha]; [by rewrite Hp|]. specialize (Hst s b). destruct (f s b); [by apply IH|done|done].
Qed.

(** When whether the body panics depends on the element only. *)
Lemma fold_outcome_Panic_iff {A S} (P : A -> Prop) (f : S -> A -> outcome S) l s :
  (forall s a, f s a <> Stuck) -> (forall s a, f s a = Panic <-> P a) -> fold_outcome f l s = Panic <-> exists a, a ∈ l /\ P a.
Proof.
  intros Hst HP. split; [|intros (a & Ha & Hp); apply (fold_outcome_Panic f l a); [done|done|intros; by apply HP]].
  revert s. induction l as [|a l IH]; intros s; cbn [fold_outcome]; [done|]. destruct (f s a) as [s'| |] eqn:Hf; [|..|by destruct (Hst s a)].
  - intros (b & Hb & Hp)%IH. exists b. set_solver.
  - intros _. exists a. apply HP in Hf. set_solver.
Qed.

(** An invariant of the rounds that do not panic. *)
Lemma fold_outcome_Done {A S} (I : S -> Prop) (f : S -> A -> outcome S) l s s' :
  (forall s a s', I s -> f s a = Done s' -> I s') -> I s -> fold_outcome f l s = Done s' -> I s'.
Proof.
  intros Hstep. revert s. induction l as [|a l IH]; intros s HI; cbn [fold_outcome]; [by intros [= <-]|].
  destruct (f s a) as [s1| |] eqn:Hf; [|done..]. apply IH. by eapply Hstep.
Qed.

(** The same over a range of indices, which the invariant may mention. *)
Lemma fold_outcome_seq {S} (I : nat -> S -> Prop) (f : S -> nat -> outcome S) n m s s' :
  I n s -> (forall i s s', (n <= i < n + m)%nat -> I i s -> f s i = Done s' -> I (i + 1)%nat s') ->
  fold_outcome f (seq n m) s = Done s' -> I (n + m)%nat s'.
Proof.
  revert n s. induction m as [|m IH]; intros n s HI Hstep; cbn [seq fold_outcome]; [intros [= <-]; by rewrite Nat.add_0_r|].
  destruct (f s n) as [s1| |] eqn:Hf; [|done..]. replace (n + Datatypes.S m)%nat with (Datatypes.S n + m)%nat by lia.
  apply IH; [|intros; eapply Hstep; [lia|done..]]. rewrite <-Nat.add_1_r. eapply Hstep; [lia|done..].
Qed.

(** ** Filtering *)

Lemma filter_all {A} (P : A -> Prop) `{forall x, Decision (P x)} (l : list A) :
  (forall x, x ∈ l -> P x) -> filter P l = l.
Proof.
  induction l as [|x l IH]; intros HP; [done|]. rewrite filter_cons_True by (apply HP; set_solver).
  f_equal. apply IH. intros y Hy. apply HP. set_solver.
Qed.

(** ** Reachability of a step relation *)

Section reachability.
Context {St Ev : Type} (init : St -> Prop) (step : St -> Ev -> St -> Prop).

Inductive reachable : St -> Prop :=
| reach_init s : init s -> reachable s
| reach_step s e s' : reachable s -> step s e s' -> reachable s'.

Lemma reachable_inv (I : St -> Prop) :
  (forall s, init s -> I s) ->
  (forall s e s', I s -> step s e s' -> I s') ->
  forall s, reachable s -> I s.
Proof. intros H0 H1 s. induction 1; eauto. Qed.

End reachability.
