(* ===== verification/Bytes.v ===== *)
(** * Bytes, hexadecimal text, hashes and addresses

    [common/bytes.go], [common/types.go] and the byte-string half of
    [common/hexutil/hexutil.go], with what they use of Go's [encoding/hex],
    [bytes] and [encoding/binary].  A byte is an integer in [0, 256); Go's
    strings are byte sequences, so text is a list of bytes too. *)

From S2P Require Import Prelude.

Local Open Scope Z_scope.

Definition byte_ok (b : Z) : Prop := 0 <= b < 256.
Definition bytes_ok (l : list Z) : Prop := Forall byte_ok l.

Abbreviation Hash := (list Z) (only parsing).
Abbreviation Address := (list Z) (only parsing).

Definition HashLength : nat := 32.
Definition AddressLength : nat := 20.
Definition zeroHash : Hash := replicate HashLength 0.

Definition hash_ok (h : Hash) : Prop := length h = HashLength /\ bytes_ok h.
Definition address_ok (a : Address) : Prop := length a = AddressLength /\ bytes_ok a.

Lemma bytes_ok_check l : forallb (fun b => (0 <=? b) && (b <? 256)) l = true -> bytes_ok l.
Proof. intros H%Is_true_true%forallb_True. eapply Forall_impl; [exact H|]. intros b Hb%Is_true_true. unfold byte_ok. lia. Qed.

(** [crypto.Keccak256] and [types.EmptyRootHash], the hash of the encoding of an
    empty trie. *)
Class Keccak := { sha : list Z -> list Z; emptyRoot : Hash }.

Class KeccakLaws (K : Keccak) := {
  sha_len b : length (sha b) = 32%nat;
  emptyRoot_sha : emptyRoot = sha [0x80]
}.

(** Go string literals as byte lists. *)
Fixpoint lit (s : string) : list Z :=
  match s with
  | EmptyString => []
  | String c s => Z.of_N (Ascii.N_of_ascii c) :: lit s
  end.

(** ** [encoding/hex] *)

Definition hexchar (n : Z) : Z := if decide (n < 10) then 48 + n else 87 + n.

(** [reverseHexTable]: [None] is the table's 0xff. *)
Definition hexval (c : Z) : option Z :=
  if decide (48 <= c <= 57) then Some (c - 48)
  else if decide (97 <= c <= 102) then Some (c - 87)
  else if decide (65 <= c <= 70) then Some (c - 55)
  else None.

Inductive hexErr := InvalidByteError (b : Z) | ErrLength.

Definition EncodeToString (d : list Z) : list Z :=
  d ≫= fun b => [hexchar (b `div` 16); hexchar (b `mod` 16)].

(** [DecodeString] answers the bytes decoded before the first error. *)
Fixpoint DecodeString (s : list Z) : list Z * option hexErr :=
  match s with
  | [] => ([], None)
  | [p] => ([], match hexval p with None => Some (InvalidByteError p) | Some _ => Some ErrLength end)
  | p :: q :: s =>
      match hexval p, hexval q with
      | None, _ => ([], Some (InvalidByteError p))
      | Some _, None => ([], Some (InvalidByteError q))
      | Some a, Some b => let '(l, e) := DecodeString s in (16 * a + b :: l, e)
      end
  end.

(** ** [common/bytes.go] *)

Definition has0xPrefix (str : list Z) : bool :=
  match str with
  | a :: b :: _ => bool_decide (a = 48 /\ (b = 120 \/ b = 88))
  | _ => false
  end.

Definition Bytes2Hex (d : list Z) : list Z := EncodeToString d.

Definition Hex2Bytes (str : list Z) : list Z := (DecodeString str).1.

Definition FromHex (s : list Z) : list Z :=
  let s := if has0xPrefix s then drop 2 s else s in
  let s := if decide (length s `mod` 2 = 1)%nat then 48 :: s else s in
  Hex2Bytes s.

Definition isHexCharacter (c : Z) : bool :=
  bool_decide (48 <= c <= 57) || bool_decide (97 <= c <= 102) || bool_decide (65 <= c <= 70).

Definition isHex (str : list Z) : bool :=
  if decide (length str `mod` 2 = 0)%nat then forallb isHexCharacter str else false.

Definition Hex2BytesFixed (str : list Z) (flen : nat) : list Z :=
  let h := (DecodeString str).1 in
  if decide (length h = flen) then h
  else if decide (flen < length h)%nat then drop (length h - flen) h
  else replicate (flen - length h) 0 ++ h.

Definition RightPadBytes (slice : list Z) (l : nat) : list Z :=
  if decide (l <= length slice)%nat then slice else slice ++ replicate (l - length slice) 0.

Definition LeftPadBytes (slice : list Z) (l : nat) : list Z :=
  if decide (l <= length slice)%nat then slice else replicate (l - length slice) 0 ++ slice.

Fixpoint TrimLeftZeroes (s : list Z) : list Z :=
  match s with
  | b :: s' => if decide (b = 0) then TrimLeftZeroes s' else s
  | [] => []
  end.

Definition TrimRightZeroes (s : list Z) : list Z := rev (TrimLeftZeroes (rev s)).

(** ** [common/types.go] *)

(** [h.SetBytes(b)] on a fixed-size array [h]: [b] is cropped from the left,
    and the bytes of [h] it does not cover stay. *)
Definition SetBytes (h : list Z) (b : list Z) : list Z :=
  let b := if decide (length h < length b)%nat then drop (length b - length h) b else b in
  take (length h - length b) h ++ b.

Definition BytesToHash (b : list Z) : Hash := SetBytes zeroHash b.
Definition HexToHash (s : list Z) : Hash := BytesToHash (FromHex s).
Definition BytesToAddress (b : list Z) : Address := SetBytes (replicate AddressLength 0) b.
Definition HexToAddress (s : list Z) : Address := BytesToAddress (FromHex s).

(** [bytes.Compare]: lexicographic order, a proper prefix comes first. *)
Fixpoint Compare (a b : list Z) : Z :=
  match a, b with
  | [], [] => 0
  | [], _ :: _ => -1
  | _ :: _, [] => 1
  | x :: a, y :: b => if decide (x = y) then Compare a b else if decide (x < y) then -1 else 1
  end.

Definition Cmp (h other : Hash) : Z := Compare h other.

(** [hexutil.Encode] and [Hash.Hex]. *)
Definition Encode0x (b : list Z) : list Z := 48 :: 120 :: EncodeToString b.
Definition HashHex (h : Hash) : list Z := Encode0x h.

(** [Address.Hex]: the EIP-55 checksum upper-cases the letters whose nibble of
    the hash of the lower-case text is above 7. *)
Definition checksumChar (hash : list Z) (i : nat) (c : Z) : Z :=
  let hb := default 0 (hash !! Nat.div i 2) in
  let hb := if decide (i `mod` 2 = 0)%nat then hb `div` 16 else hb `mod` 16 in
  if decide (57 < c /\ 7 < hb) then c - 32 else c.

Definition AddressHex (keccak : list Z -> list Z) (a : Address) : list Z :=
  let buf := EncodeToString a in
  48 :: 120 :: imap (checksumChar (keccak buf)) buf.

Definition IsHexAddress (s : list Z) : bool :=
  let s := if has0xPrefix s then drop 2 s else s in
  bool_decide (length s = 2 * AddressLength)%nat && isHex s.

(** ** [common/hexutil]: decoding with the prefix *)

Inductive hexutilErr := ErrEmptyString | ErrMissingPrefix | ErrSyntax | ErrOddLength.

Definition mapError (e : hexErr) : hexutilErr :=
  match e with InvalidByteError _ => ErrSyntax | ErrLength => ErrOddLength end.

Definition Decode (input : list Z) : list Z * option hexutilErr :=
  if decide (length input = 0)%nat then ([], Some ErrEmptyString)
  else if has0xPrefix input
       then let '(b, e) := DecodeString (drop 2 input) in (b, mapError <$> e)
       else ([], Some ErrMissingPrefix).

(** ** Big-endian integers ([encoding/binary], [math/big]) *)

(** [strings.ToLower] on ASCII text. *)
Definition toLower (s : list Z) : list Z := (fun c => if decide (65 <= c <= 90) then c + 32 else c) <$> s.

Definition be_to_Z (l : list Z) : Z := foldl (fun a b => a * 256 + b) 0 l.

Fixpoint be_of_Z (n : nat) (z : Z) : list Z :=
  match n with
  | O => []
  | S n => be_of_Z n (z `div` 256) ++ [z `mod` 256]
  end.

(** The number of significant bytes; [big.Int.Bytes] is the shortest big-endian form. *)
Definition nbytes (z : Z) : nat := if decide (z <= 0) then 0%nat else Z.to_nat (Z.log2 z `div` 8 + 1).
Definition bigBytes (z : Z) : list Z := be_of_Z (nbytes z) z.

(** ** Hexadecimal round trips *)

Lemma hexval_hexchar n : 0 <= n < 16 -> hexval (hexchar n) = Some n.
Proof. intros. unfold hexval, hexchar. repeat case_decide; try lia; f_equal; lia. Qed.

Lemma byte_split b : byte_ok b -> 0 <= b `div` 16 < 16 /\ 0 <= b `mod` 16 < 16.
Proof. unfold byte_ok. intros. split; [|apply Z.mod_pos_bound; lia]. split; [apply Z.div_pos; lia|].
  apply Z.div_lt_upper_bound; lia. Qed.

(** Decoding is insensitive to a change of case of the encoded text. *)
Definition case_variant (c d : Z) : Prop := hexval c = hexval d.

Lemma Decode_case_variant l l' :
  Forall2 (fun b c => hexval b = hexval c) l l' ->
  Forall (fun c => is_Some (hexval c)) l ->
  DecodeString l' = DecodeString l.
Proof.
  remember (length l) as n eqn:Hn. revert l l' Hn.
  induction n as [n IH] using lt_wf_ind. intros l l' Hn HF Hs.
  destruct HF as [|p p' l l' Hp HF]; [done|].
  destruct HF as [|q q' l l' Hq HF]; simpl.
  { rewrite <-Hp. apply Forall_cons_1 in Hs as [[? E] _]. by rewrite E. }
  rewrite <-Hp, <-Hq. apply Forall_cons_1 in Hs as [[? ->] [[? ->] Hs]%Forall_cons_1].
  by rewrite (IH (length l) ltac:(simpl in Hn; lia) l l' eq_refl HF Hs).
Qed.

Lemma DecodeString_Encode d : bytes_ok d -> DecodeString (EncodeToString d) = (d, None).
Proof.
  induction 1 as [|b d Hb _ IH]; [done|].
  change (EncodeToString (b :: d)) with (hexchar (b `div` 16) :: hexchar (b `mod` 16) :: EncodeToString d).
  pose proof (byte_split b Hb) as [H1 H2]. simpl.
  rewrite !hexval_hexchar by done. rewrite IH. f_equal. f_equal.
  pose proof (Z.div_mod b 16). lia.
Qed.

Lemma length_EncodeToString d : length (EncodeToString d) = (2 * length d)%nat.
Proof. induction d as [|b d IH]; [done|]. simpl in *. lia. Qed.

Lemma EncodeToString_valid d : bytes_ok d -> Forall (fun c => is_Some (hexval c)) (EncodeToString d).
Proof.
  induction 1 as [|b d Hb _ IH]; [constructor|]. pose proof (byte_split b Hb) as [H1 H2].
  simpl. repeat constructor; [rewrite hexval_hexchar by done; eauto..|done].
Qed.

Lemma Hex2Bytes_Bytes2Hex d : bytes_ok d -> Hex2Bytes (Bytes2Hex d) = d.
Proof. intros. unfold Hex2Bytes, Bytes2Hex. by rewrite DecodeString_Encode. Qed.

Lemma FromHex_0x l : (length l `mod` 2 = 0)%nat -> FromHex (48 :: 120 :: l) = Hex2Bytes l.
Proof.
  intros H. unfold FromHex. change (has0xPrefix (48 :: 120 :: l)) with true.
  cbv beta iota. change (drop 2 (48 :: 120 :: l)) with l. rewrite decide_False; [done|lia].
Qed.

Lemma even_double n : ((2 * n) `mod` 2 = 0)%nat.
Proof. rewrite Nat.mul_comm. apply Nat.Div0.mod_mul. Qed.

(** ** Fixed-size arrays *)

Lemma length_SetBytes h b : length (SetBytes h b) = length h.
Proof. unfold SetBytes. case_decide; rewrite length_app, length_take, ?length_drop; lia. Qed.

(** A source at least as long as the array is cropped from the left. *)
Lemma SetBytes_long h b :
  (length h <= length b)%nat -> SetBytes h b = drop (length b - length h) b.
Proof.
  intros. unfold SetBytes. case_decide.
  - rewrite length_drop. replace (length h - _)%nat with 0%nat by lia. done.
  - replace (length h - length b)%nat with 0%nat by lia.
    replace (length b - length h)%nat with 0%nat by lia. by rewrite drop_0.
Qed.

Lemma SetBytes_same h b : length b = length h -> SetBytes h b = b.
Proof. intros. rewrite SetBytes_long by lia. by replace (length b - length h)%nat with 0%nat by lia. Qed.

Lemma BytesToHash_id h : length h = HashLength -> BytesToHash h = h.
Proof. intros. by apply SetBytes_same. Qed.

Lemma BytesToAddress_id a : length a = AddressLength -> BytesToAddress a = a.
Proof. intros. by apply SetBytes_same. Qed.

(** Only the last 32 bytes of the source count. *)
Lemma BytesToHash_app l h : length h = HashLength -> BytesToHash (l ++ h) = h.
Proof.
  intros Hh. unfold BytesToHash.
  change HashLength with (length zeroHash) in Hh. rewrite SetBytes_long; rewrite length_app; [|lia].
  replace (length l + length h - length zeroHash)%nat with (length l) by lia. by rewrite drop_app_length.
Qed.

Lemma length_BytesToHash b : length (BytesToHash b) = HashLength.
Proof. unfold BytesToHash. by rewrite length_SetBytes. Qed.

Lemma Compare_eq a b : Compare a b = 0 <-> a = b.
Proof.
  revert b. induction a as [|x a IH]; intros [|y b]; simpl; try (split; [lia|done]); [done|].
  case_decide; [|case_decide; split; [lia|congruence|lia|congruence]].
  subst. rewrite IH. naive_solver.
Qed.

(** ** Text forms of hashes and addresses *)

Lemma FromHex_Encode0x d : bytes_ok d -> FromHex (Encode0x d) = d.
Proof.
  intros. unfold Encode0x. rewrite FromHex_0x; [by apply Hex2Bytes_Bytes2Hex|].
  rewrite length_EncodeToString. apply even_double.
Qed.

Lemma HexToHash_HashHex h : hash_ok h -> HexToHash (HashHex h) = h.
Proof. intros [Hl Hb]. unfold HexToHash, HashHex. rewrite FromHex_Encode0x by done. by apply BytesToHash_id. Qed.

(** The letters [a]..[f] keep their value when upper-cased. *)
Lemma checksumChar_hexval hash i n :
  0 <= n < 16 -> hexval (checksumChar hash i (hexchar n)) = Some n.
Proof.
  intros Hn. unfold checksumChar. case_decide as H; [|by apply hexval_hexchar].
  destruct H as [H _]. unfold hexchar, hexval in *. repeat case_decide; try lia; f_equal; lia.
Qed.

Lemma EncodeToString_nibbles d :
  bytes_ok d -> Forall (fun c => exists n, 0 <= n < 16 /\ c = hexchar n) (EncodeToString d).
Proof.
  induction 1 as [|b d Hb _ IH]; [constructor|]. pose proof (byte_split b Hb) as [H1 H2].
  simpl. repeat constructor; eauto.
Qed.

Lemma imap_checksum_variant hash l k :
  Forall (fun c => exists n, 0 <= n < 16 /\ c = hexchar n) l ->
  Forall2 (fun b c => hexval b = hexval c) l (imap (fun i => checksumChar hash (i + k)) l).
Proof.
  intros H. revert k. induction H as [|c l (n & Hn & ->) _ IH]; intros k; [constructor|].
  rewrite imap_cons. constructor.
  - by rewrite hexval_hexchar, checksumChar_hexval.
  - erewrite imap_ext; [exact (IH (S k))|]. intros i x _. simpl. f_equal. lia.
Qed.

(** A mixed-case checksummed address decodes to the address, whatever the
    hash function of the checksum answers. *)
Lemma HexToAddress_AddressHex keccak a :
  address_ok a -> HexToAddress (AddressHex keccak a) = a.
Proof.
  intros [Hl Hb]. unfold HexToAddress, AddressHex.
  rewrite FromHex_0x; [|rewrite length_imap, length_EncodeToString; apply even_double].
  unfold Hex2Bytes. rewrite (Decode_case_variant (EncodeToString a)).
  - rewrite DecodeString_Encode by done. by apply BytesToAddress_id.
  - erewrite imap_ext; [apply (imap_checksum_variant (keccak (EncodeToString a)) _ 0);
      by apply EncodeToString_nibbles|]. intros i x _. simpl. by rewrite Nat.add_0_r.
  - by apply EncodeToString_valid.
Qed.

(** ** Big-endian integers *)

Lemma be_to_Z_snoc l b : be_to_Z (l ++ [b]) = be_to_Z l * 256 + b.
Proof. unfold be_to_Z. by rewrite foldl_app. Qed.

Lemma be_to_Z_cons b l : be_to_Z (b :: l) = b * 256 ^ Z.of_nat (length l) + be_to_Z l.
Proof.
  induction l as [|x l IH] using rev_ind; [unfold be_to_Z; simpl; lia|].
  rewrite app_comm_cons, !be_to_Z_snoc, IH, length_app. simpl.
  replace (Z.of_nat (length l + 1)) with (Z.succ (Z.of_nat (length l))) by lia.
  rewrite Z.pow_succ_r by lia. lia.
Qed.

Lemma be_to_Z_zeros n l : be_to_Z (replicate n 0 ++ l) = be_to_Z l.
Proof. induction n as [|n IH]; [done|]. cbn [replicate app]. rewrite be_to_Z_cons, IH. lia. Qed.

Lemma length_be_of_Z n z : length (be_of_Z n z) = n.
Proof. revert z. induction n as [|n IH]; intros z; simpl; [done|]. rewrite length_app, IH. simpl. lia. Qed.

Lemma be_of_Z_ok n z : bytes_ok (be_of_Z n z).
Proof.
  revert z. induction n as [|n IH]; intros z; simpl; [constructor|].
  apply Forall_app. split; [apply IH|]. repeat constructor; apply Z.mod_pos_bound; lia.
Qed.

Lemma be_to_of_Z n z : be_to_Z (be_of_Z n z) = z `mod` 256 ^ Z.of_nat n.
Proof.
  revert z. induction n as [|n IH]; intros z; [simpl; by rewrite Z.mod_1_r|].
  cbn [be_of_Z]. rewrite be_to_Z_snoc, IH, Nat2Z.inj_succ, Z.pow_succ_r by lia.
  rewrite (Z.rem_mul_r z 256 (256 ^ Z.of_nat n)) by lia. lia.
Qed.

Lemma be_to_Z_bound l : bytes_ok l -> 0 <= be_to_Z l < 256 ^ Z.of_nat (length l).
Proof.
  induction l as [|b l IH] using rev_ind; [done|].
  intros [Hl [Hb _]%Forall_cons_1]%Forall_app. rewrite be_to_Z_snoc, length_app.
  specialize (IH Hl). unfold byte_ok in Hb. simpl.
  replace (Z.of_nat (length l + 1)) with (Z.succ (Z.of_nat (length l))) by lia.
  rewrite Z.pow_succ_r by lia. lia.
Qed.

Lemma be_of_to_Z l : bytes_ok l -> be_of_Z (length l) (be_to_Z l) = l.
Proof.
  induction l as [|b l IH] using rev_ind; [done|].
  intros [Hl [Hb _]%Forall_cons_1]%Forall_app. rewrite be_to_Z_snoc, length_app.
  replace (length l + length [b])%nat with (S (length l)) by (simpl; lia).
  cbn [be_of_Z]. unfold byte_ok in Hb.
  rewrite Z.div_add_l, (Z.div_small b) by lia. rewrite Z.add_0_r, IH by done.
  rewrite Z.add_comm, Z_mod_plus_full, Z.mod_small by lia. done.
Qed.

Lemma be_of_Z_inj n a b :
  0 <= a < 256 ^ Z.of_nat n -> 0 <= b < 256 ^ Z.of_nat n -> be_of_Z n a = be_of_Z n b -> a = b.
Proof.
  intros Ha Hb H. apply (f_equal be_to_Z) in H. rewrite !be_to_of_Z in H.
  by rewrite !Z.mod_small in H.
Qed.

Lemma nbytes_bound z : 0 <= z -> z < 256 ^ Z.of_nat (nbytes z).
Proof.
  intros Hz. unfold nbytes. case_decide; [assert (z = 0) as -> by lia; done|].
  pose proof (Z.log2_spec z ltac:(lia)) as [_ H1]. pose proof (Z.log2_nonneg z).
  pose proof (Z.div_pos (Z.log2 z) 8 ltac:(done) ltac:(done)).
  rewrite Z2Nat.id by lia. change 256 with (2 ^ 8). rewrite <-Z.pow_mul_r by lia.
  eapply Z.lt_le_trans; [exact H1|]. apply Z.pow_le_mono_r; [lia|].
  pose proof (Z.mul_succ_div_gt (Z.log2 z) 8). lia.
Qed.

Lemma be_to_Z_bigBytes z : 0 <= z -> be_to_Z (bigBytes z) = z.
Proof. intros. unfold bigBytes. rewrite be_to_of_Z. apply Z.mod_small. by split; [|apply nbytes_bound]. Qed.

#[export] Hint Resolve be_of_Z_ok be_to_Z_bound : go.
