(* ===== verification/RlpRaw.v ===== *)
(** * RLP headers and raw values

    [rlp/raw.go], [rlp/iterator.go] and the header functions of
    [rlp/encode.go]: the sizes and bytes of headers, splitting an encoded value
    off a byte slice, counting values and the integer helpers.  [encStr] and
    [encList] are the encodings the package documents; the splitting functions
    are shown to invert them and to accept nothing else.

    A Go slice is shorter than [2^63] bytes, so lengths are integers without
    wrap-around here; the arithmetic on sizes read from the input is that of
    [uint64]. *)

From S2P Require Import Prelude Bytes.

Local Open Scope Z_scope.

(** ** Kinds and errors *)

(** [rlp.Kind]; the value -1 of an unread kind is the absence of one. *)
Inductive Kind := KByte | KString | KList.

#[export] Instance Kind_eq_dec : EqDecision Kind.
Proof. solve_decision. Defined.

(** The errors of the package and of [io].  A [decodeError] is known by its
    message; the Go type and the path of the element it also carries only
    appear in its text. *)
Inductive decodeMsg :=
| NonCanonicalInteger
| NonCanonicalSize
| ExpectedInputList
| ExpectedInputString
| InputStringTooLong
| InputStringTooShort
| InputListTooManyElements
| InputListTooFewElements
| TooFewElements
| WrongEmptyKind.

Inductive rlpErr :=
| EOL
| ErrExpectedString
| ErrExpectedList
| ErrCanonInt
| ErrCanonSize
| ErrElemTooLarge
| ErrValueTooLarge
| ErrMoreThanOneValue
| ErrNegativeBigInt
| errNotInList
| errNotAtEOL
| errUintOverflow
| errInvalidBool
| errWrongSize
| errIOEOF
| errUnexpectedEOF
| decodeError (msg : decodeMsg)
| errIllTyped.

#[export] Instance decodeMsg_eq_dec : EqDecision decodeMsg.
Proof. solve_decision. Defined.
#[export] Instance rlpErr_eq_dec : EqDecision rlpErr.
Proof. solve_decision. Defined.

(** Code that returns a value or an error, and may panic. *)
Abbreviation res A := (outcome (rlpErr + A)) (only parsing).
Definition ok {A : Type} (a : A) : res A := Done (inr a).
Definition err {A : Type} (e : rlpErr) : res A := Done (inl e).
Definition rbind {A B : Type} (m : res A) (f : A -> res B) : res B :=
  match m with
  | Done (inr a) => f a
  | Done (inl e) => Done (inl e)
  | Panic => Panic
  | Stuck => Stuck
  end.

Declare Scope rlp_scope.
Delimit Scope rlp_scope with rlp.
Notation "x <-- m ; k" := (rbind m (fun x => k)) (at level 20, m at level 100, k at level 200, only parsing) : rlp_scope.
Notation "' p <-- m ; k" := (rbind m (fun p => k)) (at level 20, p pattern, m at level 100, k at level 200, only parsing) : rlp_scope.
Local Open Scope rlp_scope.

(** ** Headers ([rlp/encode.go]) *)

(** [for size = 1; ; size++ { if i >>= 8; i == 0 { return size } }]; eight
    rounds are enough for a [uint64], see [intsize_spec]. *)
Fixpoint intsizeLoop (fuel : nat) (size i : Z) : Z :=
  match fuel with
  | O => size
  | S fuel => let i := Z.shiftr i 8 in
              if decide (i = 0) then size else intsizeLoop fuel (size + 1) i
  end.
Definition intsize (i : Z) : Z := intsizeLoop 8 1 i.

(** The bytes [putint] stores, case by case. *)
Definition putintBytes (i : Z) : list Z :=
  let at_ k := u8 (Z.shiftr i k) in
  if decide (i < Z.shiftl 1 8) then [u8 i]
  else if decide (i < Z.shiftl 1 16) then [at_ 8; u8 i]
  else if decide (i < Z.shiftl 1 24) then [at_ 16; at_ 8; u8 i]
  else if decide (i < Z.shiftl 1 32) then [at_ 24; at_ 16; at_ 8; u8 i]
  else if decide (i < Z.shiftl 1 40) then [at_ 32; at_ 24; at_ 16; at_ 8; u8 i]
  else if decide (i < Z.shiftl 1 48) then [at_ 40; at_ 32; at_ 24; at_ 16; at_ 8; u8 i]
  else if decide (i < Z.shiftl 1 56) then [at_ 48; at_ 40; at_ 32; at_ 24; at_ 16; at_ 8; u8 i]
  else [at_ 56; at_ 48; at_ 40; at_ 32; at_ 24; at_ 16; at_ 8; u8 i].

(** Storing [src] at the beginning of [dst], which must have room for it. *)
Definition storeFront (dst src : list Z) : outcome (list Z) :=
  if decide (length src <= length dst)%nat then Done (src ++ drop (length src) dst) else Panic.

Definition putint (b : list Z) (i : Z) : outcome (list Z * Z) :=
  let bs := putintBytes i in
  b ← storeFront b bs; Done (b, Z.of_nat (length bs)).

Definition headsize (size : Z) : Z := if decide (size < 56) then 1 else 1 + intsize size.

Definition puthead (buf : list Z) (smalltag largetag size : Z) : outcome (list Z * Z) :=
  if decide (size < 56) then buf ← store buf 0 (u8 (smalltag + u8 size)); Done (buf, 1)
  else tail ← subslice buf 1 (Z.of_nat (length buf));
       '(tail, sizesize) ← putint tail size;
       Done (u8 (largetag + u8 sizesize) :: tail, sizesize + 1).

(** ** The documented encoding *)

(** A string or list header in front of a content of [n] bytes. *)
Definition header (smalltag largetag : Z) (n : nat) : list Z :=
  if decide (Z.of_nat n < 56) then [smalltag + Z.of_nat n]
  else largetag + Z.of_nat (length (bigBytes (Z.of_nat n))) :: bigBytes (Z.of_nat n).

Definition encList (content : list Z) : list Z := header 0xC0 0xF7 (length content) ++ content.

Definition encStr (b : list Z) : list Z :=
  match b with
  | [x] => if decide (x <= 0x7F) then [x] else header 0x80 0xB7 1 ++ [x]
  | _ => header 0x80 0xB7 (length b) ++ b
  end.

(** A value of kind [k] with a given content, and when that is the form the
    encoder gives to it: a single byte below [0x80] has no header. *)
Definition kindHeader (k : Kind) (n : nat) : list Z :=
  match k with KByte => [] | KString => header 0x80 0xB7 n | KList => header 0xC0 0xF7 n end.
Definition encKind (k : Kind) (content : list Z) : list Z := kindHeader k (length content) ++ content.

Definition canonical (k : Kind) (content : list Z) : Prop :=
  match k, content with
  | KByte, [x] => x < 0x80
  | KByte, _ => False
  | KString, [x] => 0x80 <= x
  | _, _ => True
  end.

(** ** Sizes ([rlp/raw.go]) *)

Definition StringSize (s : list Z) : Z :=
  match s with
  | [] => 1
  | [x] => if decide (x <= 0x7f) then 1 else 2
  | _ => u64 (headsize (Z.of_nat (length s)) + Z.of_nat (length s))
  end.
Definition BytesSize (b : list Z) : Z :=
  match b with
  | [] => 1
  | [x] => if decide (x <= 0x7f) then 1 else 2
  | _ => u64 (headsize (Z.of_nat (length b)) + Z.of_nat (length b))
  end.
Definition ListSize (contentSize : Z) : Z := u64 (headsize contentSize + contentSize).
Definition IntSize (x : Z) : Z := if decide (x < 0x80) then 1 else 1 + intsize x.
(** ** Splitting *)

(** [readSize(b, slen)]: [uint64(b[0])<<8*(slen-1) | ... | uint64(b[slen-1])]. *)
Definition sizeBytes (b : list Z) : Z := foldl (fun s x => Z.lor (Z.shiftl s 8) x) 0 b.

Definition readSize (b : list Z) (slen : Z) : res Z :=
  if decide (slen > Z.of_nat (length b)) then err errUnexpectedEOF
  else let s := sizeBytes (take (Z.to_nat slen) b) in
       if decide (s < 56) then err ErrCanonSize
       else b0 ← index b 0;
            if decide (b0 = 0) then err ErrCanonSize else ok s.

(** The cases of [readKind] with the size behind the tag [b]. *)
Definition longTag (k : Kind) (base b : Z) (buf : list Z) : res (Kind * Z * Z) :=
  rest ← subslice buf 1 (Z.of_nat (length buf));
  s <-- readSize rest (u8 (b - base)); ok (k, u64 (u8 (b - base) + 1), s).

(** The switch of [readKind] on the first byte [b]. *)
Definition readTag (buf : list Z) (b : Z) : res (Kind * Z * Z) :=
  if decide (b < 0x80) then ok (KByte, 0, 1)
  else if decide (b < 0xB8) then
    let contentsize := u8 (b - 0x80) in
    if decide (contentsize = 1 /\ (1 < length buf)%nat) then
      b1 ← index buf 1;
      if decide (b1 < 128) then err ErrCanonSize else ok (KString, 1, contentsize)
    else ok (KString, 1, contentsize)
  else if decide (b < 0xC0) then longTag KString 0xB7 b buf
  else if decide (b < 0xF8) then ok (KList, 1, u8 (b - 0xC0))
  else longTag KList 0xF7 b buf.

Definition readKind (buf : list Z) : res (Kind * Z * Z) :=
  if decide (length buf = 0%nat) then err errUnexpectedEOF
  else
    b ← index buf 0;
    '(k, tagsize, contentsize) <-- readTag buf b;
    if decide (contentsize > u64 (Z.of_nat (length buf) - tagsize)) then err ErrValueTooLarge
    else ok (k, tagsize, contentsize).

(** On an error the code also returns its input as the rest. *)
Definition Split (b : list Z) : res (Kind * list Z * list Z) :=
  '(k, ts, cs) <-- readKind b;
  content ← subslice b ts (u64 (ts + cs));
  rest ← subslice b (u64 (ts + cs)) (Z.of_nat (length b));
  ok (k, content, rest).

Definition SplitString (b : list Z) : res (list Z * list Z) :=
  '(k, content, rest) <-- Split b;
  if decide (k = KList) then err ErrExpectedString else ok (content, rest).

Definition SplitList (b : list Z) : res (list Z * list Z) :=
  '(k, content, rest) <-- Split b;
  if decide (k <> KList) then err ErrExpectedList else ok (content, rest).

Definition SplitUint64 (b : list Z) : res (Z * list Z) :=
  '(content, rest) <-- SplitString b;
  if decide (length content = 0%nat) then ok (0, rest)
  else if decide (length content = 1%nat) then
    c ← index content 0;
    if decide (c = 0) then err ErrCanonInt else ok (c, rest)
  else if decide (8 < length content)%nat then err errUintOverflow
  else match readSize content (u8 (Z.of_nat (length content))) with
       | Done (inr x) => ok (x, rest)
       | Done (inl _) => err ErrCanonInt
       | Panic => Panic
       | Stuck => Stuck
       end.

(** The loop runs as long as bytes are left and every round consumes one at
    least, see [CountValues_correct]. *)
Fixpoint countLoop (fuel : nat) (i : Z) (b : list Z) : res Z :=
  match fuel with
  | O => Stuck
  | S fuel =>
      if decide (length b = 0%nat) then ok i
      else '(_, tagsize, size) <-- readKind b;
           b ← subslice b (u64 (tagsize + size)) (Z.of_nat (length b));
           countLoop fuel (i + 1) b
  end.
Definition CountValues (b : list Z) : res Z := countLoop (S (length b)) 0 b.

Definition AppendUint64 (b : list Z) (i : Z) : list Z :=
  let at_ k := u8 (Z.shiftr i k) in
  if decide (i = 0) then b ++ [0x80]
  else if decide (i < 128) then b ++ [u8 i]
  else if decide (i < Z.shiftl 1 8) then b ++ [0x81; u8 i]
  else if decide (i < Z.shiftl 1 16) then b ++ [0x82; at_ 8; u8 i]
  else if decide (i < Z.shiftl 1 24) then b ++ [0x83; at_ 16; at_ 8; u8 i]
  else if decide (i < Z.shiftl 1 32) then b ++ [0x84; at_ 24; at_ 16; at_ 8; u8 i]
  else if decide (i < Z.shiftl 1 40) then b ++ [0x85; at_ 32; at_ 24; at_ 16; at_ 8; u8 i]
  else if decide (i < Z.shiftl 1 48) then b ++ [0x86; at_ 40; at_ 32; at_ 24; at_ 16; at_ 8; u8 i]
  else if decide (i < Z.shiftl 1 56) then b ++ [0x87; at_ 48; at_ 40; at_ 32; at_ 24; at_ 16; at_ 8; u8 i]
  else b ++ [0x88; at_ 56; at_ 48; at_ 40; at_ 32; at_ 24; at_ 16; at_ 8; u8 i].

(** ** The list iterator ([rlp/iterator.go]) *)

Record listIterator := mkIterator { itData : list Z; itNext : list Z; itErr : option rlpErr }.

Definition NewListIterator (data : list Z) : res listIterator :=
  '(k, t, c) <-- readKind data;
  if decide (k <> KList) then err ErrExpectedList
  else d ← subslice data t (u64 (t + c)); ok (mkIterator d [] None).

(** On an error the sizes are 0: the iterator stays where it is. *)
Definition Next (it : listIterator) : outcome (listIterator * bool) :=
  if decide (length (itData it) = 0%nat) then Done (it, false)
  else match readKind (itData it) with
       | Done (inr (_, t, c)) =>
           next ← subslice (itData it) 0 (u64 (t + c));
           data ← subslice (itData it) (u64 (t + c)) (Z.of_nat (length (itData it)));
           Done (mkIterator data next None, true)
       | Done (inl e) => Done (mkIterator (itData it) [] (Some e), true)
       | Panic => Panic
       | Stuck => Stuck
       end.

(** ** Shortest big-endian integers *)

Lemma nbytes_char n i : 256 ^ Z.of_nat n <= i < 256 ^ Z.of_nat (S n) -> nbytes i = S n.
Proof.
  intros [H1 H2]. pose proof (Z.pow_pos_nonneg 256 (Z.of_nat n) ltac:(lia) ltac:(lia)).
  assert (0 < i) by lia. unfold nbytes. rewrite decide_False by lia. change 256 with (2 ^ 8) in H1, H2.
  rewrite <-Z.pow_mul_r in H1, H2 by lia. apply Z.log2_le_pow2 in H1; [|lia]. apply Z.log2_lt_pow2 in H2; [|lia].
  replace (Z.log2 i `div` 8) with (Z.of_nat n); [lia|].
  apply (Z.div_unique_pos _ _ _ (Z.log2 i - 8 * Z.of_nat n)); lia.
Qed.

Lemma nbytes_lower i : 0 < i -> 256 ^ Z.of_nat (pred (nbytes i)) <= i.
Proof.
  intros Hi. unfold nbytes. rewrite decide_False by lia.
  pose proof (Z.log2_spec i Hi) as [H1 _]. pose proof (Z.log2_nonneg i).
  pose proof (Z.div_pos (Z.log2 i) 8 ltac:(done) ltac:(done)).
  rewrite Nat2Z.inj_pred, Z2Nat.id by lia. replace (Z.pred (Z.log2 i `div` 8 + 1)) with (Z.log2 i `div` 8) by lia.
  change 256 with (2 ^ 8). rewrite <-Z.pow_mul_r by lia.
  eapply Z.le_trans; [|exact H1]. apply Z.pow_le_mono_r; [lia|]. pose proof (Z.mul_div_le (Z.log2 i) 8). lia.
Qed.

Lemma nbytes_pos i : 0 < i -> (0 < nbytes i)%nat.
Proof. intros. pose proof (nbytes_bound i ltac:(lia)). destruct (nbytes i); simpl in *; lia. Qed.

Lemma nbytes_le i n : 0 <= i < 256 ^ Z.of_nat n -> (nbytes i <= n)%nat.
Proof.
  intros [Hi H]. destruct (decide (i = 0)) as [->|]; [unfold nbytes; simpl; lia|].
  pose proof (nbytes_lower i ltac:(lia)). pose proof (nbytes_pos i ltac:(lia)).
  destruct (decide (nbytes i <= n)%nat) as [|Hn]; [done|exfalso].
  pose proof (Z.pow_le_mono_r 256 (Z.of_nat n) (Z.of_nat (pred (nbytes i)))). lia.
Qed.

Lemma nbytes_u64 i : in_u64 i -> (nbytes i <= 8)%nat.
Proof. intros. apply nbytes_le. done. Qed.

Lemma nbytes_div i : 0 <= i -> nbytes (i `div` 256) = pred (nbytes i).
Proof.
  intros Hi. destruct (decide (i < 256)) as [H|H].
  - rewrite Z.div_small by lia. pose proof (nbytes_le i 1 ltac:(simpl; lia)). change (nbytes 0) with 0%nat. lia.
  - pose proof (nbytes_lower i ltac:(lia)) as H1. pose proof (nbytes_bound i ltac:(lia)) as H2.
    assert (1 < nbytes i)%nat as Hn.
    { destruct (nbytes i) as [|[|]]; simpl in *; lia. }
    destruct (nbytes i) as [|[|n]]; [lia..|]. apply nbytes_char. simpl pred in *.
    rewrite (Nat2Z.inj_succ n), (Nat2Z.inj_succ (S n)), (Nat2Z.inj_succ n), !Z.pow_succ_r in * by lia.
    split; [apply Z.div_le_lower_bound; lia|]. apply Z.div_lt_upper_bound; lia.
Qed.

Lemma bigBytes_snoc i : 0 < i -> bigBytes i = bigBytes (i `div` 256) ++ [i `mod` 256].
Proof.
  intros Hi. unfold bigBytes. rewrite nbytes_div by lia. pose proof (nbytes_pos i Hi). destruct (nbytes i); [lia|done].
Qed.

Lemma bigBytes_0 : bigBytes 0 = [].
Proof. done. Qed.

Lemma length_bigBytes i : length (bigBytes i) = nbytes i.
Proof. apply length_be_of_Z. Qed.

Lemma bigBytes_ok i : bytes_ok (bigBytes i).
Proof. apply be_of_Z_ok. Qed.

(** A shortest form has no leading zero, and is the only form that has none. *)
Lemma bigBytes_head i x l : bigBytes i = x :: l -> x <> 0.
Proof.
  intros H ->. assert (0 < i) as Hi by (destruct (decide (i <= 0)); [unfold bigBytes, nbytes in H; rewrite decide_True in H by lia; done|lia]).
  pose proof (be_to_Z_bigBytes i ltac:(lia)) as Hb. pose proof (bigBytes_ok i) as Hok.
  pose proof (length_bigBytes i) as Hl. rewrite H in Hb, Hok, Hl.
  change (be_to_Z (0 :: l)) with (be_to_Z l) in Hb. apply Forall_cons_1 in Hok as [_ Hok].
  pose proof (be_to_Z_bound l Hok). pose proof (nbytes_lower i Hi). rewrite <-Hl in *. simpl in *. lia.
Qed.

Lemma bigBytes_unique x l : bytes_ok (x :: l) -> x <> 0 -> bigBytes (be_to_Z (x :: l)) = x :: l.
Proof.
  intros Hok Hx. unfold bigBytes. replace (nbytes _) with (length (x :: l)); [by apply be_of_to_Z|].
  symmetry. apply (nbytes_char (length l)). split; [|by apply (be_to_Z_bound (x :: l))].
  clear -Hok Hx. apply Forall_cons_1 in Hok as [Hb Hok]. unfold byte_ok in Hb.
  induction l as [|y l IH] using rev_ind; [unfold be_to_Z; simpl; lia|]. apply Forall_app in Hok as [Hok [Hy _]%Forall_cons_1].
  unfold byte_ok in Hy. rewrite app_comm_cons, be_to_Z_snoc, length_app, Nat2Z.inj_add. change (Z.of_nat (length [y])) with 1.
  rewrite Z.pow_add_r by lia. specialize (IH Hok). lia.
Qed.

Lemma bigBytes_small i : 0 < i < 256 -> bigBytes i = [i].
Proof. intros. rewrite bigBytes_snoc, Z.div_small, Z.mod_small by lia. done. Qed.

(** ** Headers *)

Lemma putintBytes_be i : in_u64 i -> putintBytes i = be_of_Z (max 1 (nbytes i)) i.
Proof.
  intros [H0 H]. unfold putintBytes. rewrite !Z.shiftl_1_l. unfold u8, wrap. rewrite !Z.shiftr_div_pow2 by lia.
  repeat case_decide.
  { pose proof (nbytes_le i 1 ltac:(simpl; lia)). by replace (max 1 (nbytes i)) with 1%nat by lia. }
  1-6: match goal with
       | |- [_; _] = _ => rewrite (nbytes_char 1 i) by (simpl; lia)
       | |- [_; _; _] = _ => rewrite (nbytes_char 2 i) by (simpl; lia)
       | |- [_; _; _; _] = _ => rewrite (nbytes_char 3 i) by (simpl; lia)
       | |- [_; _; _; _; _] = _ => rewrite (nbytes_char 4 i) by (simpl; lia)
       | |- [_; _; _; _; _; _] = _ => rewrite (nbytes_char 5 i) by (simpl; lia)
       | |- [_; _; _; _; _; _; _] = _ => rewrite (nbytes_char 6 i) by (simpl; lia)
       end; simpl; rewrite ?Z.div_div by lia; done.
  rewrite (nbytes_char 7 i) by (simpl; lia). simpl. by rewrite !Z.div_div by lia.
Qed.

Lemma putintBytes_spec i : 0 < i -> in_u64 i -> putintBytes i = bigBytes i.
Proof. intros Hi H. rewrite putintBytes_be by done. pose proof (nbytes_pos i Hi). by rewrite Nat.max_r by lia. Qed.

Lemma intsizeLoop_spec fuel size i :
  0 <= i -> (nbytes i <= fuel)%nat -> (0 < fuel)%nat -> intsizeLoop fuel size i = size + Z.of_nat (pred (nbytes i)).
Proof.
  revert size i. induction fuel as [|fuel IH]; intros size i Hi Hn Hf; [lia|]. cbn [intsizeLoop].
  rewrite Z.shiftr_div_pow2 by lia. change (2 ^ 8) with 256. pose proof (nbytes_div i Hi) as Hd. case_decide as Hz.
  - rewrite Hz in Hd. change (nbytes 0) with 0%nat in Hd. lia.
  - pose proof (Z.div_pos i 256 Hi ltac:(lia)). pose proof (nbytes_pos (i `div` 256) ltac:(lia)).
    rewrite IH by lia. lia.
Qed.

(** Eight rounds are enough: the size is that of the shortest form. *)
Lemma intsize_spec i : 0 < i -> in_u64 i -> intsize i = Z.of_nat (nbytes i).
Proof.
  intros Hi [H0 H]. unfold intsize. pose proof (nbytes_pos i Hi). pose proof (nbytes_u64 i ltac:(done)).
  rewrite intsizeLoop_spec by lia. lia.
Qed.

Lemma storeFront_app dst src : (length src <= length dst)%nat -> storeFront dst src = Done (src ++ drop (length src) dst).
Proof. intros. unfold storeFront. by rewrite decide_True. Qed.

Lemma subslice_from {A} (l : list A) (i : nat) : (i <= length l)%nat -> subslice l (Z.of_nat i) (Z.of_nat (length l)) = Done (drop i l).
Proof.
  intros. unfold subslice. rewrite decide_True by lia. f_equal. rewrite Nat2Z.id. apply take_ge. rewrite length_drop. lia.
Qed.

Lemma subslice_app {A} (l1 l2 l3 : list A) :
  subslice (l1 ++ l2 ++ l3) (Z.of_nat (length l1)) (Z.of_nat (length l1 + length l2)) = Done l2.
Proof.
  unfold subslice. rewrite !length_app, decide_True by lia. f_equal. rewrite Nat2Z.id, drop_app_length.
  replace (Z.to_nat _) with (length l2) by lia. apply take_app_length.
Qed.

Lemma subslice_prefix {A} (l1 l2 : list A) : subslice (l1 ++ l2) 0 (Z.of_nat (length l1)) = Done l1.
Proof. exact (subslice_app [] l1 l2). Qed.

(** A header is at most nine bytes, and [headsize] is its length. *)
Lemma length_header s l n : Z.of_nat n < 2 ^ 64 -> Z.of_nat (length (header s l n)) = headsize (Z.of_nat n).
Proof.
  intros Hn. unfold header, headsize. case_decide; [done|]. simpl. rewrite length_bigBytes, intsize_spec; [lia| |split]; lia.
Qed.

Lemma header_le s l n : Z.of_nat n < 2 ^ 64 -> (1 <= length (header s l n) <= 9)%nat.
Proof.
  intros Hn. unfold header. case_decide; [simpl; lia|]. simpl. rewrite length_bigBytes.
  pose proof (nbytes_u64 (Z.of_nat n) ltac:(split; lia)). lia.
Qed.

Lemma puthead_spec buf s l n :
  0 <= s <= 0xC0 -> 0 <= l <= 0xF7 -> Z.of_nat n < 2 ^ 64 -> (length (header s l n) <= length buf)%nat ->
  puthead buf s l (Z.of_nat n) = Done (header s l n ++ drop (length (header s l n)) buf, Z.of_nat (length (header s l n))).
Proof.
  intros Hs Hl Hn. unfold puthead, header. case_decide; simpl length; intros Hb.
  - rewrite store_Done by lia. simpl. destruct buf as [|x buf]; [simpl in Hb; lia|]. simpl.
    unfold u8. rewrite (wrap_small 8 (Z.of_nat n)), wrap_small by lia. by rewrite drop_0.
  - change 1 with (Z.of_nat 1). rewrite subslice_from by lia. simpl. unfold putint.
    pose proof (nbytes_u64 (Z.of_nat n) ltac:(split; lia)) as Hn8. rewrite length_bigBytes in Hb.
    rewrite (putintBytes_spec (Z.of_nat n)) by (try split; lia). rewrite storeFront_app by (rewrite length_drop, length_bigBytes; lia).
    simpl. rewrite length_bigBytes in *. destruct buf as [|x buf]; [simpl in Hb; lia|]. simpl.
    unfold u8. rewrite (wrap_small 8 (Z.of_nat (nbytes _))), wrap_small by lia. rewrite drop_0. do 2 f_equal. lia.
Qed.

(** ** Reading headers *)

Lemma lor_shiftl_8 s x : byte_ok x -> Z.lor (Z.shiftl s 8) x = s * 256 + x.
Proof.
  intros Hx. unfold byte_ok in Hx. rewrite Z.shiftl_mul_pow2 by lia. change (2 ^ 8) with 256.
  enough (Z.land (s * 256) x = 0) as H by (pose proof (Z.add_lor_land (s * 256) x); lia).
  change 256 with (2 ^ 8). rewrite <-Z.shiftl_mul_pow2 by lia. apply Z.bits_inj'. intros n Hn.
  rewrite Z.land_spec, Z.bits_0. destruct (decide (n < 8)).
  - by rewrite Z.shiftl_spec_low by lia.
  - rewrite (Z.bits_above_log2 x n), andb_false_r; [done|lia|].
    destruct (decide (x = 0)) as [->|]; [simpl; lia|]. assert (Z.log2 x < 8); [apply Z.log2_lt_pow2; lia|lia].
Qed.

Lemma sizeBytes_be b : bytes_ok b -> sizeBytes b = be_to_Z b.
Proof.
  unfold sizeBytes, be_to_Z. generalize 0. induction b as [|x b IH]; intros s Hb; [done|].
  apply Forall_cons_1 in Hb as [Hx Hb]. simpl. rewrite lor_shiftl_8 by done. by apply IH.
Qed.

Lemma readSize_bigBytes s rest : 56 <= s -> readSize (bigBytes s ++ rest) (Z.of_nat (nbytes s)) = ok s.
Proof.
  intros Hs. unfold readSize. rewrite length_app, length_bigBytes, decide_False by lia.
  rewrite Nat2Z.id, <-(length_bigBytes s), take_app_length, sizeBytes_be, be_to_Z_bigBytes, decide_False by (try apply bigBytes_ok; lia).
  destruct (bigBytes s) as [|x l] eqn:Hb.
  - apply (f_equal length) in Hb. rewrite length_bigBytes in Hb. pose proof (nbytes_pos s ltac:(lia)). simpl in Hb. lia.
  - rewrite <-app_comm_cons, index_0. simpl. apply bigBytes_head in Hb. by rewrite decide_False.
Qed.

(** What [readSize] accepts, and that it does not panic. *)
Lemma readSize_cases b slen : bytes_ok b -> 0 < slen ->
  (exists e, readSize b slen = err e) \/
  exists s rest, readSize b slen = ok s /\ 56 <= s /\ b = bigBytes s ++ rest /\ slen = Z.of_nat (nbytes s).
Proof.
  intros Hb Hlen. unfold readSize. case_decide as Hl; [left; by eexists|]. case_decide as Hs; [left; by eexists|].
  destruct b as [|x b]; [simpl in Hl; lia|]. rewrite index_0. simpl. case_decide as Hx; [left; by eexists|right].
  destruct (Z.to_nat slen) as [|n] eqn:Hn; [lia|]. simpl take in *.
  assert (bytes_ok (x :: take n b)) as Hok.
  { apply Forall_cons_1 in Hb as [? ?]. constructor; [done|]. by apply Forall_take. }
  rewrite sizeBytes_be in * by done. exists (be_to_Z (x :: take n b)), (drop n b).
  rewrite bigBytes_unique by done. split_and!; [done|lia|by rewrite <-app_comm_cons, take_drop|].
  rewrite <-length_bigBytes, bigBytes_unique by done. simpl. rewrite length_take. simpl in Hl. lia.
Qed.

Lemma encKind_pos k c : canonical k c -> Z.of_nat (length c) < 2 ^ 64 -> (0 < length (encKind k c))%nat.
Proof.
  intros Hc Hn. unfold encKind. rewrite length_app. destruct k; simpl.
  - destruct c; [done|simpl; lia].
  - pose proof (header_le 0x80 0xB7 _ Hn). lia.
  - pose proof (header_le 0xC0 0xF7 _ Hn). lia.
Qed.

Lemma kindHeader_le k n : Z.of_nat n < 2 ^ 64 -> (length (kindHeader k n) <= 9)%nat.
Proof. intros H. destruct k; simpl; [lia|..]; by apply header_le. Qed.


Lemma u8_small z : 0 <= z < 256 -> u8 z = z.
Proof. intros. by apply wrap_small. Qed.

Lemma longTag_header k base n rest : 0 <= base <= 0xF7 -> 56 <= Z.of_nat n < 2 ^ 63 ->
  longTag k base (base + Z.of_nat (nbytes (Z.of_nat n))) (base + Z.of_nat (nbytes (Z.of_nat n)) :: bigBytes (Z.of_nat n) ++ rest) =
  ok (k, Z.of_nat (nbytes (Z.of_nat n) + 1), Z.of_nat n).
Proof.
  intros Hb Hn. pose proof (nbytes_u64 (Z.of_nat n) ltac:(split; lia)). unfold longTag.
  rewrite (subslice_from _ 1) by (simpl; lia). cbn [drop mbind outcome_bind]. rewrite drop_0.
  replace (base + Z.of_nat (nbytes (Z.of_nat n)) - base) with (Z.of_nat (nbytes (Z.of_nat n))) by lia.
  rewrite u8_small, readSize_bigBytes by lia. simpl. rewrite u64_small by (split; lia). unfold ok. do 3 f_equal. f_equal. lia.
Qed.

(** The tag of an encoded value. *)
Lemma readTag_encKind k c rest b l : canonical k c -> Z.of_nat (length c) < 2 ^ 63 ->
  encKind k c ++ rest = b :: l ->
  readTag (b :: l) b = ok (k, Z.of_nat (length (kindHeader k (length c))), Z.of_nat (length c)).
Proof.
  intros Hc Hlen He. unfold readTag, encKind in *. rewrite <-app_assoc in He. destruct k; cbn [kindHeader] in *.
  { destruct c as [|x [|]]; [done| |done]. injection He as <- <-. simpl in Hc. by rewrite decide_True. }
  all: unfold header in *; case_decide as Hn.
  1, 3: injection He as <- <-.
  3, 4: injection He as <- <-; rewrite length_bigBytes; pose proof (nbytes_pos (Z.of_nat (length c)) ltac:(lia));
        pose proof (nbytes_u64 (Z.of_nat (length c)) ltac:(split; lia)).
  - rewrite decide_False, decide_True by lia. rewrite u8_small by lia.
    replace (128 + Z.of_nat (length c) - 128) with (Z.of_nat (length c)) by lia. case_decide as H1; [|done].
    destruct H1 as [H1 _]. destruct c as [|y [|]]; [simpl in H1; lia| |simpl in H1; lia]. simpl in Hc.
    cbn [app]. rewrite (index_nat _ 1 y) by done. simpl. by rewrite decide_False by lia.
  - rewrite 3!decide_False, decide_True by lia. rewrite u8_small by lia. unfold ok. simpl. do 3 f_equal. lia.
  - rewrite 2!decide_False, decide_True by lia. rewrite longTag_header by lia.
    unfold ok. simpl. rewrite length_bigBytes. do 3 f_equal. f_equal. lia.
  - rewrite 4!decide_False by lia. rewrite longTag_header by lia.
    unfold ok. simpl. rewrite length_bigBytes. do 3 f_equal. f_equal. lia.
Qed.

Lemma readKind_encKind k c rest :
  canonical k c -> Z.of_nat (length (encKind k c ++ rest)) < 2 ^ 63 ->
  readKind (encKind k c ++ rest) = ok (k, Z.of_nat (length (kindHeader k (length c))), Z.of_nat (length c)).
Proof.
  intros Hc Hlen. unfold readKind. rewrite !length_app in Hlen.
  assert (Z.of_nat (length c) < 2 ^ 63) by (unfold encKind in Hlen; rewrite length_app in Hlen; lia).
  pose proof (encKind_pos k c Hc ltac:(lia)). destruct (encKind k c ++ rest) as [|b l] eqn:He.
  { apply (f_equal length) in He. rewrite length_app in He. simpl in He. lia. }
  rewrite decide_False, index_0 by done. cbn [mbind outcome_bind]. rewrite (readTag_encKind k c rest) by done. cbn [ok rbind].
  rewrite <-He. unfold encKind in *. rewrite !length_app in *. rewrite u64_small by (split; lia). by rewrite decide_False by lia.
Qed.

Lemma longTag_cases k s0 base b l : bytes_ok (b :: l) -> 0 <= base -> base < b <= base + 8 ->
  (exists e, longTag k base b (b :: l) = err e) \/
  exists n rest, longTag k base b (b :: l) = ok (k, Z.of_nat (length (header s0 base n)), Z.of_nat n) /\ 56 <= Z.of_nat n /\
    b :: l = header s0 base n ++ rest.
Proof.
  intros Hok Hbase Hb. apply Forall_cons_1 in Hok as [Hb8 Hok]. unfold byte_ok in Hb8. unfold longTag.
  rewrite (subslice_from _ 1) by (simpl; lia). cbn [drop mbind outcome_bind]. rewrite drop_0, u8_small by lia.
  destruct (readSize_cases l (b - base) Hok ltac:(lia)) as [[e ->]|(s & rest & -> & Hs & -> & Hn)]; [left; by eexists|right].
  exists (Z.to_nat s), rest. unfold header. rewrite Z2Nat.id, decide_False by lia. rewrite Hn. simpl.
  rewrite length_bigBytes, u64_small by (split; lia). split_and!; [|done|].
  - unfold ok. do 3 f_equal. f_equal. lia.
  - f_equal. lia.
Qed.

(** A tag that is accepted begins a canonical value, when its content is
    there; nothing panics. *)
Lemma readTag_cases b l : bytes_ok (b :: l) ->
  (exists e, readTag (b :: l) b = err e) \/
  exists k n rest, readTag (b :: l) b = ok (k, Z.of_nat (length (kindHeader k n)), Z.of_nat n) /\
    b :: l = kindHeader k n ++ rest /\ ((n <= length rest)%nat -> canonical k (take n rest)).
Proof.
  intros Hok. pose proof Hok as [Hb _]%Forall_cons_1. unfold byte_ok in Hb. unfold readTag.
  case_decide. { right. by exists KByte, 1%nat, (b :: l). }
  case_decide.
  { rewrite u8_small by lia. assert (kindHeader KString (Z.to_nat (b - 128)) = [b]) as Hh.
    { simpl. unfold header. rewrite decide_True by lia. f_equal. lia. }
    case_decide as H1.
    - destruct l as [|y l]; [simpl in H1; lia|]. rewrite (index_nat _ 1 y) by done. simpl. case_decide; [left; by eexists|right].
      destruct H1 as [Hb1 _]. assert (b = 129) as -> by lia. exists KString, 1%nat, (y :: l). split_and!; [done..|]. simpl. lia.
    - right. exists KString, (Z.to_nat (b - 128)), l. rewrite Hh. split_and!; [unfold ok; do 2 f_equal; simpl; f_equal; lia|done|].
      intros Hn. destruct (take _ l) as [|x [|]] eqn:Ht; [done| |done]. apply (f_equal length) in Ht.
      rewrite length_take in Ht. destruct l; simpl in *; lia. }
  case_decide.
  { destruct (longTag_cases KString 0x80 0xB7 b l Hok ltac:(lia) ltac:(lia)) as [?|(n & rest & -> & Hs & ->)]; [by left|right].
    exists KString, n, rest. split_and!; [done..|]. intros Hn.
    destruct (take n rest) as [|x [|]] eqn:Ht; [done| |done]. apply (f_equal length) in Ht. rewrite length_take in Ht. simpl in Ht. lia. }
  case_decide.
  { right. rewrite u8_small by lia. exists KList, (Z.to_nat (b - 192)), l. simpl. unfold header. rewrite decide_True by lia.
    split_and!; [unfold ok; do 2 f_equal; simpl; f_equal; lia|simpl; f_equal; lia|done]. }
  destruct (longTag_cases KList 0xC0 0xF7 b l Hok ltac:(lia) ltac:(lia)) as [?|(n & rest & -> & Hs & ->)]; [by left|right].
  by exists KList, n, rest.
Qed.

Lemma readKind_cases b : bytes_ok b -> Z.of_nat (length b) < 2 ^ 63 ->
  (exists e, readKind b = err e) \/
  exists k c rest, canonical k c /\ b = encKind k c ++ rest /\
    readKind b = ok (k, Z.of_nat (length (kindHeader k (length c))), Z.of_nat (length c)).
Proof.
  intros Hok Hlen. unfold readKind. case_decide as H0; [left; by eexists|]. destruct b as [|b l]; [done|]. rewrite index_0. cbn [mbind outcome_bind].
  destruct (readTag_cases b l Hok) as [[e ->]|(k & n & rest & -> & Hb & Hc)]; [left; by eexists|]. cbn [ok rbind].
  rewrite Hb in *. rewrite length_app in *. rewrite u64_small by (split; lia). case_decide as Hn; [left; by eexists|right].
  exists k, (take n rest), (drop n rest). assert (length (take n rest) = n) as Hn' by (rewrite length_take; lia).
  unfold encKind. rewrite Hn', <-app_assoc, take_drop. split_and!; [apply Hc; lia|done..].
Qed.

(** ** Splitting *)

Lemma Split_encKind k c rest :
  canonical k c -> Z.of_nat (length (encKind k c ++ rest)) < 2 ^ 63 -> Split (encKind k c ++ rest) = ok (k, c, rest).
Proof.
  intros Hc Hl. unfold Split. rewrite readKind_encKind by done. simpl. unfold encKind in *. rewrite <-!app_assoc in *.
  rewrite !length_app in Hl. rewrite u64_small, <-Nat2Z.inj_add by (split; lia). rewrite subslice_app. simpl.
  rewrite subslice_from by (rewrite !length_app; lia). simpl. by rewrite app_assoc, <-length_app, drop_app_length.
Qed.

Lemma Split_cases b : bytes_ok b -> Z.of_nat (length b) < 2 ^ 63 ->
  (exists e, Split b = err e) \/ exists k c rest, Split b = ok (k, c, rest) /\ canonical k c /\ b = encKind k c ++ rest.
Proof.
  intros Hok Hlen. destruct (readKind_cases b Hok Hlen) as [[e He]|(k & c & rest & Hc & -> & _)].
  - left. exists e. unfold Split. by rewrite He.
  - right. exists k, c, rest. by rewrite Split_encKind.
Qed.

(** On a slice of bytes [Split] neither panics nor loops, and it answers kind,
    content and rest exactly when the slice is the canonical encoding of that
    content followed by the rest: what it accepts is what the encoder writes. *)
Theorem Split_correct b : bytes_ok b -> Z.of_nat (length b) < 2 ^ 63 ->
  isDone (Split b) = true /\
  forall k c rest, Split b = ok (k, c, rest) <-> canonical k c /\ b = encKind k c ++ rest.
Proof.
  intros Hok Hlen. split; [by destruct (Split_cases b Hok Hlen) as [[e ->]|(k & c & rest & -> & _)]|].
  intros k c rest. split.
  - destruct (Split_cases b Hok Hlen) as [[e ->]|(k' & c' & rest' & -> & Hc)]; [done|]. intros [= <- <- <-]. done.
  - intros [Hc ->]. by apply Split_encKind.
Qed.

Lemma Split_correct_witness :
  Split [0x83; 1; 2; 3; 9] = ok (KString, [1; 2; 3], [9]) /\ isDone (Split [0x81; 5]) = true.
Proof.
  split.
  - refine (proj2 (proj2 (Split_correct [0x83; 1; 2; 3; 9] _ _) KString [1; 2; 3] [9]) _); [|done|done].
    repeat constructor; done.
  - refine (proj1 (Split_correct [0x81; 5] _ _)); [|done]. repeat constructor; done.
Defined.

(** The values a slice of encoded values consists of. *)
Definition encAll (vs : list (Kind * list Z)) : list Z := concat (map (fun v => encKind v.1 v.2) vs).
Definition canonicalAll (vs : list (Kind * list Z)) : Prop := Forall (fun v => canonical v.1 v.2) vs.

Lemma drop_encKind k c rest :
  Z.of_nat (length (encKind k c ++ rest)) < 2 ^ 63 ->
  subslice (encKind k c ++ rest) (u64 (Z.of_nat (length (kindHeader k (length c))) + Z.of_nat (length c)))
    (Z.of_nat (length (encKind k c ++ rest))) = Done rest.
Proof.
  intros Hl. rewrite length_app in Hl. unfold encKind in Hl |- * at 1. rewrite length_app in Hl.
  rewrite u64_small, <-Nat2Z.inj_add, <-length_app by (rewrite <-Nat2Z.inj_add; split; lia).
  fold (encKind k c). rewrite subslice_from by (rewrite length_app; lia). by rewrite drop_app_length.
Qed.

Lemma countLoop_encAll vs fuel i :
  canonicalAll vs -> Z.of_nat (length (encAll vs)) < 2 ^ 63 -> (length vs < fuel)%nat ->
  countLoop fuel i (encAll vs) = ok (i + Z.of_nat (length vs)).
Proof.
  revert fuel i. induction vs as [|[k c] vs IH]; intros [|fuel] i Hc Hl Hf; [lia| |lia|].
  - cbn [countLoop encAll map concat]. rewrite decide_True by done. unfold ok. do 2 f_equal. simpl. lia.
  - apply Forall_cons_1 in Hc as [Hk Hc]. unfold encAll in *. cbn [countLoop map concat fst snd] in *. rewrite length_app in Hl.
    pose proof (encKind_pos k c Hk ltac:(unfold encKind in Hl; rewrite length_app in Hl; lia)).
    rewrite decide_False by (rewrite length_app; lia). rewrite readKind_encKind by (rewrite ?length_app; done). cbn [ok rbind].
    rewrite drop_encKind by (rewrite length_app; lia). cbn [mbind outcome_bind].
    rewrite IH by (try done; simpl in Hf; lia). unfold ok. do 2 f_equal. simpl. lia.
Qed.

Lemma countLoop_cases fuel i b : bytes_ok b -> Z.of_nat (length b) < 2 ^ 63 -> (length b < fuel)%nat ->
  (exists e, countLoop fuel i b = err e) \/ exists vs, canonicalAll vs /\ b = encAll vs /\ (length vs <= length b)%nat.
Proof.
  revert i b. induction fuel as [|fuel IH]; intros i b Hok Hl Hf; [lia|]. cbn [countLoop]. case_decide as H0.
  - right. exists []. destruct b; [by split_and!; [constructor|..]|done].
  - destruct (readKind_cases b Hok Hl) as [[e ->]|(k & c & rest & Hc & -> & ->)]; [left; by eexists|]. cbn [ok rbind].
    rewrite drop_encKind by done. cbn [mbind outcome_bind]. apply Forall_app in Hok as [_ Hok]. rewrite length_app in *.
    assert (0 < length (encKind k c))%nat by (apply encKind_pos; [done|unfold encKind in Hl; rewrite length_app in Hl; lia]).
    destruct (IH (i + 1) rest Hok ltac:(lia) ltac:(lia)) as [?|(vs & Hvs & -> & Hn)]; [by left|right].
    exists ((k, c) :: vs). split_and!; [by constructor|done|]. simpl. lia.
Qed.

Lemma length_encAll vs : canonicalAll vs -> Z.of_nat (length (encAll vs)) < 2 ^ 63 -> (length vs <= length (encAll vs))%nat.
Proof.
  induction vs as [|[k c] vs IH]; intros Hc Hl; [done|]. apply Forall_cons_1 in Hc as [Hk Hc]. unfold encAll in *. simpl in *.
  rewrite length_app in *. pose proof (encKind_pos k c Hk ltac:(unfold encKind in Hl; rewrite length_app in Hl; lia)). specialize (IH Hc). lia.
Qed.

(** [CountValues] ends on every slice of bytes, and answers [n] exactly when
    the slice is a sequence of [n] canonical values. *)
Theorem CountValues_correct b : bytes_ok b -> Z.of_nat (length b) < 2 ^ 63 ->
  isDone (CountValues b) = true /\
  forall n, CountValues b = ok n <-> exists vs, canonicalAll vs /\ b = encAll vs /\ n = Z.of_nat (length vs).
Proof.
  intros Hok Hl. unfold CountValues.
  assert (forall vs, canonicalAll vs -> b = encAll vs -> countLoop (S (length b)) 0 b = ok (Z.of_nat (length vs))) as Hc.
  { intros vs Hvs ->. pose proof (length_encAll vs Hvs Hl). rewrite countLoop_encAll by (try done; lia). by rewrite Z.add_0_l. }
  destruct (countLoop_cases (S (length b)) 0 b Hok Hl ltac:(lia)) as [[e He]|(vs & Hvs & Hb & _)].
  - rewrite He. split; [done|]. intros n. split; [done|]. intros (vs & Hvs & Hb & ->). specialize (Hc vs Hvs Hb). congruence.
  - rewrite (Hc vs Hvs Hb). split; [done|]. intros n. split; [intros [= <-]; by exists vs|].
    intros (vs' & Hvs' & Hb' & ->). by rewrite <-(Hc vs' Hvs' Hb'), <-(Hc vs Hvs Hb).
Qed.

(** ** Strings, lists and integers *)

Definition strKind (b : list Z) : Kind :=
  match b with [x] => if decide (x <= 0x7F) then KByte else KString | _ => KString end.

Lemma encStr_encKind b : encStr b = encKind (strKind b) b /\ canonical (strKind b) b.
Proof.
  unfold encStr, strKind. destruct b as [|x [|y b]]; [done| |done]. case_decide; simpl; split; try done; lia.
Qed.

Lemma encKind_encStr k c : canonical k c -> k <> KList -> encKind k c = encStr c.
Proof.
  intros Hc Hk. unfold encStr. destruct k; [..|done]; simpl in Hc.
  - destruct c as [|x [|]]; [done| |done]. by rewrite decide_True by lia.
  - destruct c as [|x [|]]; [done| |done]. by rewrite decide_False by lia.
Qed.

Lemma encStr_pos b : Z.of_nat (length b) < 2 ^ 64 -> (0 < length (encStr b))%nat.
Proof. intros. destruct (encStr_encKind b) as [-> Hc]. by apply encKind_pos. Qed.

Lemma SplitString_iff b c rest : bytes_ok b -> Z.of_nat (length b) < 2 ^ 63 ->
  SplitString b = ok (c, rest) <-> b = encStr c ++ rest.
Proof.
  intros Hok Hl. unfold SplitString. split.
  - destruct (Split_cases b Hok Hl) as [[e ->]|(k & c' & rest' & -> & Hc & ->)]; [done|]. cbn [ok rbind].
    case_decide; [done|]. intros [= <- <-]. by rewrite encKind_encStr.
  - destruct (encStr_encKind c) as [-> Hc]. intros ->. rewrite Split_encKind by done. cbn [ok rbind].
    rewrite decide_False; [done|]. unfold strKind. repeat case_match; try done; by case_decide.
Qed.

Lemma SplitList_iff b c rest : bytes_ok b -> Z.of_nat (length b) < 2 ^ 63 ->
  SplitList b = ok (c, rest) <-> b = encList c ++ rest.
Proof.
  intros Hok Hl. unfold SplitList. split.
  - destruct (Split_cases b Hok Hl) as [[e ->]|(k & c' & rest' & -> & Hc & ->)]; [done|]. cbn [ok rbind].
    case_decide as Hk; [done|]. intros [= <- <-]. destruct k; [done..|]. done.
  - intros ->. change (encList c) with (encKind KList c) in *. by rewrite Split_encKind.
Qed.

Lemma AppendUint64_spec b i : in_u64 i -> AppendUint64 b i = b ++ encStr (bigBytes i).
Proof.
  intros Hi. destruct (decide (i = 0)) as [->|H0]; [done|]. destruct Hi as [Hi0 Hi].
  pose proof (putintBytes_spec i ltac:(lia) ltac:(done)) as Hp. unfold AppendUint64. rewrite decide_False by done.
  case_decide as H1.
  { rewrite bigBytes_small by lia. simpl. rewrite decide_True by lia. by rewrite u8_small by lia. }
  unfold putintBytes in Hp. case_decide.
  { rewrite <-Hp. unfold encStr. rewrite u8_small, decide_False by (rewrite Z.shiftl_1_l in *; lia). done. }
  repeat case_decide; rewrite <-Hp; done.
Qed.

(** [SplitUint64] inverts [AppendUint64] on every 64-bit integer, and a slice it
    accepts begins with what [AppendUint64] writes for the answer: an integer
    has one encoding. *)
Theorem SplitUint64_AppendUint64 b i rest : bytes_ok b -> Z.of_nat (length b) < 2 ^ 63 ->
  SplitUint64 b = ok (i, rest) <-> in_u64 i /\ b = AppendUint64 [] i ++ rest.
Proof.
  intros Hok Hl. unfold SplitUint64. split.
  - destruct (SplitString b) as [[e|[c rest']]| |] eqn:Hs; [done| |done..]. cbn [ok rbind].
    apply SplitString_iff in Hs as ->; [|done..]. apply Forall_app in Hok as [Hok _].
    assert (bytes_ok c) as Hc.
    { destruct (encStr_encKind c) as [He _]. rewrite He in Hok. by apply Forall_app in Hok as [_ Hok]. }
    case_decide as H0. { intros [= <- <-]. destruct c; [|done]. by split; [|rewrite AppendUint64_spec]. }
    case_decide as H1.
    { destruct c as [|x [|]]; [done| |done]. rewrite index_0. simpl. case_decide; [done|]. intros [= <- <-].
      apply Forall_cons_1 in Hc as [Hx _]. unfold byte_ok in Hx. assert (in_u64 x) by (split; lia).
      split; [done|]. rewrite AppendUint64_spec, bigBytes_small by (try done; lia). done. }
    case_decide; [done|]. rewrite u8_small by lia.
    destruct (readSize_cases c (Z.of_nat (length c)) Hc ltac:(lia)) as [[e ->]|(s & r & -> & Hs & Hcs & Hn)]; [done|].
    intros [= <- <-]. assert (r = []) as ->.
    { apply (f_equal length) in Hcs. rewrite length_app, length_bigBytes in Hcs. destruct r; [done|simpl in Hcs; lia]. }
    rewrite app_nil_r in Hcs. assert (in_u64 s) as Hu.
    { split; [lia|]. pose proof (nbytes_bound s ltac:(lia)). pose proof (Z.pow_le_mono_r 256 (Z.of_nat (nbytes s)) 8). simpl in *. lia. }
    split; [done|]. by rewrite AppendUint64_spec, Hcs.
  - intros [Hi ->]. rewrite AppendUint64_spec in * by done. simpl app in *.
    rewrite (proj2 (SplitString_iff _ (bigBytes i) rest Hok Hl) eq_refl). cbn [ok rbind]. rewrite length_bigBytes.
    destruct Hi as [Hi0 Hi]. pose proof (nbytes_u64 i ltac:(done)). case_decide as H0.
    { destruct (decide (i = 0)) as [->|]; [done|]. pose proof (nbytes_pos i ltac:(lia)). lia. }
    case_decide as H1.
    { assert (i < 256) by (pose proof (nbytes_bound i Hi0); rewrite H1 in *; simpl in *; lia).
      assert (i <> 0) by (intros ->; done). rewrite bigBytes_small, index_0 by lia. simpl. by rewrite decide_False. }
    rewrite decide_False by lia. rewrite u8_small by lia.
    assert (56 <= i). { pose proof (nbytes_le i 1). simpl in *. lia. }
    pose proof (readSize_bigBytes i [] ltac:(done)) as Hr. rewrite app_nil_r in Hr. by rewrite Hr.
Qed.

Lemma SplitUint64_AppendUint64_witness : SplitUint64 (AppendUint64 [] 70000 ++ [7]) = ok (70000, [7]).
Proof.
  apply (SplitUint64_AppendUint64 (AppendUint64 [] 70000 ++ [7]) 70000 [7]); [|done|].
  - repeat constructor; done.
  - split; [split; done|done].
Defined.

(** The iterator walks the values of a list. *)
Theorem Next_encKind k c rest next e :
  canonical k c -> Z.of_nat (length (encKind k c ++ rest)) < 2 ^ 63 ->
  Next (mkIterator (encKind k c ++ rest) next e) = Done (mkIterator rest (encKind k c) None, true).
Proof.
  intros Hc Hl. unfold Next. cbn [itData]. pose proof Hl as Hl2. rewrite length_app in Hl2. unfold encKind in Hl2. rewrite length_app in Hl2.
  pose proof (encKind_pos k c Hc ltac:(lia)). rewrite decide_False by (rewrite length_app; lia). rewrite readKind_encKind by done. cbn [ok].
  rewrite drop_encKind by done. rewrite u64_small, <-Nat2Z.inj_add, <-length_app by (rewrite <-Nat2Z.inj_add; split; lia). fold (encKind k c).
  by rewrite subslice_prefix.
Qed.

(** On malformed data it answers true without moving. *)
Theorem Next_malformed data next e err0 :
  data <> [] -> readKind data = err err0 -> Next (mkIterator data next e) = Done (mkIterator data [] (Some err0), true).
Proof. intros Hd He. unfold Next. cbn [itData]. rewrite decide_False by (by destruct data). by rewrite He. Qed.

#[export] Hint Resolve bigBytes_ok : go.
