(* ===== verification/RlpEncode.v ===== *)
(** * The RLP encoder

    [rlp/encbuffer.go] and [rlp/encode.go].  The encoder collects string data
    and list headers apart, and puts them together when the sizes of all lists
    are known.  The Go types it is used at are the values of [rtype]; [write]
    is the function [makeWriter] builds for a type, and [enc] the encoding the
    package documents.

    A value is a [rval] of the type's shape; [errIllTyped] answers a value
    that is not of the type, which Go's typing excludes ([typed]).  Types with
    a struct tag, [uint256.Int] and types with an [EncodeRLP] of their own are
    left out; a slice or an array of bytes is [TBytes] or [TByteArray]. *)

From S2P Require Import Prelude Bytes RlpRaw.

Local Open Scope Z_scope.
Local Open Scope rlp_scope.

(** ** The buffer *)

Record listhead := mkHead { offset : Z; hsize : Z }.

Record encBuffer := mkEncBuffer {
  str : list Z;
  lheads : list listhead;
  lhsize : Z;
  sizebuf : list Z
}.

(** [new(encBuffer)], and a buffer of the pool made ready. *)
Definition newEncBuffer : encBuffer := mkEncBuffer [] [] 0 (replicate 9 0).
Definition reset (buf : encBuffer) : encBuffer := mkEncBuffer [] [] 0 (sizebuf buf).

Definition size (buf : encBuffer) : Z := Z.of_nat (length (str buf)) + lhsize buf.

(** [buf.str = append(buf.str, b...)] *)
Definition appendStr (buf : encBuffer) (b : list Z) : encBuffer :=
  mkEncBuffer (str buf ++ b) (lheads buf) (lhsize buf) (sizebuf buf).

(** [copy(dst[pos:], src)]: the new [dst] and the number of bytes copied. *)
Definition copyAt (dst : list Z) (pos : Z) (src : list Z) : outcome (list Z * Z) :=
  tail ← subslice dst pos (Z.of_nat (length dst));
  let n := min (length tail) (length src) in
  Done (take (Z.to_nat pos) dst ++ take n src ++ drop n tail, Z.of_nat n).

(** [head.encode(buf)]: the new [buf] and the number of bytes used. *)
Definition headEncode (head : listhead) (buf : list Z) : outcome (list Z * Z) :=
  puthead buf 0xC0 0xF7 (u64 (hsize head)).

Definition copyHead (buf : encBuffer) (st : list Z * Z * Z) (head : listhead) : outcome (list Z * Z * Z) :=
  let '(dst, strpos, pos) := st in
  piece ← subslice (str buf) strpos (offset head);
  '(dst, n) ← copyAt dst pos piece;
  let pos := pos + n in
  let strpos := strpos + n in
  tail ← subslice dst pos (Z.of_nat (length dst));
  '(tail, k) ← headEncode head tail;
  Done (take (Z.to_nat pos) dst ++ tail, strpos, pos + k).

Definition copyTo (buf : encBuffer) (dst : list Z) : outcome (list Z) :=
  '(dst, strpos, pos) ← fold_outcome (copyHead buf) (lheads buf) (dst, 0, 0);
  piece ← subslice (str buf) strpos (Z.of_nat (length (str buf)));
  '(dst, _) ← copyAt dst pos piece;
  Done dst.

(** [make([]byte, n)] panics on a negative length. *)
Definition makeBytes (buf : encBuffer) : outcome (list Z) :=
  if decide (size buf < 0) then Panic else copyTo buf (replicate (Z.to_nat (size buf)) 0).

Section writeTo.
Context {W : Type} (Write : W -> list Z -> W * Z * option rlpErr).

Definition writeHead (buf : encBuffer) (st : W * Z * list Z * option rlpErr) (head : listhead) :
    outcome (W * Z * list Z * option rlpErr) :=
  let '(w, strpos, sb, e) := st in
  match e with
  | Some _ => Done st
  | None =>
      '(w, strpos, e) ←
        (if decide (offset head - strpos > 0) then
           piece ← subslice (str buf) strpos (offset head);
           let '(w, n, e) := Write w piece in Done (w, strpos + n, e)
         else Done (w, strpos, None));
      match e with
      | Some _ => Done (w, strpos, sb, e)
      | None => '(sb, n) ← headEncode head sb;
                enc ← subslice sb 0 n;
                let '(w, _, e) := Write w enc in Done (w, strpos, sb, e)
      end
  end.

Definition writeTo (buf : encBuffer) (w : W) : outcome (W * option rlpErr) :=
  '(w, strpos, _, e) ← fold_outcome (writeHead buf) (lheads buf) (w, 0, sizebuf buf, None);
  match e with
  | Some _ => Done (w, e)
  | None => if decide (strpos < Z.of_nat (length (str buf)))
            then piece ← subslice (str buf) strpos (Z.of_nat (length (str buf)));
                 let '(w, _, e) := Write w piece in Done (w, e)
            else Done (w, None)
  end.
End writeTo.

Definition bufWriteBool (buf : encBuffer) (b : bool) : encBuffer := appendStr buf [if b then 0x01 else 0x80].

(** The tail of [writeUint64] and [encodeStringHeader]: the integer [i] behind a
    tag, through the auxiliary buffer. *)
Definition putTagged (buf : encBuffer) (tag i : Z) : outcome encBuffer :=
  tail ← subslice (sizebuf buf) 1 (Z.of_nat (length (sizebuf buf)));
  '(tail, s) ← putint tail i;
  let sb := u8 (tag + u8 s) :: tail in
  piece ← subslice sb 0 (s + 1);
  Done (mkEncBuffer (str buf ++ piece) (lheads buf) (lhsize buf) sb).

Definition writeUint64 (buf : encBuffer) (i : Z) : outcome encBuffer :=
  if decide (i = 0) then Done (appendStr buf [0x80])
  else if decide (i < 128) then Done (appendStr buf [u8 i])
  else putTagged buf 0x80 i.

Definition encodeStringHeader (buf : encBuffer) (size : Z) : outcome encBuffer :=
  if decide (size < 56) then Done (appendStr buf [u8 (0x80 + u8 size)])
  else putTagged buf 0xB7 (u64 size).

Definition bufWriteBytes (buf : encBuffer) (b : list Z) : outcome encBuffer :=
  match b with
  | [x] => if decide (x <= 0x7F) then Done (appendStr buf [x])
           else buf ← encodeStringHeader buf 1; Done (appendStr buf b)
  | _ => buf ← encodeStringHeader buf (Z.of_nat (length b)); Done (appendStr buf b)
  end.

(** [big.Int]: the length in bits, and the words of the absolute value, lowest
    first. *)
Definition BitLen (z : Z) : Z := if decide (z = 0) then 0 else Z.log2 (Z.abs z) + 1.
Fixpoint words (n : nat) (z : Z) : list Z :=
  match n with O => [] | S n => z `mod` 2 ^ 64 :: words n (z `div` 2 ^ 64) end.
Definition Bits (z : Z) : list Z := words (Z.to_nat ((BitLen z + 63) `div` 64)) (Z.abs z).

(** [for j := 0; j < wordBytes && index > 0; j++ { index--; bytesBuf[index] = byte(d); d >>= 8 }] *)
Fixpoint putWord (j : nat) (d index : Z) (b : list Z) : outcome (Z * list Z) :=
  match j with
  | O => Done (index, b)
  | S j => if decide (index > 0)
           then b ← store b (index - 1) (u8 d); putWord j (Z.shiftr d 8) (index - 1) b
           else Done (index, b)
  end.

Definition writeBigInt (buf : encBuffer) (i : Z) : outcome encBuffer :=
  let bitlen := BitLen i in
  if decide (bitlen <= 64) then writeUint64 buf (u64 (Z.abs i))
  else
    let length := Z.shiftr (Z.land (bitlen + 7) (-8)) 3 in
    buf ← encodeStringHeader buf length;
    '(_, bytesBuf) ← fold_outcome (fun st d => putWord 8 d st.1 st.2) (Bits i) (length, replicate (Z.to_nat length) 0);
    Done (appendStr buf bytesBuf).

(** [list]: the buffer and the index of the new header; [listEnd]. *)
Definition list_ (buf : encBuffer) : encBuffer * nat :=
  (mkEncBuffer (str buf) (lheads buf ++ [mkHead (Z.of_nat (length (str buf))) (lhsize buf)]) (lhsize buf) (sizebuf buf),
   length (lheads buf)).

Definition listEnd (buf : encBuffer) (idx : nat) : outcome encBuffer :=
  lh ← index (lheads buf) (Z.of_nat idx);
  let sz := size buf - offset lh - hsize lh in
  let lheads' := <[idx := mkHead (offset lh) sz]> (lheads buf) in
  Done (mkEncBuffer (str buf) lheads'
          (if decide (sz < 56) then lhsize buf + 1 else lhsize buf + (1 + intsize (u64 sz))) (sizebuf buf)).

(** ** Types and values *)

(** The reflected Go types the package handles. *)
Inductive rtype :=
| TRaw
| TBigPtr
| TUint (bits : Z)
| TBool
| TString
| TBytes
| TByteArray (n : nat)
| TSlice (elem : rtype)
| TArray (n : nat) (elem : rtype)
| TStruct (fields : list rtype)
| TPtr (elem : rtype)
| TIface.

(** Strings, byte slices, byte arrays and raw values are [VBytes]; slices,
    arrays and the exported fields of a struct are [VList]; an interface holds
    a value with its type. *)
Inductive rval :=
| VUint (z : Z)
| VBool (b : bool)
| VBytes (b : list Z)
| VBig (z : option Z)
| VList (l : list rval)
| VPtr (p : option rval)
| VIface (i : option (rtype * rval)).

(** [rlpstruct.Type.DefaultNilValue]: the kind a nil pointer to the type has. *)
Definition DefaultNilValue (t : rtype) : Z :=
  match t with
  | TUint _ | TString | TBool | TBytes | TByteArray _ | TRaw => 0x80
  | _ => 0xC0
  end.

Definition makeByteArrayWriter (n : nat) (b : list Z) (w : encBuffer) : res encBuffer :=
  match n with
  | O => ok (appendStr w [0x80])
  | 1%nat => x ← index b 0; ok (appendStr w (if decide (x <= 0x7f) then [x] else [0x81; x]))
  | _ => w ← encodeStringHeader w (Z.of_nat (length b)); ok (appendStr w b)
  end.

Definition writeString (s : list Z) (w : encBuffer) : res encBuffer :=
  match s with
  | [x] => if decide (x <= 0x7f) then ok (appendStr w [x])
           else w ← encodeStringHeader w 1; ok (appendStr w s)
  | _ => w ← encodeStringHeader w (Z.of_nat (length s)); ok (appendStr w s)
  end.

Definition writeBigIntPtr (ptr : option Z) (w : encBuffer) : res encBuffer :=
  match ptr with
  | None => ok (appendStr w [0x80])
  | Some z => if decide (Z.sgn z = -1) then err ErrNegativeBigInt else w ← writeBigInt w z; ok w
  end.

(** [lh := w.list(); ...; w.listEnd(lh)] *)
Definition inList (w : encBuffer) (body : encBuffer -> res encBuffer) : res encBuffer :=
  let '(w, lh) := list_ w in
  w <-- body w;
  w ← listEnd w lh; ok w.

(** The writers of slices and arrays, of pointers and of interfaces, with the
    writer of the elements or of the value behind. *)
Definition makeSliceWriter (vlen : nat) (elems : encBuffer -> res encBuffer) (w : encBuffer) : res encBuffer :=
  if decide (vlen = 0%nat) then ok (appendStr w [0xC0]) else inList w elems.

Definition makePtrWriter (te : rtype) (ev : option (encBuffer -> res encBuffer)) (w : encBuffer) : res encBuffer :=
  match ev with Some write => write w | None => ok (appendStr w [DefaultNilValue te]) end.

Definition writeInterface (eval : option (encBuffer -> res encBuffer)) (w : encBuffer) : res encBuffer :=
  match eval with Some write => write w | None => ok (appendStr w [0xC0]) end.

(** The writer [makeWriter] builds for a type. *)
Fixpoint write (v : rval) (t : rtype) (w : encBuffer) {struct v} : res encBuffer :=
  let writeElems := fix go (l : list rval) (ts : list rtype) (w : encBuffer) : res encBuffer :=
    match l, ts with
    | [], [] => ok w
    | x :: l, t :: ts => w <-- write x t w; go l ts w
    | _, _ => err errIllTyped
    end in
  match t, v with
  | TRaw, VBytes b => ok (appendStr w b)
  | TBigPtr, VBig p => writeBigIntPtr p w
  | TUint _, VUint i => w ← writeUint64 w i; ok w
  | TBool, VBool b => ok (bufWriteBool w b)
  | TString, VBytes s => writeString s w
  | TBytes, VBytes b => w ← bufWriteBytes w b; ok w
  | TByteArray n, VBytes b => makeByteArrayWriter n b w
  | (TSlice te | TArray _ te), VList l => makeSliceWriter (length l) (writeElems l (replicate (length l) te)) w
  | TStruct fields, VList l => inList w (writeElems l fields)
  | TPtr te, VPtr None => makePtrWriter te None w
  | TPtr te, VPtr (Some v) => makePtrWriter te (Some (write v te)) w
  | TIface, VIface None => writeInterface None w
  | TIface, VIface (Some (t, v)) => writeInterface (Some (write v t)) w
  | _, _ => err errIllTyped
  end.

(** [EncodeToBytes], with the buffer the pool gives. *)
Definition EncodeToBytes (pooled : encBuffer) (t : rtype) (v : rval) : res (list Z) :=
  buf <-- write v t (reset pooled);
  bs ← makeBytes buf; ok bs.

(** [Encode] to a writer that is not a buffer of the package. *)
Definition Encode {W : Type} (Write : W -> list Z -> W * Z * option rlpErr) (pooled : encBuffer) (w : W) (t : rtype) (v : rval) :
    outcome (W * option rlpErr) :=
  match write v t (reset pooled) with
  | Done (inr buf) => writeTo Write buf w
  | Done (inl e) => Done (w, Some e)
  | Panic => Panic
  | Stuck => Stuck
  end.

(** ** Reading the encoding piece by piece *)

(** [encReader]; [rbuf] is nil once the end was reached. *)
Record encReader := mkReader { rbuf : option encBuffer; lhpos : nat; rstrpos : Z; piece : option (list Z) }.

Definition EncodeToReader (pooled : encBuffer) (t : rtype) (v : rval) : res (Z * encReader) :=
  buf <-- write v t (reset pooled);
  ok (size buf, mkReader (Some buf) 0 0 None).

Definition next (r : encReader) : outcome (encReader * option (list Z)) :=
  match rbuf r, piece r with
  | None, _ => Done (r, None)
  | Some _, Some p => Done (r, Some p)
  | Some buf, None =>
      match lheads buf !! lhpos r with
      | Some head =>
          let sizebefore := offset head - rstrpos r in
          if decide (sizebefore > 0) then
            p ← subslice (str buf) (rstrpos r) (offset head);
            Done (mkReader (rbuf r) (lhpos r) (rstrpos r + sizebefore) (piece r), Some p)
          else
            '(sb, n) ← headEncode head (sizebuf buf);
            p ← subslice sb 0 n;
            Done (mkReader (Some (mkEncBuffer (str buf) (lheads buf) (lhsize buf) sb)) (S (lhpos r)) (rstrpos r) (piece r), Some p)
      | None =>
          if decide (rstrpos r < Z.of_nat (length (str buf))) then
            p ← subslice (str buf) (rstrpos r) (Z.of_nat (length (str buf)));
            Done (mkReader (rbuf r) (lhpos r) (Z.of_nat (length (str buf))) (piece r), Some p)
          else Done (r, None)
      end
  end.

(** [r.Read(b)] for a buffer with room for [room] more bytes; [out] is what was
    copied into it so far.  The flag says that [io.EOF] was returned. *)
Fixpoint readLoop (fuel : nat) (room : nat) (out : list Z) (r : encReader) : outcome (list Z * bool * encReader) :=
  match fuel with
  | O => Stuck
  | S fuel =>
      '(r, p) ← next r;
      match p with
      | None => Done (out, true, mkReader None (lhpos r) (rstrpos r) None)
      | Some p =>
          let nn := min room (length p) in
          let out := out ++ take nn p in
          if decide (nn < length p)%nat
          then Done (out, false, mkReader (rbuf r) (lhpos r) (rstrpos r) (Some (drop nn p)))
          else readLoop fuel (room - nn) out (mkReader (rbuf r) (lhpos r) (rstrpos r) None)
      end
  end.

(** Every list header gives at most two pieces, see [Read_correct]. *)
Definition Read (r : encReader) (n : nat) : outcome (list Z * bool * encReader) :=
  readLoop (match rbuf r with Some buf => 2 * length (lheads buf) + 4 | None => 1 end) n [] r.

(** ** The documented encoding of a value *)

(** A negative integer has no encoding and counts as nothing here; the values
    with one are those of [negative]. *)
Fixpoint enc (v : rval) (t : rtype) {struct v} : list Z :=
  let encElems := fix go (l : list rval) (ts : list rtype) : list Z :=
    match l, ts with
    | x :: l, t :: ts => enc x t ++ go l ts
    | _, _ => []
    end in
  match t, v with
  | TBigPtr, VBig None => encStr []
  | TBigPtr, VBig (Some z) => if decide (z < 0) then [] else encStr (bigBytes z)
  | TUint _, VUint i => encStr (bigBytes i)
  | TBool, VBool b => encStr (if b then [1] else [])
  | TRaw, VBytes b => b
  | (TString | TBytes | TByteArray _), VBytes b => encStr b
  | (TSlice te | TArray _ te), VList l => encList (encElems l (replicate (length l) te))
  | TStruct fields, VList l => encList (encElems l fields)
  | TPtr te, VPtr None => [DefaultNilValue te]
  | TPtr te, VPtr (Some v) => enc v te
  | TIface, VIface None => encList []
  | TIface, VIface (Some (t, v)) => enc v t
  | _, _ => []
  end.

Fixpoint negative (v : rval) : bool :=
  match v with
  | VBig (Some z) => bool_decide (z < 0)
  | VList l => existsb negative l
  | VPtr (Some v) => negative v
  | VIface (Some (_, v)) => negative v
  | _ => false
  end.

(** The elements of a list, each at its type. *)
Fixpoint encElems (l : list rval) (ts : list rtype) : list Z :=
  match l, ts with
  | x :: l, t :: ts => enc x t ++ encElems l ts
  | _, _ => []
  end.

Fixpoint writeElems (l : list rval) (ts : list rtype) (w : encBuffer) : res encBuffer :=
  match l, ts with
  | [], [] => ok w
  | x :: l, t :: ts => w <-- write x t w; writeElems l ts w
  | _, _ => err errIllTyped
  end.

(** The widths of Go's unsigned integers. *)
Definition uintBits (bits : Z) : Prop := bits = 8 \/ bits = 16 \/ bits = 32 \/ bits = 64.

(** Values of a type. *)
Fixpoint typed (v : rval) (t : rtype) {struct v} : Prop :=
  let typedElems := fix go (l : list rval) (ts : list rtype) : Prop :=
    match l, ts with
    | [], [] => True
    | x :: l, t :: ts => typed x t /\ go l ts
    | _, _ => False
    end in
  match t, v with
  | TBigPtr, VBig _ => True
  | TUint bits, VUint i => uintBits bits /\ 0 <= i < 2 ^ bits
  | TBool, VBool b => True
  | (TRaw | TString | TBytes), VBytes b => bytes_ok b
  | TByteArray n, VBytes b => bytes_ok b /\ length b = n
  | TSlice te, VList l => typedElems l (replicate (length l) te)
  | TArray n te, VList l => length l = n /\ typedElems l (replicate (length l) te)
  | TStruct fields, VList l => typedElems l fields
  | TPtr te, VPtr None => True
  | TPtr te, VPtr (Some v) => typed v te
  | TIface, VIface None => True
  | TIface, VIface (Some (t, v)) => typed v t
  | _, _ => False
  end.

Fixpoint typedElems (l : list rval) (ts : list rtype) : Prop :=
  match l, ts with
  | [], [] => True
  | x :: l, t :: ts => typed x t /\ typedElems l ts
  | _, _ => False
  end.

(** ** Induction on values *)

Section rval_induction.
Context (P : rval -> Prop).
Hypothesis HUint : forall z, P (VUint z).
Hypothesis HBool : forall b, P (VBool b).
Hypothesis HBytes : forall b, P (VBytes b).
Hypothesis HBig : forall z, P (VBig z).
Hypothesis HList : forall l, Forall P l -> P (VList l).
Hypothesis HPtrNil : P (VPtr None).
Hypothesis HPtr : forall v, P v -> P (VPtr (Some v)).
Hypothesis HIfaceNil : P (VIface None).
Hypothesis HIface : forall t v, P v -> P (VIface (Some (t, v))).

Fixpoint rval_rect_nested (v : rval) : P v :=
  match v with
  | VUint z => HUint z
  | VBool b => HBool b
  | VBytes b => HBytes b
  | VBig z => HBig z
  | VList l => HList l ((fix go l : Forall P l :=
      match l with [] => Forall_nil_2 P | x :: l => Forall_cons_2 P x l (rval_rect_nested x) (go l) end) l)
  | VPtr None => HPtrNil
  | VPtr (Some v) => HPtr v (rval_rect_nested v)
  | VIface None => HIfaceNil
  | VIface (Some (t, v)) => HIface t v (rval_rect_nested v)
  end.
End rval_induction.

(** Each function at the types with elements. *)
Lemma write_slice te l w : write (VList l) (TSlice te) w =
  if decide (length l = 0%nat) then ok (appendStr w [0xC0]) else inList w (writeElems l (replicate (length l) te)).
Proof. reflexivity. Qed.
Lemma write_array n te l w : write (VList l) (TArray n te) w =
  if decide (length l = 0%nat) then ok (appendStr w [0xC0]) else inList w (writeElems l (replicate (length l) te)).
Proof. reflexivity. Qed.
Lemma write_struct fields l w : write (VList l) (TStruct fields) w = inList w (writeElems l fields).
Proof. reflexivity. Qed.
Lemma enc_slice te l : enc (VList l) (TSlice te) = encList (encElems l (replicate (length l) te)).
Proof. reflexivity. Qed.
Lemma enc_array n te l : enc (VList l) (TArray n te) = encList (encElems l (replicate (length l) te)).
Proof. reflexivity. Qed.
Lemma enc_struct fields l : enc (VList l) (TStruct fields) = encList (encElems l fields).
Proof. reflexivity. Qed.
Lemma typed_slice te l : typed (VList l) (TSlice te) = typedElems l (replicate (length l) te).
Proof. reflexivity. Qed.
Lemma typed_array n te l : typed (VList l) (TArray n te) = (length l = n /\ typedElems l (replicate (length l) te)).
Proof. reflexivity. Qed.
Lemma typed_struct fields l : typed (VList l) (TStruct fields) = typedElems l fields.
Proof. reflexivity. Qed.

(** ** Putting data and headers together *)

(** The bytes of a stretch [s] of the string data, which begins at position
    [base], with the headers [hs] put in at their offsets. *)
Definition headBytes (h : listhead) : list Z := header 0xC0 0xF7 (Z.to_nat (hsize h)).

Fixpoint seg (base : nat) (hs : list listhead) (s : list Z) : list Z :=
  match hs with
  | [] => s
  | h :: hs => let k := (Z.to_nat (offset h) - base)%nat in
               take k s ++ headBytes h ++ seg (base + k) hs (drop k s)
  end.

(** Headers with their offsets in order between [lo] and [hi], and with sizes. *)
Fixpoint headsIn (lo hi : nat) (hs : list listhead) : Prop :=
  match hs with
  | [] => (lo <= hi)%nat
  | h :: hs => (Z.of_nat lo <= offset h) /\ 0 <= hsize h < 2 ^ 63 /\ headsIn (Z.to_nat (offset h)) hi hs
  end.

Definition headsLen (hs : list listhead) : Z := foldr (fun h n => headsize (hsize h) + n) 0 hs.

Lemma headsIn_le lo hi hs : headsIn lo hi hs -> (lo <= hi)%nat.
Proof. revert lo. induction hs as [|h hs IH]; intros lo; simpl; [done|]. intros (H1 & _ & H2%IH). lia. Qed.

Lemma headsIn_app lo mid hi hs1 hs2 : headsIn lo mid hs1 -> headsIn mid hi hs2 -> headsIn lo hi (hs1 ++ hs2).
Proof.
  revert lo. induction hs1 as [|h hs1 IH]; intros lo; simpl.
  - intros H1 H2. destruct hs2 as [|h hs2]; simpl in *; [lia|]. destruct H2 as (? & ? & ?). split_and!; [lia|lia|lia|done].
  - intros (? & ? & ?) ?. split_and!; auto; lia.
Qed.

Lemma headsLen_app hs1 hs2 : headsLen (hs1 ++ hs2) = headsLen hs1 + headsLen hs2.
Proof. unfold headsLen. induction hs1; simpl; [done|]. lia. Qed.

Lemma length_headBytes h : 0 <= hsize h < 2 ^ 63 -> Z.of_nat (length (headBytes h)) = headsize (hsize h).
Proof. intros H. unfold headBytes. rewrite length_header by lia. by rewrite Z2Nat.id by lia. Qed.

Lemma length_seg base hs s :
  headsIn base (base + length s) hs -> Z.of_nat (length (seg base hs s)) = Z.of_nat (length s) + headsLen hs.
Proof.
  revert base s. induction hs as [|h hs IH]; intros base s; simpl; [lia|]. intros (H1 & H2 & H3).
  pose proof (headsIn_le _ _ _ H3). rewrite !length_app, length_take, !Nat2Z.inj_add, length_headBytes by done.
  rewrite IH by (rewrite length_drop; replace (base + (Z.to_nat (offset h) - base))%nat with (Z.to_nat (offset h)) by lia;
    replace (Z.to_nat (offset h) + (length s - (Z.to_nat (offset h) - base)))%nat with (base + length s)%nat by lia; done).
  rewrite length_drop. lia.
Qed.

Lemma seg_app base hs1 hs2 s1 s2 :
  headsIn base (base + length s1) hs1 -> headsIn (base + length s1) (base + length s1 + length s2) hs2 ->
  seg base (hs1 ++ hs2) (s1 ++ s2) = seg base hs1 s1 ++ seg (base + length s1) hs2 s2.
Proof.
  revert base s1. induction hs1 as [|h hs1 IH]; intros base s1 H1 H2; simpl app.
  - destruct hs2 as [|h hs2]; [done|]. simpl in *. destruct H2 as (H2 & H3 & H4).
    set (k := (Z.to_nat (offset h) - (base + length s1))%nat).
    replace (Z.to_nat (offset h) - base)%nat with (length s1 + k)%nat by lia.
    by rewrite take_app_add, drop_app_add, <-app_assoc, Nat.add_assoc.
  - simpl in *. destruct H1 as (H1 & H3 & H4). pose proof (headsIn_le _ _ _ H4).
    set (k := (Z.to_nat (offset h) - base)%nat). assert (k <= length s1)%nat by lia.
    assert (base + k = Z.to_nat (offset h))%nat as Hk by lia. clearbody k.
    rewrite take_app_le, drop_app_le by done. rewrite <-!app_assoc. do 2 f_equal.
    replace (base + length s1)%nat with (base + k + length (drop k s1))%nat in * by (rewrite length_drop; lia).
    apply IH; [|done]. by rewrite Hk in *.
Qed.

(** Copying [src] at [pos] into a destination that has room for it. *)
Lemma copyAt_room d0 tail src : (length src <= length tail)%nat ->
  copyAt (d0 ++ tail) (Z.of_nat (length d0)) src = Done (d0 ++ src ++ drop (length src) tail, Z.of_nat (length src)).
Proof.
  intros H. unfold copyAt. rewrite subslice_from by (rewrite length_app; lia). cbn [mbind outcome_bind].
  rewrite Nat2Z.id, drop_app_length, take_app_length, Nat.min_r by lia. by rewrite firstn_all.
Qed.

Lemma copyHead_spec buf done_ tail strpos h :
  let piece := take (Z.to_nat (offset h) - strpos) (drop strpos (str buf)) in
  Z.of_nat strpos <= offset h <= Z.of_nat (length (str buf)) -> 0 <= hsize h < 2 ^ 63 ->
  (length (piece ++ headBytes h) <= length tail)%nat ->
  copyHead buf (done_ ++ tail, Z.of_nat strpos, Z.of_nat (length done_)) h =
  Done ((done_ ++ piece ++ headBytes h) ++ drop (length (piece ++ headBytes h)) tail, Z.of_nat (Z.to_nat (offset h)), Z.of_nat (length (done_ ++ piece ++ headBytes h))).
Proof.
  intros piece H1 H2 H3. unfold copyHead. rewrite length_app in H3.
  assert (subslice (str buf) (Z.of_nat strpos) (offset h) = Done piece) as ->.
  { unfold subslice. rewrite decide_True by lia. f_equal. rewrite Nat2Z.id. unfold piece. f_equal. lia. }
  assert (length piece = (Z.to_nat (offset h) - strpos)%nat) as Hp by (unfold piece; rewrite length_take, length_drop; lia).
  cbn [mbind outcome_bind]. rewrite copyAt_room by lia. cbn [mbind outcome_bind].
  rewrite app_assoc, <-Nat2Z.inj_add, <-length_app, subslice_from, drop_app_length by (rewrite !length_app; lia). cbn [mbind outcome_bind].
  unfold headEncode. unfold headBytes in *. replace (u64 (hsize h)) with (Z.of_nat (Z.to_nat (hsize h))) by (rewrite u64_small by (split; lia); lia).
  rewrite puthead_spec by (rewrite ?length_drop; lia). cbn [mbind outcome_bind]. rewrite Nat2Z.id, take_app_length, drop_drop.
  rewrite !length_app, <-!app_assoc. do 2 f_equal; [f_equal|]; lia.
Qed.

(** With a destination of the right length, [copyTo] fills it with the data and
    the headers. *)
Lemma copyTo_loop buf hs done_ tail strpos :
  headsIn strpos (length (str buf)) hs ->
  length tail = length (seg strpos hs (drop strpos (str buf))) ->
  exists dst strpos' done' tail', fold_outcome (copyHead buf) hs (done_ ++ tail, Z.of_nat strpos, Z.of_nat (length done_)) =
    Done (dst, Z.of_nat strpos', Z.of_nat (length done')) /\ dst = done' ++ tail' /\ (strpos' <= length (str buf))%nat /\
    length tail' = length (drop strpos' (str buf)) /\
    done' ++ drop strpos' (str buf) = done_ ++ seg strpos hs (drop strpos (str buf)).
Proof.
  revert done_ tail strpos. induction hs as [|h hs IH]; intros done_ tail strpos Hin Hlen; cbn [fold_outcome].
  - exists (done_ ++ tail), strpos, done_, tail. simpl in *. done.
  - cbn [headsIn] in Hin. destruct Hin as (H1 & H2 & H3). pose proof (headsIn_le _ _ _ H3) as Hle. cbn [seg] in Hlen |- *.
    set (piece := take (Z.to_nat (offset h) - strpos) (drop strpos (str buf))) in *.
    rewrite drop_drop in *. replace (strpos + (Z.to_nat (offset h) - strpos))%nat with (Z.to_nat (offset h)) in * by lia.
    rewrite copyHead_spec by (try (fold piece; rewrite Hlen, !length_app; lia); lia). fold piece.
    destruct (IH (done_ ++ piece ++ headBytes h) (drop (length (piece ++ headBytes h)) tail) (Z.to_nat (offset h)) H3)
      as (dst & sp & d' & t' & Hf & Hd & Hs & Ht & He).
    { rewrite length_drop, Hlen, !length_app. lia. }
    exists dst, sp, d', t'. rewrite Hf, He, <-!app_assoc. done.
Qed.

Lemma makeBytes_spec buf :
  headsIn 0 (length (str buf)) (lheads buf) -> lhsize buf = headsLen (lheads buf) ->
  makeBytes buf = Done (seg 0 (lheads buf) (str buf)).
Proof.
  intros Hin Hsz. unfold makeBytes. pose proof (length_seg 0 (lheads buf) (str buf) Hin) as Hl.
  unfold size. rewrite Hsz, <-Hl, decide_False, Nat2Z.id by lia. unfold copyTo.
  destruct (copyTo_loop buf (lheads buf) [] (replicate (length (seg 0 (lheads buf) (str buf))) 0) 0 Hin) as (dst & sp & d' & t' & Hf & -> & Hs & Ht & He).
  { by rewrite length_replicate, drop_0. }
  simpl in Hf. change (Z.of_nat 0) with 0 in Hf. rewrite Hf. cbn [mbind outcome_bind].
  rewrite subslice_from by done. cbn [mbind outcome_bind]. rewrite copyAt_room by lia. cbn [mbind outcome_bind].
  rewrite <-Ht, drop_all, app_nil_r. rewrite He. by rewrite drop_0.
Qed.

(** [writes w w' bs]: what was added to the buffer makes up the bytes [bs]. *)
Definition writes (w w' : encBuffer) (bs : list Z) : Prop :=
  exists s hs, str w' = str w ++ s /\ lheads w' = lheads w ++ hs /\ lhsize w' = lhsize w + headsLen hs /\
    headsIn (length (str w)) (length (str w) + length s) hs /\ seg (length (str w)) hs s = bs /\ length (sizebuf w') = 9%nat.

Lemma writes_length w w' bs : writes w w' bs -> Z.of_nat (length bs) = size w' - size w.
Proof.
  intros (s & hs & Hs & Hh & Hl & Hin & <- & _). rewrite length_seg by done. unfold size. rewrite Hs, Hl, length_app. lia.
Qed.

Lemma writes_nil w : length (sizebuf w) = 9%nat -> writes w w [].
Proof. intros H. exists [], []. rewrite !app_nil_r. simpl. split_and!; [done..|lia|lia|done|done]. Qed.

Lemma writes_app w1 w2 w3 b1 b2 : writes w1 w2 b1 -> writes w2 w3 b2 -> writes w1 w3 (b1 ++ b2).
Proof.
  intros (s1 & h1 & Hs1 & Hh1 & Hl1 & Hi1 & <- & _) (s2 & h2 & Hs2 & Hh2 & Hl2 & Hi2 & <- & Hb).
  exists (s1 ++ s2), (h1 ++ h2). rewrite Hs1, length_app in Hi2. rewrite Hs2, Hs1, Hh2, Hh1, Hl2, Hl1, headsLen_app, !app_assoc.
  rewrite !length_app, Nat.add_assoc. split_and!; [done|done|lia|by eapply headsIn_app| |done]. by apply seg_app.
Qed.

Lemma writes_appendStr w b : length (sizebuf w) = 9%nat -> writes w (appendStr w b) b.
Proof. intros H. exists b, []. rewrite app_nil_r. simpl. split_and!; [done..|lia|lia|done|done]. Qed.

Lemma writes_sizebuf w w' bs : writes w w' bs -> length (sizebuf w') = 9%nat.
Proof. by intros (? & ? & _ & _ & _ & _ & _ & ?). Qed.
#[local] Hint Resolve writes_sizebuf writes_nil writes_appendStr : go.

(** ** Scalars *)

Lemma putTagged_spec w tag i : length (sizebuf w) = 9%nat -> 0 < i -> in_u64 i -> 0 <= tag <= 0xF7 ->
  exists w', putTagged w tag i = Done w' /\ writes w w' (tag + Z.of_nat (nbytes i) :: bigBytes i).
Proof.
  intros Hw Hi Hu Ht. unfold putTagged. rewrite (subslice_from _ 1) by lia. cbn [mbind outcome_bind]. unfold putint.
  pose proof (nbytes_u64 i Hu). rewrite putintBytes_spec, storeFront_app by (rewrite ?length_drop, ?length_bigBytes; try done; lia).
  cbn [mbind outcome_bind]. rewrite length_bigBytes. unfold u8. rewrite (wrap_small 8 (Z.of_nat _)), wrap_small by lia.
  set (tagged := tag + Z.of_nat (nbytes i) :: bigBytes i). rewrite app_comm_cons. fold tagged.
  replace (Z.of_nat (nbytes i) + 1) with (Z.of_nat (length tagged)) by (unfold tagged; simpl; rewrite length_bigBytes; lia).
  rewrite subslice_prefix. cbn [mbind outcome_bind].
  eexists. split; [done|]. exists tagged, []. simpl. rewrite app_nil_r. split_and!; try done; [lia..|].
  rewrite length_app, !length_drop, length_bigBytes. lia.
Qed.

Lemma encStr_1 x : x < 0x80 -> encStr [x] = [x].
Proof. intros. simpl. by rewrite decide_True by lia. Qed.

Lemma writeUint64_spec w i : length (sizebuf w) = 9%nat -> in_u64 i ->
  exists w', writeUint64 w i = Done w' /\ writes w w' (encStr (bigBytes i)).
Proof.
  intros Hw Hu. unfold writeUint64. case_decide as H0; [subst; eexists; split; [done|by apply writes_appendStr]|].
  destruct Hu as [Hu0 Hu1]. case_decide.
  - eexists. split; [done|]. rewrite u8_small, bigBytes_small, encStr_1 by lia. by apply writes_appendStr.
  - destruct (putTagged_spec w 0x80 i Hw ltac:(lia) ltac:(done) ltac:(lia)) as (w' & -> & Hw'). exists w'. split; [done|].
    pose proof (nbytes_u64 i ltac:(done)). pose proof (nbytes_pos i ltac:(lia)).
    replace (encStr (bigBytes i)) with (0x80 + Z.of_nat (nbytes i) :: bigBytes i); [done|].
    unfold encStr. rewrite length_bigBytes. destruct (bigBytes i) as [|x [|y l]] eqn:Hb.
    + apply (f_equal length) in Hb. rewrite length_bigBytes in Hb. simpl in Hb. lia.
    + pose proof (be_to_Z_bigBytes i Hu0) as Hx. rewrite Hb in Hx. unfold be_to_Z in Hx. simpl in Hx. rewrite decide_False by lia.
      apply (f_equal length) in Hb. rewrite length_bigBytes in Hb. by rewrite Hb.
    + unfold header. by rewrite decide_True by lia.
Qed.

Lemma encodeStringHeader_spec w n : length (sizebuf w) = 9%nat -> Z.of_nat n < 2 ^ 63 ->
  exists w', encodeStringHeader w (Z.of_nat n) = Done w' /\ writes w w' (header 0x80 0xB7 n).
Proof.
  intros Hw Hn. unfold encodeStringHeader, header. case_decide.
  - eexists. split; [done|]. rewrite (u8_small (Z.of_nat n)), u8_small by lia. by apply writes_appendStr.
  - rewrite u64_small, length_bigBytes by (split; lia). apply putTagged_spec; [done|lia|split; lia|lia].
Qed.

(** A string behind its header. *)
Lemma headerString_spec w b : length (sizebuf w) = 9%nat -> Z.of_nat (length b) < 2 ^ 63 ->
  exists w', (w ← encodeStringHeader w (Z.of_nat (length b)); Done (appendStr w b)) = Done w' /\ writes w w' (header 0x80 0xB7 (length b) ++ b).
Proof.
  intros Hw Hb. destruct (encodeStringHeader_spec w (length b) Hw Hb) as (w' & -> & Hw'). eexists. split; [done|].
  eapply writes_app; [done|]. apply writes_appendStr. by eapply writes_sizebuf.
Qed.

Lemma bufWriteBytes_spec w b : length (sizebuf w) = 9%nat -> Z.of_nat (length b) < 2 ^ 63 ->
  exists w', bufWriteBytes w b = Done w' /\ writes w w' (encStr b).
Proof.
  intros Hw Hb. pose proof (headerString_spec w b Hw Hb) as H. unfold bufWriteBytes, encStr.
  destruct b as [|x [|y b]]; [done| |done]. case_decide; [|done]. eexists. split; [done|by apply writes_appendStr].
Qed.

Lemma writeString_eq s w : writeString s w = (w ← bufWriteBytes w s; ok w).
Proof.
  unfold writeString, bufWriteBytes. destruct s as [|x [|y s]]; [..|by destruct (encodeStringHeader w _)].
  - by destruct (encodeStringHeader w _).
  - case_decide; [done|]. by destruct (encodeStringHeader w _).
Qed.

Lemma makeByteArrayWriter_spec w n b : length (sizebuf w) = 9%nat -> Z.of_nat (length b) < 2 ^ 63 -> length b = n ->
  exists w', makeByteArrayWriter n b w = ok w' /\ writes w w' (encStr b).
Proof.
  intros Hw Hb <-. unfold makeByteArrayWriter. destruct b as [|x [|y b]].
  - eexists. split; [done|]. by apply writes_appendStr.
  - simpl. eexists. split; [done|]. case_decide; by apply writes_appendStr.
  - destruct (headerString_spec w (x :: y :: b) Hw Hb) as (w' & Hh & Hw'). exists w'. split; [|done]. cbn [length].
    cbn [length] in Hh. destruct (encodeStringHeader w _); [|done..]. simpl in *. by injection Hh as <-.
Qed.

(** ** Large integers *)

Lemma be_of_Z_cons n z : be_of_Z (S n) z = (z `div` 256 ^ Z.of_nat n) `mod` 256 :: be_of_Z n z.
Proof.
  revert z. induction n as [|n IH]; intros z; [simpl; by rewrite Z.div_1_r|].
  change (be_of_Z (S (S n)) z) with (be_of_Z (S n) (z `div` 256) ++ [z `mod` 256]). rewrite IH.
  change (be_of_Z (S n) z) with (be_of_Z n (z `div` 256) ++ [z `mod` 256]). simpl app. f_equal.
  rewrite Z.div_div by lia. by rewrite Nat2Z.inj_succ, Z.pow_succ_r by lia.
Qed.

Lemma mod_256_step d e j : d `mod` 256 ^ Z.of_nat (S j) = e `mod` 256 ^ Z.of_nat (S j) ->
  d `mod` 256 = e `mod` 256 /\ (d `div` 256) `mod` 256 ^ Z.of_nat j = (e `div` 256) `mod` 256 ^ Z.of_nat j.
Proof.
  rewrite Nat2Z.inj_succ, Z.pow_succ_r by lia. intros H.
  pose proof (Z.pow_pos_nonneg 256 (Z.of_nat j) ltac:(lia) ltac:(lia)).
  assert (d `mod` 256 = e `mod` 256) as Hm.
  { apply (f_equal (fun x => x `mod` 256)) in H. by rewrite !Z.mod_mod_divide in H by (by exists (256 ^ Z.of_nat j); lia). }
  split; [done|]. rewrite !Z.rem_mul_r in H by lia. lia.
Qed.

Lemma putWord_spec j d k m z : 0 <= z -> (m = 0%nat \/ d `mod` 256 ^ Z.of_nat j = (z `div` 256 ^ Z.of_nat k) `mod` 256 ^ Z.of_nat j) ->
  putWord j d (Z.of_nat m) (replicate m 0 ++ be_of_Z k z) =
  Done (Z.of_nat (m - j), replicate (m - j) 0 ++ be_of_Z (k + min j m) z).
Proof.
  intros Hz. revert d k m. induction j as [|j IH]; intros d k m Hd; cbn [putWord].
  { by rewrite Nat.sub_0_r, Nat.min_0_l, Nat.add_0_r. }
  destruct m as [|m]; [by rewrite decide_False by lia; rewrite Nat.min_0_r, Nat.add_0_r|]. destruct Hd as [?|Hd]; [lia|].
  rewrite decide_True by lia. rewrite store_Done by (rewrite length_app, length_replicate; lia). cbn [mbind outcome_bind].
  replace (Z.of_nat (S m) - 1) with (Z.of_nat m) by lia. rewrite Nat2Z.id, insert_app_l by (rewrite length_replicate; lia).
  assert (<[m := u8 d]> (replicate (S m) 0) ++ be_of_Z k z = replicate m 0 ++ be_of_Z (S k) z) as ->.
  { rewrite replicate_S_end, insert_app_r_alt by (rewrite length_replicate; lia). rewrite length_replicate, Nat.sub_diag, <-app_assoc, be_of_Z_cons.
    simpl. do 2 f_equal. by apply mod_256_step in Hd as [Hd _]. }
  rewrite IH.
  - by rewrite Nat.sub_succ, <-Nat.succ_min_distr, Nat.add_succ_r.
  - right. rewrite Z.shiftr_div_pow2 by lia. change (2 ^ 8) with 256. apply mod_256_step in Hd as [_ ->].
    by rewrite Z.div_div, Nat2Z.inj_succ, Z.pow_succ_r, Z.mul_comm by lia.
Qed.

Lemma putWords_spec n y k m z : 0 <= z -> (m = 0%nat \/ y = z `div` 256 ^ Z.of_nat k) ->
  fold_outcome (fun st d => putWord 8 d st.1 st.2) (words n y) (Z.of_nat m, replicate m 0 ++ be_of_Z k z) =
  Done (Z.of_nat (m - 8 * n), replicate (m - 8 * n) 0 ++ be_of_Z (k + min (8 * n) m) z).
Proof.
  intros Hz. revert y k m. induction n as [|n IH]; intros y k m Hy; cbn [words fold_outcome].
  { by rewrite Nat.mul_0_r, Nat.sub_0_r, Nat.min_0_l, Nat.add_0_r. }
  cbn [fst snd]. rewrite putWord_spec; [|done|].
  - rewrite IH; [by replace (m - 8 - 8 * n)%nat with (m - 8 * S n)%nat by lia;
      replace (k + min 8 m + min (8 * n) (m - 8))%nat with (k + min (8 * S n) m)%nat by lia|].
    destruct (decide (m <= 8)%nat); [left; lia|right]. destruct Hy as [?| ->]; [lia|].
    rewrite Z.div_div by lia. replace (min 8 m) with 8%nat by lia. rewrite Nat2Z.inj_add, Z.pow_add_r by lia. done.
  - destruct Hy as [?| ->]; [by left|right]. change (256 ^ Z.of_nat 8) with (2 ^ 64). apply Z.mod_mod. lia.
Qed.

Lemma BitLen_nbytes z : 0 < z -> Z.shiftr (Z.land (BitLen z + 7) (-8)) 3 = Z.of_nat (nbytes z).
Proof.
  intros Hz. rewrite Z.shiftr_land. change (Z.shiftr (-8) 3) with (-1). rewrite Z.land_m1_r, Z.shiftr_div_pow2 by lia.
  unfold BitLen, nbytes. rewrite !decide_False, Z.abs_eq by lia. pose proof (Z.log2_nonneg z).
  pose proof (Z.div_pos (Z.log2 z) 8 ltac:(done) ltac:(done)).
  rewrite Z2Nat.id by lia. replace (Z.log2 z + 1 + 7) with (Z.log2 z + 1 * 8) by lia. change (2 ^ 3) with 8.
  by rewrite Z.div_add by lia.
Qed.

Lemma writeBigInt_spec w z : length (sizebuf w) = 9%nat -> 0 <= z -> Z.of_nat (nbytes z) < 2 ^ 63 ->
  exists w', writeBigInt w z = Done w' /\ writes w w' (encStr (bigBytes z)).
Proof.
  intros Hw Hz Hn. unfold writeBigInt. case_decide as Hb.
  { assert (in_u64 z) as Hu.
    { split; [done|]. destruct (decide (z = 0)) as [->|]; [done|]. unfold BitLen in Hb. rewrite decide_False, Z.abs_eq in Hb by lia.
      apply Z.log2_lt_pow2; lia. }
    rewrite Z.abs_eq, u64_small by done. by apply writeUint64_spec. }
  assert (0 < z) by (destruct (decide (z = 0)) as [->|]; [by destruct Hb; unfold BitLen; rewrite decide_True|lia]).
  rewrite BitLen_nbytes, Nat2Z.id by done.
  destruct (encodeStringHeader_spec w (nbytes z) Hw Hn) as (w1 & -> & Hw1). cbn [mbind outcome_bind].
  pose proof (putWords_spec (Z.to_nat ((BitLen z + 63) `div` 64)) z 0 (nbytes z) z Hz) as Hp.
  change (be_of_Z 0 z) with (@nil Z) in Hp. rewrite app_nil_r in Hp. unfold Bits. rewrite Z.abs_eq by done.
  rewrite Hp by (right; simpl; by rewrite Z.div_1_r). clear Hp. cbn [mbind outcome_bind].
  assert (8 <= Z.log2 z `div` 8) as Hlog.
  { unfold BitLen in Hb. rewrite decide_False, Z.abs_eq in Hb by lia. apply Z.div_le_lower_bound; lia. }
  assert (nbytes z <= 8 * Z.to_nat ((BitLen z + 63) `div` 64))%nat as Hwords.
  { unfold BitLen, nbytes. rewrite !decide_False, Z.abs_eq by lia.
    pose proof (Z.mul_succ_div_gt (Z.log2 z + 1 + 63) 64). pose proof (Z.mul_div_le (Z.log2 z) 8). lia. }
  eexists. split; [done|]. replace (encStr (bigBytes z)) with (header 0x80 0xB7 (nbytes z) ++ bigBytes z).
  - replace (nbytes z - _)%nat with 0%nat by lia. rewrite Nat.min_r by lia. simpl app.
    eapply writes_app; [done|]. apply writes_appendStr. by eapply writes_sizebuf.
  - unfold encStr. pose proof (length_bigBytes z) as Hl. rewrite Hl. destruct (bigBytes z) as [|x [|y l]]; [done| |done].
    simpl in Hl. unfold nbytes in Hl. rewrite decide_False in Hl by lia. lia.
Qed.

(** ** The encoder is the documented encoding *)

Lemma length_encList c : (length c <= length (encList c))%nat.
Proof. unfold encList. rewrite length_app. lia. Qed.

Lemma length_encStr b : (length b <= length (encStr b))%nat.
Proof. unfold encStr. destruct b as [|x [|y b]]; [simpl; lia| |rewrite length_app; lia]. case_decide; simpl; lia. Qed.

Lemma listEnd_spec w w2 bs : writes (list_ w).1 w2 bs -> Z.of_nat (length bs) < 2 ^ 63 ->
  exists w', listEnd w2 (list_ w).2 = Done w' /\ writes w w' (encList bs).
Proof.
  intros Hw Hl. pose proof (writes_length _ _ _ Hw) as Hsz.
  destruct Hw as (s & hs & Hs & Hh & Hlh & Hin & Hseg & H9). simpl in *. unfold listEnd. rewrite Hh, <-app_assoc. simpl app.
  rewrite (index_nat _ _ (mkHead (Z.of_nat (length (str w))) (lhsize w))) by (rewrite lookup_app_r, Nat.sub_diag by lia; done).
  cbn [mbind outcome_bind offset hsize]. rewrite insert_app_r_alt, Nat.sub_diag by lia. cbn [list_insert insert].
  assert (size w2 - Z.of_nat (length (str w)) - lhsize w = Z.of_nat (length bs)) as -> by (unfold size in *; simpl in *; lia).
  eexists. split; [done|]. exists s, (mkHead (Z.of_nat (length (str w))) (Z.of_nat (length bs)) :: hs). simpl.
  rewrite !Nat2Z.id, Nat.sub_diag, Nat.add_0_r. split_and!; [done|done| |lia..|done| |done].
  2: by rewrite drop_0, Hseg; unfold headBytes, encList; cbn [hsize]; rewrite Nat2Z.id.
  rewrite Hlh. unfold headsize. case_decide; [lia|]. rewrite u64_small by (split; lia). lia.
Qed.

Lemma inList_spec w w2 body bs :
  body (list_ w).1 = ok w2 -> writes (list_ w).1 w2 bs -> Z.of_nat (length bs) < 2 ^ 63 ->
  exists w', inList w body = ok w' /\ writes w w' (encList bs).
Proof.
  intros Hb Hw Hl. unfold inList. simpl in *. rewrite Hb. cbn [ok rbind]. destruct (listEnd_spec w w2 bs Hw Hl) as (w' & Hw' & ?). simpl in Hw'.
  rewrite Hw'. by exists w'.
Qed.

Definition writeOk (v : rval) : Prop := forall t w,
  length (sizebuf w) = 9%nat -> typed v t -> Z.of_nat (length (enc v t)) < 2 ^ 63 ->
  if negative v then write v t w = err ErrNegativeBigInt else exists w', write v t w = ok w' /\ writes w w' (enc v t).

Lemma writeElems_spec l ts w : Forall writeOk l ->
  length (sizebuf w) = 9%nat -> typedElems l ts -> Z.of_nat (length (encElems l ts)) < 2 ^ 63 ->
  if existsb negative l then writeElems l ts w = err ErrNegativeBigInt
  else exists w', writeElems l ts w = ok w' /\ writes w w' (encElems l ts).
Proof.
  intros Hl. revert ts w. induction Hl as [|v l Hv Hl IH]; intros [|t ts] w Hw Ht Hlen; [..|done|].
  - exists w. split; [done|]. by apply writes_nil.
  - done.
  - destruct Ht as [Ht Hts]. cbn [encElems] in *. rewrite length_app in Hlen. cbn [existsb writeElems].
    specialize (Hv t w Hw Ht ltac:(lia)). destruct (negative v); [by rewrite Hv|]. destruct Hv as (w1 & -> & Hw1). cbn [ok rbind orb].
    specialize (IH ts w1 ltac:(by eapply writes_sizebuf) Hts ltac:(lia)). destruct (existsb negative l); [done|].
    destruct IH as (w2 & -> & Hw2). exists w2. split; [done|]. by eapply writes_app.
Qed.

Lemma writeElems_list l ts w : Forall writeOk l ->
  length (sizebuf w) = 9%nat -> typedElems l ts -> Z.of_nat (length (encList (encElems l ts))) < 2 ^ 63 ->
  if existsb negative l then inList w (writeElems l ts) = err ErrNegativeBigInt
  else exists w', inList w (writeElems l ts) = ok w' /\ writes w w' (encList (encElems l ts)).
Proof.
  intros Hl Hw Ht Hlen. pose proof (length_encList (encElems l ts)).
  pose proof (writeElems_spec l ts (list_ w).1 Hl Hw Ht ltac:(lia)) as H1. destruct (existsb negative l).
  - unfold inList. simpl in *. by rewrite H1.
  - destruct H1 as (w' & Hb & Hw'). eapply inList_spec; [done|done|lia].
Qed.

Lemma write_spec v : writeOk v.
Proof.
  induction v as [z|b|b|z|l IH| |v IH| |t' v IH] using rval_rect_nested; intros t w Hw Ht Hlen;
    destruct t; try done; cbn [negative] in *.
  - destruct Ht as [Hb Hz]. cbn [enc write] in *. destruct (writeUint64_spec w z Hw) as (w' & -> & Hw'); [|by exists w'].
    split; [lia|]. destruct Hz as [_ Hz]. eapply Z.lt_le_trans; [exact Hz|]. apply Z.pow_le_mono_r; unfold uintBits in Hb; lia.
  - cbn [enc write]. eexists. split; [done|]. unfold bufWriteBool. destruct b; by apply writes_appendStr.
  - cbn [enc write]. eexists. split; [done|]. by apply writes_appendStr.
  - cbn [write enc] in *. rewrite writeString_eq. pose proof (length_encStr b).
    destruct (bufWriteBytes_spec w b Hw ltac:(lia)) as (w' & -> & Hw'). by exists w'.
  - cbn [write enc] in *. pose proof (length_encStr b).
    destruct (bufWriteBytes_spec w b Hw ltac:(lia)) as (w' & -> & Hw'). by exists w'.
  - cbn [write enc typed] in *. pose proof (length_encStr b). apply makeByteArrayWriter_spec; [done|lia|by destruct Ht].
  - destruct z as [z|]; cbn [write enc writeBigIntPtr] in *; [|eexists; split; [done|by apply writes_appendStr]].
    case_decide; [by rewrite bool_decide_true, decide_True by lia|]. rewrite bool_decide_false, decide_False by lia.
    pose proof (length_encStr (bigBytes z)) as Hn. rewrite length_bigBytes in Hn.
    destruct (writeBigInt_spec w z Hw ltac:(lia) ltac:(lia)) as (w' & -> & Hw'). by exists w'.
  - rewrite write_slice, enc_slice, typed_slice in *. case_decide as H0; [|by apply writeElems_list].
    destruct l; [|done]. eexists. split; [done|]. by apply writes_appendStr.
  - rewrite write_array, enc_array, typed_array in *. destruct Ht as [_ Ht]. case_decide as H0; [|by apply writeElems_list].
    destruct l; [|done]. eexists. split; [done|]. by apply writes_appendStr.
  - rewrite write_struct, enc_struct, typed_struct in *. by apply writeElems_list.
  - eexists. split; [done|]. by apply writes_appendStr.
  - by apply IH.
  - eexists. split; [done|]. by apply writes_appendStr.
  - by apply IH.
Qed.

(** What the collected buffer of a value looks like. *)
Lemma write_result pooled t v :
  length (sizebuf pooled) = 9%nat -> typed v t -> Z.of_nat (length (enc v t)) < 2 ^ 63 ->
  if negative v then write v t (reset pooled) = err ErrNegativeBigInt
  else exists buf, write v t (reset pooled) = ok buf /\ headsIn 0 (length (str buf)) (lheads buf) /\
    lhsize buf = headsLen (lheads buf) /\ seg 0 (lheads buf) (str buf) = enc v t /\ length (sizebuf buf) = 9%nat.
Proof.
  intros Hp Ht Hl. pose proof (write_spec v t (reset pooled) Hp Ht Hl) as H. destruct (negative v); [done|].
  destruct H as (buf & -> & s & hs & Hs & Hh & Hlh & Hin & Hseg & H9). exists buf. split; [done|]. simpl in *. by rewrite Hs, Hh, Hlh.
Qed.

(** The answer is the documented encoding, whatever the pooled buffer was. *)
Lemma EncodeToBytes_enc pooled t v :
  length (sizebuf pooled) = 9%nat -> typed v t -> Z.of_nat (length (enc v t)) < 2 ^ 63 ->
  EncodeToBytes pooled t v = if negative v then err ErrNegativeBigInt else ok (enc v t).
Proof.
  intros Hp Ht Hl. unfold EncodeToBytes. pose proof (write_result pooled t v Hp Ht Hl) as H. destruct (negative v); [by rewrite H|].
  destruct H as (buf & -> & Hin & Hlh & Hseg & _). cbn [ok rbind]. rewrite makeBytes_spec by done. by rewrite Hseg.
Qed.

(** ** The reader *)

(** What a reader has still to give, and its invariant. *)
Definition remaining (r : encReader) : list Z :=
  match rbuf r with
  | None => []
  | Some buf => default [] (piece r) ++
      seg (Z.to_nat (rstrpos r)) (drop (lhpos r) (lheads buf)) (drop (Z.to_nat (rstrpos r)) (str buf))
  end.

Definition readerInv (r : encReader) : Prop :=
  match rbuf r with
  | None => True
  | Some buf => 0 <= rstrpos r /\ headsIn (Z.to_nat (rstrpos r)) (length (str buf)) (drop (lhpos r) (lheads buf)) /\
                length (sizebuf buf) = 9%nat /\ piece r <> Some []
  end.

(** The number of pieces a reader still gives is at most this. *)
Definition piecesLeft (r : encReader) : nat :=
  match rbuf r with
  | None => 0
  | Some buf => 2 * length (drop (lhpos r) (lheads buf)) + (match piece r with Some _ => 1 | None => 0 end) +
      match drop (lhpos r) (lheads buf) with
      | h :: _ => if decide (rstrpos r < offset h) then 1 else 0
      | [] => if decide (rstrpos r < Z.of_nat (length (str buf))) then 1 else 0
      end
  end.

Definition noPiece (r : encReader) : encReader := mkReader (rbuf r) (lhpos r) (rstrpos r) None.

Lemma subslice_take {A} (l : list A) (i j : Z) : 0 <= i <= j -> j <= Z.of_nat (length l) ->
  subslice l i j = Done (take (Z.to_nat j - Z.to_nat i) (drop (Z.to_nat i) l)).
Proof. intros H1 H2. unfold subslice. rewrite decide_True by lia. do 2 f_equal. lia. Qed.

Lemma next_spec r : readerInv r ->
  exists r' p, next r = Done (r', p) /\
    match p with
    | None => remaining r = []
    | Some p => p <> [] /\ is_Some (rbuf r') /\ remaining r = p ++ remaining (noPiece r') /\ readerInv (noPiece r') /\ (piecesLeft (noPiece r') < piecesLeft r)%nat
    end.
Proof.
  unfold readerInv, remaining, piecesLeft, next. destruct r as [[buf|] lp sp pc]; cbn [rbuf lhpos rstrpos piece noPiece];
    [|intros _; by exists (mkReader None lp sp pc), None].
  intros (Hsp & Hin & H9 & Hpc). destruct pc as [p|].
  { exists (mkReader (Some buf) lp sp (Some p)), (Some p). split_and!; [done|by intros ->|by eexists|done..|]. simpl. lia. }
  destruct (lheads buf !! lp) as [h|] eqn:Hh.
  - rewrite (drop_S _ _ _ Hh) in *. cbn [headsIn seg length] in *. destruct Hin as (H1 & H2 & H3). pose proof (headsIn_le _ _ _ H3) as Hle.
    rewrite Z2Nat.id in H1 by done. case_decide as Hb.
    + rewrite subslice_take by lia. eexists _, _. split; [done|]. cbn [rbuf lhpos rstrpos piece noPiece].
      replace (sp + (offset h - sp)) with (offset h) by lia. rewrite (drop_S _ _ _ Hh). cbn [headsIn seg length]. rewrite Nat.sub_diag, take_0, drop_drop.
      split_and!; [|by eexists|simpl; do 3 f_equal; [lia|]; by rewrite drop_0; f_equal; lia|lia|lia|lia|lia|done|done|done|].
      * intros Hn. apply (f_equal length) in Hn. rewrite length_take, length_drop in Hn. simpl in Hn. lia.
      * rewrite (decide_False (P := offset h < offset h)), (decide_True (P := sp < offset h)) by lia. lia.
    + assert (offset h = sp) as Ho by lia. unfold headEncode. unfold headBytes in *.
      replace (u64 (hsize h)) with (Z.of_nat (Z.to_nat (hsize h))) by (rewrite u64_small by (split; lia); lia).
      pose proof (header_le 0xC0 0xF7 (Z.to_nat (hsize h)) ltac:(lia)) as Hhl. rewrite puthead_spec by lia. cbn [mbind outcome_bind].
      rewrite subslice_prefix. eexists _, _. split; [done|]. cbn [rbuf lhpos rstrpos piece noPiece lheads str sizebuf].
      rewrite Ho, Nat.sub_diag, take_0, Nat.add_0_r, drop_0 in *. split_and!; [|by eexists|done|done|done| |done|].
      * intros Hn. apply (f_equal length) in Hn. simpl in Hn. lia.
      * rewrite length_app, length_drop. lia.
      * destruct (drop (S lp) (lheads buf)); repeat case_decide; simpl; lia.
  - assert (drop lp (lheads buf) = []) as Hd by (by apply drop_ge, lookup_ge_None_1). rewrite Hd in *. simpl in Hin. case_decide as Hb.
    + rewrite subslice_take by lia. eexists _, _. split; [done|]. cbn [rbuf lhpos rstrpos piece noPiece].
      rewrite Hd. cbn [seg headsIn length]. rewrite Nat2Z.id, drop_all. simpl default. rewrite app_nil_r.
      split_and!; [|by eexists|simpl; rewrite take_ge; [done|rewrite length_drop; lia]|lia|lia|done|done|].
      * intros Hn. apply (f_equal length) in Hn. rewrite length_take, length_drop in Hn. simpl in Hn. lia.
      * rewrite decide_False by lia. simpl. lia.
    + exists (mkReader (Some buf) lp sp None), None. split; [done|]. simpl. apply drop_ge. lia.
Qed.

Lemma readLoop_spec fuel room out r : readerInv r -> (piecesLeft r < fuel)%nat ->
  exists r', readLoop fuel room out r = Done (out ++ take room (remaining r), bool_decide (length (remaining r) <= room)%nat, r') /\
    readerInv r' /\ remaining r' = drop room (remaining r).
Proof.
  revert room out r. induction fuel as [|fuel IH]; intros room out r Hr Hf; [lia|]. cbn [readLoop].
  destruct (next_spec r Hr) as (r1 & [p|] & -> & Hp); cbn [mbind outcome_bind].
  - destruct Hp as (Hne & [buf Hbuf] & Hrem & Hinv & Hlt). rewrite Hrem. case_decide as Hn.
    + eexists. split; [rewrite bool_decide_false by (rewrite length_app; lia)|].
      * rewrite Nat.min_l, take_app_le by lia. done.
      * rewrite ?Nat.min_l by lia. unfold readerInv, remaining in *. cbn [rbuf noPiece lhpos rstrpos piece] in *.
        rewrite Hbuf in *. cbn [default] in *. rewrite drop_app_le by lia. split; [|done].
        destruct Hinv as (? & ? & ? & _). split_and!; [done..|]. intros [= Hd]. apply (f_equal length) in Hd. rewrite length_drop in Hd. simpl in Hd. lia.
    + rewrite Nat.min_r by lia. destruct (IH (room - length p)%nat (out ++ take (length p) p) (noPiece r1) Hinv ltac:(lia)) as (r' & Hl & Hi & Hd).
      exists r'. unfold noPiece in *. rewrite Hl. split_and!; [|done|by rewrite Hd, drop_app_ge by lia].
      rewrite firstn_all, <-app_assoc, take_app_ge by lia. do 3 f_equal. apply bool_decide_ext. rewrite length_app. lia.
  - eexists. split; [by rewrite Hp, take_nil, app_nil_r, bool_decide_true by (simpl; lia)|]. by rewrite Hp, drop_nil.
Qed.

(** Reading from the reader of [EncodeToReader] with buffers of any sizes gives
    the bytes of the encoding in order, each call as many as fit, and the end of
    the file with the last of them; the announced size is their number. *)
Theorem Read_correct pooled t v n1 n2 :
  length (sizebuf pooled) = 9%nat -> typed v t -> Z.of_nat (length (enc v t)) < 2 ^ 63 -> negative v = false ->
  exists r r1 r2, EncodeToReader pooled t v = ok (Z.of_nat (length (enc v t)), r) /\
    Read r n1 = Done (take n1 (enc v t), bool_decide (length (enc v t) <= n1)%nat, r1) /\
    Read r1 n2 = Done (take n2 (drop n1 (enc v t)), bool_decide (length (enc v t) <= n1 + n2)%nat, r2) /\
    remaining r2 = drop (n1 + n2) (enc v t).
Proof.
  intros Hp Ht Hl Hneg. pose proof (write_result pooled t v Hp Ht Hl) as H. rewrite Hneg in H.
  destruct H as (buf & Hw & Hin & Hlh & Hseg & H9). unfold EncodeToReader. rewrite Hw. cbn [ok rbind].
  set (r := mkReader (Some buf) 0 0 None).
  assert (readerInv r /\ remaining r = enc v t) as [Hr Hrem].
  { unfold readerInv, remaining. simpl. rewrite !drop_0. done. }
  assert (forall r n, readerInv r -> exists r', Read r n = Done (take n (remaining r), bool_decide (length (remaining r) <= n)%nat, r') /\
    readerInv r' /\ remaining r' = drop n (remaining r)) as HRead.
  { clear. intros r n Hr. unfold Read. destruct (readLoop_spec (match rbuf r with Some buf => 2 * length (lheads buf) + 4 | None => 1 end) n [] r Hr) as (r' & H & ?); [|by exists r'].
    unfold piecesLeft. destruct (rbuf r) as [buf|]; [|lia]. rewrite length_drop. repeat case_match; lia. }
  destruct (HRead r n1 Hr) as (r1 & H1 & Hr1 & Hrem1). destruct (HRead r1 n2 Hr1) as (r2 & H2 & _ & Hrem2).
  exists r, r1, r2. rewrite Hrem in *. rewrite Hrem1, drop_drop in *. split_and!; [|done| |done].
  - unfold size. rewrite Hlh, <-Hseg, length_seg by done. done.
  - rewrite H2. do 3 f_equal. apply bool_decide_ext. rewrite length_drop. lia.
Qed.

Lemma Read_correct_witness : exists r1 r2 r3,
  EncodeToReader newEncBuffer (TSlice (TUint 16)) (VList [VUint 1; VUint 2]) = ok (3, r1) /\
  Read r1 2 = Done ([0xC2; 1], false, r2) /\ Read r2 2 = Done ([2], true, r3).
Proof.
  destruct (Read_correct newEncBuffer (TSlice (TUint 16)) (VList [VUint 1; VUint 2]) 2 2) as (r1 & r2 & r3 & H1 & H2 & H3 & _).
  - reflexivity.
  - repeat split; try (right; by left); by vm_compute.
  - vm_compute; reflexivity.
  - reflexivity.
  - exists r1, r2, r3. split; [exact H1|]. split; [exact H2|exact H3].
Defined.

(** ** Writing to a writer *)

(** A writer that takes all it is given, as a [bytes.Buffer] or a file. *)
Definition appendingWriter (w p : list Z) : list Z * Z * option rlpErr := (w ++ p, Z.of_nat (length p), None).

Lemma writeHead_spec buf w sb strpos h :
  Z.of_nat strpos <= offset h <= Z.of_nat (length (str buf)) -> 0 <= hsize h < 2 ^ 63 -> length sb = 9%nat ->
  exists sb', length sb' = 9%nat /\ writeHead appendingWriter buf (w, Z.of_nat strpos, sb, None) h =
    Done (w ++ take (Z.to_nat (offset h) - strpos) (drop strpos (str buf)) ++ headBytes h, Z.of_nat (Z.to_nat (offset h)), sb', None).
Proof.
  intros H1 H2 H9. unfold writeHead.
  assert (forall w', exists sb', length sb' = 9%nat /\ ('(sb, n) ← headEncode h sb; e ← subslice sb 0 n;
      (let '(w, _, e) := appendingWriter w' e in Done (w, Z.of_nat (Z.to_nat (offset h)), sb, e))) =
    Done (w' ++ headBytes h, Z.of_nat (Z.to_nat (offset h)), sb', None)) as Hhead.
  { intros w'. unfold headEncode, headBytes. pose proof (header_le 0xC0 0xF7 (Z.to_nat (hsize h)) ltac:(lia)).
    replace (u64 (hsize h)) with (Z.of_nat (Z.to_nat (hsize h))) by (rewrite u64_small by (split; lia); lia).
    rewrite puthead_spec by lia. cbn [mbind outcome_bind]. rewrite subslice_prefix. cbn [mbind outcome_bind appendingWriter].
    eexists. split; [|done]. rewrite length_app, length_drop. lia. }
  case_decide as Hd.
  - rewrite subslice_take, Nat2Z.id by lia. cbn [mbind outcome_bind appendingWriter].
    rewrite length_take, length_drop. replace (Z.of_nat strpos + Z.of_nat _) with (Z.of_nat (Z.to_nat (offset h))) by lia.
    rewrite app_assoc. apply Hhead.
  - cbn [mbind outcome_bind]. replace (Z.to_nat (offset h) - strpos)%nat with 0%nat by lia. rewrite take_0. simpl app.
    replace (Z.of_nat strpos) with (Z.of_nat (Z.to_nat (offset h))) by lia. apply Hhead.
Qed.

(** A writer that takes all writes is given the same bytes, behind what was
    written before. *)
Lemma Encode_enc pooled t v w :
  length (sizebuf pooled) = 9%nat -> typed v t -> Z.of_nat (length (enc v t)) < 2 ^ 63 ->
  Encode appendingWriter pooled w t v = if negative v then Done (w, Some ErrNegativeBigInt) else Done (w ++ enc v t, None).
Proof.
  intros Hp Ht Hl. unfold Encode. pose proof (write_result pooled t v Hp Ht Hl) as H. destruct (negative v); [by rewrite H|].
  destruct H as (buf & -> & Hin & Hlh & Hseg & H9). cbn [ok]. unfold writeTo. rewrite <-Hseg. clear Hseg Hlh.
  assert (forall hs w sb strpos, length sb = 9%nat -> headsIn strpos (length (str buf)) hs ->
    exists w' strpos' sb', fold_outcome (writeHead appendingWriter buf) hs (w, Z.of_nat strpos, sb, None) = Done (w', Z.of_nat strpos', sb', None) /\
      (strpos' <= length (str buf))%nat /\ w' ++ drop strpos' (str buf) = w ++ seg strpos hs (drop strpos (str buf))) as Hloop.
  { clear w Hin. intros hs. induction hs as [|h hs IH]; intros w sb strpos Hsb Hin; cbn [fold_outcome].
    - exists w, strpos, sb. done.
    - cbn [headsIn] in Hin. destruct Hin as (H1 & H2 & H3). pose proof (headsIn_le _ _ _ H3).
      destruct (writeHead_spec buf w sb strpos h ltac:(lia) H2 Hsb) as (sb1 & Hsb1 & ->).
      destruct (IH (w ++ take (Z.to_nat (offset h) - strpos) (drop strpos (str buf)) ++ headBytes h) sb1 _ Hsb1 H3) as (w' & sp & sb' & -> & Hsp & Hw').
      exists w', sp, sb'. split_and!; [done|done|]. rewrite Hw', <-!app_assoc. cbn [seg]. rewrite drop_drop.
      by replace (strpos + (Z.to_nat (offset h) - strpos))%nat with (Z.to_nat (offset h)) by lia. }
  destruct (Hloop (lheads buf) w (sizebuf buf) 0%nat H9 Hin) as (w' & sp & sb' & Hf & Hsp & Hw'). change (Z.of_nat 0) with 0 in Hf. rewrite Hf.
  cbn [mbind outcome_bind]. rewrite drop_0 in Hw'. rewrite <-Hw'. case_decide.
  - by rewrite subslice_from by done.
  - by rewrite drop_ge, app_nil_r by lia.
Qed.

(** C14: encoding a value of any of the types gives its documented encoding, with
    the headers put in after the sizes of all lists are known, or fails exactly
    when the value holds a negative integer; whatever the pooled buffer was,
    and the same bytes to a byte slice and to a writer. *)
Theorem Encode_correct pooled t v w :
  length (sizebuf pooled) = 9%nat -> typed v t -> Z.of_nat (length (enc v t)) < 2 ^ 63 ->
  if negative v then EncodeToBytes pooled t v = err ErrNegativeBigInt /\ Encode appendingWriter pooled w t v = Done (w, Some ErrNegativeBigInt)
  else EncodeToBytes pooled t v = ok (enc v t) /\ Encode appendingWriter pooled w t v = Done (w ++ enc v t, None).
Proof. intros Hp Ht Hl. rewrite EncodeToBytes_enc, Encode_enc by done. by destruct (negative v). Qed.

Lemma Encode_correct_witness :
  EncodeToBytes newEncBuffer (TStruct [TUint 64; TSlice TBytes]) (VList [VUint 300; VList [VBytes [1]; VBytes [200; 2]]]) =
    ok [0xC8; 0x82; 1; 44; 0xC4; 1; 0x82; 200; 2] /\
  EncodeToBytes newEncBuffer (TSlice TBigPtr) (VList [VBig (Some 3); VBig (Some (-1))]) = err ErrNegativeBigInt.
Proof.
  split.
  - refine (proj1 (Encode_correct newEncBuffer (TStruct [TUint 64; TSlice TBytes]) (VList [VUint 300; VList [VBytes [1]; VBytes [200; 2]]]) [] _ _ _));
      [reflexivity| |vm_compute; reflexivity].
    repeat split; try (by vm_compute); try (right; right; by right); repeat constructor; by vm_compute.
  - refine (proj1 (Encode_correct newEncBuffer (TSlice TBigPtr) (VList [VBig (Some 3); VBig (Some (-1))]) [] _ _ _));
      [reflexivity|done|vm_compute; reflexivity].
Defined.
