(* ===== verification/RlpDecode.v ===== *)
(** * The RLP decoder

    [rlp/decode.go]: the stream with its stack of list sizes, and the decoders
    [makeDecoder] builds for the types of [RlpEncode].  The input is a byte
    slice, read through [sliceReader]; a file read through [bufio] gives the
    same bytes.  Decoding is into a fresh value.

    Errors are control flow here ([EOL] ends the loop over the elements of a
    list), so an operation answers its error together with the stream it
    leaves.  The auxiliary [uintbuf] is scratch space and not kept. *)

From S2P Require Import Prelude Bytes RlpRaw RlpEncode.

Local Open Scope Z_scope.

(** ** The stream *)

Record Stream := mkStream {
  input : list Z;
  srem : Z;
  ssize : Z;
  kinderr : option rlpErr;
  (** The sizes left in the open lists, the innermost first. *)
  stack : list Z;
  kind : option Kind;
  byteval : Z;
  limited : bool
}.

Definition set_kind (k : option Kind) (s : Stream) : Stream :=
  mkStream (input s) (srem s) (ssize s) (kinderr s) (stack s) k (byteval s) (limited s).
Definition set_byteval (b : Z) (s : Stream) : Stream :=
  mkStream (input s) (srem s) (ssize s) (kinderr s) (stack s) (kind s) b (limited s).
Definition set_input (i : list Z) (s : Stream) : Stream :=
  mkStream i (srem s) (ssize s) (kinderr s) (stack s) (kind s) (byteval s) (limited s).
Definition set_stack (st : list Z) (s : Stream) : Stream :=
  mkStream (input s) (srem s) (ssize s) (kinderr s) st (kind s) (byteval s) (limited s).
Definition set_srem (r : Z) (s : Stream) : Stream :=
  mkStream (input s) r (ssize s) (kinderr s) (stack s) (kind s) (byteval s) (limited s).
Definition set_ssize (z : Z) (s : Stream) : Stream :=
  mkStream (input s) (srem s) z (kinderr s) (stack s) (kind s) (byteval s) (limited s).
Definition set_kinderr (e : option rlpErr) (s : Stream) : Stream :=
  mkStream (input s) (srem s) (ssize s) e (stack s) (kind s) (byteval s) (limited s).

(** An operation on the stream: a value or an error, and the new stream. *)
Abbreviation op A := (Stream -> outcome ((rlpErr + A) * Stream)) (only parsing).

Definition sret {A : Type} (a : A) : op A := fun s => Done (inr a, s).
Definition serr {A : Type} (e : rlpErr) : op A := fun s => Done (inl e, s).
Definition sbind {A B : Type} (m : op A) (f : A -> op B) : op B := fun s =>
  match m s with
  | Done (inr a, s) => f a s
  | Done (inl e, s) => Done (inl e, s)
  | Panic => Panic
  | Stuck => Stuck
  end.
Definition modify (f : Stream -> Stream) : op unit := fun s => Done (inr tt, f s).

Declare Scope stream_scope.
Notation "x <-- m ; k" := (sbind m (fun x => k)) (at level 20, m at level 100, k at level 200, only parsing) : stream_scope.
Notation "' p <-- m ; k" := (sbind m (fun p => k)) (at level 20, p pattern, m at level 100, k at level 200, only parsing) : stream_scope.
Local Open Scope stream_scope.

(** [Stream.Reset] on a slice reader: an input limit of 0 is none. *)
Definition Reset (b : list Z) (inputLimit : Z) : Stream :=
  mkStream b (if decide (inputLimit > 0) then inputLimit else 0) 0 None [] None 0 (bool_decide (inputLimit > 0)).

Definition listLimit (s : Stream) : bool * Z :=
  match stack s with [] => (false, 0) | l :: _ => (true, l) end.

(** [s.stack[len(s.stack)-1] = z] *)
Definition setTop (z : Z) (s : Stream) : Stream := set_stack (z :: tail (stack s)) s.

Definition willRead (n : Z) : op unit := fun s =>
  let s := set_kind None s in
  let '(inList, limit) := listLimit s in
  if inList && bool_decide (n > limit) then Done (inl ErrElemTooLarge, s)
  else
    let s := if inList then setTop (u64 (limit - n)) s else s in
    if limited s then
      if decide (n > srem s) then Done (inl ErrValueTooLarge, s)
      else Done (inr tt, set_srem (u64 (srem s - n)) s)
    else Done (inr tt, s).

(** [sliceReader.Read] into [want] bytes: what was read, the rest, and [io.EOF]. *)
Definition sliceRead (want : nat) (sr : list Z) : list Z * list Z * bool :=
  if decide (length sr = 0%nat) then ([], sr, true)
  else (take want sr, drop want sr, false).

(** The loop of [readFull]; two rounds suffice for a slice reader, see [readFull_spec]. *)
Fixpoint readFullLoop (fuel : nat) (want : nat) (got sr : list Z) : outcome (list Z * list Z * bool) :=
  match fuel with
  | O => Stuck
  | S fuel =>
      if decide (length got < want)%nat then
        let '(p, sr, eof) := sliceRead (want - length got) sr in
        if eof : bool then Done (got, sr, true) else readFullLoop fuel want (got ++ p) sr
      else Done (got, sr, false)
  end.

Definition readFull (n : Z) : op (list Z) :=
  _ <-- willRead n;
  fun s =>
    match readFullLoop 3 (Z.to_nat n) [] (input s) with
    | Done (got, sr, eof) =>
        let s := set_input sr s in
        if eof && bool_decide (length got < Z.to_nat n)%nat then Done (inl errUnexpectedEOF, s) else Done (inr got, s)
    | Panic => Panic
    | Stuck => Stuck
    end.

Definition readByte : op Z :=
  _ <-- willRead 1;
  fun s => match input s with
           | [] => Done (inl errUnexpectedEOF, s)
           | b :: r => Done (inr b, set_input r s)
           end.

(** [buffer[start:]] of the eight byte buffer, with [start := int(8 - size)] on
    bytes. *)
Definition readUint (size : Z) : op Z :=
  if decide (size = 0) then _ <-- modify (set_kind None); sret 0
  else if decide (size = 1) then readByte
  else fun s =>
    if decide (u8 (8 - size) > 8) then Panic
    else (bs <-- readFull (8 - u8 (8 - size));
          fun s => b0 ← index bs 0;
                   if decide (b0 = 0) then Done (inl ErrCanonSize, s) else Done (inr (be_to_Z bs), s)) s.

(** The kind, the size and the error of the value ahead; all three are kept. *)
Definition longKind (k : Kind) (n : Z) (s : Stream) : outcome (Kind * Z * option rlpErr * Stream) :=
  match readUint n s with
  | Done (inr size, s) => Done (k, size, if decide (size < 56) then Some ErrCanonSize else None, s)
  | Done (inl e, s) => Done (k, 0, Some e, s)
  | Panic => Panic
  | Stuck => Stuck
  end.

Definition readKind (s : Stream) : outcome (Kind * Z * option rlpErr * Stream) :=
  match readByte s with
  | Done (inl e, s) =>
      let e := if decide (stack s = [] /\ (e = errUnexpectedEOF \/ e = ErrValueTooLarge)) then errIOEOF else e in
      Done (KByte, 0, Some e, s)
  | Done (inr b, s) =>
      let s := set_byteval 0 s in
      if decide (b < 0x80) then Done (KByte, 0, None, set_byteval b s)
      else if decide (b < 0xB8) then Done (KString, u8 (b - 0x80), None, s)
      else if decide (b < 0xC0) then longKind KString (u8 (b - 0xB7)) s
      else if decide (b < 0xF8) then Done (KList, u8 (b - 0xC0), None, s)
      else longKind KList (u8 (b - 0xF7)) s
  | Panic => Panic
  | Stuck => Stuck
  end.

(** ** Operations *)

(** [Stream.Kind]: the limit is the one before the tag is read. *)
Definition Kind_ : op (Kind * Z) := fun s =>
  match kind s with
  | Some k => Done (match kinderr s with Some e => inl e | None => inr (k, ssize s) end, s)
  | None =>
      let '(inList, limit) := listLimit s in
      if inList && bool_decide (limit = 0) then Done (inl EOL, s)
      else
        '(k, size, e, s) ← readKind s;
        let e := match e with
                 | Some e => Some e
                 | None => if inList && bool_decide (size > limit) then Some ErrElemTooLarge
                           else if limited s && bool_decide (size > srem s) then Some ErrValueTooLarge
                           else None
                 end in
        let s := set_kinderr e (set_ssize size (set_kind (Some k) s)) in
        Done (match e with Some e => inl e | None => inr (k, size) end, s)
  end.

(** [make([]byte, n)]: the run-time system refuses more than the address space. *)
Definition maxAlloc : Z := 2 ^ 48.
Definition makeSlice (n : Z) : op unit := fun s => if decide (n > maxAlloc) then Panic else Done (inr tt, s).

Definition rearm : op unit := modify (set_kind None).
Definition getByteval : op Z := fun s => Done (inr (byteval s), s).

(** [if size == 1 && b[0] < 128 { return nil, ErrCanonSize }] *)
Definition canonByte (size : Z) (b : list Z) : op unit := fun s =>
  if decide (size = 1) then b0 ← index b 0; Done (if decide (b0 < 128) then inl ErrCanonSize else inr tt, s)
  else Done (inr tt, s).

Definition bytesAhead (k : Kind) (size : Z) : op (list Z) :=
  match k with
  | KByte => _ <-- rearm; b <-- getByteval; sret [b]
  | KString => _ <-- makeSlice size; b <-- readFull size; _ <-- canonByte size b; sret b
  | KList => serr ErrExpectedString
  end.
Definition Bytes_ : op (list Z) := '(k, size) <-- Kind_; bytesAhead k size.

(** [ReadBytes(b)] for a buffer of [n] bytes. *)
Definition ReadBytes (n : nat) : op (list Z) :=
  '(k, size) <-- Kind_;
  match k with
  | KByte => if decide (n <> 1%nat) then serr errWrongSize else b <-- getByteval; _ <-- rearm; sret [b]
  | KString => if decide (Z.of_nat n <> size) then serr errWrongSize
               else b <-- readFull (Z.of_nat n); _ <-- canonByte size b; sret b
  | KList => serr ErrExpectedString
  end.

(** The original header is no longer available: the content is read behind the
    place for a new one. *)
Definition rawAhead (k : Kind) (size : Z) : op (list Z) :=
  let start := headsize size in
  let len := u64 (start + size) in
  _ <-- makeSlice len;
  content <-- (if decide (len < start) then fun _ => Panic else readFull (len - start));
  fun s => '(buf, _) ← puthead (replicate (Z.to_nat start) 0 ++ content)
                         (if decide (k = KString) then 0x80 else 0xC0) (if decide (k = KString) then 0xB7 else 0xF7) size;
           Done (inr buf, s).

Definition Raw : op (list Z) :=
  '(k, size) <-- Kind_;
  match k with
  | KByte => _ <-- rearm; b <-- getByteval; sret [b]
  | _ => rawAhead k size
  end.

Definition uint_ (maxbits : Z) : op Z :=
  '(k, size) <-- Kind_;
  match k with
  | KByte => b <-- getByteval; if decide (b = 0) then serr ErrCanonInt else _ <-- rearm; sret b
  | KString =>
      if decide (size > maxbits `div` 8) then serr errUintOverflow
      else fun s => match readUint (u8 size) s with
                    | Done (inl ErrCanonSize, s) => Done (inl ErrCanonInt, s)
                    | Done (inl e, s) => Done (inl e, s)
                    | Done (inr v, s) => if decide (size > 0 /\ v < 128) then Done (inl ErrCanonSize, s) else Done (inr v, s)
                    | Panic => Panic
                    | Stuck => Stuck
                    end
  | KList => serr ErrExpectedString
  end.

Definition Bool_ : op bool :=
  num <-- uint_ 8;
  if decide (num = 0) then sret false else if decide (num = 1) then sret true else serr errInvalidBool.

Definition listAhead (k : Kind) (size : Z) : op Z :=
  if decide (k <> KList) then serr ErrExpectedList
  else fun s =>
    let '(inList, limit) := listLimit s in
    let s := if inList : bool then setTop (u64 (limit - size)) s else s in
    Done (inr size, set_ssize 0 (set_kind None (set_stack (size :: stack s) s))).
Definition List_ : op Z := '(k, size) <-- Kind_; listAhead k size.

Definition ListEnd : op unit := fun s =>
  let '(inList, limit) := listLimit s in
  if negb inList then Done (inl errNotInList, s)
  else if decide (limit > 0) then Done (inl errNotAtEOL, s)
  else Done (inr tt, set_ssize 0 (set_kind None (set_stack (tail (stack s)) s))).

Definition MoreDataInList (s : Stream) : bool := bool_decide ((listLimit s).2 > 0).

(** The integer's bytes are read into [uintbuf] or a new buffer. *)
Definition decodeBigInt : op Z :=
  '(k, size) <-- Kind_;
  buffer <--
    (match k with
     | KList => serr ErrExpectedString
     | KByte => b <-- getByteval; _ <-- rearm; sret [b]
     | KString =>
         if decide (size = 0) then _ <-- rearm; sret []
         else if decide (size <= 32) then b <-- readFull size; _ <-- canonByte size b; sret b
         else _ <-- makeSlice size; readFull size
     end);
  match buffer with
  | 0 :: _ => serr ErrCanonInt
  | _ => sret (be_to_Z buffer)
  end.

(** ** Decoders *)

Definition wrapStreamError (e : rlpErr) : rlpErr :=
  match e with
  | ErrCanonInt => decodeError NonCanonicalInteger
  | ErrCanonSize => decodeError NonCanonicalSize
  | ErrExpectedList => decodeError ExpectedInputList
  | ErrExpectedString => decodeError ExpectedInputString
  | errUintOverflow => decodeError InputStringTooLong
  | errNotAtEOL => decodeError InputListTooManyElements
  | _ => e
  end.

Definition wrapped {A : Type} (m : op A) : op A := fun s =>
  match m s with
  | Done (inl e, s) => Done (inl (wrapStreamError e), s)
  | o => o
  end.

(** The loop over the elements of a slice ends with the list. *)
Fixpoint decodeSliceElems (fuel : nat) (elemdec : op rval) (val : list rval) : op (list rval) :=
  match fuel with
  | O => fun s => Stuck
  | S fuel => fun s =>
      match elemdec s with
      | Done (inl EOL, s) => Done (inr val, s)
      | Done (inl e, s) => Done (inl e, s)
      | Done (inr v, s) => decodeSliceElems fuel elemdec (val ++ [v]) s
      | Panic => Panic
      | Stuck => Stuck
      end
  end.

Definition decodeListSlice (fuel : nat) (elemdec : op rval) : op rval :=
  size <-- wrapped List_;
  if decide (size = 0) then _ <-- ListEnd; sret (VList [])
  else l <-- decodeSliceElems fuel elemdec []; _ <-- ListEnd; sret (VList l).

(** The loops over the fields of a struct and the elements of an array; [e] is
    the error when the list ends early. *)
Fixpoint decodeFields (e : rlpErr) (decs : list (op rval)) : op (list rval) :=
  match decs with
  | [] => sret []
  | dec :: decs => fun s =>
      match dec s with
      | Done (inl EOL, s) => Done (inl e, s)
      | Done (inl e, s) => Done (inl e, s)
      | Done (inr v, s) => (l <-- decodeFields e decs; sret (v :: l)) s
      | Panic => Panic
      | Stuck => Stuck
      end
  end.

Definition decodeListArray (n : nat) (elemdec : op rval) : op rval :=
  _ <-- wrapped List_;
  l <-- decodeFields (decodeError InputListTooFewElements) (replicate n elemdec);
  _ <-- wrapped ListEnd; sret (VList l).

Definition makeStructDecoder (decs : list (op rval)) : op rval :=
  _ <-- wrapped List_;
  l <-- decodeFields (decodeError TooFewElements) decs;
  _ <-- wrapped ListEnd; sret (VList l).

Definition decodeByteArray (n : nat) : op rval :=
  '(k, size) <-- Kind_;
  match k with
  | KByte =>
      if decide (n = 0%nat) then serr (decodeError InputStringTooLong)
      else if decide (1 < n)%nat then serr (decodeError InputStringTooShort)
      else b <-- getByteval; _ <-- rearm; sret (VBytes [b])
  | KString =>
      if decide (Z.of_nat n < size) then serr (decodeError InputStringTooLong)
      else if decide (Z.of_nat n > size) then serr (decodeError InputStringTooShort)
      else slice <-- readFull (Z.of_nat n); _ <-- wrapped (canonByte size slice); sret (VBytes slice)
  | KList => serr (wrapStreamError ErrExpectedString)
  end.

(** The decoder [makeDecoder] builds for a type; the fuel bounds the nesting of
    the type and of the input and the number of elements of a list. *)
Fixpoint decode (fuel : nat) (t : rtype) : op rval :=
  match fuel with
  | O => fun s => Stuck
  | S fuel =>
      match t with
      | TRaw => b <-- Raw; sret (VBytes b)
      | TBigPtr => z <-- wrapped decodeBigInt; sret (VBig (Some z))
      | TUint bits => z <-- wrapped (uint_ bits); sret (VUint z)
      | TBool => b <-- wrapped Bool_; sret (VBool b)
      | TString | TBytes => b <-- wrapped Bytes_; sret (VBytes b)
      | TByteArray n => decodeByteArray n
      | TSlice te => decodeListSlice fuel (decode fuel te)
      | TArray n te => decodeListArray n (decode fuel te)
      | TStruct fields => makeStructDecoder (map (decode fuel) fields)
      | TPtr te => v <-- decode fuel te; sret (VPtr (Some v))
      | TIface =>
          '(k, _) <-- Kind_;
          match k with
          | KList => v <-- decodeListSlice fuel (decode fuel TIface); sret (VIface (Some (TSlice TIface, v)))
          | _ => b <-- Bytes_; sret (VIface (Some (TBytes, VBytes b)))
          end
      end
  end.

Fixpoint typeDepth (t : rtype) : nat :=
  match t with
  | TSlice te | TArray _ te | TPtr te => S (typeDepth te)
  | TStruct fields => S (foldr (fun f n => max (typeDepth f) n) 0%nat fields)
  | _ => 1
  end.

(** [Stream.Decode] into a value of type [t]. *)
Definition streamDecode (t : rtype) (s : Stream) : outcome ((rlpErr + rval) * Stream) :=
  decode (typeDepth t + length (input s) + 1)%nat t s.

Definition DecodeBytes (b : list Z) (t : rtype) : res rval :=
  match streamDecode t (Reset b (Z.of_nat (length b))) with
  | Done (inl e, _) => err e
  | Done (inr v, s) => if decide (0 < length (input s))%nat then err ErrMoreThanOneValue else ok v
  | Panic => Panic
  | Stuck => Stuck
  end.

(** ** Reading *)

(** The sizes left after [n] bytes; the subtraction is that of [uint64]. *)
Definition minus (st : list Z) (n : Z) : list Z :=
  match st with [] => [] | l :: st => u64 (l - n) :: st end.

(** [eats s c s']: the bytes [c] were read. *)
Definition eats (s : Stream) (c : list Z) (s' : Stream) : Prop :=
  input s = c ++ input s' /\ stack s' = minus (stack s) (Z.of_nat (length c)) /\
  limited s' = limited s /\ srem s' = if limited s then u64 (srem s - Z.of_nat (length c)) else srem s.

(** The fields hold [uint64] values, and the input is one of a Go slice. *)
Definition streamOk (s : Stream) : Prop :=
  Forall in_u64 (stack s) /\ in_u64 (srem s) /\ bytes_ok (input s) /\ Z.of_nat (length (input s)) < 2 ^ 63.

Lemma u64_minus l a b : u64 (u64 (l - a) - b) = u64 (l - (a + b)).
Proof. unfold u64, wrap. rewrite Zminus_mod_idemp_l. f_equal. lia. Qed.

Lemma minus_minus st a b : minus (minus st a) b = minus st (a + b).
Proof. destruct st as [|l st]; [done|]. simpl. by rewrite u64_minus. Qed.

Lemma minus_0 st : Forall in_u64 st -> minus st 0 = st.
Proof. destruct st as [|l st]; [done|]. intros [Hl _]%Forall_cons_1. simpl. by rewrite Z.sub_0_r, u64_small. Qed.

Lemma minus_ok st n : Forall in_u64 st -> Forall in_u64 (minus st n).
Proof. destruct st as [|l st]; [done|]. intros [_ Hst]%Forall_cons_1. simpl. constructor; [apply u64_bound|done]. Qed.

Lemma eats_trans s1 c1 s2 c2 s3 : eats s1 c1 s2 -> eats s2 c2 s3 -> eats s1 (c1 ++ c2) s3.
Proof.
  intros (Hi1 & Hs1 & Hl1 & Hr1) (Hi2 & Hs2 & Hl2 & Hr2). unfold eats.
  rewrite Hi1, Hi2, Hs2, Hs1, minus_minus, <-app_assoc, length_app, Nat2Z.inj_add. split_and!; [done|done|congruence|].
  rewrite Hr2, Hl1, Hr1. destruct (limited s1); [|done]. by rewrite u64_minus.
Qed.

(** What is kept when only the cached kind changes. *)
Definition sameData (s s' : Stream) : Prop :=
  input s' = input s /\ stack s' = stack s /\ limited s' = limited s /\ srem s' = srem s.

Lemma eats_same s c s1 s2 : eats s c s1 -> sameData s1 s2 -> eats s c s2.
Proof. intros (Hi & Hs & Hl & Hr) (H1 & H2 & H3 & H4). unfold eats. rewrite H1, H2, H3, H4. done. Qed.

Lemma eats_same_l s s0 c s1 : eats s c s1 -> sameData s0 s -> eats s0 c s1.
Proof. intros (Hi & Hs & Hl & Hr) (H1 & H2 & H3 & H4). unfold eats. rewrite <-H1, <-H2, <-H3, <-H4. done. Qed.

Lemma eats_nil s s' : streamOk s -> sameData s s' -> eats s [] s'.
Proof.
  intros (Hok & Hr & _) (H1 & H2 & H3 & H4). unfold eats. rewrite H1, H2, H3, H4. simpl.
  rewrite minus_0, Z.sub_0_r, u64_small by done. by destruct (limited s).
Qed.

Lemma eats_ok s c s' : eats s c s' -> streamOk s -> streamOk s' /\ bytes_ok c /\ (length (input s') + length c = length (input s))%nat.
Proof.
  intros (Hi & Hs & _ & Hr) (Hst & Hrm & Hb & Hl). unfold streamOk. rewrite Hs, Hr. rewrite Hi in *. apply Forall_app in Hb as [Hc Hb].
  rewrite length_app in *. split_and!; [by apply minus_ok|destruct (limited s); [apply u64_bound|done]|done|lia|done|lia].
Qed.

(** The room for [n] more bytes in the innermost list and in the input limit. *)
Definition fits (s : Stream) (n : Z) : Prop :=
  match stack s with [] => True | l :: _ => n <= l end /\ (limited s = true -> n <= srem s).

Lemma fits_eats s c s' n : streamOk s -> eats s c s' -> fits s (Z.of_nat (length c) + n) -> 0 <= n -> fits s' n.
Proof.
  intros (Hst & Hr & _) (_ & Hs & Hl & Hr') [H1 H2] Hn. unfold fits. rewrite Hs, Hl, Hr'. split.
  - destruct (stack s) as [|l st]; [done|]. apply Forall_cons_1 in Hst as [[? ?] _]. simpl. rewrite u64_small by (split; lia). lia.
  - intros Hlim. specialize (H2 Hlim). rewrite Hlim. destruct Hr. rewrite u64_small by (split; lia). lia.
Qed.

Lemma willRead_cases n s : streamOk s -> 0 <= n ->
  (~ fits s n /\ exists e s', willRead n s = Done (inl e, s') /\ (e = ErrElemTooLarge \/ e = ErrValueTooLarge)) \/
  (fits s n /\ exists s', willRead n s = Done (inr tt, s') /\ input s' = input s /\ stack s' = minus (stack s) n /\
     limited s' = limited s /\ srem s' = (if limited s then u64 (srem s - n) else srem s) /\ kind s' = None /\ byteval s' = byteval s).
Proof.
  intros _ Hn. destruct s as [inp rm sz ke [|l st] k bv [|]]; unfold willRead, fits, listLimit; simpl.
  all: repeat first [case_bool_decide; simpl | case_decide; simpl].
  all: first [ left; split; [naive_solver lia|]; eexists _, _; split; [reflexivity|tauto]
             | right; split; [naive_solver lia|]; eexists; split; [reflexivity|]; done ].
Qed.

Lemma readFullLoop_spec n sr :
  readFullLoop 3 n [] sr = Done (take n sr, drop n sr, bool_decide (length sr < n)%nat).
Proof.
  cbn [readFullLoop]. simpl length. case_decide as H0.
  - unfold sliceRead. rewrite Nat.sub_0_r. case_decide as H1.
    { destruct sr; [|done]. rewrite bool_decide_true by (simpl; lia). by rewrite take_nil, drop_nil. }
    simpl app. rewrite length_take. case_decide as H2; [|by rewrite bool_decide_false by lia].
    case_decide as H3; [|exfalso; apply H3; rewrite length_drop; lia]. rewrite bool_decide_true by lia. done.
  - assert (n = 0)%nat as -> by lia. by rewrite bool_decide_false by lia.
Qed.

Lemma readFull_cases n s : streamOk s -> 0 <= n ->
  (~ (fits s n /\ n <= Z.of_nat (length (input s))) /\ exists e s', readFull n s = Done (inl e, s') /\ e <> EOL /\ e <> ErrCanonSize) \/
  (fits s n /\ exists c s', readFull n s = Done (inr c, s') /\ Z.of_nat (length c) = n /\ eats s c s' /\ kind s' = None /\ byteval s' = byteval s).
Proof.
  intros Hok Hn. unfold readFull, sbind. destruct (willRead_cases n s Hok Hn) as [[Hf (e & s' & -> & He)]|[Hf (s' & -> & H1 & H2 & H3 & H4 & H5 & H6)]].
  { left. split; [tauto|]. eexists _, _. split; [done|]. by destruct He as [-> | ->]. }
  rewrite readFullLoop_spec, H1. case_bool_decide as Hl; simpl.
  - left. split; [lia|]. rewrite bool_decide_true by (rewrite length_take; lia). by eexists _, _.
  - right. split; [done|]. eexists _, _. split; [done|]. unfold eats. simpl.
    rewrite H2, H3, H4, length_take, take_drop. split_and!; try done; [lia|f_equal; lia|]. destruct (limited s); [|done]. f_equal. lia.
Qed.

Lemma readByte_cases s : streamOk s ->
  (~ (fits s 1 /\ input s <> []) /\ exists e s', readByte s = Done (inl e, s') /\ e <> EOL /\ e <> ErrCanonSize /\ e <> errIOEOF) \/
  (fits s 1 /\ exists b s', readByte s = Done (inr b, s') /\ eats s [b] s' /\ kind s' = None).
Proof.
  intros Hok. unfold readByte, sbind. destruct (willRead_cases 1 s Hok ltac:(lia)) as [[Hf (e & s' & -> & He)]|[Hf (s' & -> & H1 & H2 & H3 & H4 & H5 & H6)]].
  { left. split; [tauto|]. eexists _, _. split; [done|]. by destruct He as [-> | ->]. }
  rewrite H1. destruct (input s) as [|b r] eqn:Hi.
  - left. split; [naive_solver|]. by eexists _, _.
  - right. split; [done|]. eexists _, _. split; [done|]. unfold eats. simpl. by rewrite H2, H3, H4, Hi.
Qed.

Lemma eats_unique s c s' c' rest : eats s c s' -> input s = c' ++ rest -> length c = length c' -> c = c' /\ input s' = rest.
Proof. intros (Hi & _) Hi' Hl. rewrite Hi in Hi'. by apply app_inj_1 in Hi'. Qed.

(** An integer of one to eight bytes is read when it is there and its first
    byte is not zero. *)
Lemma readUint_cases n s : streamOk s -> (1 <= n <= 8)%nat ->
  (exists e s', readUint (Z.of_nat n) s = Done (inl e, s') /\ e <> EOL /\
     ~ (fits s (Z.of_nat n) /\ exists x l rest, input s = (x :: l) ++ rest /\ length (x :: l) = n /\ (n = 1%nat \/ x <> 0))) \/
  exists x l s', readUint (Z.of_nat n) s = Done (inr (be_to_Z (x :: l)), s') /\ eats s (x :: l) s' /\ length (x :: l) = n /\
    (n = 1%nat \/ x <> 0) /\ kind s' = None.
Proof.
  intros Hok Hn. unfold readUint. rewrite decide_False by lia. case_decide as H1.
  - assert (n = 1%nat) as -> by lia. destruct (readByte_cases s Hok) as [[Hf (e & s' & -> & He & _)]|[Hf (b & s' & -> & He & Hk)]].
    + left. exists e, s'. split_and!; [done..|]. intros [? (x & l & rest & Hi & _)]. apply Hf. split; [done|]. rewrite Hi. done.
    + right. exists b, [], s'. split_and!; try done. by left.
  - rewrite decide_False by (rewrite u8_small by lia; lia). rewrite (u8_small (8 - Z.of_nat n)) by lia.
    replace (8 - (8 - Z.of_nat n)) with (Z.of_nat n) by lia. unfold sbind.
    destruct (readFull_cases (Z.of_nat n) s Hok ltac:(lia)) as [[Hf (e & s' & -> & He & _)]|[Hf (c & s' & -> & Hl & He & Hk & _)]].
    + left. exists e, s'. split_and!; [done..|]. intros [? (x & l & rest & Hi & Hl & _)]. apply Hf. split; [done|]. rewrite Hi, length_app. lia.
    + destruct c as [|x l]; [simpl in Hl; lia|]. rewrite index_0. cbn [mbind outcome_bind]. case_decide as Hx.
      * left. eexists _, _. split_and!; [done..|]. intros [_ (y & m & rest & Hi & Hm & [?|Hy])]; [lia|].
        destruct (eats_unique _ _ _ _ _ He Hi) as [[= -> ->] _]; [lia|done].
      * right. exists x, l, s'. split_and!; try done; [lia|by right].
Qed.

(** ** The kind of the value ahead *)

Definition kindTag (k : Kind) (size b : Z) : list Z :=
  match k with KByte => [b] | _ => kindHeader k (Z.to_nat size) end.

(** The tag of a value was read from [s] and is cached in [s']. *)
Record ahead (s : Stream) (k : Kind) (size : Z) (s' : Stream) : Prop := {
  ahead_eats : eats s (kindTag k size (byteval s')) s';
  ahead_kind : kind s' = Some k;
  ahead_err : kinderr s' = None;
  ahead_size : ssize s' = size;
  ahead_bound : in_u64 size;
  ahead_byte : k = KByte -> byteval s' < 0x80 /\ size = 0;
  ahead_rem : limited s = true -> size <= srem s'
}.

(** [kindRead s r]: what [readKind] answers on [s]. *)
Definition kindRead (s : Stream) (r : outcome (Kind * Z * option rlpErr * Stream)) : Prop :=
  exists k size e s', r = Done (k, size, e, s') /\ e <> Some EOL /\
    (e = None -> eats s (kindTag k size (byteval s')) s' /\ in_u64 size /\ (k = KByte -> 0 <= byteval s' < 0x80 /\ size = 0)).

Lemma longKind_cases k base tag b s s0 :
  streamOk s0 -> eats s0 [b] s -> k = KString /\ base = 0xB7 \/ k = KList /\ base = 0xF7 -> base < b <= base + 8 ->
  tag = u8 (b - base) -> kindRead s0 (longKind k tag s).
Proof.
  intros Hok He Hk Hb ->. destruct (eats_ok _ _ _ He Hok) as (Hok' & _ & _). unfold longKind, kindRead.
  replace (u8 (b - base)) with (Z.of_nat (Z.to_nat (b - base))) by (rewrite u8_small; lia).
  destruct (readUint_cases (Z.to_nat (b - base)) s Hok' ltac:(lia)) as [(e & s' & -> & Hne & _)|(x & l & s' & -> & He' & Hl & Hx & Hkn)].
  - eexists _, _, _, _. split; [done|]. split; [congruence|done].
  - eexists _, _, _, _. split; [done|]. split; [by case_decide|]. case_decide as Hs; [done|]. intros _.
    destruct (eats_ok _ _ _ He' Hok') as (_ & Hbs & _). pose proof (be_to_Z_bound _ Hbs) as Hbd.
    assert (x <> 0) as Hx0.
    { destruct Hx as [Hx|]; [|done]. intros ->. assert (l = []) as -> by (destruct l; [done|simpl in *; lia]). by destruct Hs. }
    pose proof (bigBytes_unique x l Hbs Hx0) as Hbig. rewrite Hl in Hbd.
    assert (256 ^ Z.of_nat (Z.to_nat (b - base)) <= 256 ^ 8) by (apply Z.pow_le_mono_r; lia).
    assert (kindTag k (be_to_Z (x :: l)) (byteval s') = [b] ++ x :: l) as ->.
    { assert (header (if decide (k = KString) then 0x80 else 0xC0) base (Z.to_nat (be_to_Z (x :: l))) = b :: x :: l) as Hh.
      { unfold header. rewrite Z2Nat.id, decide_False, Hbig by lia. f_equal. rewrite Hl. lia. }
      destruct Hk as [[-> ->]|[-> ->]]; exact Hh. }
    change (256 ^ 8) with (2 ^ 64) in *. split_and!; [by eapply eats_trans|split; lia|by destruct Hk as [[-> _]|[-> _]]].
Qed.

Lemma streamReadKind_cases s : streamOk s -> kindRead s (readKind s).
Proof.
  intros Hok. unfold readKind. destruct (readByte_cases s Hok) as [[_ (e & s1 & -> & He)]|[_ (b & s1 & -> & He & _)]].
  - unfold kindRead. eexists _, _, _, _. split; [done|]. split; [|done]. case_decide; [done|]. destruct He. congruence.
  - destruct (eats_ok _ _ _ He Hok) as (_ & [Hb _]%Forall_cons_1 & _). unfold byte_ok in Hb.
    assert (forall x, eats s [b] (set_byteval x s1)) as Hset by (intros x; by eapply eats_same; [exact He|]).
    repeat case_decide.
    + unfold kindRead. eexists _, _, _, _. split; [done|]. split; [done|]. intros _. simpl. split_and!; [apply (Hset b)|done|intros _; lia].
    + unfold kindRead. eexists _, _, _, _. split; [done|]. split; [done|]. intros _. simpl. rewrite u8_small by lia. split_and!; [|split; lia|done].
      unfold header. rewrite Z2Nat.id, decide_True by lia. replace (128 + (b - 128)) with b by lia. apply (Hset 0).
    + eapply longKind_cases; [done|apply (Hset 0)|by left|lia|done].
    + unfold kindRead. eexists _, _, _, _. split; [done|]. split; [done|]. intros _. simpl. rewrite u8_small by lia. split_and!; [|split; lia|done].
      unfold header. rewrite Z2Nat.id, decide_True by lia. replace (192 + (b - 192)) with b by lia. apply (Hset 0).
    + eapply longKind_cases; [done|apply (Hset 0)|by right|lia|done].
Qed.

Lemma Kind_cases s : streamOk s -> kind s = None ->
  (Kind_ s = Done (inl EOL, s) /\ (exists st, stack s = 0 :: st)) \/
  (exists e s', Kind_ s = Done (inl e, s') /\ e <> EOL) \/
  exists k size s', Kind_ s = Done (inr (k, size), s') /\ ahead s k size s'.
Proof.
  intros Hok Hk. unfold Kind_. rewrite Hk. destruct (listLimit s) as [inList limit] eqn:Hl.
  destruct (inList && bool_decide (limit = 0)) eqn:Heol.
  { left. split; [done|]. unfold listLimit in Hl. destruct (stack s) as [|l st]; [by injection Hl as <- <-|].
    injection Hl as <- <-. simpl in Heol. apply bool_decide_eq_true_1 in Heol as ->. by exists st. }
  destruct (streamReadKind_cases s Hok) as (k & size & e & s1 & -> & He & Hs). cbn [mbind outcome_bind]. right.
  destruct e as [e|]; [left; eexists _, _; split; [done|congruence]|].
  destruct (inList && bool_decide (size > limit)); [left; by eexists _, _|].
  destruct (limited s1 && bool_decide (size > srem s1)) eqn:Hr; [left; by eexists _, _|right].
  destruct (Hs eq_refl) as (He1 & Hsz & Hbyte). eexists _, _, _. split; [done|]. split; simpl; try done.
  - intros Hkb. destruct (Hbyte Hkb). lia.
  - intros Hlim. destruct He1 as (_ & _ & Hl1 & _). rewrite Hl1, Hlim in Hr. simpl in Hr. apply bool_decide_eq_false_1 in Hr. lia.
Qed.

Lemma Kind_cached s k size s' : ahead s k size s' -> Kind_ s' = Done (inr (k, size), s').
Proof. intros [_ Hk He Hs _ _ _]. unfold Kind_. by rewrite Hk, He, Hs. Qed.

(** ** What the operations accept *)

(** A limited stream over a slice: all of the input is accounted for. *)
Definition sane (s : Stream) : Prop :=
  limited s = true /\ srem s = Z.of_nat (length (input s)) /\ Z.of_nat (length (input s)) <= maxAlloc.

(** The result of reading on from [s]: a value [a] was read from bytes [c] with
    [f a c]; no error is [EOL]; an allocation only fails on a stream that is
    not limited. *)
Definition readOn {A : Type} (f : A -> list Z -> Prop) (s : Stream) (r : outcome ((rlpErr + A) * Stream)) : Prop :=
  match r with
  | Done (inr a, s') => exists c, f a c /\ eats s c s' /\ kind s' = None
  | Done (inl e, _) => e <> EOL
  | Panic => ~ sane s
  | Stuck => False
  end.

(** An operation that reads a value: [EOL] is answered at the end of a list
    only, and leaves the stream as it is; at least one byte is read. *)
Definition opSpec {A : Type} (stuck : Stream -> Prop) (m : op A) (f : A -> list Z -> Prop) : Prop :=
  forall s, streamOk s -> kind s = None ->
  match m s with
  | Done (inr a, s') => exists c, f a c /\ eats s c s' /\ kind s' = None /\ c <> []
  | Done (inl e, s') => e = EOL -> s' = s /\ exists st, stack s = 0 :: st
  | Panic => ~ sane s
  | Stuck => stuck s
  end.

Lemma sane_eats s c s' : sane s -> eats s c s' -> sane s'.
Proof.
  intros (Hl & Hr & Hm) (Hi & _ & Hl' & Hr'). unfold sane. rewrite Hl', Hr', Hl, Hr. rewrite Hi, length_app in *.
  split_and!; [done| |lia]. rewrite u64_small; [lia|]. unfold maxAlloc in Hm. split; lia.
Qed.

Lemma kindTag_ne k size b : in_u64 size -> kindTag k size b <> [].
Proof.
  intros [H1 H2] He. apply (f_equal length) in He. destruct k; simpl in He; [lia|..].
  - pose proof (header_le 0x80 0xB7 (Z.to_nat size) ltac:(lia)). lia.
  - pose proof (header_le 0xC0 0xF7 (Z.to_nat size) ltac:(lia)). lia.
Qed.

(** Reading the kind and going on. *)
Lemma opSpec_kind {A} (body : Kind -> Z -> op A) f stuck :
  (forall s k size s1, streamOk s -> ahead s k size s1 -> readOn f s (body k size s1)) ->
  (forall a c, f a c -> c <> []) ->
  opSpec stuck ('(k, size) <-- Kind_; body k size) f.
Proof.
  intros Hbody Hne s Hok Hk. unfold sbind. destruct (Kind_cases s Hok Hk) as [[-> Hst]|[(e & s' & -> & He)|(k & size & s1 & -> & Ha)]].
  - done.
  - done.
  - specialize (Hbody s k size s1 Hok Ha). unfold readOn in Hbody. destruct (body k size s1) as [[[e|a] s']| |]; [done| |done|done].
    destruct Hbody as (c & Hf & He & Hkn). exists c. eauto.
Qed.

Lemma opSpec_map {A B} stuck (m : op A) f (g : A -> B) (h : B -> list Z -> Prop) :
  opSpec stuck m f -> (forall a c, f a c -> h (g a) c) -> opSpec stuck (a <-- m; sret (g a)) h.
Proof.
  intros Hm Hg s Hok Hk. specialize (Hm s Hok Hk). unfold sbind, sret. destruct (m s) as [[[e|a] s']| |]; [done| |done|done].
  destruct Hm as (c & Hf & He). exists c. split; [by apply Hg|done].
Qed.

Lemma opSpec_wrapped {A} stuck (m : op A) f : opSpec stuck m f -> opSpec stuck (wrapped m) f.
Proof.
  intros Hm s Hok Hk. specialize (Hm s Hok Hk). unfold wrapped. destruct (m s) as [[[e|a] s']| |]; try done.
  intros He. apply Hm. by destruct e.
Qed.

(** Reading the content of the string ahead. *)
Lemma readFull_ahead s k size s1 : streamOk s -> ahead s k size s1 -> k <> KByte ->
  (exists e s', readFull size s1 = Done (inl e, s') /\ e <> EOL) \/
  exists c s', readFull size s1 = Done (inr c, s') /\ Z.of_nat (length c) = size /\ bytes_ok c /\
    eats s (encKind k c) s' /\ kind s' = None.
Proof.
  intros Hok [He _ _ _ [Hs0 Hs] _ _] Hkb. destruct (eats_ok _ _ _ He Hok) as (Hok1 & _ & _).
  destruct (readFull_cases size s1 Hok1 Hs0) as [[_ (e & s' & -> & Hne & _)]|[_ (c & s' & -> & Hl & He' & Hk & _)]]; [left; eauto|right].
  destruct (eats_ok _ _ _ He' Hok1) as (_ & Hc & _). exists c, s'. split_and!; [done..| |done]. subst size. unfold encKind.
  assert (kindTag k (Z.of_nat (length c)) (byteval s1) = kindHeader k (length c)) as Ht by (destruct k; simpl; by rewrite ?Nat2Z.id).
  rewrite Ht in He. by eapply eats_trans.
Qed.

Lemma eats_rearm s c s1 : eats s c s1 -> eats s c (set_kind None s1).
Proof. intros. by eapply eats_same. Qed.

Lemma encStr_header c : (forall x, c = [x] -> 0x80 <= x) -> encStr c = header 0x80 0xB7 (length c) ++ c.
Proof. intros H. unfold encStr. destruct c as [|x [|]]; [done| |done]. specialize (H x eq_refl). by rewrite decide_False by lia. Qed.

Definition isStr (a c : list Z) : Prop := c = encStr a /\ bytes_ok a.

Lemma encStr_ne a c : isStr a c -> c <> [].
Proof. intros [-> _]. unfold encStr. destruct a as [|x [|]]; [done|by case_decide|]. unfold header. by case_decide. Qed.

Lemma bytesAhead_spec s k size s1 : streamOk s -> ahead s k size s1 -> readOn isStr s (bytesAhead k size s1).
Proof.
  intros Hok Ha. pose proof Ha as [He _ _ _ Hsz Hbyte Hrem]. destruct k; simpl bytesAhead.
  - destruct (Hbyte eq_refl) as [Hb _]. simpl. exists [byteval s1]. simpl in He. destruct (eats_ok _ _ _ He Hok) as (_ & Hbs & _).
    split_and!; [split; [by rewrite encStr_1|done]|by apply eats_rearm|done].
  - unfold sbind, makeSlice. case_decide as Hm.
    { intros Hs. destruct (sane_eats _ _ _ Hs He) as (Hl & Hr & Hmax). destruct Hs as (Hl0 & _). specialize (Hrem Hl0). lia. }
    destruct (readFull_ahead s KString size s1 Hok Ha ltac:(done)) as [(e & s' & -> & Hne)|(c & s' & -> & Hl & Hc & He' & Hk)]; [done|].
    unfold canonByte. case_decide as H1.
    + destruct c as [|x [|]]; [simpl in Hl; lia| |simpl in Hl; lia]. rewrite index_0. cbn [mbind outcome_bind]. case_decide as Hx; [done|].
      exists (header 0x80 0xB7 1 ++ [x]). split_and!; [split; [|done]|done..]. rewrite encStr_header; [done|]. intros y [= <-]. lia.
    + exists (header 0x80 0xB7 (length c) ++ c). split_and!; [split; [|done]|done..]. rewrite encStr_header; [done|].
      intros y ->. simpl in Hl. lia.
  - done.
Qed.

Lemma Bytes_spec stuck : opSpec stuck Bytes_ isStr.
Proof. apply opSpec_kind; [apply bytesAhead_spec|apply encStr_ne]. Qed.

Definition isRaw (a c : list Z) : Prop := c = a /\ bytes_ok a /\ a <> [].

Lemma encKind_header k c : k <> KByte ->
  encKind k c = header (if decide (k = KString) then 0x80 else 0xC0) (if decide (k = KString) then 0xB7 else 0xF7) (length c) ++ c.
Proof. by destruct k. Qed.

Lemma rawAhead_spec s k size s1 : streamOk s -> ahead s k size s1 -> k <> KByte ->
  readOn isRaw s (rawAhead k size s1).
Proof.
  intros Hok Ha Hkb. pose proof Ha as [He _ _ _ [Hs0 Hs] _ Hrem]. destruct (eats_ok _ _ _ He Hok) as (Hok1 & Htag & Hlen). unfold rawAhead.
  assert (Z.of_nat (length (kindTag k size (byteval s1))) = headsize size) as Hh.
  { destruct k; [done|..]; simpl; rewrite length_header by lia; by rewrite Z2Nat.id by lia. }
  assert (1 <= headsize size <= 9) as H9 by (pose proof (kindTag_ne k size (byteval s1) ltac:(done)); rewrite <-Hh; destruct k; [done|..]; simpl; pose proof (header_le 0x80 0xB7 (Z.to_nat size)); pose proof (header_le 0xC0 0xF7 (Z.to_nat size)); lia).
  assert (sane s -> headsize size + size <= maxAlloc /\ u64 (headsize size + size) = headsize size + size) as Hsane.
  { intros Hsn. destruct (sane_eats _ _ _ Hsn He) as (_ & Hr & _). destruct Hsn as (Hl & _ & Hmax). specialize (Hrem Hl).
    assert (headsize size + size <= maxAlloc) by lia. split; [done|]. apply u64_small. unfold maxAlloc in *. split; lia. }
  unfold sbind, makeSlice. case_decide as Hm; [intros Hsn; destruct (Hsane Hsn); lia|].
  case_decide as Hst; [intros Hsn; destruct (Hsane Hsn); lia|].
  assert (u64 (headsize size + size) = headsize size + size) as ->.
  { destruct (decide (headsize size + size < 2 ^ 64)); [apply u64_small; split; lia|]. exfalso. apply Hst. unfold u64, wrap.
    rewrite <-(Z.mod_add _ (-1)) by lia. rewrite Z.mod_small; lia. }
  replace (headsize size + size - headsize size) with size by lia.
  destruct (readFull_ahead s k size s1 Hok Ha Hkb) as [(e & s' & -> & Hne)|(c & s' & -> & Hl & Hc & He' & Hk)]; [done|].
  assert (length (header (if decide (k = KString) then 0x80 else 0xC0) (if decide (k = KString) then 0xB7 else 0xF7) (length c)) = Z.to_nat (headsize size)) as Hlh.
  { apply Nat2Z.inj. rewrite length_header by lia. rewrite Hl. lia. }
  rewrite <-Hl at 2. rewrite puthead_spec by (try (repeat case_decide; lia); rewrite ?Hlh, ?length_app, ?length_replicate; lia).
  cbn [mbind outcome_bind]. rewrite Hlh, <-(length_replicate (Z.to_nat (headsize size)) 0) at 1. rewrite drop_app_length, <-encKind_header by done.
  exists (encKind k c). destruct (eats_ok _ _ _ He' Hok) as (_ & Hb & _). split; [|done]. split; [done|]. split; [done|].
  intros Hn. apply (f_equal length) in Hn. rewrite encKind_header, length_app, Hlh in Hn by done. simpl in Hn. lia.
Qed.

Lemma Raw_spec stuck : opSpec stuck Raw isRaw.
Proof.
  apply opSpec_kind; [|by intros a c (-> & _ & ?)]. intros s k size s1 Hok Ha. pose proof Ha as [He _ _ _ _ _ _].
  destruct (eats_ok _ _ _ He Hok) as (_ & Htag & _). destruct k; [|by apply rawAhead_spec..].
  simpl. exists [byteval s1]. simpl in He. split; [done|]. split; [by apply eats_rearm|done].
Qed.

Definition isUint (bits z : Z) (c : list Z) : Prop := c = encStr (bigBytes z) /\ 0 <= z < 2 ^ bits.

Lemma uint_spec stuck bits : uintBits bits -> opSpec stuck (uint_ bits) (isUint bits).
Proof.
  intros Hbits. assert (8 <= bits <= 64) as Hb8 by (unfold uintBits in *; lia).
  assert (2 ^ 8 <= 2 ^ bits) by (apply Z.pow_le_mono_r; lia).
  apply opSpec_kind; [|intros z c [-> _]; apply (encStr_ne (bigBytes z)); split; [done|apply bigBytes_ok]].
  intros s k size s1 Hok Ha. pose proof Ha as [He _ _ _ Hsz Hbyte Hrem]. destruct (eats_ok _ _ _ He Hok) as (Hok1 & Htag & _). destruct k.
  - destruct (Hbyte eq_refl) as [Hb _]. unfold sbind, getByteval. case_decide; [done|]. simpl. exists [byteval s1]. simpl in He, Htag.
    apply Forall_cons_1 in Htag as [Hb0 _]. unfold byte_ok in Hb0. unfold isUint. rewrite bigBytes_small, encStr_1 by lia.
    split; [split; [done|lia]|]. split; [by apply eats_rearm|done].
  - case_decide as Hsize; [done|]. destruct Hsz as [Hs0 _].
    assert (8 * size <= bits) as Hs8 by (pose proof (Z.mul_div_le bits 8); lia).
    rewrite u8_small by lia. destruct (decide (size = 0)) as [->|Hs].
    { simpl. exists [0x80]. split; [split; [done|lia]|]. split; [by apply eats_rearm|done]. }
    replace size with (Z.of_nat (Z.to_nat size)) at 1 by lia.
    destruct (readUint_cases (Z.to_nat size) s1 Hok1 ltac:(lia)) as [(e & s' & -> & Hne & _)|(x & l & s' & -> & He' & Hl & Hx & Hk)].
    { simpl. by destruct e. }
    case_decide as Hv; [done|]. destruct (eats_ok _ _ _ He' Hok1) as (_ & Hbs & _).
    assert (x <> 0) as Hx0.
    { destruct Hx as [Hx|]; [|done]. intros ->. assert (l = []) as -> by (destruct l; [done|simpl in *; lia]). apply Hv. split; [lia|done]. }
    exists (kindTag KString size 0 ++ x :: l). split; [|split; [by eapply eats_trans|done]]. split.
    + rewrite bigBytes_unique by done. simpl kindTag. rewrite <-Hl. symmetry. apply encStr_header. intros y [= -> ->].
      change (be_to_Z [y]) with (0 * 256 + y) in Hv. lia.
    + pose proof (be_to_Z_bound _ Hbs) as Hbd. rewrite Hl in Hbd. split; [lia|]. eapply Z.lt_le_trans; [apply Hbd|].
      change 256 with (2 ^ 8). rewrite <-Z.pow_mul_r by lia. apply Z.pow_le_mono_r; lia.
  - done.
Qed.

Lemma Bool_spec stuck : opSpec stuck Bool_ (fun b c => c = encStr (if b then [1] else [])).
Proof.
  intros s Hok Hk. unfold Bool_, sbind. pose proof (uint_spec stuck 8 ltac:(by left) s Hok Hk) as H.
  destruct (uint_ 8 s) as [[[e|z] s']| |]; [done| |done|done]. destruct H as (c & [-> Hz] & H).
  case_decide; [subst; by exists (encStr [])|]. case_decide; [subst; by exists (encStr [1])|]. done.
Qed.

Lemma canonByte_cases size b s : Z.of_nat (length b) = size ->
  canonByte size b s = Done (inl ErrCanonSize, s) \/ (canonByte size b s = Done (inr tt, s) /\ forall x, b = [x] -> 0x80 <= x).
Proof.
  intros Hl. unfold canonByte. case_decide as H1.
  - destruct b as [|x [|]]; [simpl in Hl; lia| |simpl in Hl; lia]. rewrite index_0. cbn [mbind outcome_bind].
    case_decide; [by left|right]. split; [done|]. intros y [= <-]. lia.
  - right. split; [done|]. intros x ->. simpl in Hl. lia.
Qed.

Definition isBig (z : Z) (c : list Z) : Prop := 0 <= z /\ c = encStr (bigBytes z).

(** The end of [decodeBigInt]: the bytes read have no leading zero. *)
Lemma bigTail s s' buffer : bytes_ok buffer -> eats s (encStr buffer) s' -> kind s' = None ->
  readOn isBig s (match buffer with 0 :: _ => serr ErrCanonInt | _ => sret (be_to_Z buffer) end s').
Proof.
  intros Hb He Hk. destruct buffer as [|x l].
  - exists (encStr []). split; [by split|done].
  - assert (x <> 0 -> exists c, isBig (be_to_Z (x :: l)) c /\ eats s c s' /\ kind s' = None) as H.
    { intros Hx. exists (encStr (x :: l)). split; [|done]. split; [by apply be_to_Z_bound|by rewrite bigBytes_unique]. }
    destruct x; [done|by apply H..].
Qed.

Lemma BigInt_spec stuck : opSpec stuck decodeBigInt isBig.
Proof.
  apply opSpec_kind; [|intros z c [_ ->]; apply (encStr_ne (bigBytes z)); split; [done|apply bigBytes_ok]].
  intros s k size s1 Hok Ha. pose proof Ha as [He _ _ _ [Hs0 Hs] Hbyte Hrem]. destruct (eats_ok _ _ _ He Hok) as (Hok1 & Htag & _). destruct k.
  - destruct (Hbyte eq_refl) as [Hb _]. simpl in He, Htag. unfold sbind at 1. simpl. apply (bigTail s (set_kind None s1) [byteval s1]); [done| |done].
    rewrite encStr_1 by done. by apply eats_rearm.
  - unfold sbind at 1. case_decide as H0.
    { subst. simpl in He. exists [0x80]. split; [by split|]. split; [by apply eats_rearm|done]. }
    assert (forall r : outcome ((rlpErr + list Z) * Stream), r = readFull size s1 ->
      (exists e s', r = Done (inl e, s') /\ e <> EOL) \/ exists c s', r = Done (inr c, s') /\ Z.of_nat (length c) = size /\ bytes_ok c /\
        eats s (encKind KString c) s' /\ kind s' = None) as Hread by (intros r ->; by apply readFull_ahead).
    case_decide.
    + unfold sbind. destruct (Hread _ eq_refl) as [(e & s' & -> & Hne)|(c & s' & -> & Hl & Hc & He' & Hk)]; [done|].
      destruct (canonByte_cases size c s' Hl) as [-> |[-> Hx]]; [done|]. apply bigTail; [done| |done]. by rewrite encStr_header.
    + unfold sbind, makeSlice. case_decide as Hm.
      { intros Hsn. destruct (sane_eats _ _ _ Hsn He) as (_ & Hr & Hmax). destruct Hsn as (Hl0 & _). specialize (Hrem Hl0). lia. }
      destruct (Hread _ eq_refl) as [(e & s' & -> & Hne)|(c & s' & -> & Hl & Hc & He' & Hk)]; [done|].
      apply bigTail; [done| |done]. rewrite encStr_header; [done|]. intros x ->. simpl in Hl. lia.
  - done.
Qed.

Lemma ByteArray_spec stuck n : opSpec stuck (decodeByteArray n)
  (fun v c => exists b, v = VBytes b /\ c = encStr b /\ bytes_ok b /\ length b = n).
Proof.
  apply opSpec_kind; [|intros v c (b & _ & -> & Hb & _); by apply (encStr_ne b)].
  intros s k size s1 Hok Ha. pose proof Ha as [He _ _ _ Hsz Hbyte Hrem]. destruct (eats_ok _ _ _ He Hok) as (Hok1 & Htag & _). destruct k.
  - destruct (Hbyte eq_refl) as [Hb _]. repeat (case_decide; [done|]). simpl. simpl in He, Htag. eexists.
    split; [eexists; split_and!; [done|done|done|simpl; lia]|]. rewrite encStr_1 by done. split; [by apply eats_rearm|done].
  - repeat (case_decide; [done|]). assert (size = Z.of_nat n) as -> by lia. unfold sbind, wrapped.
    destruct (readFull_ahead s KString _ s1 Hok Ha ltac:(done)) as [(e & s' & -> & Hne)|(c & s' & -> & Hl & Hc & He' & Hk)]; [done|].
    destruct (canonByte_cases (Z.of_nat n) c s' Hl) as [-> |[-> Hx]]; [done|]. simpl. eexists.
    split; [eexists; split_and!; [done|done|done|lia]|]. by rewrite encStr_header.
  - done.
Qed.

(** ** Lists *)

(** A list of [size] bytes was opened: its bytes are already taken off the
    enclosing list. *)
Record opened (s : Stream) (size : Z) (s2 : Stream) : Prop := {
  opened_input : input s = header 0xC0 0xF7 (Z.to_nat size) ++ input s2;
  opened_stack : stack s2 = size :: minus (stack s) (Z.of_nat (length (header 0xC0 0xF7 (Z.to_nat size))) + size);
  opened_limited : limited s2 = limited s;
  opened_srem : srem s2 = if limited s then u64 (srem s - Z.of_nat (length (header 0xC0 0xF7 (Z.to_nat size)))) else srem s;
  opened_size : in_u64 size;
  opened_kind : kind s2 = None
}.

Lemma listAhead_cases s k size s1 : ahead s k size s1 ->
  listAhead k size s1 = Done (inl ErrExpectedList, s1) \/
  exists s2, k = KList /\ listAhead k size s1 = Done (inr size, s2) /\ opened s size s2.
Proof.
  intros [(Hi & Hs & Hl & Hr) _ _ _ Hsz _ _]. unfold listAhead. case_decide as Hk; [by left|right]. destruct k; [done..|]. simpl in *.
  unfold listLimit. rewrite Hs. destruct (stack s) as [|l st] eqn:Hst; simpl.
  - eexists. split; [done|]. split; [done|]. split; simpl; try done. by rewrite Hs, Hst.
  - eexists. split; [done|]. split; [done|]. split; simpl; try done. rewrite Hs, Hst. simpl. by rewrite u64_minus.
Qed.

Lemma opened_ok s size s2 : streamOk s -> opened s size s2 -> streamOk s2 /\ (length (input s2) < length (input s))%nat /\ (sane s -> sane s2).
Proof.
  intros (Hst & Hr & Hb & Hl) [Hi Hs Hlim Hrem [Hs0 Hs1] _]. pose proof (header_le 0xC0 0xF7 (Z.to_nat size) ltac:(lia)).
  unfold streamOk, sane. rewrite Hs, Hrem, Hlim. rewrite Hi in *. apply Forall_app in Hb as [_ Hb]. rewrite length_app in *. split_and!; try done; try lia.
  - constructor; [split; lia|]. by apply minus_ok.
  - destruct (limited s); [apply u64_bound|done].
  - intros (-> & -> & Hm). unfold maxAlloc in *. split_and!; [done| |lia]. rewrite u64_small; [lia|]. split; lia.
Qed.

Lemma List_cases s : streamOk s -> kind s = None ->
  (List_ s = Done (inl EOL, s) /\ (exists st, stack s = 0 :: st)) \/
  (exists e s', List_ s = Done (inl e, s') /\ e <> EOL) \/
  exists size s2, List_ s = Done (inr size, s2) /\ opened s size s2.
Proof.
  intros Hok Hk. unfold List_, sbind. destruct (Kind_cases s Hok Hk) as [[-> Hst]|[(e & s' & -> & He)|(k & size & s1 & -> & Ha)]].
  - by left.
  - right; left. eauto.
  - right. destruct (listAhead_cases _ _ _ _ Ha) as [-> |(s2 & _ & -> & Ho)]; [left; by eexists _, _|right; eauto].
Qed.

(** Closing the list succeeds only when all of its bytes were read, also when
    the size left has wrapped around. *)
Lemma ListEnd_cases s size s2 c s3 : streamOk s -> opened s size s2 -> eats s2 c s3 ->
  (exists e, ListEnd s3 = Done (inl e, s3) /\ e <> EOL) \/
  exists s4, ListEnd s3 = Done (inr tt, s4) /\ size = Z.of_nat (length c) /\ eats s (encList c) s4 /\ kind s4 = None.
Proof.
  intros Hok Ho He. destruct (opened_ok _ _ _ Hok Ho) as (Hok2 & _ & _). destruct (eats_ok _ _ _ He Hok2) as (Hok3 & _ & Hlen).
  destruct Ho as [Hi Hs Hlim Hrem [Hs0 Hs1] _]. destruct He as (Hi' & Hs' & Hlim' & Hrem').
  unfold ListEnd, listLimit. rewrite Hs', Hs. simpl. case_decide as Hz; [left; by eexists|right].
  assert (size = Z.of_nat (length c)) as ->.
  { destruct Hok2 as (_ & _ & _ & Hl2). pose proof (u64_bound (size - Z.of_nat (length c))) as [? _].
    assert (u64 (size - Z.of_nat (length c)) = 0) as H0 by lia. unfold u64, wrap in H0.
    apply Z.mod_divide in H0 as [q Hq]; [|lia]. assert (q = 0) by nia. lia. }
  rewrite Nat2Z.id in *. eexists. split_and!; [done|done| |done]. unfold eats, encList. simpl.
  rewrite Hi, Hi', Hlim', Hlim, Hrem', Hlim, Hrem, length_app, Nat2Z.inj_add, <-app_assoc. simpl.
  split_and!; [done|done|done|]. destruct (limited s); [|done]. by rewrite u64_minus.
Qed.

(** What no decoder answers: nil values and negative integers. *)
Fixpoint unread (v : rval) : bool :=
  match v with
  | VBig None | VPtr None | VIface None => true
  | VBig (Some z) => bool_decide (z < 0)
  | VList l => existsb unread l
  | VPtr (Some v) | VIface (Some (_, v)) => unread v
  | _ => false
  end.

Lemma unread_negative v : unread v = false -> negative v = false.
Proof.
  induction v as [z|b|b|z|l IH| |v IH| |t v IH] using rval_rect_nested; try done; [by destruct z|].
  simpl. induction IH as [|v l Hv _ IHl]; [done|]. simpl. intros [H1 H2]%orb_false_iff. by rewrite Hv, IHl.
Qed.

(** The bytes of a value of a type. *)
Definition isEnc (t : rtype) (v : rval) (c : list Z) : Prop := typed v t /\ unread v = false /\ c = enc v t.

(** Running out of fuel is excused by an input at least this long. *)
Definition stuckAt (k : nat) (s : Stream) : Prop := (k <= length (input s))%nat.

Lemma opSpec_stuck {A} k1 k2 (m : op A) f : (k1 <= k2)%nat -> opSpec (stuckAt k2) m f -> opSpec (stuckAt k1) m f.
Proof.
  intros Hk Hm s Hok Hkn. specialize (Hm s Hok Hkn). destruct (m s) as [[[]]| |]; try done. unfold stuckAt in *. lia.
Qed.

Lemma decodeFields_spec k e decs ts : e <> EOL -> Forall2 (fun dec t => opSpec (stuckAt k) dec (isEnc t)) decs ts ->
  forall s, streamOk s -> kind s = None ->
  match decodeFields e decs s with
  | Done (inr l, s') => exists c, (typedElems l ts /\ existsb unread l = false /\ c = encElems l ts) /\ eats s c s' /\ kind s' = None
  | Done (inl e', _) => e' <> EOL
  | Panic => ~ sane s
  | Stuck => stuckAt k s
  end.
Proof.
  intros He. induction 1 as [|dec t decs ts Hdec _ IH]; intros s Hok Hk; cbn [decodeFields].
  - exists []. split; [done|]. split; [by apply eats_nil|done].
  - specialize (Hdec s Hok Hk). destruct (dec s) as [[[e'|v] s1]| |]; [by destruct e'| |done|done].
    destruct Hdec as (c1 & (Ht & Hn & ->) & He1 & Hk1 & _). destruct (eats_ok _ _ _ He1 Hok) as (Hok1 & _ & Hl1).
    specialize (IH s1 Hok1 Hk1). unfold sbind, sret. destruct (decodeFields e decs s1) as [[[e'|l] s2]| |]; [done| | |].
    + destruct IH as (c2 & (Hts & Hns & ->) & He2 & Hk2). exists (enc v t ++ encElems l ts).
      split; [|split; [by eapply eats_trans|done]]. cbn [typedElems existsb encElems]. by rewrite Hn, Hns.
    + intros Hs. apply IH. by eapply sane_eats.
    + unfold stuckAt in *. lia.
Qed.

Lemma decodeSliceElems_spec k dec t : opSpec (stuckAt k) dec (isEnc t) ->
  forall fuel val s, streamOk s -> kind s = None ->
  match decodeSliceElems fuel dec val s with
  | Done (inr l, s') => exists l' c, l = val ++ l' /\
      (typedElems l' (replicate (length l') t) /\ existsb unread l' = false /\ c = encElems l' (replicate (length l') t)) /\
      eats s c s' /\ kind s' = None
  | Done (inl e, _) => e <> EOL
  | Panic => ~ sane s
  | Stuck => stuckAt (min k fuel) s
  end.
Proof.
  intros Hdec fuel. induction fuel as [|fuel IH]; intros val s Hok Hk; cbn [decodeSliceElems]; [unfold stuckAt; lia|].
  specialize (Hdec s Hok Hk). destruct (dec s) as [[[e|v] s1]| |]; [|..].
  - destruct e; try done. destruct (Hdec eq_refl) as [-> _]. exists [], []. rewrite app_nil_r.
    split; [done|]. split; [done|]. split; [by apply eats_nil|done].
  - destruct Hdec as (c1 & (Ht & Hn & ->) & He1 & Hk1 & Hne). destruct (eats_ok _ _ _ He1 Hok) as (Hok1 & _ & Hl1).
    specialize (IH (val ++ [v]) s1 Hok1 Hk1). destruct (decodeSliceElems fuel dec (val ++ [v]) s1) as [[[e|l] s2]| |]; [done| | |].
    + destruct IH as (l' & c2 & -> & (Hts & Hns & ->) & He2 & Hk2). exists (v :: l'), (enc v t ++ encElems l' (replicate (length l') t)).
      split; [by rewrite <-app_assoc|]. split; [|split; [by eapply eats_trans|done]]. cbn [length replicate typedElems existsb encElems]. by rewrite Hn, Hns.
    + intros Hs. apply IH. by eapply sane_eats.
    + unfold stuckAt in *. destruct (enc v t); [done|]. simpl in Hl1. lia.
  - done.
  - unfold stuckAt in *. lia.
Qed.

(** The elements of an opened list, and closing it. *)
Lemma listTail {A} k (body : op A) (end_ : op unit) (h : A -> list Z -> Prop) (g : A -> rval) t s size s2 :
  end_ = ListEnd \/ end_ = wrapped ListEnd -> streamOk s -> opened s size s2 ->
  match body s2 with
  | Done (inr a, s') => exists c, h a c /\ eats s2 c s' /\ kind s' = None
  | Done (inl e, _) => e <> EOL
  | Panic => ~ sane s2
  | Stuck => stuckAt k s2
  end ->
  (forall a c, h a c -> isEnc t (g a) (encList c)) ->
  match (a <-- body; _ <-- end_; sret (g a)) s2 with
  | Done (inr v, s') => exists c, isEnc t v c /\ eats s c s' /\ kind s' = None /\ c <> []
  | Done (inl e, _) => e <> EOL
  | Panic => ~ sane s
  | Stuck => stuckAt (S k) s
  end.
Proof.
  intros Hend Hok Ho Hbody Hg. destruct (opened_ok _ _ _ Hok Ho) as (Hok2 & Hlt & Hsane). unfold sbind.
  destruct (body s2) as [[[e|a] s3]| |]; [done| |by intros Hs; apply Hbody, Hsane|unfold stuckAt in *; lia].
  destruct Hbody as (c & Ha & He & Hk3).
  destruct (ListEnd_cases s size s2 c s3 Hok Ho He) as [(e & Hl & Hne)|(s4 & Hl & _ & He4 & Hk4)].
  - destruct Hend as [-> | ->]; unfold wrapped; rewrite Hl; by destruct e.
  - assert (end_ s3 = Done (inr tt, s4)) as -> by (destruct Hend as [-> | ->]; unfold wrapped; by rewrite Hl).
    simpl. exists (encList c). split; [by apply Hg|]. split; [done|]. split; [done|]. unfold encList, header. by case_decide.
Qed.

Lemma opSpec_list {A} k (body : Z -> op A) (end_ : op unit) (h : A -> list Z -> Prop) (g : A -> rval) t :
  end_ = ListEnd \/ end_ = wrapped ListEnd ->
  (forall s size, streamOk s -> kind s = None ->
     match body size s with
     | Done (inr a, s') => exists c, h a c /\ eats s c s' /\ kind s' = None
     | Done (inl e, _) => e <> EOL
     | Panic => ~ sane s
     | Stuck => stuckAt k s
     end) ->
  (forall a c, h a c -> isEnc t (g a) (encList c)) ->
  opSpec (stuckAt (S k)) (size <-- wrapped List_; a <-- body size; _ <-- end_; sret (g a)) (isEnc t).
Proof.
  intros Hend Hbody Hg s Hok Hk. unfold sbind at 1, wrapped at 1.
  destruct (List_cases s Hok Hk) as [[-> Hst]|[(e & s' & -> & He)|(size & s2 & -> & Ho)]]; [done|by destruct e|].
  destruct (opened_ok _ _ _ Hok Ho) as (Hok2 & _ & _). destruct Ho as [? ? ? ? ? Hk2] eqn:Heq. clear Heq.
  pose proof (listTail k (body size) end_ h g t s size s2 Hend Hok ltac:(by split) (Hbody s2 size Hok2 Hk2) Hg) as H.
  match goal with |- match ?r with _ => _ end => destruct r as [[[]]| |] end; done.
Qed.

Definition sliceElems (fuel : nat) (dec : op rval) (size : Z) : op (list rval) :=
  if decide (size = 0) then sret [] else decodeSliceElems fuel dec [].

Lemma decodeListSlice_eq fuel dec s :
  decodeListSlice fuel dec s = (size <-- wrapped List_; l <-- sliceElems fuel dec size; _ <-- ListEnd; sret (VList l)) s.
Proof.
  unfold decodeListSlice, sliceElems, sbind, sret. destruct (wrapped List_ s) as [[[e|size] s2]| |]; [done| |done|done]. by case_decide.
Qed.

Lemma sliceElems_spec k dec t fuel size s : opSpec (stuckAt k) dec (isEnc t) -> streamOk s -> kind s = None ->
  match sliceElems fuel dec size s with
  | Done (inr l, s') => exists c, isEnc (TSlice t) (VList l) (encList c) /\ eats s c s' /\ kind s' = None
  | Done (inl e, _) => e <> EOL
  | Panic => ~ sane s
  | Stuck => stuckAt (min k fuel) s
  end.
Proof.
  intros Hdec Hok Hk. unfold sliceElems, isEnc. case_decide.
  - exists []. split; [done|]. split; [by apply eats_nil|done].
  - pose proof (decodeSliceElems_spec k dec t Hdec fuel [] s Hok Hk) as Hs. destruct (decodeSliceElems fuel dec [] s) as [[[]]| |]; try done.
    destruct Hs as (l' & c & -> & (Ht & Hn & ->) & He). exists (encElems l' (replicate (length l') t)). by rewrite typed_slice, enc_slice.
Qed.

(** ** Types *)

Fixpoint wfType (t : rtype) : Prop :=
  match t with
  | TUint bits => uintBits bits
  | TSlice te | TArray _ te | TPtr te => wfType te
  | TStruct fields => foldr (fun f P => wfType f /\ P) True fields
  | _ => True
  end.

Lemma typeDepth_field f fields : f ∈ fields -> (typeDepth f <= foldr (fun f n => max (typeDepth f) n) 0 fields)%nat.
Proof. induction 1; simpl; lia. Qed.

Lemma wfType_field f fields : foldr (fun f P => wfType f /\ P) True fields -> f ∈ fields -> wfType f.
Proof. intros Hw Hin. revert Hw. induction Hin; simpl; tauto. Qed.

Lemma List_cached s k size s1 : ahead s k size s1 -> List_ s1 = listAhead k size s1.
Proof. intros Ha. unfold List_, sbind. by rewrite (Kind_cached _ _ _ _ Ha). Qed.

Lemma Bytes_cached s k size s1 : ahead s k size s1 -> Bytes_ s1 = bytesAhead k size s1.
Proof. intros Ha. unfold Bytes_, sbind. by rewrite (Kind_cached _ _ _ _ Ha). Qed.

Lemma decode_iface_spec fuel : opSpec (stuckAt (fuel - 1)) (decode fuel TIface) (isEnc TIface) ->
  opSpec (stuckAt fuel) (decode (S fuel) TIface) (isEnc TIface).
Proof.
  intros IH s Hok Hk. cbn [decode]. unfold sbind at 1.
  destruct (Kind_cases s Hok Hk) as [[-> Hst]|[(e & s' & -> & He)|(k & size & s1 & -> & Ha)]]; [done|done|].
  assert (k <> KList -> match (b <-- Bytes_; sret (VIface (Some (TBytes, VBytes b)))) s1 with
    | Done (inr v, s') => exists c, isEnc TIface v c /\ eats s c s' /\ kind s' = None /\ c <> []
    | Done (inl e, s') => e = EOL -> s' = s /\ exists st, stack s = 0 :: st
    | Panic => ~ sane s | Stuck => stuckAt fuel s end) as Hstr.
  { intros _. unfold sbind, sret. rewrite (Bytes_cached _ _ _ _ Ha).
    pose proof (bytesAhead_spec s k size s1 Hok Ha) as Hb. destruct (bytesAhead k size s1) as [[[e|b] s']| |]; try done.
    destruct Hb as (c & Hc & He & Hkn). exists c. split; [by destruct Hc as [-> ?]|]. split; [done|]. split; [done|by eapply encStr_ne]. }
  destruct k; [by apply Hstr..|]. clear Hstr. unfold sbind at 1. rewrite decodeListSlice_eq. unfold sbind at 1, wrapped. rewrite (List_cached _ _ _ _ Ha).
  destruct (listAhead_cases _ _ _ _ Ha) as [-> |(s2 & _ & -> & Ho)]; [done|].
  destruct (opened_ok _ _ _ Hok Ho) as (Hok2 & Hlt & _).
  pose proof (listTail (fuel - 1) (sliceElems fuel (decode fuel TIface) size) ListEnd (fun l c => isEnc (TSlice TIface) (VList l) (encList c)) VList
    (TSlice TIface) s size s2 ltac:(by left) Hok Ho) as H. specialize (fun H1 => H H1 ltac:(done)).
  pose proof (sliceElems_spec (fuel - 1) (decode fuel TIface) TIface fuel size s2 IH Hok2 (opened_kind _ _ _ Ho)) as Hs.
  match type of H with _ -> match ?r with _ => _ end => assert (match r with
  | Done (inr v, s') => exists c, isEnc (TSlice TIface) v c /\ eats s c s' /\ kind s' = None /\ c <> []
  | Done (inl e, _) => e <> EOL | Panic => ~ sane s | Stuck => stuckAt (S (fuel - 1)) s end) as H2 end.
  { apply H. destruct (sliceElems fuel (decode fuel TIface) size s2) as [[[]]| |]; try done. unfold stuckAt in *. lia. }
  match type of H2 with match ?r with _ => _ end => destruct r as [[[e|v] s']| |] end; [done| |done|unfold stuckAt in *; lia].
  destruct H2 as (c & Hc & He). exists c. split; [|done]. exact Hc.
Qed.

Lemma opSpec_ext {A} stuck (m1 m2 : op A) f : (forall s, m1 s = m2 s) -> opSpec stuck m2 f -> opSpec stuck m1 f.
Proof. intros He Hm s Hok Hk. rewrite He. by apply Hm. Qed.

Lemma typedElems_length l ts : typedElems l ts -> length l = length ts.
Proof. revert ts. induction l as [|x l IH]; intros [|t ts]; simpl; try done. intros [_ ?]. f_equal. auto. Qed.

(** Every decoder accepts only the encoding of the value it answers, does not
    panic on a limited stream, and ends when the fuel covers type and input. *)
Lemma decode_spec fuel t : wfType t -> opSpec (stuckAt (fuel - typeDepth t)) (decode fuel t) (isEnc t).
Proof.
  revert t. induction fuel as [|fuel IH]; intros t Hw; [intros s _ _; unfold stuckAt; simpl; lia|].
  destruct t as [| |bits| | | |n|te|n te|fields|te|]; cbn [decode typeDepth wfType] in *.
  - eapply opSpec_map; [apply Raw_spec|]. by intros a c (-> & ? & _).
  - eapply opSpec_map; [apply opSpec_wrapped, BigInt_spec|]. intros z c [Hz ->]. unfold isEnc. simpl.
    rewrite bool_decide_false, decide_False by lia. done.
  - eapply opSpec_map; [by apply opSpec_wrapped, uint_spec|]. by intros z c [-> ?].
  - eapply opSpec_map; [apply opSpec_wrapped, Bool_spec|]. by intros b c ->.
  - eapply opSpec_map; [apply opSpec_wrapped, Bytes_spec|]. by intros b c [-> ?].
  - eapply opSpec_map; [apply opSpec_wrapped, Bytes_spec|]. by intros b c [-> ?].
  - pose proof (ByteArray_spec (stuckAt (S fuel - 1)) n) as H. intros s Hok Hk. specialize (H s Hok Hk).
    destruct (decodeByteArray n s) as [[[]]| |]; try done. destruct H as (c & (b & -> & -> & ? & ?) & ?). exists (encStr b). done.
  - apply (opSpec_stuck _ (S (fuel - typeDepth te))); [lia|]. eapply opSpec_ext; [apply decodeListSlice_eq|].
    apply (opSpec_list _ _ _ (fun l c => isEnc (TSlice te) (VList l) (encList c))); [by left| |done].
    intros s size Hok Hk. pose proof (sliceElems_spec _ (decode fuel te) te fuel size s (IH te Hw) Hok Hk) as H.
    destruct (sliceElems fuel (decode fuel te) size s) as [[[]]| |]; try done. unfold stuckAt in *. lia.
  - apply (opSpec_stuck _ (S (fuel - typeDepth te))); [lia|].
    apply (opSpec_list _ (fun _ => decodeFields _ (replicate n (decode fuel te))) _
      (fun l c => typedElems l (replicate n te) /\ existsb unread l = false /\ c = encElems l (replicate n te))); [by right| |].
    + intros s _. apply (decodeFields_spec _ _ _ (replicate n te)); [done|]. clear -IH Hw. induction n; simpl; constructor; auto.
    + intros l c (Ht & Hn & ->). pose proof (typedElems_length _ _ Ht) as Hl. rewrite length_replicate in Hl.
      unfold isEnc. rewrite typed_array, enc_array, Hl. done.
  - apply (opSpec_stuck _ (S (fuel - foldr (fun f n => max (typeDepth f) n) 0%nat fields))); [lia|].
    apply (opSpec_list _ (fun _ => decodeFields _ (map (decode fuel) fields)) _
      (fun l c => typedElems l fields /\ existsb unread l = false /\ c = encElems l fields)); [by right| |].
    + intros s _. apply (decodeFields_spec _ _ _ fields); [done|]. apply Forall2_fmap_l, Forall_Forall2_diag, Forall_forall.
      intros f Hf. eapply opSpec_stuck; [|apply IH; by eapply wfType_field]. pose proof (typeDepth_field _ _ Hf). lia.
    + intros l c (Ht & Hn & ->). unfold isEnc. by rewrite typed_struct, enc_struct.
  - eapply opSpec_map; [by apply IH|]. intros v c (? & ? & ->). done.
  - replace (S fuel - 1)%nat with fuel by lia. apply decode_iface_spec. by apply (IH TIface).
Qed.

(** ** Decoding what was encoded *)

Lemma readFull_complete s c rest : streamOk s -> input s = c ++ rest -> fits s (Z.of_nat (length c)) ->
  exists s', readFull (Z.of_nat (length c)) s = Done (inr c, s') /\ eats s c s' /\ kind s' = None /\ byteval s' = byteval s.
Proof.
  intros Hok Hi Hf. destruct (readFull_cases (Z.of_nat (length c)) s Hok ltac:(lia)) as [[Hn _]|[_ (c' & s' & Hr & Hl & He & Hk & Hb)]].
  - destruct Hn. split; [done|]. rewrite Hi, length_app. lia.
  - destruct (eats_unique _ _ _ _ _ He Hi) as [<- _]; [lia|]. eauto.
Qed.

Lemma fits_le s a b : fits s b -> a <= b -> fits s a.
Proof. intros [H1 H2] Hab. split; [destruct (stack s); [done|lia]|]. intros Hl. specialize (H2 Hl). lia. Qed.

Lemma readByte_complete s b rest : streamOk s -> input s = b :: rest -> fits s 1 ->
  exists s', readByte s = Done (inr b, s') /\ eats s [b] s' /\ kind s' = None.
Proof.
  intros Hok Hi Hf. destruct (readByte_cases s Hok) as [[Hn _]|[_ (b' & s' & Hr & He & Hk)]].
  - destruct Hn. split; [done|]. by rewrite Hi.
  - destruct (eats_unique _ _ _ [b] rest He Hi) as [[= <-] _]; [done|]. eauto.
Qed.

(** Reading the tag of a value of the given size. *)
Lemma longKind_complete k base n s rest : streamOk s -> 56 <= Z.of_nat n < 2 ^ 63 -> input s = bigBytes (Z.of_nat n) ++ rest ->
  fits s (Z.of_nat (nbytes (Z.of_nat n))) ->
  exists s', longKind k (u8 (base + Z.of_nat (nbytes (Z.of_nat n)) - base)) s = Done (k, Z.of_nat n, None, s') /\
    eats s (bigBytes (Z.of_nat n)) s'.
Proof.
  intros Hok Hn Hi Hf. pose proof (nbytes_u64 (Z.of_nat n) ltac:(split; lia)). pose proof (nbytes_pos (Z.of_nat n) ltac:(lia)).
  replace (u8 _) with (Z.of_nat (nbytes (Z.of_nat n))) by (rewrite u8_small; lia). unfold longKind.
  pose proof (length_bigBytes (Z.of_nat n)) as Hl. destruct (bigBytes (Z.of_nat n)) as [|x l] eqn:Hb; [simpl in Hl; lia|].
  pose proof (bigBytes_head _ _ _ Hb) as Hx.
  destruct (readUint_cases (nbytes (Z.of_nat n)) s Hok ltac:(lia)) as [(e & s' & _ & _ & Hne)|(y & m & s' & -> & He & Hlm & _ & _)].
  - destruct Hne. split; [done|]. exists x, l, rest. split_and!; [done|done|by right].
  - destruct (eats_unique _ _ _ _ _ He Hi) as [Heq _]; [congruence|]. rewrite Heq in *. rewrite <-Hb, be_to_Z_bigBytes, decide_False by lia.
    exists s'. rewrite Hb. done.
Qed.

Lemma readKind_complete s k size b rest : streamOk s -> 0 <= size < 2 ^ 63 -> (k = KByte -> 0 <= b < 0x80 /\ size = 0) ->
  input s = kindTag k size b ++ rest -> fits s (Z.of_nat (length (kindTag k size b))) ->
  exists s', readKind s = Done (k, size, None, s') /\ eats s (kindTag k size b) s' /\ (k = KByte -> byteval s' = b).
Proof.
  intros Hok Hsz Hb Hi Hf. set (n := Z.to_nat size). assert (size = Z.of_nat n) as Hn by lia.
  destruct (kindTag k size b) as [|t0 tl] eqn:Ht. { exfalso. by eapply (kindTag_ne k size b); [split; lia|]. }
  destruct (readByte_complete s t0 (tl ++ rest) Hok Hi) as (s1 & Hr & He & _); [eapply fits_le; [done|simpl; lia]|].
  destruct (eats_ok _ _ _ He Hok) as (Hok1 & _ & _). unfold readKind. rewrite Hr.
  assert (forall x, eats s [t0] (set_byteval x s1)) as Hset by (intros x; by eapply eats_same).
  assert (input s1 = tl ++ rest) as Hi1 by (destruct He as (H1 & _); rewrite Hi in H1; by injection H1).
  destruct k; simpl in Ht.
  - destruct (Hb eq_refl) as [Hb1 ->]. injection Ht as <- <-. rewrite decide_True by lia. eexists. split; [done|]. split; [apply (Hset b)|done].
  - fold n in Ht. unfold header in Ht. case_decide as H56; injection Ht as <- <-.
    + rewrite decide_False, decide_True by lia. rewrite u8_small by lia. replace (128 + Z.of_nat n - 128) with size by lia. eexists. split; [done|]. split; [apply (Hset 0)|done].
    + rewrite length_bigBytes in *. pose proof (nbytes_u64 (Z.of_nat n) ltac:(split; lia)). pose proof (nbytes_pos (Z.of_nat n) ltac:(lia)).
      rewrite !decide_False, decide_True by lia.
      destruct (longKind_complete KString 0xB7 n (set_byteval 0 s1) rest) as (s' & -> & He'); [done|lia|done| |].
      * eapply (fits_eats s _ s1); [done|done| |lia]. eapply fits_le; [done|]. simpl. rewrite length_bigBytes. lia.
      * rewrite Hn. eexists. split; [done|]. split; [|done]. by apply (eats_trans s _ _ _ _ (Hset 0)).
  - fold n in Ht. unfold header in Ht. case_decide as H56; injection Ht as <- <-.
    + rewrite !decide_False, decide_True by lia. rewrite u8_small by lia. replace (192 + Z.of_nat n - 192) with size by lia. eexists. split; [done|]. split; [apply (Hset 0)|done].
    + rewrite length_bigBytes in *. pose proof (nbytes_u64 (Z.of_nat n) ltac:(split; lia)). pose proof (nbytes_pos (Z.of_nat n) ltac:(lia)).
      rewrite !decide_False by lia.
      destruct (longKind_complete KList 0xF7 n (set_byteval 0 s1) rest) as (s' & -> & He'); [done|lia|done| |].
      * eapply (fits_eats s _ s1); [done|done| |lia]. eapply fits_le; [done|]. simpl. rewrite length_bigBytes. lia.
      * rewrite Hn. eexists. split; [done|]. split; [|done]. by apply (eats_trans s _ _ _ _ (Hset 0)).
Qed.

Lemma Kind_complete s k size b rest : streamOk s -> kind s = None -> 0 <= size < 2 ^ 63 -> (k = KByte -> 0 <= b < 0x80 /\ size = 0) ->
  input s = kindTag k size b ++ rest -> fits s (Z.of_nat (length (kindTag k size b)) + size) ->
  exists s', Kind_ s = Done (inr (k, size), s') /\ ahead s k size s' /\ input s' = rest /\ (k = KByte -> byteval s' = b).
Proof.
  intros Hok Hk Hsz Hb Hi Hf. destruct (readKind_complete s k size b rest Hok Hsz Hb Hi) as (s1 & Hr & He & Hbv); [eapply fits_le; [done|lia]|].
  pose proof (fits_eats _ _ _ _ Hok He Hf ltac:(lia)) as [_ Hf1]. destruct (eats_unique _ _ _ _ _ He Hi eq_refl) as [_ Hi1].
  assert (0 < length (kindTag k size b))%nat.
  { destruct (kindTag k size b) eqn:Ht; [|simpl; lia]. exfalso. by eapply (kindTag_ne k size b); [split; lia|]. }
  assert (limited s1 = limited s) as Hl by apply He. unfold Kind_, listLimit. rewrite Hk, Hr. cbn [mbind outcome_bind].
  assert (limited s1 && bool_decide (size > srem s1) = false) as Hlim.
  { destruct (limited s1); [|done]. simpl. apply bool_decide_false. specialize (Hf1 ltac:(congruence)). lia. }
  assert (forall s2, s2 = set_kinderr None (set_ssize size (set_kind (Some k) s1)) -> ahead s k size s2 /\ input s2 = rest /\ (k = KByte -> byteval s2 = b)) as Hs2.
  { intros s2 ->. split; [|done]. split; simpl; try done; [|split; lia| |intros; apply Hf1; congruence].
    - destruct k; [rewrite (Hbv eq_refl)|..]; by eapply eats_same.
    - intros Hkb. rewrite (Hbv Hkb). destruct (Hb Hkb). lia. }
  destruct Hf as [Hf _]. destruct (stack s) as [|l st]; simpl.
  - rewrite Hlim. eexists. split; [done|]. by apply Hs2.
  - rewrite (bool_decide_false (l = 0)), (bool_decide_false (size > l)) by lia. cbn [andb]. rewrite Hlim. eexists. split; [done|]. by apply Hs2.
Qed.

(** The content of the string ahead. *)
Lemma content_complete s k c s1 rest : streamOk s -> ahead s k (Z.of_nat (length c)) s1 -> k <> KByte -> input s1 = c ++ rest ->
  fits s (Z.of_nat (length (encKind k c))) ->
  exists s2, readFull (Z.of_nat (length c)) s1 = Done (inr c, s2) /\ eats s (encKind k c) s2 /\ kind s2 = None.
Proof.
  intros Hok Ha Hkb Hi Hf. pose proof (ahead_eats _ _ _ _ Ha) as He. destruct (eats_ok _ _ _ He Hok) as (Hok1 & _ & _).
  assert (kindTag k (Z.of_nat (length c)) (byteval s1) = kindHeader k (length c)) as Ht by (destruct k; simpl; by rewrite ?Nat2Z.id).
  rewrite Ht in He. unfold encKind in *. rewrite length_app, Nat2Z.inj_add in Hf.
  destruct (readFull_complete s1 c rest Hok1 Hi) as (s2 & -> & He2 & Hk2 & _); [eapply (fits_eats s _ s1); [done|done|done|lia]|].
  exists s2. split; [done|]. split; [by eapply eats_trans|done].
Qed.

(** The tag in front of an encoded string. *)
Lemma strKind_complete s a rest : streamOk s -> kind s = None -> bytes_ok a -> Z.of_nat (length a) < 2 ^ 63 ->
  input s = encStr a ++ rest -> fits s (Z.of_nat (length (encStr a))) ->
  exists s1, (Kind_ s = Done (inr (KByte, 0), s1) /\ a = [byteval s1] /\ ahead s KByte 0 s1) \/
    (Kind_ s = Done (inr (KString, Z.of_nat (length a)), s1) /\ ahead s KString (Z.of_nat (length a)) s1 /\ input s1 = a ++ rest /\
     encStr a = encKind KString a /\ (forall x, a = [x] -> 0x80 <= x)).
Proof.
  intros Hok Hk Hb Hl Hi Hf. destruct (encStr_encKind a) as [He Hc]. destruct (strKind a) eqn:Hs; [..|unfold strKind in Hs; repeat case_match; try done; by case_decide].
  - destruct a as [|x [|]]; [done| |done]. simpl in Hc. apply Forall_cons_1 in Hb as [Hx _]. unfold byte_ok in Hx.
    rewrite encStr_1 in Hi, Hf by done. destruct (Kind_complete s KByte 0 x rest) as (s1 & Hk1 & Ha & _ & Hbv); [done|done|lia|intros _; lia|done|done|].
    exists s1. left. by rewrite (Hbv eq_refl).
  - rewrite He in *. unfold encKind in Hi, Hf. rewrite <-app_assoc in Hi. rewrite length_app, Nat2Z.inj_add in Hf.
    destruct (Kind_complete s KString (Z.of_nat (length a)) 0 (a ++ rest)) as (s1 & Hk1 & Ha & Hi1 & _);
      [done|done|lia|done|simpl; by rewrite Nat2Z.id|simpl; by rewrite Nat2Z.id|].
    exists s1. right. split_and!; try done. intros x ->. done.
Qed.

Lemma canonByte_complete c s : (forall x, c = [x] -> 0x80 <= x) -> canonByte (Z.of_nat (length c)) c s = Done (inr tt, s).
Proof.
  intros H. unfold canonByte. case_decide as H1; [|done]. destruct c as [|x [|]]; [simpl in H1; lia| |simpl in H1; lia].
  rewrite index_0. cbn [mbind outcome_bind]. specialize (H x eq_refl). by rewrite decide_False by lia.
Qed.

Definition reads {A} (m : op A) (s : Stream) (a : A) (c : list Z) : Prop :=
  exists s', m s = Done (inr a, s') /\ eats s c s' /\ kind s' = None.

(** A stream at the beginning of the bytes [c], with room for them. *)
Definition startsWith (s : Stream) (c : list Z) : Prop :=
  streamOk s /\ kind s = None /\ (exists rest, input s = c ++ rest) /\ fits s (Z.of_nat (length c)) /\ Z.of_nat (length c) <= maxAlloc.

Lemma Bytes_reads s a : startsWith s (encStr a) -> bytes_ok a -> reads Bytes_ s a (encStr a).
Proof.
  intros (Hok & Hk & (rest & Hi) & Hf & Hm) Hb. pose proof (length_encStr a). unfold maxAlloc in Hm.
  destruct (strKind_complete s a rest Hok Hk Hb ltac:(lia) Hi Hf) as (s1 & [(Hk1 & Ha & Hah)|(Hk1 & Hah & Hi1 & He & Hx)]);
    unfold reads, Bytes_, sbind; rewrite Hk1; simpl.
  - rewrite Ha. eexists. split; [done|]. split; [|done]. rewrite encStr_1 by (by apply (ahead_byte _ _ _ _ Hah)).
    apply eats_rearm, (ahead_eats _ _ _ _ Hah).
  - rewrite He in *. destruct (content_complete s KString a s1 rest Hok Hah ltac:(done) Hi1 Hf) as (s2 & Hr & He2 & Hk2).
    unfold sbind, makeSlice, maxAlloc. rewrite decide_False by lia. rewrite Hr, canonByte_complete by done. by exists s2.
Qed.

Lemma uint_reads s bits z : startsWith s (encStr (bigBytes z)) -> uintBits bits -> 0 <= z < 2 ^ bits -> reads (uint_ bits) s z (encStr (bigBytes z)).
Proof.
  intros (Hok & Hk & (rest & Hi) & Hf & Hm) Hbits Hz. pose proof (length_encStr (bigBytes z)). unfold maxAlloc in Hm.
  destruct (strKind_complete s (bigBytes z) rest Hok Hk (bigBytes_ok z) ltac:(lia) Hi Hf) as (s1 & [(Hk1 & Ha & Hah)|(Hk1 & Hah & Hi1 & He & Hx)]);
    unfold reads, uint_, sbind; rewrite Hk1; simpl.
  - pose proof (be_to_Z_bigBytes z ltac:(lia)) as Hbe. pose proof (bigBytes_head z _ _ Ha) as Hb0. rewrite Ha in Hbe.
    change (be_to_Z [byteval s1]) with (0 * 256 + byteval s1) in Hbe. assert (z = byteval s1) as -> by lia. rewrite decide_False by done.
    simpl. eexists. split; [done|]. split; [|done]. rewrite Ha, encStr_1 by (by apply (ahead_byte _ _ _ _ Hah)).
    apply eats_rearm, (ahead_eats _ _ _ _ Hah).
  - pose proof (ahead_eats _ _ _ _ Hah) as He1. destruct (eats_ok _ _ _ He1 Hok) as (Hok1 & _ & _). rewrite length_bigBytes in *.
    assert (8 * Z.of_nat (nbytes z) <= bits) as Hn8.
    { assert (exists m, bits = 8 * Z.of_nat m) as [m Hm8] by (destruct Hbits as [-> |[-> |[-> | ->]]]; [by exists 1%nat|by exists 2%nat|by exists 4%nat|by exists 8%nat]).
      rewrite Hm8. pose proof (nbytes_le z m) as Hle. change 256 with (2 ^ 8) in Hle. rewrite <-Z.pow_mul_r, <-Hm8 in Hle by lia. specialize (Hle Hz). lia. }
    assert (bits <= 64) by (unfold uintBits in Hbits; lia).
    rewrite decide_False by (pose proof (Z.div_le_lower_bound bits 8 (Z.of_nat (nbytes z))); lia). rewrite u8_small by lia.
    destruct (decide (z = 0)) as [->|Hz0].
    { simpl. eexists. split; [done|]. split; [|done]. apply eats_rearm. exact He1. }
    pose proof (nbytes_pos z ltac:(lia)).
    destruct (bigBytes z) as [|x l] eqn:Hb. { apply (f_equal length) in Hb. rewrite length_bigBytes in Hb. simpl in Hb. lia. }
    assert (length (x :: l) = nbytes z) as Hlen by (by rewrite <-Hb, length_bigBytes).
    assert (fits s1 (Z.of_nat (nbytes z))) as Hf1.
    { eapply (fits_eats s _ s1); [done|done| |lia]. eapply fits_le; [done|]. rewrite He. unfold encKind. rewrite length_app, Hlen. simpl. rewrite Nat2Z.id. lia. }
    destruct (readUint_cases (nbytes z) s1 Hok1 ltac:(lia)) as [(e & s' & _ & _ & Hne)|(y & m & s' & -> & He' & Hl & _ & Hkn)].
    + destruct Hne. split; [done|]. exists x, l, rest. split_and!; [done|done|]. right. by eapply bigBytes_head.
    + destruct (eats_unique _ _ _ _ _ He' Hi1) as [Heq _]; [congruence|]. rewrite Heq in *. clear Heq y m.
      replace (be_to_Z (x :: l)) with z by (by rewrite <-Hb, be_to_Z_bigBytes by lia). rewrite decide_False.
      * exists s'. split; [done|]. split; [|done]. rewrite He. unfold encKind. rewrite Hlen. simpl in He1. rewrite Nat2Z.id in He1. by eapply eats_trans.
      * intros [_ Hlt]. assert (nbytes z = 1%nat) as Hn1 by (pose proof (nbytes_le z 1 ltac:(simpl; lia)); lia).
        destruct l; [|simpl in Hlen; lia]. specialize (Hx x eq_refl). pose proof (be_to_Z_bigBytes z ltac:(lia)) as Hbe. rewrite Hb in Hbe.
        change (be_to_Z [x]) with (0 * 256 + x) in Hbe. lia.
Qed.

Lemma Bool_reads s (b : bool) : startsWith s (encStr (if b then [1] else [])) -> reads Bool_ s b (encStr (if b then [1] else [])).
Proof.
  intros Hs. unfold reads, Bool_, sbind. replace (if b then [1] else []) with (bigBytes (if b then 1 else 0)) in * by (by destruct b).
  destruct (uint_reads s 8 (if b then 1 else 0) Hs ltac:(by left)) as (s' & -> & He & Hk); [destruct b; lia|].
  exists s'. by destruct b.
Qed.

Lemma BigInt_reads s z : startsWith s (encStr (bigBytes z)) -> 0 <= z -> reads decodeBigInt s z (encStr (bigBytes z)).
Proof.
  intros (Hok & Hk & (rest & Hi) & Hf & Hm) Hz. pose proof (length_encStr (bigBytes z)) as Hle. unfold maxAlloc in Hm.
  assert (forall s', (match bigBytes z with 0 :: _ => serr ErrCanonInt | _ => sret (be_to_Z (bigBytes z)) end) s' = Done (inr z, s')) as Htail.
  { intros s'. pose proof (be_to_Z_bigBytes z Hz) as Hbe. destruct (bigBytes z) as [|x l] eqn:Hb; [unfold sret; by rewrite Hbe|].
    pose proof (bigBytes_head _ _ _ Hb). destruct x; [done|unfold sret; by rewrite Hbe..]. }
  destruct (strKind_complete s (bigBytes z) rest Hok Hk (bigBytes_ok z) ltac:(lia) Hi Hf) as (s1 & [(Hk1 & Ha & Hah)|(Hk1 & Hah & Hi1 & He & Hx)]);
    unfold reads, decodeBigInt; unfold sbind at 1; rewrite Hk1.
  - unfold sbind at 1. simpl. exists (set_kind None s1). split; [|split; [|done]].
    + specialize (Htail (set_kind None s1)). rewrite Ha in Htail. exact Htail.
    + rewrite Ha, encStr_1 by (by apply (ahead_byte _ _ _ _ Hah)). apply eats_rearm, (ahead_eats _ _ _ _ Hah).
  - destruct (content_complete s KString (bigBytes z) s1 rest Hok Hah ltac:(done) Hi1 ltac:(by rewrite <-He)) as (s2 & Hr & He2 & Hk2).
    unfold sbind at 1. case_decide as H0.
    { assert (bigBytes z = []) as Hnil by (destruct (bigBytes z); [done|simpl in H0; lia]). rewrite Hnil in *. exists (set_kind None s1).
      split; [apply Htail|]. split; [|done]. apply eats_rearm. apply (ahead_eats _ _ _ _ Hah). }
    exists s2. rewrite He. split; [|done]. case_decide.
    + unfold sbind. rewrite Hr, canonByte_complete by done. apply Htail.
    + unfold sbind, makeSlice, maxAlloc. rewrite decide_False, Hr by lia. apply Htail.
Qed.

Lemma ByteArray_reads s n b : startsWith s (encStr b) -> bytes_ok b -> length b = n -> reads (decodeByteArray n) s (VBytes b) (encStr b).
Proof.
  intros (Hok & Hk & (rest & Hi) & Hf & Hm) Hb <-. pose proof (length_encStr b). unfold maxAlloc in Hm.
  destruct (strKind_complete s b rest Hok Hk Hb ltac:(lia) Hi Hf) as (s1 & [(Hk1 & Ha & Hah)|(Hk1 & Hah & Hi1 & He & Hx)]);
    unfold reads, decodeByteArray; unfold sbind at 1; rewrite Hk1.
  - rewrite Ha. exists (set_kind None s1). split; [done|]. split; [|done]. rewrite encStr_1 by (by apply (ahead_byte _ _ _ _ Hah)).
    apply eats_rearm, (ahead_eats _ _ _ _ Hah).
  - destruct (content_complete s KString b s1 rest Hok Hah ltac:(done) Hi1 ltac:(by rewrite <-He)) as (s2 & Hr & He2 & Hk2).
    rewrite !decide_False by lia. unfold sbind, wrapped. rewrite Hr, canonByte_complete by done. exists s2. by rewrite He.
Qed.

(** Raw values: one value with its header. *)
Definition rawForm (b : list Z) : Prop := (exists x, b = [x] /\ 0 <= x < 0x80) \/ exists k c, k <> KByte /\ b = encKind k c.

Lemma Raw_reads s b : startsWith s b -> rawForm b -> reads Raw s b b.
Proof.
  intros (Hok & Hk & (rest & Hi) & Hf & Hm) [(x & -> & Hx)|(k & c & Hkb & ->)]; unfold maxAlloc in Hm.
  - destruct (Kind_complete s KByte 0 x rest) as (s1 & Hk1 & Ha & _ & Hbv); [done|done|lia|done|done|done|].
    unfold reads, Raw, sbind. rewrite Hk1. simpl. rewrite (Hbv eq_refl). eexists. split; [done|]. split; [|done].
    pose proof (ahead_eats _ _ _ _ Ha) as He. simpl in He. rewrite (Hbv eq_refl) in He. by apply eats_rearm.
  - assert (Z.of_nat (length c) < 2 ^ 63) as Hc by (unfold encKind in Hm; rewrite length_app in Hm; lia).
    assert (kindTag k (Z.of_nat (length c)) 0 = kindHeader k (length c)) as Ht by (destruct k; simpl; by rewrite ?Nat2Z.id).
    destruct (Kind_complete s k (Z.of_nat (length c)) 0 (c ++ rest)) as (s1 & Hk1 & Ha & Hi1 & _); [done|done|lia|done|..].
    { rewrite Ht, Hi. unfold encKind. by rewrite <-app_assoc. }
    { rewrite Ht. unfold encKind in Hf. by rewrite length_app, Nat2Z.inj_add in Hf. }
    destruct (content_complete s k c s1 rest Hok Ha Hkb Hi1 Hf) as (s2 & Hr & He2 & Hk2).
    exists s2. split; [|done]. unfold Raw, sbind at 1. rewrite Hk1.
    assert (rawAhead k (Z.of_nat (length c)) s1 = Done (inr (encKind k c), s2)) as Hraw; [|by destruct k].
    set (hd := header (if decide (k = KString) then 0x80 else 0xC0) (if decide (k = KString) then 0xB7 else 0xF7) (length c)).
    assert (Z.of_nat (length hd) = headsize (Z.of_nat (length c))) as Hh by (unfold hd; apply length_header; lia).
    rewrite encKind_header, length_app in Hm by done. fold hd in Hm.
    unfold rawAhead, sbind, makeSlice, maxAlloc. rewrite u64_small by (split; lia). rewrite !decide_False by lia.
    replace (headsize (Z.of_nat (length c)) + Z.of_nat (length c) - headsize (Z.of_nat (length c))) with (Z.of_nat (length c)) by lia.
    rewrite Hr, puthead_spec; [|by case_decide|by case_decide|lia|fold hd; rewrite length_app, length_replicate; lia].
    cbn [mbind outcome_bind]. fold hd. rewrite encKind_header by done. fold hd. do 4 f_equal.
    rewrite <-Hh, Nat2Z.id. by rewrite <-(length_replicate (length hd) 0) at 1; rewrite drop_app_length.
Qed.

Lemma startsWith_l s c1 c2 : startsWith s (c1 ++ c2) -> startsWith s c1.
Proof.
  intros (Hok & Hk & (rest & Hi) & Hf & Hm). rewrite length_app in *. split_and!; [done|done| |by eapply fits_le; [done|lia]|lia].
  exists (c2 ++ rest). by rewrite Hi, app_assoc.
Qed.

Lemma startsWith_r s c1 c2 s' : startsWith s (c1 ++ c2) -> eats s c1 s' -> kind s' = None -> startsWith s' c2.
Proof.
  intros (Hok & Hk & (rest & Hi) & Hf & Hm) He Hk'. rewrite length_app in *. destruct (eats_ok _ _ _ He Hok) as (Hok' & _ & _).
  split_and!; [done|done| | |lia].
  - exists rest. rewrite <-app_assoc in Hi. by destruct (eats_unique _ _ _ _ _ He Hi eq_refl).
  - eapply (fits_eats s c1 s'); [done|done| |lia]. by rewrite Nat2Z.inj_add in Hf.
Qed.

Lemma List_reads s c : startsWith s (encList c) ->
  exists s2, List_ s = Done (inr (Z.of_nat (length c)), s2) /\ opened s (Z.of_nat (length c)) s2 /\ startsWith s2 c.
Proof.
  intros (Hok & Hk & (rest & Hi) & Hf & Hm). pose proof (length_encList c). unfold maxAlloc in Hm.
  unfold encList in Hi, Hf. rewrite <-app_assoc in Hi. rewrite length_app, Nat2Z.inj_add in Hf.
  destruct (Kind_complete s KList (Z.of_nat (length c)) 0 (c ++ rest)) as (s1 & Hk1 & Ha & Hi1 & _);
    [done|done|lia|done|simpl; by rewrite Nat2Z.id|simpl; by rewrite Nat2Z.id|].
  unfold List_, sbind. rewrite Hk1. destruct (listAhead_cases _ _ _ _ Ha) as [Hl|(s2 & _ & -> & Ho)].
  { unfold listAhead in Hl. rewrite decide_False in Hl by (intros Hn; by apply Hn). destruct (listLimit s1) as [[] ?]; done. }
  exists s2. split; [done|]. split; [done|]. destruct (opened_ok _ _ _ Hok Ho) as (Hok2 & _ & _). pose proof Ho as [Hi2 Hs2 Hl2 Hr2 _ Hk2].
  rewrite Nat2Z.id in *. split_and!; [done|done| | |unfold maxAlloc; lia].
  - exists rest. rewrite Hi in Hi2. by apply app_inv_head in Hi2.
  - split; [by rewrite Hs2|]. rewrite Hl2, Hr2. intros Hlim. rewrite Hlim. destruct Hf as [_ Hf]. specialize (Hf Hlim).
    destruct Hok as (_ & [? ?] & _). rewrite u64_small by (split; lia). lia.
Qed.

Lemma ListEnd_reads s c s2 s3 : streamOk s -> opened s (Z.of_nat (length c)) s2 -> eats s2 c s3 ->
  exists s4, ListEnd s3 = Done (inr tt, s4) /\ eats s (encList c) s4 /\ kind s4 = None.
Proof.
  intros Hok Ho He. destruct (ListEnd_cases _ _ _ _ _ Hok Ho He) as [(e & Hl & _)|(s4 & Hl & _ & He4)]; [|eauto].
  exfalso. unfold ListEnd, listLimit in Hl. destruct He as (_ & Hs & _). rewrite (opened_stack _ _ _ Ho) in Hs. simpl in Hs.
  rewrite Hs, Z.sub_diag in Hl. simpl in Hl. done.
Qed.

(** Every decoder first asks for the kind, and answers its error. *)
Lemma decode_kind_error fuel t s e s' : Kind_ s = Done (inl e, s') ->
  decode fuel t s = Stuck \/ decode fuel t s = Done (inl e, s') \/ decode fuel t s = Done (inl (wrapStreamError e), s').
Proof.
  intros HK. assert (List_ s = Done (inl e, s')) as HL by (unfold List_, sbind; by rewrite HK).
  assert (Bytes_ s = Done (inl e, s')) as HB by (unfold Bytes_, sbind; by rewrite HK).
  assert (forall bits, uint_ bits s = Done (inl e, s')) as HU by (intros; unfold uint_, sbind; by rewrite HK).
  revert t. induction fuel as [|fuel IH]; intros t; [by left|].
  destruct t as [| |bits| | | |n|te|n te|fields|te|]; cbn [decode];
    unfold decodeListSlice, decodeListArray, makeStructDecoder, decodeByteArray, sbind, wrapped, Raw, decodeBigInt, Bool_, sbind;
    try (rewrite ?HL, ?HB, ?HU, ?HK; by eauto).
  destruct (IH te) as [-> |[-> | ->]]; by eauto.
Qed.

(** At the end of a list that is [EOL]. *)
Lemma decode_eol fuel t s st : kind s = None -> stack s = 0 :: st -> decode fuel t s = Stuck \/ decode fuel t s = Done (inl EOL, s).
Proof.
  intros Hk Hs. assert (Kind_ s = Done (inl EOL, s)) as HK by (unfold Kind_, listLimit; by rewrite Hk, Hs).
  destruct (decode_kind_error fuel t s EOL s HK) as [?|[?|?]]; auto.
Qed.

(** What a value becomes: a nil integer is read as 0, and a nil interface as an
    empty list. *)
Fixpoint stored (v : rval) : rval :=
  match v with
  | VBig None => VBig (Some 0)
  | VList l => VList (map stored l)
  | VPtr (Some v) => VPtr (Some (stored v))
  | VIface None => VIface (Some (TSlice TIface, VList []))
  | VIface (Some (t, v)) => VIface (Some (t, stored v))
  | v => v
  end.

(** The values that survive: no nil pointer, no negative integer, only well
    formed raw values, and in an interface only byte slices and slices of
    interfaces. *)
Fixpoint storable (v : rval) (t : rtype) {struct v} : Prop :=
  let storableElems := fix go (l : list rval) (ts : list rtype) : Prop :=
    match l, ts with
    | [], [] => True
    | x :: l, t :: ts => storable x t /\ go l ts
    | _, _ => False
    end in
  match t, v with
  | TBigPtr, VBig z => match z with Some z => 0 <= z | None => True end
  | TUint bits, VUint i => uintBits bits /\ 0 <= i < 2 ^ bits
  | TBool, VBool b => True
  | TRaw, VBytes b => rawForm b /\ bytes_ok b
  | (TString | TBytes), VBytes b => bytes_ok b
  | TByteArray n, VBytes b => bytes_ok b /\ length b = n
  | TSlice te, VList l => storableElems l (replicate (length l) te)
  | TArray n te, VList l => length l = n /\ storableElems l (replicate (length l) te)
  | TStruct fields, VList l => storableElems l fields
  | TPtr te, VPtr (Some v) => storable v te
  | TIface, VIface None => True
  | TIface, VIface (Some (t, v)) => (t = TBytes \/ t = TSlice TIface) /\ storable v t
  | _, _ => False
  end.

Fixpoint storableElems (l : list rval) (ts : list rtype) : Prop :=
  match l, ts with
  | [], [] => True
  | x :: l, t :: ts => storable x t /\ storableElems l ts
  | _, _ => False
  end.

Definition decodesOk (v : rval) : Prop := forall t fuel s,
  storable v t -> startsWith s (enc v t) -> decode fuel t s = Stuck \/ reads (decode fuel t) s (stored v) (enc v t).

Lemma decodeFields_reads e fuel l ts : Forall decodesOk l -> forall s, storableElems l ts -> startsWith s (encElems l ts) ->
  decodeFields e (map (decode fuel) ts) s = Stuck \/ reads (decodeFields e (map (decode fuel) ts)) s (map stored l) (encElems l ts).
Proof.
  intros Hl. revert ts. induction Hl as [|v l Hv Hl IH]; intros [|t ts] s Hst Hs; [|done|done|].
  - right. exists s. split; [done|]. split; [|apply Hs]. destruct Hs as (Hok & _). by apply eats_nil.
  - destruct Hst as [Hst Hsts]. cbn [encElems] in Hs |- *. cbn [map decodeFields].
    destruct (Hv t fuel s Hst (startsWith_l _ _ _ Hs)) as [Hr|(s1 & Hr & He1 & Hk1)]; [left; by rewrite Hr|].
    destruct (IH ts s1 Hsts (startsWith_r _ _ _ _ Hs He1 Hk1)) as [Hr2|(s2 & Hr2 & He2 & Hk2)].
    + left. unfold sbind. by rewrite Hr, Hr2.
    + right. exists s2. unfold sbind, sret. rewrite Hr, Hr2. split; [done|]. split; [by eapply eats_trans|done].
Qed.

(** The loop over a slice reads the elements and then meets the end of the list. *)
Lemma decodeSliceElems_reads te l : Forall decodesOk l -> forall fuel n val s st,
  storableElems l (replicate (length l) te) -> startsWith s (encElems l (replicate (length l) te)) ->
  stack s = Z.of_nat (length (encElems l (replicate (length l) te))) :: st ->
  decodeSliceElems n (decode fuel te) val s = Stuck \/
  reads (decodeSliceElems n (decode fuel te) val) s (val ++ map stored l) (encElems l (replicate (length l) te)).
Proof.
  induction 1 as [|v l Hv Hl IH]; intros fuel n val s st Hst Hs Htop; (destruct n as [|n]; [by left|]); cbn [decodeSliceElems length replicate] in *.
  - destruct (decode_eol fuel te s st ltac:(apply Hs) Htop) as [Hd|Hd]; [left; by rewrite Hd|right]. unfold reads. cbn [decodeSliceElems]. rewrite Hd. exists s.
    rewrite app_nil_r. split; [done|]. split; [|apply Hs]. destruct Hs as (Hok & _). by apply eats_nil.
  - destruct Hst as [Hst Hsts]. cbn [encElems] in *.
    destruct (Hv te fuel s Hst (startsWith_l _ _ _ Hs)) as [Hr|(s1 & Hr & He1 & Hk1)]; [left; by rewrite Hr|].
    pose proof (startsWith_r _ _ _ _ Hs He1 Hk1) as Hs1.
    destruct (IH fuel n (val ++ [stored v]) s1 st Hsts Hs1) as [Hr2|(s2 & Hr2 & He2 & Hk2)].
    + pose proof He1 as (_ & Hst1 & _). rewrite Hst1, Htop. simpl. f_equal. rewrite length_app.
      destruct Hs as (_ & _ & _ & _ & Hm). rewrite length_app in Hm. unfold maxAlloc in Hm. rewrite u64_small by (split; lia). lia.
    + left. by rewrite Hr, Hr2.
    + right. exists s2. cbn [decodeSliceElems]. rewrite Hr, Hr2, <-app_assoc. split; [done|]. split; [by eapply eats_trans|done].
Qed.

(** A value that can be stored has at least one byte. *)
Lemma enc_pos v t : storable v t -> (0 < length (enc v t))%nat.
Proof.
  assert (forall b, 0 < length (encStr b))%nat as Hstr.
  { intros b. unfold encStr. destruct b as [|x [|]]; [simpl; lia|case_decide; simpl; lia|]. unfold header. case_decide; simpl; lia. }
  assert (forall c, 0 < length (encList c))%nat as Hlist by (intros c; unfold encList, header; case_decide; simpl; lia).
  revert t. induction v as [z|b|b|z|l IH| |v IH| |t' v IH] using rval_rect_nested; intros t Hs; destruct t; try done;
    rewrite ?enc_slice, ?enc_array, ?enc_struct; try (by apply Hstr); try (by apply Hlist).
  - destruct Hs as [[(x & -> & _)|(k & c & Hk & ->)] _]; [simpl; lia|]. rewrite encKind_header by done. unfold header. case_decide; simpl; lia.
  - destruct z as [z|]; [|simpl; lia]. simpl in *. rewrite decide_False by lia. apply Hstr.
  - by apply IH.
  - destruct Hs as [_ Hs]. by apply IH.
Qed.

Lemma encElems_pos v l te : storableElems (v :: l) (replicate (length (v :: l)) te) -> (0 < length (encElems (v :: l) (te :: replicate (length l) te)))%nat.
Proof. intros [Hs _]. cbn [encElems]. rewrite length_app. pose proof (enc_pos v te Hs). lia. Qed.

Lemma decodeListSlice_reads te l fuel s : Forall decodesOk l ->
  storableElems l (replicate (length l) te) -> startsWith s (encList (encElems l (replicate (length l) te))) ->
  decodeListSlice fuel (decode fuel te) s = Stuck \/
  reads (decodeListSlice fuel (decode fuel te)) s (VList (map stored l)) (encList (encElems l (replicate (length l) te))).
Proof.
  intros Hl Hst Hs. set (c := encElems l (replicate (length l) te)) in *. destruct (List_reads s c Hs) as (s2 & HL & Ho & Hs2).
  assert (streamOk s) as Hok by apply Hs.
  assert (sliceElems fuel (decode fuel te) (Z.of_nat (length c)) s2 = Stuck \/
          reads (sliceElems fuel (decode fuel te) (Z.of_nat (length c))) s2 (map stored l) c) as Hel.
  { unfold sliceElems. case_decide as H0; [|eapply (decodeSliceElems_reads te l Hl); [done|done|by rewrite (opened_stack _ _ _ Ho)]].
    assert (l = []) as ->.
    { unfold c in H0. destruct l as [|v l]; [done|exfalso]. apply (encElems_pos v l te) in Hst. cbn [length replicate] in H0. lia. }
    right. exists s2. split; [done|]. split; [|apply Hs2]. destruct Hs2 as (Hok2 & _). by apply eats_nil. }
  unfold reads. rewrite decodeListSlice_eq. unfold sbind at 1, wrapped. rewrite HL.
  destruct Hel as [Hel|(s3 & Hel & He3 & Hk3)]; [left; unfold sbind; by rewrite Hel|].
  destruct (ListEnd_reads s c s2 s3 Hok Ho He3) as (s4 & Hend & He4 & Hk4). right. exists s4.
  unfold sbind, wrapped, sret. by rewrite ?HL, Hel, Hend.
Qed.

(** Fields and arrays, between opening and closing the list. *)
Lemma decodeFields_list e fuel l ts s : Forall decodesOk l -> storableElems l ts -> startsWith s (encList (encElems l ts)) ->
  let m := (_ <-- wrapped List_; l <-- decodeFields e (map (decode fuel) ts); _ <-- wrapped ListEnd; sret (VList l)) in
  m s = Stuck \/ reads m s (VList (map stored l)) (encList (encElems l ts)).
Proof.
  intros Hl Hst Hs m. destruct (List_reads s _ Hs) as (s2 & HL & Ho & Hs2). assert (streamOk s) as Hok by apply Hs. unfold reads, m.
  destruct (decodeFields_reads e fuel l ts Hl s2 Hst Hs2) as [Hel|(s3 & Hel & He3 & Hk3)]; unfold sbind, wrapped, sret; rewrite HL, Hel; [by left|].
  destruct (ListEnd_reads s _ s2 s3 Hok Ho He3) as (s4 & -> & He4 & Hk4). right. by exists s4.
Qed.

Lemma map_replicate_decode te (l : list rval) fuel : map (decode fuel) (replicate (length l) te) = replicate (length l) (decode fuel te).
Proof. apply (fmap_replicate (decode fuel)). Qed.

Lemma reads_map {A B} (m : op A) (g : A -> B) s a c : m s = Stuck \/ reads m s a c ->
  (x <-- m; sret (g x)) s = Stuck \/ reads (x <-- m; sret (g x)) s (g a) c.
Proof. intros [Hm|(s' & Hm & He)]; [left|right; exists s']; unfold sbind, sret; by rewrite Hm. Qed.

Lemma reads_wrapped {A} (m : op A) s a c : reads m s a c -> reads (wrapped m) s a c.
Proof. intros (s' & Hm & He). exists s'. unfold wrapped. by rewrite Hm. Qed.

Lemma decode_iface_str s b fuel : startsWith s (encStr b) -> bytes_ok b ->
  reads (decode (S fuel) TIface) s (VIface (Some (TBytes, VBytes b))) (encStr b).
Proof.
  intros Hs Hb. destruct (Bytes_reads s b Hs Hb) as (s' & Hr & He & Hk). exists s'. split; [|done]. cbn [decode]. unfold sbind at 1.
  destruct Hs as (Hok & Hkn & (rest & Hi) & Hf & Hm). pose proof (length_encStr b). unfold maxAlloc in Hm.
  destruct (strKind_complete s b rest Hok Hkn Hb ltac:(lia) Hi Hf) as (s1 & [(Hk1 & _ & Ha)|(Hk1 & Ha & _)]); rewrite Hk1;
    unfold sbind, sret; rewrite (Bytes_cached _ _ _ _ Ha); unfold Bytes_, sbind in Hr; rewrite Hk1 in Hr; by rewrite Hr.
Qed.

Lemma decodeListSlice_List s1 s fuel dec : List_ s1 = List_ s -> decodeListSlice fuel dec s1 = decodeListSlice fuel dec s.
Proof. intros H. unfold decodeListSlice, sbind, wrapped. by rewrite H. Qed.

Lemma decode_iface_list s v c fuel : startsWith s (encList c) ->
  decodeListSlice fuel (decode fuel TIface) s = Stuck \/ reads (decodeListSlice fuel (decode fuel TIface)) s v (encList c) ->
  decode (S fuel) TIface s = Stuck \/ reads (decode (S fuel) TIface) s (VIface (Some (TSlice TIface, v))) (encList c).
Proof.
  intros Hs Hd.
  destruct (List_reads s _ Hs) as (s2 & HL & _). unfold List_, sbind in HL.
  assert (exists k size s1, Kind_ s = Done (inr (k, size), s1) /\ ahead s k size s1 /\ k = KList) as (k & size & s1 & HK & Ha & ->).
  { destruct (Kind_cases s ltac:(apply Hs) ltac:(apply Hs)) as [[HK _]|[(e & s' & HK & _)|(k & size & s1 & HK & Ha)]]; rewrite HK in HL; [done|done|].
    exists k, size, s1. split; [done|]. split; [done|]. unfold listAhead in HL. case_decide as Hk; [done|]. by destruct k; [destruct Hk..|]. }
  assert (decodeListSlice fuel (decode fuel TIface) s1 = decodeListSlice fuel (decode fuel TIface) s) as Heq.
  { apply decodeListSlice_List. rewrite (List_cached _ _ _ _ Ha). unfold List_, sbind. by rewrite HK. }
  assert (decode (S fuel) TIface s = (v <-- decodeListSlice fuel (decode fuel TIface); sret (VIface (Some (TSlice TIface, v)))) s) as Hdec.
  { cbn [decode]. unfold sbind. by rewrite HK, Heq. }
  unfold reads in *. rewrite Hdec. by apply (reads_map _ (fun v => VIface (Some (TSlice TIface, v)))).
Qed.

(** The decoder reads back every value that can be stored, unless its fuel ends. *)
Lemma decode_enc v : decodesOk v.
Proof.
  induction v as [z|b|b|z|l IH| |v IH| |t' v IH] using rval_rect_nested; intros t fuel s Hst Hs;
    (destruct fuel as [|fuel]; [by left|]); destruct t; try done; cbn [stored].
  - destruct Hst as [Hb Hz]. apply (reads_map _ VUint). right. by apply reads_wrapped, uint_reads.
  - apply (reads_map _ VBool). right. by apply reads_wrapped, Bool_reads.
  - destruct Hst. apply (reads_map _ VBytes). right. by apply Raw_reads.
  - apply (reads_map _ VBytes). right. by apply reads_wrapped, Bytes_reads.
  - apply (reads_map _ VBytes). right. by apply reads_wrapped, Bytes_reads.
  - destruct Hst. right. by apply ByteArray_reads.
  - destruct z as [z|]; [|apply (reads_map _ (fun z => VBig (Some z)) _ 0); right; apply reads_wrapped; by apply BigInt_reads].
    apply (reads_map _ (fun z => VBig (Some z))). right. apply reads_wrapped. simpl in *. rewrite decide_False in * by lia. by apply BigInt_reads.
  - rewrite enc_slice in *. by apply decodeListSlice_reads.
  - destruct Hst as [<- Hst]. rewrite enc_array in *. cbn [decode]. unfold decodeListArray. rewrite <-map_replicate_decode. by apply decodeFields_list.
  - rewrite enc_struct in *. by apply decodeFields_list.
  - apply (reads_map _ (fun v => VPtr (Some v))). by apply IH.
  - apply (decode_iface_list s (VList []) []); [done|]. by apply (decodeListSlice_reads TIface []).
  - destruct Hst as [[-> | ->] Hst].
    + destruct v; try done. right. by apply decode_iface_str.
    + destruct v as [| | | |l| |]; try done. apply (decode_iface_list s); [done|]. by apply (IH (TSlice TIface) (S fuel)).
Qed.

(** ** Byte slices *)

Lemma Reset_ok b : bytes_ok b -> Z.of_nat (length b) <= maxAlloc -> streamOk (Reset b (Z.of_nat (length b))).
Proof. intros Hb Hl. unfold maxAlloc in Hl. split_and!; simpl; [done|case_decide; split; lia|done|lia]. Qed.

Lemma header_ok s l n : 0 <= s <= 0xC0 -> 0 <= l <= 0xF7 -> Z.of_nat n < 2 ^ 64 -> bytes_ok (header s l n).
Proof.
  intros Hs Hl Hn. unfold header. case_decide.
  - repeat constructor; unfold byte_ok; lia.
  - pose proof (nbytes_u64 (Z.of_nat n) ltac:(split; lia)). rewrite length_bigBytes. constructor; [unfold byte_ok; lia|apply bigBytes_ok].
Qed.

Lemma encStr_ok b : bytes_ok b -> Z.of_nat (length b) < 2 ^ 64 -> bytes_ok (encStr b).
Proof.
  intros Hb Hl. destruct (encStr_encKind b) as [-> _]. unfold encKind. apply Forall_app. split; [|done].
  unfold strKind. destruct b as [|x [|y b]]; [|case_decide; [constructor|]|]; apply header_ok; simpl in *; lia.
Qed.

Lemma enc_ok v : forall t, typed v t -> Z.of_nat (length (enc v t)) < 2 ^ 63 -> bytes_ok (enc v t).
Proof.
  assert (forall l ts, Forall (fun v => forall t, typed v t -> Z.of_nat (length (enc v t)) < 2 ^ 63 -> bytes_ok (enc v t)) l ->
    typedElems l ts -> Z.of_nat (length (encList (encElems l ts))) < 2 ^ 63 -> bytes_ok (encList (encElems l ts))) as Helems.
  { intros l ts Hl Ht Hlen. unfold encList in *. rewrite length_app in Hlen. apply Forall_app. split; [apply header_ok; lia|].
    assert (Z.of_nat (length (encElems l ts)) < 2 ^ 63) as Hlen2 by lia. clear Hlen. revert ts Ht Hlen2.
    clear v. induction Hl as [|v l Hv Hl IH]; intros [|t ts] Ht Hlen; try done. destruct Ht. cbn [encElems] in *. rewrite length_app in Hlen.
    apply Forall_app. split; [apply Hv|apply IH]; try done; lia. }
  induction v as [z|b|b|z|l IH| |v IH| |t' v IH] using rval_rect_nested; intros t Ht Hl; destruct t; try done;
    rewrite ?typed_slice, ?typed_array, ?typed_struct, ?enc_slice, ?enc_array, ?enc_struct in *;
    try (by apply Helems); cbn [enc] in *.
  all: try (by apply IH).
  all: try match goal with |- bytes_ok (encStr ?b) => pose proof (length_encStr b); apply encStr_ok; [|lia] end.
  - apply bigBytes_ok.
  - destruct b; repeat constructor; done.
  - exact Ht.
  - exact Ht.
  - by destruct Ht.
  - destruct z as [z|]; [|by repeat constructor]. case_decide; [constructor|].
    pose proof (length_encStr (bigBytes z)). apply encStr_ok; [apply bigBytes_ok|lia].
  - destruct Ht as [_ Ht]. by apply Helems.
  - repeat constructor; unfold byte_ok, DefaultNilValue; destruct t; lia.
  - by repeat constructor.
Qed.

Lemma storable_typed v : forall t, storable v t -> typed v t /\ negative v = false.
Proof.
  assert (forall l ts, Forall (fun v => forall t, storable v t -> typed v t /\ negative v = false) l -> storableElems l ts ->
    typedElems l ts /\ existsb negative l = false) as Helems.
  { clear v. intros l ts Hl. revert ts. induction Hl as [|v l Hv Hl IH]; intros [|t ts] Hs; try done. destruct Hs as [Hs Hss].
    destruct (Hv t Hs) as [? Hn], (IH ts Hss) as [? Hns]. cbn [typedElems existsb]. by rewrite Hn, Hns. }
  induction v as [z|b|b|z|l IH| |v IH| |t' v IH] using rval_rect_nested; intros t Hs; destruct t; try done.
  - by destruct Hs.
  - destruct z as [z|]; [|done]. simpl in Hs. split; [done|]. simpl. by rewrite bool_decide_false by lia.
  - by apply (Helems l (replicate (length l) t)).
  - destruct Hs as [Hn Hs]. rewrite typed_array. destruct (Helems l _ IH Hs). done.
  - by apply (Helems l fields).
  - by apply IH.
  - destruct Hs as [_ Hs]. by apply IH.
Qed.

(** Decoding from a stream limited to its input ends without a panic, and what
    is read is the encoding of the answer. *)
Lemma streamDecode_limited b t : wfType t -> bytes_ok b -> Z.of_nat (length b) <= maxAlloc ->
  match streamDecode t (Reset b (Z.of_nat (length b))) with
  | Done (inr v, s) => typed v t /\ unread v = false /\ b = enc v t ++ input s
  | Done (inl _, _) => True
  | _ => False
  end.
Proof.
  intros Hw Hb Hl. pose proof (Reset_ok b Hb Hl) as Hok. set (s := Reset b (Z.of_nat (length b))) in *. unfold streamDecode.
  pose proof (decode_spec (typeDepth t + length (input s) + 1)%nat t Hw s Hok eq_refl) as H.
  destruct (decode (typeDepth t + length (input s) + 1)%nat t s) as [[[e|v] s']| |] eqn:Hd.
  - done.
  - destruct H as (c & (Ht & Hn & ->) & (Hi & _) & _ & _). done.
  - destruct (decide (b = [])) as [->|Hne].
    + assert (exists e s', Kind_ s = Done (inl e, s')) as (e & s' & HK) by (by eexists _, _).
      destruct (decode_kind_error (typeDepth t + length (input s) + 1)%nat t s e s' HK) as [?|[?|?]]; congruence.
    + apply H. assert (0 < length b)%nat by (destruct b; [done|simpl; lia]). unfold sane. simpl. rewrite decide_True, bool_decide_true by lia. done.
  - unfold stuckAt in H. lia.
Qed.

(** What is accepted is the encoding of the answer. *)
Lemma DecodeBytes_sound b t : wfType t -> bytes_ok b -> Z.of_nat (length b) <= maxAlloc ->
  isDone (DecodeBytes b t) = true /\
  forall v, DecodeBytes b t = ok v -> typed v t /\ negative v = false /\ b = enc v t.
Proof.
  intros Hw Hb Hl. pose proof (streamDecode_limited b t Hw Hb Hl) as H. unfold DecodeBytes.
  destruct (streamDecode t (Reset b (Z.of_nat (length b)))) as [[[e|v] s']| |]; try done. case_decide as H0; [done|]. split; [done|].
  destruct H as (Ht & Hn%unread_negative & ->). intros v' [= <-]. destruct (input s'); [|simpl in H0; lia]. by rewrite app_nil_r.
Qed.

(** C5: decoding a byte slice into a value of any of the types ends without a
    panic, whatever the bytes are, and what it accepts is exactly the encoding
    of the value it answers: encoding that value gives the input back, so that
    no two inputs decode to one value. *)
Theorem DecodeBytes_canonical b t pooled : wfType t -> bytes_ok b -> Z.of_nat (length b) <= maxAlloc -> length (sizebuf pooled) = 9%nat ->
  isDone (DecodeBytes b t) = true /\
  forall v, DecodeBytes b t = ok v -> typed v t /\ EncodeToBytes pooled t v = ok b.
Proof.
  intros Hw Hb Hl Hp. destruct (DecodeBytes_sound b t Hw Hb Hl) as [Hd Hs]. split; [done|]. intros v Hv. destruct (Hs v Hv) as (Ht & Hn & ->).
  split; [done|]. rewrite EncodeToBytes_enc, Hn; try done. unfold maxAlloc in Hl. lia.
Qed.

Lemma DecodeBytes_canonical_witness :
  EncodeToBytes newEncBuffer (TStruct [TUint 64; TBytes]) (VList [VUint 300; VBytes [5]]) = ok [0xC4; 0x82; 1; 44; 5] /\
  isDone (DecodeBytes [0xC2; 0xC2; 5; 6] TIface) = true.
Proof.
  split.
  - refine (proj2 (proj2 (DecodeBytes_canonical [0xC4; 0x82; 1; 44; 5] (TStruct [TUint 64; TBytes]) newEncBuffer _ _ _ _) (VList [VUint 300; VBytes [5]]) _)).
    + split; [right; right; by right|done].
    + repeat constructor; done.
    + vm_compute. discriminate.
    + reflexivity.
    + vm_compute. reflexivity.
  - refine (proj1 (DecodeBytes_canonical [0xC2; 0xC2; 5; 6] TIface newEncBuffer _ _ _ _)).
    + done.
    + repeat constructor; done.
    + vm_compute. discriminate.
    + reflexivity.
Defined.

(** A value that can be stored is read from a stream that begins with its
    encoding, and what follows is left. *)
Lemma streamDecode_stored v t rest : wfType t -> storable v t -> bytes_ok rest -> Z.of_nat (length (enc v t ++ rest)) <= maxAlloc ->
  exists s, streamDecode t (Reset (enc v t ++ rest) (Z.of_nat (length (enc v t ++ rest)))) = Done (inr (stored v), s) /\ input s = rest.
Proof.
  intros Hw Hs Hr Hl. destruct (storable_typed v t Hs) as [Ht Hn]. pose proof Hl as Hl2. rewrite length_app in Hl2.
  assert (Z.of_nat (length (enc v t)) < 2 ^ 63) as Hl63 by (unfold maxAlloc in Hl2; lia).
  pose proof (enc_ok v t Ht Hl63) as Hb. assert (bytes_ok (enc v t ++ rest)) as Hbr by (by apply Forall_app). pose proof (Reset_ok _ Hbr Hl) as Hok.
  unfold streamDecode. set (s := Reset (enc v t ++ rest) (Z.of_nat (length (enc v t ++ rest)))) in *.
  destruct (decode_enc v t (typeDepth t + length (input s) + 1)%nat s Hs) as [Hd|(s' & -> & He & _)].
  - split_and!; [done|done|by exists rest| |lia]. split; [done|]. intros _. simpl. case_decide; rewrite length_app in *; lia.
  - pose proof (decode_spec (typeDepth t + length (input s) + 1)%nat t Hw s Hok eq_refl) as H. rewrite Hd in H. unfold stuckAt in H. lia.
  - exists s'. split; [done|]. destruct He as (Hi & _). simpl in Hi. by apply app_inv_head in Hi.
Qed.

Lemma DecodeBytes_stored v t : wfType t -> storable v t -> Z.of_nat (length (enc v t)) <= maxAlloc -> DecodeBytes (enc v t) t = ok (stored v).
Proof.
  intros Hw Hs Hl. destruct (streamDecode_stored v t [] Hw Hs) as (s & Hd & Hi); [constructor|by rewrite app_nil_r|]. rewrite app_nil_r in Hd.
  unfold DecodeBytes. by rewrite Hd, Hi.
Qed.

(** C27: a value that can be stored is read back from its encoding, with nil
    integers as 0. *)
Theorem DecodeBytes_roundtrip v t pooled : wfType t -> storable v t -> Z.of_nat (length (enc v t)) <= maxAlloc -> length (sizebuf pooled) = 9%nat ->
  exists bs, EncodeToBytes pooled t v = ok bs /\ DecodeBytes bs t = ok (stored v).
Proof.
  intros Hw Hs Hl Hp. destruct (storable_typed v t Hs) as [Ht Hn]. exists (enc v t).
  split; [rewrite EncodeToBytes_enc, Hn; try done; unfold maxAlloc in Hl; lia|]. by apply DecodeBytes_stored.
Qed.

Lemma DecodeBytes_roundtrip_witness : exists bs,
  EncodeToBytes newEncBuffer (TStruct [TBigPtr; TSlice (TByteArray 2)]) (VList [VBig None; VList [VBytes [1; 2]]]) = ok bs /\
  DecodeBytes bs (TStruct [TBigPtr; TSlice (TByteArray 2)]) = ok (VList [VBig (Some 0); VList [VBytes [1; 2]]]).
Proof.
  apply (DecodeBytes_roundtrip (VList [VBig None; VList [VBytes [1; 2]]]) (TStruct [TBigPtr; TSlice (TByteArray 2)]) newEncBuffer).
  - done.
  - repeat split; repeat constructor; done.
  - vm_compute. discriminate.
  - reflexivity.
Defined.

(** The size check of [Kind] is made against the limit before the tag, so that
    a list one byte too long for the list around it is opened, and the size
    left in the outer list wraps around: reading goes on behind its end. *)
Theorem inner_list_overruns :
  let s := Reset [0xC2; 0xC2; 5; 6; 7] 5 in
  let answer (m : op Z) := match m s with Done (inr x, s) => Some (x, stack s) | _ => None end in
  answer (_ <-- List_; List_) = Some (2, [2; 2 ^ 64 - 1]) /\
  answer (_ <-- List_; _ <-- List_; _ <-- uint_ 64; _ <-- uint_ 64; _ <-- ListEnd; uint_ 64) = Some (7, [2 ^ 64 - 2]).
Proof. split; vm_compute; reflexivity. Qed.
