(* ===== verification/TrieKeys.v ===== *)
(** * Keys of the trie

    [trie/encoding.go]: keys as bytes, as nibbles with a terminator, and in the
    compact form of stored nodes, with the conversion that works in place. *)

From S2P Require Import Prelude Bytes.

Local Open Scope Z_scope.

Definition hasTerm (s : list Z) : bool := match last s with Some x => bool_decide (x = 16) | None => false end.

(** [nibbles[ni]<<4 | nibbles[ni+1]] on bytes. *)
Definition joinNibbles (a b : Z) : Z := Z.lor (u8 (Z.shiftl a 4)) b.

(** [decodeNibbles], with the bytes it writes as the answer; the second nibble of
    a pair may be missing. *)
Fixpoint decodeNibbles (nibbles : list Z) : outcome (list Z) :=
  match nibbles with
  | [] => Done []
  | [_] => Panic
  | a :: b :: nibbles => bytes ← decodeNibbles nibbles; Done (joinNibbles a b :: bytes)
  end.

Definition dropTerm (hex : list Z) : list Z := if hasTerm hex then take (length hex - 1) hex else hex.

Definition hexToCompact (hex : list Z) : outcome (list Z) :=
  let buf0 := if hasTerm hex then Z.shiftl 1 5 else 0 in
  let hex := dropTerm hex in
  if decide (length hex `mod` 2 = 1)%nat
  then first ← index hex 0; bytes ← decodeNibbles (drop 1 hex); Done (Z.lor (Z.lor buf0 (Z.shiftl 1 4)) first :: bytes)
  else bytes ← decodeNibbles hex; Done (buf0 :: bytes).

(** The loop of [hexToCompactInPlace]. *)
Fixpoint compactLoop (fuel : nat) (hex : list Z) (hexLen ni bi : Z) : outcome (list Z) :=
  match fuel with
  | O => Stuck
  | S fuel =>
      if decide (ni < hexLen)
      then a ← index hex ni; b ← index hex (ni + 1); hex ← store hex bi (joinNibbles a b); compactLoop fuel hex hexLen (ni + 2) (bi + 1)
      else Done hex
  end.

Definition hexToCompactInPlace (hex : list Z) : outcome (list Z) :=
  let firstByte := if hasTerm hex then Z.shiftl 1 5 else 0 in
  let hexLen := if hasTerm hex then Z.of_nat (length hex) - 1 else Z.of_nat (length hex) in
  '(firstByte, ni) ← (if decide (hexLen `mod` 2 = 1)
                      then first ← index hex 0; Done (Z.lor (Z.lor firstByte (Z.shiftl 1 4)) first, 1)
                      else Done (firstByte, 0));
  hex ← compactLoop (S (length hex)) hex hexLen ni 1;
  hex ← store hex 0 firstByte;
  subslice hex 0 (hexLen `div` 2 + 1).

Definition keybytesToHex (str : list Z) : list Z := concat ((fun b => [b `div` 16; b `mod` 16]) <$> str) ++ [16].

Definition compactToHex (compact : list Z) : outcome (list Z) :=
  match compact with
  | [] => Done compact
  | _ =>
      let base := keybytesToHex compact in
      base0 ← index base 0;
      let base := if decide (base0 < 2) then take (length base - 1) base else base in
      subslice base (2 - Z.land base0 1) (Z.of_nat (length base))
  end.

Definition hexToKeybytes (hex : list Z) : outcome (list Z) :=
  let hex := dropTerm hex in
  if decide (length hex `mod` 2 <> 0)%nat then Panic else decodeNibbles hex.

Fixpoint prefixLen (a b : list Z) : nat :=
  match a, b with
  | x :: a, y :: b => if decide (x = y) then S (prefixLen a b) else 0
  | _, _ => 0
  end.

(** ** Nibbles *)

Definition nibble (x : Z) : Prop := 0 <= x < 16.

(** A key as the trie uses it: nibbles and the terminator. *)
Definition hexKey (k : list Z) : Prop := exists ns, Forall nibble ns /\ k = ns ++ [16].

Lemma hasTerm_app ns : hasTerm (ns ++ [16]) = true.
Proof. unfold hasTerm. rewrite last_snoc. done. Qed.

Lemma hasTerm_nibbles ns : Forall nibble ns -> hasTerm ns = false.
Proof.
  intros Hn. unfold hasTerm. destruct (last ns) as [x|] eqn:Hl; [|done]. apply last_Some_elem_of in Hl.
  rewrite Forall_forall in Hn. specialize (Hn x Hl) as [_ Hx]. apply bool_decide_eq_false_2. intros ->. lia.
Qed.

Lemma dropTerm_app ns : dropTerm (ns ++ [16]) = ns.
Proof. unfold dropTerm. rewrite hasTerm_app, length_app. simpl. rewrite Nat.add_sub. apply take_app_length. Qed.

Lemma dropTerm_nibbles ns : Forall nibble ns -> dropTerm ns = ns.
Proof. intros Hn. unfold dropTerm. by rewrite hasTerm_nibbles. Qed.

Lemma joinNibbles_eq a b : nibble a -> nibble b -> joinNibbles a b = 16 * a + b.
Proof.
  intros Ha Hb. unfold nibble in *. unfold joinNibbles, u8. rewrite Z.shiftl_mul_pow2 by lia. rewrite wrap_small by lia. change (2 ^ 4) with 16.
  pose proof (Z.add_lor_land (a * 16) b) as Hor. assert (Z.land (a * 16) b = 0); [|lia]. clear Hor. apply Z.bits_inj'. intros n Hn. rewrite Z.land_spec, Z.bits_0.
  change (a * 16) with (a * 2 ^ 4). rewrite Z.mul_pow2_bits by lia. destruct (decide (n < 4)).
  - by rewrite Z.testbit_neg_r by lia.
  - replace (Z.testbit b n) with false by (symmetry; apply Z.bits_above_log2; [lia|]; destruct (decide (b = 0)) as [->|]; [simpl; lia|];
      apply Z.log2_lt_pow2; [lia|]; apply (Z.lt_le_trans _ (2 ^ 4)); [lia|]; apply Z.pow_le_mono_r; lia). by rewrite andb_false_r.
Qed.

Lemma joinNibbles_split b : byte_ok b -> joinNibbles (b `div` 16) (b `mod` 16) = b.
Proof.
  intros Hb. unfold byte_ok in Hb. rewrite joinNibbles_eq; unfold nibble.
  - pose proof (Z.div_mod b 16). lia.
  - split; [apply Z.div_pos; lia|apply Z.div_lt_upper_bound; lia].
  - apply Z.mod_pos_bound. lia.
Qed.

Definition splitByte (b : Z) : list Z := [b `div` 16; b `mod` 16].

Lemma splitByte_join a b : nibble a -> nibble b -> splitByte (joinNibbles a b) = [a; b].
Proof.
  intros Ha Hb. rewrite joinNibbles_eq by done. unfold nibble in *. unfold splitByte.
  f_equal; [|f_equal]; symmetry; [apply (Z.div_unique _ 16 a b)|apply (Z.mod_unique _ 16 a b)]; lia.
Qed.

(** Pairs of nibbles are bytes. *)
Lemma decodeNibbles_even n ns : length ns = (2 * n)%nat -> Forall nibble ns ->
  exists bs, decodeNibbles ns = Done bs /\ length bs = n /\ bytes_ok bs /\ concat (splitByte <$> bs) = ns.
Proof.
  revert ns. induction n as [|n IH]; intros ns Hl Hn; [destruct ns; [|done]; exists []; repeat split; constructor|].
  destruct ns as [|a [|b ns]]; [done|simpl in Hl; lia|]. apply Forall_cons in Hn as [Ha [Hb Hn]%Forall_cons].
  destruct (IH ns) as (bs & Hd & Hlb & Hok & Hc); [simpl in Hl; lia|done|]. exists (joinNibbles a b :: bs). cbn [decodeNibbles]. rewrite Hd.
  split; [done|]. split; [simpl; lia|]. split.
  - constructor; [|done]. rewrite joinNibbles_eq by done. unfold nibble, byte_ok in *. lia.
  - rewrite fmap_cons. cbn [concat]. rewrite Hc, splitByte_join by done. done.
Qed.

Lemma length_splitBytes bs : length (concat (splitByte <$> bs)) = (2 * length bs)%nat.
Proof. induction bs as [|b bs IH]; [done|]. rewrite fmap_cons. cbn [concat]. rewrite length_app, IH. simpl. lia. Qed.

Lemma splitBytes_nibbles bs : bytes_ok bs -> Forall nibble (concat (splitByte <$> bs)).
Proof.
  induction 1 as [|b bs Hb Hbs IH]; [constructor|]. rewrite fmap_cons. cbn [concat]. apply Forall_app. split; [|done]. unfold byte_ok in Hb.
  constructor; [split; [apply Z.div_pos; lia|apply Z.div_lt_upper_bound; lia]|]. constructor; [apply Z.mod_pos_bound; lia|constructor].
Qed.

Lemma decodeNibbles_split bs : bytes_ok bs -> decodeNibbles (concat (splitByte <$> bs)) = Done bs.
Proof.
  induction 1 as [|b bs Hb Hbs IH]; [done|]. rewrite fmap_cons. cbn [concat app splitByte decodeNibbles]. rewrite IH. cbn [mbind outcome_bind].
  by rewrite joinNibbles_split.
Qed.

Lemma keybytesToHex_key str : bytes_ok str -> hexKey (keybytesToHex str).
Proof. intros Hs. exists (concat (splitByte <$> str)). split; [by apply splitBytes_nibbles|done]. Qed.

Lemma keybytesToHex_inj a b : bytes_ok a -> bytes_ok b -> keybytesToHex a = keybytesToHex b -> a = b.
Proof.
  intros Ha Hb H. apply app_inj_tail in H as [H _]. apply (f_equal decodeNibbles) in H. rewrite !decodeNibbles_split in H by done. by injection H.
Qed.

Lemma even_or_odd (n : nat) : (exists m, n = 2 * m)%nat \/ (exists m, n = S (2 * m))%nat.
Proof. induction n as [|n [[m ->]|[m ->]]]; [left; by exists 0%nat|right; by exists m|left; exists (S m); lia]. Qed.

Lemma mod2_even m : ((2 * m) `mod` 2 = 0)%nat.
Proof. rewrite Nat.mul_comm. apply Nat.Div0.mod_mul. Qed.

Lemma mod2_odd m : (S (2 * m) `mod` 2 = 1)%nat.
Proof. replace (S (2 * m)) with (1 + m * 2)%nat by lia. by rewrite Nat.Div0.mod_add. Qed.

(** Every key of the trie comes from bytes, or has an odd number of nibbles. *)
Lemma hexKey_cases k : hexKey k -> (exists bs, bytes_ok bs /\ k = keybytesToHex bs) \/ (exists m, length k = (2 * S m)%nat).
Proof.
  intros (ns & Hn & ->). destruct (even_or_odd (length ns)) as [[m Hm]|[m Hm]].
  - left. destruct (decodeNibbles_even m ns Hm Hn) as (bs & _ & _ & Hok & <-). by exists bs.
  - right. exists m. rewrite length_app, Hm. simpl. lia.
Qed.

(** ** The compact form *)

Definition withTerm (term : bool) (ns : list Z) : list Z := if term then ns ++ [16] else ns.

Lemma dropTerm_with term ns : Forall nibble ns -> dropTerm (withTerm term ns) = ns /\ hasTerm (withTerm term ns) = term.
Proof. intros Hn. destruct term; cbn [withTerm]; [by rewrite dropTerm_app, hasTerm_app|]. by rewrite dropTerm_nibbles, hasTerm_nibbles. Qed.

(** The first byte, and the nibbles that follow. *)
Lemma hexToCompact_even term m ns bs : length ns = (2 * m)%nat -> Forall nibble ns -> decodeNibbles ns = Done bs ->
  hexToCompact (withTerm term ns) = Done ((if term then 32 else 0) :: bs).
Proof.
  intros Hl Hn Hd. unfold hexToCompact. destruct (dropTerm_with term ns Hn) as [-> ->]. cbn zeta.
  rewrite decide_False by (rewrite Hl, mod2_even; done). rewrite Hd. by destruct term.
Qed.

Lemma flag_lor (term : bool) x : nibble x ->
  Z.lor (Z.lor (if term then Z.shiftl 1 5 else 0) (Z.shiftl 1 4)) x = (if term then 32 else 0) + 16 + x.
Proof.
  unfold nibble. intros Hx. assert (HL : forall c, (c = 1 \/ c = 3) -> Z.lor (16 * c) x = 16 * c + x).
  { intros c Hc. pose proof (joinNibbles_eq c x) as HJ. unfold joinNibbles, u8, nibble in HJ. rewrite Z.shiftl_mul_pow2, wrap_small in HJ by lia.
    rewrite <-HJ by lia. f_equal. lia. }
  destruct term; [apply (HL 3)|apply (HL 1)]; lia.
Qed.

Lemma hexToCompact_odd term m x ns bs : length ns = (2 * m)%nat -> Forall nibble (x :: ns) -> decodeNibbles ns = Done bs ->
  hexToCompact (withTerm term (x :: ns)) = Done ((if term then 32 else 0) + 16 + x :: bs).
Proof.
  intros Hl Hn Hd. unfold hexToCompact. destruct (dropTerm_with term (x :: ns) Hn) as [-> ->]. cbn zeta.
  rewrite decide_True by (cbn [length]; rewrite Hl; apply mod2_odd). change (drop 1 (x :: ns)) with (drop 0 ns). rewrite drop_0. rewrite index_0. cbn [mbind outcome_bind]. rewrite Hd. cbn [mbind outcome_bind].
  apply Forall_cons in Hn as [Hx _]. by rewrite (flag_lor term x Hx).
Qed.

(** The nibbles of the first byte, and those behind it. *)
Lemma compactToHex_flag (term : bool) (f x : Z) (bs ns : list Z) : f `div` 16 = 2 * (if term then 1 else 0) + x -> 0 <= x < 2 -> concat (splitByte <$> bs) = ns ->
  compactToHex (f :: bs) = Done (drop (Z.to_nat (2 - x)) (f `div` 16 :: f `mod` 16 :: withTerm term ns)).
Proof.
  intros Hf Hx Hns. unfold compactToHex, keybytesToHex. rewrite fmap_cons. fold splitByte. cbn [concat splitByte app]. rewrite Hns.
  rewrite index_0. cbn [mbind outcome_bind].
  replace (Z.land (f `div` 16) 1) with x by (rewrite Hf; assert (x = 0 \/ x = 1) as [-> | ->] by lia; by destruct term).
  replace (if decide (f `div` 16 < 2) then _ else _) with (f `div` 16 :: f `mod` 16 :: withTerm term ns).
  - set (l := _ :: _). unfold subslice. assert (2 <= Z.of_nat (length l)) by (unfold l; cbn [length]; lia). rewrite decide_True by lia.
    rewrite take_ge; [done|]. rewrite length_drop. lia.
  - destruct term; cbn [withTerm]; [by rewrite decide_False by lia|]. rewrite decide_True by lia. cbn [length]. rewrite length_app. cbn [length].
    replace (S (S (length ns + 1)) - 1)%nat with (S (S (length ns))) by lia. cbn [take]. by rewrite take_app_length.
Qed.

(** [compactToHex] inverts [hexToCompact] on nibbles with or without the
    terminator. *)
Theorem compactToHex_hexToCompact term ns : Forall nibble ns ->
  exists compact, hexToCompact (withTerm term ns) = Done compact /\ compactToHex compact = Done (withTerm term ns).
Proof.
  intros Hn. destruct (even_or_odd (length ns)) as [[m Hm]|[m Hm]].
  - destruct (decodeNibbles_even m ns Hm Hn) as (bs & Hd & _ & _ & Hc). rewrite (hexToCompact_even term m ns bs Hm Hn Hd).
    eexists. split; [done|]. rewrite (compactToHex_flag term _ 0 bs ns); [done|by destruct term|lia|done].
  - destruct ns as [|x ns]; [done|]. pose proof (Forall_cons_1 _ _ _ Hn) as [Hx Hn']. unfold nibble in Hx.
    destruct (decodeNibbles_even m ns) as (bs & Hd & _ & _ & Hc); [simpl in Hm; lia|done|].
    rewrite (hexToCompact_odd term m x ns bs); [|simpl in Hm; lia|done|done]. eexists. split; [done|].
    set (f := _ + _). assert (f `div` 16 = 2 * (if term then 1 else 0) + 1 /\ f `mod` 16 = x) as [Hdiv Hmod].
    { split; symmetry; [apply (Z.div_unique _ 16 _ x)|apply (Z.mod_unique _ 16 (2 * (if term then 1 else 0) + 1) x)]; unfold f; destruct term; lia. }
    rewrite (compactToHex_flag term _ 1 bs ns); [|done|lia|done]. rewrite Hmod. by destruct term.
Qed.

Lemma hexToKeybytes_keybytesToHex key : bytes_ok key -> hexToKeybytes (keybytesToHex key) = Done key.
Proof.
  intros Hk. unfold hexToKeybytes. assert (dropTerm (keybytesToHex key) = concat (splitByte <$> key)) as -> by apply dropTerm_app.
  rewrite length_splitBytes, mod2_even, decide_False by lia. by apply decodeNibbles_split.
Qed.

(** ** In place *)

(** The bytes are written behind what is still to be read. *)
Lemma compactLoop_spec m : forall ns pre tail bi bs fuel, length ns = (2 * m)%nat -> (m < fuel)%nat -> (1 <= bi <= S (length pre))%nat ->
  decodeNibbles ns = Done bs -> (bi <= length (pre ++ ns ++ tail))%nat ->
  exists junk, compactLoop fuel (pre ++ ns ++ tail) (Z.of_nat (length pre + length ns)) (Z.of_nat (length pre)) (Z.of_nat bi)
               = Done (take bi (pre ++ ns ++ tail) ++ bs ++ junk).
Proof.
  induction m as [|m IH]; intros ns pre tail bi bs [|fuel] Hl Hf Hb Hd Hle; try lia; cbn [compactLoop].
  - destruct ns; [|done]. injection Hd as <-. rewrite decide_False by (simpl; lia). exists (drop bi (pre ++ tail)). cbn [app]. by rewrite take_drop.
  - destruct ns as [|a [|b ns]]; [done|simpl in Hl; lia|]. cbn [decodeNibbles] in Hd. destruct (decodeNibbles ns) as [bs'| |] eqn:Hd'; [|done..].
    injection Hd as <-. rewrite decide_True by (simpl; lia).
    rewrite (index_nat _ (length pre) a) by (cbn [app]; by rewrite list_lookup_middle). cbn [mbind outcome_bind].
    replace (Z.of_nat (length pre) + 1) with (Z.of_nat (S (length pre))) by lia.
    rewrite (index_nat _ (S (length pre)) b) by (rewrite lookup_app_r by lia; by replace (S (length pre) - length pre)%nat with 1%nat by lia). cbn [mbind outcome_bind].
    set (hex := pre ++ (a :: b :: ns) ++ tail) in *. set (x := joinNibbles a b).
    assert (Hlen : (length hex = length pre + 2 + length ns + length tail)%nat) by (unfold hex; rewrite !length_app; simpl; lia).
    rewrite store_Done by lia. cbn [mbind outcome_bind]. rewrite Nat2Z.id.
    assert (Hsplit : <[bi:=x]> hex = <[bi:=x]> (pre ++ [a; b]) ++ ns ++ tail).
    { unfold hex. replace (pre ++ (a :: b :: ns) ++ tail) with ((pre ++ [a; b]) ++ ns ++ tail) by (by rewrite <-(assoc_L (++))).
      rewrite insert_app_l by (rewrite length_app; simpl; lia). done. }
    destruct (IH ns (<[bi:=x]> (pre ++ [a; b])) tail (S bi) bs' fuel) as [junk HJ]; [simpl in Hl; lia|lia|rewrite length_insert, length_app; simpl; lia|done| |].
    { rewrite <-Hsplit, length_insert. lia. }
    rewrite length_insert, length_app, <-Hsplit in HJ. simpl length in HJ.
    replace (Z.of_nat (length pre + length (a :: b :: ns))) with (Z.of_nat (length pre + 2 + length ns)) by (simpl; lia).
    replace (Z.of_nat (length pre) + 2) with (Z.of_nat (length pre + 2)) by lia. replace (Z.of_nat bi + 1) with (Z.of_nat (S bi)) by lia.
    rewrite HJ. exists junk. f_equal. rewrite (take_S_r _ _ x) by (apply list_lookup_insert_eq; lia). rewrite take_insert_ge by lia.
    by rewrite <-(assoc_L (++)).
Qed.

(** What follows the loop. *)
Lemma inPlace_tail hex fb bs junk hexLen ni :
  compactLoop (S (length hex)) hex hexLen ni 1 = Done (take 1 hex ++ bs ++ junk) -> hex <> [] -> hexLen `div` 2 = Z.of_nat (length bs) ->
  (hex ← compactLoop (S (length hex)) hex hexLen ni 1; hex ← store hex 0 fb; subslice hex 0 (hexLen `div` 2 + 1)) = Done (fb :: bs).
Proof.
  intros -> Hne ->. cbn [mbind outcome_bind]. destruct hex as [|h0 hex]; [done|]. change (take 1 (h0 :: hex)) with [h0]. cbn [app].
  rewrite store_Done by (simpl; lia). cbn [mbind outcome_bind]. change (<[Z.to_nat 0:=fb]> (h0 :: bs ++ junk)) with (fb :: bs ++ junk).
  unfold subslice. rewrite decide_True by (cbn [length]; rewrite length_app; lia). change (Z.to_nat 0) with 0%nat. rewrite drop_0.
  replace (Z.to_nat (Z.of_nat (length bs) + 1 - 0)) with (S (length bs)) by lia. cbn [take]. by rewrite take_app_length.
Qed.

(** Compacting a key in its own buffer gives the same bytes as compacting it
    into a new one; an empty buffer has no room for them. *)
Theorem hexToCompactInPlace_correct term ns : Forall nibble ns ->
  hexToCompactInPlace (withTerm term ns) = if decide (withTerm term ns = []) then Panic else hexToCompact (withTerm term ns).
Proof.
  intros Hn. unfold hexToCompactInPlace. destruct (dropTerm_with term ns Hn) as [_ ->].
  set (hex := withTerm term ns). set (fb := if term then Z.shiftl 1 5 else 0).
  assert (Hhl : (if term then Z.of_nat (length hex) - 1 else Z.of_nat (length hex)) = Z.of_nat (length ns))
    by (unfold hex; destruct term; cbn [withTerm]; rewrite ?length_app; simpl; lia). rewrite Hhl.
  assert (Htl : exists tail, hex = ns ++ tail /\ length tail = (if term then 1%nat else 0%nat))
    by (unfold hex; destruct term; cbn [withTerm]; [by exists [16]|exists []; by rewrite app_nil_r]). destruct Htl as (tail & Hhex & Htail).
  destruct (even_or_odd (length ns)) as [[m Hm]|[m Hm]].
  - destruct (decodeNibbles_even m ns Hm Hn) as (bs & Hd & Hlb & _ & Hc). pose proof (hexToCompact_even term m ns bs Hm Hn Hd) as HC. fold hex in HC. rewrite HC.
    rewrite decide_False by (rewrite Hm; rewrite Nat2Z.inj_mul, Z.mul_comm, Z.mod_mul by lia; lia). cbn [mbind outcome_bind].
    destruct (decide (hex = [])) as [He|He]; [rewrite Hhex in He; apply app_eq_nil in He as [-> ->]; by rewrite Hhex|].
    destruct (compactLoop_spec m ns [] tail 1 bs (S (length hex))) as [junk HJ]; [done|rewrite Hhex, length_app; lia|simpl; lia|done| |].
    { cbn [app]. rewrite <-Hhex. destruct hex; [done|simpl; lia]. }
    cbn [app] in HJ. rewrite <-Hhex in HJ. rewrite (inPlace_tail hex fb bs junk); [by destruct term|exact HJ|done|].
    rewrite Hm, Hlb, Nat2Z.inj_mul, Z.mul_comm, Z.div_mul by lia. done.
  - destruct ns as [|x ns]; [done|]. destruct (decodeNibbles_even m ns) as (bs & Hd & Hlb & _ & Hc); [simpl in Hm; lia|exact (proj2 (Forall_cons_1 _ _ _ Hn))|].
    pose proof (hexToCompact_odd term m x ns bs ltac:(simpl in Hm; lia) Hn Hd) as HC. fold hex in HC. rewrite HC.
    rewrite decide_True by (rewrite Hm, Nat2Z.inj_succ; replace (Z.succ (Z.of_nat (2 * m))) with (1 + Z.of_nat m * 2) by lia; by rewrite Z.mod_add).
    rewrite decide_False by (rewrite Hhex; done). replace (index hex 0) with (Done x) by (rewrite Hhex; done). cbn [mbind outcome_bind].
    destruct (compactLoop_spec m ns [x] tail 1 bs (S (length hex))) as [junk HJ]; [simpl in Hm; lia|rewrite Hhex, length_app; cbn [length] in *; lia|simpl; lia|done|simpl; lia|].
    replace ([x] ++ ns ++ tail) with hex in HJ by (by rewrite Hhex). rewrite (inPlace_tail hex _ bs junk); [|exact HJ|by rewrite Hhex|].
    + f_equal. f_equal. unfold fb. apply flag_lor. exact (proj1 (Forall_cons_1 _ _ _ Hn)).
    + rewrite Hm, Hlb, Nat2Z.inj_succ. replace (Z.succ (Z.of_nat (2 * m))) with (1 + Z.of_nat m * 2) by lia. rewrite Z.div_add by lia. done.
Qed.
