(* ===== verification/Trie.v ===== *)
(** * The Merkle Patricia trie

    [trie/trie.go], [trie/tracer.go] and the node types and decoding of
    [trie/node.go]: a map from byte strings to byte strings kept as a tree of
    nodes, parts of which stay in the database until they are needed.

    The database is the function [Node], from a path and a hash to the stored
    bytes.  A recursion that meets a reference to a stored node goes on with the
    node it loads, so the recursions have fuel; two levels for each nibble of
    the key are enough as long as stored short nodes have keys.  The tracer of
    loaded, inserted and deleted paths is passed along. *)

From S2P Require Import Prelude Bytes RlpRaw TrieKeys.

Local Open Scope Z_scope.

(** ** Nodes *)

Record nodeFlag := mkFlag { fhash : option (list Z); dirty : bool }.

Inductive node :=
| NilNode
| ValueNode (v : list Z)
| HashNode (h : list Z)
| ShortNode (Key : list Z) (Val : node) (flags : nodeFlag)
| FullNode (Children : list node) (flags : nodeFlag).

Definition isNil (n : node) : bool := match n with NilNode => true | _ => false end.

(** [newFlag] *)
Definition newFlag : nodeFlag := mkFlag None true.

(** *** Decoding *)

Inductive nodeErr := ErrRlp (e : rlpErr) | errEmptyBuffer | errElements | errOversized | errStringSize.

Definition liftErr {A} (m : res A) : outcome (nodeErr + A) :=
  match m with Done (inr a) => Done (inr a) | Done (inl e) => Done (inl (ErrRlp e)) | Panic => Panic | Stuck => Stuck end.

Definition nbind {A B} (m : outcome (nodeErr + A)) (f : A -> outcome (nodeErr + B)) : outcome (nodeErr + B) :=
  match m with Done (inr a) => f a | Done (inl e) => Done (inl e) | Panic => Panic | Stuck => Stuck end.

Definition hashLen : Z := 32.

(** [decodeRef], with the decoder of embedded nodes. *)
Definition decodeRef (decodeNode : list Z -> outcome (nodeErr + node)) (buf : list Z) : outcome (nodeErr + (node * list Z)) :=
  nbind (liftErr (Split buf)) (fun '(kind, val, rest) =>
    if decide (kind = KList) then
      if decide (Z.of_nat (length buf) - Z.of_nat (length rest) > hashLen) then Done (inl errOversized)
      else nbind (decodeNode buf) (fun n => Done (inr (n, rest)))
    else if decide (kind = KString /\ length val = 0%nat) then Done (inr (NilNode, rest))
    else if decide (kind = KString /\ length val = 32%nat) then Done (inr (HashNode val, rest))
    else Done (inl errStringSize)).

Definition decodeShort (decodeNode : list Z -> outcome (nodeErr + node)) (hash : option (list Z)) (elems : list Z) : outcome (nodeErr + node) :=
  nbind (liftErr (SplitString elems)) (fun '(kbuf, rest) =>
    let flag := mkFlag hash false in
    key ← compactToHex kbuf;
    if hasTerm key
    then nbind (liftErr (SplitString rest)) (fun '(val, _) => Done (inr (ShortNode key (ValueNode val) flag)))
    else nbind (decodeRef decodeNode rest) (fun '(r, _) => Done (inr (ShortNode key r flag)))).

(** The first sixteen children. *)
Fixpoint decodeChildren (decodeNode : list Z -> outcome (nodeErr + node)) (n : nat) (elems : list Z) : outcome (nodeErr + (list node * list Z)) :=
  match n with
  | O => Done (inr ([], elems))
  | S n => nbind (decodeRef decodeNode elems) (fun '(cld, rest) =>
             nbind (decodeChildren decodeNode n rest) (fun '(clds, rest) => Done (inr (cld :: clds, rest))))
  end.

Definition decodeFull (decodeNode : list Z -> outcome (nodeErr + node)) (hash : option (list Z)) (elems : list Z) : outcome (nodeErr + node) :=
  nbind (decodeChildren decodeNode 16 elems) (fun '(clds, elems) =>
    nbind (liftErr (SplitString elems)) (fun '(val, _) =>
      Done (inr (FullNode (clds ++ [if decide (0 < length val)%nat then ValueNode val else NilNode]) (mkFlag hash false))))).

(** [decodeNodeUnsafe]; an embedded node lies inside the list of its parent, so
    that the length of the buffer bounds the nesting. *)
Fixpoint decodeNodeFuel (fuel : nat) (hash : option (list Z)) (buf : list Z) : outcome (nodeErr + node) :=
  match fuel with
  | O => Stuck
  | S fuel =>
      if decide (length buf = 0%nat) then Done (inl errEmptyBuffer)
      else nbind (liftErr (SplitList buf)) (fun '(elems, _) =>
        c ← match CountValues elems with Done (inr c) => Done c | Done (inl _) => Done 0 | Panic => Panic | Stuck => Stuck end;
        if decide (c = 2) then decodeShort (decodeNodeFuel fuel None) hash elems
        else if decide (c = 17) then decodeFull (decodeNodeFuel fuel None) hash elems
        else Done (inl errElements))
  end.

Definition decodeNode (hash : option (list Z)) (buf : list Z) : outcome (nodeErr + node) := decodeNodeFuel (S (length buf)) hash buf.

Definition mustDecodeNode (hash : option (list Z)) (buf : list Z) : outcome node :=
  match decodeNode hash buf with Done (inr n) => Done n | Done (inl _) => Panic | Panic => Panic | Stuck => Stuck end.

(** ** The tracer *)

Record tracer := mkTracer { inserts : gset (list Z); deletes : gset (list Z); accessList : gmap (list Z) (list Z) }.

Definition newTracer : tracer := mkTracer ∅ ∅ ∅.

Definition onRead (t : tracer) (path val : list Z) : tracer := mkTracer (inserts t) (deletes t) (<[path := val]> (accessList t)).

Definition onInsert (t : tracer) (path : list Z) : tracer :=
  if decide (path ∈ deletes t) then mkTracer (inserts t) (deletes t ∖ {[path]}) (accessList t)
  else mkTracer ({[path]} ∪ inserts t) (deletes t) (accessList t).

Definition onDelete (t : tracer) (path : list Z) : tracer :=
  if decide (path ∈ inserts t) then mkTracer (inserts t ∖ {[path]}) (deletes t) (accessList t)
  else mkTracer (inserts t) ({[path]} ∪ deletes t) (accessList t).

Definition deletedNodes (t : tracer) : gset (list Z) := deletes t ∩ dom (accessList t).

(** ** The trie *)

Inductive trieErr := MissingNodeError (hash : Hash) (path : list Z) | ErrCommitted | errNonConsensus.

Section Trie.
Context (Node : list Z -> Hash -> option (list Z)).

(** [trieReader.node] *)
Definition readerNode (path : list Z) (hash : Hash) : trieErr + list Z :=
  match Node path hash with
  | Some (b :: blob) => inr (b :: blob)
  | _ => inl (MissingNodeError hash path)
  end.

Definition resolveAndTrack (tr : tracer) (h prefix : list Z) : outcome (tracer * (trieErr + node)) :=
  match readerNode prefix (BytesToHash h) with
  | inl e => Done (tr, inl e)
  | inr blob => n ← mustDecodeNode (Some h) blob; Done (onRead tr prefix blob, inr n)
  end.

Definition resolve (tr : tracer) (n : node) (prefix : list Z) : outcome (tracer * (trieErr + node)) :=
  match n with HashNode h => resolveAndTrack tr h prefix | _ => Done (tr, inr n) end.

(** [get]: value, new node, whether something was loaded, error. *)
Fixpoint get (fuel : nat) (tr : tracer) (origNode : node) (key : list Z) (pos : nat) : outcome (tracer * (option (list Z) * node * bool * option trieErr)) :=
  match fuel with
  | O => Stuck
  | S fuel =>
      match origNode with
      | NilNode => Done (tr, (None, NilNode, false, None))
      | ValueNode v => Done (tr, (Some v, origNode, false, None))
      | ShortNode k val f =>
          if decide (length key - pos < length k \/ k <> take (length k) (drop pos key))%nat then Done (tr, (None, origNode, false, None))
          else
            '(tr, (value, newnode, didResolve, err)) ← get fuel tr val key (pos + length k);
            Done (tr, (value, if bool_decide (err = None) && didResolve then ShortNode k newnode f else origNode, didResolve, err))
      | FullNode cs f =>
          x ← index key (Z.of_nat pos);
          child ← index cs x;
          '(tr, (value, newnode, didResolve, err)) ← get fuel tr child key (S pos);
          Done (tr, (value, if bool_decide (err = None) && didResolve then FullNode (<[Z.to_nat x := newnode]> cs) f else origNode, didResolve, err))
      | HashNode h =>
          '(tr, r) ← resolveAndTrack tr h (take pos key);
          match r with
          | inl e => Done (tr, (None, origNode, true, Some e))
          | inr child =>
              '(tr, (value, newnode, _, err)) ← get fuel tr child key pos;
              Done (tr, (value, newnode, true, err))
          end
      end
  end.

(** [insert]: whether something changed, the new node, error. *)
Fixpoint insert (fuel : nat) (tr : tracer) (n : node) (prefix key : list Z) (value : node) : outcome (tracer * (bool * node * option trieErr)) :=
  match fuel with
  | O => Stuck
  | S fuel =>
      if decide (length key = 0%nat) then
        match n, value with
        | ValueNode v, ValueNode w => Done (tr, (negb (bool_decide (v = w)), value, None))
        | ValueNode v, _ => Panic
        | _, _ => Done (tr, (true, value, None))
        end
      else
        match n with
        | ShortNode k val f =>
            let matchlen := prefixLen key k in
            if decide (matchlen = length k) then
              '(tr, (changed, nn, err)) ← insert fuel tr val (prefix ++ take matchlen key) (drop matchlen key) value;
              if negb changed || negb (bool_decide (err = None)) then Done (tr, (false, n, err))
              else Done (tr, (true, ShortNode k nn newFlag, None))
            else
              x ← index k (Z.of_nat matchlen);
              '(tr, (_, c1, err)) ← insert fuel tr NilNode (prefix ++ take (S matchlen) k) (drop (S matchlen) k) val;
              if negb (bool_decide (err = None)) then Done (tr, (false, NilNode, err))
              else
                branch ← store (replicate 17 NilNode) x c1;
                y ← index key (Z.of_nat matchlen);
                '(tr, (_, c2, err)) ← insert fuel tr NilNode (prefix ++ take (S matchlen) key) (drop (S matchlen) key) value;
                if negb (bool_decide (err = None)) then Done (tr, (false, NilNode, err))
                else
                  branch ← store branch y c2;
                  if decide (matchlen = 0%nat) then Done (tr, (true, FullNode branch newFlag, None))
                  else Done (onInsert tr (prefix ++ take matchlen key), (true, ShortNode (take matchlen key) (FullNode branch newFlag) newFlag, None))
        | FullNode cs f =>
            x ← index key 0;
            child ← index cs x;
            '(tr, (changed, nn, err)) ← insert fuel tr child (prefix ++ [x]) (drop 1 key) value;
            if negb changed || negb (bool_decide (err = None)) then Done (tr, (false, n, err))
            else Done (tr, (true, FullNode (<[Z.to_nat x := nn]> cs) newFlag, None))
        | NilNode => Done (onInsert tr prefix, (true, ShortNode key value newFlag, None))
        | HashNode h =>
            '(tr, r) ← resolveAndTrack tr h prefix;
            match r with
            | inl e => Done (tr, (false, NilNode, Some e))
            | inr rn =>
                '(tr, (changed, nn, err)) ← insert fuel tr rn prefix key value;
                if negb changed || negb (bool_decide (err = None)) then Done (tr, (false, rn, err)) else Done (tr, (true, nn, None))
            end
        | ValueNode _ => Panic
        end
  end.

(** The index of the only child, -1 when there is none and -2 when there are
    more; [pos] is what was found among the children before [i]. *)
Fixpoint onlyChild (cs : list node) (i pos : Z) : Z :=
  match cs with
  | [] => pos
  | c :: cs => if isNil c then onlyChild cs (i + 1) pos else if decide (pos = -1) then onlyChild cs (i + 1) i else -2
  end.

(** The reduction of a full node that has lost a child. *)
Definition reduceFull (tr : tracer) (cs : list node) (prefix : list Z) : outcome (tracer * (bool * node * option trieErr)) :=
  let pos := onlyChild cs 0 (-1) in
  if decide (0 <= pos) then
    child ← index cs pos;
    if decide (pos <> 16) then
      '(tr, r) ← resolve tr child (prefix ++ [pos]);
      match r with
      | inl e => Done (tr, (false, NilNode, Some e))
      | inr (ShortNode k val _) => Done (onDelete tr (prefix ++ [pos]), (true, ShortNode (pos :: k) val newFlag, None))
      | inr _ => Done (tr, (true, ShortNode [pos] child newFlag, None))
      end
    else Done (tr, (true, ShortNode [pos] child newFlag, None))
  else Done (tr, (true, FullNode cs newFlag, None)).

(** [delete]: whether something changed, the new node, error. *)
Fixpoint delete (fuel : nat) (tr : tracer) (n : node) (prefix key : list Z) : outcome (tracer * (bool * node * option trieErr)) :=
  match fuel with
  | O => Stuck
  | S fuel =>
      match n with
      | ShortNode k val f =>
          let matchlen := prefixLen key k in
          if decide (matchlen < length k)%nat then Done (tr, (false, n, None))
          else if decide (matchlen = length key) then Done (onDelete tr prefix, (true, NilNode, None))
          else
            '(tr, (changed, child, err)) ← delete fuel tr val (prefix ++ take (length k) key) (drop (length k) key);
            if negb changed || negb (bool_decide (err = None)) then Done (tr, (false, n, err))
            else match child with
                 | ShortNode ck cval _ => Done (onDelete tr (prefix ++ k), (true, ShortNode (k ++ ck) cval newFlag, None))
                 | _ => Done (tr, (true, ShortNode k child newFlag, None))
                 end
      | FullNode cs f =>
          x ← index key 0;
          child ← index cs x;
          '(tr, (changed, nn, err)) ← delete fuel tr child (prefix ++ [x]) (drop 1 key);
          if negb changed || negb (bool_decide (err = None)) then Done (tr, (false, n, err))
          else
            let cs := <[Z.to_nat x := nn]> cs in
            if isNil nn then reduceFull tr cs prefix else Done (tr, (true, FullNode cs newFlag, None))
      | ValueNode _ => Done (tr, (true, NilNode, None))
      | NilNode => Done (tr, (false, NilNode, None))
      | HashNode h =>
          '(tr, r) ← resolveAndTrack tr h prefix;
          match r with
          | inl e => Done (tr, (false, NilNode, Some e))
          | inr rn =>
              '(tr, (changed, nn, err)) ← delete fuel tr rn prefix key;
              if negb changed || negb (bool_decide (err = None)) then Done (tr, (false, rn, err)) else Done (tr, (true, nn, None))
          end
      end
  end.

(** *** Operations *)

Record Trie := mkTrie { root : node; owner : Hash; committed : bool; unhashed : Z; ttracer : tracer }.

(** Two levels for each nibble. *)
Definition levels (key : list Z) : nat := 2 * length key + 2.

(** [New], for a root in the database or an empty trie; [emptyRoot] is
    [types.EmptyRootHash]. *)
Definition New (emptyRoot : Hash) (ownerHash rootHash : Hash) : outcome (trieErr + Trie) :=
  if decide (rootHash <> zeroHash /\ rootHash <> emptyRoot) then
    '(tr, r) ← resolveAndTrack newTracer rootHash [];
    Done match r with inl e => inl e | inr n => inr (mkTrie n ownerHash false 0 tr) end
  else Done (inr (mkTrie NilNode ownerHash false 0 newTracer)).

Definition Get (t : Trie) (key : list Z) : outcome (Trie * (option (list Z) * option trieErr)) :=
  if committed t then Done (t, (None, Some ErrCommitted))
  else
    let k := keybytesToHex key in
    '(tr, (value, newroot, didResolve, err)) ← get (levels k) (ttracer t) (root t) k 0;
    Done (mkTrie (if bool_decide (err = None) && didResolve then newroot else root t) (owner t) false (unhashed t) tr, (value, err)).

Definition Delete (t : Trie) (key : list Z) : outcome (Trie * option trieErr) :=
  if committed t then Done (t, Some ErrCommitted)
  else
    let k := keybytesToHex key in
    '(tr, (_, n, err)) ← delete (levels k) (ttracer t) (root t) [] k;
    Done (mkTrie (if bool_decide (err = None) then n else root t) (owner t) false (unhashed t + 1) tr, err).

Definition Update (t : Trie) (key value : list Z) : outcome (Trie * option trieErr) :=
  if committed t then Done (t, Some ErrCommitted)
  else if decide (length value <> 0%nat) then
    let k := keybytesToHex key in
    '(tr, (_, n, err)) ← insert (levels k) (ttracer t) (root t) [] k (ValueNode value);
    Done (mkTrie (if bool_decide (err = None) then n else root t) (owner t) false (unhashed t + 1) tr, err)
  else Delete t key.

End Trie.
