(* ===== verification/TrieSpec.v ===== *)
(** * What the trie holds

    The tree a trie stands for once all its nodes are loaded, its minimal form,
    and the proofs that [get], [insert] and [delete] of [trie/trie.go] read and
    change that tree and keep its form.  A tree in minimal form is determined by
    its contents, so that the order of the operations that built a trie leaves
    no trace in it. *)

From S2P Require Import Prelude Bytes RlpRaw TrieKeys Trie.

Local Open Scope Z_scope.

(** ** The tree a trie stands for *)

(** A trie with all nodes loaded, without flags. *)
Inductive tree := TNil | TValue (v : list Z) | TShort (k : list Z) (t : tree) | TFull (ts : list tree).

Fixpoint tget (t : tree) (key : list Z) : option (list Z) :=
  match t with
  | TNil => None
  | TValue v => if decide (key = []) then Some v else None
  | TShort k t => if decide (take (length k) key = k) then tget t (drop (length k) key) else None
  | TFull ts =>
      match key with
      | [] => None
      | x :: key => (fix go (ts : list tree) (i : nat) := match ts, i with
                                                         | [], _ => None
                                                         | t :: _, O => tget t key
                                                         | _ :: ts, S i => go ts i
                                                         end) ts (Z.to_nat x)
      end
  end.

Lemma tget_full ts x key : tget (TFull ts) (x :: key) = match ts !! Z.to_nat x with Some t => tget t key | None => None end.
Proof.
  cbn [tget]. generalize (Z.to_nat x) as i. induction ts as [|t ts IH]; intros [|i]; [done|done|done|]. apply IH.
Qed.

Lemma tget_short k t key : tget (TShort k t) (k ++ key) = tget t key.
Proof. cbn [tget]. rewrite take_app_length, drop_app_length. by rewrite decide_True. Qed.

Lemma tget_short_Some k t key v : tget (TShort k t) key = Some v -> exists r, key = k ++ r /\ tget t r = Some v.
Proof. cbn [tget]. case_decide as H; [|done]. intros Hv. exists (drop (length k) key). split; [|done]. rewrite <-H at 1. by rewrite take_drop. Qed.

(** What a trie in minimal form looks like below its root: a leaf, a common
    prefix of a branch, or a branch with two children. *)
Inductive twf : tree -> Prop :=
| twf_leaf ns v : Forall nibble ns -> v <> [] -> twf (TShort (ns ++ [16]) (TValue v))
| twf_ext k ts : k <> [] -> Forall nibble k -> twf (TFull ts) -> twf (TShort k (TFull ts))
| twf_full ts : length ts = 17%nat ->
    (forall i t, (i < 16)%nat -> ts !! i = Some t -> t <> TNil -> twf t) ->
    (forall t, ts !! 16%nat = Some t -> t <> TNil -> exists v, v <> [] /\ t = TValue v) ->
    (exists i j t t', i <> j /\ ts !! i = Some t /\ ts !! j = Some t' /\ t <> TNil /\ t' <> TNil) ->
    twf (TFull ts).

Definition rootWf (t : tree) : Prop := t <> TNil -> twf t.

Definition tree_nil_dec (t : tree) : Decision (t = TNil).
Proof. destruct t; [by left|by right..]. Defined.
#[export] Existing Instance tree_nil_dec.

(** *** Keys *)

Lemma hexKey_ne k : hexKey k -> k <> [].
Proof. intros (ns & _ & ->). by destruct ns. Qed.

(** A key begins with a nibble and goes on, or is the terminator. *)
Lemma hexKey_cons k : hexKey k -> (exists x k', k = x :: k' /\ nibble x /\ hexKey k') \/ k = [16].
Proof.
  intros (ns & Hn & ->). destruct ns as [|x ns]; [by right|]. left. apply Forall_cons in Hn as [Hx Hn]. exists x, (ns ++ [16]).
  split; [done|]. split; [done|]. by exists ns.
Qed.

Lemma hexKey_app ns k : Forall nibble ns -> hexKey k -> hexKey (ns ++ k).
Proof. intros Hn (ns' & Hn' & ->). exists (ns ++ ns'). rewrite (assoc_L (++)). split; [by apply Forall_app|done]. Qed.

Lemma hexKey_cons_inv x k : hexKey (x :: k) -> (nibble x /\ hexKey k) \/ (x = 16 /\ k = []).
Proof. intros [(y & k' & [= -> ->] & Hy & Hk)| [= -> ->] ]%hexKey_cons; [by left|by right]. Qed.

(** A key is not a proper beginning of another. *)
Lemma hexKey_prefix k r : hexKey k -> hexKey (k ++ r) -> r = [].
Proof.
  intros Hk. assert (H : forall n k r, (length k <= n)%nat -> hexKey k -> hexKey (k ++ r) -> r = []); [|by eapply H].
  clear. induction n as [|n IH]; intros k r Hl Hk Hkr; [destruct k; [by apply hexKey_ne in Hk|simpl in Hl; lia]|].
  destruct (hexKey_cons k Hk) as [(x & k' & -> & Hx & Hk')| ->].
  - apply (IH k'); [simpl in Hl; lia|done|]. apply hexKey_cons_inv in Hkr as [ [_ ?] | [-> _] ]; [done|]. unfold nibble in Hx. lia.
  - apply hexKey_cons_inv in Hkr as [ [? _] | [_ ->] ]; [|done]. unfold nibble in *. lia.
Qed.

Lemma prefixLen_spec a b : let m := prefixLen a b in
  take m a = take m b /\ (m <= length a)%nat /\ (m <= length b)%nat /\
  ((m < length a)%nat -> (m < length b)%nat -> a !! m <> b !! m).
Proof.
  revert b. induction a as [|x a IH]; intros [|y b]; cbn [prefixLen length]; [split_and!; [done|lia|lia|intros; lia]..|].
  case_decide as Hx; [subst y|split_and!; [done|lia|lia|cbn; congruence]].
  destruct (IH b) as (H1 & H2 & H3 & H4). cbn zeta in *. split_and!; [cbn [take]; by f_equal|lia|lia|]. intros Ha Hb. cbn. apply H4; lia.
Qed.

Lemma prefixLen_full a b : prefixLen a b = length b -> exists r, a = b ++ r.
Proof.
  intros Hp. destruct (prefixLen_spec a b) as (Ht & _). rewrite Hp, (take_ge b) in Ht by done. exists (drop (length b) a). rewrite <-Ht at 1. by rewrite take_drop.
Qed.

(** *** Contents *)

(** Every tree in minimal form holds something, and a branch holds keys that
    differ in their first nibble. *)
Lemma twf_has t : twf t -> exists k v, hexKey k /\ tget t k = Some v /\ v <> [].
Proof.
  induction 1 as [ns v Hn Hv|k ts Hk Hn Hts (k' & v & Hk' & Hg & Hv)|ts Hl Hc IH H16 (i & j & t & t' & Hij & Hi & Hj & Ht & Ht')].
  - exists (ns ++ [16]), v. split; [by exists ns|]. rewrite <-(app_nil_r (ns ++ [16])) at 2. by rewrite tget_short.
  - exists (k ++ k'), v. split; [by apply hexKey_app|]. by rewrite tget_short.
  - pose proof (lookup_lt_Some _ _ _ Hi) as Hi'. rewrite Hl in Hi'. destruct (decide (i = 16%nat)) as [->|].
    + destruct (H16 t Hi Ht) as (v & Hv & ->). exists [16], v. split; [by exists []|]. rewrite tget_full. change (Z.to_nat 16) with 16%nat. by rewrite Hi.
    + destruct (IH i t) as (k & v & Hk & Hg & Hv); [lia|done|done|]. exists (Z.of_nat i :: k), v.
      split; [apply (hexKey_app [Z.of_nat i]); [|done]; constructor; [unfold nibble; lia|done]|]. by rewrite tget_full, Nat2Z.id, Hi.
Qed.

(** *** What is known of the nodes

    [Flag b p t f]: the flags [f] may stand at the node of the tree [t] at path
    [p]; [b] says that a node above it has its hash.  [Ref p h t]: the
    reference [h] may stand at [p] for [t].  The operations only keep flags
    where the tree below stays the same, and set [newFlag] elsewhere. *)

Record Marks := {
  Flag : bool -> list Z -> tree -> nodeFlag -> Prop;
  Ref : list Z -> list Z -> tree -> Prop;
  Flag_new p t : Flag false p t newFlag;
  Flag_mono p t f : Flag true p t f -> Flag false p t f
}.

Definition below (b : bool) (f : nodeFlag) : bool := b || match fhash f with Some _ => true | None => false end.

(** *** Paths of nodes *)

Inductive nodeAt : tree -> list Z -> Prop :=
| at_short k t : nodeAt (TShort k t) []
| at_full ts : nodeAt (TFull ts) []
| at_below_short k t q : nodeAt t q -> nodeAt (TShort k t) (k ++ q)
| at_below_full ts i t q : ts !! i = Some t -> nodeAt t q -> nodeAt (TFull ts) (Z.of_nat i :: q).

(** What an operation below [p] that turns [t] into [t'] does to the deleted
    paths of the tracer: those it adds are no longer nodes, and where it makes
    a new node the path is not among them. *)
Record tracked (p : list Z) (tr tr' : tracer) (t t' : tree) : Prop := {
  trk_new d : d ∈ deletes tr' -> d ∈ deletes tr \/ exists q, d = p ++ q /\ ~ nodeAt t' q;
  trk_node q : p ++ q ∈ deletes tr' -> nodeAt t' q -> nodeAt t q
}.

Lemma tracked_sub p tr tr' t t' : (forall d, d ∈ deletes tr' -> d ∈ deletes tr) -> (forall q, p ++ q ∈ deletes tr' -> nodeAt t' q -> nodeAt t q) -> tracked p tr tr' t t'.
Proof. intros Hd Hn. split; [intros d ?%Hd; by left|done]. Qed.

Lemma tracked_same p tr tr' t : deletes tr' = deletes tr -> tracked p tr tr' t t.
Proof. intros Hd. split; [intros d; rewrite Hd; by left|done]. Qed.

Lemma tracked_trans p tr tr1 tr2 t u t' : tracked p tr tr1 t u -> tracked p tr1 tr2 u t' -> tracked p tr tr2 t t'.
Proof.
  intros [A1 A2] [B1 B2]. split.
  - intros d Hd. destruct (B1 d Hd) as [Hd1|?]; [|by right]. destruct (A1 d Hd1) as [?|(q & -> & Hq)]; [by left|right].
    exists q. split; [done|]. intros Hn. by apply Hq, B2.
  - intros q Hq Hn. destruct (B1 _ Hq) as [Hd1|(q' & Hq' & Hn')]; [by apply A2, B2|]. apply app_inv_head in Hq' as ->. done.
Qed.

Lemma nodeAt_short_inv k t q : nodeAt (TShort k t) q -> q = [] \/ exists q', q = k ++ q' /\ nodeAt t q'.
Proof. inversion 1; subst; [by left|right; by eexists]. Qed.

Lemma nodeAt_full_inv ts q : nodeAt (TFull ts) q -> q = [] \/ exists i t q', q = Z.of_nat i :: q' /\ ts !! i = Some t /\ nodeAt t q'.
Proof. inversion 1; subst; [by left|right; by eexists _, _, _]. Qed.

Lemma nodeAt_nil q : ~ nodeAt TNil q.
Proof. by inversion 1. Qed.

Lemma nodeAt_value v q : ~ nodeAt (TValue v) q.
Proof. by inversion 1. Qed.

Lemma tracked_short p k tr tr' t t' : k <> [] -> tracked (p ++ k) tr tr' t t' -> tracked p tr tr' (TShort k t) (TShort k t').
Proof.
  intros Hk [A1 A2]. split.
  - intros d Hd. destruct (A1 d Hd) as [?|(q & -> & Hq)]; [by left|right]. exists (k ++ q). split; [by rewrite (assoc_L (++))|].
    intros [Hn|(q' & He & Hn)]%nodeAt_short_inv; [by destruct k|]. by apply app_inv_head in He as <-.
  - intros q Hq [->|(q' & -> & Hn)]%nodeAt_short_inv; constructor. apply A2; [by rewrite <-(assoc_L (++))|done].
Qed.

Lemma tracked_full p x tr tr' ts t t' : 0 <= x -> ts !! Z.to_nat x = Some t -> tracked (p ++ [x]) tr tr' t t' ->
  tracked p tr tr' (TFull ts) (TFull (<[Z.to_nat x := t']> ts)).
Proof.
  intros Hx Ht [A1 A2]. pose proof (lookup_lt_Some _ _ _ Ht) as Hlt. split.
  - intros d Hd. destruct (A1 d Hd) as [?|(q & -> & Hq)]; [by left|right]. exists (x :: q). split; [by rewrite <-(assoc_L (++))|].
    intros [?|(i & u & q' & [= -> ->] & Hi & Hn)]%nodeAt_full_inv; [done|]. rewrite Nat2Z.id, list_lookup_insert_eq in Hi by (by rewrite Nat2Z.id in Hlt).
    by injection Hi as <-.
  - intros q Hq [->|(i & u & q' & -> & Hi & Hn)]%nodeAt_full_inv; [constructor|]. apply list_lookup_insert_Some in Hi as [(<- & <- & _)|[_ Hi]]; [|by econstructor].
    rewrite Z2Nat.id in Hq |- * by done. rewrite <-(Z2Nat.id x Hx) at 1. econstructor; [done|]. apply A2; [by rewrite <-(assoc_L (++))|done].
Qed.

Lemma onInsert_spec tr path d : d ∈ deletes (onInsert tr path) -> d ∈ deletes tr /\ d <> path.
Proof. unfold onInsert. case_decide; simpl; set_solver. Qed.

Lemma onDelete_spec tr path d : d ∈ deletes (onDelete tr path) -> d ∈ deletes tr \/ d = path.
Proof. unfold onDelete. case_decide; simpl; set_solver. Qed.

(** A short node below another one goes into it. *)
Lemma tracked_merge p tr k ck ct : ck <> [] -> k <> [] -> tracked p tr (onDelete tr (p ++ k)) (TShort k (TShort ck ct)) (TShort (k ++ ck) ct).
Proof.
  intros Hck Hk. split.
  - intros d [?| ->]%onDelete_spec; [by left|right]. exists k. split; [done|]. intros [?|(q & Hq & _)]%nodeAt_short_inv; [done|].
    rewrite <-(app_nil_r k) in Hq at 1. rewrite <-(assoc_L (++)) in Hq. apply app_inv_head in Hq. by destruct ck.
  - intros q _ [->|(q' & -> & Hn)]%nodeAt_short_inv; [constructor|]. rewrite <-(assoc_L (++)). by do 2 constructor.
Qed.

Section Loading.
Context (Node : list Z -> Hash -> option (list Z)) (M : Marks).

(** [loads b p n t]: the node [n] at path [p], with what the database holds
    below it, is the tree [t]. *)
Inductive loads : bool -> list Z -> node -> tree -> Prop :=
| loads_nil b p : loads b p NilNode TNil
| loads_value b p v : loads b p (ValueNode v) (TValue v)
| loads_short b p k n t f : Flag M b p (TShort k t) f -> loads (below b f) (p ++ k) n t -> loads b p (ShortNode k n f) (TShort k t)
| loads_full b p cs ts f : Flag M b p (TFull ts) f -> length cs = length ts ->
    (forall i c t, cs !! i = Some c -> ts !! i = Some t -> loads (below b f) (p ++ [Z.of_nat i]) c t) -> loads b p (FullNode cs f) (TFull ts)
| loads_hash b p h blob n t : Ref M p h t -> readerNode Node p (BytesToHash h) = inr blob -> mustDecodeNode (Some h) blob = Done n ->
    loads b p n t -> loads b p (HashNode h) t.

Lemma loads_mono b p n t : loads b p n t -> loads false p n t.
Proof.
  induction 1 as [| |b p k n t f Hf Hl IH|b p cs ts f Hf Hlen Hl IH|]; [constructor|constructor| | |by econstructor].
  - destruct b; [apply Flag_mono in Hf|by constructor]. constructor; [done|]. unfold below in *. simpl in *. by destruct (fhash f).
  - destruct b; [apply Flag_mono in Hf|by constructor]. constructor; [done|done|]. intros i c t Hc Ht. unfold below in *. simpl in *.
    destruct (fhash f); [by eapply Hl|by eapply IH].
Qed.

Lemma loads_new_short p k n t : loads false (p ++ k) n t -> loads false p (ShortNode k n newFlag) (TShort k t).
Proof. intros Hl. constructor; [apply Flag_new|done]. Qed.

(** What is loaded is a short or a full node. *)
Lemma decoded_cases h blob n : mustDecodeNode h blob = Done n ->
  (exists k v, n = ShortNode k v (mkFlag h false)) \/ (exists cs, n = FullNode cs (mkFlag h false)).
Proof.
  unfold mustDecodeNode, decodeNode. cbn [decodeNodeFuel]. case_decide; [done|].
  destruct (SplitList blob) as [[e|[elems rest]]| |]; cbn [liftErr nbind]; [done| |done|done].
  destruct (match CountValues elems with Done (inr c) => _ | _ => _ end) as [c| |]; cbn [mbind outcome_bind]; [|done..].
  case_decide; [|case_decide; [|done]].
  - unfold decodeShort. destruct (SplitString elems) as [[e|[kbuf rest']]| |]; cbn [liftErr nbind]; [done| |done|done].
    destruct (compactToHex kbuf) as [key| |]; cbn [mbind outcome_bind]; [|done..]. destruct (hasTerm key).
    + destruct (SplitString rest') as [[e|[val rest2]]| |]; cbn [liftErr nbind]; [done| |done|done]. intros [= <-]. left. by eexists _, _.
    + destruct (decodeRef _ rest') as [[e|[r rest2]]| |]; cbn [nbind]; [done| |done|done]. intros [= <-]. left. by eexists _, _.
  - unfold decodeFull. destruct (decodeChildren _ 16 elems) as [[e|[clds rest']]| |]; cbn [nbind]; [done| |done|done].
    destruct (SplitString rest') as [[e|[val rest2]]| |]; cbn [liftErr nbind]; [done| |done|done]. intros [= <-]. right. by eexists _.
Qed.

Lemma loads_nil_inv b p n : loads b p n TNil -> n = NilNode.
Proof.
  inversion 1 as [| | | |? ? ? ? ? ? _ _ Hd Hl]; subst; [done|]. exfalso. apply decoded_cases in Hd as [(? & ? & ->)|(? & ->)]; inversion Hl.
Qed.

Lemma loads_value_inv b p n v : loads b p n (TValue v) -> n = ValueNode v.
Proof.
  inversion 1 as [| | | |? ? ? ? ? ? _ _ Hd Hl]; subst; [done|]. exfalso. apply decoded_cases in Hd as [(? & ? & ->)|(? & ->)]; inversion Hl.
Qed.

Definition isHash (n : node) : bool := match n with HashNode _ => true | _ => false end.

(** How much fuel a node and a key need. *)
Definition need (n : node) (key : list Z) : nat := 2 * length key + (if isHash n then 2 else 1).

(** What may be below a node for the rest of a key: nothing is left of it
    behind the terminator. *)
Definition fits (t : tree) (r : list Z) : Prop :=
  (hexKey r /\ rootWf t) \/ (r = [] /\ (t <> TNil -> exists v, v <> [] /\ t = TValue v)).

Lemma hexKey_drop k r : Forall nibble k -> hexKey (k ++ r) -> hexKey r.
Proof.
  induction 1 as [|x k Hx Hk IH]; [done|]. intros Hr. apply hexKey_cons_inv in Hr as [[_ Hr]|[-> _]]; [by apply IH|]. unfold nibble in Hx. lia.
Qed.

Lemma fits_short k t r : twf (TShort k t) -> hexKey (k ++ r) -> fits t r.
Proof.
  inversion 1 as [ns v Hn Hv|k' ts Hk Hn Hts|]; subst; intros Hr.
  - right. split; [|intros _; by eexists]. apply (hexKey_prefix (ns ++ [16])); [by exists ns|done].
  - left. split; [by eapply hexKey_drop|]. by intros _.
Qed.

Lemma fits_full ts x r t : twf (TFull ts) -> hexKey (x :: r) -> ts !! Z.to_nat x = Some t -> fits t r.
Proof.
  inversion 1 as [| |? Hl Hc H16 _]; subst. intros [[Hx Hr]|[-> ->]]%hexKey_cons_inv Ht.
  - left. split; [done|]. intros Hne. unfold nibble in Hx. apply (Hc (Z.to_nat x)); [lia|done|done].
  - right. split; [done|]. intros Hne. by apply H16.
Qed.

(** The child of a branch for a key. *)
Lemma full_child ts x r : twf (TFull ts) -> hexKey (x :: r) -> 0 <= x /\ exists t, ts !! Z.to_nat x = Some t.
Proof.
  inversion 1 as [| |? Hl Hc H16 _]; subst. intros Hk. assert (0 <= x < 17) as Hx.
  { apply hexKey_cons_inv in Hk as [[Hx _]|[-> _]]; [unfold nibble in Hx|]; lia. }
  split; [lia|]. destruct (lookup_lt_is_Some_2 ts (Z.to_nat x)) as [t Ht]; [lia|by exists t].
Qed.

Lemma resolve_loads b tr p h t : loads b p (HashNode h) t ->
  exists tr' n, resolveAndTrack Node tr h p = Done (tr', inr n) /\ loads b p n t /\ isHash n = false /\ deletes tr' = deletes tr.
Proof.
  inversion 1 as [| | | |? ? ? blob n ? _ Hr Hd Hl]; subst. unfold resolveAndTrack. rewrite Hr, Hd. eexists _, n. split; [done|]. split; [done|].
  split; [|done]. by apply decoded_cases in Hd as [(? & ? & ->)|(? & ->)].
Qed.

(** The child of a branch for a key, in the trie and in the tree. *)
Lemma full_step b p cs f ts x r : loads b p (FullNode cs f) (TFull ts) -> twf (TFull ts) -> hexKey (x :: r) ->
  exists c t, index cs x = Done c /\ 0 <= x /\ ts !! Z.to_nat x = Some t /\ loads (below b f) (p ++ [x]) c t /\ fits t r.
Proof.
  intros Hl Hw Hk. inversion Hl as [| | |? ? ? ? ? _ Hlen Hc|]; subst. destruct (full_child ts x r Hw Hk) as (Hx & t & Ht).
  destruct (lookup_lt_is_Some_2 cs (Z.to_nat x)) as [c Hcx]; [rewrite Hlen; by eapply lookup_lt_Some|]. exists c, t.
  split; [by apply index_Done|]. split; [done|]. split; [done|]. split; [rewrite <-(Z2Nat.id x Hx); by eapply Hc|by eapply fits_full].
Qed.

Lemma loads_full_update b b' p cs f ts x n t f' : loads b p (FullNode cs f) (TFull ts) -> 0 <= x -> Flag M b' p (TFull (<[Z.to_nat x := t]> ts)) f' ->
  (forall p n t, loads (below b f) p n t -> loads (below b' f') p n t) -> loads (below b' f') (p ++ [x]) n t ->
  loads b' p (FullNode (<[Z.to_nat x := n]> cs) f') (TFull (<[Z.to_nat x := t]> ts)).
Proof.
  intros Hl Hx Hf Hb Hn. inversion Hl as [| | |? ? ? ? ? _ Hlen Hc|]; subst. constructor; [done|by rewrite !length_insert|]. intros i c u.
  rewrite !list_lookup_insert_Some. intros [(<- & <- & Hi)|[Hne Hi]] [(Hi' & <- & _)|[Hne' Hu]]; subst; try done.
  - by rewrite Z2Nat.id.
  - by eapply Hb, Hc.
Qed.

Lemma loads_full_set b p cs f ts x n t : loads b p (FullNode cs f) (TFull ts) -> 0 <= x -> ts !! Z.to_nat x = Some t -> loads (below b f) (p ++ [x]) n t ->
  loads b p (FullNode (<[Z.to_nat x := n]> cs) f) (TFull ts).
Proof.
  intros Hl Hx Ht Hn. rewrite <-(list_insert_id ts (Z.to_nat x) t Ht). eapply loads_full_update; [done|done| |done|done].
  rewrite list_insert_id by done. by inversion Hl.
Qed.

Lemma loads_full_insert p cs f ts x n t : loads false p (FullNode cs f) (TFull ts) -> 0 <= x -> loads false (p ++ [x]) n t ->
  loads false p (FullNode (<[Z.to_nat x := n]> cs) newFlag) (TFull (<[Z.to_nat x := t]> ts)).
Proof. intros Hl Hx Hn. eapply loads_full_update; [done|done|apply Flag_new|intros q m u; apply loads_mono|done]. Qed.

(** Reading a trie is reading the tree it stands for. *)
Lemma get_spec fuel : forall b tr n key pos t, loads b (take pos key) n t -> fits t (drop pos key) -> (pos <= length key)%nat ->
  (need n (drop pos key) <= fuel)%nat ->
  exists tr' n' d, get Node fuel tr n key pos = Done (tr', (tget t (drop pos key), n', d, None)) /\ loads b (take pos key) n' t /\ deletes tr' = deletes tr.
Proof.
  induction fuel as [|fuel IH]; intros b tr n key pos t Hl Hf Hp Hm; [unfold need in Hm; destruct (isHash n); lia|].
  unfold need in Hm. rewrite length_drop in Hm. set (r := drop pos key) in *.
  inversion Hl as [| |? p k c t1 f Hfl Hc|? p cs ts f Hfl Hlen Hc|? p h blob c t1 _ Hr Hd Hl']; subst; cbn [get].
  - eexists _, _, _. split; [done|by split; [constructor|]].
  - exists tr, (ValueNode v), false. split; [|by split; [constructor|]]. destruct Hf as [[_ Hw]|[-> _]]; [|done]. exfalso. by specialize (Hw ltac:(done)); inversion Hw.
  - destruct Hf as [[Hk Hw]|[_ Hw]]; [|by destruct Hw as (? & _ & ?)]. specialize (Hw ltac:(done)).
    case_decide as Hd.
    + exists tr, (ShortNode k c f), false. split; [|done]. cbn [tget]. rewrite decide_False; [done|]. intros Ht. destruct Hd as [Hd|Hd]; [|by apply Hd].
      apply (f_equal length) in Ht. rewrite length_take in Ht. unfold r in Ht. rewrite length_drop in Ht. lia.
    + assert (Hk' : take (length k) r = k) by (symmetry; apply dec_stable; intros Hn; apply Hd; by right).
      assert (Hle : (length k <= length key - pos)%nat) by (apply Nat.nlt_ge; intros Hn; apply Hd; by left). cbn [isHash] in Hm.
      assert (Hr : r = k ++ drop (length k) r) by (rewrite <-Hk' at 1; by rewrite take_drop).
      destruct (IH (below b f) tr c key (pos + length k)%nat t1) as (tr' & n' & d & Hg & Hln & Htr).
      * rewrite <-take_take_drop. fold r. by rewrite Hk'.
      * rewrite <-drop_drop. fold r. apply (fits_short k); [done|]. by rewrite <-Hr.
      * lia.
      * unfold need. rewrite length_drop. assert (length k <> 0%nat) by (inversion Hw; subst; rewrite ?length_app; simpl; [lia|by destruct k]). destruct (isHash c); lia.
      * rewrite Hg. cbn [mbind outcome_bind]. rewrite <-drop_drop. fold r. rewrite bool_decide_eq_true_2 by done. cbn [andb].
        eexists _, _, d. split; [cbn [tget]; by rewrite decide_True|]. split; [|done]. destruct d; [|done]. constructor; [done|]. rewrite <-take_take_drop in Hln. fold r in Hln. by rewrite Hk' in Hln.
  - destruct Hf as [[Hk Hw]|[_ Hw]]; [|by destruct Hw as (? & _ & ?)]. specialize (Hw ltac:(done)).
    destruct r as [|x r'] eqn:Hr; [by apply hexKey_ne in Hk|]. destruct (full_step _ _ _ _ _ x r' Hl Hw Hk) as (c & t1 & Hi & Hx & Ht1 & Hl1 & Hf1).
    assert (Hkx : key !! pos = Some x) by (rewrite <-(Nat.add_0_r pos), <-lookup_drop; fold r; by rewrite Hr).
    assert (Hr' : drop (S pos) key = r') by (rewrite <-Nat.add_1_r, <-drop_drop; fold r; by rewrite Hr).
    rewrite (index_nat key pos x Hkx). cbn [mbind outcome_bind]. rewrite Hi. cbn [mbind outcome_bind]. pose proof (lookup_lt_Some _ _ _ Hkx) as Hlt.
    destruct (IH (below b f) tr c key (S pos) t1) as (tr' & n' & d & Hg & Hln & Htr); [by rewrite (take_S_r _ _ _ Hkx)|by rewrite Hr'|lia| |].
    { unfold need. rewrite length_drop. cbn [isHash] in Hm. destruct (isHash c); lia. }
    rewrite Hg. cbn [mbind outcome_bind]. rewrite Hr', bool_decide_eq_true_2 by done. cbn [andb]. rewrite tget_full, Ht1.
    eexists _, _, d. split; [done|]. split; [|done]. destruct d; [|done]. rewrite (take_S_r _ _ _ Hkx) in Hln.
    by eapply loads_full_set.
  - destruct (resolve_loads b tr (take pos key) h t Hl) as (tr1 & n1 & -> & Hl1 & Hh & Htr1). cbn [mbind outcome_bind].
    destruct (IH b tr1 n1 key pos t) as (tr' & n' & d & Hg & Hln & Htr); [done|done|done|unfold need; rewrite Hh, length_drop; cbn [isHash] in Hm; lia|].
    rewrite Hg. cbn [mbind outcome_bind]. eexists _, _, _. split; [done|]. split; [done|congruence].
Qed.

(** *** Insertion *)

Definition keyLike (key k : list Z) : Prop := (hexKey key /\ hexKey k) \/ (key = [] /\ k = []).

Lemma fits_cases t key : fits t key -> (hexKey key /\ rootWf t /\ forall k, keyLike key k -> hexKey k) \/ (key = [] /\ forall k, keyLike key k -> k = []).
Proof.
  intros [[Hk Hw]|[-> _]]; [left|right].
  - split_and!; [done|done|]. intros k [[_ ?]|[-> _]]; [done|by apply hexKey_ne in Hk].
  - split; [done|]. by intros k [[?%hexKey_ne _]|[_ ?]].
Qed.

(** [t'] is [t] with the value under the key. *)
Record inserted (key v : list Z) (t t' : tree) : Prop := {
  ins_some : t' <> TNil;
  ins_fits : fits t' key;
  ins_full ts : t = TFull ts -> exists ts', t' = TFull ts';
  ins_get k : keyLike key k -> tget t' k = if decide (k = key) then Some v else tget t k
}.

(** A value or a subtree put under what is left of a key. *)
Definition graft (key : list Z) (n : node) : node := match key with [] => n | _ => ShortNode key n newFlag end.
Definition tgraft (key : list Z) (t : tree) : tree := match key with [] => t | _ => TShort key t end.

Lemma loads_graft p key n t : loads false (p ++ key) n t -> loads false p (graft key n) (tgraft key t).
Proof. destruct key; [by rewrite app_nil_r|]. apply loads_new_short. Qed.

Lemma tget_graft key t k : tget (tgraft key t) k = tget (TShort key t) k.
Proof. destruct key; [|done]. cbn [tgraft tget length take drop]. by rewrite drop_0. Qed.

Lemma tget_short_app a b t k : tget (TShort (a ++ b) t) k = tget (TShort a (TShort b t)) k.
Proof.
  cbn [tget]. rewrite length_app, <-take_take_drop, <-drop_drop. destruct (decide (take (length a) k = a)) as [Ha|Ha].
  - rewrite Ha. destruct (decide (take (length b) (drop (length a) k) = b)) as [Hb|Hb]; [by rewrite decide_True by (by rewrite Hb)|].
    rewrite decide_False; [done|]. by intros ?%app_inv_head.
  - rewrite decide_False; [done|]. intros H. apply Ha. apply (f_equal (take (length a))) in H. rewrite take_app_length in H.
    destruct (decide (length a <= length k)%nat) as [Hle|Hle].
    + by rewrite take_app_le, take_take, Nat.min_id in H by (rewrite length_take; lia).
    + rewrite (take_ge k) in H by lia. rewrite (drop_ge k), take_nil, app_nil_r in H by lia. apply (f_equal length) in H. rewrite length_take in H. lia.
Qed.

Lemma tget_leaf k v key : tget (TShort k (TValue v)) key = if decide (key = k) then Some v else None.
Proof.
  cbn [tget]. destruct (decide (key = k)) as [->|Hne].
  - by rewrite take_ge, decide_True, drop_ge by done.
  - case_decide as Hk; [|done]. rewrite decide_False; [done|]. intros Hd. apply Hne. rewrite <-(take_drop (length k) key), Hk, Hd. by rewrite app_nil_r.
Qed.

Lemma hexKey_split c y r : hexKey (c ++ y :: r) -> Forall nibble c /\ hexKey (y :: r).
Proof.
  induction c as [|x c IH]; [done|]. cbn [app]. intros Hk. apply hexKey_cons_inv in Hk as [[Hx Hk]|[_ Hk]]; [|by destruct c].
  apply IH in Hk as [Hc Hr]. split; [by constructor|done].
Qed.

(** Where the key leaves a short node. *)
Lemma short_split k t key : twf (TShort k t) -> hexKey key -> prefixLen key k <> length k ->
  exists c x y r1 r2, k = c ++ x :: r1 /\ key = c ++ y :: r2 /\ x <> y /\ prefixLen key k = length c.
Proof.
  intros Hw Hk Hm. destruct (prefixLen_spec key k) as (Ht & H1 & H2 & H3). cbn zeta in *. set (m := prefixLen key k) in *.
  assert (m < length k)%nat as Hmk by lia. destruct (lookup_lt_is_Some_2 k m Hmk) as [x Hx].
  destruct (decide (m = length key)) as [He|He].
  - exfalso. rewrite He, (take_ge key) in Ht by done. assert (Hpre : k = key ++ drop (length key) k) by (rewrite Ht at 1; by rewrite take_drop).
    assert (Hd : drop (length key) k <> []) by (intros Hn; apply (f_equal length) in Hn; rewrite length_drop in Hn; simpl in Hn; lia).
    apply Hd. inversion Hw as [ns v Hns Hv|k' ts Hk' Hns Hts|]; subst.
    + apply (hexKey_prefix key); [done|]. rewrite <-Hpre. by exists ns.
    + exfalso. rewrite Hpre in Hns. apply Forall_app in Hns as [Hns _]. destruct Hk as (ns & _ & ->). apply Forall_app in Hns as [_ [H16 _]%Forall_cons].
      unfold nibble in H16. lia.
  - assert (m < length key)%nat as Hmkey by lia. destruct (lookup_lt_is_Some_2 key m Hmkey) as [y Hy].
    exists (take m key), x, y, (drop (S m) k), (drop (S m) key). rewrite Ht at 1. split; [symmetry; by apply take_drop_middle|].
    split; [symmetry; by apply take_drop_middle|]. split; [specialize (H3 Hmkey Hmk); congruence|]. rewrite length_take. lia.
Qed.

(** A short node cut behind a nibble. *)
Lemma twf_graft c x r t : twf (TShort (c ++ x :: r) t) ->
  (nibble x /\ twf (tgraft r t)) \/ (x = 16 /\ exists v, v <> [] /\ tgraft r t = TValue v).
Proof.
  inversion 1 as [ns v Hn Hv Hns|k ts Hk Hn Hts|]; subst.
  - assert (Hkey : hexKey (c ++ x :: r)) by (rewrite <-Hns; by exists ns). apply hexKey_split in Hkey as [_ Hkey].
    apply hexKey_cons_inv in Hkey as [[Hx (ns' & Hn' & ->)]|[-> ->]]; [left|right; split; [done|by exists v]].
    split; [done|]. destruct ns'; by apply (twf_leaf (_ : list Z)) || apply (twf_leaf []).
  - left. apply Forall_app in Hn as [_ [Hx Hr]%Forall_cons]. split; [done|]. destruct r; [done|]. by constructor.
Qed.

Definition branchOf {A} (nil : A) (x y : Z) (c1 c2 : A) : list A := <[Z.to_nat y := c2]> (<[Z.to_nat x := c1]> (replicate 17 nil)).

Definition edge (x : Z) (t : tree) : Prop := (nibble x /\ twf t) \/ (x = 16 /\ exists v, v <> [] /\ t = TValue v).

Lemma edge_bound x t : edge x t -> 0 <= x < 17 /\ t <> TNil.
Proof. intros [[Hx Hw]|[-> (v & _ & ->)]]; [unfold nibble in Hx|]; (split; [lia|]); [by intros ->; inversion Hw|done]. Qed.

Lemma branchOf_lookup {A} (nil : A) x y c1 c2 i : 0 <= x < 17 -> 0 <= y < 17 -> (i < 17)%nat ->
  branchOf nil x y c1 c2 !! i = Some (if decide (i = Z.to_nat y) then c2 else if decide (i = Z.to_nat x) then c1 else nil).
Proof.
  intros Hx Hy Hi. unfold branchOf. destruct (decide (i = Z.to_nat y)) as [->|Hiy].
  - rewrite list_lookup_insert_eq by (rewrite length_insert, length_replicate; lia). done.
  - rewrite list_lookup_insert_ne by done. destruct (decide (i = Z.to_nat x)) as [->|Hix].
    + by rewrite list_lookup_insert_eq by (rewrite length_replicate; lia).
    + rewrite list_lookup_insert_ne by done. by apply lookup_replicate_2.
Qed.

Lemma branch_wf x y t1 t2 : x <> y -> edge x t1 -> edge y t2 -> twf (TFull (branchOf TNil x y t1 t2)).
Proof.
  intros Hne He1 He2. destruct (edge_bound x t1 He1) as [Hx Hn1], (edge_bound y t2 He2) as [Hy Hn2].
  assert (HL : forall i, (i < 17)%nat -> _) by (intros i Hi; exact (branchOf_lookup TNil x y t1 t2 i Hx Hy Hi)).
  constructor.
  - unfold branchOf. by rewrite !length_insert, length_replicate.
  - intros i t Hi. rewrite HL by lia. intros [= <-]. repeat case_decide; subst; intros Hn; try done.
    + destruct He2 as [[_ ?]|[-> _]]; [done|]. simpl in Hi. lia.
    + destruct He1 as [[_ ?]|[-> _]]; [done|]. simpl in Hi. lia.
  - intros t. rewrite HL by lia. intros [= <-]. repeat case_decide; intros Hn; try done.
    + destruct He2 as [[Hb _]|[_ ?]]; [|done]. unfold nibble in Hb. lia.
    + destruct He1 as [[Hb _]|[_ ?]]; [|done]. unfold nibble in Hb. lia.
  - exists (Z.to_nat x), (Z.to_nat y), t1, t2. split; [lia|]. rewrite !HL by lia. rewrite decide_False, !decide_True by lia. done.
Qed.

Lemma tget_branch x y t1 t2 z k : 0 <= x < 17 -> 0 <= y < 17 -> 0 <= z < 17 ->
  tget (TFull (branchOf TNil x y t1 t2)) (z :: k) = if decide (z = y) then tget t2 k else if decide (z = x) then tget t1 k else None.
Proof.
  intros Hx Hy Hz. rewrite tget_full, branchOf_lookup by lia.
  destruct (decide (z = y)) as [->|]; [by rewrite decide_True|]. rewrite decide_False by lia.
  destruct (decide (z = x)) as [->|]; [by rewrite decide_True|]. by rewrite decide_False by lia.
Qed.

Lemma hexKey_bound z k : hexKey (z :: k) -> 0 <= z < 17.
Proof. intros [[Hz _]|[-> _]]%hexKey_cons_inv; [unfold nibble in Hz|]; lia. Qed.

(** A short node that becomes a branch. *)
Lemma inserted_branch c x y r1 r2 t1 v : twf (TShort (c ++ x :: r1) t1) -> hexKey (c ++ y :: r2) -> x <> y -> v <> [] ->
  inserted (c ++ y :: r2) v (TShort (c ++ x :: r1) t1) (tgraft c (TFull (branchOf TNil x y (tgraft r1 t1) (tgraft r2 (TValue v))))).
Proof.
  intros Hw Hk Hne Hv. pose proof (hexKey_split c y r2 Hk) as [Hc Hk2].
  pose proof (twf_graft c x r1 t1 Hw) as He1. assert (He2 : edge y (tgraft r2 (TValue v))).
  { apply (twf_graft c). destruct Hk as (ns & Hn & ->). by constructor. }
  pose proof (branch_wf x y _ _ Hne He1 He2) as Hb. set (b := TFull _) in *.
  assert (Hw' : twf (tgraft c b)) by (destruct c; [done|by constructor]). split.
  - intros Hn. rewrite Hn in Hw'. inversion Hw'.
  - left. split; [done|]. by intros _.
  - done.
  - intros k [[_ Hkk]|[Hn _]]; [|by destruct c]. rewrite tget_graft, tget_short_app. cbn [tget]. destruct (decide (take (length c) k = c)) as [Hp|Hp].
    + rewrite <-(take_drop (length c) k), Hp in Hkk |- *. set (k' := drop (length c) k) in *. apply hexKey_drop in Hkk; [|done].
      destruct k' as [|z k']; [by apply hexKey_ne in Hkk|]. pose proof (hexKey_bound z k' Hkk) as Hz.
      destruct (edge_bound _ _ He1) as [Hx _], (edge_bound _ _ He2) as [Hy _].
      fold (tget (TShort (x :: r1) t1) (z :: k')). unfold b. rewrite drop_app_length, tget_branch, !tget_graft, tget_leaf by done.
      destruct (decide (z = y)) as [->|Hzy].
      * destruct (decide (k' = r2)) as [->|Hr2]; [by rewrite decide_True|].
        rewrite (decide_False (P := c ++ y :: k' = _)) by (intros ?%app_inv_head; congruence). rewrite decide_False; [done|]. cbn [length take]. congruence.
      * rewrite (decide_False (P := c ++ z :: k' = _)) by (intros ?%app_inv_head; congruence). cbn [length take drop].
        destruct (decide (z = x)) as [->|Hzx]; [|by rewrite decide_False by congruence]. cbn [tget].
        destruct (decide (take (length r1) k' = r1)) as [Hr|Hr]; [by rewrite decide_True by (by rewrite Hr)|by rewrite decide_False by congruence].
    + rewrite decide_False; [done|]. intros ->. apply Hp. by rewrite take_app_length.
Qed.

Lemma inserted_short k r v t t' : twf (TShort k t) -> hexKey (k ++ r) -> inserted r v t t' -> inserted (k ++ r) v (TShort k t) (TShort k t').
Proof.
  intros Hw Hk [H1 H2 H3 H4]. split; [done| |done|].
  - left. split; [done|]. intros _. inversion Hw as [ns w Hn Hv|k' ts Hk' Hn Hts|]; subst.
    + assert (r = []) as -> by (apply (hexKey_prefix (ns ++ [16])); [by exists ns|done]).
      destruct H2 as [[?%hexKey_ne _]|[_ H2]]; [done|]. destruct (H2 H1) as (w' & Hw' & ->). by constructor.
    + destruct (H3 ts eq_refl) as [ts' ->]. constructor; [done|done|]. destruct H2 as [[_ H2]|[_ H2]]; [by apply H2|by destruct (H2 H1) as (? & _ & ?)].
  - intros k2 [[_ Hk2]|[Hn _]]; [|exfalso; apply app_eq_nil in Hn as [-> ->]; by apply hexKey_ne in Hk]. cbn [tget].
    destruct (decide (take (length k) k2 = k)) as [Hp|Hp]; [|rewrite decide_False; [done|]; intros ->; apply Hp; by rewrite take_app_length].
    rewrite <-(take_drop (length k) k2), Hp in Hk2 |- *. set (r2 := drop (length k) k2) in *. rewrite drop_app_length, H4.
    + destruct (decide (r2 = r)) as [->|Hr]; [by rewrite decide_True|]. rewrite decide_False; [done|]. by intros ?%app_inv_head.
    + destruct (fits_short _ _ _ Hw Hk2) as [[Hr2 _]|[Hr2 _]], (fits_short _ _ _ Hw Hk) as [[Hr _]|[Hr _]].
      * by left.
      * exfalso. rewrite Hr, app_nil_r in Hk. apply (hexKey_prefix k) in Hk2; [|done]. rewrite Hk2 in Hr2. by apply hexKey_ne in Hr2.
      * exfalso. rewrite Hr2, app_nil_r in Hk2. apply (hexKey_prefix k) in Hk; [|done]. rewrite Hk in Hr. by apply hexKey_ne in Hr.
      * by right.
Qed.

(** A branch with another child. *)
Lemma full_update_wf ts x r t : twf (TFull ts) -> hexKey (x :: r) -> fits t r -> t <> TNil -> twf (TFull (<[Z.to_nat x := t]> ts)).
Proof.
  intros Hw Hk Hf Hn. inversion Hw as [| |? Hl Hc H16 (i & j & ti & tj & Hij & Hi & Hj & Hni & Hnj)]; subst. pose proof (hexKey_bound x r Hk) as Hx.
  assert (HL : forall i u, <[Z.to_nat x := t]> ts !! i = Some u -> (i = Z.to_nat x /\ u = t) \/ (i <> Z.to_nat x /\ ts !! i = Some u))
    by (intros i0 u; rewrite list_lookup_insert_Some; naive_solver).
  assert (HS : forall i u, ts !! i = Some u -> u <> TNil -> exists u', <[Z.to_nat x := t]> ts !! i = Some u' /\ u' <> TNil).
  { intros i0 u Hu Hnu. destruct (decide (i0 = Z.to_nat x)) as [->|]; [exists t; by rewrite list_lookup_insert_eq by (rewrite Hl; lia)|].
    exists u. by rewrite list_lookup_insert_ne. }
  apply hexKey_cons_inv in Hk. constructor; [by rewrite length_insert| | |].
  - intros i0 u Hi0 Hu Hnu. apply HL in Hu as [[-> ->]|[_ Hu]]; [|by eapply Hc]. destruct Hf as [[_ Hf]|[-> _]]; [by apply Hf|].
    destruct Hk as [[_ ?%hexKey_ne]|[-> _]]; [done|]. simpl in Hi0. lia.
  - intros u Hu Hnu. apply HL in Hu as [[Hx' ->]|[_ Hu]]; [|by apply H16]. destruct Hf as [[Hr _]|[_ Hf]]; [|by apply Hf].
    destruct Hk as [[Hb _]|[_ ->]]; [unfold nibble in Hb; lia|by apply hexKey_ne in Hr].
  - destruct (HS i ti Hi Hni) as (ui & ? & ?), (HS j tj Hj Hnj) as (uj & ? & ?). by exists i, j, ui, uj.
Qed.

Lemma tget_full_update ts x t z k : 0 <= x -> 0 <= z -> (Z.to_nat x < length ts)%nat ->
  tget (TFull (<[Z.to_nat x := t]> ts)) (z :: k) = if decide (z = x) then tget t k else tget (TFull ts) (z :: k).
Proof.
  intros Hx Hz Hl. rewrite !tget_full. destruct (decide (z = x)) as [->|]; [by rewrite list_lookup_insert_eq|]. by rewrite list_lookup_insert_ne by lia.
Qed.

Lemma keyLike_tail x r z k : hexKey (x :: r) -> hexKey (z :: k) -> z = x -> keyLike r k.
Proof.
  intros Hk Hk2 ->. apply hexKey_cons_inv in Hk as [[Hx Hk]|[-> ->]], Hk2 as [[Hx2 Hk2]|[Hx2 ->]].
  - by left.
  - subst. unfold nibble in Hx. lia.
  - unfold nibble in Hx2. lia.
  - by right.
Qed.

Lemma inserted_full ts x r v t t' : twf (TFull ts) -> hexKey (x :: r) -> ts !! Z.to_nat x = Some t -> inserted r v t t' ->
  inserted (x :: r) v (TFull ts) (TFull (<[Z.to_nat x := t']> ts)).
Proof.
  intros Hw Hk Ht [H1 H2 _ H4]. pose proof (hexKey_bound x r Hk) as Hx. split; [done| |by eexists|].
  - left. split; [done|]. intros _. by eapply full_update_wf.
  - intros k [[_ Hk2]|[? _]]; [|done]. destruct k as [|z k]; [by apply hexKey_ne in Hk2|]. pose proof (hexKey_bound z k Hk2) as Hz.
    rewrite tget_full_update by (done || by eapply lookup_lt_Some || lia). destruct (decide (z = x)) as [->|Hzx].
    + rewrite H4 by (by eapply keyLike_tail). rewrite tget_full, Ht. repeat case_decide; congruence.
    + rewrite decide_False by congruence. done.
Qed.

Definition insertsTo (prefix key v : list Z) (t : tree) (tr : tracer) (o : outcome (tracer * (bool * node * option trieErr))) : Prop :=
  exists tr' ch n t', o = Done (tr', (ch, n, None)) /\ loads false prefix n t' /\ inserted key v t t' /\ tracked prefix tr tr' t t' /\ (ch = false -> t' = t).

Lemma insert_at_value fuel tr n prefix t v : loads false prefix n t -> fits t [] -> v <> [] ->
  insertsTo prefix [] v t tr (insert Node (S fuel) tr n prefix [] (ValueNode v)).
Proof.
  intros Hl Hf Hv. destruct Hf as [[?%hexKey_ne _]|[_ Ht]]; [done|]. cbn [insert length]. rewrite decide_True by done.
  assert (HI : inserted [] v t (TValue v)).
  { split; [done|right; split; [done|]; intros _; by exists v| |].
    - intros ts ->. by destruct (Ht ltac:(done)) as (? & _ & ?).
    - intros k [[?%hexKey_ne _]|[_ ->]]; done. }
  assert (HT : tracked prefix tr tr t (TValue v)) by (by apply tracked_sub; [|intros q _ ?%nodeAt_value]).
  destruct (tree_nil_dec t) as [->|Hn]; [apply loads_nil_inv in Hl as ->|destruct (Ht Hn) as (w & Hw & ->); apply loads_value_inv in Hl as ->];
    eexists _, _, _, (TValue v); (split; [done|]); (split; [constructor|]); (split; [done|]); (split; [done|]); [done|].
  intros Hb. apply negb_false_iff, bool_decide_eq_true in Hb. by rewrite Hb.
Qed.

(** The tracer after an insertion where there was nothing. *)
Definition grafted (tr : tracer) (prefix key : list Z) : tracer := match key with [] => tr | _ => onInsert tr prefix end.

Lemma insert_nil fuel tr prefix key n : fuel <> 0%nat -> insert Node fuel tr NilNode prefix key n = Done (grafted tr prefix key, (true, graft key n, None)).
Proof. destruct fuel as [|fuel]; [done|]. intros _. cbn [insert]. by destruct key. Qed.

Lemma grafted_spec tr prefix key d : d ∈ deletes (grafted tr prefix key) -> d ∈ deletes tr /\ (key <> [] -> d <> prefix).
Proof. destruct key; [done|]. intros [? ?]%onInsert_spec. done. Qed.

Lemma nodeAt_graft key t q : nodeAt (tgraft key t) q -> (q = [] /\ key <> []) \/ exists q', q = key ++ q' /\ nodeAt t q'.
Proof. destruct key; [right; by exists q|]. intros [->|?]%nodeAt_short_inv; [by left|by right]. Qed.

(** Where the key leaves a short node, the paths of the new nodes go from the
    deleted ones. *)
Lemma tracked_branch p tr c x y r1 r2 t v : 0 <= x < 17 -> 0 <= y < 17 ->
  tracked p tr (grafted (grafted (grafted tr (p ++ c ++ [x]) r1) (p ++ c ++ [y]) r2) (p ++ c) c) (TShort (c ++ x :: r1) t)
    (tgraft c (TFull (branchOf TNil x y (tgraft r1 t) (tgraft r2 (TValue v))))).
Proof.
  intros Hx Hy. set (tr1 := grafted tr _ r1). set (tr2 := grafted tr1 _ r2). split.
  { intros d [[[? _]%grafted_spec _]%grafted_spec _]%grafted_spec. by left. }
  intros q [[[Hq H1]%grafted_spec H2]%grafted_spec H3]%grafted_spec [[-> _]|(q1 & -> & Hn)]%nodeAt_graft; [constructor|].
  apply nodeAt_full_inv in Hn as [->|(i & u & q2 & -> & Hi & Hn)].
  { rewrite app_nil_r in *. destruct c as [|z c]; [constructor|]. by destruct H3. }
  assert (Hlt : (i < 17)%nat) by (apply lookup_lt_Some in Hi; unfold branchOf in Hi; by rewrite !length_insert, length_replicate in Hi).
  rewrite branchOf_lookup in Hi by done. injection Hi as <-. repeat case_decide; subst; [| |by apply nodeAt_nil in Hn].
  - apply nodeAt_graft in Hn as [[-> Hr]|(q' & _ & Hn)]; [|by apply nodeAt_value in Hn]. rewrite Z2Nat.id in H2 by lia. by destruct (H2 Hr).
  - rewrite Z2Nat.id in * by lia. apply nodeAt_graft in Hn as [[-> Hr]|(q' & -> & Hn)]; [by destruct (H1 Hr)|].
    rewrite app_comm_cons, (assoc_L (++)). by constructor.
Qed.

(** The key leaves the short node. *)
Lemma insert_branch fuel tr prefix c x y r1 r2 n t f v : fuel <> 0%nat ->
  loads false prefix (ShortNode (c ++ x :: r1) n f) (TShort (c ++ x :: r1) t) -> twf (TShort (c ++ x :: r1) t) -> hexKey (c ++ y :: r2) -> x <> y -> v <> [] ->
  prefixLen (c ++ y :: r2) (c ++ x :: r1) = length c ->
  insertsTo prefix (c ++ y :: r2) v (TShort (c ++ x :: r1) t) tr (insert Node (S fuel) tr (ShortNode (c ++ x :: r1) n f) prefix (c ++ y :: r2) (ValueNode v)).
Proof.
  intros Hfu Hl Hw Hk Hne Hv Hp. inversion Hl as [| |? ? ? ? ? ? _ Hn| |]; subst. apply loads_mono in Hn.
  pose proof (inserted_branch c x y r1 r2 t v Hw Hk Hne Hv) as HI.
  cbn [insert]. rewrite Hp, (decide_False (P := length (c ++ y :: r2) = 0%nat)) by (rewrite length_app; simpl; lia).
  rewrite decide_False by (rewrite length_app; simpl; lia). rewrite (index_nat (c ++ x :: r1) (length c) x) by (by apply list_lookup_middle). cbn [mbind outcome_bind].
  rewrite (index_nat (c ++ y :: r2) (length c) y) by (by apply list_lookup_middle).
  assert (HD : forall z r, take (S (length c)) (c ++ z :: r) = c ++ [z] /\ drop (S (length c)) (c ++ z :: r) = r).
  { intros z r. rewrite cons_middle, (assoc_L (++)). split; [apply take_app_length'|apply drop_app_length']; rewrite length_app; simpl; lia. }
  destruct (HD x r1) as [-> ->], (HD y r2) as [-> ->]. rewrite take_app_length.
  rewrite insert_nil by done. cbn [mbind outcome_bind]. rewrite bool_decide_eq_true_2 by done. cbn [negb].
  pose proof (twf_graft c x r1 t Hw) as He1. assert (He2 : edge y (tgraft r2 (TValue v))) by (apply (twf_graft c); destruct Hk as (ns & Hn' & ->); by constructor).
  destruct (edge_bound _ _ He1) as [Hx _], (edge_bound _ _ He2) as [Hy _].
  rewrite store_Done by (rewrite length_replicate; lia). cbn [mbind outcome_bind].
  rewrite insert_nil by done. cbn [mbind outcome_bind]. rewrite bool_decide_eq_true_2 by done. cbn [negb].
  rewrite store_Done by (rewrite length_insert, length_replicate; lia). cbn [mbind outcome_bind].
  fold (branchOf NilNode x y (graft r1 n) (graft r2 (ValueNode v))). set (b := branchOf NilNode _ _ _ _).
  assert (Hb : loads false (prefix ++ c) (FullNode b newFlag) (TFull (branchOf TNil x y (tgraft r1 t) (tgraft r2 (TValue v))))).
  { constructor; [apply Flag_new|unfold b, branchOf; by rewrite !length_insert, !length_replicate|]. intros i ci ti Hci.
    assert (Hi : (i < 17)%nat) by (apply lookup_lt_Some in Hci; unfold b, branchOf in Hci; by rewrite !length_insert, length_replicate in Hci).
    revert Hci. unfold b. rewrite !branchOf_lookup by done. intros [= <-] [= <-]. repeat case_decide; subst; [|..|constructor].
    - apply loads_graft. constructor.
    - apply loads_graft. rewrite Z2Nat.id by lia. by rewrite <-!(assoc_L (++)). }
  pose proof (tracked_branch prefix tr c x y r1 r2 t v Hx Hy) as HT. destruct c as [|z c]; cbn [length].
  - rewrite app_nil_r in Hb. eexists _, _, _, _. split; [done|]. by split.
  - eexists _, _, _, _. split; [done|]. split; [by apply loads_new_short|]. by split.
Qed.

(** Inserting into a trie is inserting into the tree it stands for. *)
Lemma insert_spec fuel : forall tr n prefix key t v, loads false prefix n t -> fits t key -> v <> [] -> (need n key <= fuel)%nat ->
  insertsTo prefix key v t tr (insert Node fuel tr n prefix key (ValueNode v)).
Proof.
  induction fuel as [|fuel IH]; intros tr n prefix key t v Hl Hf Hv Hm; [unfold need in Hm; destruct (isHash n); lia|].
  destruct (fits_cases t key Hf) as [(Hk & Hw & HK)|[-> HK]]; [|by apply insert_at_value].
  assert (Hlk : length key <> 0%nat) by (destruct key; [by apply hexKey_ne in Hk|done]). unfold need in Hm.
  inversion Hl as [| |? p k c t1 f Hfl Hc|? p cs ts f Hfl Hlen Hc|? p h blob c t1 _ Hr Hd Hl']; subst; cbn [isHash] in Hm.
  - rewrite insert_nil by done. eexists _, true, _, (tgraft key (TValue v)). split; [done|].
    split; [apply loads_graft; constructor|]. destruct Hk as (ns & Hn & ->). assert (Hg : tgraft (ns ++ [16]) (TValue v) = TShort (ns ++ [16]) (TValue v)) by (by destruct ns).
    rewrite Hg. split; [|split; [|done]].
    + split; [done|left; split; [by exists ns|intros _; by constructor]|done|]. intros k _. apply tget_leaf.
    + apply tracked_sub; [by intros d [? _]%grafted_spec|]. intros q [_ Hq]%grafted_spec [->|(q' & _ & ?%nodeAt_value)]%nodeAt_short_inv; [|done].
      exfalso. apply Hq; [by destruct ns|by rewrite app_nil_r].
  - exfalso. specialize (Hw ltac:(done)). inversion Hw.
  - specialize (Hw ltac:(done)). destruct (decide (prefixLen key k = length k)) as [Hp|Hp].
    + destruct (prefixLen_full key k Hp) as [r ->]. rewrite length_app in Hm.
      assert (Hk0 : k <> []) by (inversion Hw; subst; [by destruct ns|done]). assert (length k <> 0%nat) by (by destruct k).
      destruct (IH tr c (prefix ++ k) r t1 v) as (tr' & ch & n' & t' & Hi & Hl' & HI & HT & Hch); [by eapply loads_mono|by eapply fits_short|done|unfold need; destruct (isHash c); lia|].
      cbn [insert]. rewrite decide_False by done. cbn zeta. rewrite Hp, decide_True, take_app_length, drop_app_length, Hi by done. cbn [mbind outcome_bind].
      rewrite bool_decide_eq_true_2 by done. pose proof (inserted_short k r v t1 t' Hw Hk HI) as HI'. pose proof (tracked_short _ _ _ _ _ _ Hk0 HT) as HT'.
      destruct ch; cbn [negb orb]; [eexists _, _, _, (TShort k t'); split; [done|]; split; [by apply loads_new_short|by split]|].
      rewrite (Hch eq_refl) in HI', HT'. by eexists _, _, _, _.
    + destruct (short_split k t1 key Hw Hk Hp) as (c0 & x & y & r1 & r2 & -> & -> & Hne & Hpl). apply insert_branch; [lia|done..].
  - specialize (Hw ltac:(done)). destruct key as [|x r]; [done|]. destruct (full_step _ _ _ _ _ x r Hl Hw Hk) as (c & t1 & Hix & Hx & Ht1 & Hl1 & Hf1).
    destruct (IH tr c (prefix ++ [x]) r t1 v) as (tr' & ch & n' & t' & Hi & Hl' & HI & HT & Hch); [by eapply loads_mono|done|done|unfold need; simpl in Hm; destruct (isHash c); lia|].
    cbn [insert]. rewrite decide_False by done. rewrite index_0. cbn [mbind outcome_bind]. rewrite Hix. cbn [mbind outcome_bind]. change (drop 1 (x :: r)) with (drop 0 r).
    rewrite drop_0, Hi. cbn [mbind outcome_bind]. rewrite bool_decide_eq_true_2 by done. pose proof (inserted_full ts x r v t1 t' Hw Hk Ht1 HI) as HI'.
    pose proof (tracked_full _ _ _ _ _ _ _ Hx Ht1 HT) as HT'.
    destruct ch; cbn [negb orb]; [eexists _, _, _, (TFull _); split; [done|]; split; [by eapply loads_full_insert|by split]|].
    rewrite (Hch eq_refl), list_insert_id in HI', HT' by done. by eexists _, _, _, _.
  - destruct (resolve_loads false tr prefix h t Hl) as (tr1 & n1 & Hres & Hl1 & Hh & Htr1).
    destruct (IH tr1 n1 prefix key t v) as (tr' & ch & n' & t' & Hi & Hl2 & HI & HT & Hch); [done|done|done|unfold need; rewrite Hh; lia|].
    cbn [insert]. rewrite decide_False, Hres by done. cbn [mbind outcome_bind]. rewrite Hi. cbn [mbind outcome_bind]. rewrite bool_decide_eq_true_2 by done.
    assert (HT' : tracked prefix tr tr' t t') by (eapply tracked_trans; [by apply tracked_same|done]).
    destruct ch; cbn [negb orb]; [by eexists _, _, _, _|]. rewrite (Hch eq_refl) in HI, HT'. by eexists _, _, _, _.
Qed.

(** *** Deletion *)

(** [t'] is [t] without the key. *)
Record removed (key : list Z) (t t' : tree) : Prop := {
  rem_fits : fits t' key;
  rem_full ts : t = TFull ts -> t' <> TNil;
  rem_get k : keyLike key k -> tget t' k = if decide (k = key) then None else tget t k
}.

(** A tree under a longer path; two short nodes become one. *)
Definition tprepend (k : list Z) (t : tree) : tree := match t with TShort ck ct => TShort (k ++ ck) ct | _ => TShort k t end.

Lemma tget_prepend k t key : tget (tprepend k t) key = tget (TShort k t) key.
Proof. destruct t; [done..| |done]. apply tget_short_app. Qed.

Lemma twf_prepend k t : k <> [] -> Forall nibble k -> twf t -> twf (tprepend k t).
Proof.
  intros Hk Hn Hw. destruct Hw as [ns v Hns Hv|ck ts Hck Hcn Hts|ts Hl Hc H16 H2]; cbn [tprepend].
  - rewrite (assoc_L (++)). constructor; [by apply Forall_app|done].
  - constructor; [by destruct k|by apply Forall_app|done].
  - constructor; [done|done|by constructor].
Qed.

Lemma loads_prepend p k n t : loads false (p ++ k) n t -> isHash n = false ->
  loads false p (match n with ShortNode ck cval _ => ShortNode (k ++ ck) cval newFlag | _ => ShortNode k n newFlag end) (tprepend k t).
Proof.
  intros Hl Hh. inversion Hl as [| |? ? ck cv ct cf Hf Hc| |]; subst; [by apply loads_new_short..| |by apply loads_new_short|done].
  apply loads_mono in Hc. apply loads_new_short. by rewrite (assoc_L (++)).
Qed.

(** The path of a short node that goes into the one above it is deleted. *)
Definition prepended (tr : tracer) (path : list Z) (t : tree) : tracer := match t with TShort _ _ => onDelete tr path | _ => tr end.

Lemma tracked_prepend p tr k t : k <> [] -> twf t -> tracked p tr (prepended tr (p ++ k) t) (TShort k t) (tprepend k t).
Proof.
  intros Hk Hw. destruct Hw as [ns v Hn Hv|ck ts Hck Hcn Hts|ts Hl Hc H16 H2]; [by apply tracked_merge; [destruct ns|]|by apply tracked_merge|by apply tracked_same].
Qed.

Lemma fits_nil key : hexKey key -> fits TNil key.
Proof. intros Hk. left. split; [done|]. by intros []. Qed.

Lemma removed_leaf ns v : Forall nibble ns -> removed (ns ++ [16]) (TShort (ns ++ [16]) (TValue v)) TNil.
Proof.
  intros Hn. split; [apply fits_nil; by exists ns|done|]. intros k _. rewrite tget_leaf. by case_decide.
Qed.

Lemma keyLike_drop k r r2 : Forall nibble k -> hexKey (k ++ r) -> hexKey (k ++ r2) -> keyLike r r2.
Proof. intros Hn ?%hexKey_drop ?%hexKey_drop; [by left|done..]. Qed.

Lemma removed_short k r ts t' : twf (TShort k (TFull ts)) -> hexKey (k ++ r) -> removed r (TFull ts) t' ->
  removed (k ++ r) (TShort k (TFull ts)) (tprepend k t').
Proof.
  inversion 1 as [|? ? Hne Hn Hts|]; subst. intros Hk [H1 H2 H3]. split; [left; split; [done|]|done|].
  - intros _. apply twf_prepend; [done..|]. destruct H1 as [[_ Hw]|[-> _]]; [by eapply Hw, H2|].
    rewrite app_nil_r in Hk. destruct Hk as (ns & _ & ->). apply Forall_app in Hn as [_ [H16 _]%Forall_cons]. unfold nibble in H16. lia.
  - intros k2 [[_ Hk2]|[Hnil _]]; [|by destruct k]. rewrite tget_prepend. cbn [tget]. destruct (decide (take (length k) k2 = k)) as [Hp|Hp].
    + rewrite <-(take_drop (length k) k2), Hp in Hk2 |- *. set (r2 := drop (length k) k2) in *. rewrite drop_app_length, H3 by (by eapply keyLike_drop).
      destruct (decide (r2 = r)) as [->|Hr]; [by rewrite decide_True|]. rewrite decide_False; [done|]. by intros ?%app_inv_head.
    + by case_decide.
Qed.

Lemma removed_full ts x r t t' u : twf (TFull ts) -> hexKey (x :: r) -> ts !! Z.to_nat x = Some t -> removed r t t' -> twf u ->
  (forall z k, hexKey (z :: k) -> tget u (z :: k) = tget (TFull (<[Z.to_nat x := t']> ts)) (z :: k)) -> removed (x :: r) (TFull ts) u.
Proof.
  intros Hw Hk Ht [_ _ H3] Hu Hg. pose proof (hexKey_bound x r Hk) as Hx. split; [left; split; [done|by intros _]|intros _ _ ->; inversion Hu|].
  intros k [[_ Hk2]|[? _]]; [|done]. destruct k as [|z k]; [by apply hexKey_ne in Hk2|]. pose proof (hexKey_bound z k Hk2) as Hz.
  rewrite Hg, tget_full_update by (done || by eapply lookup_lt_Some || lia). destruct (decide (z = x)) as [->|Hzx].
  - rewrite H3 by (by eapply keyLike_tail). rewrite tget_full, Ht. repeat case_decide; congruence.
  - by rewrite decide_False by congruence.
Qed.

(** *** The only child of a branch *)

Lemma onlyChild_found cs : forall i pos, 0 <= pos ->
  (onlyChild cs i pos = pos /\ Forall (fun c => isNil c = true) cs) \/ (onlyChild cs i pos = -2 /\ exists j c, cs !! j = Some c /\ isNil c = false).
Proof.
  induction cs as [|c cs IH]; intros i pos Hp; cbn [onlyChild]; [by left|]. destruct (isNil c) eqn:Hc.
  - destruct (IH (i + 1) pos Hp) as [[-> Ha]|[-> (j & d & Hj & Hd)]]; [left; split; [done|by constructor]|right; split; [done|by exists (S j), d]].
  - rewrite decide_False by lia. right. split; [done|]. by exists 0%nat, c.
Qed.

Definition onlyAt (cs : list node) (j : nat) : Prop :=
  (exists c, cs !! j = Some c /\ isNil c = false) /\ forall j' c, cs !! j' = Some c -> j' <> j -> isNil c = true.

Lemma onlyChild_spec cs : forall i, 0 <= i ->
  (onlyChild cs i (-1) = -1 /\ Forall (fun c => isNil c = true) cs) \/
  (exists j, onlyChild cs i (-1) = i + Z.of_nat j /\ onlyAt cs j) \/
  (onlyChild cs i (-1) = -2 /\ exists j j' c c', j <> j' /\ cs !! j = Some c /\ cs !! j' = Some c' /\ isNil c = false /\ isNil c' = false).
Proof.
  induction cs as [|c cs IH]; intros i Hi; cbn [onlyChild]; [by left|]. destruct (isNil c) eqn:Hc.
  - destruct (IH (i + 1)) as [[-> Ha]|[(j & -> & (d & Hd & Hn) & Hj)|[-> (j & j' & d & d' & Hne & Hd)]]]; [lia|left; split; [done|by constructor]|right; left|right; right].
    + exists (S j). split; [lia|]. split; [by exists d|]. intros [|j'] d'; cbn; [by intros [= <-]|]. intros Hd' Hj'. apply (Hj j' d' Hd'). congruence.
    + split; [done|]. exists (S j), (S j'), d, d'. split; [congruence|done].
  - rewrite decide_True by done. destruct (onlyChild_found cs (i + 1) i Hi) as [[-> Ha]|[-> (j & d & Hj & Hd)]]; [right; left|right; right].
    + exists 0%nat. split; [lia|]. split; [by exists c|]. intros [|j'] d Hd Hne; [done|]. by eapply Forall_lookup_1 in Ha.
    + split; [done|]. by exists 0%nat, (S j), c, d.
Qed.
Lemma loads_isNil b p n t : loads b p n t -> isNil n = true <-> t = TNil.
Proof.
  intros Hl. split; [destruct n; [inversion Hl; by subst|done..]|]. intros ->. apply loads_nil_inv in Hl as ->. done.
Qed.

(** What a branch with two children has when one of them goes. *)
Definition childrenOk (ts : list tree) : Prop :=
  length ts = 17%nat /\ (forall i t, ts !! i = Some t -> t <> TNil -> edge (Z.of_nat i) t) /\ (exists i t, ts !! i = Some t /\ t <> TNil).

Lemma twf_edge ts i t : twf (TFull ts) -> ts !! i = Some t -> t <> TNil -> edge (Z.of_nat i) t.
Proof.
  inversion 1 as [| |? Hl Hc H16 _]; subst. intros Hi Hn. pose proof (lookup_lt_Some _ _ _ Hi) as Hi'. rewrite Hl in Hi'.
  destruct (decide (i = 16%nat)) as [->|]; [right; split; [done|by apply H16]|]. left. split; [unfold nibble; lia|]. apply (Hc i); [lia|done|done].
Qed.

Lemma childrenOk_removed ts x : twf (TFull ts) -> childrenOk (<[x := TNil]> ts).
Proof.
  intros Hw. split_and!; [inversion Hw; by rewrite length_insert| |].
  - intros i t Ht Hn. apply list_lookup_insert_Some in Ht as [(_ & <- & _)|[_ Ht]]; [done|]. by eapply twf_edge.
  - inversion Hw as [| |? _ _ _ (i & j & ti & tj & Hij & Hi & Hj & Hni & Hnj)]; subst.
    destruct (decide (i = x)) as [->|]; [exists j, tj|exists i, ti]; by rewrite list_lookup_insert_ne.
Qed.

Lemma childrenOk_two ts i j t t' : childrenOk ts -> i <> j -> ts !! i = Some t -> ts !! j = Some t' -> t <> TNil -> t' <> TNil -> twf (TFull ts).
Proof.
  intros (Hl & He & _) Hij Hi Hj Ht Ht'. constructor; [done| | |by exists i, j, t, t'].
  - intros k u Hk Hu Hn. destruct (He k u Hu Hn) as [[_ ?]|[? _]]; [done|lia].
  - intros u Hu Hn. destruct (He _ u Hu Hn) as [[Hb _]|[_ ?]]; [unfold nibble in Hb; lia|done].
Qed.

(** A branch with one child is that child behind its nibble. *)
Lemma tget_only ts j t z k : length ts = 17%nat -> ts !! j = Some t -> (forall j' u, ts !! j' = Some u -> j' <> j -> u = TNil) -> 0 <= z < 17 ->
  tget (TShort [Z.of_nat j] t) (z :: k) = tget (TFull ts) (z :: k).
Proof.
  intros Hl Hj Ho Hz. rewrite tget_full. cbn [tget length take drop]. rewrite drop_0. destruct (decide (z = Z.of_nat j)) as [->|Hne].
  - by rewrite Nat2Z.id, Hj, decide_True.
  - rewrite decide_False by congruence. destruct (ts !! Z.to_nat z) as [u|] eqn:Hu; [|done]. by rewrite (Ho _ u Hu) by lia.
Qed.

Lemma twf_only j t : edge (Z.of_nat j) t -> twf (tprepend [Z.of_nat j] t).
Proof. intros [[Hx Hw]|[-> (v & Hv & ->)]]; [apply twf_prepend; [done|by constructor|done]|by apply (twf_leaf [])]. Qed.

Lemma loads_child p cs f ts i c : loads false p (FullNode cs f) (TFull ts) -> cs !! i = Some c -> exists t, ts !! i = Some t /\ loads false (p ++ [Z.of_nat i]) c t.
Proof.
  intros Hl Hi. inversion Hl as [| | |? ? ? ? ? _ Hlen Hc|]; subst. destruct (lookup_lt_is_Some_2 ts i) as [t Ht]; [rewrite <-Hlen; by eapply lookup_lt_Some|].
  exists t. split; [done|by eapply loads_mono, Hc].
Qed.

(** A branch with one child has the paths of that child. *)
Lemma tracked_only p tr ts j t : ts !! j = Some t -> tracked p tr tr (TFull ts) (TShort [Z.of_nat j] t).
Proof.
  intros Hj. apply tracked_sub; [done|]. intros q _ [->|(q' & -> & Hn)]%nodeAt_short_inv; [constructor|]. by econstructor.
Qed.

(** The only child, whether it is loaded or not. *)
Lemma reduceFull_only tr p cs f ts j c t : loads false p (FullNode cs f) (TFull ts) -> onlyChild cs 0 (-1) = Z.of_nat j -> cs !! j = Some c -> ts !! j = Some t ->
  loads false (p ++ [Z.of_nat j]) c t -> edge (Z.of_nat j) t ->
  exists tr' n', reduceFull Node tr cs p = Done (tr', (true, n', None)) /\ loads false p n' (tprepend [Z.of_nat j] t) /\ isHash n' = false /\
    tracked p tr tr' (TFull ts) (tprepend [Z.of_nat j] t).
Proof.
  intros Hl Ho Hc Ht Hlc He. unfold reduceFull. rewrite Ho. cbn zeta. rewrite decide_True by lia. rewrite (index_nat _ _ _ Hc). cbn [mbind outcome_bind].
  destruct He as [[Hb Hw]|[H16 (v & _ & ->)]].
  - rewrite decide_True by (unfold nibble in Hb; lia).
    assert (HR : exists tr1 n1, resolve Node tr c (p ++ [Z.of_nat j]) = Done (tr1, inr n1) /\ loads false (p ++ [Z.of_nat j]) n1 t /\ isHash n1 = false /\ deletes tr1 = deletes tr).
    { destruct (isHash c) eqn:Hh; [destruct c; try done; by apply resolve_loads|]. exists tr, c. split; [by destruct c|done]. }
    destruct HR as (tr1 & n1 & -> & Hl1 & Hh1 & Htr1). cbn [mbind outcome_bind]. pose proof (loads_prepend p [Z.of_nat j] n1 t Hl1 Hh1) as HP.
    assert (HT : tracked p tr (prepended tr1 (p ++ [Z.of_nat j]) t) (TFull ts) (tprepend [Z.of_nat j] t)).
    { eapply tracked_trans; [by apply (tracked_same p tr tr1)|]. eapply tracked_trans; [by apply (tracked_only p tr1 ts j t)|by apply tracked_prepend]. }
    destruct Hw as [ns v Hn Hv|k us Hk Hn Hus|us Hlen Hcs Hv16 H2]; inversion Hl1; subst; try done; eexists _, _; (split; [done|]); (split; [|done]); [done|done|by apply loads_new_short].
  - rewrite decide_False by lia. eexists _, _. split; [done|]. split; [by apply loads_new_short|]. split; [done|by apply tracked_only].
Qed.

Lemma reduceFull_spec tr p cs f ts : loads false p (FullNode cs f) (TFull ts) -> childrenOk ts ->
  exists tr' n' t', reduceFull Node tr cs p = Done (tr', (true, n', None)) /\ loads false p n' t' /\ isHash n' = false /\ twf t' /\ tracked p tr tr' (TFull ts) t' /\
    forall z k, hexKey (z :: k) -> tget t' (z :: k) = tget (TFull ts) (z :: k).
Proof.
  intros Hl HC. pose proof HC as (Hlen & He & (i0 & t0 & Hi0 & Ht0)).
  assert (HN : forall j c, cs !! j = Some c -> exists t, ts !! j = Some t /\ loads false (p ++ [Z.of_nat j]) c t /\ (isNil c = true <-> t = TNil)).
  { intros j c Hc. destruct (loads_child _ _ _ _ _ _ Hl Hc) as (t & Ht & Hlt). exists t. split; [done|]. split; [done|by eapply loads_isNil]. }
  assert (HS : forall j t, ts !! j = Some t -> exists c, cs !! j = Some c).
  { intros j t Hj. inversion Hl as [| | |? ? ? ? ? _ Hl' _|]; subst. apply lookup_lt_is_Some_2. rewrite Hl'. by eapply lookup_lt_Some. }
  destruct (onlyChild_spec cs 0) as [[_ Ha]|[(j & Hp & (c & Hc & Hn) & Ho)|[Hp (j & j' & c & c' & Hne & Hc & Hc' & Hn & Hn')]]]; [done|..].
  - exfalso. destruct (HS i0 t0 Hi0) as [c0 Hc0]. destruct (HN _ _ Hc0) as (t & Ht & _ & Hiff). apply Ht0. assert (t0 = t) as -> by congruence.
    apply Hiff. by eapply (Forall_lookup_1 _ _ _ _ Ha).
  - destruct (HN _ _ Hc) as (t & Ht & Hlt & Hiff). assert (Htn : t <> TNil) by (intros Hx; apply Hiff in Hx; congruence).
    destruct (reduceFull_only tr p cs f ts j c t Hl Hp Hc Ht Hlt (He _ _ Ht Htn)) as (tr' & n' & Hr & Hl' & Hh & HT).
    exists tr', n', (tprepend [Z.of_nat j] t). split_and!; [done|done|done|by apply twf_only, He|done|].
    intros z k Hk. rewrite tget_prepend. apply (tget_only ts); [done|done| |by eapply hexKey_bound]. intros j' u Hu Hj'. destruct (HS j' u Hu) as [d Hd].
    destruct (HN _ _ Hd) as (u' & Hu' & _ & Hiff'). assert (u = u') as -> by congruence. by eapply Hiff', Ho.
  - destruct (HN _ _ Hc) as (t & Ht & _ & Hiff), (HN _ _ Hc') as (t' & Ht' & _ & Hiff'). unfold reduceFull. rewrite Hp. cbn zeta. rewrite decide_False by lia.
    eexists _, _, (TFull ts). split; [done|]. split.
    { inversion Hl as [| | |? ? ? ? ? _ Hl' Hcc|]; subst. constructor; [apply Flag_new|done|]. intros i d u Hd Hu. by eapply loads_mono, Hcc. }
    split; [done|]. split; [|split; [by apply tracked_same|done]].
    apply (childrenOk_two ts j j' t t'); [done..|intros Hx; apply Hiff in Hx; congruence|intros Hx; apply Hiff' in Hx; congruence].
Qed.

Definition deletesTo (prefix key : list Z) (t : tree) (tr : tracer) (o : outcome (tracer * (bool * node * option trieErr))) : Prop :=
  exists tr' ch n t', o = Done (tr', (ch, n, None)) /\ loads false prefix n t' /\ removed key t t' /\ tracked prefix tr tr' t t' /\
    (ch = false -> t' = t) /\ (ch = true -> isHash n = false).

Lemma removed_absent key t : fits t key -> tget t key = None -> removed key t t.
Proof. intros Hf Hg. split; [done|by intros ts -> |]. intros k _. case_decide; [by subst|done]. Qed.

(** Below a short node there is a branch, unless the key ends there. *)
Lemma short_below k t r : twf (TShort k t) -> hexKey (k ++ r) -> (r = [] /\ exists ns v, k = ns ++ [16] /\ Forall nibble ns /\ t = TValue v) \/ (hexKey r /\ k <> [] /\ exists ts, t = TFull ts).
Proof.
  inversion 1 as [ns v Hn Hv|k' ts Hk Hn Hts|]; subst; intros Hr; [left|right].
  - split; [apply (hexKey_prefix (ns ++ [16])); [by exists ns|done]|]. by exists ns, v.
  - split; [by eapply hexKey_drop|]. split; [done|by exists ts].
Qed.

Lemma delete_short fuel tr k c f prefix key t1 :
  (forall tr n prefix key t, loads false prefix n t -> fits t key -> (need n key <= fuel)%nat -> deletesTo prefix key t tr (delete Node fuel tr n prefix key)) ->
  loads false prefix (ShortNode k c f) (TShort k t1) -> twf (TShort k t1) -> hexKey key -> (need (ShortNode k c f) key <= S fuel)%nat ->
  deletesTo prefix key (TShort k t1) tr (delete Node (S fuel) tr (ShortNode k c f) prefix key).
Proof.
  intros IH Hl Hw Hk Hm. inversion Hl as [| |? ? ? ? ? ? _ Hc| |]; subst. apply loads_mono in Hc. cbn [delete]. cbn zeta.
  destruct (prefixLen_spec key k) as (_ & _ & Hle & _). case_decide as Hlt.
  - eexists _, _, _, _. split; [done|]. split; [done|]. split; [|split; [by apply tracked_same|done]]. apply removed_absent; [left; split; [done|by intros _]|].
    cbn [tget]. rewrite decide_False; [done|]. intros Hp. destruct (short_split k t1 key Hw Hk) as (c0 & x & y & r1 & r2 & -> & -> & Hne & _); [lia|].
    rewrite !length_app, take_app_add' in Hp by done. apply app_inv_head in Hp. simpl in Hp. congruence.
  - assert (Hp : prefixLen key k = length k) by lia. rewrite Hp. destruct (prefixLen_full key k Hp) as [r ->]. rewrite take_app_length, drop_app_length, length_app.
    destruct (short_below k t1 r Hw Hk) as [(-> & ns & v & -> & Hn & ->)|(Hr & Hk0 & ts & ->)].
    + rewrite decide_True by (simpl; lia). eexists _, true, NilNode, TNil. split; [done|]. split; [constructor|]. rewrite app_nil_r. split; [by apply removed_leaf|]. split; [|done].
      split; [|intros q _ Hq; by apply nodeAt_nil in Hq]. intros d [?| ->]%onDelete_spec; [by left|right]. exists []. split; [by rewrite app_nil_r|apply nodeAt_nil].
    + rewrite decide_False by (destruct r; [by apply hexKey_ne in Hr|simpl; lia]). unfold need in Hm. rewrite length_app in Hm. cbn [isHash] in Hm.
      assert (length k <> 0%nat) by (by destruct k).
      destruct (IH tr c (prefix ++ k) r (TFull ts)) as (tr' & ch & n' & t' & -> & Hl' & HR & HT & Hch & Hh); [done|by eapply fits_short|unfold need; destruct (isHash c); lia|].
      cbn [mbind outcome_bind]. rewrite bool_decide_eq_true_2 by done. pose proof (removed_short k r ts t' Hw Hk HR) as HR'.
      pose proof (tracked_short _ _ _ _ _ _ Hk0 HT) as HT'.
      destruct ch; cbn [negb orb].
      * pose proof (loads_prepend prefix k n' t' Hl' (Hh eq_refl)) as HP.
        assert (Hwt : twf t') by (destruct HR as [[[_ Hf]|[-> _]] Hfu _]; [by eapply Hf, Hfu|by apply hexKey_ne in Hr]).
        pose proof (tracked_trans _ _ _ _ _ _ _ HT' (tracked_prepend prefix tr' k t' Hk0 Hwt)) as HT2.
        inversion Hl'; subst; try (by specialize (Hh eq_refl)); eexists _, _, _, _; by split.
      * rewrite (Hch eq_refl) in HR', HT'. by eexists _, _, _, _.
Qed.

Lemma delete_full fuel tr cs f prefix key ts :
  (forall tr n prefix key t, loads false prefix n t -> fits t key -> (need n key <= fuel)%nat -> deletesTo prefix key t tr (delete Node fuel tr n prefix key)) ->
  loads false prefix (FullNode cs f) (TFull ts) -> twf (TFull ts) -> hexKey key -> (need (FullNode cs f) key <= S fuel)%nat ->
  deletesTo prefix key (TFull ts) tr (delete Node (S fuel) tr (FullNode cs f) prefix key).
Proof.
  intros IH Hl Hw Hk Hm. destruct key as [|x r]; [by apply hexKey_ne in Hk|]. destruct (full_step _ _ _ _ _ x r Hl Hw Hk) as (c & t1 & Hix & Hx & Ht1 & Hl1 & Hf1).
  destruct (IH tr c (prefix ++ [x]) r t1) as (tr' & ch & n' & t' & Hd & Hl' & HR & HT & Hch & _); [by eapply loads_mono|done|unfold need in *; simpl in Hm; destruct (isHash c); lia|].
  cbn [delete]. rewrite index_0. cbn [mbind outcome_bind]. rewrite Hix. cbn [mbind outcome_bind]. change (drop 1 (x :: r)) with (drop 0 r).
  rewrite drop_0, Hd. cbn [mbind outcome_bind]. rewrite bool_decide_eq_true_2 by done. pose proof (removed_full ts x r t1 t') as HF.
  pose proof (tracked_full _ _ _ _ _ _ _ Hx Ht1 HT) as HT'.
  destruct ch; cbn [negb orb].
  - pose proof (loads_full_insert prefix cs f ts x n' t' Hl Hx Hl') as Hli. cbn zeta. destruct (isNil n') eqn:Hn.
    + apply (loads_isNil _ _ _ _ Hl') in Hn as ->. destruct (reduceFull_spec tr' prefix _ _ _ Hli) as (tr2 & n2 & t2 & -> & Hl2 & Hh2 & Hw2 & HT2 & Hg2); [by apply childrenOk_removed|].
      eexists _, _, _, t2. split; [done|]. split; [done|]. split; [by apply HF|]. split; [by eapply tracked_trans|done].
    + assert (Ht' : t' <> TNil) by (intros Hx'; apply (loads_isNil _ _ _ _ Hl') in Hx'; congruence).
      eexists _, _, _, _. split; [done|]. split; [done|]. split; [|split; [done|done]]. apply HF; [done..| |done]. eapply full_update_wf; [done..|apply HR|done].
  - rewrite (Hch eq_refl) in HF, HR, HT'. rewrite list_insert_id in HF, HT' by done. eexists _, _, _, (TFull ts). split; [done|]. split; [done|]. split; [by apply HF|]. done.
Qed.

(** Deleting from a trie is deleting from the tree it stands for. *)
Lemma delete_spec fuel : forall tr n prefix key t, loads false prefix n t -> fits t key -> (need n key <= fuel)%nat ->
  deletesTo prefix key t tr (delete Node fuel tr n prefix key).
Proof.
  induction fuel as [|fuel IH]; intros tr n prefix key t Hl Hf Hm; [unfold need in Hm; destruct (isHash n); lia|].
  inversion Hl as [| |? p k c t1 f _ Hc|? p cs ts f _ Hlen Hc|? p h blob c t1 _ Hr Hd Hl']; subst.
  - eexists _, _, _, _. split; [done|]. split; [constructor|]. split; [by apply removed_absent|]. by split; [apply tracked_same|].
  - destruct Hf as [[_ Hw]|[-> _]]; [by specialize (Hw ltac:(done)); inversion Hw|]. eexists _, _, _, TNil. split; [done|]. split; [constructor|].
    split; [|by split; [apply tracked_sub; [|intros q _ Hq; apply nodeAt_nil in Hq]|]]. split; [right; by split|done|]. by intros k [[?%hexKey_ne _]|[_ ->]].
  - destruct Hf as [[Hk Hw]|[_ Hw]]; [|by destruct Hw as (? & _ & ?)]. by apply delete_short; [..|by apply Hw| |].
  - destruct Hf as [[Hk Hw]|[_ Hw]]; [|by destruct Hw as (? & _ & ?)]. by apply delete_full; [..|by apply Hw| |].
  - destruct (resolve_loads false tr prefix h t Hl) as (tr1 & n1 & Hres & Hl1 & Hh & Htr1). cbn [delete]. rewrite Hres. cbn [mbind outcome_bind].
    destruct (IH tr1 n1 prefix key t) as (tr' & ch & n' & t' & -> & Hl2 & HR & HT & Hch & Hh2); [done|done|unfold need in *; rewrite Hh; cbn [isHash] in Hm; lia|].
    cbn [mbind outcome_bind]. rewrite bool_decide_eq_true_2 by done.
    assert (HT' : tracked prefix tr tr' t t') by (eapply tracked_trans; [by apply tracked_same|done]). destruct ch; cbn [negb orb]; [by eexists _, _, _, _|].
    rewrite (Hch eq_refl) in HR, HT'. by eexists _, _, _, _.
Qed.
End Loading.

(** ** The tree of given contents is unique *)

Definition sameContents (t1 t2 : tree) : Prop := forall k, hexKey k -> tget t1 k = tget t2 k.

Lemma twf_shape t : twf t ->
  (exists ns v, t = TShort (ns ++ [16]) (TValue v) /\ Forall nibble ns) \/ (exists k ts, t = tgraft k (TFull ts) /\ Forall nibble k /\ twf (TFull ts)).
Proof.
  intros Hw. destruct Hw as [ns v Hn Hv|k ts Hk Hn Hts|ts Hl Hc H16 H2]; [left; by exists ns, v|right; exists k, ts; by destruct k|right; exists [], ts].
  split; [done|]. split; [done|by constructor].
Qed.

Lemma edge_has i t : edge (Z.of_nat i) t -> exists k v, hexKey (Z.of_nat i :: k) /\ tget t k = Some v.
Proof.
  intros [[Hb Hw]|[-> (v & _ & ->)]]; [|exists [], v; split; [by exists []|done]].
  destruct (twf_has t Hw) as (k & v & Hk & Hg & _). exists k, v. split; [|done]. by apply (hexKey_app [_]); [constructor|].
Qed.

(** A branch holds keys with different first nibbles. *)
Lemma full_diverges ts : twf (TFull ts) ->
  exists x y k1 k2 v1 v2, x <> y /\ hexKey (x :: k1) /\ hexKey (y :: k2) /\ tget (TFull ts) (x :: k1) = Some v1 /\ tget (TFull ts) (y :: k2) = Some v2.
Proof.
  intros Hw. inversion Hw as [| |? _ _ _ (i & j & ti & tj & Hij & Hi & Hj & Hni & Hnj)]; subst.
  destruct (edge_has i ti) as (k1 & v1 & Hk1 & Hv1); [by eapply twf_edge|]. destruct (edge_has j tj) as (k2 & v2 & Hk2 & Hv2); [by eapply twf_edge|].
  exists (Z.of_nat i), (Z.of_nat j), k1, k2, v1, v2. split; [lia|]. split; [done|]. split; [done|]. by rewrite !tget_full, !Nat2Z.id, Hi, Hj.
Qed.

Lemma prefix_diverge (p k a b : list Z) x y : p `prefix_of` k ++ x :: a -> p `prefix_of` k ++ y :: b -> x <> y -> p `prefix_of` k.
Proof.
  revert k. induction p as [|z p IH]; intros k H1 H2 Hne; [apply prefix_nil|]. destruct k as [|w k].
  - apply prefix_cons_inv_1 in H1, H2. congruence.
  - pose proof (prefix_cons_inv_1 _ _ _ _ H1) as ->. apply prefix_cons_inv_2 in H1, H2. apply prefix_cons. by apply IH.
Qed.

Lemma graft_diverges k ts : Forall nibble k -> twf (TFull ts) ->
  exists x y k1 k2 v1 v2, x <> y /\ hexKey (k ++ x :: k1) /\ hexKey (k ++ y :: k2) /\
    tget (tgraft k (TFull ts)) (k ++ x :: k1) = Some v1 /\ tget (tgraft k (TFull ts)) (k ++ y :: k2) = Some v2.
Proof.
  intros Hk Hw. destruct (full_diverges ts Hw) as (x & y & k1 & k2 & v1 & v2 & Hne & H1 & H2 & Hv1 & Hv2). exists x, y, k1, k2, v1, v2.
  rewrite !tget_graft, !tget_short. split; [done|]. split; [by apply hexKey_app|]. split; [by apply hexKey_app|done].
Qed.

Lemma graft_leaf k ts ns v : Forall nibble k -> twf (TFull ts) -> ~ sameContents (tgraft k (TFull ts)) (TShort (ns ++ [16]) (TValue v)).
Proof.
  intros Hk Hw HS. destruct (graft_diverges k ts Hk Hw) as (x & y & k1 & k2 & v1 & v2 & Hne & H1 & H2 & Hv1 & Hv2).
  rewrite HS, tget_leaf in Hv1 by done. rewrite HS, tget_leaf in Hv2 by done. repeat case_decide; try done.
  assert (HE : k ++ x :: k1 = k ++ y :: k2) by congruence. apply app_inv_head in HE. congruence.
Qed.

Lemma graft_prefix k ts k' ts' : Forall nibble k -> twf (TFull ts) -> sameContents (tgraft k (TFull ts)) (tgraft k' (TFull ts')) -> k' `prefix_of` k.
Proof.
  intros Hk Hw HS. destruct (graft_diverges k ts Hk Hw) as (x & y & k1 & k2 & v1 & v2 & Hne & H1 & H2 & Hv1 & Hv2).
  rewrite HS, tget_graft in Hv1 by done. rewrite HS, tget_graft in Hv2 by done.
  apply tget_short_Some in Hv1 as (r1 & Hr1 & _), Hv2 as (r2 & Hr2 & _). eapply prefix_diverge; [by exists r1|by exists r2|done].
Qed.

Lemma graft_same k ts k' ts' : Forall nibble k -> twf (TFull ts) -> Forall nibble k' -> twf (TFull ts') ->
  sameContents (tgraft k (TFull ts)) (tgraft k' (TFull ts')) -> k = k' /\ sameContents (TFull ts) (TFull ts').
Proof.
  intros Hk Hw Hk' Hw' HS. assert (HS' : sameContents (tgraft k' (TFull ts')) (tgraft k (TFull ts))) by (intros q Hq; symmetry; by apply HS).
  assert (k = k') as <-. { apply (anti_symm prefix); [exact (graft_prefix k' ts' k ts Hk' Hw' HS')|exact (graft_prefix k ts k' ts' Hk Hw HS)]. }
  split; [done|]. intros q Hq. specialize (HS (k ++ q)). rewrite !tget_graft, !tget_short in HS. apply HS. by apply hexKey_app.
Qed.

Lemma full_ext ts ts' : twf (TFull ts) -> twf (TFull ts') -> sameContents (TFull ts) (TFull ts') ->
  (forall i t t', ts !! i = Some t -> ts' !! i = Some t' -> (i < 16)%nat -> t <> TNil -> twf t' -> sameContents t t' -> t = t') -> ts = ts'.
Proof.
  intros Hw Hw' HS IH. inversion Hw as [| |? Hl Hc H16 _]; inversion Hw' as [| |? Hl' Hc' H16' _]; subst.
  apply (list_eq_same_length _ _ 17); [done|done|]. intros i t t' Hi Ht Ht'. pose proof (fun Hn => twf_edge ts i t Hw Ht Hn) as He.
  pose proof (fun Hn => twf_edge ts' i t' Hw' Ht' Hn) as He'.
  assert (HI : forall k, hexKey (Z.of_nat i :: k) -> tget t k = tget t' k) by (intros k Hk; specialize (HS _ Hk); by rewrite !tget_full, !Nat2Z.id, Ht, Ht' in HS).
  destruct (decide (t = TNil)) as [->|Hn], (decide (t' = TNil)) as [->|Hn'].
  - done.
  - exfalso. destruct (edge_has i t' (He' Hn')) as (k & v & Hk & Hv). by rewrite <-HI in Hv.
  - exfalso. destruct (edge_has i t (He Hn)) as (k & v & Hk & Hv). by rewrite HI in Hv.
  - destruct (He Hn) as [[Hb Hwt]|[H16i (v & _ & ->)]], (He' Hn') as [[Hb' Hwt']|[H16i' (v' & _ & ->)]]; try (unfold nibble in *; lia).
    + apply (IH i); [done|done|unfold nibble in Hb; lia|done|done|]. intros k Hk. apply HI. by apply (hexKey_app [_]); [constructor|].
    + specialize (HI []). rewrite H16i in HI. specialize (HI ltac:(by exists [])). by injection HI as ->.
Qed.

(** Minimal trees with the same contents are the same. *)
Lemma twf_unique t1 : twf t1 -> forall t2, twf t2 -> sameContents t1 t2 -> t1 = t2.
Proof.
  induction 1 as [ns v Hn Hv|k ts Hk Hn Hw IH|ts Hl Hc IH H16 H2]; intros t2 Hw2 HS.
  - destruct (twf_shape t2 Hw2) as [(ns' & v' & -> & Hn')|(k' & ts' & -> & Hk' & Hts')].
    + specialize (HS (ns ++ [16]) ltac:(by exists ns)). rewrite !tget_leaf, decide_True in HS by done. case_decide; congruence.
    + exfalso. eapply (graft_leaf k' ts' ns v); [done|done|]. intros q Hq. symmetry. by apply HS.
  - assert (Hg : TShort k (TFull ts) = tgraft k (TFull ts)) by (by destruct k). rewrite Hg in HS |- *.
    destruct (twf_shape t2 Hw2) as [(ns' & v' & -> & Hn')|(k' & ts' & -> & Hk' & Hts')]; [by eapply graft_leaf in HS|].
    destruct (graft_same k ts k' ts') as [-> HS']; [done..|]. by rewrite (IH (TFull ts')).
  - assert (Hw : twf (TFull ts)) by (by constructor). change (TFull ts) with (tgraft [] (TFull ts)) in HS |- *.
    destruct (twf_shape t2 Hw2) as [(ns' & v' & -> & Hn')|(k' & ts' & -> & Hk' & Hts')]; [by eapply graft_leaf in HS|].
    destruct (graft_same [] ts k' ts') as [<- HS']; [done..|]. cbn [tgraft]. f_equal. eapply full_ext; [done..|]. intros i t t' Hi Hi' Hlt Hne Hwt HSt. by eapply IH.
Qed.
