(* ===== verification/TrieMap.v ===== *)
(** * The trie as a map

    [Trie.Get], [Trie.Update] and [Trie.Delete] of [trie/trie.go] against a
    finite map from byte strings to byte strings, for single operations and
    for sequences of them. *)

From S2P Require Import Prelude Bytes RlpRaw TrieKeys Trie TrieSpec.

Local Open Scope Z_scope.

Abbreviation bytemap := (gmap (list Z) (list Z)).

(** The tree holds the map, and nothing under keys of half bytes. *)
Record contents (u : tree) (m : bytemap) : Prop := {
  contents_wf : rootWf u;
  contents_get key : bytes_ok key -> tget u (keybytesToHex key) = m !! key;
  contents_only k v : hexKey k -> tget u k = Some v -> exists key, bytes_ok key /\ k = keybytesToHex key;
  contents_keys key : is_Some (m !! key) -> bytes_ok key
}.

(** A deleted path of the tracer is not a node. *)
Definition traced (tr : tracer) (u : tree) : Prop := forall d, d ∈ deletes tr -> ~ nodeAt u d.

Lemma tracked_traced tr tr' u u' : traced tr u -> tracked [] tr tr' u u' -> traced tr' u'.
Proof. intros Ht [H1 H2] d Hd Hn. pose proof (H2 d Hd Hn) as Hu. destruct (H1 d Hd) as [Hd'|(q & -> & Hq)]; [by apply (Ht d)|by apply Hq]. Qed.

(** The trie stands for the tree. *)
Definition standsFor (Node : list Z -> Hash -> option (list Z)) (M : Marks) (t : Trie) (u : tree) : Prop :=
  committed t = false /\ loads Node M false [] (root t) u /\ traced (ttracer t) u.

Definition holds (Node : list Z -> Hash -> option (list Z)) (M : Marks) (t : Trie) (m : bytemap) : Prop :=
  exists u, standsFor Node M t u /\ contents u m.

Lemma contents_empty : contents TNil ∅.
Proof. split; [by intros []|done|done|]. intros key [v Hv]. by rewrite lookup_empty in Hv. Qed.

Lemma contents_same u u' m : contents u m -> contents u' m -> sameContents u u'.
Proof.
  intros [_ Hg Ho _] [_ Hg' Ho' _] k Hk. destruct (tget u k) as [v|] eqn:Hv.
  - destruct (Ho k v Hk Hv) as (key & Hb & ->). by rewrite Hg', <-Hg by done.
  - destruct (tget u' k) as [v|] eqn:Hv'; [|done]. destruct (Ho' k v Hk Hv') as (key & Hb & ->). by rewrite Hg', <-Hg, Hv in Hv' by done.
Qed.

Lemma sameContents_unique u u' : rootWf u -> rootWf u' -> sameContents u u' -> u = u'.
Proof.
  intros Hw Hw' HS. assert (HN : forall t, twf t -> sameContents TNil t -> False).
  { intros t Ht Hs. destruct (twf_has t Ht) as (k & v & Hk & Hv & _). by rewrite <-Hs in Hv. }
  destruct (decide (u = TNil)) as [->|Hn], (decide (u' = TNil)) as [->|Hn']; [done| | |apply twf_unique; [by apply Hw|by apply Hw'|done]].
  - exfalso. by eapply HN, HS; apply Hw'.
  - exfalso. eapply (HN u); [by apply Hw|]. intros k Hk. symmetry. by apply HS.
Qed.

(** A map is held by one tree. *)
Lemma contents_unique u u' m : contents u m -> contents u' m -> u = u'.
Proof. intros H H'. apply sameContents_unique; [apply H|apply H'|by eapply contents_same]. Qed.

Lemma fits_root u m key : contents u m -> bytes_ok key -> fits u (keybytesToHex key).
Proof. intros [Hw _ _ _] Hb. left. split; [by apply keybytesToHex_key|done]. Qed.

Lemma keyLike_hex key k : bytes_ok key -> hexKey k -> keyLike (keybytesToHex key) k.
Proof. intros Hb Hk. left. split; [by apply keybytesToHex_key|done]. Qed.

Lemma rootWf_fits u key : bytes_ok key -> fits u (keybytesToHex key) -> rootWf u.
Proof. intros Hb [[_ H]|[H _]]; [done|]. by apply keybytesToHex_key, hexKey_ne in Hb. Qed.

Lemma contents_inserted u u' m key v : contents u m -> bytes_ok key -> inserted (keybytesToHex key) v u u' -> contents u' (<[key := v]> m).
Proof.
  intros [_ Hg Ho Hd] Hb [_ Hf _ Hi]. split; [by eapply rootWf_fits| | |].
  - intros key' Hb'. rewrite Hi by (by apply keyLike_hex, keybytesToHex_key). destruct (decide (key' = key)) as [->|Hne].
    + by rewrite decide_True, lookup_insert_eq by done.
    + rewrite decide_False, lookup_insert_ne, Hg by (done || by intros ?%keybytesToHex_inj). done.
  - intros k w Hk. rewrite Hi by (by apply keyLike_hex). case_decide; [intros _; by exists key|by apply Ho].
  - intros key' Hs. apply lookup_insert_is_Some' in Hs as [<-|Hs]; [done|by apply Hd].
Qed.

Lemma contents_removed u u' m key : contents u m -> bytes_ok key -> removed (keybytesToHex key) u u' -> contents u' (base.delete key m).
Proof.
  intros [_ Hg Ho Hd] Hb [Hf _ Hr]. split; [by eapply rootWf_fits| | |].
  - intros key' Hb'. rewrite Hr by (by apply keyLike_hex, keybytesToHex_key). destruct (decide (key' = key)) as [->|Hne].
    + by rewrite decide_True, lookup_delete_eq by done.
    + rewrite decide_False, lookup_delete_ne, Hg by (done || by intros ?%keybytesToHex_inj). done.
  - intros k w Hk. rewrite Hr by (by apply keyLike_hex). case_decide; [done|by apply Ho].
  - intros key' [w Hs]. apply lookup_delete_Some in Hs as [_ Hs]. by apply Hd.
Qed.

Lemma need_levels n k : (need n k <= levels k)%nat.
Proof. unfold need, levels. destruct (isHash n); lia. Qed.

Section Operations.
Context (Node : list Z -> Hash -> option (list Z)) (M : Marks).

Lemma Get_map t m key : holds Node M t m -> bytes_ok key -> exists t', Get Node t key = Done (t', (m !! key, None)) /\ holds Node M t' m.
Proof.
  intros (u & (Hc & Hl & Ht) & Hu) Hb. unfold Get. rewrite Hc. cbn zeta.
  destruct (get_spec Node M (levels (keybytesToHex key)) false (ttracer t) (root t) (keybytesToHex key) 0 u) as (tr' & n' & b & Hg & Hl' & Htr).
  { done. } { by eapply fits_root. } { lia. } { rewrite drop_0. apply need_levels. }
  rewrite Hg. cbn [mbind outcome_bind]. rewrite drop_0, (contents_get _ _ Hu) by done. rewrite bool_decide_eq_true_2 by done. cbn [andb].
  eexists. split; [done|]. exists u. split; [|done]. split; [done|]. split; [by destruct b|]. intros d. cbn [ttracer]. rewrite Htr. apply Ht.
Qed.

Lemma Delete_map t m key : holds Node M t m -> bytes_ok key -> exists t', Delete Node t key = Done (t', None) /\ holds Node M t' (base.delete key m).
Proof.
  intros (u & (Hc & Hl & Ht) & Hu) Hb. unfold Delete. rewrite Hc. cbn zeta.
  destruct (delete_spec Node M (levels (keybytesToHex key)) (ttracer t) (root t) [] (keybytesToHex key) u) as (tr' & ch & n' & u' & -> & Hl' & HR & HT & _).
  { done. } { by eapply fits_root. } { apply need_levels. }
  cbn [mbind outcome_bind]. rewrite bool_decide_eq_true_2 by done. eexists. split; [done|]. exists u'. split; [|by eapply contents_removed].
  split; [done|]. split; [done|by eapply tracked_traced].
Qed.

(** An empty value deletes the key. *)
Definition mapUpdate (key value : list Z) (m : bytemap) : bytemap := if decide (value = []) then base.delete key m else <[key := value]> m.

Lemma Update_map t m key value : holds Node M t m -> bytes_ok key -> exists t', Update Node t key value = Done (t', None) /\ holds Node M t' (mapUpdate key value m).
Proof.
  intros HH Hb. pose proof HH as (u & (Hc & Hl & Ht) & Hu). unfold Update, mapUpdate. rewrite Hc. destruct (decide (value = [])) as [->|Hv].
  - rewrite decide_False by (intros Hn; by apply Hn). by apply Delete_map.
  - rewrite decide_True by (by destruct value). cbn zeta.
    destruct (insert_spec Node M (levels (keybytesToHex key)) (ttracer t) (root t) [] (keybytesToHex key) u value) as (tr' & ch & n' & u' & -> & Hl' & HI & HT & _).
    { done. } { by eapply fits_root. } { done. } { apply need_levels. }
    cbn [mbind outcome_bind]. rewrite bool_decide_eq_true_2 by done. eexists. split; [done|]. exists u'. split; [|by eapply contents_inserted].
    split; [done|]. split; [done|by eapply tracked_traced].
Qed.

(** ** Sequences of operations *)

Inductive trieOp := OpGet (key : list Z) | OpUpdate (key value : list Z) | OpDelete (key : list Z).

Definition opKey (op : trieOp) : list Z := match op with OpGet key | OpUpdate key _ | OpDelete key => key end.

(** An operation and its answer: the value read and the error. *)
Definition runOp (t : Trie) (op : trieOp) : outcome (Trie * (option (list Z) * option trieErr)) :=
  match op with
  | OpGet key => Get Node t key
  | OpUpdate key value => '(t, err) ← Update Node t key value; Done (t, (None, err))
  | OpDelete key => '(t, err) ← Delete Node t key; Done (t, (None, err))
  end.

Fixpoint runOps (t : Trie) (ops : list trieOp) : outcome (Trie * list (option (list Z) * option trieErr)) :=
  match ops with
  | [] => Done (t, [])
  | op :: ops => '(t, a) ← runOp t op; '(t, l) ← runOps t ops; Done (t, a :: l)
  end.

Definition mapOp (m : bytemap) (op : trieOp) : bytemap :=
  match op with OpGet _ => m | OpUpdate key value => mapUpdate key value m | OpDelete key => base.delete key m end.

Definition mapOps (m : bytemap) (ops : list trieOp) : bytemap := foldl mapOp m ops.

Fixpoint mapAnswers (m : bytemap) (ops : list trieOp) : list (option (list Z)) :=
  match ops with [] => [] | op :: ops => match op with OpGet key => m !! key | _ => None end :: mapAnswers (mapOp m op) ops end.

(** The answers of a trie that meets no error. *)
Definition answered (l : list (option (list Z))) : list (option (list Z) * option trieErr) := (fun a => (a, None)) <$> l.

Lemma runOp_map t m op : holds Node M t m -> bytes_ok (opKey op) ->
  exists t', runOp t op = Done (t', (match op with OpGet key => m !! key | _ => None end, None)) /\ holds Node M t' (mapOp m op).
Proof.
  intros HH Hb. destruct op as [key|key value|key]; cbn [runOp mapOp].
  - by apply Get_map.
  - destruct (Update_map t m key value HH Hb) as (t' & -> & HH'). by exists t'.
  - destruct (Delete_map t m key HH Hb) as (t' & -> & HH'). by exists t'.
Qed.

Lemma runOps_map ops : forall t m, holds Node M t m -> Forall (fun op => bytes_ok (opKey op)) ops ->
  exists t', runOps t ops = Done (t', answered (mapAnswers m ops)) /\ holds Node M t' (mapOps m ops).
Proof.
  induction ops as [|op ops IH]; intros t m HH Hb; [by exists t|]. apply Forall_cons in Hb as [Hop Hb]. cbn [runOps mapAnswers].
  destruct (runOp_map t m op HH Hop) as (t1 & -> & HH1). cbn [mbind outcome_bind].
  destruct (IH t1 (mapOp m op) HH1 Hb) as (t2 & -> & HH2). cbn [mbind outcome_bind]. exists t2. by split.
Qed.

Definition emptyTrie (owner : Hash) : Trie := mkTrie NilNode owner false 0 newTracer.

Lemma emptyTrie_holds owner : holds Node M (emptyTrie owner) ∅.
Proof. exists TNil. split; [|apply contents_empty]. split; [done|]. split; [constructor|]. intros d Hd. by apply not_elem_of_empty in Hd. Qed.
End Operations.
