(* ===== verification/TrieHash.v ===== *)
(** * Hashing the trie

    [trie/node_enc.go] and [trie/hasher.go], and [Hash] of [trie/trie.go]: a node
    is encoded with its children replaced by their hashes or, where that is
    shorter, by their encodings, and the hash of a trie is the hash of its root.

    The hash function is a parameter: [golang.org/x/crypto/sha3] is not part of
    the repository.  The buffer of a hasher comes from a pool and is reused from
    node to node; it is passed along. *)

From S2P Require Import Prelude Bytes RlpRaw RlpEncode TrieKeys Trie TrieSpec TrieMap.

Local Open Scope Z_scope.

(** ** Encoding *)

(** [encode] of a child: nothing is the empty string. *)
Definition encodeChild (encode : node -> encBuffer -> outcome encBuffer) (n : node) (w : encBuffer) : outcome encBuffer :=
  match n with NilNode => Done (appendStr w [0x80]) | _ => encode n w end.

(** [encode]; a call on the nil node panics. *)
Fixpoint encode (n : node) (w : encBuffer) {struct n} : outcome encBuffer :=
  match n with
  | NilNode => Panic
  | ValueNode v => bufWriteBytes w v
  | HashNode h => bufWriteBytes w h
  | ShortNode k val _ =>
      let '(w, offset) := list_ w in
      w ← bufWriteBytes w k;
      w ← encodeChild encode val w;
      listEnd w offset
  | FullNode cs _ =>
      let '(w, offset) := list_ w in
      w ← (fix children (cs : list node) (w : encBuffer) := match cs with
                                                            | [] => Done w
                                                            | c :: cs => w ← encodeChild encode c w; children cs w
                                                            end) cs w;
      listEnd w offset
  end.

(** The loop over the children. *)
Fixpoint encodeChildren (cs : list node) (w : encBuffer) : outcome encBuffer :=
  match cs with [] => Done w | c :: cs => w ← encodeChild encode c w; encodeChildren cs w end.

Lemma encode_full cs f w : encode (FullNode cs f) w = (w' ← encodeChildren cs (list_ w).1; listEnd w' (list_ w).2).
Proof.
  cbn [encode]. destruct (list_ w) as [w' o]. cbn [fst snd]. revert w'. induction cs as [|c cs IH]; intros w'; [done|].
  cbn [encodeChildren]. destruct (encodeChild encode c w'); [|done..]. cbn [mbind outcome_bind]. apply IH.
Qed.

Definition nodeToBytes (pooled : encBuffer) (n : node) : outcome (list Z) := w ← encode n (reset pooled); makeBytes w.

(** ** The hasher *)

(** [encodedBytes]: what was written, and the buffer made ready again. *)
Definition encodedBytes (h : encBuffer) : outcome (encBuffer * list Z) := enc ← makeBytes h; Done (reset h, enc).

Section Hasher.
Context (sha : list Z -> list Z).

Definition hashData (data : list Z) : node := HashNode (sha data).

Definition shortnodeToHash (h : encBuffer) (n : node) (force : bool) : outcome (encBuffer * node) :=
  h ← encode n h;
  '(h, enc) ← encodedBytes h;
  if decide (length enc < 32)%nat then if force then Done (h, hashData enc) else Done (h, n) else Done (h, hashData enc).

Definition fullnodeToHash (h : encBuffer) (n : node) (force : bool) : outcome (encBuffer * node) :=
  h ← encode n h;
  '(h, enc) ← encodedBytes h;
  if decide (length enc < 32)%nat then if force then Done (h, hashData enc) else Done (h, n) else Done (h, hashData enc).

(** [cached.flags.hash] after hashing. *)
Definition cachedFlag (hashed : node) (f : nodeFlag) : nodeFlag :=
  mkFlag (match hashed with HashNode hn => Some hn | _ => None end) (dirty f).

(** [hashShortNodeChildren] and [hashFullNodeChildren]: the node to encode and
    the node to keep.  With [parallel] every child has a hasher of its own. *)
Definition hashShortNodeChildren (hash : encBuffer -> node -> outcome (encBuffer * (node * node))) (h : encBuffer) (k : list Z) (val : node) :
    outcome (encBuffer * (list Z * node * node)) :=
  key ← hexToCompact k;
  match val with
  | ShortNode _ _ _ | FullNode _ _ => '(h, (collapsed, cached)) ← hash h val; Done (h, (key, collapsed, cached))
  | _ => Done (h, (key, val, val))
  end.

Definition hashChild (pooled : option encBuffer) (hash : encBuffer -> node -> outcome (encBuffer * (node * node))) (h : encBuffer) (c : node) :
    outcome (encBuffer * (node * node)) :=
  match c with
  | NilNode => Done (h, (ValueNode [], NilNode))
  | _ => match pooled with
         | Some own => '(_, r) ← hash own c; Done (h, r)
         | None => hash h c
         end
  end.

Section Children.
Context (pooled : option encBuffer) (hash : encBuffer -> node -> outcome (encBuffer * (node * node))).

(** The children before the last, which stays. *)
Fixpoint hashFullNodeChildren (h : encBuffer) (cs : list node) {struct cs} : outcome (encBuffer * (list node * list node)) :=
  match cs with
  | [] => Done (h, ([], []))
  | c :: cs =>
      match cs with
      | [] => Done (h, ([c], [c]))
      | _ =>
          '(h, (collapsed, cached)) ← hashChild pooled hash h c;
          '(h, (collapseds, cacheds)) ← hashFullNodeChildren h cs;
          Done (h, (collapsed :: collapseds, cached :: cacheds))
      end
  end.
End Children.

(** [hash]: the hash or the small node itself, and the node to keep; [pooled] is
    the buffer of the hashers that run beside this one. *)
Fixpoint hash (pooled : encBuffer) (parallel : bool) (h : encBuffer) (n : node) (force : bool) {struct n} : outcome (encBuffer * (node * node)) :=
  match n with
  | ShortNode k val f =>
      match fhash f with
      | Some hn => Done (h, (HashNode hn, n))
      | None =>
          '(h, (key, collapsed, cached)) ← hashShortNodeChildren (fun h n => hash pooled parallel h n false) h k val;
          '(h, hashed) ← shortnodeToHash h (ShortNode key collapsed f) force;
          Done (h, (hashed, ShortNode k cached (cachedFlag hashed f)))
      end
  | FullNode cs f =>
      match fhash f with
      | Some hn => Done (h, (HashNode hn, n))
      | None =>
          '(h, (collapsed, cached)) ← hashFullNodeChildren (if parallel then Some pooled else None)
                                        (fun h n => hash pooled (if parallel then false else parallel) h n false) h cs;
          '(h, hashed) ← fullnodeToHash h (FullNode collapsed f) force;
          Done (h, (hashed, FullNode cached (cachedFlag hashed f)))
      end
  | NilNode => Panic
  | _ => Done (h, (n, n))
  end.

(** [proofHash]: the node to encode, and its hash unless it is small. *)
Definition proofHash (pooled : encBuffer) (parallel : bool) (h : encBuffer) (original : node) : outcome (encBuffer * (node * node)) :=
  match original with
  | ShortNode k val f =>
      '(h, (key, collapsed, _)) ← hashShortNodeChildren (fun h n => hash pooled parallel h n false) h k val;
      '(h, hashed) ← shortnodeToHash h (ShortNode key collapsed f) false;
      Done (h, (ShortNode key collapsed f, hashed))
  | FullNode cs f =>
      '(h, (collapsed, _)) ← hashFullNodeChildren (if parallel then Some pooled else None)
                               (fun h n => hash pooled (if parallel then false else parallel) h n false) h cs;
      '(h, hashed) ← fullnodeToHash h (FullNode collapsed f) false;
      Done (h, (FullNode collapsed f, hashed))
  | n => Done (h, (n, n))
  end.

(** [hashRoot] and [Hash], with the hash of the empty trie. *)
Definition hashRoot (emptyRoot : Hash) (pooled h : encBuffer) (t : Trie) : outcome (Trie * (node * node)) :=
  if isNil (root t) then Done (t, (HashNode emptyRoot, NilNode))
  else
    '(_, r) ← hash pooled (bool_decide (100 <= unhashed t)) h (root t) true;
    Done (mkTrie (root t) (owner t) (committed t) 0 (ttracer t), r).

Definition Hash_ (emptyRoot : Hash) (pooled h : encBuffer) (t : Trie) : outcome (Trie * Hash) :=
  '(t, (hashed, cached)) ← hashRoot emptyRoot pooled h t;
  match hashed with
  | HashNode hn => Done (mkTrie cached (owner t) (committed t) (unhashed t) (ttracer t), BytesToHash hn)
  | _ => Panic
  end.
End Hasher.

(** ** The encoding of a tree *)

Definition compactOf (k : list Z) : list Z := match hexToCompact k with Done c => c | _ => [] end.

Section Reference.
Context (sha : list Z -> list Z).

(** A child in the encoding of its parent. *)
Definition embed (t : tree) (e : list Z) : list Z :=
  match t with
  | TNil | TValue _ => e
  | _ => if decide (length e < 32)%nat then e else encStr (sha e)
  end.

Fixpoint tenc (t : tree) : list Z :=
  match t with
  | TNil => [0x80]
  | TValue v => encStr v
  | TShort k t => encList (encStr (compactOf k) ++ embed t (tenc t))
  | TFull ts => encList (concat ((fun t => embed t (tenc t)) <$> ts))
  end.

(** The hash of a trie with given contents. *)
Definition rootHash (emptyRoot : Hash) (t : tree) : Hash := match t with TNil => emptyRoot | _ => sha (tenc t) end.
End Reference.

(** ** Trees that fit into memory *)

Definition limit : Z := 2 ^ 56.

Definition goodValue (v : list Z) : Prop := v <> [] /\ bytes_ok v /\ Z.of_nat (length v) < limit.

Inductive good : tree -> Prop :=
| good_leaf ns v : Forall nibble ns -> Z.of_nat (length ns) < limit -> goodValue v -> good (TShort (ns ++ [16]) (TValue v))
| good_ext k ts : k <> [] -> Forall nibble k -> Z.of_nat (length k) < limit -> good (TFull ts) -> good (TShort k (TFull ts))
| good_full ts : length ts = 17%nat -> (forall i t, (i < 16)%nat -> ts !! i = Some t -> t <> TNil -> good t) ->
    (forall t, ts !! 16%nat = Some t -> t <> TNil -> exists v, goodValue v /\ t = TValue v) -> good (TFull ts).

Lemma twf_good t : twf t -> (forall k v, hexKey k -> tget t k = Some v -> Z.of_nat (length k) < limit /\ goodValue v) -> good t.
Proof.
  induction 1 as [ns v Hn Hv|k ts Hk Hn Hw IH|ts Hl Hc IH H16 H2]; intros HP.
  - destruct (HP (ns ++ [16]) v) as [H1 Hg]; [by exists ns|by rewrite tget_leaf, decide_True|]. rewrite length_app in H1. constructor; [done|lia|done].
  - destruct (twf_has _ Hw) as (k' & v & Hk' & Hg & _). destruct (HP (k ++ k') v) as [H1 _]; [by apply hexKey_app|by rewrite tget_short|]. rewrite length_app in H1.
    constructor; [done|done|lia|]. apply IH. intros q w Hq Hqw. destruct (HP (k ++ q) w) as [H3 H4]; [by apply hexKey_app|by rewrite tget_short|].
    rewrite length_app in H3. split; [lia|done].
  - constructor; [done| |].
    + intros i t Hi Ht Hn. apply (IH i t Hi Ht Hn). intros q w Hq Hqw. destruct (HP (Z.of_nat i :: q) w) as [H3 H4].
      * apply (hexKey_app [_]); [constructor; [unfold nibble; lia|done]|done].
      * by rewrite tget_full, Nat2Z.id, Ht.
      * simpl in H3. split; [lia|done].
    + intros t Ht Hn. destruct (H16 t Ht Hn) as (v & _ & ->). exists v. split; [|done].
      destruct (HP [16] v) as [_ Hg]; [by exists []| |done]. rewrite tget_full. change (Z.to_nat 16) with 16%nat. by rewrite Ht.
Qed.

(** *** Sizes *)

Lemma hexToCompact_good term ns : Forall nibble ns ->
  hexToCompact (withTerm term ns) = Done (compactOf (withTerm term ns)) /\ compactToHex (compactOf (withTerm term ns)) = Done (withTerm term ns) /\
  (0 < length (compactOf (withTerm term ns)) <= S (length ns))%nat.
Proof.
  intros Hn. unfold compactOf. destruct (even_or_odd (length ns)) as [[m Hm]|[m Hm]].
  - destruct (decodeNibbles_even m ns Hm Hn) as (bs & Hd & Hlb & _). destruct (compactToHex_hexToCompact term ns Hn) as (c & Hc & Hx).
    rewrite (hexToCompact_even term m ns bs Hm Hn Hd) in Hc |- *. injection Hc as <-. split; [done|]. split; [done|]. cbn [length]. lia.
  - destruct ns as [|x ns]; [done|]. destruct (compactToHex_hexToCompact term (x :: ns) Hn) as (c & Hc & Hx). pose proof (Forall_cons_1 _ _ _ Hn) as [_ Hn'].
    destruct (decodeNibbles_even m ns) as (bs & Hd & Hlb & _); [simpl in Hm; lia|done|].
    rewrite (hexToCompact_odd term m x ns bs) in Hc |- *; [|simpl in Hm; lia|done|done|simpl in Hm; lia|done|done].
    injection Hc as <-. split; [done|]. split; [done|]. cbn [length] in *. lia.
Qed.

Section Sizes.
Context (sha : list Z -> list Z) (sha_len : forall b, length (sha b) = 32%nat).

Lemma length_encStr_le b : Z.of_nat (length b) < 2 ^ 64 -> (length (encStr b) <= length b + 9)%nat.
Proof.
  intros Hb. destruct (encStr_encKind b) as [-> _]. unfold encKind. rewrite length_app. pose proof (kindHeader_le (strKind b) (length b) Hb). lia.
Qed.

Lemma length_encList_le c : Z.of_nat (length c) < 2 ^ 64 -> (length (encList c) <= length c + 9)%nat.
Proof. intros Hc. unfold encList. rewrite length_app. pose proof (header_le 0xC0 0xF7 (length c) Hc). lia. Qed.

Lemma length_hashStr e : length (encStr (sha e)) = 33%nat.
Proof.
  pose proof (sha_len e) as Hl. unfold encStr. destruct (sha e) as [|x [|y l]] eqn:He; [done|done|]. rewrite length_app, Hl. done.
Qed.

Lemma embed_small t e : (match t with TShort _ _ | TFull _ => True | _ => False end) -> (length (embed sha t e) <= 33)%nat.
Proof. destruct t; intros Ht; [done..| |]; cbn [embed]; (case_decide; [lia|]); by rewrite length_hashStr. Qed.

Lemma length_concat_le (l : list (list Z)) n : Forall (fun b => length b <= n)%nat l -> (length (concat l) <= length l * n)%nat.
Proof. induction 1 as [|b l Hb Hl IH]; [done|]. cbn [concat length]. rewrite length_app. lia. Qed.

Lemma embed_le t : (t <> TNil -> good t \/ exists v, goodValue v /\ t = TValue v) -> Z.of_nat (length (embed sha t (tenc sha t))) <= limit + 33.
Proof.
  intros Ht. destruct t as [|v|k t|ts]; [unfold limit; simpl; lia| |pose proof (embed_small (TShort k t) (tenc sha (TShort k t)) I); unfold limit; lia|pose proof (embed_small (TFull ts) (tenc sha (TFull ts)) I); unfold limit; lia].
  destruct (Ht ltac:(done)) as [Hg|(w & (_ & _ & Hw) & [= <-])]; [inversion Hg|]. cbn [embed tenc]. pose proof (length_encStr_le v ltac:(unfold limit in *; lia)).
  unfold limit in *. lia.
Qed.

(** What a short or a full node encodes. *)
Definition body (t : tree) : list Z :=
  match t with
  | TShort k t => encStr (compactOf k) ++ embed sha t (tenc sha t)
  | TFull ts => concat ((fun t => embed sha t (tenc sha t)) <$> ts)
  | _ => []
  end.

Lemma good_child ts i t : good (TFull ts) -> ts !! i = Some t -> t <> TNil -> good t \/ exists v, goodValue v /\ t = TValue v.
Proof.
  inversion 1 as [| |? Hl Hc H16]; subst. intros Hi Hn. pose proof (lookup_lt_Some _ _ _ Hi) as Hlt. rewrite Hl in Hlt.
  destruct (decide (i = 16%nat)) as [->|]; [right; by apply H16|left; apply (Hc i); [lia|done|done]].
Qed.

Lemma good_below k t : good (TShort k t) ->
  exists term ns, k = withTerm term ns /\ Forall nibble ns /\ k <> [] /\ Z.of_nat (length ns) < limit /\
    if term then exists v, goodValue v /\ t = TValue v else exists ts, t = TFull ts /\ good t.
Proof.
  inversion 1 as [ns v Hn Hl Hv|k' ts Hk Hn Hl Hts|]; subst; [exists true, ns|exists false, k].
  - split_and!; [done|done|by destruct ns|done|by exists v].
  - split_and!; [done|done|done|done|by exists ts].
Qed.

Lemma body_le t : good t -> Z.of_nat (length (body t)) < 2 ^ 62.
Proof.
  intros Hg. destruct t as [|v|k t|ts]; [by inversion Hg..| |]; cbn [body].
  - destruct (good_below k t Hg) as (term & ns & -> & Hn & _ & Hl & Hb). destruct (hexToCompact_good term ns Hn) as (_ & _ & Hc).
    rewrite length_app. pose proof (length_encStr_le (compactOf (withTerm term ns)) ltac:(unfold limit in *; lia)).
    assert (He : Z.of_nat (length (embed sha t (tenc sha t))) <= limit + 33); [|unfold limit in *; lia].
    apply embed_le. intros _. destruct term; [by right|]. destruct Hb as (ts & -> & ?). by left.
  - inversion Hg as [| |? Hl _ _]; subst. pose proof (length_concat_le ((fun t => embed sha t (tenc sha t)) <$> ts) (Z.to_nat (limit + 33))) as HC.
    rewrite length_fmap, Hl in HC. assert (HF : (length (concat ((fun t => embed sha t (tenc sha t)) <$> ts)) <= 17 * Z.to_nat (limit + 33))%nat).
    { apply HC. apply Forall_fmap, Forall_lookup. intros i t Hi. unfold compose. pose proof (embed_le t (good_child ts i t Hg Hi)). lia. }
    unfold limit in *. lia.
Qed.

Lemma tenc_body t : good t -> tenc sha t = encList (body t).
Proof. by destruct 1. Qed.
End Sizes.

(** ** The hasher computes the encoding *)

(** A buffer with nothing in it. *)
Definition ready (h : encBuffer) : Prop := h = reset h /\ length (sizebuf h) = 9%nat.

Definition encodes (n : node) (bs : list Z) : Prop := forall w, length (sizebuf w) = 9%nat -> exists w', encodeChild encode n w = Done w' /\ writes w w' bs.

Lemma encodes_nil : encodes NilNode [0x80].
Proof. intros w Hw. eexists. split; [done|by apply writes_appendStr]. Qed.

Lemma encodes_value v : Z.of_nat (length v) < 2 ^ 63 -> encodes (ValueNode v) (encStr v).
Proof. intros Hv w Hw. by apply bufWriteBytes_spec. Qed.

Lemma encodes_hash v : Z.of_nat (length v) < 2 ^ 63 -> encodes (HashNode v) (encStr v).
Proof. intros Hv w Hw. by apply bufWriteBytes_spec. Qed.

Lemma encodes_short k c bs f : Z.of_nat (length (encStr k ++ bs)) < 2 ^ 63 -> encodes c bs -> encodes (ShortNode k c f) (encList (encStr k ++ bs)).
Proof.
  intros Hl Hc w Hw. cbn [encodeChild encode]. pose proof (listEnd_spec w) as HE. destruct (list_ w) as [w0 o] eqn:Hlw. cbn [fst snd] in HE.
  assert (Hw0 : length (sizebuf w0) = 9%nat) by (by injection Hlw as <- <-). pose proof (length_encStr k) as Hk. rewrite length_app in Hl.
  destruct (bufWriteBytes_spec w0 k Hw0 ltac:(lia)) as (w1 & -> & Hw1). cbn [mbind outcome_bind].
  destruct (Hc w1) as (w2 & -> & Hw2); [by eapply writes_sizebuf|]. cbn [mbind outcome_bind]. apply (HE w2 (encStr k ++ bs)); [by eapply writes_app|rewrite length_app; lia].
Qed.

Lemma encodeChildren_spec cs bss : Forall2 encodes cs bss -> forall w, length (sizebuf w) = 9%nat -> exists w', encodeChildren cs w = Done w' /\ writes w w' (concat bss).
Proof.
  induction 1 as [|c bs cs bss Hc Hcs IH]; intros w Hw; cbn [encodeChildren concat]; [exists w; split; [done|by apply writes_nil]|].
  destruct (Hc w Hw) as (w1 & -> & Hw1). cbn [mbind outcome_bind]. destruct (IH w1) as (w2 & -> & Hw2); [by eapply writes_sizebuf|].
  exists w2. split; [done|by eapply writes_app].
Qed.

Lemma encodes_full cs bss f : Z.of_nat (length (concat bss)) < 2 ^ 63 -> Forall2 encodes cs bss -> encodes (FullNode cs f) (encList (concat bss)).
Proof.
  intros Hl Hc w Hw. cbn [encodeChild]. rewrite encode_full. pose proof (listEnd_spec w) as HE. destruct (list_ w) as [w0 o] eqn:Hlw. cbn [fst snd] in *.
  assert (Hw0 : length (sizebuf w0) = 9%nat) by (by injection Hlw as <- <-).
  destruct (encodeChildren_spec cs bss Hc w0 Hw0) as (w1 & -> & Hw1). cbn [mbind outcome_bind]. by apply HE.
Qed.

(** The bytes of a buffer that was ready before. *)
Lemma encodedBytes_spec h w bs : ready h -> writes h w bs -> encodedBytes w = Done (reset w, bs) /\ ready (reset w).
Proof.
  intros [Hr H9] (s & hs & Hs & Hh & Hlh & Hin & Hseg & H9'). rewrite Hr in *. simpl in *. split; [|done].
  unfold encodedBytes. rewrite makeBytes_spec by (by rewrite ?Hs, ?Hh, ?Hlh). by rewrite Hs, Hh, Hseg.
Qed.

Lemma encodes_encode n bs w : isNil n = false -> encodes n bs -> length (sizebuf w) = 9%nat -> exists w', encode n w = Done w' /\ writes w w' bs.
Proof. intros Hn He Hw. destruct (He w Hw) as (w' & Hw' & ?). exists w'. by destruct n. Qed.

Section Correct.
Context (sha : list Z -> list Z) (sha_len : forall b, length (sha b) = 32%nat).

(** What the hash of a node may be. *)
Definition refOk (p : list Z) (t : tree) (h : list Z) : Prop := h = sha (tenc sha t) /\ (p = [] \/ (32 <= length (tenc sha t))%nat).

(** The hashes in the flags and references are those of the trees below; a
    clean node with a hash and a reference are [Kept] in the database; where a
    hash is missing below a node with a hash, the node is small. *)
Definition flagOk (Kept : list Z -> tree -> Prop) (b : bool) (p : list Z) (t : tree) (f : nodeFlag) : Prop :=
  match fhash f with
  | Some h => refOk p t h /\ (dirty f = false -> Kept p t)
  | None => b = true \/ dirty f = false -> p <> [] /\ (length (tenc sha t) < 32)%nat
  end.

Lemma flagOk_new Kept p t : flagOk Kept false p t newFlag.
Proof. by intros [?|?]. Qed.

Lemma flagOk_mono Kept p t f : flagOk Kept true p t f -> flagOk Kept false p t f.
Proof. unfold flagOk. destruct (fhash f); [done|]. intros H [?|?]; [done|]. apply H. by right. Qed.

Definition hashMarks (Kept : list Z -> tree -> Prop) : Marks :=
  {| Flag := flagOk Kept; Ref p h t := refOk p t h /\ Kept p t; Flag_new := flagOk_new Kept; Flag_mono := flagOk_mono Kept |}.

(** The answer of [hash] for a tree: its hash, or the small node. *)
Definition hashedAs (p : list Z) (t : tree) (hn : node) : Prop :=
  if decide (p = [] \/ (32 <= length (tenc sha t))%nat) then hn = HashNode (sha (tenc sha t)) else encodes hn (tenc sha t) /\ isHash hn = false.

Lemma hashedAs_hash p t : p = [] \/ (32 <= length (tenc sha t))%nat -> hashedAs p t (HashNode (sha (tenc sha t))).
Proof. intros H. unfold hashedAs. by rewrite decide_True. Qed.

Lemma hashedAs_node p t n : p <> [] -> (length (tenc sha t) < 32)%nat -> encodes n (tenc sha t) -> isHash n = false -> hashedAs p t n.
Proof. intros Hp Hl He Hh. unfold hashedAs. rewrite decide_False; [done|]. intros [?|?]; [done|lia]. Qed.

Lemma nodeToHash_spec h n t p : ready h -> isNil n = false -> isHash n = false -> encodes n (tenc sha t) ->
  exists h' hn, shortnodeToHash sha h n (bool_decide (p = [])) = Done (h', hn) /\ fullnodeToHash sha h n (bool_decide (p = [])) = Done (h', hn) /\ ready h' /\ hashedAs p t hn.
Proof.
  intros Hr Hn Hh He. destruct (encodes_encode n _ h Hn He) as (w & Hw & Hws); [apply Hr|]. destruct (encodedBytes_spec h w _ Hr Hws) as [HB Hr'].
  unfold shortnodeToHash, fullnodeToHash. rewrite Hw. cbn [mbind outcome_bind]. rewrite HB. cbn [mbind outcome_bind].
  destruct (decide (p = [])) as [->|Hp]; [rewrite bool_decide_eq_true_2 by done|rewrite bool_decide_eq_false_2 by done].
  - case_decide; eexists _, _; (do 3 (split; [done|])); apply hashedAs_hash; by left.
  - case_decide as Hlt; eexists _, _; (do 3 (split; [done|])); [by apply hashedAs_node|]. apply hashedAs_hash. right. lia.
Qed.

Lemma hashedAs_embed p t hn : p <> [] -> good t -> hashedAs p t hn -> encodes hn (embed sha t (tenc sha t)).
Proof.
  unfold hashedAs. intros Hp Hg H. assert (HE : embed sha t (tenc sha t) = if decide (length (tenc sha t) < 32)%nat then tenc sha t else encStr (sha (tenc sha t)))
    by (by destruct Hg). rewrite HE. destruct (decide (length (tenc sha t) < 32)%nat) as [Hlt|Hge].
  - rewrite decide_False in H by (intros [?|?]; [done|lia]). apply H.
  - rewrite decide_True in H by (right; lia). rewrite H. apply encodes_hash. rewrite sha_len. lia.
Qed.

(** The flag [hash] sets. *)
Lemma hashedAs_flag Kept b p t f hn : fhash f = None -> flagOk Kept b p t f -> hashedAs p t hn -> flagOk Kept true p t (cachedFlag hn f).
Proof.
  unfold hashedAs, flagOk, cachedFlag. intros Hf. rewrite Hf. intros HF H. cbn [fhash dirty]. case_decide as Hd.
  - subst hn. split; [by split|]. intros Hdirty. destruct HF as [Hp Hlt]; [by right|]. destruct Hd as [?|?]; [done|lia].
  - destruct H as [_ Hh]. assert (HG : p <> [] /\ (length (tenc sha t) < 32)%nat) by (split; [intros ->; apply Hd; by left|apply Nat.nle_gt; intros ?; apply Hd; by right]).
    destruct hn; try done; by intros _.
Qed.

Section Hashing.
Context (Node : list Z -> Hash -> option (list Z)) (Kept : list Z -> tree -> Prop).

(** Below a node with its hash nothing is left to hash. *)
Lemma loads_hashed b p n t : loads Node (hashMarks Kept) b p n t ->
  match n with ShortNode _ _ f | FullNode _ f => fhash f <> None | _ => True end -> loads Node (hashMarks Kept) true p n t.
Proof.
  assert (HB : forall b f, fhash f <> None -> below b f = below true f) by (intros b0 f Hf; unfold below; destruct (fhash f); [by rewrite orb_true_r|done]).
  assert (HF : forall b p t f, fhash f <> None -> flagOk Kept b p t f -> flagOk Kept true p t f) by (unfold flagOk; intros ? ? ? f Hf; by destruct (fhash f)).
  intros Hl. induction Hl as [| |b p k n t f Hf Hl _|b p cs ts f Hf Hlen Hl _|b p h blob n t Hr Hrd Hd Hl IH]; intros Hn; [constructor|constructor| | |].
  - apply loads_short; [exact (HF b _ _ _ Hn Hf)|]. by rewrite <-(HB b).
  - apply loads_full; [exact (HF b _ _ _ Hn Hf)|done|]. intros i c t Hc Ht. rewrite <-(HB b) by done. by eapply Hl.
  - econstructor; [done|done|done|]. apply IH. by apply decoded_cases in Hd as [(? & ? & ->)|(? & ->)].
Qed.

Definition hashes (pooled : encBuffer) (parallel : bool) (p : list Z) (n : node) (t : tree) : Prop := forall h, ready h ->
  exists h' hn n', hash sha pooled parallel h n (bool_decide (p = [])) = Done (h', (hn, n')) /\ ready h' /\ hashedAs p t hn /\
    loads Node (hashMarks Kept) true p n' t.

(** A child before the last one. *)
Definition childHashes (own : option encBuffer) (hash : encBuffer -> node -> outcome (encBuffer * (node * node))) (p : list Z) (c : node) (t : tree) : Prop :=
  forall h, ready h -> exists h' hn c', hashChild own hash h c = Done (h', (hn, c')) /\ ready h' /\ encodes hn (embed sha t (tenc sha t)) /\
    loads Node (hashMarks Kept) true p c' t.

Lemma childHashes_hashes pooled par own p c t : p <> [] -> good t -> isNil c = false -> ready pooled -> (own = None \/ own = Some pooled) ->
  hashes pooled par p c t -> childHashes own (fun h n => hash sha pooled par h n false) p c t.
Proof.
  intros Hp Hg Hn Hpool Ho HH h Hr. pose proof HH as HH'. unfold hashes in HH'. rewrite bool_decide_eq_false_2 in HH' by done.
  assert (HC : hashChild own (fun h n => hash sha pooled par h n false) h c = match own with Some o => '(_, r) ← hash sha pooled par o c false; Done (h, r) | None => hash sha pooled par h c false end)
    by (by destruct c). rewrite HC. destruct Ho as [-> | ->].
  - destruct (HH' h Hr) as (h' & hn & n' & -> & Hr' & Ha & Hl). eexists _, _, _. split; [done|]. split; [done|]. split; [by eapply hashedAs_embed|done].
  - destruct (HH' pooled Hpool) as (h' & hn & n' & -> & Hr' & Ha & Hl). cbn [mbind outcome_bind]. eexists _, _, _. split; [done|]. split; [done|]. split; [by eapply hashedAs_embed|done].
Qed.

Lemma childHashes_nil own hashf p : childHashes own hashf p NilNode TNil.
Proof. intros h Hr. eexists _, _, _. split; [done|]. split; [done|]. split; [by apply (encodes_value [])|constructor]. Qed.

Lemma hashFullNodeChildren_spec own hashf p : forall cs ts i h, length cs = length ts -> ready h ->
  (forall j c t, cs !! j = Some c -> ts !! j = Some t -> (S j < length cs)%nat -> childHashes own hashf (p ++ [Z.of_nat (i + j)]) c t) ->
  (forall j c t, cs !! j = Some c -> ts !! j = Some t -> S j = length cs -> encodes c (embed sha t (tenc sha t)) /\ loads Node (hashMarks Kept) true (p ++ [Z.of_nat (i + j)]) c t) ->
  exists h' coll cach, hashFullNodeChildren own hashf h cs = Done (h', (coll, cach)) /\ ready h' /\ Forall2 encodes coll ((fun t => embed sha t (tenc sha t)) <$> ts) /\
    length cach = length ts /\ forall j c t, cach !! j = Some c -> ts !! j = Some t -> loads Node (hashMarks Kept) true (p ++ [Z.of_nat (i + j)]) c t.
Proof.
  induction cs as [|c cs IH]; intros [|t ts] i h Hlen Hr HC HL; try done.
  - eexists _, [], []. split; [done|]. by split.
  - destruct cs as [|c2 cs].
    + destruct ts; [|done]. destruct (HL 0%nat c t) as [He Hl]; [done..|]. eexists _, [c], [c]. split; [done|]. split; [done|]. split; [by constructor|]. split; [done|].
      intros [|j] d u; [|done]. intros [= <-] [= <-]. done.
    + assert (HU : hashFullNodeChildren own hashf h (c :: c2 :: cs) = ('(h, (collapsed, cached)) ← hashChild own hashf h c;
        '(h, (collapseds, cacheds)) ← hashFullNodeChildren own hashf h (c2 :: cs); Done (h, (collapsed :: collapseds, cached :: cacheds)))) by done.
      rewrite HU. destruct (HC 0%nat c t) with (h := h) as (h1 & hn & c' & -> & Hr1 & He & Hl); [done|done|simpl; lia|done|]. cbn [mbind outcome_bind].
      destruct (IH ts (S i) h1) as (h2 & coll & cach & -> & Hr2 & HF & Hlc & HLc); [by injection Hlen|done| | |].
      { intros j d u Hd Hu Hj. replace (S i + j)%nat with (i + S j)%nat by lia. apply HC; [done|done|simpl in *; lia]. }
      { intros j d u Hd Hu Hj. replace (S i + j)%nat with (i + S j)%nat by lia. apply HL; [done|done|simpl in *; lia]. }
      cbn [mbind outcome_bind]. eexists _, _, _. split; [done|]. split; [done|]. split; [by constructor|]. split; [simpl; lia|].
      intros [|j] d u; cbn; [|replace (i + S j)%nat with (S i + j)%nat by lia; apply HLc]. intros [= <-] [= <-]. done.
Qed.

(** The part of the node that is already hashed. *)
Lemma hash_cached pooled par b p n t hn f : loads Node (hashMarks Kept) b p n t -> ((exists k c, n = ShortNode k c f) \/ (exists cs, n = FullNode cs f)) -> fhash f = Some hn ->
  hashes pooled par p n t.
Proof.
  intros Hl Hn Hf h Hr. exists h, (HashNode hn), n. assert (HF : flagOk Kept b p t f) by (destruct Hn as [(k & c & ->)|(cs & ->)]; by inversion Hl).
  unfold flagOk in HF. rewrite Hf in HF. destruct HF as [[-> Hp] _]. split; [destruct Hn as [(k & c & ->)|(cs & ->)]; cbn [hash]; by rewrite Hf|].
  split; [done|]. split; [by apply hashedAs_hash|]. eapply loads_hashed; [done|]. destruct Hn as [(k & c & ->)|(cs & ->)]; by rewrite Hf.
Qed.

Lemma hash_ref pooled par b p h t : loads Node (hashMarks Kept) b p (HashNode h) t -> hashes pooled par p (HashNode h) t.
Proof.
  intros Hl h0 Hr. inversion Hl as [| | | |? ? ? ? ? ? Hrf _ _ _]; subst. destruct Hrf as [[-> Hp] _]. eexists _, _, _. split; [done|]. split; [done|].
  split; [by apply hashedAs_hash|]. by eapply loads_hashed.
Qed.

Lemma hashed_path (p k : list Z) : k <> [] -> p ++ k <> [].
Proof. intros Hk Hn. by apply app_eq_nil in Hn as [_ ?]. Qed.

Lemma goodValue_encodes v : goodValue v -> encodes (ValueNode v) (encStr v).
Proof. intros (_ & _ & Hv). apply encodes_value. unfold limit in Hv. lia. Qed.

(** What [hash] answers once the children are done. *)
Lemma hash_finish p t b f n h (toHash := fun h n => shortnodeToHash sha h n (bool_decide (p = []))) : ready h -> isNil n = false -> isHash n = false ->
  encodes n (tenc sha t) -> fhash f = None -> flagOk Kept b p t f ->
  exists h' hn, toHash h n = Done (h', hn) /\ fullnodeToHash sha h n (bool_decide (p = [])) = Done (h', hn) /\ ready h' /\ hashedAs p t hn /\ flagOk Kept true p t (cachedFlag hn f).
Proof.
  intros Hr Hn Hh He Hf HF. destruct (nodeToHash_spec h n t p Hr Hn Hh He) as (h' & hn & H1 & H2 & Hr' & Ha). exists h', hn. do 4 (split; [done|]).
  by eapply hashedAs_flag.
Qed.

Lemma below_cached hn f : below true (cachedFlag hn f) = true.
Proof. done. Qed.

(** The children of a short node. *)
Lemma hashShortNodeChildren_spec pooled par b p k c t h : ready h -> good (TShort k t) -> loads Node (hashMarks Kept) b (p ++ k) c t ->
  (good t -> hashes pooled par (p ++ k) c t) ->
  exists h' coll cach, hashShortNodeChildren (fun h n => hash sha pooled par h n false) h k c = Done (h', (compactOf k, coll, cach)) /\ ready h' /\
    encodes coll (embed sha t (tenc sha t)) /\ loads Node (hashMarks Kept) true (p ++ k) cach t.
Proof.
  intros Hr Hg Hl IH. destruct (good_below k t Hg) as (term & ns & Hkt & Hn & Hk & Hlen & Hb). destruct (hexToCompact_good term ns Hn) as (HC & _ & _). rewrite <-Hkt in HC.
  unfold hashShortNodeChildren. rewrite HC. cbn [mbind outcome_bind]. destruct term.
  - destruct Hb as (v & Hv & ->). apply loads_value_inv in Hl as ->. eexists _, _, _. split; [done|]. split; [done|]. split; [by apply goodValue_encodes|constructor].
  - destruct Hb as (ts & -> & Hgt). specialize (IH Hgt). pose proof (hashed_path p k Hk) as Hp. destruct (IH h Hr) as (h' & hn & n' & Hh & Hr' & Ha & Hl').
    rewrite bool_decide_eq_false_2 in Hh by done. inversion Hl; subst.
    + rewrite Hh. cbn [mbind outcome_bind]. eexists _, _, _. split; [done|]. split; [done|]. split; [by eapply hashedAs_embed|done].
    + injection Hh as <- <- <-. eexists _, _, _. split; [done|]. split; [done|]. split; [by eapply hashedAs_embed|done].
Qed.

(** The children of a full node. *)
Lemma hashChildren_ready pooled (par par' : bool) b p cs ts f h : ready pooled -> ready h -> good (TFull ts) -> loads Node (hashMarks Kept) b p (FullNode cs f) (TFull ts) ->
  (forall i c t, cs !! i = Some c -> ts !! i = Some t -> good t -> hashes pooled par' (p ++ [Z.of_nat i]) c t) ->
  exists h' coll cach, hashFullNodeChildren (if par then Some pooled else None) (fun h n => hash sha pooled par' h n false) h cs = Done (h', (coll, cach)) /\ ready h' /\
    Forall2 encodes coll ((fun t => embed sha t (tenc sha t)) <$> ts) /\ length cach = length ts /\
    forall j c t, cach !! j = Some c -> ts !! j = Some t -> loads Node (hashMarks Kept) true (p ++ [Z.of_nat j]) c t.
Proof.
  intros Hpool Hr Hg Hl IH. inversion Hl as [| | |? ? ? ? ? _ Hlen Hc|]; subst. inversion Hg as [| |? H17 Hgc Hg16]; subst.
  apply (hashFullNodeChildren_spec _ _ p cs ts 0 h Hlen Hr); cbn [Nat.add].
  - intros j c t Hcj Htj Hj. destruct (decide (t = TNil)) as [->|Hn].
    + specialize (Hc j c TNil Hcj Htj). apply loads_nil_inv in Hc as ->. apply childHashes_nil.
    + assert (Hgt : good t) by (apply (Hgc j); [lia|done|done]). apply childHashes_hashes; [by apply hashed_path|done| |done|destruct par; [by right|by left]|by apply IH].
      specialize (Hc j c t Hcj Htj). destruct (isNil c) eqn:Hcn; [|done]. by apply (loads_isNil _ _ _ _ _ _ Hc) in Hcn.
  - intros j c t Hcj Htj Hj. assert (j = 16%nat) as -> by lia. specialize (Hc 16%nat c t Hcj Htj). destruct (decide (t = TNil)) as [->|Hn].
    + apply loads_nil_inv in Hc as ->. split; [apply encodes_nil|constructor].
    + destruct (Hg16 t Htj Hn) as (v & Hv & ->). apply loads_value_inv in Hc as ->. split; [by apply goodValue_encodes|constructor].
Qed.

(** [hash] answers the hash of the tree, or a node that encodes it; the node it
    keeps stands for the same tree and has all its hashes. *)
Lemma hash_spec pooled b p n t : ready pooled -> loads Node (hashMarks Kept) b p n t -> good t -> forall par, hashes pooled par p n t.
Proof.
  intros Hpool Hl. induction Hl as [| |b p k c t f Hf Hl IH|b p cs ts f Hf Hlen Hl IH|b p h blob n t Hr Hrd Hd Hl IH]; intros Hg par; [by inversion Hg|by inversion Hg| | |].
  - destruct (fhash f) as [hn|] eqn:Hfh; [eapply hash_cached; [by constructor|left; by eexists _, _|done]|]. intros h Hr. cbn [hash]. rewrite Hfh.
    destruct (hashShortNodeChildren_spec pooled par _ p k c t h Hr Hg Hl) as (h1 & coll & cach & -> & Hr1 & He & Hlc); [intros Hgt; by apply IH|]. cbn [mbind outcome_bind].
    pose proof (body_le sha sha_len _ Hg) as HB. cbn [body] in HB.
    destruct (hash_finish p (TShort k t) b f (ShortNode (compactOf k) coll f) h1) as (h2 & hn & -> & _ & Hr2 & Ha & HF); [done|done|done|apply (encodes_short _ _ (embed sha t (tenc sha t))); [eapply Z.lt_trans; [exact HB|done]|done]|done|done|].
    cbn [mbind outcome_bind]. eexists _, _, _. split; [done|]. split; [done|]. split; [done|]. by constructor.
  - assert (Hln : loads Node (hashMarks Kept) b p (FullNode cs f) (TFull ts)) by (by constructor).
    destruct (fhash f) as [hn|] eqn:Hfh; [eapply hash_cached; [exact Hln|right; by eexists|done]|]. intros h Hr. cbn [hash]. rewrite Hfh.
    destruct (hashChildren_ready pooled par (if par then false else par) b p cs ts f h Hpool Hr Hg Hln) as (h1 & coll & cach & -> & Hr1 & He & Hlc & HLc).
    { intros i c t Hc Ht Hgt. by eapply IH. }
    cbn [mbind outcome_bind]. pose proof (body_le sha sha_len _ Hg) as HB. cbn [body] in HB.
    destruct (hash_finish p (TFull ts) b f (FullNode coll f) h1) as (h2 & hn & _ & -> & Hr2 & Ha & HF); [done|done|done|apply (encodes_full _ ((fun t => embed sha t (tenc sha t)) <$> ts)); [eapply Z.lt_trans; [exact HB|done]|done]|done|done|].
    cbn [mbind outcome_bind]. eexists _, _, _. split; [done|]. split; [done|]. split; [done|]. by constructor.
  - eapply hash_ref. by econstructor.
Qed.
End Hashing.
End Correct.
