(* ===== verification/TrieNode.v ===== *)
(** * Stored nodes

    Decoding ([trie/node.go]) what the hasher encodes gives the node back with
    references in place of its larger children, and a hash binds the tree below
    it: two trees with the same hash are the same unless the hash function
    collides. *)

From S2P Require Import Prelude Bytes RlpRaw RlpEncode TrieKeys Trie TrieSpec TrieMap TrieHash.

Local Open Scope Z_scope.

Section Stored.
Context (sha : list Z -> list Z) (sha_len : forall b, length (sha b) = 32%nat).

(** A child in the decoded node of its parent. *)
Definition refTo (t : tree) (n : node) : node :=
  match t with
  | TNil | TValue _ => n
  | _ => if decide (length (tenc sha t) < 32)%nat then n else HashNode (sha (tenc sha t))
  end.

(** The decoded node of a tree. *)
Fixpoint shallow (h : option (list Z)) (t : tree) : node :=
  match t with
  | TNil => NilNode
  | TValue v => ValueNode v
  | TShort k t => ShortNode k (refTo t (shallow None t)) (mkFlag h false)
  | TFull ts => FullNode ((fun t => refTo t (shallow None t)) <$> ts) (mkFlag h false)
  end.

Lemma embed_of_small t : (length (tenc sha t) < 32)%nat -> embed sha t (tenc sha t) = tenc sha t.
Proof. intros Hlt. destruct t; [done|done|cbn [embed]; by rewrite decide_True..]. Qed.

(** The item a child is in the list of its parent. *)
Definition item (t : tree) : Kind * list Z :=
  match t with
  | TNil => (KString, [])
  | TValue v => (strKind v, v)
  | _ => if decide (length (tenc sha t) < 32)%nat then (KList, body sha t) else (KString, sha (tenc sha t))
  end.

Lemma good_cases t : good t ->
  embed sha t (tenc sha t) = (if decide (length (tenc sha t) < 32)%nat then tenc sha t else encStr (sha (tenc sha t))) /\
  item t = (if decide (length (tenc sha t) < 32)%nat then (KList, body sha t) else (KString, sha (tenc sha t))) /\
  forall n, refTo t n = if decide (length (tenc sha t) < 32)%nat then n else HashNode (sha (tenc sha t)).
Proof. intros Hg. destruct t; [by inversion Hg|by inversion Hg|split_and!; reflexivity..]. Qed.

Lemma embed_item t : (t <> TNil -> good t \/ exists v, goodValue v /\ t = TValue v) -> embed sha t (tenc sha t) = encKind (item t).1 (item t).2 /\ canonical (item t).1 (item t).2.
Proof.
  intros Ht. destruct (decide (t = TNil)) as [->|Hn]; [done|]. destruct (Ht Hn) as [Hg|(v & _ & ->)]; [|cbn [embed tenc item]; apply encStr_encKind].
  destruct (good_cases t Hg) as (-> & -> & _). case_decide; cbn [fst snd].
  - by rewrite (tenc_body sha t Hg).
  - pose proof (sha_len (tenc sha t)) as Hs. destruct (encStr_encKind (sha (tenc sha t))) as [-> HC].
    assert (HK : strKind (sha (tenc sha t)) = KString) by (unfold strKind; by destruct (sha (tenc sha t)) as [|x [|y l]]). by rewrite HK in HC |- *.
Qed.

(** ** References *)

Lemma decodeRef_embed dec t rest : (t <> TNil -> good t) -> Z.of_nat (length (embed sha t (tenc sha t) ++ rest)) < 2 ^ 63 ->
  ((length (tenc sha t) < 32)%nat -> t <> TNil -> dec (tenc sha t ++ rest) = Done (inr (shallow None t))) ->
  decodeRef dec (embed sha t (tenc sha t) ++ rest) = Done (inr (refTo t (shallow None t), rest)).
Proof.
  intros Hg Hl Hd. destruct (embed_item t) as [HE HC]; [intros Hn; left; by apply Hg|]. unfold decodeRef. rewrite HE in Hl |- *. rewrite Split_encKind by done. cbn [liftErr nbind ok].
  destruct (decide (t = TNil)) as [->|Hn]; [done|]. specialize (Hg Hn).
  destruct (good_cases t Hg) as (_ & HI & ->). rewrite HI. destruct (decide (length (tenc sha t) < 32)%nat) as [Hlt|Hge]; cbn [fst snd].
  - rewrite decide_True by done. assert (HB : encKind KList (body sha t) = tenc sha t) by (by rewrite (tenc_body sha t Hg)). rewrite HB, length_app, decide_False by (unfold hashLen; lia).
    by rewrite Hd.
  - rewrite decide_False by done. rewrite decide_False by (rewrite sha_len; lia). by rewrite decide_True by (by rewrite sha_len).
Qed.

Lemma decodeChildren_embed dec : forall ts rest, Forall (fun t => t <> TNil -> good t) ts ->
  Z.of_nat (length (concat ((fun t => embed sha t (tenc sha t)) <$> ts) ++ rest)) < 2 ^ 63 ->
  Forall (fun t => (length (tenc sha t) < 32)%nat -> t <> TNil -> forall rest, Z.of_nat (length (tenc sha t ++ rest)) < 2 ^ 63 -> dec (tenc sha t ++ rest) = Done (inr (shallow None t))) ts ->
  decodeChildren dec (length ts) (concat ((fun t => embed sha t (tenc sha t)) <$> ts) ++ rest) = Done (inr ((fun t => refTo t (shallow None t)) <$> ts, rest)).
Proof.
  induction ts as [|t ts IH]; intros rest Hg Hl Hd; [done|]. apply Forall_cons in Hg as [Hgt Hg], Hd as [Hdt Hd]. rewrite fmap_cons in Hl |- *. cbn [concat length decodeChildren] in *.
  rewrite <-(assoc_L (++)) in Hl |- *. rewrite decodeRef_embed; [|done|done|].
  - cbn [nbind]. rewrite IH; [done|done| |done]. rewrite length_app in Hl. lia.
  - intros Hlt Hn. apply Hdt; [done|done|]. by rewrite embed_of_small in Hl.
Qed.

(** ** Nodes *)

Lemma CountValues_items (vs : list (Kind * list Z)) : canonicalAll vs -> Z.of_nat (length (encAll vs)) < 2 ^ 63 -> CountValues (encAll vs) = ok (Z.of_nat (length vs)).
Proof. intros Hc Hl. unfold CountValues. pose proof (length_encAll vs Hc Hl). rewrite countLoop_encAll by (done || lia). by rewrite Z.add_0_l. Qed.

Lemma SplitString_encStr b rest : Z.of_nat (length (encStr b ++ rest)) < 2 ^ 63 -> SplitString (encStr b ++ rest) = ok (b, rest).
Proof.
  intros Hl. destruct (encStr_encKind b) as [HE HC]. rewrite HE in Hl |- *. unfold SplitString. rewrite Split_encKind by done. cbn [ok rbind].
  rewrite decide_False; [done|]. unfold strKind. repeat case_match; try done; by case_decide.
Qed.

Lemma body_items t : good t -> exists vs, body sha t = encAll vs /\ canonicalAll vs /\ length vs = match t with TShort _ _ => 2%nat | _ => 17%nat end.
Proof.
  intros Hg. destruct t as [|v|k t|ts]; [by inversion Hg..| |]; cbn [body].
  - destruct (good_below k t Hg) as (term & ns & -> & Hn & _ & _ & Hb). destruct (embed_item t) as [HE HC].
    { intros _. destruct term; [by right|]. destruct Hb as (ts & -> & ?). by left. }
    destruct (encStr_encKind (compactOf (withTerm term ns))) as [HE' HC']. exists [(strKind (compactOf (withTerm term ns)), compactOf (withTerm term ns)); item t].
    rewrite HE, HE'. unfold encAll. cbn [map concat]. rewrite app_nil_r. split; [done|]. split; [|done]. by repeat constructor.
  - exists (item <$> ts). inversion Hg as [| |? Hl _ _]; subst. split; [|split; [|by rewrite length_fmap]].
    + unfold encAll. f_equal. change (map (fun v : Kind * list Z => encKind v.1 v.2) (item <$> ts)) with ((fun v : Kind * list Z => encKind v.1 v.2) <$> (item <$> ts)).
      rewrite <-list_fmap_compose. apply list_fmap_ext. intros i t Hi. by apply (embed_item t), (good_child ts i t).
    + unfold canonicalAll. apply Forall_fmap, Forall_lookup. intros i t Hi. apply (embed_item t). by apply (good_child ts i t).
Qed.

Lemma body_lt t : good t -> Z.of_nat (length (tenc sha t)) < 2 ^ 63 -> (length (body sha t) < length (tenc sha t))%nat.
Proof.
  intros Hg Hl. rewrite (tenc_body sha t Hg) in Hl |- *. pose proof (length_encList (body sha t)). unfold encList. rewrite length_app.
  pose proof (header_le 0xC0 0xF7 (length (body sha t)) ltac:(lia)). lia.
Qed.

(** Which decoder runs on the list of a node. *)
Lemma decodeNode_open t fuel h rest : good t -> (length (tenc sha t) <= fuel)%nat -> Z.of_nat (length (tenc sha t ++ rest)) < 2 ^ 63 ->
  exists fuel', (length (body sha t) <= fuel')%nat /\ Z.of_nat (length (body sha t)) < 2 ^ 63 /\ decodeNodeFuel fuel h (tenc sha t ++ rest) =
    match t with TShort _ _ => decodeShort (decodeNodeFuel fuel' None) h (body sha t) | _ => decodeFull (decodeNodeFuel fuel' None) h (body sha t) end.
Proof.
  intros Hg Hf Hl. assert (Hl0 : Z.of_nat (length (tenc sha t)) < 2 ^ 63) by (rewrite length_app in Hl; lia). pose proof (body_lt t Hg Hl0) as HL.
  destruct fuel as [|fuel]; [lia|]. exists fuel. split; [lia|]. split; [lia|]. cbn [decodeNodeFuel]. rewrite decide_False by (rewrite length_app; lia).
  assert (HS : SplitList (tenc sha t ++ rest) = ok (body sha t, rest)).
  { unfold SplitList. rewrite (tenc_body sha t Hg) in Hl |- *. change (encList (body sha t)) with (encKind KList (body sha t)) in Hl |- *. by rewrite Split_encKind. }
  rewrite HS. cbn [liftErr nbind ok]. destruct (body_items t Hg) as (vs & Hb & Hc & Hn).
  assert (HCV : CountValues (body sha t) = ok (Z.of_nat (length vs))) by (rewrite Hb; apply CountValues_items; [done|rewrite <-Hb; lia]).
  rewrite HCV, Hn. cbn [mbind outcome_bind ok]. by destruct t; [inversion Hg|inversion Hg|..].
Qed.

Lemma decodeShort_tenc fuel h k t : good (TShort k t) -> Z.of_nat (length (body sha (TShort k t))) < 2 ^ 63 ->
  (good t -> (length (tenc sha t) < 32)%nat -> decodeNodeFuel fuel None (tenc sha t) = Done (inr (shallow None t))) ->
  decodeShort (decodeNodeFuel fuel None) h (body sha (TShort k t)) = Done (inr (shallow h (TShort k t))).
Proof.
  intros Hg Hl Hd. destruct (good_below k t Hg) as (term & ns & -> & Hn & _ & _ & Hb). destruct (hexToCompact_good term ns Hn) as (_ & HC & _), (dropTerm_with term ns Hn) as [_ HT].
  cbn [body] in Hl |- *. unfold decodeShort. rewrite SplitString_encStr by done. cbn [liftErr nbind ok]. rewrite HC. cbn [mbind outcome_bind]. rewrite HT. rewrite length_app in Hl. destruct term.
  - destruct Hb as (v & Hv & ->). cbn [embed tenc] in Hl |- *. rewrite <-(app_nil_r (encStr v)), SplitString_encStr by (rewrite app_nil_r; lia). done.
  - destruct Hb as (ts & -> & Hgt). rewrite <-(app_nil_r (embed sha (TFull ts) _)), decodeRef_embed; [done|done|rewrite app_nil_r; lia|]. intros Hlt _. rewrite app_nil_r. by apply Hd.
Qed.

(** The children before the last and the value. *)
Lemma full_split (ts : list tree) : length ts = 17%nat -> exists pre t16, ts = pre ++ [t16] /\ length pre = 16%nat /\ ts !! 16%nat = Some t16 /\
  forall i u, pre !! i = Some u -> (i < 16)%nat /\ ts !! i = Some u.
Proof.
  intros H17. destruct (lookup_lt_is_Some_2 ts 16) as [t16 Ht16]; [lia|]. exists (take 16 ts), t16.
  assert (Hts : ts = take 16 ts ++ [t16]) by (rewrite <-(take_drop_middle ts 16 t16 Ht16) at 1; by rewrite (drop_ge ts) by lia).
  split; [done|]. split; [rewrite length_take; lia|]. split; [done|]. intros i u Hi. pose proof (lookup_lt_Some _ _ _ Hi) as Hlt. rewrite length_take in Hlt. split; [lia|].
  rewrite Hts. by apply lookup_app_l_Some.
Qed.

Lemma length_embed_in ts i u : ts !! i = Some u -> (length (embed sha u (tenc sha u)) <= length (concat ((fun t => embed sha t (tenc sha t)) <$> ts)))%nat.
Proof.
  intros Hi%list_elem_of_lookup_2. apply list_elem_of_split in Hi as (l1 & l2 & ->). rewrite fmap_app, fmap_cons, concat_app. cbn [concat]. rewrite !length_app. lia.
Qed.

Lemma decodeFull_tenc fuel h ts : good (TFull ts) -> Z.of_nat (length (body sha (TFull ts))) < 2 ^ 63 ->
  (forall i u rest, (i < 16)%nat -> ts !! i = Some u -> u <> TNil -> (length (tenc sha u) < 32)%nat -> Z.of_nat (length (tenc sha u ++ rest)) < 2 ^ 63 ->
     decodeNodeFuel fuel None (tenc sha u ++ rest) = Done (inr (shallow None u))) ->
  decodeFull (decodeNodeFuel fuel None) h (body sha (TFull ts)) = Done (inr (shallow h (TFull ts))).
Proof.
  intros Hg Hl Hd. inversion Hg as [| |? H17 Hc H16]; subst. destruct (full_split ts H17) as (pre & t16 & Hts & Hpre & Ht16 & HP). cbn [body shallow] in Hl |- *. unfold decodeFull.
  rewrite Hts in Hl |- *. rewrite fmap_app, concat_app, length_app in Hl. rewrite !fmap_app, concat_app. cbn [fmap list_fmap concat] in Hl |- *.
  rewrite app_nil_r in Hl |- *. rewrite <-Hpre at 1. rewrite decodeChildren_embed; [cbn [nbind]| |rewrite length_app; lia|].
  - assert (H16' : exists v, embed sha t16 (tenc sha t16) = encStr v /\ refTo t16 (shallow None t16) = if decide (0 < length v)%nat then ValueNode v else NilNode).
    { destruct (decide (t16 = TNil)) as [->|Hne]; [by exists []|]. destruct (H16 t16 Ht16 Hne) as (v & (Hv & _) & ->). exists v. split; [done|]. by destruct v. }
    destruct H16' as (v & HE & ->). rewrite HE in Hl |- *. rewrite <-(app_nil_r (encStr v)), SplitString_encStr by (rewrite app_nil_r; lia). done.
  - apply Forall_lookup. intros i u Hi Hne. destruct (HP i u Hi) as [Hi16 Hu]. by eapply Hc.
  - apply Forall_lookup. intros i u Hi Hlt Hne rest' Hl'. destruct (HP i u Hi) as [Hi16 Hu]. by eapply Hd.
Qed.

(** The decoder on the encoding of a tree, whatever follows it. *)
Lemma decodeNode_tenc t : good t -> forall fuel h rest, (length (tenc sha t) <= fuel)%nat -> Z.of_nat (length (tenc sha t ++ rest)) < 2 ^ 63 ->
  decodeNodeFuel fuel h (tenc sha t ++ rest) = Done (inr (shallow h t)).
Proof.
  intros Hg. pose proof Hg as Hg0. induction Hg as [ns v Hn Hl Hv|k ts Hk Hn Hl Hg IH|ts H17 Hc IH H16]; intros fuel h rest Hf Hlen;
    destruct (decodeNode_open _ fuel h rest Hg0 Hf Hlen) as (fuel' & Hf' & Hbl & ->).
  - apply decodeShort_tenc; [done|done|]. intros Hgv _. inversion Hgv.
  - apply decodeShort_tenc; [done|done|]. intros _ Hlt. rewrite <-(app_nil_r (tenc sha (TFull ts))). cbn [body] in Hf', Hbl. rewrite embed_of_small, length_app in Hf', Hbl by done.
    apply IH; [done|lia|rewrite app_nil_r; lia].
  - apply decodeFull_tenc; [done|done|]. intros i u rest' Hi Hu Hne Hlt Hlen'. pose proof (length_embed_in ts i u Hu) as Hin. rewrite embed_of_small in Hin by done. cbn [body] in Hf'.
    eapply IH; [done|done|done|by eapply Hc|lia|done].
Qed.

Lemma tenc_le t : good t -> Z.of_nat (length (tenc sha t)) < 2 ^ 63.
Proof. intros Hg. pose proof (body_le sha sha_len t Hg) as HB. rewrite (tenc_body sha t Hg). pose proof (length_encList_le (body sha t) ltac:(lia)). lia. Qed.

Lemma mustDecodeNode_tenc t h : good t -> mustDecodeNode h (tenc sha t) = Done (shallow h t).
Proof.
  intros Hg. pose proof (tenc_le t Hg) as Hl. unfold mustDecodeNode, decodeNode. rewrite <-(app_nil_r (tenc sha t)) at 2. rewrite (decodeNode_tenc t Hg); [done|lia|by rewrite app_nil_r].
Qed.

(** ** The hash binds the tree *)

(** The encodings of the nodes of a tree. *)
Fixpoint encodings (t : tree) : list (list Z) :=
  match t with
  | TNil | TValue _ => []
  | TShort _ c => tenc sha t :: encodings c
  | TFull ts => tenc sha t :: concat (encodings <$> ts)
  end.

Lemma encodings_self t : good t -> tenc sha t ∈ encodings t.
Proof. intros Hg. destruct t; [by inversion Hg|by inversion Hg|constructor..]. Qed.

Lemma encodings_child ts i t e : ts !! i = Some t -> e ∈ encodings t -> e ∈ encodings (TFull ts).
Proof.
  intros Hi He. cbn [encodings]. right. apply list_elem_of_lookup_2, list_elem_of_split in Hi as (l1 & l2 & ->). rewrite fmap_app, fmap_cons, concat_app. cbn [concat].
  apply elem_of_app. right. apply elem_of_app. by left.
Qed.

(** Two of the given inputs have the same hash. *)
Definition collides (l1 l2 : list (list Z)) : Prop := exists a b, a ∈ l1 /\ b ∈ l2 /\ a <> b /\ sha a = sha b.

Lemma tenc_shallow t1 t2 : good t1 -> good t2 -> tenc sha t1 = tenc sha t2 -> shallow None t1 = shallow None t2.
Proof. intros H1 H2 He. pose proof (mustDecodeNode_tenc t1 None H1) as E1. pose proof (mustDecodeNode_tenc t2 None H2) as E2. rewrite He in E1. congruence. Qed.

(** A child of a node in minimal form. *)
Definition childOk (t : tree) : Prop := t = TNil \/ (exists v, t = TValue v) \/ good t.

Lemma refTo_shape t : good t -> (exists h, refTo t (shallow None t) = HashNode h) \/ (exists k c f, refTo t (shallow None t) = ShortNode k c f) \/ (exists cs f, refTo t (shallow None t) = FullNode cs f).
Proof.
  intros Hg. destruct (good_cases t Hg) as (_ & _ & ->). case_decide; [right|left; by eexists].
  destruct t; [by inversion Hg|by inversion Hg|left; by eexists _, _, _|right; by eexists _, _].
Qed.

Section Binding.
Context (L1 L2 : list (list Z)).

(** The trees whose encodings are among the given ones. *)
Definition among (L : list (list Z)) (t : tree) : Prop := forall e, e ∈ encodings t -> e ∈ L.

Definition sameOr (t1 t2 : tree) : Prop := t1 = t2 \/ collides L1 L2.

Lemma refTo_inj t1 t2 : (good t1 -> forall t2, good t2 -> among L2 t2 -> shallow None t1 = shallow None t2 -> sameOr t1 t2) -> childOk t1 -> childOk t2 -> among L1 t1 -> among L2 t2 ->
  refTo t1 (shallow None t1) = refTo t2 (shallow None t2) -> sameOr t1 t2.
Proof.
  intros IH H1 H2 A1 A2 He. destruct H1 as [->|[(v1 & ->)|H1]], H2 as [->|[(v2 & ->)|H2]]; try (by left); try done;
    try (destruct (refTo_shape _ H1) as [(? & Hx)|[(? & ? & ? & Hx)|(? & ? & Hx)]]; rewrite Hx in He; done);
    try (destruct (refTo_shape _ H2) as [(? & Hx)|[(? & ? & ? & Hx)|(? & ? & Hx)]]; rewrite Hx in He; done).
  { injection He as ->. by left. }
  destruct (good_cases t1 H1) as (_ & _ & E1), (good_cases t2 H2) as (_ & _ & E2). rewrite E1, E2 in He. repeat case_decide; [by apply IH| | |].
  - destruct t2; [by inversion H2|by inversion H2|cbn [shallow] in He; done..].
  - destruct t1; [by inversion H1|by inversion H1|cbn [shallow] in He; done..].
  - injection He as He. destruct (decide (tenc sha t1 = tenc sha t2)) as [Ht|Ht]; [apply IH; [done|done|done|by apply tenc_shallow]|right].
    exists (tenc sha t1), (tenc sha t2). split; [by apply A1, encodings_self|]. split; [by apply A2, encodings_self|done].
Qed.

Lemma all_or_collides (l1 l2 : list tree) : Forall2 sameOr l1 l2 -> l1 = l2 \/ collides L1 L2.
Proof. induction 1 as [|a b l1 l2 [->|?] _ [->|?]]; [by left|by left|by right..]. Qed.

Lemma childOk_full ts i t : good (TFull ts) -> ts !! i = Some t -> childOk t.
Proof.
  intros Hg Hi. destruct (decide (t = TNil)) as [->|Hn]; [by left|right]. destruct (good_child ts i t Hg Hi Hn) as [?|(v & _ & ->)]; [by right|left; by exists v].
Qed.

Lemma childOk_short k t : good (TShort k t) -> childOk t.
Proof. intros Hg. destruct (good_below _ _ Hg) as (term & ? & _ & _ & _ & _ & Hb). destruct term; [destruct Hb as (w & _ & ->); right; left; by exists w|destruct Hb as (? & _ & ?); by right; right]. Qed.

Lemma among_short L k t : among L (TShort k t) -> among L t.
Proof. intros HA e He. apply HA. by right. Qed.

Lemma among_full L ts i t : among L (TFull ts) -> ts !! i = Some t -> among L t.
Proof. intros HA Hi e He. apply HA. by eapply encodings_child. Qed.

Lemma shallow_inj t1 : good t1 -> among L1 t1 -> forall t2, good t2 -> among L2 t2 -> shallow None t1 = shallow None t2 -> sameOr t1 t2.
Proof.
  induction 1 as [ns v Hn Hl Hv|k ts Hk Hn Hl Hg IH|ts H17 Hc IH H16]; intros A1 t2 H2 A2 He.
  - destruct t2 as [|w|k2 c2|ts2]; [done|done| |done]. cbn [shallow refTo] in He. injection He as <- He.
    destruct (refTo_inj (TValue v) c2) as [->|?]; [by inversion 1|right; left; by eexists|by eapply childOk_short|by eapply among_short|by eapply among_short|done|by left|by right].
  - destruct t2 as [|w|k2 c2|ts2]; [done|done| |done]. cbn [shallow] in He. injection He as <- He. apply among_short in A1, A2.
    destruct (refTo_inj (TFull ts) c2) as [->|?]; [intros _; by apply IH|by right; right|by eapply childOk_short|done|done|done|by left|by right].
  - destruct t2 as [|w|k2 c2|ts2]; [done|done|done|]. cbn [shallow] in He. injection He as He. assert (Hg1 : good (TFull ts)) by (by constructor).
    destruct (all_or_collides ts ts2) as [->|?]; [|by left|by right]. pose proof (f_equal length He) as Hlen. rewrite !length_fmap in Hlen.
    apply Forall2_same_length_lookup_2; [done|]. intros i a b Ha Hb. apply (f_equal (fun l => l !! i)) in He. rewrite !list_lookup_fmap, Ha, Hb in He. injection He as He.
    apply refTo_inj; [|exact (childOk_full ts i a Hg1 Ha)|exact (childOk_full ts2 i b H2 Hb)|by eapply among_full|by eapply among_full|done]. intros Hga.
    destruct (decide (i < 16)%nat); [apply (IH i a); [done|done|by intros ->; inversion Hga|by eapply among_full]|].
    pose proof (lookup_lt_Some _ _ _ Ha). assert (i = 16%nat) as -> by lia. destruct (H16 a Ha) as (v & _ & ->); [by intros ->; inversion Hga|inversion Hga].
Qed.
End Binding.

Lemma tenc_not_empty t : good t -> tenc sha t <> [0x80].
Proof.
  intros Hg He. pose proof (tenc_le t Hg) as Hl. rewrite (tenc_body sha t Hg) in He, Hl. pose proof (length_encList (body sha t)).
  unfold encList, header in He. case_decide; injection He; lia.
Qed.

(** Trees with the same hash are the same, or two of the encodings collide. *)
Lemma rootHash_inj t1 t2 : (t1 <> TNil -> good t1) -> (t2 <> TNil -> good t2) -> rootHash sha (sha [0x80]) t1 = rootHash sha (sha [0x80]) t2 ->
  t1 = t2 \/ collides ([0x80] :: encodings t1) ([0x80] :: encodings t2).
Proof.
  assert (HS : forall t, good t -> rootHash sha (sha [0x80]) t = sha (tenc sha t)) by (by destruct 1).
  assert (HA : forall t, among ([0x80] :: encodings t) t) by (intros t e He; by right).
  intros H1 H2 He. destruct (decide (t1 = TNil)) as [->|N1], (decide (t2 = TNil)) as [->|N2]; [by left| | |].
  - specialize (H2 N2). right. exists [0x80], (tenc sha t2). rewrite (HS t2 H2) in He. split; [by left|]. split; [right; by apply encodings_self|]. split; [intros Hx; by apply (tenc_not_empty t2)|done].
  - specialize (H1 N1). right. exists (tenc sha t1), [0x80]. rewrite (HS t1 H1) in He. split; [right; by apply encodings_self|]. split; [by left|]. split; [by apply tenc_not_empty|done].
  - specialize (H1 N1). specialize (H2 N2). rewrite (HS t1 H1), (HS t2 H2) in He. destruct (decide (tenc sha t1 = tenc sha t2)) as [Ht|Ht].
    + apply (shallow_inj _ _ t1); [done|apply HA|done|apply HA|by apply tenc_shallow].
    + right. exists (tenc sha t1), (tenc sha t2). split; [right; by apply encodings_self|]. split; [right; by apply encodings_self|done].
Qed.
End Stored.
