(* ===== verification/TrieCommit.v ===== *)
(** * Committing the trie

    [trie/committer.go], the node sets of [trie/trienode/node.go] and [Commit]
    and [Reset] of [trie/trie.go]: the changed nodes of a trie are collected,
    hashed and encoded, for the database to store them under their paths.

    The database is the interface [updatedBy]: what it answers after it has
    taken a node set. *)

From S2P Require Import Prelude Bytes RlpRaw RlpEncode TrieKeys Trie TrieSpec TrieMap TrieHash TrieNode.

Local Open Scope Z_scope.

(** ** Node sets *)

Record trienode := mkTrienode { tnHash : Hash; tnBlob : list Z }.

Definition IsDeleted (n : trienode) : bool := bool_decide (tnHash n = zeroHash).
Definition NewDeleted : trienode := mkTrienode zeroHash [].

(** A leaf is its parent and its bytes. *)
Record NodeSet := mkNodeSet { nsOwner : Hash; Leaves : list (Hash * list Z); Nodes : gmap (list Z) trienode; nsUpdates : Z; nsDeletes : Z }.

Definition NewNodeSet (owner : Hash) : NodeSet := mkNodeSet owner [] ∅ 0 0.

Definition AddNode (set : NodeSet) (path : list Z) (n : trienode) : NodeSet :=
  if IsDeleted n
  then mkNodeSet (nsOwner set) (Leaves set) (<[path := n]> (Nodes set)) (nsUpdates set) (nsDeletes set + 1)
  else mkNodeSet (nsOwner set) (Leaves set) (<[path := n]> (Nodes set)) (nsUpdates set + 1) (nsDeletes set).

Definition AddLeaf (set : NodeSet) (parent : Hash) (blob : list Z) : NodeSet :=
  mkNodeSet (nsOwner set) (Leaves set ++ [(parent, blob)]) (Nodes set) (nsUpdates set) (nsDeletes set).

(** [Merge] of the nodes of another set, in the order of the iteration; the
    counters of a node that is replaced are taken back. *)
Definition mergeNode (set : NodeSet) (pn : list Z * trienode) : NodeSet :=
  let set := match Nodes set !! pn.1 with
             | Some prev =>
                 if IsDeleted prev
                 then mkNodeSet (nsOwner set) (Leaves set) (Nodes set) (nsUpdates set) (nsDeletes set - 1)
                 else mkNodeSet (nsOwner set) (Leaves set) (Nodes set) (nsUpdates set - 1) (nsDeletes set)
             | None => set
             end in
  AddNode set pn.1 pn.2.

Definition nsMerge (set : NodeSet) (owner : Hash) (nodes : list (list Z * trienode)) : option NodeSet :=
  if decide (nsOwner set <> owner) then None else Some (foldl mergeNode set nodes).

(** The counters are those of the nodes. *)
Definition counted (set : NodeSet) : Prop :=
  nsUpdates set = Z.of_nat (base.size (filter (fun pn : list Z * trienode => IsDeleted pn.2 = false) (Nodes set))) /\
  nsDeletes set = Z.of_nat (base.size (filter (fun pn : list Z * trienode => IsDeleted pn.2 = true) (Nodes set))).

Lemma size_filter_insert (b : bool) (m : gmap (list Z) trienode) path n :
  Z.of_nat (base.size (filter (fun pn : list Z * trienode => IsDeleted pn.2 = b) (<[path := n]> m))) =
  Z.of_nat (base.size (filter (fun pn : list Z * trienode => IsDeleted pn.2 = b) m)) - (match m !! path with Some prev => if decide (IsDeleted prev = b) then 1 else 0 | None => 0 end)
    + (if decide (IsDeleted n = b) then 1 else 0).
Proof.
  set (P := fun pn : list Z * trienode => IsDeleted pn.2 = b). assert (HD : Z.of_nat (base.size (filter P (base.delete path m))) = Z.of_nat (base.size (filter P m)) - match m !! path with Some prev => if decide (IsDeleted prev = b) then 1 else 0 | None => 0 end).
  { rewrite map_filter_delete. destruct (m !! path) as [prev|] eqn:Hm.
    - destruct (decide (IsDeleted prev = b)) as [Hp|Hp].
      + assert (HL : filter P m !! path = Some prev) by (apply map_lookup_filter_Some_2; done). rewrite map_size_delete, HL.
        assert (base.size (filter P m) <> 0%nat) by (intros H0; apply map_size_empty_inv in H0; by rewrite H0, lookup_empty in HL). lia.
      + assert (HL : filter P m !! path = None) by (apply map_lookup_filter_None_2; right; intros x Hx; assert (x = prev) as -> by congruence; done). rewrite map_size_delete, HL; cbn; lia.
    - assert (HL : filter P m !! path = None) by (apply map_lookup_filter_None_2; by left). rewrite map_size_delete, HL; cbn; lia. }
  rewrite <-HD. rewrite <-insert_delete_eq. assert (HN : filter P (base.delete path m) !! path = None) by (apply map_lookup_filter_None_2; left; apply lookup_delete_eq).
  case_decide as Hn; [rewrite map_filter_insert_True, map_size_insert, HN by done; lia|]. rewrite map_filter_insert_False by done. rewrite delete_delete_eq. lia.
Qed.

Lemma mergeNode_counted set pn : counted set -> counted (mergeNode set pn).
Proof.
  intros [Hu Hd]. destruct pn as [path n]. unfold mergeNode. cbn [fst snd]. pose proof (size_filter_insert false (Nodes set) path n) as Sf. pose proof (size_filter_insert true (Nodes set) path n) as St.
  unfold counted, AddNode. destruct (Nodes set !! path) as [prev|]; [destruct (IsDeleted prev) eqn:Hp|]; destruct (IsDeleted n) eqn:Hn; cbn [nsUpdates nsDeletes Nodes];
    rewrite Hu, Hd, Sf, St; repeat case_decide; try done; lia.
Qed.

(** Merging keeps the counters right. *)
Lemma nsMerge_counted set owner nodes set' : counted set -> nsMerge set owner nodes = Some set' -> counted set'.
Proof.
  unfold nsMerge. case_decide; [done|]. intros Hc [= <-]. clear - Hc. revert set Hc. induction nodes as [|pn nodes IH]; intros set Hc; [done|]. cbn [foldl].
  by apply IH, mergeNode_counted.
Qed.

(** ** The committer *)

Section Committer.
Context (pooled : encBuffer) (tr : tracer) (collectLeaf : bool).

(** [cache] *)
Definition cache (n : node) : outcome (option (list Z) * bool) :=
  match n with
  | ShortNode _ _ f | FullNode _ f => Done (fhash f, dirty f)
  | HashNode _ | ValueNode _ => Done (None, true)
  | NilNode => Panic
  end.

Definition storeNode (set : NodeSet) (path : list Z) (n : node) : outcome (NodeSet * node) :=
  '(hash, _) ← cache n;
  match hash with
  | None => Done (if decide (path ∈ dom (accessList tr)) then AddNode set path NewDeleted else set, n)
  | Some h =>
      blob ← nodeToBytes pooled n;
      let set := AddNode set path (mkTrienode (BytesToHash h) blob) in
      let set := if collectLeaf then match n with ShortNode _ (ValueNode val) _ => AddLeaf set (BytesToHash h) val | _ => set end else set in
      Done (set, HashNode h)
  end.

Section Children.
Context (commit : NodeSet -> list Z -> node -> outcome (NodeSet * node)) (path : list Z).

(** The children before the last, which stays; [i] is the index of the first. *)
Fixpoint commitChildren (set : NodeSet) (i : Z) (cs : list node) {struct cs} : outcome (NodeSet * list node) :=
  match cs with
  | [] => Done (set, [])
  | c :: cs =>
      match cs with
      | [] => Done (set, [c])
      | _ =>
          '(set, child) ← match c with NilNode | HashNode _ => Done (set, c) | _ => commit set (path ++ [i]) c end;
          '(set, children) ← commitChildren set (i + 1) cs;
          Done (set, child :: children)
      end
  end.
End Children.

Fixpoint commit (set : NodeSet) (path : list Z) (n : node) {struct n} : outcome (NodeSet * node) :=
  '(hash, isDirty) ← cache n;
  match hash, isDirty with
  | Some h, false => Done (set, HashNode h)
  | _, _ =>
      match n with
      | ShortNode k val f =>
          '(set, val) ← match val with FullNode _ _ => commit set (path ++ k) val | _ => Done (set, val) end;
          key ← hexToCompact k;
          storeNode set path (ShortNode key val f)
      | FullNode cs f =>
          '(set, hashedKids) ← commitChildren commit path set 0 cs;
          storeNode set path (FullNode hashedKids f)
      | HashNode _ => Done (set, n)
      | _ => Panic
      end
  end.

Definition committerCommit (set : NodeSet) (n : node) : outcome (NodeSet * node) :=
  '(set, n) ← commit set [] n;
  match n with HashNode _ => Done (set, n) | _ => Panic end.
End Committer.

(** [Reset] *)
Definition resetTrie (t : Trie) : Trie := mkTrie NilNode zeroHash false 0 newTracer.

(** [Commit]: the trie cannot be used any more. *)
Definition Commit (sha : list Z -> list Z) (emptyRoot : Hash) (pooled h : encBuffer) (t : Trie) (collectLeaf : bool) :
    outcome (Trie * (Hash * option NodeSet)) :=
  let deleted set := foldl (fun set path => AddNode set path NewDeleted) set (elements (deletedNodes (ttracer t))) in
  let finished root unhashed := mkTrie root (owner t) true unhashed newTracer in
  if isNil (root t) then
    if decide (deletedNodes (ttracer t) = ∅) then Done (finished NilNode (unhashed t), (emptyRoot, None))
    else Done (finished NilNode (unhashed t), (emptyRoot, Some (deleted (NewNodeSet (owner t)))))
  else
    '(t', rootHash) ← Hash_ sha emptyRoot pooled h t;
    '(hashedNode, isDirty) ← cache (root t');
    if negb isDirty
    then Done (finished match hashedNode with Some hn => HashNode hn | None => HashNode [] end (unhashed t'), (rootHash, None))
    else
      '(nodes, n) ← committerCommit pooled (ttracer t) collectLeaf (deleted (NewNodeSet (owner t))) (root t');
      Done (finished n (unhashed t'), (rootHash, Some nodes)).

(** ** What the database keeps *)

(** The short and full nodes of a tree with their paths. *)
Inductive subAt : tree -> list Z -> tree -> Prop :=
| sub_here t : match t with TShort _ _ | TFull _ => True | _ => False end -> subAt t [] t
| sub_short k t q s : subAt t q s -> subAt (TShort k t) (k ++ q) s
| sub_full ts i t q s : ts !! i = Some t -> subAt t q s -> subAt (TFull ts) (Z.of_nat i :: q) s.

Lemma subAt_nodeAt t q s : subAt t q s -> nodeAt t q.
Proof. induction 1 as [t Ht| |]; [destruct t; [done|done|constructor..]|by constructor|by econstructor]. Qed.

Lemma subAt_trans t q s q' s' : subAt t q s -> subAt s q' s' -> subAt t (q ++ q') s'.
Proof.
  induction 1 as [t Ht|k t q s Hs IH|ts i t q s Hi Hs IH]; intros Hs'; [done| |cbn [app]; econstructor; [done|by apply IH]].
  rewrite <-(assoc_L (++)). constructor. by apply IH.
Qed.

Section Kept.
Context (sha : list Z -> list Z) (sha_len : forall b, length (sha b) = 32%nat).

Definition nodeOf (s : tree) : trienode := mkTrienode (sha (tenc sha s)) (tenc sha s).

(** Every node of the tree that a reference stands for is stored under its path
    and hash. *)
Definition Kept (Node : list Z -> Hash -> option (list Z)) (p : list Z) (t : tree) : Prop :=
  forall q s, subAt t q s -> q = [] \/ (32 <= length (tenc sha s))%nat -> Node (p ++ q) (sha (tenc sha s)) = Some (tenc sha s).

Lemma BytesToHash_sha b : BytesToHash (sha b) = sha b.
Proof. apply BytesToHash_id. apply sha_len. Qed.

Lemma good_subAt t : good t -> subAt t [] t.
Proof. intros Hg. constructor. by destruct Hg. Qed.

Lemma subAt_root t q s : good t -> subAt t q s -> q = [] -> s = t.
Proof.
  intros Hg Hs Hq. destruct Hs as [t Ht|k t q s Hs|ts i t q s Hi Hs]; [done| |done]. apply app_eq_nil in Hq as [-> _]. by destruct (good_below _ _ Hg) as (? & ? & _ & _ & ? & _).
Qed.

Lemma tenc_cons t : good t -> exists b l, tenc sha t = b :: l.
Proof.
  intros Hg. pose proof (tenc_le sha sha_len t Hg) as Hl. pose proof (body_lt sha t Hg Hl). destruct (tenc sha t) as [|b l]; [simpl in *; lia|by exists b, l].
Qed.

Section Opening.
Context (Node : list Z -> Hash -> option (list Z)).
Let M := hashMarks sha (Kept Node).

Definition keptBelow (p : list Z) (t : tree) : Prop :=
  forall q s, subAt t q s -> q <> [] -> (32 <= length (tenc sha s))%nat -> Node (p ++ q) (sha (tenc sha s)) = Some (tenc sha s).

Definition opens (p : list Z) (t : tree) : Prop :=
  forall h, flagOk sha (Kept Node) true p t (mkFlag h false) -> keptBelow p t -> loads Node M true p (shallow sha h t) t.

(** A stored node opens from its reference. *)
Lemma kept_loads b p t : good t -> opens p t -> p = [] \/ (32 <= length (tenc sha t))%nat -> Kept Node p t -> loads Node M b p (HashNode (sha (tenc sha t))) t.
Proof.
  intros Hg Ho Hb HK. assert (HF : flagOk sha (Kept Node) true p t (mkFlag (Some (sha (tenc sha t))) false)) by (split; [by split|done]).
  assert (HL : loads Node M true p (shallow sha (Some (sha (tenc sha t))) t) t) by (apply Ho; [done|]; intros q s Hs _ Hbs; apply HK; [done|by right]).
  assert (HH : loads Node M true p (HashNode (sha (tenc sha t))) t); [|destruct b; [done|by eapply loads_mono]].
  destruct (tenc_cons t Hg) as (b0 & l0 & Ht). eapply (loads_hash Node M _ _ _ (tenc sha t)); [by split|..|exact HL].
  - unfold readerNode. rewrite BytesToHash_sha. specialize (HK [] t (good_subAt t Hg) (or_introl eq_refl)). rewrite app_nil_r in HK. rewrite HK. by rewrite Ht.
  - by apply mustDecodeNode_tenc.
Qed.

Lemma ref_loads b p t : p <> [] -> childOk t -> (good t -> opens p t) ->
  (forall q s, subAt t q s -> (32 <= length (tenc sha s))%nat -> Node (p ++ q) (sha (tenc sha s)) = Some (tenc sha s)) ->
  loads Node M b p (refTo sha t (shallow sha None t)) t.
Proof.
  intros Hp Hc Ho HK. destruct Hc as [->|[(v & ->)|Hg]]; [constructor|constructor|]. destruct (good_cases sha t Hg) as (_ & _ & ->). case_decide as Hlt.
  - assert (HH : loads Node M true p (shallow sha None t) t) by (apply (Ho Hg); [by intros _|intros q s Hs _ Hb; by apply HK]). destruct b; [done|by eapply loads_mono].
  - apply kept_loads; [done|by apply Ho|right; lia|]. intros q s Hs Hb. apply HK; [done|]. destruct Hb as [->|?]; [|done].
    apply subAt_root in Hs as ->; [lia|done|done].
Qed.

Lemma good_opens t : good t -> forall p, opens p t.
Proof.
  induction 1 as [ns v Hn Hl Hv|k ts Hk Hn Hl Hg IH|ts H17 Hc IH H16]; intros p h HF HK; cbn [shallow].
  - apply loads_short; [done|constructor].
  - apply loads_short; [done|]. apply ref_loads; [by apply hashed_path|by right; right|by intros _; apply IH|].
    intros q s Hs Hb. rewrite <-(assoc_L (++)). apply HK; [by constructor|by intros [? _]%app_eq_nil|done].
  - apply loads_full; [done|by rewrite length_fmap|]. intros i c t Hci Hti. rewrite list_lookup_fmap, Hti in Hci. injection Hci as <-.
    apply ref_loads; [by apply hashed_path|eapply childOk_full; [by constructor|done]| |].
    + intros Hgt. destruct (decide (i < 16)%nat); [apply (IH i t); [done|done|by intros ->; inversion Hgt]|]. pose proof (lookup_lt_Some _ _ _ Hti). assert (i = 16%nat) as -> by lia.
      destruct (H16 t Hti) as (v & _ & ->); [by intros ->; inversion Hgt|inversion Hgt].
    + intros q s Hs Hb. rewrite <-(assoc_L (++)). apply HK; [by econstructor|done|done].
Qed.
End Opening.

(** ** What the committer collects *)

Section Collecting.
Context (Node : list Z -> Hash -> option (list Z)) (pooled : encBuffer) (tr : tracer) (collectLeaf : bool).
Hypothesis pooled_ok : length (sizebuf pooled) = 9%nat.
Let M := hashMarks sha (Kept Node).

(** The stored nodes below [p] are in the new set, or in the database and
    untouched by the set. *)
Definition saved (p : list Z) (t : tree) (set set' : NodeSet) : Prop := forall q s, subAt t q s -> p ++ q = [] \/ (32 <= length (tenc sha s))%nat ->
  Nodes set' !! (p ++ q) = Some (nodeOf s) \/ (Nodes set' !! (p ++ q) = Nodes set !! (p ++ q) /\ Node (p ++ q) (sha (tenc sha s)) = Some (tenc sha s)).

Definition commits (p : list Z) (t : tree) (set : NodeSet) (o : outcome (NodeSet * node)) : Prop := exists set' n',
  o = Done (set', n') /\ hashedAs sha p t n' /\ (forall d, ~ p `prefix_of` d -> Nodes set' !! d = Nodes set !! d) /\ saved p t set set'.

Lemma Nodes_AddNode set path n : Nodes (AddNode set path n) = <[path := n]> (Nodes set).
Proof. unfold AddNode. by destruct (IsDeleted n). Qed.

Lemma nodeToBytes_spec n bs : isNil n = false -> encodes n bs -> nodeToBytes pooled n = Done bs.
Proof.
  intros Hn He. destruct (encodes_encode n bs (reset pooled) Hn He) as (w & Hw & Hws); [done|]. unfold nodeToBytes. rewrite Hw. cbn [mbind outcome_bind].
  destruct (encodedBytes_spec (reset pooled) w bs) as [HB _]; [by split|done|]. unfold encodedBytes in HB. destruct (makeBytes w) as [e| |]; [|done..]. by injection HB as ->.
Qed.

Lemma storeNode_spec set p n t f : (exists k c, n = ShortNode k c f) \/ (exists cs, n = FullNode cs f) -> encodes n (tenc sha t) -> flagOk sha (Kept Node) true p t f ->
  exists set' n', storeNode pooled tr collectLeaf set p n = Done (set', n') /\ hashedAs sha p t n' /\ (forall d, d <> p -> Nodes set' !! d = Nodes set !! d) /\
    (p = [] \/ (32 <= length (tenc sha t))%nat -> Nodes set' !! p = Some (nodeOf t)).
Proof.
  intros Hn He HF. assert (Hcache : cache n = Done (fhash f, dirty f)) by (destruct Hn as [(k & c & ->)|(cs & ->)]; done).
  assert (Hnil : isNil n = false /\ isHash n = false) by (destruct Hn as [(k & c & ->)|(cs & ->)]; done). destruct Hnil as [Hnil Hh].
  unfold storeNode. rewrite Hcache. cbn [mbind outcome_bind]. unfold flagOk in HF. destruct (fhash f) as [h|] eqn:Hf.
  - destruct HF as [[-> Hp] _]. rewrite (nodeToBytes_spec n _ Hnil He). cbn [mbind outcome_bind]. cbn zeta. rewrite BytesToHash_sha.
    set (set1 := AddNode set p _). assert (HN : Nodes set1 = <[p := nodeOf t]> (Nodes set)) by apply Nodes_AddNode.
    eexists _, _. split; [done|]. split; [by apply hashedAs_hash|]. set (set2 := if collectLeaf then _ else _). assert (HN2 : Nodes set2 = Nodes set1).
    { unfold set2. destruct collectLeaf; [|done]. destruct n as [| | |k c|]; [done..|by destruct c|done]. }
    rewrite HN2, HN. split; [intros d Hd; by rewrite lookup_insert_ne|intros _; by rewrite lookup_insert_eq].
  - destruct HF as [Hp Hlt]; [by left|]. eexists _, _. split; [done|]. split; [by apply hashedAs_node|]. split; [|intros [?|?]; [done|lia]].
    intros d Hd. case_decide; [|done]. rewrite Nodes_AddNode. by rewrite lookup_insert_ne.
Qed.

(** A node that is in the database already. *)
Lemma commits_kept p t set h : refOk sha p t h -> Kept Node p t -> commits p t set (Done (set, HashNode h)).
Proof.
  intros [-> Hp] HK. eexists _, _. split; [done|]. split; [by apply hashedAs_hash|]. split; [done|]. intros q s Hs Hb. right. split; [done|]. apply HK; [done|].
  destruct Hb as [[_ ?]%app_eq_nil|?]; [by left|by right].
Qed.

Lemma saved_mono p t set0 set set' set1 : saved p t set set' -> (forall d, p `prefix_of` d -> Nodes set !! d = Nodes set0 !! d) -> (forall d, p `prefix_of` d -> Nodes set1 !! d = Nodes set' !! d) ->
  saved p t set0 set1.
Proof.
  intros HS H0 H1 q s Hs Hb. assert (Hpre : p `prefix_of` p ++ q) by (by exists q). rewrite H1, <-H0 by done. by apply HS.
Qed.

Lemma subAt_short_inv k t q s : subAt (TShort k t) q s -> (q = [] /\ s = TShort k t) \/ exists q', q = k ++ q' /\ subAt t q' s.
Proof. inversion 1; subst; [by left|right; by eexists]. Qed.

Lemma subAt_full_inv ts q s : subAt (TFull ts) q s -> (q = [] /\ s = TFull ts) \/ exists i t q', q = Z.of_nat i :: q' /\ ts !! i = Some t /\ subAt t q' s.
Proof. inversion 1; subst; [by left|right; by eexists _, _, _]. Qed.

(** The node itself, after what is below it. *)
Lemma commits_store set0 set p n t f : (exists k c, n = ShortNode k c f) \/ (exists cs, n = FullNode cs f) -> encodes n (tenc sha t) -> flagOk sha (Kept Node) true p t f ->
  (forall d, ~ p `prefix_of` d -> Nodes set !! d = Nodes set0 !! d) ->
  (forall q s, subAt t q s -> q <> [] -> (32 <= length (tenc sha s))%nat ->
     Nodes set !! (p ++ q) = Some (nodeOf s) \/ (Nodes set !! (p ++ q) = Nodes set0 !! (p ++ q) /\ Node (p ++ q) (sha (tenc sha s)) = Some (tenc sha s))) ->
  (forall s, subAt t [] s -> s = t) -> commits p t set0 (storeNode pooled tr collectLeaf set p n).
Proof.
  intros Hn He HF Hfr HS Hroot. destruct (storeNode_spec set p n t f Hn He HF) as (set' & n' & -> & Ha & Hd & Hp). exists set', n'. split; [done|]. split; [done|]. split.
  - intros d Hpre. rewrite Hd by (by intros ->; apply Hpre). by apply Hfr.
  - intros q s Hs Hb. destruct (decide (q = [])) as [->|Hq].
    + rewrite app_nil_r in *. apply Hroot in Hs as ->. left. by apply Hp.
    + destruct Hb as [[_ ?]%app_eq_nil|Hb]; [done|]. rewrite Hd by (intros Hx; rewrite <-(app_nil_r p) in Hx at 2; by apply app_inv_head in Hx). by apply HS.
Qed.

Definition childCommits (commit : NodeSet -> list Z -> node -> outcome (NodeSet * node)) (p : list Z) (c : node) (t : tree) : Prop := forall set, exists set' c',
  match c with NilNode | HashNode _ => Done (set, c) | _ => commit set p c end = Done (set', c') /\ encodes c' (embed sha t (tenc sha t)) /\
  (forall d, ~ p `prefix_of` d -> Nodes set' !! d = Nodes set !! d) /\ saved p t set set'.

Lemma prefix_snoc_inj (p d : list Z) a b : p ++ [a] `prefix_of` d -> p ++ [b] `prefix_of` d -> a = b.
Proof. intros [x Hx] [y Hy]. rewrite Hx, <-!(assoc_L (++)) in Hy. apply app_inv_head in Hy. by injection Hy. Qed.

Lemma commitChildren_spec commitf p : forall cs ts i set, length cs = length ts ->
  (forall j c t, cs !! j = Some c -> ts !! j = Some t -> (S j < length cs)%nat -> childCommits commitf (p ++ [Z.of_nat (i + j)]) c t) ->
  (forall j c t, cs !! j = Some c -> ts !! j = Some t -> S j = length cs -> encodes c (embed sha t (tenc sha t)) /\ forall q s, ~ subAt t q s) ->
  exists set' cs', commitChildren commitf p set (Z.of_nat i) cs = Done (set', cs') /\ Forall2 encodes cs' ((fun t => embed sha t (tenc sha t)) <$> ts) /\
    (forall d, (forall j, (i <= j)%nat -> ~ p ++ [Z.of_nat j] `prefix_of` d) -> Nodes set' !! d = Nodes set !! d) /\
    forall j t, ts !! j = Some t -> saved (p ++ [Z.of_nat (i + j)]) t set set'.
Proof.
  induction cs as [|c cs IH]; intros [|t ts] i set Hlen HC HL; try done.
  - exists set, []. split; [done|]. split; [constructor|]. by split.
  - destruct cs as [|c2 cs].
    + destruct ts; [|done]. destruct (HL 0%nat c t) as [He Hs]; [done..|]. exists set, [c]. split; [done|]. split; [by constructor|]. split; [done|].
      intros [|j] u; [|done]. intros [= <-] q s Hqs. by destruct (Hs q s).
    + assert (HU : commitChildren commitf p set (Z.of_nat i) (c :: c2 :: cs) = (
        '(set, child) ← match c with NilNode | HashNode _ => Done (set, c) | _ => commitf set (p ++ [Z.of_nat i]) c end;
        '(set, children) ← commitChildren commitf p set (Z.of_nat i + 1) (c2 :: cs); Done (set, child :: children))) by done.
      rewrite HU. destruct (HC 0%nat c t) with (set := set) as (set1 & c' & Hc & He & Hfr & Hs); [done|done|simpl; lia|]. rewrite Nat.add_0_r in *. rewrite Hc. cbn [mbind outcome_bind].
      replace (Z.of_nat i + 1) with (Z.of_nat (S i)) by lia.
      destruct (IH ts (S i) set1) as (set2 & cs' & -> & HF & Hfr2 & Hs2); [by injection Hlen| | |].
      { intros j d u Hd Hu Hj. replace (S i + j)%nat with (i + S j)%nat by lia. apply HC; [done|done|simpl in *; lia]. }
      { intros j d u Hd Hu Hj. apply (HL (S j)); [done|done|simpl in *; lia]. }
      cbn [mbind outcome_bind]. eexists _, _. split; [done|]. split; [by constructor|]. split.
      * intros d Hd. rewrite Hfr2 by (intros j Hj; apply Hd; lia). apply Hfr. apply Hd. lia.
      * intros [|j] u Hu.
        -- injection Hu as <-. rewrite Nat.add_0_r. eapply saved_mono; [exact Hs|done|]. intros d Hd. apply Hfr2. intros j Hj Hd'. pose proof (prefix_snoc_inj p d _ _ Hd Hd'); lia.
        -- replace (i + S j)%nat with (S i + j)%nat by lia. eapply saved_mono; [by apply Hs2| |done]. intros d Hd. apply Hfr. intros Hd'. pose proof (prefix_snoc_inj p d _ _ Hd Hd'); lia.
Qed.

Lemma subAt_value v q s : ~ subAt (TValue v) q s.
Proof. by inversion 1. Qed.

Lemma subAt_nil q s : ~ subAt TNil q s.
Proof. by inversion 1. Qed.

(** A child that is a reference is in the database. *)
Lemma ref_commits commitf b p h t : p <> [] -> good t -> loads Node M b p (HashNode h) t -> childCommits commitf p (HashNode h) t.
Proof.
  intros Hp Hg Hl set. inversion Hl as [| | | |? ? ? ? ? ? Href _ _ _]; subst. destruct Href as [Hr HK].
  destruct (commits_kept p t set h Hr HK) as (set' & n' & [= <- <-] & Ha & Hfr & Hs). eexists _, _. split; [done|]. split; [by eapply hashedAs_embed|]. by split.
Qed.

Lemma commits_child commitf b p c t : p <> [] -> good t -> loads Node M b p c t -> (isHash c = false -> forall set, commits p t set (commitf set p c)) -> childCommits commitf p c t.
Proof.
  intros Hp Hg Hl HC. destruct (isHash c) eqn:Hh; [destruct c; try done; by eapply ref_commits|]. intros set. destruct (HC eq_refl set) as (set' & n' & Hc & Ha & Hfr & Hs).
  exists set', n'. split; [|split; [by eapply hashedAs_embed|by split]]. destruct c; [|done|done|done|done]. inversion Hl; subst. inversion Hg.
Qed.

(** The children of a full node. *)
Lemma full_commits commitf p cs ts f set : good (TFull ts) -> loads Node M true p (FullNode cs f) (TFull ts) ->
  (forall i c t set, cs !! i = Some c -> ts !! i = Some t -> good t -> isHash c = false -> commits (p ++ [Z.of_nat i]) t set (commitf set (p ++ [Z.of_nat i]) c)) ->
  exists set' cs', commitChildren commitf p set 0 cs = Done (set', cs') /\ Forall2 encodes cs' ((fun t => embed sha t (tenc sha t)) <$> ts) /\
    (forall d, ~ p `prefix_of` d -> Nodes set' !! d = Nodes set !! d) /\ forall j t, ts !! j = Some t -> saved (p ++ [Z.of_nat j]) t set set'.
Proof.
  intros Hg Hl HC. inversion Hl as [| | |? ? ? ? ? _ Hlen Hc|]; subst. inversion Hg as [| |? H17 Hgc Hg16]; subst.
  destruct (commitChildren_spec commitf p cs ts 0 set Hlen) as (set' & cs' & Hcc & HF & Hfr & Hs).
  - intros j c t Hcj Htj Hj. cbn [Nat.add]. specialize (Hc j c t Hcj Htj). destruct (decide (t = TNil)) as [->|Hn].
    + apply loads_nil_inv in Hc as ->. intros set1. exists set1, NilNode. split; [done|]. split; [apply encodes_nil|]. split; [done|]. by intros q s ?%subAt_nil.
    + assert (Hgt : good t) by (apply (Hgc j); [lia|done|done]). eapply commits_child; [by apply hashed_path|done|done|]. intros Hh set1. by eapply HC.
  - intros j c t Hcj Htj Hj. assert (j = 16%nat) as -> by lia. specialize (Hc 16%nat c t Hcj Htj). destruct (decide (t = TNil)) as [->|Hn].
    + apply loads_nil_inv in Hc as ->. split; [apply encodes_nil|apply subAt_nil].
    + destruct (Hg16 t Htj Hn) as (v & Hv & ->). apply loads_value_inv in Hc as ->. split; [by apply goodValue_encodes|apply subAt_value].
  - exists set', cs'. split; [done|]. split; [done|]. split; [|done]. intros d Hd. apply Hfr. intros j _ [x Hx]. apply Hd. exists ([Z.of_nat j] ++ x). by rewrite (assoc_L (++)).
Qed.

(** The child of a short node. *)
Lemma short_commits commitf p k c t set : good (TShort k t) -> loads Node M true (p ++ k) c t ->
  (good t -> isHash c = false -> forall set, commits (p ++ k) t set (commitf set (p ++ k) c)) ->
  exists set' c', match c with FullNode _ _ => commitf set (p ++ k) c | _ => Done (set, c) end = Done (set', c') /\ encodes c' (embed sha t (tenc sha t)) /\
    (forall d, ~ p ++ k `prefix_of` d -> Nodes set' !! d = Nodes set !! d) /\ saved (p ++ k) t set set'.
Proof.
  intros Hg Hl HC. destruct (good_below k t Hg) as (term & ns & _ & _ & Hk & _ & Hb). destruct term.
  - destruct Hb as (v & Hv & ->). apply loads_value_inv in Hl as ->. exists set, (ValueNode v). split; [done|]. split; [by apply goodValue_encodes|]. split; [done|]. by intros q s ?%subAt_value.
  - destruct Hb as (ts & -> & Hgt). destruct (commits_child commitf true (p ++ k) c (TFull ts)) with (set := set) as (set' & c' & Hc & Hrest); [by apply hashed_path|done|done|by apply HC|].
    exists set', c'. split; [|done]. by inversion Hl; subst.
Qed.

(** A dirty node or one without a hash is collected. *)
Lemma commit_dirty set p n f : (exists k c, n = ShortNode k c f) \/ (exists cs, n = FullNode cs f) -> (fhash f = None \/ dirty f = true) ->
  commit pooled tr collectLeaf set p n = match n with
    | ShortNode k val f => '(set, val) ← match val with FullNode _ _ => commit pooled tr collectLeaf set (p ++ k) val | _ => Done (set, val) end;
        key ← hexToCompact k; storeNode pooled tr collectLeaf set p (ShortNode key val f)
    | FullNode cs f => '(set, kids) ← commitChildren (commit pooled tr collectLeaf) p set 0 cs; storeNode pooled tr collectLeaf set p (FullNode kids f)
    | _ => Panic end.
Proof.
  intros [(k & c & ->)|(cs & ->)] Hf; cbn [commit cache mbind outcome_bind]; destruct (fhash f), (dirty f); try done; by destruct Hf.
Qed.

Lemma clean_or_dirty f : (exists h, fhash f = Some h /\ dirty f = false) \/ fhash f = None \/ dirty f = true.
Proof. destruct (fhash f) as [h|]; [|by right; left]. destruct (dirty f); [by right; right|left; by exists h]. Qed.

Lemma commit_clean set p t n f h : (exists k c, n = ShortNode k c f) \/ (exists cs, n = FullNode cs f) -> fhash f = Some h -> dirty f = false ->
  flagOk sha (Kept Node) true p t f -> commits p t set (commit pooled tr collectLeaf set p n).
Proof.
  intros Hn Hf Hd HF. unfold flagOk in HF. rewrite Hf in HF. destruct HF as [Hr HK]. pose proof (commits_kept p t set h Hr (HK Hd)) as HC.
  by destruct Hn as [(k & c & ->)|(cs & ->)]; cbn [commit cache mbind outcome_bind]; rewrite Hf, Hd.
Qed.

Lemma commit_spec p n t : loads Node M true p n t -> good t -> forall set, commits p t set (commit pooled tr collectLeaf set p n).
Proof.
  intros Hl. remember true as b eqn:Hbt. induction Hl as [| |b p k c t f Hf Hl IH|b p cs ts f Hf Hlen Hl IH|b p h blob n t Hr Hrd Hd Hl IH]; subst b; intros Hg set;
    [by inversion Hg|by inversion Hg| | |].
  - destruct (clean_or_dirty f) as [(h & Hh & Hd)|Hdirty]; [eapply commit_clean; [left; by eexists _, _|done..]|]. rewrite (commit_dirty _ _ _ f) by (done || (left; by eexists _, _)).
    destruct (short_commits (commit pooled tr collectLeaf) p k c t set Hg Hl) as (set1 & c' & -> & He & Hfr & Hs); [intros Hgt _ set1; by apply IH|]. cbn [mbind outcome_bind].
    destruct (good_below k t Hg) as (term & ns & Hkt & Hn & Hk & _ & _). destruct (hexToCompact_good term ns Hn) as (HC & _ & _). rewrite <-Hkt in HC. rewrite HC. cbn [mbind outcome_bind].
    pose proof (body_le sha sha_len _ Hg) as HB. cbn [body] in HB.
    eapply commits_store; [left; by eexists _, _|apply (encodes_short _ _ (embed sha t (tenc sha t))); [eapply Z.lt_trans; [exact HB|done]|done]|done| | |].
    + intros d Hd. apply Hfr. intros [x Hx]. apply Hd. exists (k ++ x). by rewrite (assoc_L (++)).
    + intros q s [[-> _]|(q' & -> & Hqs)]%subAt_short_inv Hq Hb; [done|]. rewrite (assoc_L (++)). apply Hs; [done|by right].
    + intros s Hsub. by eapply (subAt_root _ []).
  - destruct (clean_or_dirty f) as [(h & Hh & Hd)|Hdirty]; [eapply commit_clean; [right; by eexists|done..]|]. rewrite (commit_dirty _ _ _ f) by (done || (right; by eexists)).
    destruct (full_commits (commit pooled tr collectLeaf) p cs ts f set Hg) as (set1 & cs' & -> & He & Hfr & Hs); [by constructor|intros i c t set1 Hc Ht Hgt _; by eapply IH|]. cbn [mbind outcome_bind].
    pose proof (body_le sha sha_len _ Hg) as HB. cbn [body] in HB.
    eapply commits_store; [right; by eexists|apply (encodes_full _ ((fun t => embed sha t (tenc sha t)) <$> ts)); [eapply Z.lt_trans; [exact HB|done]|done]|done|done| |].
    + intros q s [[-> _]|(i & u & q' & -> & Hu & Hqs)]%subAt_full_inv Hq Hb; [done|]. specialize (Hs i u Hu q' s Hqs (or_intror Hb)). by rewrite <-(assoc_L (++)) in Hs.
    + intros s Hsub. by eapply (subAt_root _ []).
  - destruct Hr as [Hr HK]. by apply commits_kept.
Qed.
End Collecting.
End Kept.
