(* ===== verification/TrieDB.v ===== *)
(** * The trie over a database

    What a trie promises to its users over the life of a database: a trie opened
    at a root hash behaves as the map that was committed under that hash, what
    [Commit] collects makes the database hold the changed map, and the root hash
    stands for the map.  The database is the interface [TrieDB]; [PathDB] is one
    that keeps a node for each path. *)

From S2P Require Import Prelude Bytes RlpRaw RlpEncode TrieKeys Trie TrieSpec TrieMap TrieHash TrieNode TrieCommit.

Local Open Scope Z_scope.

(** ** The database *)

(** What a database answers after it has taken a node set: the nodes of the set,
    and what it answered before where the set says nothing. *)
Definition updatedBy (Node Node' : list Z -> Hash -> option (list Z)) (set : option NodeSet) : Prop :=
  let nodes := match set with Some set => Nodes set | None => ∅ end in
  (forall path n, nodes !! path = Some n -> IsDeleted n = false -> Node' path (tnHash n) = Some (tnBlob n)) /\
  (forall path h b, nodes !! path = None -> Node path h = Some b -> Node' path h = Some b).

Class TrieDB (D : Type) := {
  dbNode : D -> list Z -> Hash -> option (list Z);
  dbUpdate : D -> option NodeSet -> D;
  dbUpdate_spec d set : updatedBy (dbNode d) (dbNode (dbUpdate d set)) set
}.

(** A node for each path, which may be marked as deleted. *)
Abbreviation PathDB := (gmap (list Z) trienode).

Definition pathNode (d : PathDB) (path : list Z) (h : Hash) : option (list Z) :=
  match d !! path with Some n => if IsDeleted n then None else if decide (tnHash n = h) then Some (tnBlob n) else None | None => None end.

Definition pathUpdate (d : PathDB) (set : option NodeSet) : PathDB := match set with Some set => Nodes set ∪ d | None => d end.

Lemma pathUpdate_spec d set : updatedBy (pathNode d) (pathNode (pathUpdate d set)) set.
Proof.
  split.
  - intros path n Hn Hdel. destruct set as [set|]; [|by rewrite lookup_empty in Hn]. unfold pathNode, pathUpdate.
    rewrite (lookup_union_Some_l _ _ _ _ Hn), Hdel. by rewrite decide_True.
  - intros path h b Hn Hb. destruct set as [set|]; [|done]. unfold pathNode, pathUpdate in *. by rewrite lookup_union_r.
Qed.

#[export] Instance PathDB_TrieDB : TrieDB PathDB := {| dbNode := pathNode; dbUpdate := pathUpdate; dbUpdate_spec := pathUpdate_spec |}.

(** ** Maps that fit into memory *)

Definition goodMap (m : bytemap) : Prop := map_Forall (fun key v => 2 * Z.of_nat (length key) + 1 < limit /\ goodValue v) m.

Definition opOk (op : trieOp) : Prop :=
  bytes_ok (opKey op) /\ 2 * Z.of_nat (length (opKey op)) + 1 < limit /\ match op with OpUpdate _ v => bytes_ok v /\ Z.of_nat (length v) < limit | _ => True end.

Lemma goodMap_op m op : goodMap m -> opOk op -> goodMap (mapOp m op).
Proof.
  intros Hm (Hb & Hl & Hv). destruct op as [key|key v|key]; cbn [mapOp opKey] in *; [done| |by apply map_Forall_delete].
  unfold mapUpdate. case_decide as Hn; [by apply map_Forall_delete|]. by apply map_Forall_insert_2.
Qed.

Lemma goodMap_ops ops : forall m, goodMap m -> Forall opOk ops -> goodMap (mapOps m ops).
Proof. unfold mapOps. induction ops as [|op ops IH]; intros m Hm Ho; [done|]. apply Forall_cons in Ho as [H1 H2]. cbn [foldl]. by apply IH; [apply goodMap_op|]. Qed.

Lemma length_keybytesToHex key : length (keybytesToHex key) = (2 * length key + 1)%nat.
Proof. unfold keybytesToHex. rewrite length_app. fold splitByte. rewrite length_splitBytes. simpl. lia. Qed.

Lemma contents_good u m : contents u m -> goodMap m -> u <> TNil -> good u.
Proof.
  intros [Hw Hg Ho Hk] Hm Hn. apply twf_good; [by apply Hw|]. intros k v Hhk Hv. destruct (Ho k v Hhk Hv) as (key & Hb & ->). rewrite Hg in Hv by done.
  destruct (Hm key v Hv) as [H1 H2]. rewrite length_keybytesToHex. split; [lia|done].
Qed.

Lemma contents_map u m1 m2 : contents u m1 -> contents u m2 -> m1 = m2.
Proof.
  intros [_ H1 _ K1] [_ H2 _ K2]. apply map_eq. intros key. destruct (m1 !! key) as [v|] eqn:E1.
  - rewrite <-H2, H1 by (by eapply K1). done.
  - destruct (m2 !! key) as [v|] eqn:E2; [|done]. rewrite <-H1, H2 in E1 by (by eapply K2). congruence.
Qed.

(** ** Roots *)

Section Database.
Context {K : Keccak} {KL : KeccakLaws K}.

Definition safe (u : tree) : Prop := (forall q s, subAt u q s -> sha (tenc sha s) <> zeroHash) /\ (u <> TNil -> sha (tenc sha u) <> emptyRoot).

(** A node of the tree has the hash that stands for no node, or the tree that of
    an empty trie. *)
Definition unlucky (u : tree) : Prop := (exists e, e ∈ encodings sha u /\ sha e = zeroHash) \/ (u <> TNil /\ sha (tenc sha u) = emptyRoot).

Lemma encodings_sub t q s : subAt t q s -> tenc sha s ∈ encodings sha t.
Proof.
  induction 1 as [t Ht|k t q s Hs IH|ts i t q s Hi Hs IH]; [destruct t; [done|done|constructor..]|by right|by eapply encodings_child].
Qed.

Lemma safe_or_unlucky u : safe u \/ unlucky u.
Proof.
  destruct (decide (Exists (fun e => sha e = zeroHash) (encodings sha u))) as [Hz|Hz]; [right; left; by apply Exists_exists in Hz|].
  destruct (decide (u = TNil)) as [->|Hn]; [left; split; [by intros q s Hs; inversion Hs|done]|].
  destruct (decide (sha (tenc sha u) = emptyRoot)) as [He|He]; [right; by right|left]. split; [|done]. intros q s Hs Hzero. apply Hz, Exists_exists.
  exists (tenc sha s). split; [by eapply encodings_sub|done].
Qed.

Definition unluckyMap (m : bytemap) : Prop := exists u, contents u m /\ unlucky u.

(** The database keeps the map under the root hash. *)
Definition keeps (Node : list Z -> Hash -> option (list Z)) (root : Hash) (m : bytemap) : Prop :=
  exists u, contents u m /\ root = rootHash sha emptyRoot u /\ (u <> TNil -> Kept sha Node [] u) /\ safe u.

Definition treeMarks (Node : list Z -> Hash -> option (list Z)) : Marks := hashMarks sha (Kept sha Node).

Lemma keeps_empty Node : keeps Node emptyRoot ∅.
Proof. exists TNil. split; [apply contents_empty|]. split; [done|]. split; [done|]. split; [by intros q s Hs; inversion Hs|done]. Qed.

Lemma rootHash_good u : good u -> rootHash sha emptyRoot u = sha (tenc sha u).
Proof. by destruct 1. Qed.

Lemma New_spec Node root owner m : keeps Node root m -> goodMap m -> exists t, New Node emptyRoot owner root = Done (inr t) /\ holds Node (treeMarks Node) t m.
Proof.
  intros (u & Hu & -> & HK & Hs) Hm. destruct (decide (u = TNil)) as [->|Hn].
  - unfold New. rewrite decide_False by (intros [_ H]; by apply H). eexists. split; [done|]. exists TNil. split; [|done]. split; [done|]. split; [constructor|].
    intros d Hd. by apply not_elem_of_empty in Hd.
  - pose proof (contents_good u m Hu Hm Hn) as Hg. rewrite (rootHash_good u Hg). destruct Hs as [Hz He]. unfold New. rewrite decide_True by (split; [apply (Hz [] u); by apply good_subAt|by apply He]).
    destruct (resolve_loads Node (treeMarks Node) false newTracer [] (sha (tenc sha u)) u) as (tr & n & -> & Hl & _ & Htr).
    { apply (kept_loads sha sha_len); [done|by apply (good_opens sha sha_len)|by left|by apply HK]. }
    cbn [mbind outcome_bind]. eexists. split; [done|]. exists u. split; [|done]. split; [done|]. split; [done|]. intros d. cbn [ttracer]. rewrite Htr. intros Hd. by apply not_elem_of_empty in Hd.
Qed.

(** ** Hash and Commit *)

Section Buffers.
Context (pooled h : encBuffer) (Hpool : ready pooled) (Hh : ready h).

Lemma emptyRoot_len : length emptyRoot = 32%nat.
Proof. rewrite emptyRoot_sha. apply sha_len. Qed.

Lemma root_loaded Node M c n u : loads Node M c [] n u -> u <> TNil -> isNil n = false.
Proof. intros Hl Hn. destruct n; [inversion Hl; by subst|done..]. Qed.

Lemma Hash_spec Node t u : standsFor Node (treeMarks Node) t u -> (u <> TNil -> good u) ->
  exists t', Hash_ sha emptyRoot pooled h t = Done (t', rootHash sha emptyRoot u) /\ loads Node (treeMarks Node) true [] (root t') u /\
    ttracer t' = ttracer t /\ owner t' = owner t /\ committed t' = committed t.
Proof.
  intros (Hc & Hl & Ht) Hg. unfold Hash_, hashRoot. destruct (decide (u = TNil)) as [->|Hn].
  - apply loads_nil_inv in Hl. rewrite Hl. cbn [isNil mbind outcome_bind]. rewrite BytesToHash_id by apply emptyRoot_len. eexists. split; [done|]. split; [constructor|done].
  - specialize (Hg Hn). destruct (hash_spec sha sha_len Node (Kept sha Node) pooled false [] (root t) u Hpool Hl Hg (bool_decide (100 <= unhashed t)) h Hh) as (h' & hn & n' & He & _ & Ha & Hl').
    change (bool_decide ([] = [])) with true in He. unfold hashedAs in Ha. rewrite decide_True in Ha by (by left). subst hn.
    rewrite (root_loaded _ _ _ _ _ Hl Hn), He. cbn [mbind outcome_bind]. rewrite (rootHash_good u Hg), (BytesToHash_sha sha sha_len). eexists. split; [done|]. by split.
Qed.

(** The set the deleted nodes make. *)
Lemma Nodes_deleted (l : list (list Z)) d : forall set, Nodes (foldl (fun set path => AddNode set path NewDeleted) set l) !! d = if decide (d ∈ l) then Some NewDeleted else Nodes set !! d.
Proof.
  induction l as [|path l IH]; intros set; cbn [foldl]; [done|]. rewrite IH, Nodes_AddNode. destruct (decide (d ∈ l)) as [Hd|Hd]; [rewrite decide_True by (by right); done|].
  destruct (decide (d = path)) as [->|Hne]; [rewrite decide_True by (by left); by rewrite lookup_insert_eq|].
  rewrite decide_False by (intros [?|?]%elem_of_cons; done). by rewrite lookup_insert_ne.
Qed.

(** What was collected makes the database keep the tree. *)
Lemma saved_kept Node Node' u set0 set : safe u -> updatedBy Node Node' (Some set) -> saved sha Node [] u set0 set -> (forall q, nodeAt u q -> Nodes set0 !! q = None) -> Kept sha Node' [] u.
Proof.
  intros [Hz _] [HW HK] HS H0 q s Hs Hb. cbn [app]. destruct (HS q s Hs) as [Hn|[Hn HN]]; cbn [app] in *.
  - destruct Hb as [->|?]; [by left|by right].
  - apply (HW q (nodeOf sha s) Hn). apply bool_decide_eq_false_2. by apply (Hz q).
  - apply HK; [|done]. rewrite Hn. by eapply H0, subAt_nodeAt.
Qed.

Lemma Kept_mono Node Node' p u : updatedBy Node Node' None -> Kept sha Node p u -> Kept sha Node' p u.
Proof. intros [_ HK] H q s Hs Hb. apply HK; [apply lookup_empty|by apply H]. Qed.

Lemma hashed_root Node n u : loads Node (treeMarks Node) true [] n u -> good u -> exists hn d, cache n = Done (hn, d) /\ (d = false -> hn = Some (sha (tenc sha u)) /\ Kept sha Node [] u).
Proof.
  intros Hl Hg. assert (HF : forall f, flagOk sha (Kept sha Node) true [] u f -> dirty f = false -> fhash f = Some (sha (tenc sha u)) /\ Kept sha Node [] u).
  { intros f Hf Hd. unfold flagOk in Hf. destruct (fhash f) as [hn|]; [|by destruct Hf as [? _]; [left|]]. destruct Hf as [[-> _] HK]. split; [done|by apply HK]. }
  inversion Hl; subst; [by inversion Hg|by inversion Hg|eexists _, _; split; [done|]; by apply HF..|by eexists _, _].
Qed.

Lemma Commit_spec Node t u collectLeaf : standsFor Node (treeMarks Node) t u -> (u <> TNil -> good u) ->
  exists t' set, Commit sha emptyRoot pooled h t collectLeaf = Done (t', (rootHash sha emptyRoot u, set)) /\ committed t' = true /\
    forall Node', updatedBy Node Node' set -> safe u -> u <> TNil -> Kept sha Node' [] u.
Proof.
  intros HS Hg. pose proof HS as (Hc & Hl & Ht). unfold Commit. cbn zeta. destruct (decide (u = TNil)) as [->|Hn].
  - apply loads_nil_inv in Hl. rewrite Hl. cbn [isNil]. case_decide; eexists _, _; (split; [done|]); by split.
  - specialize (Hg Hn). destruct (Hash_spec Node t u HS ltac:(done)) as (t' & HH & Hl' & Htr & _).
    rewrite (root_loaded _ _ _ _ _ Hl Hn), HH. cbn [mbind outcome_bind]. destruct (hashed_root Node (root t') u Hl' Hg) as (hn & d & -> & HD). cbn [mbind outcome_bind]. destruct d; cbn [negb].
    + destruct (commit_spec sha sha_len Node pooled (ttracer t) collectLeaf (proj2 Hpool) [] (root t') u Hl' Hg
        (foldl (fun set path => AddNode set path NewDeleted) (NewNodeSet (owner t)) (elements (deletedNodes (ttracer t))))) as (set & n' & HC & Ha & _ & Hs).
      unfold hashedAs in Ha. rewrite decide_True in Ha by (by left). subst n'. unfold committerCommit. rewrite HC. cbn [mbind outcome_bind].
      eexists _, _. split; [done|]. split; [done|]. intros Node' HU Hsafe _. eapply saved_kept; [done|done|done|]. intros q Hq. rewrite Nodes_deleted, decide_False; [apply lookup_empty|].
      intros Hin%elem_of_elements. unfold deletedNodes in Hin. apply elem_of_intersection in Hin as [Hin _]. by apply (Ht q).
    + destruct (HD eq_refl) as [_ HK]. eexists _, _. split; [done|]. split; [done|]. intros Node' HU _ _. by eapply Kept_mono.
Qed.

(** ** Sessions *)

Section Sessions.
Context {D : Type} {DB : TrieDB D}.

(** A trie is opened at a root, used, and committed. *)
Definition session (d : D) (root : Hash) (ops : list trieOp) (collectLeaf : bool) : outcome (trieErr + D * Hash * list (option (list Z) * option trieErr)) :=
  r ← New (dbNode d) emptyRoot zeroHash root;
  match r with
  | inl e => Done (inl e)
  | inr t =>
      '(t, answers) ← runOps (dbNode d) t ops;
      '(_, (root', set)) ← Commit sha emptyRoot pooled h t collectLeaf;
      Done (inr (dbUpdate d set, root', answers))
  end.

Lemma session_spec d root m ops collectLeaf : keeps (dbNode d) root m -> goodMap m -> Forall opOk ops ->
  exists d' root', session d root ops collectLeaf = Done (inr (d', root', answered (mapAnswers m ops))) /\ (keeps (dbNode d') root' (mapOps m ops) \/ unluckyMap (mapOps m ops)).
Proof.
  intros HK Hm Ho. unfold session. destruct (New_spec (dbNode d) root zeroHash m HK Hm) as (t & -> & Ht). cbn [mbind outcome_bind].
  destruct (runOps_map (dbNode d) (treeMarks (dbNode d)) ops t m Ht) as (t1 & -> & (u & HS & Hu)); [eapply Forall_impl; [done|]; by intros op [? _]|]. cbn [mbind outcome_bind].
  pose proof (goodMap_ops ops m Hm Ho) as Hm'. pose proof (contents_good u _ Hu Hm') as Hg.
  destruct (Commit_spec (dbNode d) t1 u collectLeaf HS Hg) as (t2 & set & -> & _ & HN). cbn [mbind outcome_bind].
  eexists _, _. split; [done|]. destruct (safe_or_unlucky u) as [Hsafe|?]; [left|right; by exists u]. exists u. split; [done|]. split; [done|]. split; [|done].
  intros Hn. apply HN; [apply dbUpdate_spec|done|done].
Qed.

Fixpoint runSessions (d : D) (root : Hash) (sessions : list (list trieOp * bool)) : outcome (trieErr + D * Hash * list (list (option (list Z) * option trieErr))) :=
  match sessions with
  | [] => Done (inr (d, root, []))
  | (ops, collectLeaf) :: sessions =>
      r ← session d root ops collectLeaf;
      match r with
      | inl e => Done (inl e)
      | inr (d, root, answers) =>
          r ← runSessions d root sessions;
          Done match r with inl e => inl e | inr (d, root, l) => inr (d, root, answers :: l) end
      end
  end.

Fixpoint mapSessions (m : bytemap) (sessions : list (list trieOp)) : list (list (option (list Z))) :=
  match sessions with [] => [] | ops :: sessions => mapAnswers m ops :: mapSessions (mapOps m ops) sessions end.

(** The maps that are committed. *)
Fixpoint mapCommits (m : bytemap) (sessions : list (list trieOp)) : list bytemap :=
  match sessions with [] => [] | ops :: sessions => mapOps m ops :: mapCommits (mapOps m ops) sessions end.

Lemma runSessions_spec sessions : forall d root m, keeps (dbNode d) root m -> goodMap m -> Forall (fun s => Forall opOk s.1) sessions ->
  (exists d' root', runSessions d root sessions = Done (inr (d', root', answered <$> mapSessions m sessions.*1)) /\
     keeps (dbNode d') root' (foldl mapOps m sessions.*1)) \/ Exists unluckyMap (mapCommits m sessions.*1).
Proof.
  induction sessions as [|[ops cl] sessions IH]; intros d root m HK Hm Ho; [left; by exists d, root|]. apply Forall_cons in Ho as [Ho1 Ho2]. cbn [fst] in Ho1.
  destruct (session_spec d root m ops cl HK Hm Ho1) as (d1 & root1 & Hs & [HK1|?]); [|right; by left].
  destruct (IH d1 root1 (mapOps m ops) HK1 (goodMap_ops ops m Hm Ho1) Ho2) as [(d2 & root2 & Hr & HK2)|?]; [|right; by right]. left. exists d2, root2.
  cbn [runSessions]. rewrite Hs. cbn [mbind outcome_bind]. rewrite Hr. cbn [mbind outcome_bind]. by split.
Qed.
End Sessions.
End Buffers.
End Database.

(** ** What a trie promises *)

(** C4: a trie that is opened, used and committed again and again over a database
    that starts out empty answers every read as the map would, with no error,
    and the database ends up with the last map under the last root hash, unless
    a node of a committed trie has the zero hash, or a root that of an empty
    trie. *)
Theorem sessions_refine_map {K : Keccak} {KL : KeccakLaws K} {D : Type} {DB : TrieDB D} (pooled h : encBuffer) (d : D) (sessions : list (list trieOp * bool)) :
  ready pooled -> ready h -> Forall (fun s => Forall opOk s.1) sessions ->
  (exists d' root', runSessions pooled h d emptyRoot sessions = Done (inr (d', root', answered <$> mapSessions ∅ sessions.*1)) /\
     keeps (dbNode d') root' (foldl mapOps ∅ sessions.*1)) \/ Exists unluckyMap (mapCommits ∅ sessions.*1).
Proof. intros Hp Hh Ho. apply runSessions_spec; [done|done|apply keeps_empty|apply map_Forall_empty|done]. Qed.

(** C22: two tries built by any updates, deletions and reads over any databases have
    the same hash when they hold the same map, and hold the same map when they
    have the same hash, unless two of their nodes collide. *)
Theorem root_hash_stands_for_map {K : Keccak} {KL : KeccakLaws K} (pooled h : encBuffer) Node1 Node2 owner1 owner2 (ops1 ops2 : list trieOp) :
  ready pooled -> ready h -> Forall opOk ops1 -> Forall opOk ops2 ->
  exists t1 t2 r1 r2 h1 h2,
    (runOps Node1 (emptyTrie owner1) ops1 = Done r1 /\ Hash_ sha emptyRoot pooled h r1.1 = Done (t1, h1)) /\
    (runOps Node2 (emptyTrie owner2) ops2 = Done r2 /\ Hash_ sha emptyRoot pooled h r2.1 = Done (t2, h2)) /\
    (mapOps ∅ ops1 = mapOps ∅ ops2 -> h1 = h2) /\
    (h1 = h2 -> mapOps ∅ ops1 = mapOps ∅ ops2 \/
       exists u1 u2, contents u1 (mapOps ∅ ops1) /\ contents u2 (mapOps ∅ ops2) /\ collides sha ([0x80] :: encodings sha u1) ([0x80] :: encodings sha u2)).
Proof.
  intros Hp Hh H1 H2.
  assert (HR : forall Node owner ops, Forall opOk ops -> exists t r u, runOps Node (emptyTrie owner) ops = Done r /\ Hash_ sha emptyRoot pooled h r.1 = Done (t, rootHash sha emptyRoot u) /\
    contents u (mapOps ∅ ops) /\ (u <> TNil -> good u)).
  { intros Node owner ops Ho. destruct (runOps_map Node (treeMarks Node) ops (emptyTrie owner) ∅) as (t & Hr & (u & HS & Hu));
      [apply emptyTrie_holds|eapply Forall_impl; [done|]; by intros op [? _]|].
    pose proof (contents_good u _ Hu (goodMap_ops ops ∅ (map_Forall_empty _) Ho)) as Hg. destruct (Hash_spec pooled h Hp Hh Node t u HS Hg) as (t' & HH & _). by eexists t', (t, _), u. }
  destruct (HR Node1 owner1 ops1 H1) as (t1 & r1 & u1 & Hr1 & Hh1 & Hu1 & Hg1), (HR Node2 owner2 ops2 H2) as (t2 & r2 & u2 & Hr2 & Hh2 & Hu2 & Hg2).
  exists t1, t2, r1, r2, (rootHash sha emptyRoot u1), (rootHash sha emptyRoot u2). split; [done|]. split; [done|]. split.
  - intros Hm. rewrite Hm in Hu1. by rewrite (contents_unique u1 u2 _ Hu1 Hu2).
  - rewrite emptyRoot_sha. intros Hr. destruct (rootHash_inj sha sha_len u1 u2 Hg1 Hg2 Hr) as [->|?]; [left; by eapply contents_map|right; by exists u1, u2].
Qed.

(** ** Examples *)

Module SampleKeccak.
(** A function with 32 bytes of answer. *)
Definition pad (b : list Z) : list Z := take 32 (1 :: b ++ replicate 32 7).

#[export] Instance K : Keccak := {| sha := pad; emptyRoot := pad [0x80] |}.

Lemma pad_len b : length (pad b) = 32%nat.
Proof. unfold pad. rewrite length_take. cbn [length]. rewrite length_app, length_replicate. lia. Qed.

#[export] Instance KL : KeccakLaws K := {| sha_len := pad_len; emptyRoot_sha := eq_refl |}.

Lemma ready_new : ready newEncBuffer.
Proof. done. Qed.

(** Two sessions: keys with a common beginning, one of them a beginning of
    another; then a deletion and reads. *)
Definition sample : list (list trieOp * bool) :=
  [([OpUpdate [1; 2] [10]; OpUpdate [1; 3] [11]; OpUpdate [1] [12]; OpGet [1; 2]], false);
   ([OpDelete [1; 3]; OpUpdate [2] []; OpGet [1; 3]; OpGet [1]], true)].

Lemma sample_ok : Forall (fun s => Forall opOk s.1) sample.
Proof. repeat constructor; unfold byte_ok, limit; simpl; lia. Qed.
End SampleKeccak.

Import SampleKeccak.

Lemma sessions_refine_map_witness :
  (exists d' root', runSessions (D := PathDB) newEncBuffer newEncBuffer ∅ emptyRoot sample =
       Done (inr (d', root', [[(None, None); (None, None); (None, None); (Some [10], None)]; [(None, None); (None, None); (None, None); (Some [12], None)]])) /\
     keeps (dbNode d') root' (foldl mapOps ∅ sample.*1)) \/ Exists unluckyMap (mapCommits ∅ sample.*1).
Proof. exact (sessions_refine_map newEncBuffer newEncBuffer (∅ : PathDB) sample ready_new ready_new sample_ok). Defined.

Lemma root_hash_stands_for_map_witness : exists t1 t2 r1 r2 h1 h2,
  (runOps (fun _ _ => None) (emptyTrie zeroHash) [OpUpdate [1] [5]; OpUpdate [2] [6]] = Done r1 /\ Hash_ sha emptyRoot newEncBuffer newEncBuffer r1.1 = Done (t1, h1)) /\
  (runOps (fun _ _ => None) (emptyTrie zeroHash) [OpUpdate [2] [6]; OpUpdate [3] [9]; OpUpdate [1] [5]; OpDelete [3]] = Done r2 /\ Hash_ sha emptyRoot newEncBuffer newEncBuffer r2.1 = Done (t2, h2)) /\ h1 = h2.
Proof.
  destruct (root_hash_stands_for_map newEncBuffer newEncBuffer (fun _ _ => None) (fun _ _ => None) zeroHash zeroHash
    [OpUpdate [1] [5]; OpUpdate [2] [6]] [OpUpdate [2] [6]; OpUpdate [3] [9]; OpUpdate [1] [5]; OpDelete [3]] ready_new ready_new)
    as (t1 & t2 & r1 & r2 & h1 & h2 & H1 & H2 & H3 & _).
  - repeat constructor; unfold byte_ok, limit; simpl; lia.
  - repeat constructor; unfold byte_ok, limit; simpl; lia.
  - exists t1, t2, r1, r2, h1, h2. split; [exact H1|]. split; [exact H2|]. apply H3. by apply (bool_decide_unpack _).
Defined.
