(* ===== verification/TrieProof.v ===== *)
(** * Merkle proofs

    [Prove] and [VerifyProof] of [trie/proof.go].  A proof is a map from hashes to
    encoded nodes; the verifier takes any answers to its questions. *)

From S2P Require Import Prelude Bytes RlpRaw RlpEncode TrieKeys Trie TrieSpec TrieMap TrieHash TrieNode TrieCommit TrieDB.

Local Open Scope Z_scope.

(** ** Proving *)

Section Prove.
Context (Node : list Z -> Hash -> option (list Z)).

(** The nodes on the path of the key.  Two rounds for each nibble. *)
Fixpoint proveLoop (fuel : nat) (tn : node) (prefix key : list Z) (nodes : list node) : outcome (trieErr + list node) :=
  match fuel with
  | O => Stuck
  | S fuel =>
      if decide (length key = 0%nat \/ isNil tn = true) then Done (inr nodes)
      else
        match tn with
        | ShortNode k val _ =>
            if decide ((length key < length k)%nat \/ k <> take (length k) key) then proveLoop fuel NilNode prefix key (nodes ++ [tn])
            else proveLoop fuel val (prefix ++ k) (drop (length k) key) (nodes ++ [tn])
        | FullNode cs _ =>
            x ← index key 0;
            child ← index cs x;
            proveLoop fuel child (prefix ++ [x]) (drop 1 key) (nodes ++ [tn])
        | HashNode h =>
            match readerNode Node prefix (BytesToHash h) with
            | inl e => Done (inl e)
            | inr blob => n ← mustDecodeNode (Some h) blob; proveLoop fuel n prefix key nodes
            end
        | NilNode | ValueNode _ => Panic
        end
  end.

(** The nodes that have a hash, and the root, are put into the proof. *)
Fixpoint proofPuts (sha : list Z -> list Z) (pooled h : encBuffer) (first : bool) (nodes : list node) (proofDb : bytemap) : outcome bytemap :=
  match nodes with
  | [] => Done proofDb
  | n :: nodes =>
      '(h, (n, hn)) ← proofHash sha pooled false h n;
      match hn with
      | HashNode hash => enc ← nodeToBytes pooled n; proofPuts sha pooled h false nodes (<[hash := enc]> proofDb)
      | _ =>
          if first then enc ← nodeToBytes pooled n; proofPuts sha pooled h false nodes (<[sha enc := enc]> proofDb)
          else proofPuts sha pooled h false nodes proofDb
      end
  end.

Definition Prove (sha : list Z -> list Z) (pooled h : encBuffer) (t : Trie) (key : list Z) (proofDb : bytemap) : outcome (option trieErr * bytemap) :=
  if committed t then Done (Some ErrCommitted, proofDb)
  else
    let key := keybytesToHex key in
    r ← proveLoop (levels key) (root t) [] key [];
    match r with
    | inl e => Done (Some e, proofDb)
    | inr nodes => proofDb ← proofPuts sha pooled h true nodes proofDb; Done (None, proofDb)
    end.
End Prove.

(** ** Verifying *)

Section Child.
Context (get : node -> outcome (list Z * node)).

Fixpoint getAt (i : nat) (cs : list node) {struct cs} : outcome (list Z * node) :=
  match cs, i with
  | [], _ => Panic
  | c :: _, O => get c
  | _ :: cs, S i => getAt i cs
  end.
End Child.

(** [get]: the rest of the key and the node it leads to. *)
Fixpoint proofGet (tn : node) (key : list Z) (skipResolved : bool) {struct tn} : outcome (list Z * node) :=
  match tn with
  | ShortNode k val _ =>
      if decide ((length key < length k)%nat \/ k <> take (length k) key) then Done ([], NilNode)
      else if skipResolved then proofGet val (drop (length k) key) skipResolved else Done (drop (length k) key, val)
  | FullNode cs _ =>
      x ← index key 0;
      if decide (x < 0) then Panic
      else getAt (fun c => if skipResolved then proofGet c (drop 1 key) skipResolved else Done (drop 1 key, c)) (Z.to_nat x) cs
  | HashNode h => Done (key, tn)
  | NilNode => Done (key, NilNode)
  | ValueNode _ => Done ([], tn)
  end.

Inductive proofErr := proofMissing (i : nat) (hash : Hash) | proofBad (i : nat) (err : nodeErr).

(** The loop of [VerifyProof]; every round but the last follows a hash. *)
Fixpoint verifyLoop (fuel : nat) (proofDb : Hash -> option (list Z)) (i : nat) (wantHash : Hash) (key : list Z) : outcome (proofErr + option (list Z)) :=
  match fuel with
  | O => Stuck
  | S fuel =>
      match proofDb wantHash with
      | None => Done (inl (proofMissing i wantHash))
      | Some buf =>
          r ← decodeNode (Some wantHash) buf;
          match r with
          | inl err => Done (inl (proofBad i err))
          | inr n =>
              '(keyrest, cld) ← proofGet n key true;
              match cld with
              | NilNode => Done (inr None)
              | HashNode h => verifyLoop fuel proofDb (S i) (take 32 h ++ drop (length h) wantHash) keyrest
              | ValueNode v => Done (inr (Some v))
              | _ => verifyLoop fuel proofDb (S i) wantHash key
              end
          end
      end
  end.

Definition VerifyProof (rootHash : Hash) (key : list Z) (proofDb : Hash -> option (list Z)) : outcome (proofErr + option (list Z)) :=
  let key := keybytesToHex key in verifyLoop (S (length key)) proofDb 0 rootHash key.

(** ** Paths *)

(** The subtrees on the path of a key. *)
Inductive path : tree -> list Z -> list tree -> Prop :=
| path_nil key : path TNil key []
| path_value v : path (TValue v) [] []
| path_miss k t key : key <> [] -> (length key < length k)%nat \/ k <> take (length k) key -> path (TShort k t) key [TShort k t]
| path_short k t r ss : k <> [] -> path t r ss -> path (TShort k t) (k ++ r) (TShort k t :: ss)
| path_full ts x r t ss : 0 <= x -> ts !! Z.to_nat x = Some t -> path t r ss -> path (TFull ts) (x :: r) (TFull ts :: ss).

(** The key goes on below a short node, or leaves it. *)
Lemma key_or_miss (k key : list Z) : ((length key < length k)%nat \/ k <> take (length k) key) \/ exists r, key = k ++ r.
Proof.
  destruct (decide ((length key < length k)%nat \/ k <> take (length k) key)) as [Hm|Hm]; [by left|right]. exists (drop (length k) key).
  assert (HE : k = take (length k) key) by (apply dec_stable; intros ?; apply Hm; by right). rewrite HE at 1. by rewrite take_drop.
Qed.

Lemma no_miss (k r : list Z) : ~ ((length (k ++ r) < length k)%nat \/ k <> take (length k) (k ++ r)).
Proof. rewrite take_app_length, length_app. intros [?|?]; [lia|done]. Qed.

Lemma path_exists t : (t <> TNil -> twf t) -> forall key, hexKey key -> exists ss, path t key ss.
Proof.
  intros Hw. destruct (decide (t = TNil)) as [->|Hn]; [intros key _; by exists []; constructor|]. specialize (Hw Hn). clear Hn.
  induction Hw as [ns v Hn Hv|k ts Hk Hn Hts IH|ts Hl Hc IH H16 H2]; intros key Hkey.
  - destruct (key_or_miss (ns ++ [16]) key) as [Hm|[r ->]]; [eexists; apply path_miss; [by apply hexKey_ne|done]|]. apply hexKey_prefix in Hkey as ->; [|by exists ns].
    eexists. apply path_short; [by destruct ns|constructor].
  - destruct (key_or_miss k key) as [Hm|[r ->]]; [eexists; apply path_miss; [by apply hexKey_ne|done]|]. apply hexKey_drop in Hkey; [|done]. destruct (IH _ Hkey) as [ss Hss]. eexists. by apply path_short.
  - destruct (hexKey_cons key Hkey) as [(x & r & -> & Hx & Hr)| ->]; unfold nibble in *.
    + destruct (lookup_lt_is_Some_2 ts (Z.to_nat x)) as [t Ht]; [lia|]. destruct (decide (t = TNil)) as [->|Hn].
      * eexists. eapply path_full; [lia|done|constructor].
      * destruct (IH (Z.to_nat x) t ltac:(lia) Ht Hn r Hr) as [ss Hss]. eexists. eapply path_full; [lia|done|done].
    + destruct (lookup_lt_is_Some_2 ts 16) as [t Ht]; [lia|]. eexists. eapply path_full; [lia|done|]. destruct (decide (t = TNil)) as [->|Hn]; [constructor|].
      destruct (H16 t Ht Hn) as (v & _ & ->). constructor.
Qed.

Lemma path_length t key ss : path t key ss -> (length ss <= length key)%nat.
Proof.
  induction 1 as [key|v|k t key Hne Hm|k t r ss Hk HP IH|ts x r t ss Hx Ht HP IH]; cbn [length]; rewrite ?length_app; [lia|lia|destruct key; [done|simpl; lia]|destruct k; [done|simpl; lia]|lia].
Qed.

(** ** What a verifier sees *)

Section Walk.
Context (sha : list Z -> list Z) (sha_len : forall b, length (sha b) = 32%nat).

(** Where a key leads below the decoded node of a tree, with less than [n] bytes
    of the key left: to an answer, or to the hash of a subtree on the path. *)
Definition leads (n : nat) (t : tree) (key : list Z) (ss : list tree) (o : outcome (list Z * node)) : Prop := exists r cld, o = Done (r, cld) /\
  match cld with
  | NilNode => tget t key = None
  | ValueNode v => tget t key = Some v
  | HashNode h => exists s ss', h = sha (tenc sha s) /\ good s /\ (32 <= length (tenc sha s))%nat /\ s ∈ ss /\ path s r ss' /\ (forall x, x ∈ ss' -> x ∈ ss) /\
      (length r < n)%nat /\ tget t key = tget s r
  | _ => False
  end.

Lemma path_head t key ss : good t -> path t key ss -> t ∈ ss.
Proof. intros Hg HP. destruct HP; [inversion Hg|inversion Hg|by left..]. Qed.

Lemma leads_ref t key ss : childOk t -> path t key ss -> (good t -> leads (S (length key)) t key ss (proofGet (shallow sha None t) key true)) ->
  leads (S (length key)) t key ss (proofGet (refTo sha t (shallow sha None t)) key true).
Proof.
  intros Hc HP IH. destruct Hc as [->|[(v & ->)|Hg]]; [by eexists _, _|inversion HP; subst; by eexists _, _|]. destruct (good_cases sha t Hg) as (_ & _ & ->).
  case_decide as Hlt; [by apply IH|]. eexists _, _. split; [done|]. exists t, ss. split_and!; [done|done|lia|by eapply path_head|done|done|lia|done].
Qed.

Lemma leads_mono n m t key ss t' key' ss' o : leads n t key ss o -> (n <= m)%nat -> (forall x, x ∈ ss -> x ∈ ss') -> tget t' key' = tget t key -> leads m t' key' ss' o.
Proof.
  intros (r & cld & -> & H) Hm Hs Hg. exists r, cld. split; [done|]. rewrite Hg. destruct cld as [|v|h|k c f|cs f]; [done|done| |done|done].
  destruct H as (s & ss0 & H1 & H2 & H3 & H4 & H5 & H6 & H7 & H8). exists s, ss0. split_and!; [done|done|done|by apply Hs|done|intros x Hx; by apply Hs, H6|lia|done].
Qed.

Lemma leads_pred t key ss o : leads (length key) t key ss o -> leads (S (length key)) t key ss o.
Proof. intros HL. eapply leads_mono; [exact HL|lia|done|done]. Qed.

Lemma getAt_lookup f i : forall cs, getAt f i cs = match cs !! i with Some c => f c | None => Panic end.
Proof. induction i as [|i IH]; intros [|c cs]; [done..|]. apply IH. Qed.

(** From a node a key goes at least one step. *)
Lemma proofGet_shallow t key ss : path t key ss -> good t -> forall h, leads (length key) t key ss (proofGet (shallow sha h t) key true).
Proof.
  induction 1 as [key|v|k t key _ Hm|k t r ss Hk HP IH|ts x r t ss Hx Ht HP IH]; intros Hg h; [inversion Hg|inversion Hg| | |].
  - cbn [shallow proofGet]. rewrite decide_True by done. eexists _, _. split; [done|]. destruct (tget (TShort k t) key) as [v|] eqn:Hv; [|done].
    apply tget_short_Some in Hv as (r & -> & _). by apply no_miss in Hm.
  - cbn [shallow proofGet]. rewrite decide_False by apply no_miss. rewrite drop_app_length. pose proof (leads_ref t r ss (childOk_short k t Hg) HP (fun Hgt => leads_pred _ _ _ _ (IH Hgt None))) as HL.
    eapply leads_mono; [exact HL| |by intros x ?; right|by rewrite tget_short]. rewrite length_app. destruct k; [done|]. simpl. lia.
  - cbn [shallow proofGet]. rewrite index_0. cbn [mbind outcome_bind]. rewrite decide_False by lia. rewrite getAt_lookup, list_lookup_fmap, Ht. cbn [fmap option_fmap option_map drop].
    change (drop 0 r) with r.
    pose proof (leads_ref t r ss (childOk_full ts _ t Hg Ht) HP (fun Hgt => leads_pred _ _ _ _ (IH Hgt None))) as HL.
    eapply leads_mono; [exact HL|simpl; lia|by intros y ?; right|]. by rewrite tget_full, Ht.
Qed.

(** The verifier follows the path while it is answered with the nodes of the tree,
    and gives what the tree has under the key. *)
Lemma verify_walk proofDb fuel : forall i t key ss, path t key ss -> good t -> (length key < fuel)%nat ->
  (forall s, s = t \/ (s ∈ ss /\ (32 <= length (tenc sha s))%nat) -> proofDb (sha (tenc sha s)) = None \/ proofDb (sha (tenc sha s)) = Some (tenc sha s)) ->
  verifyLoop fuel proofDb i (sha (tenc sha t)) key = Done (inr (tget t key)) \/
  exists j s, verifyLoop fuel proofDb i (sha (tenc sha t)) key = Done (inl (proofMissing j (sha (tenc sha s)))) /\ (s = t \/ (s ∈ ss /\ (32 <= length (tenc sha s))%nat)) /\
    proofDb (sha (tenc sha s)) = None.
Proof.
  induction fuel as [|fuel IH]; intros i t key ss HP Hg Hf Hdb; [lia|]. cbn [verifyLoop]. destruct (Hdb t (or_introl eq_refl)) as [HN|HS]; [rewrite HN; right; exists i, t; split; [done|]; split; [by left|done]|].
  rewrite HS. assert (HD : decodeNode (Some (sha (tenc sha t))) (tenc sha t) = Done (inr (shallow sha (Some (sha (tenc sha t))) t))).
  { pose proof (tenc_le sha sha_len t Hg) as Hl. unfold decodeNode. rewrite <-(app_nil_r (tenc sha t)) at 3. apply decodeNode_tenc; [done|done|lia|by rewrite app_nil_r]. }
  rewrite HD. cbn [mbind outcome_bind]. destruct (proofGet_shallow t key ss HP Hg (Some (sha (tenc sha t)))) as (r & cld & -> & HC). cbn [mbind outcome_bind].
  destruct cld as [|v|h|k c f|cs f]; [left; by rewrite HC|left; by rewrite HC| |done|done]. destruct HC as (s & ss' & -> & Hgs & H32 & Hs & HP' & Hsub & Hr & Hget).
  rewrite take_ge by (rewrite sha_len; lia). rewrite drop_ge, app_nil_r by (rewrite !sha_len; lia).
  destruct (IH (S i) s r ss' HP' Hgs) as [HV|(j & s' & HV & Hs' & HN)]; [lia| |left; by rewrite HV, Hget|].
  - intros s' [->|[Hin H32']]; apply Hdb; right; [done|]. split; [by apply Hsub|done].
  - right. exists j, s'. split; [done|]. split; [|done]. right. destruct Hs' as [->|[Hin H32']]; [done|]. split; [by apply Hsub|done].
Qed.
End Walk.

(** ** What a prover collects *)

Section Collect.
Context (Node : list Z -> Hash -> option (list Z)) (M : Marks).

Definition loaded (n : node) (t : tree) : Prop := isHash n = false /\ exists b p, loads Node M b p n t.

Definition proves (key : list Z) (t : tree) (ss : list tree) (n : node) : Prop := forall fuel p b acc, loads Node M b p n t -> (2 * length ss + (if isHash n then 2 else 1) <= fuel)%nat ->
  exists nodes, proveLoop Node fuel n p key acc = Done (inr (acc ++ nodes)) /\ Forall2 loaded nodes ss.

(** A reference is resolved first. *)
Lemma proves_any key t ss : key <> [] \/ (t = TNil \/ exists v, t = TValue v) -> (forall n, isHash n = false -> proves key t ss n) -> forall n, proves key t ss n.
Proof.
  intros Hk HN n. destruct (isHash n) eqn:Hh; [|by apply HN]. destruct n as [| |h| |]; try done. intros fuel p b acc Hl Hf. cbn [isHash] in Hf.
  inversion Hl as [| | | |? ? ? blob m ? _ Hr Hd Hlm]; subst. destruct fuel as [|fuel]; [lia|]. cbn [proveLoop isNil].
  assert (Hm : (exists k v, m = ShortNode k v (mkFlag (Some h) false)) \/ (exists cs, m = FullNode cs (mkFlag (Some h) false))) by (by eapply decoded_cases).
  destruct Hk as [Hk|[->|[v ->]]]; [|by apply loads_nil_inv in Hl|by apply loads_value_inv in Hl].
  rewrite decide_False by (intros [Hz|?]; [by destruct key|done]). rewrite Hr, Hd. cbn [mbind outcome_bind].
  assert (isHash m = false) as Hmh by (by destruct Hm as [(? & ? & ->)|(? & ->)]). apply (HN m Hmh fuel p b acc Hlm). rewrite Hmh. lia.
Qed.

Lemma proveLoop_spec t key ss : path t key ss -> forall n, proves key t ss n.
Proof.
  induction 1 as [key|v|k t key Hne Hm|k t r ss Hk HP IH|ts x r t ss Hx Ht HP IH].
  - intros n fuel p b acc Hl Hf. apply loads_nil_inv in Hl as ->. destruct fuel as [|fuel]; [simpl in Hf; lia|]. exists []. cbn [proveLoop]. rewrite decide_True by (by right). by rewrite app_nil_r.
  - intros n fuel p b acc Hl Hf. apply loads_value_inv in Hl as ->. destruct fuel as [|fuel]; [simpl in Hf; lia|]. exists []. cbn [proveLoop]. rewrite decide_True by (by left). by rewrite app_nil_r.
  - apply proves_any; [by left|]. intros n Hh fuel p b acc Hl Hf. rewrite Hh in Hf. cbn [length] in Hf. destruct fuel as [|[|fuel]]; [lia|lia|].
    inversion Hl as [| |? ? ? c ? f Hfl Hc| |]; subst; [|done]. exists [ShortNode k c f]. cbn [proveLoop isNil]. rewrite decide_False by (intros [Hz|?]; [by destruct key|done]). rewrite decide_True by done.
    rewrite decide_True by (by right). split; [done|]. repeat constructor. by exists b, p.
  - apply proves_any; [left; by destruct k|]. intros n Hh fuel p b acc Hl Hf. rewrite Hh in Hf. cbn [length] in Hf. destruct fuel as [|fuel]; [lia|].
    inversion Hl as [| |? ? ? c ? f Hfl Hc| |]; subst; [|done]. cbn [proveLoop isNil]. rewrite decide_False by (intros [Hz|?]; [by destruct k|done]). rewrite decide_False by apply no_miss. rewrite drop_app_length.
    destruct (IH c fuel (p ++ k) _ (acc ++ [ShortNode k c f]) Hc) as (nodes & -> & HF); [destruct (isHash c); lia|]. exists (ShortNode k c f :: nodes). split; [by rewrite <-(assoc_L (++))|].
    constructor; [split; [done|by exists b, p]|done].
  - apply proves_any; [by left|]. intros n Hh fuel p b acc Hl Hf. rewrite Hh in Hf. cbn [length] in Hf. destruct fuel as [|fuel]; [lia|].
    inversion Hl as [| | |? ? cs ? f Hfl Hlen Hc|]; subst; [|done]. cbn [proveLoop isNil]. rewrite decide_False by (intros [?|?]; done). rewrite index_0. cbn [mbind outcome_bind].
    destruct (lookup_lt_is_Some_2 cs (Z.to_nat x)) as [c Hcx]; [rewrite Hlen; by eapply lookup_lt_Some|]. assert (index cs x = Done c) as -> by (apply index_Done; done). cbn [mbind outcome_bind].
    specialize (Hc _ _ _ Hcx Ht). rewrite Z2Nat.id in Hc by done. change (drop 1 (x :: r)) with (drop 0 r). rewrite drop_0.
    destruct (IH c fuel (p ++ [x]) _ (acc ++ [FullNode cs f]) Hc) as (nodes & -> & HF); [destruct (isHash c); lia|]. exists (FullNode cs f :: nodes). split; [by rewrite <-(assoc_L (++))|].
    constructor; [split; [done|by exists b, p]|done].
Qed.
End Collect.

Lemma path_good t key ss : path t key ss -> childOk t -> Forall good ss.
Proof.
  induction 1 as [key|v|k t key Hne Hm|k t r ss Hk HP IH|ts x r t ss Hx Ht HP IH]; intros [Hn|[[v' Hv]|Hg]]; try done; constructor; try done.
  - apply IH. by eapply childOk_short.
  - apply IH. by eapply childOk_full.
Qed.

Lemma path_encodings sha t key ss s : path t key ss -> s ∈ ss -> tenc sha s ∈ encodings sha t.
Proof.
  induction 1 as [key|v|k t key Hne Hm|k t r ss Hk HP IH|ts x r t ss Hx Ht HP IH]; intros Hs; [by apply elem_of_nil in Hs|by apply elem_of_nil in Hs| | |].
  - apply list_elem_of_singleton in Hs as ->. constructor.
  - apply elem_of_cons in Hs as [->|Hs]; [constructor|right; by apply IH].
  - apply elem_of_cons in Hs as [->|Hs]; [constructor|]. eapply encodings_child; [done|by apply IH].
Qed.

(** ** The proof *)

Section Proofs.
Context {K : Keccak} {KL : KeccakLaws K} (pooled : encBuffer) (Hpool : ready pooled) (Node : list Z -> Hash -> option (list Z)).

Lemma proofHash_spec h n t : ready h -> good t -> loaded Node (treeMarks Node) n t ->
  exists h' n' hn, proofHash sha pooled false h n = Done (h', (n', hn)) /\ ready h' /\ nodeToBytes pooled n' = Done (tenc sha t) /\
    if decide (32 <= length (tenc sha t))%nat then hn = HashNode (sha (tenc sha t)) else isHash hn = false.
Proof.
  intros Hr Hg [Hh (b & p & Hl)]. pose proof (body_le sha sha_len _ Hg) as HB.
  assert (HF : forall h1 n', ready h1 -> isNil n' = false -> isHash n' = false -> encodes n' (tenc sha t) -> exists h2 hn, shortnodeToHash sha h1 n' false = Done (h2, hn) /\ fullnodeToHash sha h1 n' false = Done (h2, hn) /\
    ready h2 /\ nodeToBytes pooled n' = Done (tenc sha t) /\ if decide (32 <= length (tenc sha t))%nat then hn = HashNode (sha (tenc sha t)) else isHash hn = false).
  { intros h1 n' Hr1 Hn Hh' He. destruct (nodeToHash_spec sha h1 n' t [0] Hr1 Hn Hh' He) as (h2 & hn & H1 & H2 & Hr2 & Ha). exists h2, hn. split; [done|]. split; [done|]. split; [done|].
    split; [apply nodeToBytes_spec; [apply Hpool|done|done]|]. unfold hashedAs in Ha. destruct (decide (32 <= length (tenc sha t))%nat) as [H32|H32].
    - by rewrite decide_True in Ha by (by right).
    - rewrite decide_False in Ha by (intros [?|?]; [done|lia]). by destruct Ha. }
  inversion Hl as [| |? ? k c u f Hfl Hc|? ? cs ts f Hfl Hlen Hc|]; subst; [by inversion Hg|by inversion Hg| | |done]; cbn [proofHash body] in *.
  - destruct (hashShortNodeChildren_spec sha sha_len Node (Kept sha Node) pooled false _ p k c u h Hr Hg Hc) as (h1 & coll & cach & -> & Hr1 & He & _); [intros Hgt; exact (hash_spec sha sha_len Node (Kept sha Node) pooled _ _ _ _ Hpool Hc Hgt false)|].
    cbn [mbind outcome_bind]. destruct (HF h1 (ShortNode (compactOf k) coll f) Hr1) as (h2 & hn & -> & _ & Hr2 & Hnb & Hhn); [done|done| |].
    + apply (encodes_short _ _ (embed sha u (tenc sha u))); [eapply Z.lt_trans; [exact HB|done]|done].
    + cbn [mbind outcome_bind]. by eexists _, _, _.
  - destruct (hashChildren_ready sha sha_len Node (Kept sha Node) pooled false false _ p cs ts f h Hpool Hr Hg Hl) as (h1 & coll & cach & HH & Hr1 & He & _); [intros i c u Hci Hui Hgu; exact (hash_spec sha sha_len Node (Kept sha Node) pooled _ _ _ _ Hpool (Hc i c u Hci Hui) Hgu false)|].
    cbn beta iota in HH. rewrite HH. cbn [mbind outcome_bind]. destruct (HF h1 (FullNode coll f) Hr1) as (h2 & hn & _ & -> & Hr2 & Hnb & Hhn); [done|done| |].
    + apply (encodes_full _ ((fun t => embed sha t (tenc sha t)) <$> ts)); [eapply Z.lt_trans; [exact HB|done]|done].
    + cbn [mbind outcome_bind]. by eexists _, _, _.
Qed.

(** The proof has the encodings of the nodes on the path under their hashes. *)
Lemma proofPuts_spec nodes ss : Forall2 (loaded Node (treeMarks Node)) nodes ss -> Forall good ss -> forall first h db, ready h ->
  exists db', proofPuts sha pooled h first nodes db = Done db' /\ (forall k e, db' !! k = Some e -> db !! k = Some e \/ exists s, s ∈ ss /\ e = tenc sha s /\ k = sha e) /\
    (forall k, is_Some (db !! k) -> is_Some (db' !! k)) /\
    (forall i s, ss !! i = Some s -> (first = true /\ i = 0%nat) \/ (32 <= length (tenc sha s))%nat -> is_Some (db' !! sha (tenc sha s))).
Proof.
  induction 1 as [|n s nodes ss Hn HF IH]; intros Hg first h db Hr; [exists db; split; [done|]; split; [by left|]; split; [done|]; by intros i s|].
  apply Forall_cons in Hg as [Hgs Hg]. destruct (proofHash_spec h n s Hr Hgs Hn) as (h1 & n' & hn & HP & Hr1 & HE & Hhn). cbn [proofPuts]. rewrite HP. cbn [mbind outcome_bind].
  destruct (decide (first = true \/ (32 <= length (tenc sha s))%nat)) as [Hput|Hskip].
  - destruct (IH Hg false h1 (<[sha (tenc sha s) := tenc sha s]> db) Hr1) as (db' & HD & H1 & H2 & H3). exists db'. split.
    { destruct (decide (32 <= length (tenc sha s))%nat) as [H32|H32]; [subst hn; by rewrite HE|]. assert (first = true) as -> by (by destruct Hput). rewrite HE. by destruct hn. }
    split; [|split; [intros k Hk; apply H2, lookup_insert_is_Some'; by right|]].
    + intros k e Hk. destruct (H1 k e Hk) as [Hd|(s' & Hs' & ?)]; [|right; exists s'; split; [by right|done]].
      apply lookup_insert_Some in Hd as [[<- <-]|[_ Hd]]; [right; exists s; split; [by left|done]|by left].
    + intros [|i] s' Hi Hc; [|apply (H3 i); [done|]; destruct Hc as [[_ ?]|?]; [done|by right]]. injection Hi as <-. apply H2, lookup_insert_is_Some'. by left.
  - destruct (IH Hg false h1 db Hr1) as (db' & HD & H1 & H2 & H3). exists db'. assert (first = false) as -> by (destruct first; [exfalso; apply Hskip; by left|done]). split.
    { rewrite decide_False in Hhn by (intros ?; apply Hskip; by right). by destruct hn. }
    split; [|split; [done|]].
    + intros k e Hk. destruct (H1 k e Hk) as [Hd|(s' & Hs' & ?)]; [by left|right; exists s'; split; [by right|done]].
    + intros [|i] s' Hi Hc; [|apply (H3 i); [done|]; destruct Hc as [[? _]|?]; [done|by right]]. exfalso. injection Hi as <-. destruct Hc as [[? _]|?]; [done|]. apply Hskip. by right.
Qed.
End Proofs.

(** ** Properties *)

Section Laws.
Context {K : Keccak} {KL : KeccakLaws K}.

(** A key of bytes has a path, whose nodes are good. *)
Lemma key_path u m key : contents u m -> goodMap m -> u <> TNil -> bytes_ok key -> good u /\ exists ss, path u (keybytesToHex key) ss /\ Forall good ss.
Proof.
  intros Hu Hm Hn Hb. pose proof (contents_good u m Hu Hm Hn) as Hg. split; [done|]. destruct (path_exists u (contents_wf u m Hu) (keybytesToHex key)) as [ss HP]; [by apply keybytesToHex_key|].
  exists ss. split; [done|]. eapply path_good; [done|by right; right].
Qed.

Lemma Prove_spec pooled h Node t u m key : ready pooled -> ready h -> standsFor Node (treeMarks Node) t u -> contents u m -> goodMap m -> u <> TNil -> bytes_ok key ->
  exists proof ss, Prove Node sha pooled h t key ∅ = Done (None, proof) /\ path u (keybytesToHex key) ss /\
    (forall k e, proof !! k = Some e -> e ∈ encodings sha u /\ k = sha e) /\
    (forall s, s = u \/ (s ∈ ss /\ (32 <= length (tenc sha s))%nat) -> is_Some (proof !! sha (tenc sha s))).
Proof.
  intros Hp Hh (Hc & Hl & _) Hu Hm Hn Hb. destruct (key_path u m key Hu Hm Hn Hb) as (Hg & ss & HP & Hgs).
  pose proof (path_length u _ ss HP) as Hlen. unfold Prove. rewrite Hc. cbn zeta.
  assert (Hhead : exists ss', ss = u :: ss') by (destruct HP; [done|inversion Hg|by eexists..]).
  destruct (proveLoop_spec Node (treeMarks Node) u _ ss HP (root t) (levels (keybytesToHex key)) [] false [] Hl) as (nodes & -> & HF).
  { unfold levels. destruct (isHash (root t)); lia. }
  cbn [mbind outcome_bind app]. destruct (proofPuts_spec pooled Hp Node nodes ss HF Hgs true h ∅ Hh) as (proof & -> & H1 & _ & H3). cbn [mbind outcome_bind].
  exists proof, ss. split; [done|]. split; [done|]. split.
  - intros k e Hk. destruct (H1 k e Hk) as [He|(s & Hs & -> & ->)]; [by rewrite lookup_empty in He|]. split; [by eapply path_encodings|done].
  - intros s [->|[Hs H32]]; [destruct Hhead as [ss' ->]; apply (H3 0%nat); [done|by left]|]. apply list_elem_of_lookup in Hs as [i Hi]. apply (H3 i); [done|by right].
Qed.
End Laws.

(** C17: a proof made by [Prove] for a key of a trie that is not empty convinces
    [VerifyProof], under the hash of the trie, of what the trie holds under the
    key, or that it holds nothing, unless two nodes of the trie collide. *)
Theorem Prove_VerifyProof {K : Keccak} {KL : KeccakLaws K} (pooled h : encBuffer) Node t m key :
  ready pooled -> ready h -> holds Node (treeMarks Node) t m -> goodMap m -> m <> ∅ -> bytes_ok key ->
  exists t' root proof, Hash_ sha emptyRoot pooled h t = Done (t', root) /\ Prove Node sha pooled h t key ∅ = Done (None, proof) /\
    (VerifyProof root key (fun hash => proof !! hash) = Done (inr (m !! key)) \/ exists u, contents u m /\ collides sha (encodings sha u) (encodings sha u)).
Proof.
  intros Hp Hh (u & HS & Hu) Hm Hne Hb. assert (Hn : u <> TNil) by (intros ->; apply Hne; by eapply contents_map; [|apply contents_empty]).
  pose proof (contents_good u m Hu Hm) as Hg. destruct (Hash_spec pooled h Hp Hh Node t u HS Hg) as (t' & HH & _). specialize (Hg Hn). rewrite (rootHash_good u Hg) in HH.
  destruct (Prove_spec pooled h Node t u m key Hp Hh HS Hu Hm Hn Hb) as (proof & ss & HP & Hpath & Hin & Hsome). exists t', (sha (tenc sha u)), proof. split; [done|]. split; [done|].
  destruct (decide (Exists (fun e => Exists (fun e' => e <> e' /\ sha e = sha e') (encodings sha u)) (encodings sha u))) as [HE|HE].
  { right. exists u. split; [done|]. apply Exists_exists in HE as (a & Ha & (b & Hb' & ? & ?)%Exists_exists). by exists a, b. }
  assert (HA : forall s, s = u \/ (s ∈ ss /\ (32 <= length (tenc sha s))%nat) -> proof !! sha (tenc sha s) = Some (tenc sha s)).
  { intros s Hs. destruct (Hsome s Hs) as [e He]. rewrite He. f_equal. destruct (Hin _ _ He) as [Hee Heq]. apply dec_stable. intros Hd. apply HE, Exists_exists.
    exists e. split; [done|]. apply Exists_exists. exists (tenc sha s). split; [|done]. destruct Hs as [->|[Hs _]]; [by apply encodings_self|by eapply path_encodings]. }
  left. unfold VerifyProof. cbn zeta. destruct (verify_walk sha sha_len (fun hash => proof !! hash) (S (length (keybytesToHex key))) 0 u _ ss Hpath Hg) as [->|(j & s & _ & Hs & HN)];
    [lia|intros s Hs; right; by apply HA|by rewrite (contents_get u m Hu) by done|]. by rewrite (HA s Hs) in HN.
Qed.

(** C16: [VerifyProof] under the hash of a trie, over any database of proof nodes,
    ends without a panic, and gives what the trie holds under the key or an
    error.  The only exception is a database that has, under the hash of a node
    of the trie, bytes other than the node.  [VerifyProof] does not hash what it
    reads, so that these bytes may have another hash; when the database is
    filled with answers under their own hashes, they collide with the node. *)
Theorem VerifyProof_sound {K : Keccak} {KL : KeccakLaws K} (pooled h : encBuffer) Node t m key (proofDb : Hash -> option (list Z)) :
  ready pooled -> ready h -> holds Node (treeMarks Node) t m -> goodMap m -> bytes_ok key ->
  exists t' root, Hash_ sha emptyRoot pooled h t = Done (t', root) /\
    (VerifyProof root key proofDb = Done (inr (m !! key)) \/ (exists e, VerifyProof root key proofDb = Done (inl e)) \/
     exists u e b, contents u m /\ e ∈ [0x80] :: encodings sha u /\ proofDb (sha e) = Some b /\ b <> e /\
       ((forall hash b, proofDb hash = Some b -> sha b = hash) -> sha b = sha e)).
Proof.
  intros Hp Hh (u & HS & Hu) Hm Hb. destruct (Hash_spec pooled h Hp Hh Node t u HS (contents_good u m Hu Hm)) as (t' & HH & _). exists t', (rootHash sha emptyRoot u). split; [done|].
  assert (HA : forall e, e ∈ [0x80] :: encodings sha u -> (proofDb (sha e) = None \/ proofDb (sha e) = Some e) \/
    exists u e b, contents u m /\ e ∈ [0x80] :: encodings sha u /\ proofDb (sha e) = Some b /\ b <> e /\ ((forall hash b, proofDb hash = Some b -> sha b = hash) -> sha b = sha e)).
  { intros e He. destruct (proofDb (sha e)) as [b|] eqn:Hd; [|left; by left]. destruct (decide (b = e)) as [->|Hne]; [left; by right|right]. exists u, e, b. split_and!; [done|done|done|done|]. intros Hkeyed. by apply Hkeyed. }
  destruct (decide (u = TNil)) as [->|Hn].
  - cbn [rootHash]. rewrite emptyRoot_sha. destruct (HA [0x80] ltac:(by left)) as [HD|?]; [|by right; right]. right; left. unfold VerifyProof. cbn zeta. cbn [verifyLoop]. by destruct HD as [-> | ->]; eexists.
  - destruct (key_path u m key Hu Hm Hn Hb) as (Hg & ss & HP & Hgs). rewrite (rootHash_good u Hg).
    destruct (decide (Forall (fun e => proofDb (sha e) = None \/ proofDb (sha e) = Some e) (encodings sha u))) as [HF|HF].
    + rewrite Forall_forall in HF. unfold VerifyProof. cbn zeta.
      destruct (verify_walk sha sha_len proofDb (S (length (keybytesToHex key))) 0 u _ ss HP Hg) as [->|(j & s & -> & _)]; [lia| |left; by rewrite (contents_get u m Hu) by done|right; left; by eexists].
      intros s Hs. apply HF. destruct Hs as [->|[Hs _]]; [by apply encodings_self|by eapply path_encodings].
    + right; right. apply not_Forall_Exists in HF; [|apply _]. apply Exists_exists in HF as (e & He & Hne). destruct (HA e ltac:(by right)) as [?|?]; done.
Qed.

(** ** Examples *)

Module SampleProof.
Import SampleKeccak.

Definition ops : list trieOp := [OpUpdate [1; 2] [10]; OpUpdate [1; 3] (replicate 40 11); OpUpdate [7] [12]].

Lemma ops_ok : Forall opOk ops.
Proof. unfold ops. simpl. repeat (apply List.Forall_cons || apply List.Forall_nil || split); simpl; unfold byte_ok, limit; (lia || done). Qed.

Lemma ops_hold : exists r, runOps (fun _ _ => None) (emptyTrie zeroHash) ops = Done r /\ holds (fun _ _ => None) (treeMarks (fun _ _ => None)) r.1 (mapOps ∅ ops).
Proof.
  destruct (runOps_map (fun _ _ => None) (treeMarks (fun _ _ => None)) ops (emptyTrie zeroHash) ∅ (emptyTrie_holds _ _ _)) as (t & Ht & HH);
    [eapply Forall_impl; [apply ops_ok|]; by intros op [? _]|]. by eexists (t, _).
Qed.

Lemma ops_good : goodMap (mapOps ∅ ops).
Proof. apply goodMap_ops; [apply map_Forall_empty|apply ops_ok]. Qed.

Lemma key_ok : bytes_ok [1; 2].
Proof. repeat constructor; done. Qed.

(** A verifier that is told one thing, which has the hash it is told under. *)
Definition lie (hash : Hash) : option (list Z) := if decide (hash = sha [0xC1; 5]) then Some [0xC1; 5] else None.

Lemma lie_keyed hash b : lie hash = Some b -> sha b = hash.
Proof. unfold lie. case_decide as H; [|done]. by intros [= <-]. Qed.
End SampleProof.

Import SampleKeccak SampleProof.

Lemma Prove_VerifyProof_witness : exists r t' root proof, runOps (fun _ _ => None) (emptyTrie zeroHash) ops = Done r /\
  Hash_ sha emptyRoot newEncBuffer newEncBuffer r.1 = Done (t', root) /\ Prove (fun _ _ => None) sha newEncBuffer newEncBuffer r.1 [1; 2] ∅ = Done (None, proof) /\
  (VerifyProof root [1; 2] (fun hash => proof !! hash) = Done (inr (Some [10])) \/ exists u, contents u (mapOps ∅ ops) /\ collides sha (encodings sha u) (encodings sha u)).
Proof.
  destruct ops_hold as (r & Hr & HH).
  assert (Hk : mapOps ∅ ops !! [1; 2] = Some [10]) by (apply (bool_decide_unpack _); vm_compute; exact I).
  destruct (Prove_VerifyProof newEncBuffer newEncBuffer (fun _ _ => None) r.1 (mapOps ∅ ops) [1; 2] ready_new ready_new HH ops_good) as (t' & root & proof & H1 & H2 & H3).
  - intros He. rewrite He, lookup_empty in Hk. discriminate.
  - exact key_ok.
  - rewrite Hk in H3. exists r, t', root, proof. exact (conj Hr (conj H1 (conj H2 H3))).
Defined.

Lemma VerifyProof_sound_witness : exists r t' root, runOps (fun _ _ => None) (emptyTrie zeroHash) ops = Done r /\ Hash_ sha emptyRoot newEncBuffer newEncBuffer r.1 = Done (t', root) /\
  (VerifyProof root [1; 2] lie = Done (inr (mapOps ∅ ops !! [1; 2])) \/ (exists e, VerifyProof root [1; 2] lie = Done (inl e)) \/
   exists u e b, contents u (mapOps ∅ ops) /\ e ∈ [0x80] :: encodings sha u /\ lie (sha e) = Some b /\ b <> e /\ sha b = sha e).
Proof.
  destruct ops_hold as (r & Hr & HH).
  destruct (VerifyProof_sound newEncBuffer newEncBuffer (fun _ _ => None) r.1 (mapOps ∅ ops) [1; 2] lie ready_new ready_new HH ops_good key_ok) as (t' & root & H1 & H2).
  exists r, t', root. split; [exact Hr|]. split; [exact H1|]. destruct H2 as [H2|[H2|(u & e & b & H3 & H4 & H5 & H6 & H7)]]; [by left|by right; left|].
  right; right. exists u, e, b. split_and!; [exact H3|exact H4|exact H5|exact H6|]. exact (H7 lie_keyed).
Defined.
