(* ===== verification/StackTrie.v ===== *)
(** * The stack trie

    [trie/stacktrie.go]: a trie for keys that come in increasing order.  A part
    of it that later keys cannot reach is hashed at once, and only its hash, or
    its encoding where that is short, is kept.  The nodes it writes are
    collected in the order of the calls of [writeFn].

    The slices of paths that are handed down share their arrays in the code; as
    no path is used after a later append, they are values here. *)

From Stdlib Require Import Sorting.Sorted.
From S2P Require Import Prelude Bytes RlpRaw RlpEncode TrieKeys Trie TrieSpec TrieMap TrieHash TrieNode TrieCommit TrieDB.

Local Open Scope Z_scope.

(** ** Nodes *)

Inductive stNode :=
| emptyNode
| branchNode (children : list (option stNode))
| extNode (key : list Z) (child : stNode)
| leafNode (key val : list Z)
| hashedNode (val : list Z).

(** The buffer of the hasher and the nodes written. *)
Record stState := mkStState { stBuf : encBuffer; stWrites : list (list Z * Hash * list Z) }.

(** [stWriter] says whether there is a [writeFn]. *)
Record StackTrie := mkStackTrie { stWriter : bool; stRoot : stNode; stIO : stState }.

Definition NewStackTrie (writer : bool) (h : encBuffer) : StackTrie := mkStackTrie writer emptyNode (mkStState h []).

Section StackTrie.
Context (sha : list Z -> list Z) (emptyRoot : Hash) (writer : bool).

(** [getDiffIndex] *)
Fixpoint getDiffIndex (nkey key : list Z) : outcome nat :=
  match nkey, key with
  | [], _ => Done 0%nat
  | x :: nkey, [] => Panic
  | x :: nkey, y :: key => if decide (x <> y) then Done 0%nat else n ← getDiffIndex nkey key; Done (S n)
  end.

(** ** Hashing *)

(** The child in the encoding of its parent: [rawNode] or [hashNode]. *)
Definition encodeVal (val : list Z) (w : encBuffer) : outcome encBuffer :=
  if decide (length val < 32)%nat then Done (appendStr w val) else bufWriteBytes w val.

Fixpoint encodeVals (vals : list (option (list Z))) (w : encBuffer) : outcome encBuffer :=
  match vals with
  | [] => Done w
  | None :: vals => w ← bufWriteBytes w []; encodeVals vals w
  | Some val :: vals => w ← encodeVal val w; encodeVals vals w
  end.

(** The encoding of a full node with these children and no value, and of a
    short node. *)
Definition encodeBranch (vals : list (option (list Z))) (w : encBuffer) : outcome encBuffer :=
  let '(w, offset) := list_ w in
  w ← encodeVals vals w;
  listEnd (appendStr w [0x80]) offset.

Definition encodeShort (key : list Z) (val : encBuffer -> outcome encBuffer) (w : encBuffer) : outcome encBuffer :=
  let '(w, offset) := list_ w in
  w ← bufWriteBytes w key;
  w ← val w;
  listEnd w offset.

(** The end of [hash]: the bytes or their hash, which is written. *)
Definition finishHash (s : stState) (path : list Z) (encodeNode : encBuffer -> outcome encBuffer) : outcome (stState * list Z) :=
  w ← encodeNode (stBuf s);
  '(h, encodedNode) ← encodedBytes w;
  if decide (length encodedNode < 32)%nat then Done (mkStState h (stWrites s), encodedNode)
  else
    let val := sha encodedNode in
    Done (mkStState h (if writer then stWrites s ++ [(path, BytesToHash val, encodedNode)] else stWrites s), val).

Section Children.
Context (hash : stState -> stNode -> list Z -> outcome (stState * list Z)) (path : list Z).

Fixpoint hashKids (s : stState) (i : Z) (cs : list (option stNode)) {struct cs} : outcome (stState * list (option (list Z))) :=
  match cs with
  | [] => Done (s, [])
  | None :: cs => '(s, vals) ← hashKids s (i + 1) cs; Done (s, None :: vals)
  | Some child :: cs => '(s, val) ← hash s child (path ++ [i]); '(s, vals) ← hashKids s (i + 1) cs; Done (s, Some val :: vals)
  end.
End Children.

(** [hash]: the value of the hashed node that takes the place of [st]. *)
Fixpoint hashSt (s : stState) (st : stNode) (path : list Z) {struct st} : outcome (stState * list Z) :=
  match st with
  | hashedNode val => Done (s, val)
  | emptyNode => Done (s, emptyRoot)
  | branchNode children =>
      '(s, vals) ← hashKids hashSt path s 0 children;
      finishHash s path (encodeBranch vals)
  | extNode key child =>
      '(s, val) ← hashSt s child (path ++ key);
      key ← hexToCompactInPlace key;
      finishHash s path (encodeShort key (encodeVal val))
  | leafNode key val =>
      key ← hexToCompactInPlace (key ++ [16]);
      finishHash s path (encodeShort key (fun w => bufWriteBytes w val))
  end.

(** [t.hash(st, path)] *)
Definition hashNodeSt (s : stState) (st : stNode) (path : list Z) : outcome (stState * stNode) :=
  '(s, val) ← hashSt s st path; Done (s, hashedNode val).

(** ** Insertion *)

(** The nearest elder sibling is hashed. *)
Fixpoint hashElder (s : stState) (prefix : list Z) (n : nat) (children : list (option stNode)) : outcome (stState * list (option stNode)) :=
  match n with
  | O => Done (s, children)
  | S n =>
      child ← index children (Z.of_nat n);
      match child with
      | None => hashElder s prefix n children
      | Some (hashedNode _) => Done (s, children)
      | Some child => '(s, child) ← hashNodeSt s child (prefix ++ [Z.of_nat n]); Done (s, <[n := Some child]> children)
      end
  end.

(** A branch with two children. *)
Definition twoChildren (i j : Z) (c d : stNode) : outcome (list (option stNode)) :=
  children ← store (replicate 16 None) i (Some c);
  store children j (Some d).

Section Child.
Context (insert : stNode -> outcome (stState * stNode)) (leaf : outcome (stState * stNode)).

(** The child at an index, inserted into, or a new leaf. *)
Fixpoint insertKid (i : nat) (cs : list (option stNode)) {struct cs} : outcome (stState * stNode) :=
  match cs, i with
  | [], _ => Panic
  | None :: _, O => leaf
  | Some child :: _, O => insert child
  | _ :: cs, S i => insertKid i cs
  end.
End Child.

Fixpoint insertSt (s : stState) (st : stNode) (key value prefix : list Z) {struct st} : outcome (stState * stNode) :=
  match st with
  | branchNode children =>
      idx ← index key 0;
      '(s, children') ← hashElder s prefix (Z.to_nat idx) children;
      '(s, child) ← insertKid (fun child => insertSt s child (drop 1 key) value (prefix ++ [idx])) (Done (s, leafNode (drop 1 key) value)) (Z.to_nat idx) children;
      Done (s, branchNode (<[Z.to_nat idx := Some child]> children'))
  | extNode ekey child =>
      diffidx ← getDiffIndex ekey key;
      if decide (diffidx = length ekey) then
        '(s, child) ← insertSt s child (drop diffidx key) value (prefix ++ take diffidx key);
        Done (s, extNode ekey child)
      else
        '(s, n) ← (if decide (diffidx < length ekey - 1)%nat
                   then hashNodeSt s (extNode (drop (S diffidx) ekey) child) (prefix ++ take (S diffidx) ekey)
                   else hashNodeSt s child (prefix ++ ekey));
        origIdx ← index ekey (Z.of_nat diffidx);
        newIdx ← index key (Z.of_nat diffidx);
        children ← twoChildren origIdx newIdx n (leafNode (drop (S diffidx) key) value);
        Done (s, if decide (diffidx = 0%nat) then branchNode children else extNode (take diffidx ekey) (branchNode children))
  | leafNode lkey val =>
      diffidx ← getDiffIndex lkey key;
      if decide (length lkey <= diffidx)%nat then Panic
      else
        origIdx ← index lkey (Z.of_nat diffidx);
        '(s, orig) ← hashNodeSt s (leafNode (drop (S diffidx) lkey) val) (prefix ++ take (S diffidx) lkey);
        newIdx ← index key (Z.of_nat diffidx);
        children ← twoChildren origIdx newIdx orig (leafNode (drop (S diffidx) key) value);
        Done (s, if decide (diffidx = 0%nat) then branchNode children else extNode (take diffidx lkey) (branchNode children))
  | emptyNode => Done (s, leafNode key value)
  | hashedNode _ => Panic
  end.

End StackTrie.

(** ** Operations *)

Section Operations.
Context (sha : list Z -> list Z) (emptyRoot : Hash).

Definition stUpdate (t : StackTrie) (key value : list Z) : outcome StackTrie :=
  let k := keybytesToHex key in
  if decide (length value = 0%nat) then Panic
  else '(s, st) ← insertSt sha emptyRoot (stWriter t) (stIO t) (stRoot t) (take (length k - 1) k) value []; Done (mkStackTrie (stWriter t) st s).

Definition stReset (t : StackTrie) : StackTrie := mkStackTrie false emptyNode (stIO t).

Definition stHash (t : StackTrie) : outcome (StackTrie * Hash) :=
  '(s, val) ← hashSt sha emptyRoot (stWriter t) (stIO t) (stRoot t) [];
  Done (mkStackTrie (stWriter t) (hashedNode val) s, if decide (length val = 32%nat) then val else sha val).

(** [Commit]; the answer is [None] without a [writeFn]. *)
Definition stCommit (t : StackTrie) : outcome (StackTrie * option Hash) :=
  if negb (stWriter t) then Done (t, None)
  else
    '(s, val) ← hashSt sha emptyRoot true (stIO t) (stRoot t) [];
    if decide (length val = 32%nat) then Done (mkStackTrie true (hashedNode val) s, Some val)
    else
      let h := sha val in
      Done (mkStackTrie true (hashedNode val) (mkStState (stBuf s) (stWrites s ++ [([], h, val)])), Some h).
End Operations.

(** ** The tree a stack trie stands for *)

(** One string of nibbles comes before another and is not its beginning. *)
Definition before (a b : list Z) : Prop := exists c x y r1 r2, a = c ++ x :: r1 /\ b = c ++ y :: r2 /\ x < y.

Section Stands.
Context (sha : list Z -> list Z) (sha_len : forall b, length (sha b) = 32%nat) (emptyRoot : Hash) (writer : bool).

(** What a hashed node keeps of a tree. *)
Definition hashVal (t : tree) : list Z := if decide (length (tenc sha t) < 32)%nat then tenc sha t else sha (tenc sha t).

(** The larger nodes of the tree have been written. *)
Definition written (W : list (list Z * Hash * list Z)) (p : list Z) (t : tree) : Prop := writer = true -> forall q s, subAt t q s ->
  (32 <= length (tenc sha s))%nat -> (p ++ q, sha (tenc sha s), tenc sha s) ∈ W.

Inductive reps (W : list (list Z * Hash * list Z)) : list Z -> stNode -> tree -> Prop :=
| reps_leaf p k v : reps W p (leafNode k v) (TShort (k ++ [16]) (TValue v))
| reps_ext p k c t : reps W (p ++ k) c t -> reps W p (extNode k c) (TShort k t)
| reps_branch p cs ts : length cs = 16%nat -> length ts = 17%nat -> ts !! 16%nat = Some TNil ->
    (forall i t, cs !! i = Some None -> ts !! i = Some t -> t = TNil) ->
    (forall i c t, cs !! i = Some (Some c) -> ts !! i = Some t -> t <> TNil) ->
    (forall i c t, cs !! i = Some (Some c) -> ts !! i = Some t -> reps W (p ++ [Z.of_nat i]) c t) ->
    reps W p (branchNode cs) (TFull ts)
| reps_hashed p t : nodeAt t [] -> written W p t -> reps W p (hashedNode (hashVal t)) t.

Lemma written_mono W W' p t : (forall w, w ∈ W -> w ∈ W') -> written W p t -> written W' p t.
Proof. intros HW Ht Hw q s Hs Hb. by apply HW, Ht. Qed.

Lemma reps_mono W W' p st t : (forall w, w ∈ W -> w ∈ W') -> reps W p st t -> reps W' p st t.
Proof.
  intros HW. induction 1 as [| | |p t Ht Hw]; [constructor|by constructor|by constructor|constructor; [done|by eapply written_mono] ].
Qed.

(** *** Encoding *)

Definition encodesTo (f : encBuffer -> outcome encBuffer) (bs : list Z) : Prop := forall w, length (sizebuf w) = 9%nat -> exists w', f w = Done w' /\ writes w w' bs.

Lemma encodeVal_spec t : good t -> encodesTo (encodeVal (hashVal t)) (embed sha t (tenc sha t)).
Proof.
  intros Hg w Hw. destruct (good_cases sha t Hg) as (-> & _). unfold encodeVal, hashVal. destruct (decide (length (tenc sha t) < 32)%nat) as [Hlt|Hge].
  - rewrite decide_True by done. eexists. split; [done|by apply writes_appendStr].
  - rewrite decide_False by (rewrite sha_len; lia). apply bufWriteBytes_spec; [done|]. rewrite sha_len. lia.
Qed.

Lemma encodeVals_spec vals ts : Forall2 (fun val t => match val with Some v => v = hashVal t /\ good t | None => t = TNil end) vals ts ->
  encodesTo (encodeVals vals) (concat ((fun t => embed sha t (tenc sha t)) <$> ts)).
Proof.
  induction 1 as [|val t vals ts Hv HF IH]; intros w Hw; [exists w; split; [done|by apply writes_nil]|]. rewrite fmap_cons. cbn [concat encodeVals].
  assert (H1 : exists w1, match val with Some v => encodeVal v w | None => bufWriteBytes w [] end = Done w1 /\ writes w w1 (embed sha t (tenc sha t))).
  { destruct val as [v|]; [destruct Hv as [-> Hg]; by apply encodeVal_spec|subst t; by apply (bufWriteBytes_spec w [])]. }
  destruct H1 as (w1 & H1 & Hw1). destruct (IH w1) as (w2 & H2 & Hw2); [by eapply writes_sizebuf|]. exists w2.
  split; [|by eapply writes_app]. destruct val; rewrite H1; exact H2.
Qed.

Lemma encodeBranch_spec vals ts : Forall2 (fun val t => match val with Some v => v = hashVal t /\ good t | None => t = TNil end) vals ts -> good (TFull (ts ++ [TNil])) ->
  encodesTo (encodeBranch vals) (tenc sha (TFull (ts ++ [TNil]))).
Proof.
  intros HF Hg w Hw. unfold encodeBranch. pose proof (listEnd_spec w) as HE. destruct (list_ w) as [w0 o] eqn:Hlw. cbn [fst snd] in HE.
  assert (Hw0 : length (sizebuf w0) = 9%nat) by (by injection Hlw as <- <-). destruct (encodeVals_spec vals ts HF w0 Hw0) as (w1 & -> & Hw1). cbn [mbind outcome_bind].
  rewrite (tenc_body sha _ Hg). pose proof (body_le sha sha_len _ Hg). apply HE; [|lia]. cbn [body]. rewrite fmap_app, concat_app. eapply writes_app; [done|]. cbn [fmap list_fmap concat embed tenc].
  rewrite app_nil_r. apply writes_appendStr. by eapply writes_sizebuf.
Qed.

Lemma encodeShort_spec key f bs : Z.of_nat (length (encStr key ++ bs)) < 2 ^ 63 -> encodesTo f bs -> encodesTo (encodeShort key f) (encList (encStr key ++ bs)).
Proof.
  intros Hl Hf w Hw. unfold encodeShort. pose proof (listEnd_spec w) as HE. destruct (list_ w) as [w0 o] eqn:Hlw. cbn [fst snd] in HE.
  assert (Hw0 : length (sizebuf w0) = 9%nat) by (by injection Hlw as <- <-). pose proof (length_encStr key) as Hk. pose proof Hl as Hl0. rewrite length_app in Hl0.
  destruct (bufWriteBytes_spec w0 key Hw0 ltac:(lia)) as (w1 & -> & Hw1). cbn [mbind outcome_bind].
  destruct (Hf w1) as (w2 & -> & Hw2); [by eapply writes_sizebuf|]. cbn [mbind outcome_bind]. apply HE; [by eapply writes_app|done].
Qed.

(** *** Hashing *)

(** The writes only grow. *)
Definition extends (s s' : stState) : Prop := forall w, w ∈ stWrites s -> w ∈ stWrites s'.

Lemma extends_trans s1 s2 s3 : extends s1 s2 -> extends s2 s3 -> extends s1 s3.
Proof. intros H1 H2 w Hw. by apply H2, H1. Qed.

Definition hashesSt (p : list Z) (t : tree) (s : stState) (o : outcome (stState * list Z)) : Prop :=
  exists s', o = Done (s', hashVal t) /\ ready (stBuf s') /\ extends s s' /\ written (stWrites s') p t.

Lemma finishHash_spec s0 s p f t : good t -> encodesTo f (tenc sha t) -> ready (stBuf s) -> extends s0 s ->
  (writer = true -> forall q u, subAt t q u -> q <> [] -> (32 <= length (tenc sha u))%nat -> (p ++ q, sha (tenc sha u), tenc sha u) ∈ stWrites s) ->
  hashesSt p t s0 (finishHash sha writer s p f).
Proof.
  intros Hg Hf Hr Hs0 Hw. destruct (Hf (stBuf s) (proj2 Hr)) as (w & Hfw & Hws). destruct (encodedBytes_spec (stBuf s) w _ Hr Hws) as [HB Hr'].
  unfold finishHash, hashesSt, hashVal. rewrite Hfw. cbn [mbind outcome_bind]. rewrite HB. cbn [mbind outcome_bind].
  assert (HW : forall W, (forall x, x ∈ stWrites s -> x ∈ W) -> (writer = true -> (32 <= length (tenc sha t))%nat -> (p, sha (tenc sha t), tenc sha t) ∈ W) -> written W p t).
  { intros W H1 H2 Hwr q u Hu Hb. destruct (decide (q = [])) as [->|Hq]; [|by apply H1, Hw]. apply subAt_root in Hu as ->; [|done|done]. rewrite app_nil_r. by apply H2. }
  destruct (decide (length (tenc sha t) < 32)%nat) as [Hlt|Hge].
  - eexists. split; [done|]. split; [done|]. split; [done|]. apply HW; [done|]. intros _ ?. lia.
  - cbn zeta. eexists. split; [done|]. split; [done|]. split.
    + intros x Hx. cbn [stWrites]. destruct writer; [|by apply Hs0]. apply elem_of_app. left. by apply Hs0.
    + cbn [stWrites]. apply HW; [intros x Hx; destruct writer; [apply elem_of_app; by left|done]|]. intros -> _. rewrite BytesToHash_sha by done. apply elem_of_app. right. by left.
Qed.

Lemma hashKids_spec hashf p : forall cs ts i s, length cs = length ts ->
  (forall j t, cs !! j = Some None -> ts !! j = Some t -> t = TNil) ->
  (forall j c t s', cs !! j = Some (Some c) -> ts !! j = Some t -> extends s s' -> ready (stBuf s') -> good t /\ hashesSt (p ++ [Z.of_nat (i + j)]) t s' (hashf s' c (p ++ [Z.of_nat (i + j)]))) ->
  ready (stBuf s) ->
  exists s' vals, hashKids hashf p s (Z.of_nat i) cs = Done (s', vals) /\ ready (stBuf s') /\ extends s s' /\
    Forall2 (fun val t => match val with Some v => v = hashVal t /\ good t | None => t = TNil end) vals ts /\
    forall j t, ts !! j = Some t -> written (stWrites s') (p ++ [Z.of_nat (i + j)]) t.
Proof.
  induction cs as [|c cs IH]; intros [|t ts] i s Hlen HN HS Hr; try done.
  - exists s, []. split; [done|]. split; [done|]. split; [by intros w Hw|]. by split.
  - assert (H1 : exists s1 val, (match c with Some c => '(s, val) ← hashf s c (p ++ [Z.of_nat i]); Done (s, Some val) | None => Done (s, None) end) = Done (s1, val) /\ ready (stBuf s1) /\ extends s s1 /\
      match val with Some v => v = hashVal t /\ good t | None => t = TNil end /\ written (stWrites s1) (p ++ [Z.of_nat i]) t).
    { destruct c as [c|].
      - destruct (HS 0%nat c t s) as [Hg (s1 & Hh & Hr1 & He & Hw)]; [done|done|by intros w Hw|done|]. rewrite Nat.add_0_r in *. rewrite Hh. cbn [mbind outcome_bind].
        exists s1, (Some (hashVal t)). done.
      - assert (t = TNil) as -> by (by apply (HN 0%nat)). exists s, None. split; [done|]. split; [done|]. split; [by intros w Hw|]. split; [done|]. intros _ q u []%subAt_nil. }
    destruct H1 as (s1 & val & H1 & Hr1 & He1 & Hv & Hw1).
    destruct (IH ts (S i) s1) as (s2 & vals & H2 & Hr2 & He2 & HF & Hw2); [by injection Hlen|intros j u Hj; by apply (HN (S j))| |done|].
    { intros j d u s' Hd Hu He. replace (S i + j)%nat with (i + S j)%nat by lia. apply HS; [done|done|by eapply extends_trans]. }
    exists s2, (val :: vals). replace (Z.of_nat (S i)) with (Z.of_nat i + 1) in H2 by lia. split.
    { cbn [hashKids]. destruct c as [c|]; [|injection H1 as <- <-; by rewrite H2].
      destruct (hashf s c (p ++ [Z.of_nat i])) as [[s1' v']| |]; [|done..]. cbn [mbind outcome_bind] in H1 |- *. injection H1 as <- <-. by rewrite H2. }
    split; [done|]. split; [by eapply extends_trans|]. split; [by constructor|]. intros [|j] u Hu.
    + injection Hu as <-. rewrite Nat.add_0_r. by eapply written_mono.
    + replace (i + S j)%nat with (S i + j)%nat by lia. by apply Hw2.
Qed.

Lemma inPlace_good term ns : Forall nibble ns -> withTerm term ns <> [] -> hexToCompactInPlace (withTerm term ns) = Done (compactOf (withTerm term ns)).
Proof. intros Hn Hne. rewrite hexToCompactInPlace_correct, decide_False by done. by destruct (hexToCompact_good term ns Hn) as [? _]. Qed.

Lemma hashSt_leaf p k v s : good (TShort (k ++ [16]) (TValue v)) -> ready (stBuf s) ->
  hashesSt p (TShort (k ++ [16]) (TValue v)) s (hashSt sha emptyRoot writer s (leafNode k v) p).
Proof.
  intros Hg Hr. destruct (good_below _ _ Hg) as (term & ns & Hk & Hn & _ & Hl & Hb). pose proof (body_le sha sha_len _ Hg) as HB. cbn [body embed tenc] in HB. cbn [hashSt].
  assert (HC : hexToCompactInPlace (k ++ [16]) = Done (compactOf (k ++ [16]))) by (rewrite Hk; apply inPlace_good; [done|rewrite <-Hk; by destruct k]).
  rewrite HC. cbn [mbind outcome_bind]. apply finishHash_spec; [done| |done|by intros w Hw|].
  - rewrite (tenc_body sha _ Hg). cbn [body embed tenc]. apply encodeShort_spec; [lia|]. intros w Hw. apply bufWriteBytes_spec; [done|].
    pose proof (length_encStr v). rewrite length_app in HB. lia.
  - intros _ q u [[-> _]|(q' & _ & []%subAt_value)]%subAt_short_inv; done.
Qed.

Lemma hashSt_ext p k ts c s : good (TShort k (TFull ts)) -> (forall s', extends s s' -> ready (stBuf s') -> good (TFull ts) -> hashesSt (p ++ k) (TFull ts) s' (hashSt sha emptyRoot writer s' c (p ++ k))) ->
  ready (stBuf s) -> hashesSt p (TShort k (TFull ts)) s (hashSt sha emptyRoot writer s (extNode k c) p).
Proof.
  intros Hg Hc Hr. inversion Hg as [|? ? Hk Hn Hl Hgt|]; subst. destruct (Hc s) as (s1 & H1 & Hr1 & He1 & Hw1); [by intros w Hw|done|done|].
  cbn [hashSt]. rewrite H1. cbn [mbind outcome_bind]. pose proof (inPlace_good false k Hn Hk) as HC. cbn [withTerm] in HC. rewrite HC. cbn [mbind outcome_bind]. pose proof (body_le sha sha_len _ Hg) as HB. cbn [body] in HB.
  apply finishHash_spec; [done| |done|done|].
  - rewrite (tenc_body sha _ Hg). cbn [body]. apply encodeShort_spec; [lia|]. by apply encodeVal_spec.
  - intros Hwr q u [[-> _]|(q' & -> & Hq)]%subAt_short_inv Hne Hb; [done|]. rewrite (assoc_L (++)). by apply Hw1.
Qed.

Lemma hashSt_branch p cs ts s : good (TFull ts) -> length cs = 16%nat -> ts !! 16%nat = Some TNil ->
  (forall i t, cs !! i = Some None -> ts !! i = Some t -> t = TNil) -> (forall i c t, cs !! i = Some (Some c) -> ts !! i = Some t -> t <> TNil) ->
  (forall i c t s', cs !! i = Some (Some c) -> ts !! i = Some t -> extends s s' -> good t -> ready (stBuf s') -> hashesSt (p ++ [Z.of_nat i]) t s' (hashSt sha emptyRoot writer s' c (p ++ [Z.of_nat i]))) ->
  ready (stBuf s) -> hashesSt p (TFull ts) s (hashSt sha emptyRoot writer s (branchNode cs) p).
Proof.
  intros Hg Hl H16 HN HS Hc Hr. inversion Hg as [| |? H17 Hgc _]; subst. destruct (full_split ts H17) as (pre & t16 & -> & Hpre & Ht16 & Hlk). rewrite H16 in Ht16. injection Ht16 as <-.
  destruct (hashKids_spec (hashSt sha emptyRoot writer) p cs pre 0 s) as (s1 & vals & Hk & Hr1 & He1 & HF & Hw1); [by rewrite Hl|intros j u Hj [_ Hu]%Hlk; by eapply HN| |done|].
  { intros j c u s' Hj [Hlt Hu]%Hlk He Hr'. assert (good u) by (eapply Hgc; [done|done|by eapply HS]). split; [done|]. by apply Hc. }
  cbn [hashSt]. change (Z.of_nat 0) with 0 in Hk. rewrite Hk. cbn [mbind outcome_bind]. apply finishHash_spec; [done|by apply encodeBranch_spec|done|done|].
  intros Hwr q u [[-> _]|(i & c & q' & -> & Hi & Hq)]%subAt_full_inv Hne Hb; [done|]. destruct (decide (i < 16)%nat) as [Hlt|Hge].
  - rewrite lookup_app_l in Hi by lia. specialize (Hw1 i c Hi Hwr q' u Hq Hb). by rewrite <-(assoc_L (++)) in Hw1.
  - pose proof (lookup_lt_Some _ _ _ Hi) as Hlt. rewrite H17 in Hlt. assert (i = 16%nat) as -> by lia. rewrite H16 in Hi. injection Hi as <-. by apply subAt_nil in Hq.
Qed.

(** What hashing keeps of a node is the value of its tree, and the nodes of the
    tree are written. *)
Lemma hashSt_spec W p st t : reps W p st t -> forall s, (forall w, w ∈ W -> w ∈ stWrites s) -> good t -> ready (stBuf s) ->
  hashesSt p t s (hashSt sha emptyRoot writer s st p).
Proof.
  induction 1 as [p k v|p k c t Hc IH|p cs ts Hl H17 H16 HN HS Hc IH|p t Ht Hw]; intros s HW Hg Hr.
  - by apply hashSt_leaf.
  - assert (exists ts, t = TFull ts) as [ts ->] by (inversion Hg; subst; [inversion Hc as [| | |? ? Hnv]; subst; by apply nodeAt_value in Hnv|by eexists]). apply hashSt_ext; [done| |done]. intros s' He Hr' Hg'. apply IH; [|done|done]. intros w ?%HW. by apply He.
  - apply hashSt_branch; [done..| |done]. intros i c t s' Hi Ht He Hg' Hr'. eapply IH; [done|done| |done|done]. intros w ?%HW. by apply He.
  - exists s. split; [done|]. split; [done|]. split; [by intros w ?|]. by eapply written_mono.
Qed.

(** *** Insertion *)

(** The nodes on the way of a key that comes later are not hashed. *)
Inductive openSt : stNode -> Prop :=
| open_leaf k v : openSt (leafNode k v)
| open_ext k c : openSt c -> openSt (extNode k c)
| open_branch cs : (forall i c, cs !! i = Some (Some c) -> (forall j d, (i < j)%nat -> cs !! j = Some d -> d = None) -> openSt c) -> openSt (branchNode cs).

(** The keys of the tree come before a key. *)
Definition allBefore (t : tree) (key : list Z) : Prop := forall a v, Forall nibble a -> tget t (a ++ [16]) = Some v -> before a key.

Definition insertsSt (p key v : list Z) (t : tree) (s : stState) (o : outcome (stState * stNode)) : Prop :=
  exists s' st' t', o = Done (s', st') /\ ready (stBuf s') /\ extends s s' /\ reps (stWrites s') p st' t' /\ inserted (key ++ [16]) v t t' /\ openSt st'.

Lemma before_app a b k : before (a ++ b) k ->
  (exists r, k = a ++ r /\ before b r) \/ (exists c x y r1 r2, a = c ++ x :: r1 /\ k = c ++ y :: r2 /\ x < y).
Proof.
  intros (c & x & y & r1 & r2 & Ha & -> & Hxy). apply app_eq_inv in Ha as [(l & -> & Hl)|(l & -> & ->)].
  - destruct l as [|z l].
    + left. rewrite app_nil_r. exists (y :: r2). split; [done|]. exists [], x, y, r1, r2. cbn [app] in *. by rewrite Hl.
    + right. injection Hl as -> _. by exists c, z, y, l, r2.
  - left. exists (l ++ y :: r2). split; [by rewrite (assoc_L (++))|]. by exists l, x, y, r1, r2.
Qed.

Lemma before_cons x a y k : before (x :: a) (y :: k) -> x < y \/ (x = y /\ before a k).
Proof.
  intros [(r & [= -> ->] & Hb)|(c & x' & y' & r1 & r2 & Hc & Hk & Hxy)]%(before_app [x] a); [by right|left].
  destruct c as [|z c]; [by injection Hc as -> _; injection Hk as -> _|]. injection Hc as _ Hc. by destruct c.
Qed.

Lemma getDiffIndex_diff c x y r1 r2 : x <> y -> getDiffIndex (c ++ x :: r1) (c ++ y :: r2) = Done (length c).
Proof. intros Hne. induction c as [|z c IH]; cbn [app getDiffIndex]; [by rewrite decide_True|]. rewrite decide_False by (by intros []). by rewrite IH. Qed.

Lemma getDiffIndex_all k r : getDiffIndex k (k ++ r) = Done (length k).
Proof. induction k as [|z k IH]; cbn [app getDiffIndex]; [done|]. rewrite decide_False by (by intros []). by rewrite IH. Qed.

Lemma twoChildren_spec x y c d : nibble x -> nibble y -> exists cs, twoChildren x y c d = Done cs /\ length cs = 16%nat /\
  forall i, (i < 16)%nat -> cs !! i = Some (if decide (i = Z.to_nat y) then Some d else if decide (i = Z.to_nat x) then Some c else None).
Proof.
  unfold nibble. intros Hx Hy. unfold twoChildren. rewrite store_Done by (rewrite length_replicate; lia). cbn [mbind outcome_bind].
  rewrite store_Done by (rewrite length_insert, length_replicate; lia). eexists. split; [done|]. split; [by rewrite !length_insert, length_replicate|]. intros i Hi.
  destruct (decide (i = Z.to_nat y)) as [->|Hiy]; [rewrite list_lookup_insert_eq by (rewrite length_insert, length_replicate; lia); done|]. rewrite list_lookup_insert_ne by done.
  destruct (decide (i = Z.to_nat x)) as [->|Hix]; [by rewrite list_lookup_insert_eq by (rewrite length_replicate; lia)|]. rewrite list_lookup_insert_ne by done.
  by apply lookup_replicate.
Qed.

(** A branch that takes the place of a leaf or an extension, and the common part
    of the keys above it. *)
Lemma reps_split W p c x y n d t1 t2 : nibble x -> nibble y -> x < y -> reps W (p ++ c ++ [x]) n t1 -> reps W (p ++ c ++ [y]) d t2 -> openSt d -> t1 <> TNil -> t2 <> TNil ->
  exists cs, twoChildren x y n d = Done cs /\
    let st := if decide (length c = 0%nat) then branchNode cs else extNode c (branchNode cs) in
    reps W p st (tgraft c (TFull (branchOf TNil x y t1 t2))) /\ openSt st.
Proof.
  unfold nibble. intros Hx Hy Hxy Hn Hd Ho H1 H2. destruct (twoChildren_spec x y n d Hx Hy) as (cs & -> & Hl & Hcs). exists cs. split; [done|].
  assert (HR : reps W (p ++ c) (branchNode cs) (TFull (branchOf TNil x y t1 t2))).
  { assert (HI : forall i e t, cs !! i = Some e -> branchOf TNil x y t1 t2 !! i = Some t -> match e with Some e => t <> TNil /\ reps W (p ++ c ++ [Z.of_nat i]) e t | None => t = TNil end).
    { intros i e t Hi Ht. pose proof (lookup_lt_Some _ _ _ Hi) as Hlt. rewrite Hl in Hlt. rewrite Hcs in Hi by done. rewrite branchOf_lookup in Ht by lia.
      destruct (decide (i = Z.to_nat y)) as [->|Hiy]; [injection Hi as <-; injection Ht as <-; split; [done|by rewrite Z2Nat.id by lia]|].
      destruct (decide (i = Z.to_nat x)) as [->|Hix]; [injection Hi as <-; injection Ht as <-; split; [done|by rewrite Z2Nat.id by lia]|]. injection Hi as <-. by injection Ht as <-. }
    constructor; [done|unfold branchOf; by rewrite !length_insert, length_replicate| |intros i t Hi Ht; exact (HI i None t Hi Ht)|intros i e t Hi Ht; by destruct (HI i (Some e) t Hi Ht)|].
    - rewrite branchOf_lookup by lia. rewrite !decide_False by lia. done.
    - intros i e t Hi Ht. rewrite <-(assoc_L (++)). by destruct (HI i (Some e) t Hi Ht). }
  assert (HO : openSt (branchNode cs)).
  { constructor. intros i e Hi Hlast. pose proof (lookup_lt_Some _ _ _ Hi) as Hlt. rewrite Hl in Hlt. rewrite Hcs in Hi by done.
    destruct (decide (i = Z.to_nat y)) as [->|Hiy]; [by injection Hi as <-|]. destruct (decide (i = Z.to_nat x)) as [->|Hix]; [|done].
    specialize (Hlast (Z.to_nat y) (Some d) ltac:(lia)). rewrite Hcs, decide_True in Hlast by lia. by specialize (Hlast eq_refl). }
  destruct c as [|z c]; cbn [length]; [rewrite app_nil_r in HR; by rewrite decide_True|]. rewrite decide_False by done. split; by constructor.
Qed.

Lemma good_nodeAt t : good t -> nodeAt t [].
Proof. destruct 1; constructor. Qed.

(** A node hashed on the way. *)
Lemma hashNodeSt_spec p st t s : reps (stWrites s) p st t -> good t -> ready (stBuf s) ->
  exists s', hashNodeSt sha emptyRoot writer s st p = Done (s', hashedNode (hashVal t)) /\ ready (stBuf s') /\ extends s s' /\ reps (stWrites s') p (hashedNode (hashVal t)) t.
Proof.
  intros HR Hg Hr. destruct (hashSt_spec _ p st t HR s ltac:(done) Hg Hr) as (s' & Hs & Hr' & He & Hw). exists s'. unfold hashNodeSt. rewrite Hs.
  split; [done|]. split; [done|]. split; [done|]. constructor; [by apply good_nodeAt|done].
Qed.

Lemma good_leaf_tail c x r v : good (TShort ((c ++ x :: r) ++ [16]) (TValue v)) -> nibble x /\ good (TShort (r ++ [16]) (TValue v)).
Proof.
  inversion 1 as [ns w Hn Hl Hv Hns| |]; subst. apply app_inj_tail in Hns as [-> _]. apply Forall_app in Hn as [_ [Hx Hr]%Forall_cons]. split; [done|].
  constructor; [done| |done]. rewrite length_app in Hl. cbn [length] in Hl. lia.
Qed.

Lemma good_ext_tail c x r ts : good (TShort (c ++ x :: r) (TFull ts)) -> nibble x /\ good (tgraft r (TFull ts)).
Proof.
  inversion 1 as [|? ? Hk Hn Hl Hg|]; subst. apply Forall_app in Hn as [_ [Hx Hr]%Forall_cons]. split; [done|]. destruct r as [|y r]; [done|].
  constructor; [done|done| |done]. rewrite length_app in Hl. cbn [length] in *. lia.
Qed.

Lemma take_snoc {A} (c : list A) x r : take (S (length c)) (c ++ x :: r) = c ++ [x].
Proof. rewrite cons_middle, (assoc_L (++)). apply take_app_length'. rewrite length_app. simpl. lia. Qed.

Lemma drop_snoc {A} (c : list A) x r : drop (S (length c)) (c ++ x :: r) = r.
Proof. rewrite cons_middle, (assoc_L (++)). apply drop_app_length'. rewrite length_app. simpl. lia. Qed.

Lemma index_mid {A} (c : list A) x r : index (c ++ x :: r) (Z.of_nat (length c)) = Done x.
Proof. apply index_nat. by rewrite list_lookup_middle. Qed.

Lemma insertSt_leaf s p lkey val key v : good (TShort (lkey ++ [16]) (TValue val)) -> before lkey key -> Forall nibble key -> v <> [] -> ready (stBuf s) ->
  insertsSt p key v (TShort (lkey ++ [16]) (TValue val)) s (insertSt sha emptyRoot writer s (leafNode lkey val) key v p).
Proof.
  intros Hg (c & x & y & r1 & r2 & -> & -> & Hxy) Hk Hv Hr. destruct (good_leaf_tail c x r1 val Hg) as [Hx Hg1]. apply Forall_app in Hk as HkC. destruct HkC as [_ [Hy _]%Forall_cons].
  cbn [insertSt]. rewrite getDiffIndex_diff by lia. cbn [mbind outcome_bind]. rewrite decide_False by (rewrite length_app; cbn [length]; lia).
  rewrite !index_mid, take_snoc, !drop_snoc. cbn [mbind outcome_bind].
  destruct (hashNodeSt_spec (p ++ c ++ [x]) (leafNode r1 val) _ s ltac:(constructor) Hg1 Hr) as (s1 & -> & Hr1 & He1 & HR1). cbn [mbind outcome_bind].
  destruct (reps_split (stWrites s1) p c x y (hashedNode (hashVal (TShort (r1 ++ [16]) (TValue val)))) (leafNode r2 v) _ (TShort (r2 ++ [16]) (TValue v)) Hx Hy Hxy HR1)
    as (cs & -> & HR & HO); [constructor|constructor|done|done|]. cbn [mbind outcome_bind]. rewrite take_app_length. eexists _, _, _.
  split; [done|]. split; [done|]. split; [done|]. split; [exact HR|]. split; [|exact HO].
  rewrite <-!(assoc_L (++)), <-!app_comm_cons. pose proof (inserted_branch c x y (r1 ++ [16]) (r2 ++ [16]) (TValue val) v) as HI.
  replace (tgraft (r1 ++ [16]) (TValue val)) with (TShort (r1 ++ [16]) (TValue val)) in HI by (by destruct r1). replace (tgraft (r2 ++ [16]) (TValue v)) with (TShort (r2 ++ [16]) (TValue v)) in HI by (by destruct r2).
  apply HI; [|by exists (c ++ y :: r2); rewrite <-(assoc_L (++))|lia|done].
  inversion Hg as [ns w Hn Hl Hv' Hns| |]; subst. rewrite <-(assoc_L (++)) in Hns. cbn [app] in Hns. rewrite <-Hns. constructor; [done|by destruct Hv'].
Qed.

Lemma before_drop k a r : before (k ++ a) (k ++ r) -> before a r.
Proof.
  intros [(r' & Hr & Hb)|(c & x & y & r1 & r2 & -> & Hk & Hxy)]%before_app; [by simplify_list_eq|]. rewrite <-(assoc_L (++)) in Hk. simplify_list_eq. lia.
Qed.

Lemma allBefore_short k t r : Forall nibble k -> allBefore (TShort k t) (k ++ r) -> allBefore t r.
Proof. intros Hk HB a v Ha Hv. apply (before_drop k), (HB _ v); [by apply Forall_app|]. rewrite <-(assoc_L (++)). by rewrite tget_short. Qed.

Lemma allBefore_full ts x t r : nibble x -> ts !! Z.to_nat x = Some t -> allBefore (TFull ts) (x :: r) -> allBefore t r.
Proof.
  intros Hx Ht HB a v Ha Hv. apply (before_drop [x]), (HB _ v); [by constructor|]. change ((([x] ++ a) ++ [16])) with (x :: (a ++ [16])). by rewrite tget_full, Ht.
Qed.

Lemma insertSt_ext s p ekey c ts key v : reps (stWrites s) (p ++ ekey) c (TFull ts) -> openSt c -> twf (TShort ekey (TFull ts)) -> good (TShort ekey (TFull ts)) ->
  allBefore (TShort ekey (TFull ts)) key -> Forall nibble key -> v <> [] -> ready (stBuf s) ->
  (forall r, allBefore (TFull ts) r -> Forall nibble r -> insertsSt (p ++ ekey) r v (TFull ts) s (insertSt sha emptyRoot writer s c r v (p ++ ekey))) ->
  insertsSt p key v (TShort ekey (TFull ts)) s (insertSt sha emptyRoot writer s (extNode ekey c) key v p).
Proof.
  intros HR HO Hw Hg HB Hk Hv Hr IH. inversion Hw as [|? ? Hne Hn Hwt|]; subst. destruct (twf_has _ Hwt) as (a & w & (ns & Hns & ->) & Hget & _).
  assert (Hb : before (ekey ++ ns) key) by (apply (HB _ w); [by apply Forall_app|]; rewrite <-(assoc_L (++)); by rewrite tget_short).
  cbn [insertSt]. apply before_app in Hb as [(r & -> & _)|(b & x & y & r1 & r2 & -> & -> & Hxy)].
  - rewrite getDiffIndex_all. cbn [mbind outcome_bind]. rewrite decide_True by done. rewrite take_app_length, drop_app_length. apply Forall_app in Hk as [_ Hkr].
    destruct (IH r) as (s1 & st1 & t1 & -> & Hr1 & He1 & HR1 & HI1 & HO1); [exact (allBefore_short ekey _ r Hn HB)|done|]. cbn [mbind outcome_bind]. eexists _, _, (TShort ekey t1).
    split; [done|]. split; [done|]. split; [done|]. split; [by constructor|]. split; [|by constructor]. rewrite <-(assoc_L (++)). apply inserted_short; [done| |done].
    apply hexKey_app; [done|by exists r].
  - destruct (good_ext_tail b x r1 ts Hg) as [Hx Hg1]. apply Forall_app in Hk as HkC. destruct HkC as [_ [Hy _]%Forall_cons].
    rewrite getDiffIndex_diff by lia. cbn [mbind outcome_bind]. rewrite decide_False by (rewrite length_app; cbn [length]; lia).
    assert (HN : exists s1, (if decide (length b < length (b ++ x :: r1) - 1)%nat then hashNodeSt sha emptyRoot writer s (extNode (drop (S (length b)) (b ++ x :: r1)) c) (p ++ take (S (length b)) (b ++ x :: r1))
        else hashNodeSt sha emptyRoot writer s c (p ++ b ++ x :: r1)) = Done (s1, hashedNode (hashVal (tgraft r1 (TFull ts)))) /\ ready (stBuf s1) /\ extends s s1 /\
        reps (stWrites s1) (p ++ b ++ [x]) (hashedNode (hashVal (tgraft r1 (TFull ts)))) (tgraft r1 (TFull ts))).
    { rewrite length_app, take_snoc, drop_snoc. cbn [length]. destruct r1 as [|z r1]; [rewrite decide_False by (simpl; lia)|rewrite decide_True by (simpl; lia)]; (apply hashNodeSt_spec; [|done|done]); [done|].
      constructor. rewrite <-!(assoc_L (++)). done. }
    destruct HN as (s1 & -> & Hr1 & He1 & HR1). cbn [mbind outcome_bind]. rewrite !index_mid, !drop_snoc, take_app_length. cbn [mbind outcome_bind].
    destruct (reps_split (stWrites s1) p b x y (hashedNode (hashVal (tgraft r1 (TFull ts)))) (leafNode r2 v) _ (TShort (r2 ++ [16]) (TValue v)) Hx Hy Hxy HR1)
      as (cs & -> & HRs & HOs); [constructor|constructor|by destruct r1|done|]. cbn [mbind outcome_bind]. eexists _, _, _. split; [done|]. split; [done|]. split; [done|]. split; [exact HRs|].
    split; [|exact HOs]. rewrite <-(assoc_L (++)), <-app_comm_cons. replace (TShort (r2 ++ [16]) (TValue v)) with (tgraft (r2 ++ [16]) (TValue v)) by (by destruct r2).
    apply inserted_branch; [done|by exists (b ++ y :: r2); rewrite <-(assoc_L (++))|lia|done].
Qed.

Lemma insertKid_lookup f leaf i : forall cs, insertKid f leaf i cs = match cs !! i with Some (Some c) => f c | Some None => leaf | None => Panic end.
Proof. induction i as [|i IH]; intros [|[c|] cs]; [done..| |]; apply IH. Qed.

(** A child of a branch is replaced. *)
Lemma reps_branch_set W p cs ts i c t : reps W p (branchNode cs) (TFull ts) -> (i < 16)%nat -> reps W (p ++ [Z.of_nat i]) c t -> t <> TNil ->
  reps W p (branchNode (<[i := Some c]> cs)) (TFull (<[i := t]> ts)).
Proof.
  intros HR Hi Hc Ht. inversion HR as [| |? ? ? Hl H17 H16 HN HS HC|]; subst. constructor; [by rewrite length_insert|by rewrite length_insert|by rewrite list_lookup_insert_ne by lia| | |];
    [intros j u|intros j d u..]; (destruct (decide (j = i)) as [->|Hne]; [rewrite !list_lookup_insert_eq by lia|rewrite !list_lookup_insert_ne by done; by eauto]).
  - done.
  - intros _ [= <-]. done.
  - intros [= <-] [= <-]. done.
Qed.

Lemma hashElder_spec p ts n : (n <= 16)%nat -> good (TFull ts) -> forall s cs, reps (stWrites s) p (branchNode cs) (TFull ts) -> ready (stBuf s) ->
  exists s' cs', hashElder sha emptyRoot writer s p n cs = Done (s', cs') /\ ready (stBuf s') /\ extends s s' /\ reps (stWrites s') p (branchNode cs') (TFull ts) /\
    forall i, (n <= i)%nat -> cs' !! i = cs !! i.
Proof.
  intros Hn Hg s cs HR Hr. induction n as [|n IH]; [exists s, cs; split; [done|]; split; [done|]; split; [by intros w ?|done]|].
  inversion HR as [| |? ? ? Hl H17 H16 HN HS HC|]; subst. destruct (lookup_lt_is_Some_2 cs n) as [c Hc]; [lia|]. destruct (lookup_lt_is_Some_2 ts n) as [t Ht]; [lia|].
  cbn [hashElder]. rewrite (index_nat cs n c Hc). cbn [mbind outcome_bind]. destruct c as [c|].
  - assert (HT : t <> TNil) by (by eapply HS). assert (Hgt : good t) by (inversion Hg as [| |? _ Hgc _]; subst; apply (Hgc n); [lia|done|done]).
    assert (HH : (exists val, c = hashedNode val) \/ hashElder sha emptyRoot writer s p (S n) cs = ('(s, child) ← hashNodeSt sha emptyRoot writer s c (p ++ [Z.of_nat n]); Done (s, <[n := Some child]> cs)))
      by (cbn [hashElder]; rewrite (index_nat cs n (Some c) Hc); destruct c; [by right..|left; by eexists]).
    cbn [hashElder] in HH. rewrite (index_nat cs n (Some c) Hc) in HH. cbn [mbind outcome_bind] in HH. destruct HH as [[val ->]| ->]; [exists s, cs; split; [done|]; split; [done|]; split; [by intros w ?|done]|].
    destruct (hashNodeSt_spec (p ++ [Z.of_nat n]) c t s) as (s1 & -> & Hr1 & He1 & HR1); [by eapply HC|done|done|]. cbn [mbind outcome_bind]. eexists _, _. split; [done|]. split; [done|]. split; [done|].
    split; [|intros i Hi; by rewrite list_lookup_insert_ne by lia]. rewrite <-(list_insert_id ts n t Ht). apply reps_branch_set; [by eapply reps_mono|lia|done|done].
  - destruct (IH ltac:(lia)) as (s1 & cs1 & -> & H1 & H2 & H3 & H4). exists s1, cs1. split_and!; [done..|]. intros i Hi. apply H4. lia.
Qed.

Lemma inserted_nil key v : hexKey key -> v <> [] -> inserted key v TNil (TShort key (TValue v)).
Proof.
  intros Hk Hv. split; [done|left; split; [done|]; intros _; destruct Hk as (ns & Hns & ->); by constructor|done|]. intros k _. rewrite tget_leaf. by case_decide.
Qed.

Lemma insertSt_branch s p cs ts x r v : reps (stWrites s) p (branchNode cs) (TFull ts) -> openSt (branchNode cs) -> twf (TFull ts) -> good (TFull ts) ->
  allBefore (TFull ts) (x :: r) -> Forall nibble (x :: r) -> v <> [] -> ready (stBuf s) ->
  (forall i c t s', cs !! i = Some (Some c) -> ts !! i = Some t -> extends s s' -> openSt c -> twf t -> good t -> allBefore t r -> ready (stBuf s') ->
     insertsSt (p ++ [Z.of_nat i]) r v t s' (insertSt sha emptyRoot writer s' c r v (p ++ [Z.of_nat i]))) ->
  insertsSt p (x :: r) v (TFull ts) s (insertSt sha emptyRoot writer s (branchNode cs) (x :: r) v p).
Proof.
  intros HR HO Hw Hg HB Hk Hv Hr IH. pose proof (Forall_cons_1 _ _ _ Hk) as [Hx Hrn]. inversion HR as [| |? ? ? Hl H17 H16 HN HS HC|]; subst. unfold nibble in Hx.
  inversion Hw as [| |? _ Hwc _ _]; subst. inversion Hg as [| |? _ Hgc _]; subst.
  assert (Hlast : forall j d, (Z.to_nat x < j)%nat -> cs !! j = Some d -> d = None).
  { intros j [c|] Hj Hc; [exfalso|done]. pose proof (lookup_lt_Some _ _ _ Hc) as Hlt. rewrite Hl in Hlt. destruct (lookup_lt_is_Some_2 ts j) as [t Ht]; [lia|].
    destruct (twf_has t) as (k & w & (ns & Hns & ->) & Hget & _); [apply (Hwc j); [lia|done|by eapply HS]|].
    assert (Hb : before (Z.of_nat j :: ns) (x :: r)) by (apply (HB _ w); [constructor; [unfold nibble; lia|done]|rewrite <-app_comm_cons, tget_full, Nat2Z.id; by rewrite Ht]).
    apply before_cons in Hb as [?|[? _]]; lia. }
  cbn [insertSt]. rewrite index_0. cbn [mbind outcome_bind]. destruct (hashElder_spec p ts (Z.to_nat x) ltac:(lia) Hg s cs HR Hr) as (s1 & cs1 & -> & Hr1 & He1 & HR1 & Hge).
  cbn [mbind outcome_bind]. rewrite insertKid_lookup. cbn [drop]. destruct (lookup_lt_is_Some_2 cs (Z.to_nat x)) as [c Hc]; [lia|]. destruct (lookup_lt_is_Some_2 ts (Z.to_nat x)) as [t Ht]; [lia|].
  assert (HK : insertsSt (p ++ [x]) r v t s1 (match c with Some c => insertSt sha emptyRoot writer s1 c r v (p ++ [x]) | None => Done (s1, leafNode r v) end)).
  { destruct c as [c|].
    - assert (HT : t <> TNil) by (by eapply HS). specialize (IH (Z.to_nat x) c t s1 Hc Ht He1). rewrite Z2Nat.id in IH by lia.
      inversion HO as [| |? HOc]; subst. apply IH; [by eapply HOc|apply (Hwc (Z.to_nat x)); [lia|done|done]|apply (Hgc (Z.to_nat x)); [lia|done|done]|exact (allBefore_full ts x t r Hx Ht HB)|done].
    - assert (t = TNil) as -> by (by eapply HN). exists s1, (leafNode r v), (TShort (r ++ [16]) (TValue v)). split; [done|]. split; [done|]. split; [by intros w ?|]. split; [constructor|].
      split; [apply inserted_nil; [by exists r|done]|constructor]. }
  rewrite Hc. change (drop 0 r) with r. replace (match c with Some c0 => _ | None => _ end) with (match c with Some c => insertSt sha emptyRoot writer s1 c r v (p ++ [x]) | None => Done (s1, leafNode r v) end) by (by destruct c).
  destruct HK as (s2 & st2 & t2 & -> & Hr2 & He2 & HR2 & HI2 & HO2). cbn [mbind outcome_bind]. eexists _, _, (TFull (<[Z.to_nat x := t2]> ts)).
  split; [done|]. split; [done|]. split; [by eapply extends_trans|]. split.
  { apply reps_branch_set; [by eapply reps_mono|lia|by rewrite Z2Nat.id by lia|by eapply ins_some]. }
  split; [rewrite <-app_comm_cons; eapply (inserted_full (fun _ _ => None)); [done|by exists (x :: r)|done|done]|]. constructor. intros i d Hd Hnone.
  inversion HR1 as [| |? ? ? Hl1 _ _ _ _ _|]; subst. destruct (decide (i = Z.to_nat x)) as [->|Hne]; [rewrite list_lookup_insert_eq in Hd by lia; by injection Hd as <-|exfalso].
  rewrite list_lookup_insert_ne in Hd by done. destruct (decide (i < Z.to_nat x)%nat) as [Hlt|Hgt].
  - specialize (Hnone (Z.to_nat x) (Some st2) Hlt). rewrite list_lookup_insert_eq in Hnone by lia. by specialize (Hnone eq_refl).
  - rewrite Hge in Hd by lia. by specialize (Hlast i (Some d) ltac:(lia) Hd).
Qed.

(** A key that comes after all of a tree is put into it. *)
Lemma insertSt_spec W p st t : reps W p st t -> forall s key v, (forall w, w ∈ W -> w ∈ stWrites s) -> openSt st -> twf t -> good t -> allBefore t key -> Forall nibble key -> v <> [] ->
  ready (stBuf s) -> insertsSt p key v t s (insertSt sha emptyRoot writer s st key v p).
Proof.
  induction 1 as [p k w|p k c t Hc IH|p cs ts Hl H17 H16 HN HS Hc IH|p t Ht Hw]; intros s key v HW HO Hwf Hg HB Hk Hv Hr.
  - apply insertSt_leaf; [done| |done|done|done]. apply (HB k w); [|by rewrite tget_leaf, decide_True].
    inversion Hg as [ns ? Hn Hl ? Hns| |]; subst. by apply app_inj_tail in Hns as [-> _].
  - inversion HO as [|? ? HOc|]; subst. assert (exists ts, t = TFull ts) as [ts ->] by (inversion Hg; subst; [inversion Hc as [| | |? ? Hnv]; subst; by apply nodeAt_value in Hnv|by eexists]).
    apply insertSt_ext; [by eapply reps_mono|done|done|done|done|done|done|done|]. intros r HBr Hr'. inversion Hwf; subst. inversion Hg; subst. by apply IH.
  - destruct key as [|x r].
    { exfalso. destruct (twf_has _ Hwf) as (k & w & (ns & Hns & ->) & Hget & _). destruct (HB ns w Hns Hget) as (c & ? & ? & ? & ? & _ & Hn & _). by destruct c. }
    apply insertSt_branch; [|done|done|done|done|done|done|done|].
    + eapply reps_mono; [done|]. by constructor.
    + intros i c t s' Hi Ht He HO' Hwt Hgt HB' Hr'. eapply IH; [done|done| |done|done|done|done|by apply Forall_cons in Hk as [_ ?]|done|done]. intros w ?%HW. by apply He.
  - inversion HO.
Qed.
End Stands.

(** ** Tries built in order *)

Lemma before_trans a b c : before a b -> before b c -> before a c.
Proof.
  revert b c. induction a as [|x a IH]; intros [|y b] [|z c] H1 H2; try (destruct H1 as (d & ? & ? & ? & ? & Ha & Hb & _); by destruct d); try (destruct H2 as (d & ? & ? & ? & ? & Ha & Hb & _); by destruct d).
  assert (HC : forall x z a c, x < z -> before (x :: a) (z :: c)) by (intros x' z' a' c' ?; by exists [], x', z', a', c').
  apply before_cons in H1 as [?|[-> H1]], H2 as [?|[-> H2]]; [apply HC; lia|by apply HC|by apply HC|].
  destruct (IH _ _ H1 H2) as (d & x & w & r1 & r2 & -> & -> & ?). by exists (z :: d), x, w, r1, r2.
Qed.

(** Keys in order have their nibbles in order. *)
Lemma before_nibbles a b : before a b -> before (concat (splitByte <$> a)) (concat (splitByte <$> b)).
Proof.
  intros (c & x & y & r1 & r2 & -> & -> & Hxy). rewrite !fmap_app, !concat_app, !fmap_cons. cbn [concat splitByte app].
  destruct (decide (x `div` 16 < y `div` 16)) as [Hlt|Hge]; [by eexists _, _, _, _, _|]. assert (x `div` 16 = y `div` 16) as He by (pose proof (Z.div_le_mono x y 16); lia).
  exists (concat (splitByte <$> c) ++ [x `div` 16]), (x `mod` 16), (y `mod` 16), (concat (splitByte <$> r1)), (concat (splitByte <$> r2)).
  rewrite <-!(assoc_L (++)). split; [done|]. split; [by rewrite He|]. pose proof (Z.div_mod x 16). pose proof (Z.div_mod y 16). lia.
Qed.

Section Ordered.
Context {K : Keccak} {KL : KeccakLaws K}.

(** The stack trie holds a map: later keys may be put into it. *)
Definition stHolds (t : StackTrie) (m : bytemap) : Prop := exists u, contents u m /\ ready (stBuf (stIO t)) /\
  ((stRoot t = emptyNode /\ u = TNil) \/ (reps sha (stWriter t) (stWrites (stIO t)) [] (stRoot t) u /\ openSt (stRoot t) /\ u <> TNil)).

Lemma stHolds_empty t : stRoot t = emptyNode -> ready (stBuf (stIO t)) -> stHolds t ∅.
Proof. intros Hn Hh. exists TNil. split; [apply contents_empty|]. split; [done|by left]. Qed.

Definition keyOk (key : list Z) : Prop := bytes_ok key /\ 2 * Z.of_nat (length key) + 1 < limit.

Lemma keybytesToHex_init key : take (length (keybytesToHex key) - 1) (keybytesToHex key) = concat (splitByte <$> key).
Proof. unfold keybytesToHex. fold splitByte. rewrite length_app. apply take_app_length'. simpl. lia. Qed.

Lemma allBefore_contents u m key : contents u m -> (forall k, is_Some (m !! k) -> before k key) -> allBefore u (concat (splitByte <$> key)).
Proof.
  intros [_ Hg Ho _] Hk a v Ha Hv. destruct (Ho (a ++ [16]) v) as (k & Hb & He); [by exists a|done|]. pose proof Hv as Hv'. rewrite He in Hv'. rewrite Hg in Hv' by done.
  unfold keybytesToHex in He. fold splitByte in He. apply app_inj_tail in He as [-> _]. apply before_nibbles, Hk. by exists v.
Qed.

Lemma stUpdate_spec t m key v : stHolds t m -> goodMap m -> (forall k, is_Some (m !! k) -> before k key) -> bytes_ok key -> v <> [] ->
  exists t', stUpdate sha emptyRoot t key v = Done t' /\ stHolds t' (<[key := v]> m) /\ stWriter t' = stWriter t.
Proof.
  intros (u & Hu & Hr & Hst) Hm Hk Hb Hv. unfold stUpdate. cbn zeta. rewrite decide_False by (by destruct v). rewrite keybytesToHex_init.
  pose proof (splitBytes_nibbles key Hb) as Hn. assert (HI : insertsSt sha (stWriter t) [] (concat (splitByte <$> key)) v u (stIO t)
    (insertSt sha emptyRoot (stWriter t) (stIO t) (stRoot t) (concat (splitByte <$> key)) v [])).
  { destruct Hst as [[-> ->]|(HR & HO & Hne)].
    - eexists _, _, _. split; [done|]. split; [done|]. split; [by intros w ?|]. split; [constructor|]. split; [|constructor]. apply inserted_nil; [by eexists|done].
    - eapply (insertSt_spec sha sha_len); [done|done|done|by apply Hu|by eapply contents_good|by eapply allBefore_contents|done|done|done]. }
  destruct HI as (s' & st' & u' & -> & Hr' & He & HR' & HI & HO'). cbn [mbind outcome_bind]. eexists. split; [done|]. split; [|done]. exists u'. split; [by eapply contents_inserted|].
  split; [done|]. right. split; [done|]. split; [done|by eapply ins_some].
Qed.

Definition stUpdates (t : StackTrie) (kvs : list (list Z * list Z)) : outcome StackTrie := fold_outcome (fun t kv => stUpdate sha emptyRoot t kv.1 kv.2) kvs t.

Definition kvMap (m : bytemap) (kvs : list (list Z * list Z)) : bytemap := foldl (fun m kv => <[kv.1 := kv.2]> m) m kvs.

Definition kvOk (kv : list Z * list Z) : Prop := keyOk kv.1 /\ goodValue kv.2.

Lemma stUpdates_spec kvs : forall t m, stHolds t m -> goodMap m -> Forall (fun kv => forall k, is_Some (m !! k) -> before k kv.1) kvs -> StronglySorted before kvs.*1 -> Forall kvOk kvs ->
  exists t', stUpdates t kvs = Done t' /\ stHolds t' (kvMap m kvs) /\ goodMap (kvMap m kvs) /\ stWriter t' = stWriter t.
Proof.
  induction kvs as [|[key v] kvs IH]; intros t m HH Hm HB HS Hok; [by exists t|]. apply Forall_cons in HB as [HB1 HB2], Hok as [[[Hb Hl] Hv] Hok].
  rewrite fmap_cons in HS. apply StronglySorted_inv in HS as [HS HS1]. cbn [fst snd] in *.
  destruct (stUpdate_spec t m key v HH Hm HB1 Hb (proj1 Hv)) as (t1 & H1 & HH1 & Hw1). unfold stUpdates. cbn [fold_outcome fst snd]. rewrite H1. rewrite <-Hw1. apply IH; [done| | |done|done].
  - by apply map_Forall_insert_2.
  - apply Forall_forall. intros kv Hkv k [w Hk]. apply lookup_insert_Some in Hk as [[<- _]|[_ Hk]].
    + rewrite Forall_forall in HS1. apply HS1. by apply list_elem_of_fmap_2.
    + rewrite Forall_forall in HB2. apply (HB2 kv Hkv). by exists w.
Qed.

Lemma stUpdates_empty t kvs : stRoot t = emptyNode -> ready (stBuf (stIO t)) -> Sorted before kvs.*1 -> Forall kvOk kvs ->
  exists t', stUpdates t kvs = Done t' /\ stHolds t' (kvMap ∅ kvs) /\ goodMap (kvMap ∅ kvs) /\ stWriter t' = stWriter t.
Proof.
  intros Hn Hh HS Hok. apply stUpdates_spec; [by apply stHolds_empty|apply map_Forall_empty| |apply Sorted_StronglySorted; [intros a b c; apply before_trans|done]|done].
  apply Forall_forall. intros kv _ k [v Hk]. by rewrite lookup_empty in Hk.
Qed.

(** Hashing the whole trie. *)
Lemma hash_root t m : stHolds t m -> goodMap m -> exists s' val u, hashSt sha emptyRoot (stWriter t) (stIO t) (stRoot t) [] = Done (s', val) /\ contents u m /\ ready (stBuf s') /\
  (if decide (length val = 32%nat) then val else sha val) = rootHash sha emptyRoot u /\
  (u <> TNil -> good u /\ val = hashVal sha u /\ written sha (stWriter t) (stWrites s') [] u).
Proof.
  intros (u & Hu & Hr & [[-> ->]|(HR & HO & Hne)]) Hm.
  - exists (stIO t), emptyRoot, TNil. split; [done|]. split; [done|]. split; [done|]. split; [|done]. by rewrite decide_True by apply emptyRoot_len.
  - pose proof (contents_good u m Hu Hm Hne) as Hg. destruct (hashSt_spec sha sha_len emptyRoot (stWriter t) _ [] _ u HR (stIO t) ltac:(done) Hg Hr) as (s' & Hs & Hr' & _ & Hw).
    exists s', (hashVal sha u), u. split; [done|]. split; [done|]. split; [done|]. split; [|done]. rewrite (rootHash_good u Hg). unfold hashVal.
    destruct (decide (length (tenc sha u) < 32)%nat) as [Hlt|Hge]; [by rewrite decide_False by lia|by rewrite decide_True by apply sha_len].
Qed.

Lemma stHash_spec t m : stHolds t m -> goodMap m -> exists t' u, stHash sha emptyRoot t = Done (t', rootHash sha emptyRoot u) /\ contents u m /\ ready (stBuf (stIO t')).
Proof.
  intros HH Hm. destruct (hash_root t m HH Hm) as (s' & val & u & Hs & Hu & Hr & Hroot & _). unfold stHash. rewrite Hs. cbn [mbind outcome_bind]. rewrite Hroot. eexists _, u. by split.
Qed.

(** A database that has the nodes written. *)
Definition answersWrites (Node : list Z -> Hash -> option (list Z)) (W : list (list Z * Hash * list Z)) : Prop := forall path h b, (path, h, b) ∈ W -> Node path h = Some b.

Lemma stCommit_spec t m : stHolds t m -> goodMap m -> stWriter t = true ->
  exists t' u, stCommit sha emptyRoot t = Done (t', Some (rootHash sha emptyRoot u)) /\ contents u m /\
    forall Node, answersWrites Node (stWrites (stIO t')) -> u <> TNil -> Kept sha Node [] u.
Proof.
  intros HH Hm Hw. destruct (hash_root t m HH Hm) as (s' & val & u & Hs & Hu & Hr & Hroot & HU). unfold stCommit. rewrite Hw in *. cbn [negb]. rewrite Hs. cbn [mbind outcome_bind]. cbn zeta.
  case_decide as H32; rewrite Hroot; eexists _, u; (split; [done|]; split; [done|]); intros Node HN Hne; destruct (HU Hne) as (Hg & Hval & HW); intros q s Hq Hb; apply HN.
  - apply (HW eq_refl); [done|]. destruct Hb as [->|?]; [|done]. apply subAt_root in Hq as ->; [|done|done]. rewrite Hval in H32. unfold hashVal in H32. case_decide; lia.
  - apply elem_of_app. destruct (decide (32 <= length (tenc sha s))%nat) as [Hge|Hlt]; [left; by apply (HW eq_refl)|right]. destruct Hb as [->|?]; [|done].
    apply subAt_root in Hq as ->; [|done|done]. rewrite (rootHash_good u Hg), Hval. unfold hashVal. rewrite decide_True by lia. by left.
Qed.

Definition kvOps (kvs : list (list Z * list Z)) : list trieOp := (fun kv => OpUpdate kv.1 kv.2) <$> kvs.

Lemma mapOps_kvs kvs : Forall kvOk kvs -> forall m, mapOps m (kvOps kvs) = kvMap m kvs.
Proof.
  unfold mapOps, kvMap. induction 1 as [|[key v] kvs [_ [Hv _]] _ IH]; intros m; [done|]. cbn [kvOps fmap list_fmap foldl mapOp fst snd] in *. unfold mapUpdate. rewrite decide_False by done. apply IH.
Qed.

Lemma opOk_kvs kvs : Forall kvOk kvs -> Forall opOk (kvOps kvs).
Proof. intros H. apply Forall_fmap. eapply Forall_impl; [done|]. intros [key v] [[Hb Hl] (_ & Hv & Hlv)]. done. Qed.

Lemma trie_updates Node owner pooled h kvs : ready pooled -> ready h -> Forall kvOk kvs ->
  exists r t' u, runOps Node (emptyTrie owner) (kvOps kvs) = Done r /\ Hash_ sha emptyRoot pooled h r.1 = Done (t', rootHash sha emptyRoot u) /\ contents u (kvMap ∅ kvs).
Proof.
  intros Hp Hh Hok. pose proof (opOk_kvs kvs Hok) as Ho. destruct (runOps_map Node (treeMarks Node) (kvOps kvs) (emptyTrie owner) ∅) as (t & Hr & (u & HS & Hu));
    [apply emptyTrie_holds|eapply Forall_impl; [done|]; by intros op [? _]|].
  pose proof (contents_good u _ Hu (goodMap_ops _ ∅ (map_Forall_empty _) Ho)) as Hg. destruct (Hash_spec pooled h Hp Hh Node t u HS Hg) as (t' & HH & _).
  eexists (t, _), t', u. split; [done|]. split; [done|]. by rewrite <-mapOps_kvs.
Qed.

Lemma kvMap_list kvs : kvMap ∅ kvs = list_to_map (reverse kvs).
Proof. unfold kvMap. induction kvs as [|[key v] kvs IH] using rev_ind; [done|]. rewrite foldl_snoc, reverse_snoc, IH. done. Qed.

Lemma sorted_keys kvs : Sorted before kvs -> NoDup kvs.
Proof.
  intros HS. apply Sorted_StronglySorted in HS; [|intros a b c; apply before_trans]. induction HS as [|k kvs HS IH HF]; constructor; [|done].
  intros Hk. rewrite Forall_forall in HF. destruct (HF k Hk) as (c & x & y & r1 & r2 & -> & He & Hxy). simplify_list_eq. lia.
Qed.

Lemma kvMap_perm kvs kvs' : NoDup kvs.*1 -> kvs' ≡ₚ kvs -> kvMap ∅ kvs' = kvMap ∅ kvs.
Proof. intros Hn HP. rewrite !kvMap_list. apply list_to_map_proper; [by rewrite fmap_reverse, reverse_Permutation, HP|]. by rewrite !reverse_Permutation. Qed.
End Ordered.

(** C19: a stack trie that takes keys in increasing order, none the beginning of the
    next, never panics, and its hash is the hash of a trie that takes the same
    updates in any order. *)
Theorem stack_trie_hash {K : Keccak} {KL : KeccakLaws K} (w : bool) (pooled h : encBuffer) Node owner (kvs kvs' : list (list Z * list Z)) :
  ready pooled -> ready h -> Sorted before kvs.*1 -> Forall kvOk kvs -> kvs' ≡ₚ kvs ->
  exists st st' r t' root, stUpdates (NewStackTrie w h) kvs = Done st /\ stHash sha emptyRoot st = Done (st', root) /\
    runOps Node (emptyTrie owner) (kvOps kvs') = Done r /\ Hash_ sha emptyRoot pooled h r.1 = Done (t', root).
Proof.
  intros Hp Hh HS Hok HP. destruct (stUpdates_empty (NewStackTrie w h) kvs eq_refl Hh HS Hok) as (st & Hst & HH & Hm & _). destruct (stHash_spec st _ HH Hm) as (st' & u & Hroot & Hu & _).
  destruct (trie_updates Node owner pooled h kvs') as (r & t' & u' & Hr & HHash & Hu'); [done|done|by rewrite HP|].
  rewrite (kvMap_perm kvs kvs') in Hu' by (done || by apply sorted_keys). rewrite (contents_unique u' u _ Hu' Hu) in HHash. by exists st, st', r, t', (rootHash sha emptyRoot u).
Qed.

(** C20: after [Commit] the nodes a stack trie has written, in any database that
    answers with them, keep the map of its updates under the hash [Commit] gives:
    a trie opened there holds the map. *)
Theorem stack_trie_commit {K : Keccak} {KL : KeccakLaws K} (h : encBuffer) owner (kvs : list (list Z * list Z)) : ready h -> Sorted before kvs.*1 -> Forall kvOk kvs ->
  exists st st' root, stUpdates (NewStackTrie true h) kvs = Done st /\ stCommit sha emptyRoot st = Done (st', Some root) /\
    (unluckyMap (kvMap ∅ kvs) \/ forall Node, answersWrites Node (stWrites (stIO st')) ->
       exists t, New Node emptyRoot owner root = Done (inr t) /\ holds Node (treeMarks Node) t (kvMap ∅ kvs)).
Proof.
  intros Hh HS Hok. destruct (stUpdates_empty (NewStackTrie true h) kvs eq_refl Hh HS Hok) as (st & Hst & HH & Hm & Hw). destruct (stCommit_spec st _ HH Hm Hw) as (st' & u & HC & Hu & HN).
  exists st, st', (rootHash sha emptyRoot u). split; [done|]. split; [done|]. destruct (safe_or_unlucky u) as [Hsafe|?]; [right|left; by exists u].
  intros Node HA. apply New_spec; [|done]. exists u. split; [done|]. split; [done|]. split; [|done]. intros Hne. by apply HN.
Qed.

(** ** Examples *)

Module SampleStack.
Import SampleKeccak.

(** Two keys below an extension, one of them with a value that is hashed, and a
    key beside them. *)
Definition kvs : list (list Z * list Z) := [([1; 2], [5]); ([1; 3], replicate 40 6); ([2], [7])].

Lemma kvs_sorted : Sorted before kvs.*1.
Proof. repeat (apply Sorted_cons || apply Sorted_nil || apply HdRel_nil || apply HdRel_cons); [by exists [], 1, 2, [3], []|by exists [1], 2, 3, [], []]. Qed.

Lemma kvs_ok : Forall kvOk kvs.
Proof. unfold kvs. simpl. repeat (apply List.Forall_cons || apply List.Forall_nil || split); simpl; unfold byte_ok, limit; (lia || done). Qed.
End SampleStack.

Import SampleKeccak SampleStack.

Lemma stack_trie_hash_witness : exists st st' r t' root, stUpdates (NewStackTrie false newEncBuffer) kvs = Done st /\ stHash sha emptyRoot st = Done (st', root) /\
  runOps (fun _ _ => None) (emptyTrie zeroHash) (kvOps (reverse kvs)) = Done r /\ Hash_ sha emptyRoot newEncBuffer newEncBuffer r.1 = Done (t', root).
Proof. apply (stack_trie_hash false newEncBuffer newEncBuffer (fun _ _ => None) zeroHash kvs (reverse kvs) ready_new ready_new kvs_sorted kvs_ok). apply reverse_Permutation. Defined.

Lemma stack_trie_commit_witness : exists st st' root, stUpdates (NewStackTrie true newEncBuffer) kvs = Done st /\ stCommit sha emptyRoot st = Done (st', Some root) /\
  (unluckyMap (kvMap ∅ kvs) \/ forall Node, answersWrites Node (stWrites (stIO st')) ->
     exists t, New Node emptyRoot zeroHash root = Done (inr t) /\ holds Node (treeMarks Node) t (kvMap ∅ kvs)).
Proof. exact (stack_trie_commit newEncBuffer zeroHash kvs ready_new kvs_sorted kvs_ok). Defined.
