(* ===== verification/DeriveList.v ===== *)
(** * The hash of a list

    [core/types/hashing.go]: [DeriveSha] puts the items of a list into a trie
    under their encoded indices, in the order a stack trie needs, and takes the
    hash.  The trie is the interface [TrieHasher], which the stack trie and the
    ordinary trie implement. *)

From Stdlib Require Import Sorting.Sorted.
From S2P Require Import Prelude Bytes RlpRaw RlpEncode TrieKeys Trie TrieSpec TrieMap TrieHash TrieNode TrieCommit TrieDB StackTrie.

Local Open Scope Z_scope.

(** ** Tries that hash a list *)

Class TrieHasher (T : Type) := {
  thReset : T -> T;
  thUpdate : T -> list Z -> list Z -> outcome (T * option trieErr);
  thHash : T -> outcome (T * Hash)
}.

(** An update, whose error is left out. *)
Definition updateOmit {T} {TH : TrieHasher T} (t : T) (kv : list Z * list Z) : outcome T := '(t, _) ← thUpdate t kv.1 kv.2; Done t.

(** After [Reset] and updates in increasing order of keys the hash is that of the
    map of the updates. *)
Class TrieHasherLaws {K : Keccak} (T : Type) (TH : TrieHasher T) := {
  thReady : T -> Prop;
  thRun t kvs : thReady t -> Sorted before kvs.*1 -> Forall kvOk kvs ->
    exists t1 t2 u, fold_outcome updateOmit kvs (thReset t) = Done t1 /\ thHash t1 = Done (t2, rootHash sha emptyRoot u) /\ contents u (kvMap ∅ kvs) /\ thReady t2
}.

Section Hashers.
Context {K : Keccak} {KL : KeccakLaws K}.

#[export] Instance StackTrie_TrieHasher : TrieHasher StackTrie :=
  {| thReset := stReset; thUpdate t key value := (t ← stUpdate sha emptyRoot t key value; Done (t, None)); thHash := stHash sha emptyRoot |}.

Lemma updateOmit_stack kvs : forall t, fold_outcome updateOmit kvs t = stUpdates t kvs.
Proof.
  induction kvs as [|[key v] kvs IH]; intros t; [done|]. unfold stUpdates in *. cbn [fold_outcome]. unfold updateOmit at 1. cbn [thUpdate StackTrie_TrieHasher fst snd].
  destruct (stUpdate sha emptyRoot t key v) as [t'| |]; [|done..]. cbn [mbind outcome_bind]. apply IH.
Qed.

#[export] Instance StackTrie_laws : TrieHasherLaws StackTrie StackTrie_TrieHasher.
Proof.
  refine {| thReady t := ready (stBuf (stIO t)) |}. intros t kvs Hr HS Hok. destruct (stUpdates_empty (stReset t) kvs eq_refl Hr HS Hok) as (t1 & H1 & HH & Hm & _).
  destruct (stHash_spec t1 _ HH Hm) as (t2 & u & H2 & Hu & Hr2). exists t1, t2, u. by rewrite updateOmit_stack.
Defined.

(** The ordinary trie over a database, with its buffers. *)
Section Ordinary.
Context (Node : list Z -> Hash -> option (list Z)) (pooled h : encBuffer).

Definition Trie_TrieHasher : TrieHasher Trie := {| thReset := resetTrie; thUpdate := Update Node; thHash := Hash_ sha emptyRoot pooled h |}.

Lemma updateOmit_trie kvs : forall t m, holds Node (treeMarks Node) t m -> Forall kvOk kvs ->
  exists t', fold_outcome (updateOmit (TH := Trie_TrieHasher)) kvs t = Done t' /\ holds Node (treeMarks Node) t' (kvMap m kvs).
Proof.
  induction kvs as [|[key v] kvs IH]; intros t m HH Hok; [by exists t|]. apply Forall_cons in Hok as [[[Hb Hl] [Hv _]] Hok]. cbn [fst snd] in *.
  destruct (Update_map Node (treeMarks Node) t m key v HH Hb) as (t1 & H1 & HH1). unfold mapUpdate in HH1. rewrite decide_False in HH1 by done.
  cbn [fold_outcome]. unfold updateOmit at 1. cbn [thUpdate Trie_TrieHasher fst snd]. rewrite H1. cbn [mbind outcome_bind]. by apply IH.
Qed.

Lemma goodMap_kvs kvs : Forall kvOk kvs -> goodMap (kvMap ∅ kvs).
Proof. intros Hok. rewrite <-mapOps_kvs by done. apply goodMap_ops; [apply map_Forall_empty|by apply opOk_kvs]. Qed.

Lemma Trie_laws : ready pooled -> ready h -> TrieHasherLaws Trie Trie_TrieHasher.
Proof.
  intros Hp Hh. refine {| thReady _ := True |}. intros t kvs _ _ Hok. destruct (updateOmit_trie kvs (emptyTrie zeroHash) ∅) as (t1 & H1 & (u & HS & Hu)); [apply emptyTrie_holds|done|].
  destruct (Hash_spec pooled h Hp Hh Node t1 u HS) as (t2 & H2 & _); [intros Hn; eapply contents_good; [done|by apply goodMap_kvs|done]|]. by exists t1, t2, u.
Defined.
End Ordinary.
End Hashers.

(** ** DeriveSha *)

(** [EncodeIndex] gives the bytes it writes. *)
Record DerivableList := mkDerivable { Len : nat; EncodeIndex : nat -> list Z }.

Section Derive.
Context {T : Type} {TH : TrieHasher T}.

Definition deriveStep (items : DerivableList) (hasher : T) (i : nat) : outcome T :=
  updateOmit hasher (AppendUint64 [] (Z.of_nat i), EncodeIndex items i).

Definition DeriveSha (items : DerivableList) (hasher : T) : outcome (T * Hash) :=
  let hasher := thReset hasher in
  hasher ← fold_outcome (deriveStep items) (seq 1 (Nat.min (Len items) 0x80 - 1)) hasher;
  hasher ← (if decide (0 < Len items)%nat then deriveStep items hasher 0 else Done hasher);
  hasher ← fold_outcome (deriveStep items) (seq 0x80 (Len items - 0x80)) hasher;
  thHash hasher.
End Derive.

(** ** The order of the indices *)

Definition indexKey (i : nat) : list Z := AppendUint64 [] (Z.of_nat i).

Definition deriveOrder (n : nat) : list nat := seq 1 (Nat.min n 0x80 - 1) ++ (if decide (0 < n)%nat then [0%nat] else []) ++ seq 0x80 (n - 0x80).

Lemma be_before a : forall b, length a = length b -> bytes_ok a -> bytes_ok b -> be_to_Z a < be_to_Z b -> before a b.
Proof.
  induction a as [|x a IH]; intros [|y b] Hl Ha Hb Hlt; try done. apply Forall_cons in Ha as [Hx Ha], Hb as [Hy Hb]. injection Hl as Hl.
  rewrite !be_to_Z_cons, Hl in Hlt. pose proof (be_to_Z_bound a Ha) as Ba. pose proof (be_to_Z_bound b Hb) as Bb. rewrite Hl in Ba.
  destruct (decide (x < y)) as [?|Hge]; [by exists [], x, y, a, b|]. assert (x = y) as -> by nia.
  destruct (IH b Hl Ha Hb ltac:(lia)) as (c & x & z & r1 & r2 & -> & -> & ?). by exists (y :: c), x, z, r1, r2.
Qed.

Lemma indexKey_cases i : Z.of_nat i < 2 ^ 63 ->
  (i = 0%nat /\ indexKey i = [0x80]) \/ ((0 < i < 0x80)%nat /\ indexKey i = [Z.of_nat i]) \/
  ((0x80 <= i)%nat /\ indexKey i = 0x80 + Z.of_nat (nbytes (Z.of_nat i)) :: bigBytes (Z.of_nat i) /\ (0 < nbytes (Z.of_nat i) <= 8)%nat).
Proof.
  intros Hi. assert (Hu : in_u64 (Z.of_nat i)) by (unfold in_u64; lia). unfold indexKey. rewrite (AppendUint64_spec [] _ Hu). cbn [app].
  destruct (decide (i = 0%nat)) as [->|Hn]; [by left|]. destruct (decide (i < 0x80)%nat) as [Hlt|Hge].
  - right; left. split; [lia|]. rewrite bigBytes_small by lia. cbn [encStr]. by rewrite decide_True by lia.
  - right; right. pose proof (nbytes_pos (Z.of_nat i) ltac:(lia)) as Hp. pose proof (nbytes_u64 _ Hu) as H8. split; [lia|]. split; [|lia]. pose proof (length_bigBytes (Z.of_nat i)) as Hl.
    destruct (bigBytes (Z.of_nat i)) as [|x [|y l]] eqn:Hb; [simpl in Hl; lia| |].
    + assert (x = Z.of_nat i) as -> by (pose proof (be_to_Z_bigBytes (Z.of_nat i) ltac:(lia)) as HB; rewrite Hb in HB; unfold be_to_Z in HB; simpl in HB; lia).
      cbn [encStr]. rewrite decide_False by lia. by rewrite <-Hl.
    + cbn [encStr]. unfold header. rewrite Hl, decide_True by lia. done.
Qed.

(** The order in which the indices are taken. *)
Definition comes (i j : nat) : Prop := ((0 < i < j)%nat \/ (0 < i < 0x80)%nat /\ j = 0%nat \/ i = 0%nat /\ (0x80 <= j)%nat).

Lemma comes_before i j : comes i j -> Z.of_nat i < 2 ^ 63 -> Z.of_nat j < 2 ^ 63 -> before (indexKey i) (indexKey j).
Proof.
  assert (HH : forall x y r1 r2, x < y -> before (x :: r1) (y :: r2)) by (intros x y r1 r2 ?; by exists [], x, y, r1, r2).
  intros Hc Hi Hj. destruct (indexKey_cases i Hi) as [[Hi0 ->]|[[Hi0 ->]|(Hi0 & -> & Hni)]], (indexKey_cases j Hj) as [[Hj0 ->]|[[Hj0 ->]|(Hj0 & -> & Hnj)]]; unfold comes in Hc;
    try (exfalso; lia); try (apply HH; lia).
  destruct (decide (nbytes (Z.of_nat i) = nbytes (Z.of_nat j))) as [He|Hne].
  - rewrite He. destruct (be_before (bigBytes (Z.of_nat i)) (bigBytes (Z.of_nat j))) as (c & x & y & r1 & r2 & -> & -> & ?);
      [by rewrite !length_bigBytes|apply bigBytes_ok|apply bigBytes_ok|rewrite !be_to_Z_bigBytes by lia; lia|]. by eexists (_ :: c), x, y, r1, r2.
  - apply HH. assert (nbytes (Z.of_nat i) <= nbytes (Z.of_nat j))%nat; [|lia]. apply nbytes_le. pose proof (nbytes_bound (Z.of_nat j)). lia.
Qed.

Lemma comes_order n : StronglySorted comes (deriveOrder n).
Proof.
  assert (HS : forall l a, (0 < a)%nat -> StronglySorted comes (seq a l)).
  { induction l as [|l IH]; intros a Ha; constructor; [apply IH; lia|]. apply Forall_forall. intros x Hx%elem_of_seq. left. lia. }
  assert (HA : forall l1 l2, StronglySorted comes l1 -> StronglySorted comes l2 -> (forall i j, i ∈ l1 -> j ∈ l2 -> comes i j) -> StronglySorted comes (l1 ++ l2)).
  { induction 1 as [|a l1 H1 IH HF]; intros H2 H12; [done|]. cbn [app]. constructor; [apply IH; [done|]; intros i j Hi; apply H12; by right|].
    apply Forall_app. split; [done|]. apply Forall_forall. intros j Hj. apply H12; [by left|done]. }
  unfold deriveOrder. apply HA; [apply HS; lia|apply HA; [case_decide; repeat constructor|apply HS; lia|]|].
  - intros i j Hi Hj%elem_of_seq. case_decide; [|by apply elem_of_nil in Hi]. apply list_elem_of_singleton in Hi as ->. right; right. lia.
  - intros i j Hi%elem_of_seq [Hj|Hj%elem_of_seq]%elem_of_app; [|left; lia]. case_decide; [|by apply elem_of_nil in Hj]. apply list_elem_of_singleton in Hj as ->. right; left. lia.
Qed.

Lemma deriveOrder_perm n : deriveOrder n ≡ₚ seq 0 n.
Proof.
  unfold deriveOrder. destruct n as [|n]; [done|]. rewrite decide_True by lia. rewrite (assoc_L (++)), (comm (++) (seq 1 _) [0%nat]).
  replace (seq 0 (S n)) with (seq 0 (Nat.min (S n) 128 + (S n - 128))) by (f_equal; lia). rewrite seq_app. apply Permutation_app; [|].
  - replace (Nat.min (S n) 128) with (S (Nat.min (S n) 128 - 1)) at 2 by lia. done.
  - destruct (decide (S n <= 128)%nat); [by replace (S n - 128)%nat with 0%nat by lia|]. by replace (0 + Nat.min (S n) 128)%nat with 128%nat by lia.
Qed.

(** ** What the hash stands for *)

Definition deriveKvs (items : DerivableList) (l : list nat) : list (list Z * list Z) := (fun i => (indexKey i, EncodeIndex items i)) <$> l.

Definition itemsOk (items : DerivableList) : Prop := Z.of_nat (Len items) < 2 ^ 63 /\ forall i, (i < Len items)%nat -> goodValue (EncodeIndex items i).

Lemma indexKey_ok i : Z.of_nat i < 2 ^ 63 -> keyOk (indexKey i).
Proof.
  intros Hi. unfold keyOk, limit. destruct (indexKey_cases i Hi) as [[_ ->]|[[? ->]|(_ & -> & Hn)]].
  - split; [|simpl; lia]. constructor; [unfold byte_ok; lia|done].
  - split; [|simpl; lia]. constructor; [unfold byte_ok; lia|done].
  - cbn [length]. rewrite length_bigBytes. split; [|lia]. constructor; [unfold byte_ok; lia|apply bigBytes_ok].
Qed.

Lemma deriveKvs_ok items l : itemsOk items -> (forall i, i ∈ l -> (i < Len items)%nat) -> Forall kvOk (deriveKvs items l).
Proof.
  intros [Hl Hi] Hin. apply Forall_fmap, Forall_forall. intros i He. specialize (Hin i He). split; [apply indexKey_ok; lia|by apply Hi].
Qed.

Lemma order_bound n i : i ∈ deriveOrder n -> (i < n)%nat.
Proof. rewrite deriveOrder_perm. intros ?%elem_of_seq. lia. Qed.

Lemma deriveKvs_sorted items : itemsOk items -> Sorted before (deriveKvs items (deriveOrder (Len items))).*1.
Proof.
  intros [Hl _]. unfold deriveKvs. rewrite <-list_fmap_compose. cbn [compose fst]. assert (HB : Forall (fun i => Z.of_nat i < 2 ^ 63) (deriveOrder (Len items))).
  { apply Forall_forall. intros i Hi%order_bound. lia. }
  apply StronglySorted_Sorted. generalize (comes_order (Len items)). revert HB. generalize (deriveOrder (Len items)) as l. induction l as [|i l IH]; intros HB HS; [constructor|].
  apply Forall_cons in HB as [Hi HB]. apply StronglySorted_inv in HS as [HS HF]. cbn [fmap list_fmap compose fst]. constructor; [by apply IH|].
  apply Forall_fmap, Forall_forall. intros j Hj. rewrite Forall_forall in HF, HB. apply comes_before; [by apply HF|done|by apply HB].
Qed.

Lemma DeriveSha_fold {T} {TH : TrieHasher T} items (hasher : T) :
  DeriveSha items hasher = (h ← fold_outcome updateOmit (deriveKvs items (deriveOrder (Len items))) (thReset hasher); thHash h).
Proof.
  assert (HF : forall l t, fold_outcome updateOmit (deriveKvs items l) t = fold_outcome (deriveStep items) l t).
  { unfold deriveKvs. induction l as [|i l IH]; intros t; [done|]. cbn [fmap list_fmap fold_outcome]. unfold deriveStep at 1. fold (indexKey i). destruct (updateOmit t _); [apply IH|done..]. }
  rewrite HF. unfold DeriveSha, deriveOrder. cbn zeta. rewrite fold_outcome_app. destruct (fold_outcome _ (seq 1 _) _) as [t| |]; [|done..]. cbn [mbind outcome_bind].
  rewrite fold_outcome_app. case_decide; cbn [fold_outcome mbind outcome_bind]; [by destruct (deriveStep items t 0)|done].
Qed.

Section Root.
Context {K : Keccak} {KL : KeccakLaws K} {T : Type} {TH : TrieHasher T} {TL : TrieHasherLaws T TH}.

Lemma DeriveSha_spec items (hasher : T) : thReady hasher -> itemsOk items ->
  exists h' u, DeriveSha items hasher = Done (h', rootHash sha emptyRoot u) /\ contents u (kvMap ∅ (deriveKvs items (seq 0 (Len items)))) /\ (u <> TNil -> good u) /\ thReady h'.
Proof.
  intros Hr Hok. pose proof (deriveKvs_sorted items Hok) as HS. assert (HO : Forall kvOk (deriveKvs items (deriveOrder (Len items)))) by (apply deriveKvs_ok; [done|apply order_bound]).
  destruct (thRun hasher _ Hr HS HO) as (t1 & t2 & u & H1 & H2 & Hu & Hr2). exists t2, u. rewrite DeriveSha_fold, H1. cbn [mbind outcome_bind]. split; [done|].
  split; [|split; [intros Hn; eapply contents_good; [done|by apply goodMap_kvs|done]|done]].
  rewrite (kvMap_perm (deriveKvs items (deriveOrder (Len items)))); [done|by apply sorted_keys|]. unfold deriveKvs. by rewrite deriveOrder_perm.
Qed.

Lemma indexKey_inj i j : Z.of_nat i < 2 ^ 63 -> Z.of_nat j < 2 ^ 63 -> indexKey i = indexKey j -> i = j.
Proof.
  intros Hi Hj He. assert (HI : forall i j, comes i j -> Z.of_nat i < 2 ^ 63 -> Z.of_nat j < 2 ^ 63 -> indexKey i <> indexKey j).
  { intros a b Hc Ha Hb Heq. destruct (comes_before a b Hc Ha Hb) as (c & x & y & r1 & r2 & Ea & Eb & ?). rewrite Heq, Eb in Ea. simplify_list_eq. lia. }
  destruct (decide (i = j)) as [|Hne]; [done|exfalso]. destruct (decide (comes i j)) as [Hc|Hc]; [by apply (HI i j)|]. apply (HI j i); [unfold comes in *; lia|done|done|done].
Qed.

(** The map of a list has its items under their indices. *)
Lemma deriveMap_lookup items i : Z.of_nat (Len items) < 2 ^ 63 -> Z.of_nat i < 2 ^ 63 ->
  kvMap ∅ (deriveKvs items (seq 0 (Len items))) !! indexKey i = if decide (i < Len items)%nat then Some (EncodeIndex items i) else None.
Proof.
  intros Hl Hi. rewrite kvMap_list.
  assert (HN : NoDup (reverse (deriveKvs items (seq 0 (Len items)))).*1).
  { rewrite fmap_reverse, reverse_Permutation. unfold deriveKvs. rewrite <-list_fmap_compose. cbn [compose fst]. apply NoDup_fmap_2_strong; [|apply NoDup_ListNoDup, List.seq_NoDup].
    intros a b Ha%elem_of_seq Hb%elem_of_seq. apply indexKey_inj; lia. }
  case_decide as Hlt.
  - apply elem_of_list_to_map_1; [done|]. rewrite reverse_Permutation. apply list_elem_of_fmap. exists i. split; [done|]. apply elem_of_seq. lia.
  - apply not_elem_of_list_to_map_1. rewrite fmap_reverse, reverse_Permutation. unfold deriveKvs. rewrite <-list_fmap_compose. intros (j & He & Hj%elem_of_seq)%list_elem_of_fmap.
    cbn [compose fst] in He. apply indexKey_inj in He; lia.
Qed.
End Root.

(** ** Properties *)

(** C18: for any list of at most 2^63 non-empty items, [DeriveSha] over a trie that keeps
    the contract of [TrieHasher] does not panic, and its hash is that of an
    ordinary trie that takes the items in the order of the list, each under its
    encoded index. *)
Theorem DeriveSha_correct {K : Keccak} {KL : KeccakLaws K} {T : Type} {TH : TrieHasher T} {TL : TrieHasherLaws T TH} (hasher : T) (items : DerivableList)
    (pooled h : encBuffer) Node owner :
  thReady hasher -> itemsOk items -> ready pooled -> ready h ->
  exists hasher' root r t', DeriveSha items hasher = Done (hasher', root) /\ thReady hasher' /\
    runOps Node (emptyTrie owner) (kvOps (deriveKvs items (seq 0 (Len items)))) = Done r /\ Hash_ sha emptyRoot pooled h r.1 = Done (t', root).
Proof.
  intros Hr Hok Hp Hh. destruct (DeriveSha_spec items hasher Hr Hok) as (h' & u & HD & Hu & _ & Hr').
  destruct (trie_updates Node owner pooled h (deriveKvs items (seq 0 (Len items)))) as (r & t' & u' & Hrun & HH & Hu'); [done|done|apply deriveKvs_ok; [done|]; intros i ?%elem_of_seq; lia|].
  rewrite (contents_unique u' u _ Hu' Hu) in HH. by exists h', (rootHash sha emptyRoot u), r, t'.
Qed.

(** C21: two lists with the same [DeriveSha] have the same length and the same items,
    unless two nodes of their tries collide. *)
Theorem DeriveSha_binding {K : Keccak} {KL : KeccakLaws K} {T : Type} {TH : TrieHasher T} {TL : TrieHasherLaws T TH} (hasher1 hasher2 : T) (items1 items2 : DerivableList) :
  thReady hasher1 -> thReady hasher2 -> itemsOk items1 -> itemsOk items2 ->
  exists h1 h2 root1 root2, DeriveSha items1 hasher1 = Done (h1, root1) /\ DeriveSha items2 hasher2 = Done (h2, root2) /\
    (root1 = root2 ->
       (Len items1 = Len items2 /\ forall i, (i < Len items1)%nat -> EncodeIndex items1 i = EncodeIndex items2 i) \/
       exists u1 u2, contents u1 (kvMap ∅ (deriveKvs items1 (seq 0 (Len items1)))) /\ contents u2 (kvMap ∅ (deriveKvs items2 (seq 0 (Len items2)))) /\
         collides sha ([0x80] :: encodings sha u1) ([0x80] :: encodings sha u2)).
Proof.
  intros Hr1 Hr2 Hok1 Hok2. destruct (DeriveSha_spec items1 hasher1 Hr1 Hok1) as (h1 & u1 & HD1 & Hu1 & Hg1 & _), (DeriveSha_spec items2 hasher2 Hr2 Hok2) as (h2 & u2 & HD2 & Hu2 & Hg2 & _).
  exists h1, h2, (rootHash sha emptyRoot u1), (rootHash sha emptyRoot u2). split; [done|]. split; [done|]. rewrite emptyRoot_sha. intros He.
  destruct (rootHash_inj sha sha_len u1 u2 Hg1 Hg2 He) as [->|Hc]; [left|right; by exists u1, u2]. pose proof (contents_map _ _ _ Hu1 Hu2) as Hm. destruct Hok1 as [Hl1 _], Hok2 as [Hl2 _].
  assert (HE : forall i, Z.of_nat i < 2 ^ 63 -> (if decide (i < Len items1)%nat then Some (EncodeIndex items1 i) else None) = (if decide (i < Len items2)%nat then Some (EncodeIndex items2 i) else None)).
  { intros i Hi. rewrite <-!deriveMap_lookup by done. by rewrite Hm. }
  assert (Hlen : Len items1 = Len items2).
  { pose proof (HE (Len items1) Hl1) as E1. pose proof (HE (Len items2) Hl2) as E2. rewrite decide_False in E1 by lia. rewrite (decide_False (P := (Len items2 < Len items2)%nat)) in E2 by lia.
    case_decide; [done|]. case_decide; [done|]. lia. }
  split; [done|]. intros i Hi. specialize (HE i ltac:(lia)). rewrite !decide_True in HE by lia. by injection HE.
Qed.

(** ** Examples *)

Module SampleList.
Import SampleKeccak.

(** More than 128 items, so that all three loops run. *)
Definition items : DerivableList := mkDerivable 130 (fun i => [Z.of_nat i + 1]).

Lemma items_ok : itemsOk items.
Proof. split; [simpl; lia|]. intros i Hi. cbn [items Len EncodeIndex] in *. split; [done|]. split; [constructor; [unfold byte_ok; lia|done]|unfold limit; simpl; lia]. Qed.

Lemma new_ready w : thReady (NewStackTrie w newEncBuffer).
Proof. apply ready_new. Qed.
End SampleList.

Import SampleKeccak SampleList.

Lemma DeriveSha_correct_witness : exists hasher' root r t', DeriveSha items (NewStackTrie false newEncBuffer) = Done (hasher', root) /\ thReady hasher' /\
  runOps (fun _ _ => None) (emptyTrie zeroHash) (kvOps (deriveKvs items (seq 0 130))) = Done r /\ Hash_ sha emptyRoot newEncBuffer newEncBuffer r.1 = Done (t', root).
Proof. exact (DeriveSha_correct (NewStackTrie false newEncBuffer) items newEncBuffer newEncBuffer (fun _ _ => None) zeroHash (new_ready false) items_ok ready_new ready_new). Defined.

Lemma DeriveSha_binding_witness : exists h1 h2 root1 root2, DeriveSha items (NewStackTrie false newEncBuffer) = Done (h1, root1) /\
  DeriveSha (mkDerivable 0 (fun _ => [])) (NewStackTrie true newEncBuffer) = Done (h2, root2) /\
  (root1 = root2 -> exists u1 u2, contents u1 (kvMap ∅ (deriveKvs items (seq 0 130))) /\ contents u2 ∅ /\ collides sha ([0x80] :: encodings sha u1) ([0x80] :: encodings sha u2)).
Proof.
  assert (H0 : itemsOk (mkDerivable 0 (fun _ => []))) by (split; [simpl; lia|]; intros i Hi; simpl in Hi; lia).
  destruct (DeriveSha_binding (NewStackTrie false newEncBuffer) (NewStackTrie true newEncBuffer) items (mkDerivable 0 (fun _ => [])) (new_ready false) (new_ready true) items_ok H0)
    as (h1 & h2 & root1 & root2 & H1 & H2 & H3). exists h1, h2, root1, root2. split; [exact H1|]. split; [exact H2|]. intros He. destruct (H3 He) as [[Hl _]|Hc]; [discriminate Hl|exact Hc].
Defined.
