(* ===== verification/State.v ===== *)
(** * The state of the chain

    The package [core/state]: accounts with their storage, kept in tries and
    changed in memory ([state_object.go], [statedb.go]), the journal that undoes
    changes ([journal.go]), the list of accessed addresses ([access_list.go]) and
    the storage of a transaction ([transient_storage.go]).  The tries and the code
    are behind the interfaces of [core/state/database.go].

    An object of the state is reached through [stateObjects] only, so that a
    method that changes it puts the changed object back; an object that a
    journal entry keeps is not changed until it is put back.  The prefetcher,
    which loads tries ahead of their use, is off. *)

From S2P Require Import Prelude Bytes RlpRaw RlpEncode.

Local Open Scope Z_scope.

(** ** Accounts *)

Record StateAccount := mkAccount { Nonce : Z; Balance : Z; Root : Hash; CodeHash : list Z }.

#[export] Instance StateAccount_eq_dec : EqDecision StateAccount.
Proof. solve_decision. Defined.

Section Accounts.
Context {K : Keccak}.

Definition EmptyCodeHash : Hash := sha [].

Definition NewEmptyStateAccount : StateAccount := mkAccount 0 0 emptyRoot EmptyCodeHash.

Definition slimType : rtype := TStruct [TUint 64; TBigPtr; TBytes; TBytes].

(** The encoding of an account without the hashes of an empty storage and an
    empty code. *)
Definition SlimAccountRLP (account : StateAccount) : outcome (list Z) :=
  let root := if decide (Root account <> emptyRoot) then Root account else [] in
  let codeHash := if decide (CodeHash account <> EmptyCodeHash) then CodeHash account else [] in
  match EncodeToBytes newEncBuffer slimType (VList [VUint (Nonce account); VBig (Some (Balance account)); VBytes root; VBytes codeHash]) with
  | Done (inr data) => Done data
  | Done (inl _) => Panic
  | Panic => Panic
  | Stuck => Stuck
  end.
End Accounts.

(** ** The database *)

Inductive dbError := errTrie | errDecode | errCode | errSnapshot.

(** The interfaces [Trie] and [Database]. *)
Class StateDatabase := {
  Trie : Type;
  GetAccount : Trie -> Address -> Trie * (dbError + option StateAccount);
  GetStorage : Trie -> Address -> list Z -> Trie * (dbError + list Z);
  UpdateAccount : Trie -> Address -> StateAccount -> Trie * option dbError;
  UpdateStorage : Trie -> Address -> list Z -> list Z -> Trie * option dbError;
  DeleteAccount : Trie -> Address -> Trie * option dbError;
  DeleteStorage : Trie -> Address -> list Z -> Trie * option dbError;
  TrieHash : Trie -> Trie * Hash;
  OpenTrie : Hash -> dbError + Trie;
  OpenStorageTrie : Hash -> Address -> Hash -> dbError + Trie;
  ContractCode : Address -> Hash -> dbError + list Z
}.

(** What a layer of the snapshot tree answers: an account with empty byte slices
    for empty hashes, and the encoding of a slot. *)
Record Snapshot_ := mkSnapshot { snapAccount : Hash -> dbError + option StateAccount; snapStorage : Hash -> Hash -> dbError + list Z }.

(** ** The access list *)

Record accessList := mkAccessList { addresses : gmap Address Z; slots : list (gset Hash) }.

Definition newAccessList : accessList := mkAccessList ∅ [].

Definition ContainsAddress (al : accessList) (address : Address) : bool := bool_decide (is_Some (addresses al !! address)).

Definition Contains (al : accessList) (address : Address) (slot : Hash) : outcome (bool * bool) :=
  match addresses al !! address with
  | None => Done (false, false)
  | Some idx => if decide (idx = -1) then Done (true, false) else slotmap ← index (slots al) idx; Done (true, bool_decide (slot ∈ slotmap))
  end.

Definition AddAddress (al : accessList) (address : Address) : accessList * bool :=
  match addresses al !! address with
  | Some _ => (al, false)
  | None => (mkAccessList (<[address := -1]> (addresses al)) (slots al), true)
  end.

Definition newSlots (al : accessList) (address : Address) (slot : Hash) : accessList :=
  mkAccessList (<[address := Z.of_nat (length (slots al))]> (addresses al)) (slots al ++ [{[slot]}]).

Definition AddSlot (al : accessList) (address : Address) (slot : Hash) : outcome (accessList * (bool * bool)) :=
  match addresses al !! address with
  | None => Done (newSlots al address slot, (true, true))
  | Some idx =>
      if decide (idx = -1) then Done (newSlots al address slot, (false, true))
      else
        slotmap ← index (slots al) idx;
        if decide (slot ∈ slotmap) then Done (al, (false, false))
        else l ← store (slots al) idx ({[slot]} ∪ slotmap); Done (mkAccessList (addresses al) l, (false, true))
  end.

Definition DeleteSlot (al : accessList) (address : Address) (slot : Hash) : outcome accessList :=
  match addresses al !! address with
  | None => Panic
  | Some idx =>
      slotmap ← index (slots al) idx;
      let slotmap := slotmap ∖ {[slot]} in
      l ← store (slots al) idx slotmap;
      if decide (slotmap = ∅) then l ← subslice l 0 idx; Done (mkAccessList (<[address := -1]> (addresses al)) l)
      else Done (mkAccessList (addresses al) l)
  end.

Definition DeleteAddress (al : accessList) (address : Address) : accessList := mkAccessList (delete address (addresses al)) (slots al).

(** ** The storage of a transaction *)

Abbreviation Storage := (gmap Hash Hash).
Abbreviation transientStorage := (gmap Address Storage).

Definition transientSet (t : transientStorage) (addr : Address) (key value : Hash) : transientStorage := <[addr := <[key := value]> (default ∅ (t !! addr))]> t.

Definition transientGet (t : transientStorage) (addr : Address) (key : Hash) : Hash :=
  match t !! addr with None => zeroHash | Some val => default zeroHash (val !! key) end.

(** ** Logs *)

Record Log := mkLog { lAddress : Address; lTopics : list Hash; lData : list Z; lBlockNumber : Z; lTxHash : Hash; lTxIndex : Z; lBlockHash : Hash; lIndex : Z; lRemoved : bool }.

(** ** Objects, journal and state *)

Section State.
Context {K : Keccak} {DB : StateDatabase}.

(** [code] and [trie] are [None] before they are loaded. *)
Record stateObject := mkObject {
  address : Address; addrHash : Hash; origin : option StateAccount; data : StateAccount;
  trie : option Trie; code : option (list Z);
  originStorage : Storage; pendingStorage : Storage; dirtyStorage : Storage;
  dirtyCode : bool; selfDestructed : bool; deleted : bool; created : bool
}.

Definition set_data (d : StateAccount) (o : stateObject) : stateObject :=
  mkObject (address o) (addrHash o) (origin o) d (trie o) (code o) (originStorage o) (pendingStorage o) (dirtyStorage o) (dirtyCode o) (selfDestructed o) (deleted o) (created o).
Definition set_trie (t : Trie) (o : stateObject) : stateObject :=
  mkObject (address o) (addrHash o) (origin o) (data o) (Some t) (code o) (originStorage o) (pendingStorage o) (dirtyStorage o) (dirtyCode o) (selfDestructed o) (deleted o) (created o).
Definition set_code (c : option (list Z)) (dirty : bool) (o : stateObject) : stateObject :=
  mkObject (address o) (addrHash o) (origin o) (data o) (trie o) c (originStorage o) (pendingStorage o) (dirtyStorage o) dirty (selfDestructed o) (deleted o) (created o).
Definition set_storage (orig pending dirty : Storage) (o : stateObject) : stateObject :=
  mkObject (address o) (addrHash o) (origin o) (data o) (trie o) (code o) orig pending dirty (dirtyCode o) (selfDestructed o) (deleted o) (created o).
Definition set_flags (selfDestructed deleted created : bool) (o : stateObject) : stateObject :=
  mkObject (address o) (addrHash o) (origin o) (data o) (trie o) (code o) (originStorage o) (pendingStorage o) (dirtyStorage o) (dirtyCode o) selfDestructed deleted created.

(** The changes of a block, for the snapshot tree and the trie database: nil
    stands for what is deleted or was not there. *)
Record changeSet := mkChanges {
  accounts : gmap Hash (list Z); storages : gmap Hash (gmap Hash (option (list Z)));
  accountsOrigin : gmap Address (option (list Z)); storagesOrigin : gmap Address (gmap Hash (option (list Z)))
}.

Inductive journalEntry :=
| createObjectChange (account : Address)
| resetObjectChange (account : Address) (prev : stateObject) (prevdestruct : bool) (prevAccount : option (list Z)) (prevStorage : option (gmap Hash (option (list Z))))
    (prevAccountOrigin : option (option (list Z))) (prevStorageOrigin : option (gmap Hash (option (list Z))))
| selfDestructChange (account : Address) (prev : bool) (prevbalance : Z)
| balanceChange (account : Address) (prev : Z)
| nonceChange (account : Address) (prev : Z)
| storageChange (account : Address) (key prevalue : Hash)
| codeChange (account : Address) (prevcode : option (list Z)) (prevhash : list Z)
| refundChange (prev : Z)
| addLogChange (txhash : Hash)
| addPreimageChange (hash : Hash)
| touchChange (account : Address)
| accessListAddAccountChange (addr : Address)
| accessListAddSlotChange (addr : Address) (slot : Hash)
| transientStorageChange (account : Address) (key prevalue : Hash).

Record journal := mkJournal { entries : list journalEntry; dirties : gmap Address Z }.

Definition newJournal : journal := mkJournal [] ∅.

Record revision := mkRevision { revId : Z; journalIndex : nat }.

Record StateDB := mkState {
  stTrie : Trie; snap : option Snapshot_; originalRoot : Hash; changes : changeSet;
  stateObjects : gmap Address stateObject; stateObjectsPending : gset Address; stateObjectsDirty : gset Address; stateObjectsDestruct : gmap Address (option StateAccount);
  dbErr : option dbError; refund : Z; thash : Hash; txIndex : Z; logs : gmap Hash (list Log); logSize : Z; preimages : gmap Hash (list Z);
  stAccess : accessList; stTransient : transientStorage; stJournal : journal; validRevisions : list revision; nextRevisionId : Z
}.

Definition set_objects (objs : gmap Address stateObject) (s : StateDB) : StateDB :=
  mkState (stTrie s) (snap s) (originalRoot s) (changes s) objs (stateObjectsPending s) (stateObjectsDirty s) (stateObjectsDestruct s) (dbErr s) (refund s) (thash s) (txIndex s)
    (logs s) (logSize s) (preimages s) (stAccess s) (stTransient s) (stJournal s) (validRevisions s) (nextRevisionId s).
Definition set_stTrie (t : Trie) (s : StateDB) : StateDB :=
  mkState t (snap s) (originalRoot s) (changes s) (stateObjects s) (stateObjectsPending s) (stateObjectsDirty s) (stateObjectsDestruct s) (dbErr s) (refund s) (thash s) (txIndex s)
    (logs s) (logSize s) (preimages s) (stAccess s) (stTransient s) (stJournal s) (validRevisions s) (nextRevisionId s).
Definition set_changes (c : changeSet) (s : StateDB) : StateDB :=
  mkState (stTrie s) (snap s) (originalRoot s) c (stateObjects s) (stateObjectsPending s) (stateObjectsDirty s) (stateObjectsDestruct s) (dbErr s) (refund s) (thash s) (txIndex s)
    (logs s) (logSize s) (preimages s) (stAccess s) (stTransient s) (stJournal s) (validRevisions s) (nextRevisionId s).
Definition set_marks (pending dirty : gset Address) (s : StateDB) : StateDB :=
  mkState (stTrie s) (snap s) (originalRoot s) (changes s) (stateObjects s) pending dirty (stateObjectsDestruct s) (dbErr s) (refund s) (thash s) (txIndex s)
    (logs s) (logSize s) (preimages s) (stAccess s) (stTransient s) (stJournal s) (validRevisions s) (nextRevisionId s).
Definition set_destruct (d : gmap Address (option StateAccount)) (s : StateDB) : StateDB :=
  mkState (stTrie s) (snap s) (originalRoot s) (changes s) (stateObjects s) (stateObjectsPending s) (stateObjectsDirty s) d (dbErr s) (refund s) (thash s) (txIndex s)
    (logs s) (logSize s) (preimages s) (stAccess s) (stTransient s) (stJournal s) (validRevisions s) (nextRevisionId s).
Definition set_dbErr (e : option dbError) (s : StateDB) : StateDB :=
  mkState (stTrie s) (snap s) (originalRoot s) (changes s) (stateObjects s) (stateObjectsPending s) (stateObjectsDirty s) (stateObjectsDestruct s) e (refund s) (thash s) (txIndex s)
    (logs s) (logSize s) (preimages s) (stAccess s) (stTransient s) (stJournal s) (validRevisions s) (nextRevisionId s).
Definition set_refund (r : Z) (s : StateDB) : StateDB :=
  mkState (stTrie s) (snap s) (originalRoot s) (changes s) (stateObjects s) (stateObjectsPending s) (stateObjectsDirty s) (stateObjectsDestruct s) (dbErr s) r (thash s) (txIndex s)
    (logs s) (logSize s) (preimages s) (stAccess s) (stTransient s) (stJournal s) (validRevisions s) (nextRevisionId s).
Definition set_logs (l : gmap Hash (list Log)) (n : Z) (s : StateDB) : StateDB :=
  mkState (stTrie s) (snap s) (originalRoot s) (changes s) (stateObjects s) (stateObjectsPending s) (stateObjectsDirty s) (stateObjectsDestruct s) (dbErr s) (refund s) (thash s) (txIndex s)
    l n (preimages s) (stAccess s) (stTransient s) (stJournal s) (validRevisions s) (nextRevisionId s).
Definition set_preimages (p : gmap Hash (list Z)) (s : StateDB) : StateDB :=
  mkState (stTrie s) (snap s) (originalRoot s) (changes s) (stateObjects s) (stateObjectsPending s) (stateObjectsDirty s) (stateObjectsDestruct s) (dbErr s) (refund s) (thash s) (txIndex s)
    (logs s) (logSize s) p (stAccess s) (stTransient s) (stJournal s) (validRevisions s) (nextRevisionId s).
Definition set_access (al : accessList) (s : StateDB) : StateDB :=
  mkState (stTrie s) (snap s) (originalRoot s) (changes s) (stateObjects s) (stateObjectsPending s) (stateObjectsDirty s) (stateObjectsDestruct s) (dbErr s) (refund s) (thash s) (txIndex s)
    (logs s) (logSize s) (preimages s) al (stTransient s) (stJournal s) (validRevisions s) (nextRevisionId s).
Definition set_transient (t : transientStorage) (s : StateDB) : StateDB :=
  mkState (stTrie s) (snap s) (originalRoot s) (changes s) (stateObjects s) (stateObjectsPending s) (stateObjectsDirty s) (stateObjectsDestruct s) (dbErr s) (refund s) (thash s) (txIndex s)
    (logs s) (logSize s) (preimages s) (stAccess s) t (stJournal s) (validRevisions s) (nextRevisionId s).
Definition set_journal (j : journal) (s : StateDB) : StateDB :=
  mkState (stTrie s) (snap s) (originalRoot s) (changes s) (stateObjects s) (stateObjectsPending s) (stateObjectsDirty s) (stateObjectsDestruct s) (dbErr s) (refund s) (thash s) (txIndex s)
    (logs s) (logSize s) (preimages s) (stAccess s) (stTransient s) j (validRevisions s) (nextRevisionId s).
Definition set_revisions (l : list revision) (n : Z) (s : StateDB) : StateDB :=
  mkState (stTrie s) (snap s) (originalRoot s) (changes s) (stateObjects s) (stateObjectsPending s) (stateObjectsDirty s) (stateObjectsDestruct s) (dbErr s) (refund s) (thash s) (txIndex s)
    (logs s) (logSize s) (preimages s) (stAccess s) (stTransient s) (stJournal s) l n.

(** [New], with the layer of the snapshot tree for the root. *)
Definition newStateDB (root : Hash) (layer : option Snapshot_) : dbError + StateDB :=
  match OpenTrie root with
  | inl e => inl e
  | inr tr => inr (mkState tr layer root (mkChanges ∅ ∅ ∅ ∅) ∅ ∅ ∅ ∅ None 0 zeroHash 0 ∅ 0 ∅ newAccessList ∅ newJournal [] 0)
  end.

(** ** The journal *)

Definition dirtied (e : journalEntry) : option Address :=
  match e with
  | createObjectChange a | resetObjectChange a _ _ _ _ _ _ | selfDestructChange a _ _ | balanceChange a _ | nonceChange a _ | storageChange a _ _ | codeChange a _ _ | touchChange a => Some a
  | refundChange _ | addLogChange _ | addPreimageChange _ | accessListAddAccountChange _ | accessListAddSlotChange _ _ | transientStorageChange _ _ _ => None
  end.

Definition dirty_ (j : journal) (addr : Address) : journal := mkJournal (entries j) (<[addr := default 0 (dirties j !! addr) + 1]> (dirties j)).

Definition append (j : journal) (entry : journalEntry) : journal :=
  let j := mkJournal (entries j ++ [entry]) (dirties j) in
  match dirtied entry with Some addr => dirty_ j addr | None => j end.

Definition log_ (entry : journalEntry) (s : StateDB) : StateDB := set_journal (append (stJournal s) entry) s.

Definition setError (err : dbError) (s : StateDB) : StateDB := match dbErr s with None => set_dbErr (Some err) s | Some _ => s end.

(** ** Objects *)

Definition setStateObject (object : stateObject) (s : StateDB) : StateDB := set_objects (<[address object := object]> (stateObjects s)) s.

Definition objEmpty (o : stateObject) : bool := bool_decide (Nonce (data o) = 0 /\ Balance (data o) = 0 /\ CodeHash (data o) = EmptyCodeHash).

Definition newObject (addr : Address) (acct : option StateAccount) : stateObject :=
  mkObject addr (sha addr) acct (default NewEmptyStateAccount acct) None None ∅ ∅ ∅ false false false false.

(** The address 3. *)
Definition ripemd : Address := replicate 19 0 ++ [3].

Definition touch (o : stateObject) (s : StateDB) : StateDB :=
  let s := log_ (touchChange (address o)) s in
  if decide (address o = ripemd) then set_journal (dirty_ (stJournal s) (address o)) s else s.

(** An account of the snapshot in its full form. *)
Definition fromSlim (acc : StateAccount) : StateAccount :=
  let codeHash := if decide (CodeHash acc = []) then EmptyCodeHash else CodeHash acc in
  let root := BytesToHash (Root acc) in
  mkAccount (Nonce acc) (Balance acc) (if decide (root = zeroHash) then emptyRoot else root) codeHash.

Definition getDeletedStateObject (s : StateDB) (addr : Address) : StateDB * option stateObject :=
  match stateObjects s !! addr with
  | Some obj => (s, Some obj)
  | None =>
      let load (s : StateDB) (acct : StateAccount) := let obj := newObject addr (Some acct) in (setStateObject obj s, Some obj) in
      let fromTrie :=
        let '(t, r) := GetAccount (stTrie s) addr in
        let s := set_stTrie t s in
        match r with inl e => (setError e s, None) | inr None => (s, None) | inr (Some acct) => load s acct end in
      match snap s with
      | Some sn =>
          match snapAccount sn (sha addr) with
          | inl _ => fromTrie
          | inr None => (s, None)
          | inr (Some acc) => load s (fromSlim acc)
          end
      | None => fromTrie
      end
  end.

Definition getStateObject (s : StateDB) (addr : Address) : StateDB * option stateObject :=
  let '(s, o) := getDeletedStateObject s addr in
  (s, match o with Some obj => if deleted obj then None else Some obj | None => None end).

(** The maps without the entries of an object. *)
Definition clearChanges (o : stateObject) (c : changeSet) : changeSet :=
  mkChanges (delete (addrHash o) (accounts c)) (delete (addrHash o) (storages c)) (delete (address o) (accountsOrigin c)) (delete (address o) (storagesOrigin c)).

Definition markDestruct (o : stateObject) (s : StateDB) : StateDB :=
  match stateObjectsDestruct s !! address o with Some _ => s | None => set_destruct (<[address o := origin o]> (stateObjectsDestruct s)) s end.

Definition createObject (s : StateDB) (addr : Address) : StateDB * stateObject * option stateObject :=
  let '(s, prev) := getDeletedStateObject s addr in
  let newobj := set_flags false false true (newObject addr None) in
  match prev with
  | None => (setStateObject newobj (log_ (createObjectChange addr) s), newobj, None)
  | Some prev =>
      let prevdestruct := bool_decide (is_Some (stateObjectsDestruct s !! address prev)) in
      let s := markDestruct prev s in
      let c := changes s in
      let s := log_ (resetObjectChange addr prev prevdestruct (accounts c !! addrHash prev) (storages c !! addrHash prev) (accountsOrigin c !! address prev) (storagesOrigin c !! address prev)) s in
      let s := set_changes (clearChanges prev c) s in
      (setStateObject newobj s, newobj, if deleted prev then None else Some prev)
  end.

Definition GetOrNewStateObject (s : StateDB) (addr : Address) : StateDB * stateObject :=
  match getStateObject s addr with
  | (s, Some obj) => (s, obj)
  | (s, None) => let '(s, obj, _) := createObject s addr in (s, obj)
  end.

(** ** Storage of an object

    [o] is the object under its address; what changes in it is put back. *)

(** [getTrie]; the trie stays with the object. *)
Definition getTrie (s : StateDB) (o : stateObject) : stateObject * (dbError + Trie) :=
  match trie o with
  | Some t => (o, inr t)
  | None => match OpenStorageTrie (originalRoot s) (address o) (Root (data o)) with inl e => (o, inl e) | inr t => (set_trie t o, inr t) end
  end.

(** The content of an encoded slot; [Split] neither panics nor loops on bytes. *)
Definition slotContent (enc : list Z) : dbError + list Z := match Split enc with Done (inr (_, content, _)) => inr content | _ => inl errDecode end.

(** A slot of the snapshot: nothing when the trie has to be asked. *)
Definition snapSlot (s : StateDB) (o : stateObject) (key : Hash) : option (option dbError * Hash) :=
  match snap s with
  | None => None
  | Some sn =>
      match snapStorage sn (addrHash o) (sha key) with
      | inl _ => None
      | inr [] => Some (None, zeroHash)
      | inr enc => Some match slotContent enc with inl e => (Some e, BytesToHash []) | inr content => (None, BytesToHash content) end
      end
  end.

Definition cacheSlot (key value : Hash) (o : stateObject) : stateObject := set_storage (<[key := value]> (originStorage o)) (pendingStorage o) (dirtyStorage o) o.

Definition objGetCommittedState (s : StateDB) (o : stateObject) (key : Hash) : StateDB * Hash :=
  match pendingStorage o !! key with
  | Some value => (s, value)
  | None =>
      match originStorage o !! key with
      | Some value => (s, value)
      | None =>
          match stateObjectsDestruct s !! address o with
          | Some _ => (s, zeroHash)
          | None =>
              match snapSlot s o key with
              | Some (err, value) =>
                  let s := match err with Some e => setError e s | None => s end in
                  (setStateObject (cacheSlot key value o) s, value)
              | None =>
                  match getTrie s o with
                  | (o, inl e) => (setError e s, zeroHash)
                  | (o, inr t) =>
                      let '(t, r) := GetStorage t (address o) key in
                      let o := set_trie t o in
                      match r with
                      | inl e => (setError e (setStateObject o s), zeroHash)
                      | inr val => let value := BytesToHash val in (setStateObject (cacheSlot key value o) s, value)
                      end
                  end
              end
          end
      end
  end.

Definition objGetState (s : StateDB) (o : stateObject) (key : Hash) : StateDB * Hash :=
  match dirtyStorage o !! key with Some value => (s, value) | None => objGetCommittedState s o key end.

Definition setState (key value : Hash) (o : stateObject) : stateObject := set_storage (originStorage o) (pendingStorage o) (<[key := value]> (dirtyStorage o)) o.

(** A change of the object under an address. *)
Definition onObject (addr : Address) (f : stateObject -> stateObject) (s : StateDB) : StateDB := set_objects (alter f addr (stateObjects s)) s.

Definition objSetState (s : StateDB) (o : stateObject) (key value : Hash) : StateDB :=
  let '(s, prev) := objGetState s o key in
  if decide (prev = value) then s
  else onObject (address o) (setState key value) (log_ (storageChange (address o) key prev) s).

(** ** Balance, nonce and code of an object *)

Definition setBalance (amount : Z) (o : stateObject) : stateObject := set_data (mkAccount (Nonce (data o)) amount (Root (data o)) (CodeHash (data o))) o.
Definition setNonce (nonce : Z) (o : stateObject) : stateObject := set_data (mkAccount nonce (Balance (data o)) (Root (data o)) (CodeHash (data o))) o.
Definition setCode (codeHash : Hash) (c : option (list Z)) (o : stateObject) : stateObject :=
  set_code c true (set_data (mkAccount (Nonce (data o)) (Balance (data o)) (Root (data o)) codeHash) o).

Definition objSetBalance (o : stateObject) (amount : Z) (s : StateDB) : StateDB :=
  onObject (address o) (setBalance amount) (log_ (balanceChange (address o) (Balance (data o))) s).

Definition objAddBalance (o : stateObject) (amount : Z) (s : StateDB) : StateDB :=
  if decide (amount = 0) then (if objEmpty o then touch o s else s) else objSetBalance o (Balance (data o) + amount) s.

Definition objSubBalance (o : stateObject) (amount : Z) (s : StateDB) : StateDB :=
  if decide (amount = 0) then s else objSetBalance o (Balance (data o) - amount) s.

Definition objSetNonce (o : stateObject) (nonce : Z) (s : StateDB) : StateDB := onObject (address o) (setNonce nonce) (log_ (nonceChange (address o) (Nonce (data o))) s).

(** [Code]: nil without code. *)
Definition objCode (s : StateDB) (o : stateObject) : StateDB * option (list Z) :=
  match code o with
  | Some c => (s, Some c)
  | None =>
      if decide (CodeHash (data o) = EmptyCodeHash) then (s, None)
      else match ContractCode (address o) (BytesToHash (CodeHash (data o))) with
           | inl _ => (setError errCode s, None)
           | inr c => (onObject (address o) (fun o => set_code (Some c) (dirtyCode o) o) s, Some c)
           end
  end.

Definition objSetCode (s : StateDB) (o : stateObject) (codeHash : Hash) (c : list Z) : StateDB :=
  let '(s, prevcode) := objCode s o in
  onObject (address o) (setCode codeHash (Some c)) (log_ (codeChange (address o) prevcode (CodeHash (data o))) s).

(** ** Questions *)

Definition ask {A : Type} (s : StateDB) (addr : Address) (none : A) (f : stateObject -> A) : StateDB * A :=
  let '(s, o) := getStateObject s addr in (s, match o with Some obj => f obj | None => none end).

Definition Exist (s : StateDB) (addr : Address) : StateDB * bool := ask s addr false (fun _ => true).
Definition Empty (s : StateDB) (addr : Address) : StateDB * bool := ask s addr true objEmpty.
Definition GetBalance (s : StateDB) (addr : Address) : StateDB * Z := ask s addr 0 (fun o => Balance (data o)).
Definition GetNonce (s : StateDB) (addr : Address) : StateDB * Z := ask s addr 0 (fun o => Nonce (data o)).
Definition GetStorageRoot (s : StateDB) (addr : Address) : StateDB * Hash := ask s addr zeroHash (fun o => Root (data o)).
Definition GetCodeHash (s : StateDB) (addr : Address) : StateDB * Hash := ask s addr zeroHash (fun o => BytesToHash (CodeHash (data o))).
Definition HasSelfDestructed (s : StateDB) (addr : Address) : StateDB * bool := ask s addr false selfDestructed.

Definition GetCode (s : StateDB) (addr : Address) : StateDB * option (list Z) :=
  match getStateObject s addr with (s, Some o) => objCode s o | (s, None) => (s, None) end.

Definition GetState (s : StateDB) (addr : Address) (key : Hash) : StateDB * Hash :=
  match getStateObject s addr with (s, Some o) => objGetState s o key | (s, None) => (s, zeroHash) end.

Definition GetCommittedState (s : StateDB) (addr : Address) (key : Hash) : StateDB * Hash :=
  match getStateObject s addr with (s, Some o) => objGetCommittedState s o key | (s, None) => (s, zeroHash) end.

Definition GetTransientState (s : StateDB) (addr : Address) (key : Hash) : Hash := transientGet (stTransient s) addr key.

(** ** Changes *)

Definition AddBalance (s : StateDB) (addr : Address) (amount : Z) : StateDB := let '(s, o) := GetOrNewStateObject s addr in objAddBalance o amount s.
Definition SubBalance (s : StateDB) (addr : Address) (amount : Z) : StateDB := let '(s, o) := GetOrNewStateObject s addr in objSubBalance o amount s.
Definition SetBalance (s : StateDB) (addr : Address) (amount : Z) : StateDB := let '(s, o) := GetOrNewStateObject s addr in objSetBalance o amount s.
Definition SetNonce (s : StateDB) (addr : Address) (nonce : Z) : StateDB := let '(s, o) := GetOrNewStateObject s addr in objSetNonce o nonce s.
Definition SetCode (s : StateDB) (addr : Address) (c : list Z) : StateDB := let '(s, o) := GetOrNewStateObject s addr in objSetCode s o (sha c) c.
Definition SetState (s : StateDB) (addr : Address) (key value : Hash) : StateDB := let '(s, o) := GetOrNewStateObject s addr in objSetState s o key value.

(** [SetStorage] for a list of slots, in the order of the map. *)
Definition SetStorage (s : StateDB) (addr : Address) (storage : list (Hash * Hash)) : StateDB :=
  let s := match stateObjectsDestruct s !! addr with Some _ => s | None => set_destruct (<[addr := None]> (stateObjectsDestruct s)) s end in
  let '(s, o) := GetOrNewStateObject s addr in
  foldl (fun s kv => match stateObjects s !! addr with Some o => objSetState s o kv.1 kv.2 | None => s end) s storage.

Definition SelfDestruct (s : StateDB) (addr : Address) : StateDB :=
  match getStateObject s addr with
  | (s, None) => s
  | (s, Some o) =>
      let s := log_ (selfDestructChange addr (selfDestructed o) (Balance (data o))) s in
      onObject addr (fun o => setBalance 0 (set_flags true (deleted o) (created o) o)) s
  end.

Definition Selfdestruct6780 (s : StateDB) (addr : Address) : StateDB :=
  match getStateObject s addr with
  | (s, None) => s
  | (s, Some o) => if created o then SelfDestruct s addr else s
  end.

Definition CreateAccount (s : StateDB) (addr : Address) : StateDB :=
  let '(s, _, prev) := createObject s addr in
  match prev with Some prev => onObject addr (setBalance (Balance (data prev))) s | None => s end.

Definition setTransientState (addr : Address) (key value : Hash) (s : StateDB) : StateDB := set_transient (transientSet (stTransient s) addr key value) s.

Definition SetTransientState (s : StateDB) (addr : Address) (key value : Hash) : StateDB :=
  let prev := GetTransientState s addr key in
  if decide (prev = value) then s else setTransientState addr key value (log_ (transientStorageChange addr key prev) s).

Definition AddLog (s : StateDB) (l : Log) : StateDB :=
  let s := log_ (addLogChange (thash s)) s in
  let l := mkLog (lAddress l) (lTopics l) (lData l) (lBlockNumber l) (thash s) (u64 (txIndex s)) (lBlockHash l) (logSize s) (lRemoved l) in
  set_logs (<[thash s := default [] (logs s !! thash s) ++ [l]]> (logs s)) (u64 (logSize s + 1)) s.

Definition AddPreimage (s : StateDB) (hash : Hash) (preimage : list Z) : StateDB :=
  match preimages s !! hash with
  | Some _ => s
  | None => set_preimages (<[hash := preimage]> (preimages s)) (log_ (addPreimageChange hash) s)
  end.

Definition AddRefund (s : StateDB) (gas : Z) : StateDB := let s := log_ (refundChange (refund s)) s in set_refund (u64 (refund s + gas)) s.

Definition SubRefund (s : StateDB) (gas : Z) : outcome StateDB :=
  let s := log_ (refundChange (refund s)) s in
  if decide (gas > refund s) then Panic else Done (set_refund (refund s - gas) s).

Definition AddAddressToAccessList (s : StateDB) (addr : Address) : StateDB :=
  match AddAddress (stAccess s) addr with
  | (al, true) => log_ (accessListAddAccountChange addr) (set_access al s)
  | (al, false) => set_access al s
  end.

Definition AddSlotToAccessList (s : StateDB) (addr : Address) (slot : Hash) : outcome StateDB :=
  '(al, (addrMod, slotMod)) ← AddSlot (stAccess s) addr slot;
  let s := set_access al s in
  let s := if (addrMod : bool) then log_ (accessListAddAccountChange addr) s else s in
  Done (if (slotMod : bool) then log_ (accessListAddSlotChange addr slot) s else s).

(** ** Snapshots *)

(** What an entry undoes; a nil object panics. *)
Definition revertObject (s : StateDB) (addr : Address) (f : stateObject -> stateObject) : outcome StateDB :=
  match getStateObject s addr with (s, Some _) => Done (onObject addr f s) | (_, None) => Panic end.

Definition restore {A : Type} `{Countable B} (k : B) (v : option A) (m : gmap B A) : gmap B A := match v with Some v => <[k := v]> m | None => m end.

Definition revertEntry (s : StateDB) (e : journalEntry) : outcome StateDB :=
  match e with
  | createObjectChange a => Done (set_marks (stateObjectsPending s) (stateObjectsDirty s ∖ {[a]}) (set_objects (delete a (stateObjects s)) s))
  | resetObjectChange _ prev prevdestruct prevAccount prevStorage prevAccountOrigin prevStorageOrigin =>
      let s := setStateObject prev s in
      let s := if prevdestruct then s else set_destruct (delete (address prev) (stateObjectsDestruct s)) s in
      let c := changes s in
      Done (set_changes (mkChanges (restore (addrHash prev) prevAccount (accounts c)) (restore (addrHash prev) prevStorage (storages c))
                           (restore (address prev) prevAccountOrigin (accountsOrigin c)) (restore (address prev) prevStorageOrigin (storagesOrigin c))) s)
  | selfDestructChange a prev prevbalance =>
      match getStateObject s a with
      | (s, Some _) => Done (onObject a (fun o => setBalance prevbalance (set_flags prev (deleted o) (created o) o)) s)
      | (s, None) => Done s
      end
  | balanceChange a prev => revertObject s a (setBalance prev)
  | nonceChange a prev => revertObject s a (setNonce prev)
  | storageChange a key prevalue => revertObject s a (setState key prevalue)
  | codeChange a prevcode prevhash => revertObject s a (setCode (BytesToHash prevhash) prevcode)
  | refundChange prev => Done (set_refund prev s)
  | addLogChange txhash =>
      let l := default [] (logs s !! txhash) in
      m ← (if decide (length l = 1%nat) then Done (delete txhash (logs s)) else l ← subslice l 0 (Z.of_nat (length l) - 1); Done (<[txhash := l]> (logs s)));
      Done (set_logs m (u64 (logSize s - 1)) s)
  | addPreimageChange hash => Done (set_preimages (delete hash (preimages s)) s)
  | touchChange _ => Done s
  | accessListAddAccountChange a => Done (set_access (DeleteAddress (stAccess s) a) s)
  | accessListAddSlotChange a slot => al ← DeleteSlot (stAccess s) a slot; Done (set_access al s)
  | transientStorageChange a key prevalue => Done (setTransientState a key prevalue s)
  end.

Definition undirty (addr : Address) (d : gmap Address Z) : gmap Address Z :=
  let n := default 0 (d !! addr) - 1 in if decide (n = 0) then delete addr d else <[addr := n]> d.

(** One round of the loop of [journal.revert]; the entries are cut at the end. *)
Definition undo (s : StateDB) (e : journalEntry) : outcome StateDB :=
  s ← revertEntry s e;
  Done match dirtied e with Some addr => set_journal (mkJournal (entries (stJournal s)) (undirty addr (dirties (stJournal s)))) s | None => s end.

Definition journalRevert (s : StateDB) (snapshot : nat) : outcome StateDB :=
  s ← fold_outcome undo (rev (drop snapshot (entries (stJournal s)))) s;
  l ← subslice (entries (stJournal s)) 0 (Z.of_nat snapshot);
  Done (set_journal (mkJournal l (dirties (stJournal s))) s).

Definition Snapshot (s : StateDB) : StateDB * Z :=
  let id := nextRevisionId s in
  (set_revisions (validRevisions s ++ [mkRevision id (length (entries (stJournal s)))]) (id + 1) s, id).

(** [sort.Search]. *)
Fixpoint searchLoop (fuel : nat) (f : nat -> bool) (i j : nat) : option nat :=
  if decide (i < j)%nat then
    match fuel with
    | O => None
    | S fuel => let h := ((i + j) / 2)%nat in if f h then searchLoop fuel f i h else searchLoop fuel f (S h) j
    end
  else Some i.

Definition Search_ (n : nat) (f : nat -> bool) : option nat := searchLoop n f 0 n.

Definition RevertToSnapshot (s : StateDB) (revid : Z) : outcome StateDB :=
  let revs := validRevisions s in
  match Search_ (length revs) (fun i => match revs !! i with Some r => bool_decide (revId r >= revid) | None => false end) with
  | None => Stuck
  | Some idx =>
      match revs !! idx with
      | Some r =>
          if decide (revId r <> revid) then Panic
          else s ← journalRevert s (journalIndex r); Done (set_revisions (take idx (validRevisions s)) (nextRevisionId s) s)
      | None => Panic
      end
  end.

(** ** The end of a transaction *)

Definition objFinalise (o : stateObject) : stateObject := set_storage (originStorage o) (dirtyStorage o ∪ pendingStorage o) ∅ o.

Definition finaliseOne (deleteEmptyObjects : bool) (s : StateDB) (addr : Address) : StateDB :=
  match stateObjects s !! addr with
  | None => s
  | Some obj =>
      let s :=
        if selfDestructed obj || (deleteEmptyObjects && objEmpty obj) then
          let s := markDestruct obj s in
          let s := set_changes (clearChanges obj (changes s)) s in
          onObject addr (fun o => set_flags (selfDestructed o) true false o) s
        else onObject addr (fun o => set_flags (selfDestructed o) (deleted o) false (objFinalise o)) s in
      set_marks ({[addr]} ∪ stateObjectsPending s) ({[addr]} ∪ stateObjectsDirty s) s
  end.

Definition clearJournalAndRefund (s : StateDB) : StateDB :=
  let s := match entries (stJournal s) with [] => s | _ => set_refund 0 (set_journal newJournal s) end in
  set_revisions [] (nextRevisionId s) s.

(** [order] is the order in which the map of dirty accounts is ranged over. *)
Definition Finalise (s : StateDB) (deleteEmptyObjects : bool) (order : list Address) : StateDB := clearJournalAndRefund (foldl (finaliseOne deleteEmptyObjects) s order).

(** ** The tries *)

(** The loop of [updateTrie] over the pending slots: state, object, its trie. *)
Definition rlpBytes (b : list Z) : list Z := match EncodeToBytes newEncBuffer TBytes (VBytes b) with Done (inr e) => e | _ => [] end.

Definition trackSlot (o : stateObject) (khash : Hash) (encoded : option (list Z)) (prev : Hash) (c : changeSet) : changeSet :=
  let storage := <[khash := encoded]> (default ∅ (storages c !! addrHash o)) in
  let old := default ∅ (storagesOrigin c !! address o) in
  let orig := match old !! khash with
              | Some _ => old
              | None => <[khash := if decide (prev = zeroHash) then None else Some (rlpBytes (TrimLeftZeroes prev))]> old
              end in
  mkChanges (accounts c) (<[addrHash o := storage]> (storages c)) (accountsOrigin c) (<[address o := orig]> (storagesOrigin c)).

Fixpoint updateSlots (s : StateDB) (o : stateObject) (tr : Trie) (order : list Hash) : StateDB * stateObject * Trie * option dbError :=
  match order with
  | [] => (s, o, tr, None)
  | key :: order =>
      let value := default zeroHash (pendingStorage o !! key) in
      let prev := default zeroHash (originStorage o !! key) in
      if decide (value = prev) then updateSlots s o tr order
      else
        let o := cacheSlot key value o in
        let trimmed := TrimLeftZeroes value in
        let '(tr, err) := if decide (value = zeroHash) then DeleteStorage tr (address o) key else UpdateStorage tr (address o) key trimmed in
        match err with
        | Some e => (setError e s, o, tr, Some e)
        | None =>
            let encoded := if decide (value = zeroHash) then None else Some (rlpBytes trimmed) in
            updateSlots (set_changes (trackSlot o (sha key) encoded prev (changes s)) s) o tr order
        end
  end.

(** [updateTrie] and [updateRoot] of the object under an address, with the order
    of the pending slots. *)
Definition updateRoot (s : StateDB) (addr : Address) (o : stateObject) (order : list Hash) : StateDB :=
  let o := objFinalise o in
  let put (o : stateObject) (s : StateDB) := set_objects (<[addr := o]> (stateObjects s)) s in
  let hash (o : stateObject) (tr : Trie) (s : StateDB) :=
    let '(tr, root) := TrieHash tr in
    put (set_trie tr (set_data (mkAccount (Nonce (data o)) (Balance (data o)) root (CodeHash (data o))) o)) s in
  if decide (pendingStorage o = ∅) then match trie o with None => put o s | Some tr => hash o tr s end
  else
    match getTrie s o with
    | (o, inl e) => put o (setError e s)
    | (o, inr tr) =>
        let '(s, o, tr, err) := updateSlots s o tr order in
        match err with
        | Some _ => put (set_trie tr o) s
        | None => hash (set_storage (originStorage o) ∅ (dirtyStorage o) o) tr s
        end
    end.

(** [UpdateContractCode] does nothing for the tries of the database. *)
Definition updateStateObject (s : StateDB) (obj : stateObject) : outcome StateDB :=
  let '(t, err) := UpdateAccount (stTrie s) (address obj) (data obj) in
  let s := set_stTrie t s in
  let s := match err with Some e => setError e s | None => s end in
  slim ← SlimAccountRLP (data obj);
  let c := changes s in
  orig ← match accountsOrigin c !! address obj with
         | Some _ => Done (accountsOrigin c)
         | None =>
             match origin obj with
             | None => Done (<[address obj := None]> (accountsOrigin c))
             | Some acct => old ← SlimAccountRLP acct; Done (<[address obj := Some old]> (accountsOrigin c))
             end
         end;
  Done (set_changes (mkChanges (<[addrHash obj := slim]> (accounts c)) (storages c) orig (storagesOrigin c)) s).

Definition deleteStateObject (s : StateDB) (obj : stateObject) : StateDB :=
  let '(t, err) := DeleteAccount (stTrie s) (address obj) in
  let s := set_stTrie t s in
  match err with Some e => setError e s | None => s end.

Definition rootOne (slotOrder : Address -> list Hash) (s : StateDB) (addr : Address) : outcome StateDB :=
  match stateObjects s !! addr with
  | None => Panic
  | Some obj => Done (if deleted obj then s else updateRoot s addr obj (slotOrder addr))
  end.

Definition writeOne (s : StateDB) (addr : Address) : outcome StateDB :=
  match stateObjects s !! addr with
  | None => Panic
  | Some obj => if deleted obj then Done (deleteStateObject s obj) else updateStateObject s obj
  end.

(** The orders are those of the four maps the code ranges over. *)
Record rangeOrders := mkOrders { ordDirties : list Address; ordRoots : list Address; ordSlots : Address -> list Hash; ordWrites : list Address }.

Definition IntermediateRoot (s : StateDB) (deleteEmptyObjects : bool) (ord : rangeOrders) : outcome (StateDB * Hash) :=
  let s := Finalise s deleteEmptyObjects (ordDirties ord) in
  s ← fold_outcome (rootOne (ordSlots ord)) (ordRoots ord) s;
  s ← fold_outcome writeOne (ordWrites ord) s;
  let s := set_marks ∅ (stateObjectsDirty s) s in
  let '(t, root) := TrieHash (stTrie s) in
  Done (set_stTrie t s, root).

(** ** The start of a transaction *)

Definition SetTxContext (s : StateDB) (hash : Hash) (ti : Z) : StateDB :=
  mkState (stTrie s) (snap s) (originalRoot s) (changes s) (stateObjects s) (stateObjectsPending s) (stateObjectsDirty s) (stateObjectsDestruct s) (dbErr s) (refund s) hash ti
    (logs s) (logSize s) (preimages s) (stAccess s) (stTransient s) (stJournal s) (validRevisions s) (nextRevisionId s).

Definition prepareTuple (al : accessList) (el : Address * list Hash) : outcome accessList :=
  fold_outcome (fun al key => '(al, _) ← AddSlot al el.1 key; Done al) el.2 (AddAddress al el.1).1.

Definition Prepare (s : StateDB) (IsBerlin IsShanghai : bool) (sender coinbase : Address) (dst : option Address) (precompiles : list Address) (list_ : list (Address * list Hash)) : outcome StateDB :=
  s ← (if IsBerlin then
         let al := (AddAddress newAccessList sender).1 in
         let al := match dst with Some dst => (AddAddress al dst).1 | None => al end in
         let al := foldl (fun al addr => (AddAddress al addr).1) al precompiles in
         al ← fold_outcome prepareTuple list_ al;
         Done (set_access (if IsShanghai then (AddAddress al coinbase).1 else al) s)
       else Done s);
  Done (set_transient ∅ s).

(** ** Copies *)

Definition deepCopy (o : stateObject) : stateObject :=
  mkObject (address o) (addrHash o) (origin o) (data o) (trie o) (code o) (originStorage o) (pendingStorage o) (dirtyStorage o) (dirtyCode o) (selfDestructed o) (deleted o) false.

(** The objects of the marked addresses are copied unless they are there; a
    missing object panics. *)
Definition copyMarked (s : StateDB) (objs : gmap Address stateObject) (addr : Address) : outcome (gmap Address stateObject) :=
  match objs !! addr with
  | Some _ => Done objs
  | None => match stateObjects s !! addr with Some o => Done (<[addr := deepCopy o]> objs) | None => Panic end
  end.

(** [Copy]: the maps of original values are copied from the new state, which has
    none. *)
Definition stateCopy (s : StateDB) : outcome StateDB :=
  let journaled := filter (fun kv => is_Some (dirties (stJournal s) !! kv.1)) (stateObjects s) in
  let objs := deepCopy <$> journaled in
  objs ← fold_outcome (copyMarked s) (elements (stateObjectsPending s)) objs;
  objs ← fold_outcome (copyMarked s) (elements (stateObjectsDirty s)) objs;
  Done (mkState (stTrie s) (snap s) (originalRoot s) (mkChanges (accounts (changes s)) (storages (changes s)) ∅ ∅) objs
          (dom journaled ∪ stateObjectsPending s) (dom journaled ∪ stateObjectsDirty s) (stateObjectsDestruct s) None (refund s) zeroHash 0
          (logs s) (logSize s) (preimages s) (stAccess s) (stTransient s) newJournal [] 0).
End State.
