(* ===== verification/StateRevert.v ===== *)
(** * Undoing changes of the state

    What [RevertToSnapshot] promises: the state is again the one [Snapshot] saw,
    for everything that can be asked of it.  The two need not be equal, since
    reading loads objects and slots, and an undone write leaves its old value in
    [dirtyStorage]; they are related by [same]. *)

From Stdlib Require Import Sorting.Sorted.
From S2P Require Import Prelude Bytes RlpRaw RlpEncode State.

Local Open Scope Z_scope.

(** What the tries promise: reading does not change what is read, and accounts
    have code hashes of 32 bytes. *)
Class StateReadLaws (DB : StateDatabase) := {
  GetAccount_stable t a b : (GetAccount (GetAccount t a).1 b).2 = (GetAccount t b).2;
  GetStorage_stable t a k b l : (GetStorage (GetStorage t a k).1 b l).2 = (GetStorage t b l).2;
  GetAccount_code t a acct : (GetAccount t a).2 = inr (Some acct) -> length (CodeHash acct) = 32%nat
}.

Definition snapOk (sn : option Snapshot_) : Prop :=
  match sn with Some sn => forall h acc, snapAccount sn h = inr (Some acc) -> CodeHash acc = [] \/ length (CodeHash acc) = 32%nat | None => True end.

Section Same.
Context {K : Keccak} {KL : KeccakLaws K} {DB : StateDatabase} {RL : StateReadLaws DB}.

(** ** What can be seen *)

Definition peek (s : StateDB) (a : Address) : option stateObject := (getDeletedStateObject s a).2.
Definition committedOf (s : StateDB) (o : stateObject) (key : Hash) : Hash := (objGetCommittedState s o key).2.
Definition stateOf (s : StateDB) (o : stateObject) (key : Hash) : Hash := (objGetState s o key).2.
Definition codeOf (s : StateDB) (o : stateObject) : option (list Z) := (objCode s o).2.

Record sameObject (s t : StateDB) (o p : stateObject) : Prop := {
  so_address : address o = address p; so_addrHash : addrHash o = addrHash p; so_origin : origin o = origin p; so_data : data o = data p;
  so_destructed : selfDestructed o = selfDestructed p; so_deleted : deleted o = deleted p; so_created : created o = created p;
  so_code : codeOf s o = codeOf t p; so_committed key : committedOf s o key = committedOf t p key; so_state key : stateOf s o key = stateOf t p key
}.

(** The number of changes of an account; that of the address 3 survives. *)
Definition dirtyCount (s : StateDB) (a : Address) : option Z := if decide (a = ripemd) then None else dirties (stJournal s) !! a.

Record same (s t : StateDB) : Prop := {
  sm_objects a : option_Forall2 (sameObject s t) (peek s a) (peek t a);
  sm_trie a : (GetAccount (stTrie s) a).2 = (GetAccount (stTrie t) a).2;
  sm_snap : snap s = snap t; sm_root : originalRoot s = originalRoot t; sm_changes : changes s = changes t;
  sm_pending : stateObjectsPending s = stateObjectsPending t; sm_dirty : stateObjectsDirty s = stateObjectsDirty t;
  sm_destruct : stateObjectsDestruct s = stateObjectsDestruct t; sm_refund : refund s = refund t; sm_thash : thash s = thash t; sm_txIndex : txIndex s = txIndex t;
  sm_logs h : default [] (logs s !! h) = default [] (logs t !! h); sm_logSize : logSize s = logSize t; sm_preimages : preimages s = preimages t;
  sm_access : stAccess s = stAccess t; sm_transient a key : transientGet (stTransient s) a key = transientGet (stTransient t) a key;
  sm_dirties a : dirtyCount s a = dirtyCount t a
}.

#[export] Instance sameObject_equiv s : Reflexive (sameObject s s).
Proof. by intros o. Qed.

#[export] Instance same_equivalence : Equivalence same.
Proof.
  split.
  - intros s. by split.
  - intros s t []. split; try done. intros a. specialize (sm_objects0 a). inversion sm_objects0 as [o p []|]; constructor. by split.
  - intros s t u [] []. split; try congruence.
    + intros a. specialize (sm_objects0 a). specialize (sm_objects1 a). inversion sm_objects0 as [o p [] Ho Hp|Ho Hp]; rewrite <-Hp in sm_objects1; inversion sm_objects1 as [p' q []|]; constructor.
      split; congruence.
Qed.

(** ** What reading changes *)

(** The state without the parts that reading changes. *)
Definition frame (t : Trie) (s : StateDB) : StateDB := set_objects ∅ (set_dbErr None (set_stTrie t s)).

Definition quiet (s s' : StateDB) : Prop := (forall t, frame t s = frame t s') /\ forall a, (GetAccount (stTrie s) a).2 = (GetAccount (stTrie s') a).2.

Lemma quiet_trans s1 s2 s3 : quiet s1 s2 -> quiet s2 s3 -> quiet s1 s3.
Proof. intros [H1 H2] [H3 H4]. split; intros; congruence. Qed.

Lemma quiet_same s s' : quiet s s' -> (forall a, option_Forall2 (sameObject s s') (peek s a) (peek s' a)) -> same s s'.
Proof.
  intros [HF HT] HO. pose proof (HF (stTrie s)) as H. split; [exact HO|exact HT|exact (f_equal snap H)|exact (f_equal originalRoot H)|exact (f_equal changes H)
    |exact (f_equal stateObjectsPending H)|exact (f_equal stateObjectsDirty H)|exact (f_equal stateObjectsDestruct H)|exact (f_equal refund H)|exact (f_equal thash H)|exact (f_equal txIndex H)
    | |exact (f_equal logSize H)|exact (f_equal preimages H)|exact (f_equal stAccess H)| |].
  - intros h. by rewrite (f_equal logs H : logs s = logs s').
  - intros a key. by rewrite (f_equal stTransient H : stTransient s = stTransient s').
  - intros a. unfold dirtyCount. by rewrite (f_equal stJournal H : stJournal s = stJournal s').
Qed.

Definition dbAccount (s : StateDB) (a : Address) : option StateAccount :=
  let fromTrie := match (GetAccount (stTrie s) a).2 with inr r => r | inl _ => None end in
  match snap s with
  | Some sn => match snapAccount sn (sha a) with inl _ => fromTrie | inr None => None | inr (Some acc) => Some (fromSlim acc) end
  | None => fromTrie
  end.

Lemma peek_eq s a : peek s a = match stateObjects s !! a with Some o => Some o | None => newObject a ∘ Some <$> dbAccount s a end.
Proof.
  unfold peek, getDeletedStateObject, dbAccount. destruct (stateObjects s !! a) as [o|]; [done|]. destruct (GetAccount (stTrie s) a) as [t r]. cbn [snd].
  destruct (snap s) as [sn|]; [destruct (snapAccount sn (sha a)) as [e|[acc|]]|]; try done; by destruct r as [e'|[acct|]].
Qed.

Lemma dbAccount_same s t a : snap s = snap t -> (GetAccount (stTrie s) a).2 = (GetAccount (stTrie t) a).2 -> dbAccount s a = dbAccount t a.
Proof. intros H1 H2. unfold dbAccount. by rewrite H1, H2. Qed.

Lemma peek_cong s t a : stateObjects s !! a = stateObjects t !! a -> snap s = snap t -> (GetAccount (stTrie s) a).2 = (GetAccount (stTrie t) a).2 -> peek s a = peek t a.
Proof. intros Ho Hs Ht. by rewrite !peek_eq, Ho, (dbAccount_same s t a Hs Ht). Qed.

Lemma quiet_peek s s' a : quiet s s' -> stateObjects s !! a = stateObjects s' !! a -> peek s a = peek s' a.
Proof. intros [HF HT] Ho. apply peek_cong; [done|exact (f_equal snap (HF (stTrie s)))|apply HT]. Qed.

(** Loading an object. *)
Lemma load_quiet s a : quiet s (getDeletedStateObject s a).1 /\ (forall b, peek (getDeletedStateObject s a).1 b = peek s b) /\
  forall o, peek s a = Some o -> stateObjects (getDeletedStateObject s a).1 !! a = Some o.
Proof.
  assert (HL : forall s1 acct, quiet s s1 -> stateObjects s1 = stateObjects s -> stateObjects s !! a = None -> peek s a = Some (newObject a (Some acct)) ->
    quiet s (setStateObject (newObject a (Some acct)) s1) /\ (forall b, peek (setStateObject (newObject a (Some acct)) s1) b = peek s b) /\
    forall o, peek s a = Some o -> stateObjects (setStateObject (newObject a (Some acct)) s1) !! a = Some o).
  { intros s1 acct Hq Ho Hn Hp. assert (quiet s (setStateObject (newObject a (Some acct)) s1)) as Hq' by (by eapply quiet_trans; [exact Hq|split]).
    split; [done|]. split; [|intros o; rewrite Hp; intros [= <-]; apply lookup_insert_eq]. intros b. destruct (decide (a = b)) as [<-|Hne].
    - rewrite Hp, peek_eq. cbn [setStateObject stateObjects set_objects]. by rewrite lookup_insert_eq.
    - symmetry. apply quiet_peek; [done|]. cbn [setStateObject stateObjects set_objects address newObject]. rewrite lookup_insert_ne by done. by rewrite Ho. }
  assert (HN : forall s1, quiet s s1 -> stateObjects s1 = stateObjects s -> peek s a = None ->
    quiet s s1 /\ (forall b, peek s1 b = peek s b) /\ forall o, peek s a = Some o -> stateObjects s1 !! a = Some o).
  { intros s1 Hq Ho Hp. split; [done|]. split; [|by rewrite Hp]. intros b. symmetry. apply quiet_peek; [done|by rewrite Ho]. }
  destruct (stateObjects s !! a) as [o|] eqn:Hl.
  { unfold getDeletedStateObject. rewrite Hl. cbn [fst]. split; [by split|]. split; [done|]. intros o'. rewrite peek_eq, Hl. by intros [= <-]. }
  assert (Hp : peek s a = newObject a ∘ Some <$> dbAccount s a) by (by rewrite peek_eq, Hl).
  unfold getDeletedStateObject. rewrite Hl. unfold dbAccount in Hp.
  destruct (GetAccount (stTrie s) a) as [t r] eqn:Ht. cbn [snd] in Hp. assert (quiet s (set_stTrie t s)) as Hq.
  { split; [done|]. intros b. cbn [stTrie set_stTrie]. pose proof (GetAccount_stable (stTrie s) a b) as HS. by rewrite Ht in HS. }
  destruct (snap s) as [sn|]; [destruct (snapAccount sn (sha a)) as [e|[acc|]]|].
  1,4: destruct r as [e'|[acct|]]; cbn [fst]; [apply HN; [|by unfold setError; destruct (dbErr _)|done]; eapply quiet_trans; [exact Hq|]; unfold setError; by destruct (dbErr _)
    |by apply HL|by apply HN].
  - by apply HL.
  - by apply HN.
Qed.

(** ** Reading an object *)

Definition trieSlot (s : StateDB) (o : stateObject) (key : Hash) : dbError + list Z :=
  match (getTrie s o).2 with inl e => inl e | inr t => (GetStorage t (address o) key).2 end.

Lemma committedOf_eq s o key : committedOf s o key =
  match pendingStorage o !! key with
  | Some v => v
  | None =>
      match originStorage o !! key with
      | Some v => v
      | None =>
          match stateObjectsDestruct s !! address o with
          | Some _ => zeroHash
          | None => match snapSlot s o key with Some (_, v) => v | None => match trieSlot s o key with inl _ => zeroHash | inr val => BytesToHash val end end
          end
      end
  end.
Proof.
  unfold committedOf, objGetCommittedState, trieSlot, getTrie. destruct (pendingStorage o !! key), (originStorage o !! key), (stateObjectsDestruct s !! address o); try done.
  destruct (snapSlot s o key) as [[e v]|]; [done|]. destruct (trie o) as [t|]; [|destruct (OpenStorageTrie _ _ _) as [e|t]; [done|]].
  all: cbn [address set_trie snd]; destruct (GetStorage t (address o) key) as [t' [e|val]]; done.
Qed.

Lemma stateOf_eq s o key : stateOf s o key = match dirtyStorage o !! key with Some v => v | None => committedOf s o key end.
Proof. unfold stateOf, objGetState. by destruct (dirtyStorage o !! key). Qed.

Lemma codeOf_eq s o : codeOf s o = match code o with Some c => Some c | None => if decide (CodeHash (data o) = EmptyCodeHash) then None else
  match ContractCode (address o) (BytesToHash (CodeHash (data o))) with inl _ => None | inr c => Some c end end.
Proof. unfold codeOf, objCode. destruct (code o); [done|]. case_decide; [done|]. by destruct (ContractCode _ _). Qed.

(** What the storage of an object depends on. *)
Lemma committedOf_cong s t o p key : snap s = snap t -> originalRoot s = originalRoot t -> stateObjectsDestruct s !! address o = stateObjectsDestruct t !! address o ->
  address o = address p -> addrHash o = addrHash p -> Root (data o) = Root (data p) -> pendingStorage o = pendingStorage p -> originStorage o = originStorage p -> trie o = trie p ->
  committedOf s o key = committedOf t p key.
Proof.
  intros Hs Hr Hd Ha Hh HR Hp Ho Ht. rewrite !committedOf_eq, Hp, Ho, Hd, Ha. unfold snapSlot, trieSlot, getTrie. rewrite Hs, Hh, Ht, Ha, Hr, HR.
  by destruct (trie p); [|destruct (OpenStorageTrie _ _ _)].
Qed.

(** States in which objects read the same. *)
Definition sameEnv (s t : StateDB) : Prop := snap s = snap t /\ originalRoot s = originalRoot t /\ stateObjectsDestruct s = stateObjectsDestruct t.

Lemma sameObject_env s t s' t' o p : sameEnv s s' -> sameEnv t t' -> sameObject s t o p -> sameObject s' t' o p.
Proof.
  intros (H1 & H2 & H3) (H4 & H5 & H6) []. assert (HC : forall key, committedOf s' o key = committedOf t' p key).
  { intros key. rewrite <-(committedOf_cong s s' o o), <-(committedOf_cong t t' p p); congruence. }
  split; try done; [by rewrite !codeOf_eq in *|]. intros key. specialize (so_state0 key). rewrite !stateOf_eq in *. specialize (HC key). specialize (so_committed0 key).
  rewrite <-(committedOf_cong s s' o o), <-(committedOf_cong t t' p p); congruence.
Qed.

Lemma sameObject_self s t o : sameEnv s t -> sameObject s t o o.
Proof. intros HE. eapply (sameObject_env s s s t o o); [by split|done|done]. Qed.

Lemma quiet_env s s' : quiet s s' -> sameEnv s s'.
Proof. intros [HF _]. pose proof (HF (stTrie s)) as H. split; [exact (f_equal snap H)|]. split; [exact (f_equal originalRoot H)|exact (f_equal stateObjectsDestruct H)]. Qed.

Lemma load_same s a : same s (getDeletedStateObject s a).1.
Proof.
  destruct (load_quiet s a) as (Hq & Hp & _). apply quiet_same; [done|]. intros b. rewrite Hp. destruct (peek s b) as [o|]; constructor. by apply sameObject_self, quiet_env.
Qed.

(** Putting back an object that reads the same. *)
Lemma put_quiet s s1 a o o' : quiet s s1 -> stateObjects s1 = stateObjects s -> peek s a = Some o -> address o' = a -> sameObject s s o o' ->
  quiet s (setStateObject o' s1) /\ same s (setStateObject o' s1) /\ stateObjects (setStateObject o' s1) !! a = Some o'.
Proof.
  intros Hq Ho Hp Ha Hs. assert (quiet s (setStateObject o' s1)) as Hq' by (by eapply quiet_trans; [exact Hq|split]). split; [done|]. split; [|rewrite <-Ha; apply lookup_insert_eq].
  apply quiet_same; [done|]. intros b. destruct (decide (b = a)) as [->|Hne].
  - rewrite Hp, (peek_eq (setStateObject _ _)). cbn [setStateObject stateObjects set_objects]. rewrite Ha, lookup_insert_eq. constructor.
    eapply sameObject_env; [done|by apply quiet_env|done].
  - rewrite <-(quiet_peek s _ b Hq'); [|cbn [setStateObject stateObjects set_objects]; rewrite Ha, lookup_insert_ne by done; by rewrite Ho].
    destruct (peek s b); constructor. by apply sameObject_self, quiet_env.
Qed.

(** A step that only reads. *)
Definition reads (s s' : StateDB) : Prop := quiet s s' /\ same s s' /\ forall a, is_Some (stateObjects s !! a) -> is_Some (stateObjects s' !! a).

Lemma reads_refl s : reads s s.
Proof. by split; [split|split]. Qed.

Lemma reads_trans s1 s2 s3 : reads s1 s2 -> reads s2 s3 -> reads s1 s3.
Proof. intros (H1 & H2 & H3) (H4 & H5 & H6). split; [by eapply quiet_trans|]. split; [by etransitivity|auto]. Qed.

Lemma setError_reads e s : reads s (setError e s).
Proof.
  assert (quiet s (setError e s)) as Hq by (unfold setError; destruct (dbErr s); by split). assert (stateObjects (setError e s) = stateObjects s) as Ho by (unfold setError; by destruct (dbErr s)).
  split; [done|]. split; [|by rewrite Ho]. apply quiet_same; [done|]. intros a. rewrite (quiet_peek s _ a Hq) by (by rewrite Ho). destruct (peek _ a); constructor. by apply sameObject_self, quiet_env.
Qed.

Lemma live_peek s a o : stateObjects s !! a = Some o -> peek s a = Some o.
Proof. intros H. by rewrite peek_eq, H. Qed.

Lemma put_reads s a o o' : stateObjects s !! a = Some o -> address o' = a -> sameObject s s o o' -> reads s (setStateObject o' s).
Proof.
  intros Hl Ha Hs. destruct (put_quiet s s a o o') as (H1 & H2 & H3); [by split|done|by apply live_peek|done|done|]. split; [done|]. split; [done|]. intros b Hb.
  cbn [setStateObject stateObjects set_objects]. destruct (decide (address o' = b)) as [<-|Hne]; [rewrite lookup_insert_eq; eauto|by rewrite lookup_insert_ne].
Qed.

Lemma load_reads s a : reads s (getDeletedStateObject s a).1.
Proof.
  destruct (load_quiet s a) as (Hq & _ & Hl). split; [done|]. split; [apply load_same|]. intros b [o Hb]. destruct (decide (a = b)) as [<-|Hne]; [exists o; apply Hl; by apply live_peek|].
  unfold getDeletedStateObject. destruct (stateObjects s !! a); [by exists o|]. destruct (GetAccount _ _) as [t r].
  assert (HL : forall s1 acct, stateObjects s1 = stateObjects s -> is_Some (stateObjects (setStateObject (newObject a (Some acct)) s1) !! b)).
  { intros s1 acct E. cbn [setStateObject stateObjects set_objects address newObject]. rewrite lookup_insert_ne by done. rewrite E. by exists o. }
  destruct (snap s) as [sn|]; [destruct (snapAccount sn (sha a)) as [e|[acc|]]|].
  1,4: destruct r as [e'|[acct|]]; cbn [fst]; [unfold setError; destruct (dbErr _); by exists o|by apply HL|by exists o].
  - by apply HL.
  - by exists o.
Qed.

(** A trie that answers as the trie of the object does. *)
Lemma set_trie_same s o t : (forall key, match (getTrie s o).2 with inl _ => False | inr t' => (GetStorage t (address o) key).2 = (GetStorage t' (address o) key).2 end) -> sameObject s s o (set_trie t o).
Proof.
  intros HT. assert (HC : forall key, committedOf s o key = committedOf s (set_trie t o) key).
  { intros key. rewrite !committedOf_eq. change (snapSlot s (set_trie t o) key) with (snapSlot s o key). specialize (HT key). unfold trieSlot.
    cbn [getTrie trie set_trie snd address pendingStorage originStorage]. destruct (getTrie s o) as [o' [e|t']]; [done|]. cbn [snd] in *. by rewrite HT. }
  split; try done. intros key. rewrite !stateOf_eq, <-HC. done.
Qed.

Lemma cacheSlot_same s o key value : originStorage o !! key = None -> committedOf s o key = value \/ is_Some (pendingStorage o !! key) -> sameObject s s o (cacheSlot key value o).
Proof.
  intros Hn Hv. assert (HC : forall k, committedOf s o k = committedOf s (cacheSlot key value o) k).
  { intros k. rewrite !committedOf_eq. change (snapSlot s (cacheSlot key value o) k) with (snapSlot s o k).
    assert (trieSlot s (cacheSlot key value o) k = trieSlot s o k) as -> by (unfold trieSlot, getTrie; cbn [cacheSlot set_storage trie data address]; by destruct (trie o); [|destruct (OpenStorageTrie _ _ _)]).
    cbn [cacheSlot set_storage pendingStorage originStorage address]. destruct (pendingStorage o !! k) as [v|] eqn:Hp; [done|]. destruct (decide (key = k)) as [<-|Hne].
    - rewrite Hn, lookup_insert_eq. destruct Hv as [<-|[v Hv]]; [|congruence]. by rewrite committedOf_eq, Hp, Hn.
    - by rewrite lookup_insert_ne. }
  split; try done. intros k. rewrite !stateOf_eq, <-HC. done.
Qed.

Lemma sameObject_trans s t u o p q : sameObject s t o p -> sameObject t u p q -> sameObject s u o q.
Proof. intros [] []. split; congruence. Qed.

Lemma committed_reads s a o key : stateObjects s !! a = Some o -> address o = a -> reads s (objGetCommittedState s o key).1.
Proof.
  intros Hl Ha. pose proof (eq_refl (committedOf s o key)) as HC. unfold committedOf at 1 in HC. unfold objGetCommittedState in *.
  destruct (pendingStorage o !! key) eqn:Hp; [apply reads_refl|]. destruct (originStorage o !! key) eqn:Ho; [apply reads_refl|].
  destruct (stateObjectsDestruct s !! address o); [apply reads_refl|]. destruct (snapSlot s o key) as [[e v]|].
  { cbn [fst snd] in *. assert (HR : reads s (match e with Some e => setError e s | None => s end)) by (destruct e; [apply setError_reads|apply reads_refl]). eapply reads_trans; [exact HR|].
    destruct HR as (Hq & _ & _). eapply (put_reads _ a o); [|done|].
    - destruct e as [e|]; [unfold setError; destruct (dbErr s)|]; exact Hl.
    - eapply sameObject_env; [by apply quiet_env|by apply quiet_env|]. apply cacheSlot_same; [done|by left]. }
  destruct (getTrie s o) as [o' [e|t]] eqn:Hg; [apply setError_reads|].
  assert (o' = set_trie t o /\ address o' = a /\ (getTrie s o).2 = inr t) as (-> & _ & Hg2).
  { rewrite Hg. unfold getTrie in Hg. destruct (trie o) eqn:Ht; [injection Hg as <- <-; destruct o; cbn in *; by rewrite Ht|].
    destruct (OpenStorageTrie _ _ _); [done|]. by injection Hg as <- <-. }
  cbn [address set_trie] in *. destruct (GetStorage t (address o) key) as [t' r] eqn:HG.
  assert (HS : sameObject s s o (set_trie t' (set_trie t o))).
  { change (set_trie t' (set_trie t o)) with (set_trie t' o). apply set_trie_same. intros k. rewrite Hg2. pose proof (GetStorage_stable t (address o) key (address o) k) as HS. by rewrite HG in HS. }
  destruct r as [e|val]; cbn [fst snd] in *.
  - eapply reads_trans; [|apply setError_reads]. eapply put_reads; [exact Hl|exact Ha|exact HS].
  - eapply put_reads; [exact Hl|exact Ha|]. eapply sameObject_trans; [exact HS|]. apply cacheSlot_same; [done|]. left. by rewrite <-(so_committed _ _ _ _ HS key), <-HC.
Qed.

Lemma state_reads s a o key : stateObjects s !! a = Some o -> address o = a -> reads s (objGetState s o key).1.
Proof. intros Hl Ha. unfold objGetState. destruct (dirtyStorage o !! key); [apply reads_refl|by eapply committed_reads]. Qed.

Lemma onObject_put a f s o : stateObjects s !! a = Some o -> address (f o) = a -> onObject a f s = setStateObject (f o) s.
Proof. intros Hl Ha. unfold onObject, setStateObject. f_equal. rewrite Ha. apply map_eq. intros b. destruct (decide (a = b)) as [<-|Hne].
  - by rewrite lookup_alter_eq, lookup_insert_eq, Hl.
  - by rewrite lookup_alter_ne, lookup_insert_ne.
Qed.

Lemma code_reads s a o : stateObjects s !! a = Some o -> address o = a -> reads s (objCode s o).1.
Proof.
  intros Hl Ha. pose proof (codeOf_eq s o) as HC. unfold objCode. destruct (code o) eqn:Hc; [apply reads_refl|]. case_decide as He; [apply reads_refl|].
  destruct (ContractCode _ _) as [e|c]; [apply setError_reads|]. cbn [fst]. rewrite Ha, (onObject_put a (fun o => set_code (Some c) (dirtyCode o) o) s o Hl Ha).
  eapply put_reads; [done|done|]. assert (HK : forall key, committedOf s o key = committedOf s (set_code (Some c) (dirtyCode o) o) key) by (intros key; by apply committedOf_cong).
  split; try done. intros key. by rewrite !stateOf_eq, HK.
Qed.

(** ** Undoing respects what can be seen *)

(** Changes of an object that see only what can be seen. *)
Definition respects (f : stateObject -> stateObject) : Prop := forall s t o p, sameObject s t o p -> sameObject s t (f o) (f p).

(** Changes that keep what the committed storage depends on. *)
Definition keepsStorage (f : stateObject -> stateObject) : Prop := forall o, address (f o) = address o /\ addrHash (f o) = addrHash o /\ Root (data (f o)) = Root (data o) /\
  pendingStorage (f o) = pendingStorage o /\ originStorage (f o) = originStorage o /\ trie (f o) = trie o.

Lemma keepsStorage_committed f s o key : keepsStorage f -> committedOf s (f o) key = committedOf s o key.
Proof. intros Hf. destruct (Hf o) as (H1 & H2 & H3 & H4 & H5 & H6). apply committedOf_cong; congruence. Qed.

Lemma keepsStorage_state f s o key : keepsStorage f -> dirtyStorage (f o) = dirtyStorage o -> stateOf s (f o) key = stateOf s o key.
Proof. intros Hf Hd. by rewrite !stateOf_eq, Hd, keepsStorage_committed. Qed.

Lemma setBalance_respects v : respects (setBalance v).
Proof.
  intros s t o p []. split; try done; [by cbn; rewrite so_data0|..]; intros key.
  - by rewrite !keepsStorage_committed.
  - by rewrite !keepsStorage_state.
Qed.

Lemma setNonce_respects v : respects (setNonce v).
Proof.
  intros s t o p []. split; try done; [by cbn; rewrite so_data0|..]; intros key.
  - by rewrite !keepsStorage_committed.
  - by rewrite !keepsStorage_state.
Qed.

Lemma setCode_respects h c : respects (setCode h c).
Proof.
  intros s t o p []. split; try done; [by cbn; rewrite so_data0|rewrite !codeOf_eq; cbn; by rewrite so_address0|..]; intros key.
  - by rewrite !keepsStorage_committed.
  - by rewrite !keepsStorage_state.
Qed.

Lemma destruct_respects b v : respects (fun o => setBalance v (set_flags b (deleted o) (created o) o)).
Proof.
  intros s t o p []. split; try done; [by cbn; rewrite so_data0|..]; intros key.
  - by rewrite !(keepsStorage_committed (fun o => setBalance v (set_flags b (deleted o) (created o) o))).
  - by rewrite !(keepsStorage_state (fun o => setBalance v (set_flags b (deleted o) (created o) o))).
Qed.

Lemma stateOf_setState s o key v k : stateOf s (setState key v o) k = if decide (k = key) then v else stateOf s o k.
Proof.
  rewrite !stateOf_eq, keepsStorage_committed by done. cbn [setState set_storage dirtyStorage]. destruct (decide (k = key)) as [->|Hne]; [by rewrite lookup_insert_eq|by rewrite lookup_insert_ne].
Qed.

Lemma setState_respects key v : respects (setState key v).
Proof.
  intros s t o p []. split; try done; intros k.
  - by rewrite !keepsStorage_committed.
  - rewrite !stateOf_setState. by case_decide.
Qed.

(** *** States *)

Lemma sameEnv_of s t : same s t -> sameEnv s t.
Proof. by intros []. Qed.

Lemma same_objects s t m n : same s t -> (forall a, option_Forall2 (sameObject s t) (peek (set_objects m s) a) (peek (set_objects n t) a)) -> same (set_objects m s) (set_objects n t).
Proof. intros [] HO. split; try done. intros a. specialize (HO a). destruct HO; constructor. eapply (sameObject_env s t); [by split|by split|done]. Qed.

Lemma peek_onObject s a f b : is_Some (stateObjects s !! a) -> peek (onObject a f s) b = if decide (b = a) then f <$> peek s b else peek s b.
Proof.
  intros [o Ho]. rewrite !peek_eq. cbn [onObject stateObjects set_objects]. destruct (decide (b = a)) as [->|Hne]; [by rewrite lookup_alter_eq, Ho|]. by rewrite lookup_alter_ne.
Qed.

Lemma onObject_same s t a f : same s t -> is_Some (stateObjects s !! a) -> is_Some (stateObjects t !! a) -> respects f -> same (onObject a f s) (onObject a f t).
Proof.
  intros HS H1 H2 Hf. apply same_objects; [done|]. intros b. change (set_objects (alter f a (stateObjects s)) s) with (onObject a f s).
  change (set_objects (alter f a (stateObjects t)) t) with (onObject a f t). rewrite !peek_onObject by done. pose proof (sm_objects s t HS b) as HO. case_decide; [|done].
  destruct HO; constructor. by apply Hf.
Qed.

(** Getting an object in two states that look the same. *)
Lemma getDeleted_same s t a : same s t -> same (getDeletedStateObject s a).1 (getDeletedStateObject t a).1.
Proof. intros HS. rewrite <-(load_same s a), <-(load_same t a). done. Qed.

Lemma getStateObject_cases s a : (exists o, peek s a = Some o /\ deleted o = false /\ getStateObject s a = ((getDeletedStateObject s a).1, Some o)) \/
  (match peek s a with Some o => deleted o = true | None => True end /\ getStateObject s a = ((getDeletedStateObject s a).1, None)).
Proof.
  unfold getStateObject, peek. destruct (getDeletedStateObject s a) as [s' [o|]]; cbn [fst snd]; [|by right]. destruct (deleted o) eqn:Hd; [by right|left]. by exists o.
Qed.

Lemma getStateObject_live s a o : peek s a = Some o -> stateObjects (getDeletedStateObject s a).1 !! a = Some o.
Proof. intros H. by apply load_quiet. Qed.

Lemma getStateObject_same s t a : same s t ->
  (exists o p, sameObject s t o p /\ peek s a = Some o /\ peek t a = Some p /\ deleted o = false /\ getStateObject s a = ((getDeletedStateObject s a).1, Some o) /\ getStateObject t a = ((getDeletedStateObject t a).1, Some p)) \/
  (getStateObject s a = ((getDeletedStateObject s a).1, None) /\ getStateObject t a = ((getDeletedStateObject t a).1, None)).
Proof.
  intros HS. pose proof (sm_objects s t HS a) as HO. destruct (getStateObject_cases s a) as [(o & Hp & Hd & H)|[Hp H]], (getStateObject_cases t a) as [(o' & Hp' & Hd' & H')|[Hp' H']].
  - left. exists o, o'. rewrite Hp, Hp' in HO. by inversion HO.
  - exfalso. rewrite Hp in HO. inversion HO as [? p Hop Ho Hp2|]; subst. rewrite <-Hp2 in Hp'. destruct Hop. congruence.
  - exfalso. rewrite Hp' in HO. inversion HO as [p ? Hop Hp2 Ho|]; subst. rewrite <-Hp2 in Hp. destruct Hop. congruence.
  - by right.
Qed.

(** *** Well-formed states *)

Definition objOk (a : Address) (o : stateObject) : Prop := address o = a /\ addrHash o = sha a /\ length (CodeHash (data o)) = 32%nat.

(** The objects that are to be written. *)
Definition marks (s : StateDB) : gset Address := stateObjectsPending s ∪ stateObjectsDirty s.

Definition entryOk (marked : gset Address) (e : journalEntry) : Prop :=
  match e with createObjectChange a => a ∉ marked | resetObjectChange a prev _ _ _ _ _ => objOk a prev | _ => True end.

Definition marksOk (s : StateDB) : Prop := (forall a, a ∈ marks s -> is_Some (stateObjects s !! a)) /\ Forall (entryOk (marks s)) (entries (stJournal s)).

Record wf (s : StateDB) : Prop := { wf_snap : snapOk (snap s); wf_obj a o : peek s a = Some o -> objOk a o; wf_marks : marksOk s }.

Lemma marksOk_mono s s' : marks s' = marks s -> entries (stJournal s') = entries (stJournal s) -> (forall a, is_Some (stateObjects s !! a) -> is_Some (stateObjects s' !! a)) -> marksOk s -> marksOk s'.
Proof. intros H1 H2 H3 [H4 H5]. unfold marksOk. rewrite H1, H2. split; auto. Qed.

Lemma wf_reads s t : reads s t -> wf s -> wf t.
Proof.
  intros ((HF & _) & HS & HL) Hw. pose proof (HF (stTrie s)) as H. split; [rewrite <-(sm_snap s t HS); apply Hw| |].
  - intros a p Hp. pose proof (sm_objects s t HS a) as HO. rewrite Hp in HO. inversion HO as [o ? [] Ho|]; subst. destruct (wf_obj s Hw a o) as (H1 & H2 & H3); [done|]. repeat split; congruence.
  - eapply (marksOk_mono s t); [|symmetry; exact (f_equal entries (f_equal stJournal H))|done|apply Hw]. unfold marks. by rewrite (sm_pending s t HS), (sm_dirty s t HS).
Qed.

Lemma wf_live s a o : wf s -> stateObjects s !! a = Some o -> objOk a o.
Proof. intros Hw Ho. apply (wf_obj s Hw). by apply live_peek. Qed.

Definition outcomeRel {A} (R : A -> A -> Prop) (x y : outcome A) : Prop :=
  match x, y with Done a, Done b => R a b | Panic, Panic => True | Stuck, Stuck => True | _, _ => False end.

Lemma revertObject_same s t a f : same s t -> respects f -> outcomeRel same (revertObject s a f) (revertObject t a f).
Proof.
  intros HS Hf. unfold revertObject. destruct (getStateObject_same s t a HS) as [(o & p & Hop & Ho & Hp & Hd & -> & ->)|[-> ->]]; [|done]. cbn [outcomeRel].
  apply onObject_same; [by apply getDeleted_same|exists o; by apply getStateObject_live|exists p; by apply getStateObject_live|done].
Qed.

(** An object put under an address, the same in both states. *)
Lemma setStateObject_same s t o : same s t -> same (setStateObject o s) (setStateObject o t).
Proof.
  intros HS. apply same_objects; [done|]. intros b. rewrite !peek_eq. cbn [stateObjects set_objects]. destruct (decide (address o = b)) as [<-|Hne].
  - rewrite !lookup_insert_eq. constructor. by apply sameObject_self, sameEnv_of.
  - rewrite !lookup_insert_ne by done. pose proof (sm_objects s t HS b) as HO. by rewrite !peek_eq in HO.
Qed.

Lemma committedOf_destruct s o d key : d !! address o = stateObjectsDestruct s !! address o -> committedOf (set_destruct d s) o key = committedOf s o key.
Proof. intros Hd. by apply committedOf_cong. Qed.

(** Forgetting a destruction, the same in both states, of an object that is the
    same in both. *)
Lemma undestruct_same s t o a : same s t -> wf s -> peek s a = Some o -> peek t a = Some o ->
  same (set_destruct (delete a (stateObjectsDestruct s)) s) (set_destruct (delete a (stateObjectsDestruct t)) t).
Proof.
  intros HS Hw Ho Ho'. pose proof HS as []. split; try done; [|cbn; by f_equal]. intros b.
  rewrite (peek_cong (set_destruct (delete a (stateObjectsDestruct s)) s) s b), (peek_cong (set_destruct (delete a (stateObjectsDestruct t)) t) t b) by done.
  destruct (decide (b = a)) as [->|Hne].
  - rewrite Ho, Ho'. constructor. apply sameObject_self. split; [done|]. split; [done|]. cbn. by f_equal.
  - pose proof (sm_objects0 b) as HO. destruct (peek s b) as [x|] eqn:Hx; inversion HO as [x' y Hxy Hx' Hy|Hn Hn']; constructor. destruct (wf_obj s Hw b x Hx) as [Hax _].
    assert (HC : forall u z key, address z = b -> committedOf (set_destruct (delete a (stateObjectsDestruct u)) u) z key = committedOf u z key).
    { intros u z key Hz. apply committedOf_destruct. rewrite Hz. by rewrite lookup_delete_ne. }
    pose proof Hxy as []. split; try done; [by rewrite !codeOf_eq in *|..]; intros key.
    + rewrite !HC; [done|congruence|done].
    + specialize (so_state0 key). rewrite !stateOf_eq in *. rewrite !HC; [done|congruence|done].
Qed.

(** The objects look the same after changes to other parts. *)
Definition sameReads (s s' : StateDB) : Prop := stateObjects s' = stateObjects s /\ stTrie s' = stTrie s /\ sameEnv s s'.

Lemma objects_frame s t s' t' : same s t -> sameReads s s' -> sameReads t t' -> forall a, option_Forall2 (sameObject s' t') (peek s' a) (peek t' a).
Proof.
  intros HS (H1 & H2 & H3) (H4 & H5 & H6) a. rewrite (peek_cong s' s a), (peek_cong t' t a); [|by rewrite H4|by destruct H6|by rewrite H5|by rewrite H1|by destruct H3|by rewrite H2].
  destruct (sm_objects s t HS a); constructor. by eapply sameObject_env.
Qed.

Lemma same_undirty s t a : same s t -> same (set_journal (mkJournal (entries (stJournal s)) (undirty a (dirties (stJournal s)))) s)
  (set_journal (mkJournal (entries (stJournal t)) (undirty a (dirties (stJournal t)))) t).
Proof.
  intros HS. pose proof HS as []. split; try done; [by eapply objects_frame|]. intros b. specialize (sm_dirties0 b). unfold dirtyCount in *. destruct (decide (b = ripemd)); [done|]. cbn [stJournal set_journal dirties]. unfold undirty.
  destruct (decide (a = b)) as [->|Hne]; [rewrite sm_dirties0; case_decide; by rewrite ?lookup_delete_eq, ?lookup_insert_eq|].
  case_decide; case_decide; by rewrite ?lookup_delete_ne, ?lookup_insert_ne by done.
Qed.

Lemma addLog_same s t txhash : same s t -> outcomeRel same (revertEntry s (addLogChange txhash)) (revertEntry t (addLogChange txhash)).
Proof.
  intros HS. pose proof HS as []. cbn [revertEntry]. rewrite (sm_logs0 txhash). set (l := default [] (logs t !! txhash)).
  assert (HI : forall m n, (forall h, default [] (m !! h) = default [] (n !! h)) -> same (set_logs m (u64 (logSize s - 1)) s) (set_logs n (u64 (logSize t - 1)) t)).
  { intros m n Hm. split; try done; [by eapply objects_frame|]. cbn. congruence. }
  case_decide.
  - apply HI. intros h. destruct (decide (txhash = h)) as [->|Hne]; [by rewrite !lookup_delete_eq|by rewrite !lookup_delete_ne].
  - destruct (subslice l 0 (Z.of_nat (length l) - 1)) as [l'| |]; [|done..]. apply HI. intros h.
    destruct (decide (txhash = h)) as [->|Hne]; [by rewrite !lookup_insert_eq|by rewrite !lookup_insert_ne].
Qed.

Lemma transientGet_set tr a key v b k : transientGet (transientSet tr a key v) b k = if decide (b = a /\ k = key) then v else transientGet tr b k.
Proof.
  unfold transientGet, transientSet. destruct (decide (a = b)) as [<-|Hne]; [|rewrite lookup_insert_ne, decide_False by naive_solver; done].
  rewrite lookup_insert_eq. destruct (decide (key = k)) as [<-|Hk]; [by rewrite lookup_insert_eq, decide_True|]. rewrite lookup_insert_ne, decide_False by naive_solver. by destruct (tr !! a).
Qed.

Lemma peek_put o s b : peek (setStateObject o s) b = if decide (b = address o) then Some o else peek s b.
Proof.
  case_decide as Hb; [rewrite peek_eq; cbn; by rewrite Hb, lookup_insert_eq|]. apply peek_cong; try done. cbn. by rewrite lookup_insert_ne.
Qed.

Lemma wf_put s a o : wf s -> objOk a o -> wf (setStateObject o s).
Proof.
  intros Hw Ho. pose proof Ho as (Ha & _ & _). split; [apply Hw| |].
  - intros b p. rewrite peek_put, Ha. case_decide; [intros [= <-]; congruence|]. apply (wf_obj s Hw).
  - eapply (marksOk_mono s); [done|done| |apply Hw]. intros b Hb. cbn. destruct (decide (address o = b)) as [<-|Hne]; [rewrite lookup_insert_eq; eauto|by rewrite lookup_insert_ne].
Qed.

Lemma reset_same s t a prev b c1 c2 c3 c4 : same s t -> wf s -> objOk a prev ->
  outcomeRel same (revertEntry s (resetObjectChange a prev b c1 c2 c3 c4)) (revertEntry t (resetObjectChange a prev b c1 c2 c3 c4)).
Proof.
  intros HS Hw (Ha & Hh & Hc). cbn [revertEntry outcomeRel]. pose proof (setStateObject_same s t prev HS) as HS1.
  assert (Hp : forall u, peek (setStateObject prev u) (address prev) = Some prev) by (intros u; rewrite peek_eq; cbn; by rewrite lookup_insert_eq).
  assert (Hw1 : wf (setStateObject prev s)).
  { by eapply wf_put. }
  set (s1 := setStateObject prev s) in *. set (t1 := setStateObject prev t) in *.
  assert (HS2 : same (if b then s1 else set_destruct (delete (address prev) (stateObjectsDestruct s1)) s1) (if b then t1 else set_destruct (delete (address prev) (stateObjectsDestruct t1)) t1)).
  { destruct b; [done|]. eapply undestruct_same; [done|done|exact (Hp s)|exact (Hp t)]. }
  set (s2 := if b then s1 else _) in *. set (t2 := if b then t1 else _) in *. pose proof HS2 as []. split; try done; [by eapply objects_frame|]. cbn. by rewrite sm_changes0.
Qed.

Lemma create_same s t a : same s t -> outcomeRel same (revertEntry s (createObjectChange a)) (revertEntry t (createObjectChange a)).
Proof.
  intros HS. cbn [revertEntry outcomeRel]. assert (HS1 : same (set_objects (delete a (stateObjects s)) s) (set_objects (delete a (stateObjects t)) t)).
  { apply same_objects; [done|]. intros b. pose proof (sm_objects s t HS b) as HO. rewrite !peek_eq in *. cbn [stateObjects set_objects]. destruct (decide (a = b)) as [<-|Hne].
    - rewrite !lookup_delete_eq. rewrite (dbAccount_same (set_objects (delete a (stateObjects s)) s) (set_objects (delete a (stateObjects t)) t) a); [|by destruct HS..].
      destruct (dbAccount (set_objects (delete a (stateObjects t)) t) a); constructor. by apply sameObject_self, sameEnv_of.
    - by rewrite !lookup_delete_ne. }
  pose proof HS1 as []. split; try done; [by eapply objects_frame|]. cbn in *. by rewrite sm_dirty0.
Qed.

Lemma revertEntry_same s t e : same s t -> wf s -> entryOk (marks s) e -> outcomeRel same (revertEntry s e) (revertEntry t e).
Proof.
  intros HS Hw He. pose proof HS as []. destruct e as [a|a prev b c1 c2 c3 c4|a prev pb|a prev|a prev|a key v|a pc ph|prev|txhash|h|a|a|a slot|a key v].
  - by apply create_same.
  - by apply reset_same.
  - cbn [revertEntry]. destruct (getStateObject_same s t a HS) as [(o & p & Hop & Ho & Hp & Hd & -> & ->)|[-> ->]]; cbn [outcomeRel]; [|by apply getDeleted_same].
    apply onObject_same; [by apply getDeleted_same|exists o; by apply getStateObject_live|exists p; by apply getStateObject_live|apply destruct_respects].
  - by apply revertObject_same, setBalance_respects.
  - by apply revertObject_same, setNonce_respects.
  - by apply revertObject_same, setState_respects.
  - by apply revertObject_same, setCode_respects.
  - cbn. split; try done. by eapply objects_frame.
  - by apply addLog_same.
  - cbn. split; try done; [by eapply objects_frame|cbn; congruence].
  - done.
  - cbn. split; try done; [by eapply objects_frame|cbn; congruence].
  - cbn. rewrite sm_access0. destruct (DeleteSlot (stAccess t) a slot); [|done..]. cbn. split; try done. by eapply objects_frame.
  - cbn. split; try done; [by eapply objects_frame|]. intros b k. cbn. rewrite !transientGet_set. by case_decide.
Qed.

Lemma undo_same s t e : same s t -> wf s -> entryOk (marks s) e -> outcomeRel same (undo s e) (undo t e).
Proof.
  intros HS Hw He. pose proof (revertEntry_same s t e HS Hw He) as H. unfold undo. destruct (revertEntry s e) as [s'| |], (revertEntry t e) as [t'| |]; cbn in *; try done.
  destruct (dirtied e); [by apply same_undirty|done].
Qed.

(** Undoing keeps states well-formed. *)
Lemma wf_onObject s a f : wf s -> is_Some (stateObjects s !! a) -> (forall o, objOk a o -> objOk a (f o)) -> wf (onObject a f s).
Proof.
  intros Hw Hl Hf. split; [apply Hw| |eapply (marksOk_mono s); [done|done| |apply Hw]; intros b; cbn; by rewrite lookup_alter_is_Some]. intros b o. rewrite peek_onObject by done. case_decide as Hb; [subst b|by apply (wf_obj s Hw)].
  destruct (peek s a) as [p|] eqn:Hp; [|done]. intros [= <-]. apply Hf. by apply (wf_obj s Hw).
Qed.

Lemma wf_load s a : wf s -> wf (getDeletedStateObject s a).1.
Proof. apply wf_reads, load_reads. Qed.

Lemma wf_frame s s' : wf s -> sameReads s s' -> marks s' = marks s -> entries (stJournal s') = entries (stJournal s) -> wf s'.
Proof.
  intros Hw (H1 & H2 & H3 & _) Hm He. split; [rewrite <-H3; apply Hw| |eapply (marksOk_mono s); [done|done|by rewrite H1|apply Hw]].
  intros a o Ho. apply (wf_obj s Hw). rewrite <-Ho. apply peek_cong; [by rewrite H1|done|by rewrite H2].
Qed.

Lemma EmptyCodeHash_len : length EmptyCodeHash = 32%nat.
Proof. apply sha_len. Qed.

Lemma dbAccount_code s a acct : snapOk (snap s) -> dbAccount s a = Some acct -> length (CodeHash acct) = 32%nat.
Proof.
  intros Hs. unfold dbAccount. assert (HT : forall acct, match (GetAccount (stTrie s) a).2 with inr r => r | inl _ => None end = Some acct -> length (CodeHash acct) = 32%nat).
  { intros ac. destruct ((GetAccount (stTrie s) a).2) as [e|r] eqn:Hr; [done|]. intros ->. by eapply GetAccount_code. }
  destruct (snap s) as [sn|]; [|apply HT]. destruct (snapAccount sn (sha a)) as [e|[acc|]] eqn:Ha; [apply HT| |done]. intros [= <-]. cbn.
  destruct (Hs _ _ Ha) as [He|He]; case_decide; try done; apply EmptyCodeHash_len.
Qed.

(** Undoing the creation of an object. *)
Lemma wf_delete s a : wf s -> a ∉ marks s -> wf (set_marks (stateObjectsPending s) (stateObjectsDirty s ∖ {[a]}) (set_objects (delete a (stateObjects s)) s)).
Proof.
  intros Hw Ha. set (s' := set_marks _ _ _). assert (HP : forall b, a <> b -> peek s' b = peek s b) by (intros b Hne; apply peek_cong; try done; cbn; by rewrite lookup_delete_ne).
  assert (HM : marks s' = marks s) by (unfold marks in *; cbn; set_solver). destruct (wf_marks s Hw) as [H1 H2].
  split; [apply Hw| |split; rewrite HM; [|done]; intros b Hb; cbn; rewrite lookup_delete_ne by set_solver; by apply H1]. intros b.
  - intros o Ho. destruct (decide (a = b)) as [<-|Hne]; [|apply (wf_obj s Hw); by rewrite <-HP].
    rewrite peek_eq in Ho. cbn in Ho. rewrite lookup_delete_eq in Ho. change (dbAccount s' a) with (dbAccount s a) in Ho.
    destruct (dbAccount s a) as [acct|] eqn:Hd; [|done]. injection Ho as <-. split; [done|]. split; [done|]. cbn. eapply dbAccount_code; [apply Hw|done].
Qed.

Lemma revertObject_wf s s' a f : wf s -> (forall o, objOk a o -> objOk a (f o)) -> revertObject s a f = Done s' -> wf s'.
Proof.
  intros Hw Hf. unfold revertObject. destruct (getStateObject_cases s a) as [(o & Hp & Hd & ->)|[Hp ->]]; [|done]. intros [= <-].
  apply wf_onObject; [by apply wf_load|exists o; by apply getStateObject_live|done].
Qed.

Lemma revertEntry_wf s s' e : wf s -> entryOk (marks s) e -> revertEntry s e = Done s' -> wf s'.
Proof.
  intros Hw He. destruct e as [a|a prev b c1 c2 c3 c4|a prev pb|a prev|a prev|a key v|a pc ph|prev|txhash|h|a|a|a slot|a key v]; cbn [revertEntry].
  - intros [= <-]. by apply wf_delete.
  - intros [= <-]. pose proof (wf_put s a prev Hw He) as Hp. set (s' := set_changes _ _). assert (HP : forall b, peek s' b = peek (setStateObject prev s) b) by (intros x; destruct b; by apply peek_cong).
    split; [destruct b; apply Hp| |destruct b; apply Hp]. intros x. rewrite HP. apply (wf_obj _ Hp).
  - destruct (getStateObject_cases s a) as [(o & Hp & Hd & ->)|[Hp ->]]; intros [= <-]; [|by apply wf_load].
    apply wf_onObject; [by apply wf_load|exists o; by apply getStateObject_live|done].
  - by apply revertObject_wf.
  - by apply revertObject_wf.
  - by apply revertObject_wf.
  - apply revertObject_wf; [done|]. intros o (H1 & H2 & H3). split; [done|]. split; [done|]. apply length_BytesToHash.
  - intros [= <-]. eapply wf_frame; [done|by repeat split|done|done].
  - destruct (if decide _ then _ else _) as [m| |]; [|done..]. intros [= <-]. eapply wf_frame; [done|by repeat split|done|done].
  - intros [= <-]. eapply wf_frame; [done|by repeat split|done|done].
  - by intros [= <-].
  - intros [= <-]. eapply wf_frame; [done|by repeat split|done|done].
  - destruct (DeleteSlot _ _ _) as [al| |]; [|done..]. intros [= <-]. eapply wf_frame; [done|by repeat split|done|done].
  - intros [= <-]. eapply wf_frame; [done|by repeat split|done|done].
Qed.

Lemma undo_wf s s' e : wf s -> entryOk (marks s) e -> undo s e = Done s' -> wf s'.
Proof.
  intros Hw He. unfold undo. destruct (revertEntry s e) as [s1| |] eqn:H1; [|done..]. cbn. pose proof (revertEntry_wf s s1 e Hw He H1) as Hw1. intros [= <-].
  destruct (dirtied e); [|done]. eapply wf_frame; [done|by repeat split|done|done].
Qed.

(** The parts that neither reading nor undoing changes. *)
Definition keepsMarks (s s' : StateDB) : Prop :=
  marks s' = marks s /\ entries (stJournal s') = entries (stJournal s) /\ validRevisions s' = validRevisions s /\ nextRevisionId s' = nextRevisionId s.

Lemma reads_marks s s' : reads s s' -> keepsMarks s s'.
Proof.
  intros ((HF & _) & _). pose proof (HF (stTrie s)) as H. split; [symmetry; exact (f_equal marks H)|].
  split; [symmetry; exact (f_equal entries (f_equal stJournal H))|]. split; symmetry; [exact (f_equal validRevisions H)|exact (f_equal nextRevisionId H)].
Qed.

Lemma undo_marks s s' e : entryOk (marks s) e -> undo s e = Done s' -> keepsMarks s s'.
Proof.
  intros He Hu. assert (HR : forall a, keepsMarks s (getDeletedStateObject s a).1) by (intros a; apply reads_marks, load_reads).
  assert (HO : forall a f s1, revertObject s a f = Done s1 -> keepsMarks s s1).
  { intros a f s1. unfold revertObject. destruct (getStateObject_cases s a) as [(o & _ & _ & ->)|[_ ->]]; [|done]. intros [= <-]. exact (HR a). }
  assert (HE : forall s1, revertEntry s e = Done s1 -> keepsMarks s s1).
  { intros s1. destruct e as [a|a prev b c1 c2 c3 c4|a prev pb|a prev|a prev|a key v|a pc ph|prev|txhash|h|a|a|a slot|a key v]; cbn [revertEntry]; try apply HO; try (by intros [= <-]).
    - intros [= <-]. split; [|done]. unfold marks in *. cbn in *. set_solver.
    - intros [= <-]. by destruct b.
    - destruct (getStateObject_cases s a) as [(o & _ & _ & ->)|[_ ->]]; intros [= <-]; exact (HR a).
    - destruct (if decide _ then _ else _) as [m| |]; [|done..]. by intros [= <-].
    - destruct (DeleteSlot _ _ _); [|done..]. by intros [= <-]. }
  unfold undo in Hu. destruct (revertEntry s e) as [s1| |]; [|done..]. specialize (HE s1 eq_refl). injection Hu as <-. by destruct (dirtied e).
Qed.

Lemma undos_same E : forall s t, same s t -> wf s -> Forall (entryOk (marks s)) E -> outcomeRel same (fold_outcome undo E s) (fold_outcome undo E t).
Proof.
  induction E as [|e E IH]; intros s t HS Hw He; [done|]. apply Forall_cons in He as [He1 He2]. cbn [fold_outcome]. pose proof (undo_same s t e HS Hw He1) as H.
  destruct (undo s e) as [s'| |] eqn:Hu, (undo t e) as [t'| |]; cbn in H; try done. apply IH; [done|by eapply undo_wf|]. destruct (undo_marks s s' e He1 Hu) as [-> _]. done.
Qed.

(** ** Changes can be undone *)

Definition countsOk (s : StateDB) : Prop := forall a n, dirtyCount s a = Some n -> 0 < n.

(** Every address with slots has an index of its own kind: in range and not
    empty. *)
Definition alOk (al : accessList) : Prop :=
  forall a idx, addresses al !! a = Some idx -> idx = -1 \/ exists slotmap, 0 <= idx /\ slots al !! Z.to_nat idx = Some slotmap /\ slotmap <> ∅.

Definition restOk (s : StateDB) : Prop := alOk (stAccess s) /\ in_u64 (logSize s).

Definition fwd (s : StateDB) : Prop := countsOk s /\ restOk s.

(** The entries [s'] has more than [s] lead back to what looks like [s]. *)
Definition undoable (s s' : StateDB) : Prop :=
  validRevisions s' = validRevisions s /\ nextRevisionId s' = nextRevisionId s /\
  exists E s1, entries (stJournal s') = entries (stJournal s) ++ E /\ fold_outcome undo (rev E) s' = Done s1 /\ same s1 s.

Definition moves (s s' : StateDB) : Prop := wf s -> fwd s -> wf s' /\ fwd s' /\ undoable s s'.

Lemma countsOk_same s t : same s t -> countsOk s -> countsOk t.
Proof. intros HS Hc a n. rewrite <-(sm_dirties s t HS). apply Hc. Qed.

Lemma fwd_same s t : same s t -> fwd s -> fwd t.
Proof. intros HS [Hc Ha]. split; [by eapply countsOk_same|]. unfold restOk. by rewrite <-(sm_access s t HS), <-(sm_logSize s t HS). Qed.

Lemma moves_reads s s' : reads s s' -> moves s s'.
Proof.
  intros HR Hw Hc. pose proof HR as ((HF & _) & HS & _). pose proof (HF (stTrie s)) as H. split; [by eapply wf_reads|]. split; [by eapply fwd_same|]. split; [symmetry; exact (f_equal validRevisions H)|].
  split; [symmetry; exact (f_equal nextRevisionId H)|]. exists [], s'. rewrite app_nil_r. split; [symmetry; exact (f_equal entries (f_equal stJournal H))|]. by split.
Qed.

Lemma moves_refl s : moves s s.
Proof. apply moves_reads, reads_refl. Qed.

Lemma moves_trans s1 s2 s3 : moves s1 s2 -> moves s2 s3 -> moves s1 s3.
Proof.
  intros H12 H23 Hw Hc. destruct (H12 Hw Hc) as (Hw2 & Hc2 & V1 & N1 & E1 & u1 & HE1 & HU1 & HS1). destruct (H23 Hw2 Hc2) as (Hw3 & Hc3 & V2 & N2 & E2 & u2 & HE2 & HU2 & HS2).
  split; [done|]. split; [done|]. split; [congruence|]. split; [congruence|]. pose proof (undos_same (rev E1) s2 u2 (symmetry HS2) Hw2) as HR.
  rewrite HU1 in HR. pose proof (proj2 (wf_marks s2 Hw2)) as HE. rewrite HE1, Forall_app in HE. specialize (HR (Forall_rev (proj2 HE))). destruct (fold_outcome undo (rev E1) u2) as [u| |] eqn:Hu; [|done..]. cbn in HR.
  exists (E1 ++ E2), u. split; [by rewrite HE2, HE1, app_assoc|]. split; [by rewrite rev_app_distr, fold_outcome_app, HU2|].
  etransitivity; [symmetry; exact HR|exact HS1].
Qed.

(** One more entry. *)
Lemma moves_entry s s' e s1 : (wf s -> wf s') -> (countsOk s -> countsOk s') -> (restOk s -> restOk s') -> validRevisions s' = validRevisions s -> nextRevisionId s' = nextRevisionId s -> entries (stJournal s') = entries (stJournal s) ++ [e] ->
  (wf s -> fwd s -> undo s' e = Done s1 /\ same s1 s) -> moves s s'.
Proof.
  intros H1 H2 H2' H3 H4 H5 H6 Hw Hc. destruct (H6 Hw Hc) as (Hu & HS). split; [auto|]. split; [destruct Hc; split; auto|]. split; [done|]. split; [done|]. exists [e], s1. split; [done|].
  split; [|done]. cbn. by rewrite Hu.
Qed.

(** *** Counts *)

Lemma dirtyCount_log s e a : dirtyCount (log_ e s) a = if decide (a <> ripemd /\ dirtied e = Some a) then Some (default 0 (dirtyCount s a) + 1) else dirtyCount s a.
Proof.
  unfold dirtyCount, log_, append. destruct (decide (a = ripemd)) as [->|Hr]; [rewrite decide_False by naive_solver; done|]. destruct (dirtied e) as [b|]; cbn; [|by rewrite decide_False by naive_solver].
  destruct (decide (b = a)) as [->|Hne]; [rewrite lookup_insert_eq, decide_True; done|]. rewrite lookup_insert_ne, decide_False by naive_solver. done.
Qed.

Lemma countsOk_log s e : countsOk s -> countsOk (log_ e s).
Proof. intros Hc a n. rewrite dirtyCount_log. case_decide; [|apply Hc]. intros [= <-]. destruct (dirtyCount s a) as [m|] eqn:Hm; cbn; [specialize (Hc a m Hm)|]; lia. Qed.

Lemma dirtyCount_undirty (s : StateDB) (d : gmap Address Z) (a b : Address) : (b <> ripemd -> dirties (stJournal s) !! b = if decide (b = a) then Some (default 0 (d !! b) + 1) else d !! b) -> (forall n, a <> ripemd -> d !! a = Some n -> 0 < n) ->
  dirtyCount (set_journal (mkJournal (entries (stJournal s)) (undirty a (dirties (stJournal s)))) s) b = if decide (b = ripemd) then None else d !! b.
Proof.
  intros Hd Hp. unfold dirtyCount. cbn [stJournal set_journal dirties]. destruct (decide (b = ripemd)) as [|Hr]; [done|]. specialize (Hd Hr). unfold undirty. destruct (decide (a = b)) as [<-|Hne].
  - rewrite decide_True in Hd by done. rewrite Hd. cbn. replace (default 0 (d !! a) + 1 - 1) with (default 0 (d !! a)) by lia. destruct (d !! a) as [n|]; cbn.
    + rewrite decide_False, lookup_insert_eq by (specialize (Hp n Hr eq_refl); lia). done.
    + rewrite decide_True, lookup_delete_eq by done. done.
  - rewrite decide_False in Hd by done. rewrite <-Hd. case_decide; by rewrite ?lookup_delete_ne, ?lookup_insert_ne by done.
Qed.

(** After an entry is undone the counts are as before. *)
Lemma undo_counts s u e a b : dirtied e = Some a -> countsOk s -> (forall c, dirtyCount u c = dirtyCount (log_ e s) c) ->
  dirtyCount (set_journal (mkJournal (entries (stJournal u)) (undirty a (dirties (stJournal u)))) u) b = dirtyCount s b.
Proof.
  intros He Hc Hu. rewrite (dirtyCount_undirty u (dirties (stJournal s)) a b); [done| |].
  - intros Hr. specialize (Hu b). rewrite dirtyCount_log, He in Hu. unfold dirtyCount in Hu. rewrite !(decide_False (P := b = ripemd)) in Hu by done. rewrite Hu.
    destruct (decide (b = a)) as [->|Hne]; [by rewrite decide_True|by rewrite decide_False by naive_solver].
  - intros n Hr Hn. apply (Hc a). unfold dirtyCount. by rewrite decide_False.
Qed.

(** The journal shows only in the counts. *)
Lemma same_journal s t j : same s t -> (forall a, dirtyCount (set_journal j s) a = dirtyCount t a) -> same (set_journal j s) t.
Proof. intros HS Hd. pose proof HS as []. split; try done. by eapply objects_frame. Qed.

Lemma entries_log s e : entries (stJournal (log_ e s)) = entries (stJournal s) ++ [e].
Proof. unfold log_, append. cbn. by destruct (dirtied e). Qed.

Lemma wf_entry s s' e : wf s -> entryOk (marks s) e -> sameReads s s' -> marks s' = marks s -> entries (stJournal s') = entries (stJournal s) ++ [e] -> wf s'.
Proof.
  intros Hw He HR Hm Hj. assert (wf (set_journal (stJournal s) s')) as Hw' by (by eapply (wf_frame s)). destruct Hw' as [H1 H2 [H3 H4]]. split; [done| |split].
  - intros a o Ho. apply H2. rewrite <-Ho. by apply peek_cong.
  - done.
  - rewrite Hj, Hm. apply Forall_app. split; [apply (wf_marks s Hw)|by constructor].
Qed.


Lemma wf_log s e : wf s -> entryOk (marks s) e -> wf (log_ e s).
Proof. intros Hw He. eapply wf_entry; [done|done|by repeat split|done|apply entries_log]. Qed.

(** *** Objects *)

Definition keepsOk (f : stateObject -> stateObject) : Prop := forall a o, objOk a o -> objOk a (f o).

Lemma getStateObject_here s a o : stateObjects s !! a = Some o -> deleted o = false -> getStateObject s a = (s, Some o).
Proof. intros Ho Hd. unfold getStateObject, getDeletedStateObject. by rewrite Ho, Hd. Qed.

Lemma onObject_live a f s o : stateObjects s !! a = Some o -> stateObjects (onObject a f s) !! a = Some (f o).
Proof. intros Ho. cbn. by rewrite lookup_alter_eq, Ho. Qed.

(** A change of an object with its entry. *)
Lemma change_moves s a o f g e : stateObjects s !! a = Some o -> deleted (f o) = false -> dirtied e = Some a -> (forall m, entryOk m e) -> keepsOk f ->
  (forall u o', getStateObject u a = (u, Some o') -> revertEntry u e = Done (onObject a g u)) -> (objOk a o -> sameObject s s (g (f o)) o) -> moves s (onObject a f (log_ e s)).
Proof.
  intros Ho Hd He Hek Hf Hg Hs. set (s' := onObject a f (log_ e s)). assert (Hl : stateObjects s' !! a = Some (f o)) by (by apply onObject_live).
  set (u := onObject a g s'). apply (moves_entry s s' e (set_journal (mkJournal (entries (stJournal u)) (undirty a (dirties (stJournal u)))) u)); try done.
  - intros Hw. apply wf_onObject; [by apply wf_log|by exists o|apply Hf].
  - apply countsOk_log.
  - apply entries_log.
  - intros Hw [Hc _]. split; [unfold undo; rewrite (Hg s' (f o)), He by (by apply getStateObject_here); done|].
    apply (same_journal (set_journal (stJournal s) u)); [|intros b; by eapply (undo_counts s u e a b)].
    assert (HP : forall b, peek (set_journal (stJournal s) u) b = if decide (b = a) then Some (g (f o)) else peek s b).
    { intros b. rewrite (peek_cong (set_journal (stJournal s) u) u b) by done. unfold u, s'. rewrite !peek_onObject by (rewrite ?Hl; by eauto). rewrite (peek_cong (log_ e s) s b) by done.
      case_decide; [subst b|done]. by rewrite (live_peek s a o Ho). }
    split; try done. intros b. rewrite HP. case_decide as Hb.
    + subst b. rewrite (live_peek s a o Ho). constructor. eapply (sameObject_env s s); [by repeat split|by repeat split|]. apply Hs. by eapply wf_live.
    + destruct (peek s b); constructor. apply sameObject_self. by repeat split.
Qed.

Lemma SetBalance_moves s a o amount : wf s -> stateObjects s !! a = Some o -> deleted o = false -> moves s (objSetBalance o amount s).
Proof.
  intros Hw Ho Hd. destruct (wf_live s a o Hw Ho) as [Ha _]. unfold objSetBalance. rewrite Ha.
  apply (change_moves s a o (setBalance amount) (setBalance (Balance (data o))) _ Ho Hd); [done|done|by intros ? ? HH|intros u o' Hu; cbn; unfold revertObject; by rewrite Hu|].
  intros _. split; try done; [by destruct o as [? ? ? []]|..]; intros key; [by rewrite !keepsStorage_committed|by rewrite !keepsStorage_state].
Qed.

Lemma SetNonce_moves s a o nonce : wf s -> stateObjects s !! a = Some o -> deleted o = false -> moves s (objSetNonce o nonce s).
Proof.
  intros Hw Ho Hd. destruct (wf_live s a o Hw Ho) as [Ha _]. unfold objSetNonce. rewrite Ha.
  apply (change_moves s a o (setNonce nonce) (setNonce (Nonce (data o))) _ Ho Hd); [done|done|by intros ? ? HH|intros u o' Hu; cbn; unfold revertObject; by rewrite Hu|].
  intros _. split; try done; [by destruct o as [? ? ? []]|..]; intros key; [by rewrite !keepsStorage_committed|by rewrite !keepsStorage_state].
Qed.

Lemma touch_moves s o : moves s (touch o s).
Proof.
  set (e := touchChange (address o)). assert (HM : forall j, entries j = entries (stJournal (log_ e s)) -> (forall b, dirtyCount (set_journal j s) b = dirtyCount (log_ e s) b) -> moves s (set_journal j s)).
  { intros j Hj Hd. set (u := set_journal j s). apply (moves_entry s u e (set_journal (mkJournal (entries (stJournal u)) (undirty (address o) (dirties (stJournal u)))) u)); try done.
    - intros Hw. by eapply (wf_entry s u e); [done|done|by repeat split|done|].
    - intros Hc a n. rewrite Hd. by apply countsOk_log.
    - intros Hw [Hc _]. split; [done|]. apply (same_journal s s); [done|]. intros b. by apply (undo_counts s u e). }
  unfold touch. case_decide as Hr; [|by apply (HM (append (stJournal s) e))]. apply (HM (dirty_ (append (stJournal s) e) (address o))); [done|].
  intros b. unfold dirtyCount. case_decide; [done|]. cbn. rewrite lookup_insert_ne by congruence. done.
Qed.

Lemma AddBalance_moves s a o amount : wf s -> stateObjects s !! a = Some o -> deleted o = false -> moves s (objAddBalance o amount s).
Proof. intros Hw Ho Hd. unfold objAddBalance. case_decide; [|by eapply SetBalance_moves]. destruct (objEmpty o); [apply touch_moves|apply moves_refl]. Qed.

Lemma SubBalance_moves s a o amount : wf s -> stateObjects s !! a = Some o -> deleted o = false -> moves s (objSubBalance o amount s).
Proof. intros Hw Ho Hd. unfold objSubBalance. case_decide; [apply moves_refl|by eapply SetBalance_moves]. Qed.

Lemma moves_step s s1 s2 : moves s s1 -> (wf s1 -> moves s1 s2) -> moves s s2.
Proof. intros H1 H2 Hw Hc. pose proof (H1 Hw Hc) as (Hw1 & _). by eapply (moves_trans s s1 s2 H1 (H2 Hw1)). Qed.

(** The object under an address after a step that only reads. *)
Lemma reads_live s s' a o : reads s s' -> stateObjects s !! a = Some o -> exists o', stateObjects s' !! a = Some o' /\ sameObject s s' o o'.
Proof.
  intros (_ & HS & HL) Ho. destruct (HL a) as [o' Ho']; [by exists o|]. exists o'. split; [done|]. pose proof (sm_objects s s' HS a) as HO.
  rewrite (live_peek s a o Ho), (live_peek s' a o' Ho') in HO. by inversion HO.
Qed.

Lemma SetState_moves s a o key value : wf s -> stateObjects s !! a = Some o -> deleted o = false -> moves s (objSetState s o key value).
Proof.
  intros Hw Ho Hd. destruct (wf_live s a o Hw Ho) as [Ha _]. unfold objSetState. pose proof (state_reads s a o key Ho Ha) as HR. pose proof (eq_refl (stateOf s o key)) as Hp. unfold stateOf at 1 in Hp.
  destruct (objGetState s o key) as [s1 prev]. cbn [fst snd] in *. destruct (reads_live s s1 a o HR Ho) as (o1 & Ho1 & []). case_decide; [by apply moves_reads|].
  eapply moves_trans; [by apply moves_reads|]. rewrite Ha. apply (change_moves s1 a o1 (setState key value) (setState key prev) _ Ho1);
    [cbn; congruence|done|done|by intros ? ? HH|intros u o' Hu; cbn; unfold revertObject; by rewrite Hu|].
  intros _. split; try done; intros k; [by rewrite !keepsStorage_committed|]. rewrite !stateOf_setState. case_decide; [subst k; by rewrite Hp|done].
Qed.

Lemma SetCode_moves s a o h c : wf s -> stateObjects s !! a = Some o -> deleted o = false -> length h = 32%nat -> moves s (objSetCode s o h c).
Proof.
  intros Hw Ho Hd Hh. destruct (wf_live s a o Hw Ho) as [Ha _]. unfold objSetCode. pose proof (code_reads s a o Ho Ha) as HR. pose proof (eq_refl (codeOf s o)) as Hp. unfold codeOf at 1 in Hp.
  destruct (objCode s o) as [s1 prevcode]. cbn [fst snd] in *. destruct (reads_live s s1 a o HR Ho) as (o1 & Ho1 & []). eapply moves_trans; [by apply moves_reads|]. rewrite Ha, so_data0.
  apply (change_moves s1 a o1 (setCode h (Some c)) (setCode (BytesToHash (CodeHash (data o1))) prevcode) _ Ho1);
    [cbn; congruence|done|done|by intros ? ? (? & ? & ?)|intros u o' Hu; cbn; unfold revertObject; by rewrite Hu|].
  intros (_ & _ & Hl). rewrite BytesToHash_id by done. split; try done; [by destruct o1 as [? ? ? []]| |intros k; by rewrite !keepsStorage_committed|intros k; by rewrite !keepsStorage_state].
  rewrite <-so_code0, <-Hp. rewrite codeOf_eq. cbn. destruct prevcode as [pc|]; [done|]. rewrite <-Hp, codeOf_eq in so_code0. by destruct (code o1).
Qed.

Lemma SelfDestruct_moves s a : moves s (SelfDestruct s a).
Proof.
  unfold SelfDestruct. destruct (getStateObject_cases s a) as [(o & Hp & Hd & ->)|[Hp ->]]; [|apply moves_reads, load_reads]. eapply moves_trans; [apply moves_reads, load_reads|].
  set (s1 := (getDeletedStateObject s a).1). pose proof (getStateObject_live s a o Hp) as Ho.
  apply (change_moves s1 a o (fun o => setBalance 0 (set_flags true (deleted o) (created o) o)) (fun p => setBalance (Balance (data o)) (set_flags (selfDestructed o) (deleted p) (created p) p)) _ Ho Hd);
    [done|done|by intros ? ? HH|intros u o' Hu; cbn; by rewrite Hu|].
  intros _. split; try done; [by destruct o as [? ? ? []]|..]; intros key.
  - by apply committedOf_cong.
  - rewrite !stateOf_eq. cbn. by rewrite (committedOf_cong s1 s1 (setBalance _ _) o).
Qed.

Lemma Selfdestruct6780_moves s a : moves s (Selfdestruct6780 s a).
Proof.
  unfold Selfdestruct6780. destruct (getStateObject_cases s a) as [(o & Hp & Hd & ->)|[Hp ->]]; [|apply moves_reads, load_reads]. eapply moves_trans; [apply moves_reads, load_reads|].
  destruct (created o); [apply SelfDestruct_moves|apply moves_refl].
Qed.

(** *** New objects *)

Lemma created_moves s a x : peek s a = None -> objOk a x -> moves s (setStateObject x (log_ (createObjectChange a) s)).
Proof.
  intros Hp Hx. set (e := createObjectChange a). set (s' := setStateObject x (log_ e s)).
  set (u := set_marks (stateObjectsPending s') (stateObjectsDirty s' ∖ {[a]}) (set_objects (delete a (stateObjects s')) s')).
  apply (moves_entry s s' e (set_journal (mkJournal (entries (stJournal u)) (undirty a (dirties (stJournal u)))) u)); try done.
  - intros Hw. eapply wf_put; [|done]. apply wf_log; [done|]. intros Hm. destruct (proj1 (wf_marks s Hw) a Hm) as [o Ho]. rewrite (live_peek s a o Ho) in Hp. done.
  - apply countsOk_log.
  - intros Hw [Hc _]. split; [done|]. apply (same_journal (set_journal (stJournal s) u)); [|intros b; by eapply (undo_counts s u e a b)].
    assert (Hl : stateObjects s !! a = None) by (rewrite peek_eq in Hp; by destruct (stateObjects s !! a)). destruct Hx as (Hxa & _ & _).
    assert (Ho : stateObjects u = stateObjects s) by (cbn; rewrite Hxa, delete_insert_eq; by apply delete_id).
    assert (HD : stateObjectsDirty u = stateObjectsDirty s).
    { cbn. assert (a ∉ stateObjectsDirty s) by (intros Hd; destruct (proj1 (wf_marks s Hw) a) as [? ?]; [unfold marks; set_solver|congruence]). set_solver. }
    split; try done. intros b. rewrite (peek_cong (set_journal (stJournal s) u) s b); [|change (stateObjects u !! b = stateObjects s !! b); by rewrite Ho|done|done].
    destruct (peek s b); constructor. apply sameObject_self. by repeat split.
Qed.

Lemma restore_delete {A} `{Countable B} (k : B) (m : gmap B A) : restore k (m !! k) (delete k m) = m.
Proof. unfold restore. destruct (m !! k) as [v|] eqn:Hv; [by rewrite insert_delete_id|by apply delete_id]. Qed.

Section Reset.
Context (s : StateDB) (a : Address) (x prev : stateObject) (Hl : stateObjects s !! a = Some prev) (Hx : objOk a x).

Definition resetEntry : journalEntry :=
  resetObjectChange a prev (bool_decide (is_Some (stateObjectsDestruct s !! address prev))) (accounts (changes s) !! addrHash prev) (storages (changes s) !! addrHash prev)
    (accountsOrigin (changes s) !! address prev) (storagesOrigin (changes s) !! address prev).

Definition resetState : StateDB := setStateObject x (set_changes (clearChanges prev (changes s)) (log_ resetEntry (markDestruct prev s))).

Lemma markDestruct_keeps {A : Type} (f : StateDB -> A) : (forall v w, f (set_destruct v w) = f w) -> f (markDestruct prev s) = f s.
Proof. intros F. unfold markDestruct. destruct (stateObjectsDestruct s !! address prev); [done|apply F]. Qed.

Lemma reset_undone : objOk a prev -> exists u, revertEntry resetState resetEntry = Done u /\ stJournal u = stJournal (log_ resetEntry s) /\ same (set_journal (stJournal s) u) s.
Proof.
  intros (Hpa & Hph & Hpc). cbn [revertEntry resetEntry]. eexists. split; [done|]. set (u := set_changes _ _). destruct Hx as (Hxa & _ & _).
  assert (HO : stateObjects u = stateObjects s).
  { unfold u, resetState. case_bool_decide; cbn; rewrite (markDestruct_keeps stateObjects), Hpa, Hxa, insert_insert_eq by done; by apply insert_id. }
  assert (HD : stateObjectsDestruct u = stateObjectsDestruct s).
  { unfold u, resetState, markDestruct. destruct (stateObjectsDestruct s !! address prev) eqn:Hd; case_bool_decide as Hb; [done|by destruct Hb; eauto|by destruct Hb|].
    cbn. rewrite delete_insert_eq. by apply delete_id. }
  assert (HC : changes u = changes s) by (unfold u; case_bool_decide; cbn; rewrite !restore_delete; by destruct (changes s)).
  assert (HR : forall (A : Type) (f : StateDB -> A), (forall v w, f (set_changes v w) = f w) -> (forall v w, f (set_destruct v w) = f w) -> (forall v w, f (setStateObject v w) = f w) ->
    (forall v w, f (log_ v w) = f w) -> f u = f s).
  { intros A f F1 F2 F3 F4. unfold u, resetState. case_bool_decide; by rewrite ?F1, ?F2, ?F3, ?F1, ?F4, (markDestruct_keeps f). }
  split; [transitivity (append (stJournal (markDestruct prev s)) resetEntry); [by unfold u; case_bool_decide|by rewrite (markDestruct_keeps stJournal)]|].
  split; try (by apply (HR _ _)); try done.
  - intros b. rewrite (peek_cong (set_journal (stJournal s) u) s b); [|change (stateObjects u !! b = stateObjects s !! b); by rewrite HO|by apply (HR _ snap)
      |change ((GetAccount (stTrie u) b).2 = (GetAccount (stTrie s) b).2); by rewrite (HR _ stTrie)].
    destruct (peek s b); constructor. apply sameObject_self. split; [by apply (HR _ snap)|]. split; [by apply (HR _ originalRoot)|done].
  - intros b. cbn [stTrie set_journal]. by rewrite (HR _ stTrie).
  - intros h. cbn [logs set_journal]. by rewrite (HR _ logs).
  - intros b k. cbn [stTransient set_journal]. by rewrite (HR _ stTransient).
Qed.

Lemma reset_moves : moves s resetState.
Proof.
  intros Hw Hc. pose proof (wf_live s a prev Hw Hl) as Hok. destruct (reset_undone Hok) as (u & Hu & Hj & HS). revert Hw Hc.
  apply (moves_entry s resetState resetEntry (set_journal (mkJournal (entries (stJournal u)) (undirty a (dirties (stJournal u)))) u)).
  - intros Hw. eapply wf_put; [|done]. set (v := set_changes _ _). assert (HP : forall b, peek v b = peek s b).
    { intros b. apply peek_cong; cbn; by rewrite ?(markDestruct_keeps stateObjects), ?(markDestruct_keeps snap), ?(markDestruct_keeps stTrie). }
    assert (HM : marks v = marks s) by (by apply (markDestruct_keeps marks)).
    split; [cbn; rewrite (markDestruct_keeps snap) by done; apply Hw|intros b; rewrite HP; apply (wf_obj s Hw)|]. destruct (wf_marks s Hw) as [H1 H2]. split; rewrite HM.
    + intros b Hb. cbn. rewrite (markDestruct_keeps stateObjects) by done. by apply H1.
    + change (stJournal v) with (stJournal (log_ resetEntry (markDestruct prev s))). rewrite entries_log, (markDestruct_keeps stJournal) by done. apply Forall_app. split; [done|]. by constructor.
  - intros Hc b n. change (dirtyCount resetState b) with (dirtyCount (log_ resetEntry (markDestruct prev s)) b).
    apply countsOk_log. intros b' n'. unfold dirtyCount. rewrite (markDestruct_keeps stJournal) by done. apply Hc.
  - unfold restOk. change (stAccess resetState) with (stAccess (markDestruct prev s)). change (logSize resetState) with (logSize (markDestruct prev s)).
    by rewrite (markDestruct_keeps stAccess), (markDestruct_keeps logSize).
  - by apply (markDestruct_keeps validRevisions).
  - by apply (markDestruct_keeps nextRevisionId).
  - change (stJournal resetState) with (stJournal (log_ resetEntry (markDestruct prev s))). by rewrite entries_log, (markDestruct_keeps stJournal).
  - intros Hw [Hc _]. split; [unfold undo; by rewrite Hu|].
    apply (same_journal (set_journal (stJournal s) u)); [done|]. intros b. apply (undo_counts s u resetEntry a b); [done|done|]. intros b'. unfold dirtyCount. by rewrite Hj.
Qed.
End Reset.

Definition freshObject (a : Address) : stateObject := set_flags false false true (newObject a None).

Lemma fresh_ok a : objOk a (freshObject a).
Proof. split; [done|]. split; [done|]. apply EmptyCodeHash_len. Qed.

(** [createObject], with a change of the new object. *)
Lemma createObject_moves s a f : address (f (freshObject a)) = a -> objOk a (f (freshObject a)) -> moves s (onObject a f (createObject s a).1.1) /\
  stateObjects (createObject s a).1.1 !! a = Some (freshObject a) /\ (createObject s a).1.2 = freshObject a.
Proof.
  intros Ha Hf. assert (HS : forall u, setStateObject (f (freshObject a)) (setStateObject (freshObject a) u) = setStateObject (f (freshObject a)) u)
    by (intros u; unfold setStateObject, set_objects; cbn; by rewrite Ha, insert_insert_eq).
  unfold createObject. pose proof (load_reads s a) as HR. destruct (load_quiet s a) as (_ & HP & HL). unfold peek in HL at 1.
  destruct (getDeletedStateObject s a) as [s1 [prev|]] eqn:Hg; cbn [fst snd] in *; fold (freshObject a).
  - split; [|split; [apply lookup_insert_eq|done]]. rewrite (onObject_put a f _ (freshObject a)); [|apply lookup_insert_eq|done].
    eapply moves_trans; [by apply moves_reads|]. pose proof (HL prev eq_refl) as Hl. assert (HC : changes (markDestruct prev s1) = changes s1) by (by apply markDestruct_keeps). rewrite HC.
    rewrite HS. by apply (reset_moves s1 a (f (freshObject a)) prev).
  - split; [|split; [apply lookup_insert_eq|done]]. rewrite (onObject_put a f _ (freshObject a)); [|apply lookup_insert_eq|done]. eapply moves_trans; [by apply moves_reads|].
    rewrite HS. apply created_moves; [|done]. rewrite HP. unfold peek. by rewrite Hg.
Qed.

Lemma GetOrNew_moves s a : moves s (GetOrNewStateObject s a).1 /\ stateObjects (GetOrNewStateObject s a).1 !! a = Some (GetOrNewStateObject s a).2 /\ deleted (GetOrNewStateObject s a).2 = false.
Proof.
  unfold GetOrNewStateObject. destruct (getStateObject_cases s a) as [(o & Hp & Hd & ->)|[Hp ->]]; cbn [fst snd].
  { split; [apply moves_reads, load_reads|]. split; [by apply getStateObject_live|done]. }
  destruct (createObject_moves (getDeletedStateObject s a).1 a id eq_refl (fresh_ok a)) as (HM & Hl & Hx). destruct (createObject _ a) as [[s1 o] prev]. cbn [fst snd] in *. subst o.
  split; [|done]. eapply moves_trans; [apply moves_reads, load_reads|]. replace s1 with (onObject a id s1); [done|]. unfold onObject. rewrite alter_id by done. by destruct s1.
Qed.

Lemma CreateAccount_moves s a : moves s (CreateAccount s a).
Proof.
  unfold CreateAccount. destruct (createObject_moves s a id eq_refl (fresh_ok a)) as (HM & _ & _).
  assert (HM' : forall v, moves s (onObject a (setBalance v) (createObject s a).1.1)) by (intros v; apply createObject_moves; [done|]; by destruct (fresh_ok a) as (? & ? & ?)).
  destruct (createObject s a) as [[s1 o] [prev|]]; cbn [fst snd] in *; [apply HM'|]. replace s1 with (onObject a id s1); [done|]. unfold onObject. rewrite alter_id by done. by destruct s1.
Qed.

(** *** Entries without an object *)

Lemma plain_moves s s' e s1 : dirtied e = None -> (forall m, entryOk m e) -> sameReads s s' -> marks s' = marks s -> stJournal s' = append (stJournal s) e ->
  validRevisions s' = validRevisions s -> nextRevisionId s' = nextRevisionId s -> (restOk s -> restOk s') -> (restOk s -> revertEntry s' e = Done s1 /\ same s1 s) -> moves s s'.
Proof.
  intros He Hok HR Hd Hj Hv Hn Hal Hs. apply (moves_entry s s' e s1); [|intros Hc a n|done|done|done| |].
  - intros Hw. eapply wf_entry; [done|done|done|done|]. rewrite Hj. unfold append. by rewrite He.
  - unfold dirtyCount. rewrite Hj. unfold append. rewrite He. apply Hc.
  - rewrite Hj. unfold append. by rewrite He.
  - intros _ [_ Ha]. destruct (Hs Ha) as [H1 H2]. split; [unfold undo; by rewrite H1, He|done].
Qed.

(** A state that differs in parts that are restored. *)
Lemma same_restored s s1 : sameReads s s1 -> changes s1 = changes s -> stateObjectsPending s1 = stateObjectsPending s -> stateObjectsDirty s1 = stateObjectsDirty s -> refund s1 = refund s -> thash s1 = thash s -> txIndex s1 = txIndex s ->
  (forall h, default [] (logs s1 !! h) = default [] (logs s !! h)) -> logSize s1 = logSize s -> preimages s1 = preimages s -> stAccess s1 = stAccess s ->
  (forall a key, transientGet (stTransient s1) a key = transientGet (stTransient s) a key) -> dirties (stJournal s1) = dirties (stJournal s) -> same s1 s.
Proof.
  intros HR. pose proof HR as (H1 & H2 & H3 & H4 & H5). intros. split; try done; [|by rewrite H2|intros a; unfold dirtyCount; case_decide; congruence]. intros a. apply (objects_frame s s s1 s); [done|done|by repeat split].
Qed.

Lemma SetTransientState_moves s a key value : moves s (SetTransientState s a key value).
Proof.
  unfold SetTransientState. case_decide; [apply moves_refl|]. eapply (plain_moves s _ (transientStorageChange a key (GetTransientState s a key))); [done|done|by repeat split|done|done|done|done|done|]. intros _. split; [done|].
  apply same_restored; try done. intros b k. cbn. rewrite !transientGet_set. case_decide as H1; [destruct H1 as [-> ->]; done|done].
Qed.

Lemma AddLog_moves s l : moves s (AddLog s l).
Proof.
  unfold AddLog. set (l' := mkLog _ _ _ _ _ _ _ _ _). set (old := default [] (logs s !! thash s)). set (m := if decide (old = []) then delete (thash s) (logs s) else <[thash s := old]> (logs s)).
  apply (plain_moves s _ (addLogChange (thash s)) (set_logs m (logSize s) (log_ (addLogChange (thash s)) s))); [done|done|by repeat split|done|done|done|done|intros [? _]; split; [done|apply u64_bound]|]. intros [_ Hz]. split.
  - cbn [revertEntry]. cbn [logs set_logs log_ set_journal logSize thash]. rewrite lookup_insert_eq. cbn [default]. fold old.
    assert (Hu : u64 (u64 (logSize s + 1) - 1) = logSize s).
    { unfold u64, wrap. rewrite Zminus_mod_idemp_l. replace (logSize s + 1 - 1) with (logSize s) by lia. by apply Z.mod_small. }
    rewrite Hu. unfold id. rewrite length_app. cbn [length]. case_decide as Hl.
    + assert (old = []) as Ho by (destruct old; [done|simpl in Hl; lia]). unfold m. rewrite decide_True by done. cbn [mbind outcome_bind]. by rewrite delete_insert_eq.
    + unfold subslice. rewrite decide_True by (rewrite length_app; cbn [length]; lia). cbn [mbind outcome_bind]. rewrite insert_insert_eq. unfold m. rewrite decide_False by (intros ->; by apply Hl).
      rewrite drop_0. replace (Z.to_nat (Z.of_nat (length old + 1) - 1 - 0)) with (length old) by lia. by rewrite take_app_length.
  - apply same_restored; try done. intros h. cbn [logs set_logs]. unfold m. destruct (decide (h = thash s)) as [->|Hne]; case_decide as Ho; fold old.
    + by rewrite lookup_delete_eq, Ho.
    + by rewrite lookup_insert_eq.
    + by rewrite lookup_delete_ne.
    + by rewrite lookup_insert_ne.
Qed.

Lemma AddPreimage_moves s h p : moves s (AddPreimage s h p).
Proof.
  unfold AddPreimage. destruct (preimages s !! h) eqn:Hp; [apply moves_refl|]. eapply (plain_moves s _ (addPreimageChange h)); [done|done|by repeat split|done|done|done|done|done|]. intros _. split; [done|].
  apply same_restored; try done. cbn. rewrite delete_insert_eq. by apply delete_id.
Qed.

Lemma refund_moves s r : moves s (set_refund r (log_ (refundChange (refund s)) s)).
Proof. eapply (plain_moves s _ (refundChange (refund s))); [done|done|by repeat split|done|done|done|done|done|]. intros _. split; [done|]. by apply same_restored. Qed.

(** *** The access list *)

Lemma alOk_address al a : alOk al -> addresses al !! a = None -> alOk (mkAccessList (<[a := -1]> (addresses al)) (slots al)).
Proof. intros Ha Hn b idx. cbn. destruct (decide (a = b)) as [<-|Hne]; [rewrite lookup_insert_eq; intros [= <-]; by left|rewrite lookup_insert_ne by done; apply Ha]. Qed.

Lemma AddAddress_moves s a : moves s (AddAddressToAccessList s a).
Proof.
  unfold AddAddressToAccessList, AddAddress. destruct (addresses (stAccess s) !! a) eqn:Hn.
  { replace (set_access (stAccess s) s) with s by (by destruct s). apply moves_refl. }
  eapply (plain_moves s _ (accessListAddAccountChange a)); [done|done|by repeat split|done|done|done|done| |].
  - intros [Ha ?]. split; [by apply alOk_address|done].
  - intros _. split; [done|]. apply same_restored; try done. cbn. unfold DeleteAddress. cbn. rewrite delete_insert_eq, delete_id by done. by destruct (stAccess s).
Qed.

Lemma alOk_newSlots al a slot : alOk al -> alOk (newSlots al a slot).
Proof.
  intros Ha b idx. cbn. destruct (decide (a = b)) as [<-|Hne].
  - rewrite lookup_insert_eq. intros [= <-]. right. exists {[slot]}. split; [lia|]. rewrite Nat2Z.id, lookup_app_r, Nat.sub_diag by lia. split; [done|set_solver].
  - rewrite lookup_insert_ne by done. intros Hb. destruct (Ha b idx Hb) as [->|(sm & Hi & Hs & He)]; [by left|right]. exists sm. split; [done|]. split; [|done].
    apply lookup_lt_Some in Hs as Hlt. by rewrite lookup_app_l.
Qed.

Lemma alOk_more al idx slot slotmap : alOk al -> slots al !! Z.to_nat idx = Some slotmap -> alOk (mkAccessList (addresses al) (<[Z.to_nat idx := {[slot]} ∪ slotmap]> (slots al))).
Proof.
  intros Ha Hs b i Hb. apply lookup_lt_Some in Hs as Hlt. cbn in Hb |- *. destruct (Ha b i Hb) as [->|(sm' & Hi' & Hs' & He')]; [by left|right].
  destruct (decide (Z.to_nat idx = Z.to_nat i)) as [Heq|Hn]; [rewrite <-Heq, list_lookup_insert_eq by done; eexists; split; [done|]; split; [done|set_solver]|rewrite list_lookup_insert_ne by done; eauto].
Qed.

Lemma alOk_AddAddress al a : alOk al -> alOk (AddAddress al a).1.
Proof. intros Ha. unfold AddAddress. destruct (addresses al !! a) eqn:Hn; [done|by apply alOk_address]. Qed.

Lemma alOk_AddSlot al a slot r : alOk al -> AddSlot al a slot = Done r -> alOk r.1.
Proof.
  intros Ha. unfold AddSlot. destruct (addresses al !! a) as [idx|]; [|intros [= <-]; by apply alOk_newSlots]. case_decide; [intros [= <-]; by apply alOk_newSlots|].
  destruct (index (slots al) idx) as [sm| |] eqn:Hi; [|done..]. apply index_Done in Hi as [Hi Hs]. cbn [mbind outcome_bind]. case_decide; [by intros [= <-]|].
  apply lookup_lt_Some in Hs as Hlt. rewrite store_Done by lia. intros [= <-]. by apply alOk_more.
Qed.

(** Taking back the first slot of an address. *)
Lemma DeleteSlot_new al a slot : DeleteSlot (newSlots al a slot) a slot = Done (mkAccessList (<[a := -1]> (addresses al)) (slots al)).
Proof.
  unfold DeleteSlot, newSlots. cbn [addresses slots]. rewrite lookup_insert_eq. unfold index. rewrite decide_True by lia. rewrite Nat2Z.id, lookup_app_r, Nat.sub_diag by lia. cbn [lookup list_lookup mbind outcome_bind].
  rewrite store_Done by (rewrite length_app; cbn [length]; lia). cbn [mbind outcome_bind]. rewrite decide_True by set_solver. rewrite Nat2Z.id.
  rewrite insert_app_r_alt, Nat.sub_diag by lia. unfold subslice. rewrite decide_True by (rewrite length_app; cbn; lia). cbn [mbind outcome_bind]. rewrite drop_0, Z.sub_0_r, Nat2Z.id, take_app_length.
  by rewrite insert_insert_eq.
Qed.

(** Taking back a further slot. *)
Lemma DeleteSlot_more al a slot idx slotmap : addresses al !! a = Some idx -> 0 <= idx -> slots al !! Z.to_nat idx = Some slotmap -> slotmap <> ∅ -> slot ∉ slotmap ->
  DeleteSlot (mkAccessList (addresses al) (<[Z.to_nat idx := {[slot]} ∪ slotmap]> (slots al))) a slot = Done al.
Proof.
  intros Ha Hi Hs Hne Hn. apply lookup_lt_Some in Hs as Hlt. unfold DeleteSlot. cbn [addresses slots]. rewrite Ha. unfold index. rewrite decide_True by done. rewrite list_lookup_insert_eq by done.
  cbn [mbind outcome_bind]. rewrite store_Done by (rewrite length_insert; lia). cbn [mbind outcome_bind]. assert (({[slot]} ∪ slotmap) ∖ {[slot]} = slotmap) as -> by set_solver.
  rewrite decide_False by done. rewrite list_insert_insert_eq, list_insert_id by done. by destruct al.
Qed.

Lemma newSlots_moves s a slot : addresses (stAccess s) !! a = Some (-1) -> moves s (log_ (accessListAddSlotChange a slot) (set_access (newSlots (stAccess s) a slot) s)).
Proof.
  intros Ha. eapply (plain_moves s _ (accessListAddSlotChange a slot)); [done|done|by repeat split|done|done|done|done|intros [? ?]; split; [by apply alOk_newSlots|done]|].
  intros _. split; [cbn [revertEntry]; cbn [stAccess log_ set_journal set_access]; by rewrite DeleteSlot_new|]. apply same_restored; try done. cbn. rewrite insert_id by done. by destruct (stAccess s).
Qed.

Lemma AddSlot_moves s s' a slot : fwd s -> AddSlotToAccessList s a slot = Done s' -> moves s s'.
Proof.
  intros [_ [Hal _]]. unfold AddSlotToAccessList, AddSlot. destruct (addresses (stAccess s) !! a) as [idx|] eqn:Ha.
  - destruct (decide (idx = -1)) as [->|Hne]; [intros [= <-]; by apply newSlots_moves|]. destruct (Hal a idx Ha) as [?|(sm & Hi & Hs & He)]; [done|].
    assert (index (slots (stAccess s)) idx = Done sm) as -> by (by apply index_Done). cbn [mbind outcome_bind]. case_decide as Hin.
    + intros [= <-]. replace (set_access (stAccess s) s) with s by (by destruct s). apply moves_refl.
    + apply lookup_lt_Some in Hs as Hlt. rewrite store_Done by lia. intros [= <-].
      eapply (plain_moves s _ (accessListAddSlotChange a slot)); [done|done|by repeat split|done|done|done|done| |].
      * intros [_ ?]. split; [by eapply alOk_more|done].
      * intros _. split; [cbn [revertEntry]; cbn [stAccess log_ set_journal set_access]; by rewrite (DeleteSlot_more _ a slot idx sm)|]. by apply same_restored.
  - intros [= <-]. set (s1 := log_ (accessListAddAccountChange a) (set_access (mkAccessList (<[a := -1]> (addresses (stAccess s))) (slots (stAccess s))) s)).
    eapply (moves_trans s s1); [pose proof (AddAddress_moves s a) as H; unfold AddAddressToAccessList, AddAddress in H; by rewrite Ha in H|].
    replace (log_ _ _) with (log_ (accessListAddSlotChange a slot) (set_access (newSlots (stAccess s1) a slot) s1)) by (unfold s1, newSlots; cbn; by rewrite insert_insert_eq).
    apply newSlots_moves. cbn. apply lookup_insert_eq.
Qed.

(** ** Operations of a transaction *)

(** [SetStorage] is not one of them: it is for debugging, marks the account as
    destructed without an entry in the journal, and its doc comment asks that
    what it changed be thrown away. *)
Inductive stateOp :=
| OpAddBalance (a : Address) (amount : Z)
| OpSubBalance (a : Address) (amount : Z)
| OpSetBalance (a : Address) (amount : Z)
| OpSetNonce (a : Address) (nonce : Z)
| OpSetCode (a : Address) (c : list Z)
| OpSetState (a : Address) (key value : Hash)
| OpSelfDestruct (a : Address)
| OpSelfdestruct6780 (a : Address)
| OpCreateAccount (a : Address)
| OpSetTransientState (a : Address) (key value : Hash)
| OpAddLog (l : Log)
| OpAddPreimage (h : Hash) (p : list Z)
| OpAddRefund (gas : Z)
| OpSubRefund (gas : Z)
| OpAddAddress (a : Address)
| OpAddSlot (a : Address) (slot : Hash)
| OpGetAccount (a : Address)
| OpGetCode (a : Address)
| OpGetState (a : Address) (key : Hash)
| OpGetCommittedState (a : Address) (key : Hash)
| OpSnapshot
| OpRevertToSnapshot (id : Z).

(** [OpGetAccount] stands for the questions about balance, nonce and so on. *)
Definition runOp (s : StateDB) (op : stateOp) : outcome StateDB :=
  match op with
  | OpAddBalance a v => Done (AddBalance s a v)
  | OpSubBalance a v => Done (SubBalance s a v)
  | OpSetBalance a v => Done (SetBalance s a v)
  | OpSetNonce a v => Done (SetNonce s a v)
  | OpSetCode a c => Done (SetCode s a c)
  | OpSetState a key v => Done (SetState s a key v)
  | OpSelfDestruct a => Done (SelfDestruct s a)
  | OpSelfdestruct6780 a => Done (Selfdestruct6780 s a)
  | OpCreateAccount a => Done (CreateAccount s a)
  | OpSetTransientState a key v => Done (SetTransientState s a key v)
  | OpAddLog l => Done (AddLog s l)
  | OpAddPreimage h p => Done (AddPreimage s h p)
  | OpAddRefund g => Done (AddRefund s g)
  | OpSubRefund g => SubRefund s g
  | OpAddAddress a => Done (AddAddressToAccessList s a)
  | OpAddSlot a k => AddSlotToAccessList s a k
  | OpGetAccount a => Done (getStateObject s a).1
  | OpGetCode a => Done (GetCode s a).1
  | OpGetState a k => Done (GetState s a k).1
  | OpGetCommittedState a k => Done (GetCommittedState s a k).1
  | OpSnapshot => Done (Snapshot s).1
  | OpRevertToSnapshot id => RevertToSnapshot s id
  end.

Definition runStateOps (s : StateDB) (ops : list stateOp) : outcome StateDB := fold_outcome runOp ops s.

Lemma getStateObject_reads s a : reads s (getStateObject s a).1.
Proof. destruct (getStateObject_cases s a) as [(o & _ & _ & ->)|[_ ->]]; apply load_reads. Qed.

(** A question of the object under an address. *)
Lemma query_moves s a {A} (none : A) (f : StateDB -> stateObject -> StateDB * A) : (forall s o, stateObjects s !! a = Some o -> address o = a -> reads s (f s o).1) ->
  moves s (match getStateObject s a with (s, Some o) => f s o | (s, None) => (s, none) end).1.
Proof.
  intros Hf. destruct (getStateObject_cases s a) as [(o & Hp & _ & ->)|[_ ->]]; [|apply moves_reads, load_reads]. eapply moves_step; [apply moves_reads, load_reads|]. intros Hw.
  pose proof (getStateObject_live s a o Hp) as Hl. apply moves_reads, Hf; [done|]. by destruct (wf_live _ a o Hw Hl) as [? _].
Qed.

(** A change of the object under an address, which is made if it is missing. *)
Lemma update_moves s a (f : StateDB -> stateObject -> StateDB) : (forall s o, wf s -> stateObjects s !! a = Some o -> deleted o = false -> moves s (f s o)) ->
  moves s (let '(s, o) := GetOrNewStateObject s a in f s o).
Proof. intros Hf. destruct (GetOrNew_moves s a) as (HM & Hl & Hd). destruct (GetOrNewStateObject s a) as [s1 o]. eapply moves_step; [exact HM|]. intros Hw. by apply Hf. Qed.

Lemma runOp_moves s s' op : fwd s -> match op with OpSnapshot | OpRevertToSnapshot _ => False | _ => True end -> runOp s op = Done s' -> moves s s'.
Proof.
  intros Hf Hop. destruct op; cbn [runOp]; try done; try (intros [= <-]).
  - apply (update_moves s a (fun s o => objAddBalance o amount s)). intros. by eapply AddBalance_moves.
  - apply (update_moves s a (fun s o => objSubBalance o amount s)). intros. by eapply SubBalance_moves.
  - apply (update_moves s a (fun s o => objSetBalance o amount s)). intros. by eapply SetBalance_moves.
  - apply (update_moves s a (fun s o => objSetNonce o nonce s)). intros. by eapply SetNonce_moves.
  - apply (update_moves s a (fun s o => objSetCode s o (sha c) c)). intros. eapply SetCode_moves; [done..|apply sha_len].
  - apply (update_moves s a (fun s o => objSetState s o key value)). intros. by eapply SetState_moves.
  - apply SelfDestruct_moves.
  - apply Selfdestruct6780_moves.
  - apply CreateAccount_moves.
  - apply SetTransientState_moves.
  - apply AddLog_moves.
  - apply AddPreimage_moves.
  - apply refund_moves.
  - unfold SubRefund. case_decide; [done|]. intros [= <-]. apply refund_moves.
  - apply AddAddress_moves.
  - by apply AddSlot_moves.
  - apply moves_reads, getStateObject_reads.
  - apply (query_moves s a None objCode). intros. by eapply code_reads.
  - apply (query_moves s a zeroHash (fun s o => objGetState s o key)). intros. by eapply state_reads.
  - apply (query_moves s a zeroHash (fun s o => objGetCommittedState s o key)). intros. by eapply committed_reads.
Qed.
End Same.
