(* ===== verification/StateSnapshot.v ===== *)
(** * Snapshots of the state

    [Snapshot] and [RevertToSnapshot] over whole transactions, with nested
    snapshots: the stack of revisions, the invariant of the states a node can
    reach, and the theorem that reverting restores what the snapshot saw. *)

From S2P Require Import Prelude Bytes RlpRaw RlpEncode State StateRevert.

Local Open Scope Z_scope.

(** ** [sort.Search] *)

Lemma searchLoop_spec f fuel : forall i j n, (i <= j <= n)%nat -> (j - i <= fuel)%nat -> (forall k, (k < i)%nat -> f k = false) -> (forall k, (j <= k < n)%nat -> f k = true) ->
  (forall k l, (k <= l < n)%nat -> f k = true -> f l = true) ->
  exists k, searchLoop fuel f i j = Some k /\ (k <= n)%nat /\ (forall l, (l < k)%nat -> f l = false) /\ (forall l, (k <= l < n)%nat -> f l = true).
Proof.
  induction fuel as [|fuel IH]; intros i j n Hij Hf Hlo Hhi Hm; cbn [searchLoop]; destruct (decide (i < j)%nat) as [Hlt|Hge]; try lia.
  - exists i. split; [done|]. split; [lia|]. split; [done|]. intros l Hl. apply Hhi. lia.
  - set (h := ((i + j) / 2)%nat). assert (Hh : (i <= h < j)%nat) by (unfold h; split; [apply Nat.div_le_lower_bound|apply Nat.Div0.div_lt_upper_bound]; lia). destruct (f h) eqn:E.
    + apply IH; [lia|lia|done| |done]. intros k Hk. by apply (Hm h k).
    + apply IH; [lia|lia| |done|done]. intros k Hk. destruct (f k) eqn:Ek; [|done]. rewrite (Hm k h) in E; [done|lia|done].
  - exists i. split; [done|]. split; [lia|]. split; [done|]. intros l Hl. apply Hhi. lia.
Qed.

Lemma Search_spec n f : (forall k l, (k <= l < n)%nat -> f k = true -> f l = true) ->
  exists k, Search_ n f = Some k /\ (k <= n)%nat /\ (forall l, (l < k)%nat -> f l = false) /\ (forall l, (k <= l < n)%nat -> f l = true).
Proof. intros Hm. apply (searchLoop_spec f n 0 n n); [lia|lia|intros; lia|intros; lia|done]. Qed.

Section Snapshots.
Context {K : Keccak} {KL : KeccakLaws K} {DB : StateDatabase} {RL : StateReadLaws DB}.

(** ** The stack of revisions *)

Definition revs (s : StateDB) : list revision := validRevisions s.

Record revsOk (s : StateDB) : Prop := {
  rv_sorted i j ri rj : (i < j)%nat -> revs s !! i = Some ri -> revs s !! j = Some rj -> revId ri < revId rj /\ (journalIndex ri <= journalIndex rj)%nat;
  rv_bound r : r ∈ revs s -> revId r < nextRevisionId s /\ (journalIndex r <= length (entries (stJournal s)))%nat
}.

Definition idTest (s : StateDB) (id : Z) (i : nat) : bool := match revs s !! i with Some r => bool_decide (revId r >= id) | None => false end.

Lemma idTest_mono s id k l : revsOk s -> (k <= l < length (revs s))%nat -> idTest s id k = true -> idTest s id l = true.
Proof.
  intros Hr Hkl. unfold idTest. destruct (lookup_lt_is_Some_2 (revs s) k) as [rk Hk]; [lia|]. destruct (lookup_lt_is_Some_2 (revs s) l) as [rl Hl]; [lia|]. rewrite Hk, Hl.
  destruct (decide (k = l)) as [->|Hne]; [rewrite Hk in Hl; by injection Hl as ->|]. destruct (rv_sorted s Hr k l rk rl) as [? _]; [lia|done|done|]. rewrite !bool_decide_eq_true. lia.
Qed.

(** A valid identifier is found. *)
Lemma revert_valid s i r : revsOk s -> revs s !! i = Some r ->
  RevertToSnapshot s (revId r) = (s ← journalRevert s (journalIndex r); Done (set_revisions (take i (validRevisions s)) (nextRevisionId s) s)).
Proof.
  intros Hr Hi. unfold RevertToSnapshot. fold (revs s). destruct (Search_spec (length (revs s)) (idTest s (revId r))) as (k & Hk & Hkn & Hlo & Hhi); [intros k l; by apply idTest_mono|].
  unfold idTest in Hk. rewrite Hk. assert (k = i) as ->; [|rewrite Hi; by rewrite decide_False by (intros H; by apply H)].
  destruct (decide (k = i)) as [->|Hne]; [done|]. exfalso. apply lookup_lt_Some in Hi as Hlt. destruct (decide (i < k)%nat) as [Hik|Hik].
  - specialize (Hlo i Hik). unfold idTest in Hlo. rewrite Hi, bool_decide_eq_false in Hlo. lia.
  - destruct (lookup_lt_is_Some_2 (revs s) k) as [rk Hrk]; [lia|]. specialize (Hhi k ltac:(lia)). unfold idTest in Hhi. rewrite Hrk, bool_decide_eq_true in Hhi.
    destruct (rv_sorted s Hr k i rk r) as [? _]; [lia|done|done|]. lia.
Qed.

(** Every other identifier panics. *)
Lemma revert_invalid s id : revsOk s -> id ∉ revId <$> revs s -> RevertToSnapshot s id = Panic.
Proof.
  intros Hr Hid. unfold RevertToSnapshot. fold (revs s). destruct (Search_spec (length (revs s)) (idTest s id)) as (k & Hk & Hkn & Hlo & Hhi); [intros k l; by apply idTest_mono|].
  unfold idTest in Hk. rewrite Hk. destruct (revs s !! k) as [r|] eqn:Hrk; [|done]. rewrite decide_True; [done|]. intros <-. apply Hid. apply list_elem_of_fmap. exists r. split; [done|]. by eapply list_elem_of_lookup_2.
Qed.

(** ** Undoing up to an entry *)

Definition undoTo (s : StateDB) (n : nat) : outcome StateDB := fold_outcome undo (rev (drop n (entries (stJournal s)))) s.

(** What undoing gives looks like [sr]. *)
Definition leadsTo (s : StateDB) (n : nat) (sr : StateDB) : Prop := exists s1, undoTo s n = Done s1 /\ same s1 sr.

Lemma leadsTo_moves s s' n sr : wf s -> fwd s -> moves s s' -> (n <= length (entries (stJournal s)))%nat -> leadsTo s n sr -> leadsTo s' n sr.
Proof.
  intros Hw Hf HM Hn (s1 & Hu & HS). destruct (HM Hw Hf) as (_ & _ & _ & _ & E & u & HE & HU & HSu). unfold leadsTo, undoTo in *.
  rewrite HE, drop_app_le, rev_app_distr, fold_outcome_app, HU by done. cbn [mbind outcome_bind].
  assert (HD : Forall (entryOk (marks s)) (rev (drop n (entries (stJournal s))))) by (apply Forall_rev, Forall_drop, (wf_marks s Hw)).
  pose proof (undos_same _ s u (symmetry HSu) Hw HD) as HR. rewrite Hu in HR. destruct (fold_outcome undo _ u) as [u1| |]; [|done..]. exists u1. split; [done|]. etransitivity; [symmetry; exact HR|done].
Qed.

Lemma undos_keep E : forall s s', Forall (entryOk (marks s)) E -> wf s -> fold_outcome undo E s = Done s' -> wf s' /\ keepsMarks s s'.
Proof.
  induction E as [|e E IH]; intros s s' He Hw; cbn [fold_outcome]; [by intros [= <-]|]. apply Forall_cons in He as [He1 He2]. destruct (undo s e) as [s1| |] eqn:Hu; [|done..]. intros HF.
  destruct (undo_marks s s1 e He1 Hu) as (Hm & Hj & Hv & Hn). destruct (IH s1 s') as [Hw' (Hm' & Hj' & Hv' & Hn')]; [by rewrite Hm|by eapply undo_wf|done|].
  split; [done|]. repeat split; congruence.
Qed.

(** The revisions show in nothing else. *)
Lemma leadsTo_same s s' n sr : wf s -> same s s' -> entries (stJournal s') = entries (stJournal s) -> leadsTo s n sr -> leadsTo s' n sr.
Proof.
  intros Hw HS He (s1 & Hu & HS1). unfold leadsTo, undoTo in *. rewrite He. pose proof (undos_same _ s s' HS Hw (Forall_rev (Forall_drop _ n _ (proj2 (wf_marks s Hw))))) as HR.
  rewrite Hu in HR. destruct (fold_outcome undo _ s') as [u| |]; [|done..]. exists u. split; [done|]. etransitivity; [symmetry; exact HR|done].
Qed.

Lemma same_revisions s l n : same s (set_revisions l n s).
Proof. by apply (same_restored (set_revisions l n s) s). Qed.

(** ** The invariant *)

Record stateInv (s : StateDB) : Prop := {
  si_wf : wf s; si_fwd : fwd s; si_revs : revsOk s;
  si_hist r : r ∈ revs s -> exists sr, fwd sr /\ leadsTo s (journalIndex r) sr
}.

Lemma journalRevert_eq s n s1 : wf s -> (n <= length (entries (stJournal s)))%nat -> undoTo s n = Done s1 ->
  journalRevert s n = Done (set_journal (mkJournal (take n (entries (stJournal s))) (dirties (stJournal s1))) s1) /\ wf s1 /\ keepsMarks s s1.
Proof.
  intros Hw Hn Hu. destruct (undos_keep _ s s1 (Forall_rev (Forall_drop _ n _ (proj2 (wf_marks s Hw)))) Hw Hu) as [Hw1 HK]. split; [|done]. pose proof HK as (_ & He & _).
  unfold journalRevert. unfold undoTo in Hu. rewrite Hu. cbn [mbind outcome_bind]. unfold subslice. rewrite He, decide_True by lia. cbn [mbind outcome_bind]. by rewrite drop_0, Z.sub_0_r, Nat2Z.id.
Qed.

(** What a revert to a valid revision does. *)
Lemma revert_spec s i r : stateInv s -> revs s !! i = Some r -> exists s2,
  RevertToSnapshot s (revId r) = Done s2 /\ (forall sr, leadsTo s (journalIndex r) sr -> same s2 sr) /\ stateInv s2 /\ revs s2 = take i (revs s) /\ nextRevisionId s2 = nextRevisionId s /\
  forall m sr, (m <= journalIndex r)%nat -> leadsTo s m sr -> leadsTo s2 m sr.
Proof.
  intros [Hw Hf Hr Hh] Hi. assert (Hin : r ∈ revs s) by (by eapply list_elem_of_lookup_2). destruct (rv_bound s Hr r Hin) as [_ Hn]. destruct (Hh r Hin) as (sr & Hfr & s1 & Hu & HS).
  destruct (journalRevert_eq s (journalIndex r) s1 Hw Hn Hu) as (Hj & Hw1 & Hm & He & Hv & Hx). set (n := journalIndex r) in *.
  set (s2 := set_revisions (take i (validRevisions s1)) (nextRevisionId s1) (set_journal (mkJournal (take n (entries (stJournal s))) (dirties (stJournal s1))) s1)).
  assert (HS2 : same s1 s2) by (symmetry; by apply (same_restored s1 s2)).
  assert (Hw2 : wf s2).
  { destruct Hw1 as [G1 G2 [G3 G4]]. split; [done|intros a o Ho; apply G2; rewrite <-Ho; by apply peek_cong|split; [done|]]. cbn. rewrite He in G4. by apply Forall_take. }
  assert (HL : forall m sr, (m <= n)%nat -> leadsTo s m sr -> leadsTo s2 m sr).
  { intros m sr' Hmn (s3 & Hu3 & HS3). unfold leadsTo, undoTo in *. cbn [stJournal s2 set_revisions set_journal entries].
    assert (HD : drop m (entries (stJournal s)) = drop m (take n (entries (stJournal s))) ++ drop n (entries (stJournal s))).
    { rewrite <-(take_drop n (entries (stJournal s))) at 1. rewrite drop_app_le by (rewrite length_take; lia). done. }
    rewrite HD, rev_app_distr, fold_outcome_app, Hu in Hu3. cbn [mbind outcome_bind] in Hu3.
    assert (HE : Forall (entryOk (marks s1)) (rev (drop m (take n (entries (stJournal s)))))) by (rewrite Hm; apply Forall_rev, Forall_drop, Forall_take, (wf_marks s Hw)).
    pose proof (undos_same _ s1 s2 HS2 Hw1 HE) as HR. rewrite Hu3 in HR. destruct (fold_outcome undo _ s2) as [u| |]; [|done..]. exists u. split; [done|]. etransitivity; [symmetry; exact HR|done]. }
  exists s2. split; [rewrite (revert_valid s i r Hr Hi); fold n; by rewrite Hj|]. split.
  { intros sr' (s1' & Hu' & HS'). rewrite Hu in Hu'. injection Hu' as <-. etransitivity; [symmetry; exact HS2|done]. }
  assert (HT : revs s2 = take i (revs s)) by (unfold revs; cbn; by rewrite Hv).
  assert (HB : forall r', r' ∈ revs s2 -> r' ∈ revs s /\ (journalIndex r' <= n)%nat).
  { intros r'. rewrite HT. intros [j Hj']%list_elem_of_lookup. apply lookup_take_Some in Hj' as [Hj' Hlt]. split; [by eapply list_elem_of_lookup_2|]. by destruct (rv_sorted s Hr j i r' r). }
  split; [|done]. split; [done|eapply fwd_same; [|exact Hfr]; symmetry; etransitivity; [symmetry; exact HS2|exact HS]| |].
  - split.
    + intros j k rj rk Hjk. rewrite HT. intros [H1 _]%lookup_take_Some [H2 _]%lookup_take_Some. by eapply (rv_sorted s Hr).
    + intros r' Hr'. destruct (HB r' Hr') as [Hr1 Hr2]. split; [cbn; rewrite Hx; by apply (rv_bound s Hr)|]. cbn. rewrite length_take. lia.
  - intros r' Hr'. destruct (HB r' Hr') as [Hr1 Hr2]. destruct (Hh r' Hr1) as (sr' & Hf' & HL'). exists sr'. split; [done|]. by apply HL.
Qed.

Lemma moves_inv s s' : stateInv s -> moves s s' -> stateInv s'.
Proof.
  intros [Hw Hf Hr Hh] HM. destruct (HM Hw Hf) as (Hw' & Hf' & HV & HN & E & u & HE & _ & _). split; [done|done| |].
  - split; unfold revs; rewrite HV; [apply (rv_sorted s Hr)|]. intros r Hr'. destruct (rv_bound s Hr r Hr') as [H1 H2]. rewrite HN, HE, length_app. split; [done|lia].
  - intros r. unfold revs. rewrite HV. intros Hr'. destruct (Hh r Hr') as (sr & Hfr & HL). exists sr. split; [done|]. destruct (rv_bound s Hr r Hr') as [_ H2]. by apply (leadsTo_moves s).
Qed.

Lemma Snapshot_inv s : stateInv s -> stateInv (Snapshot s).1.
Proof.
  intros [Hw Hf Hr Hh]. cbn. set (r0 := mkRevision (nextRevisionId s) (length (entries (stJournal s)))). set (s' := set_revisions _ _ s). assert (HS : same s s') by apply same_revisions.
  assert (HR : revs s' = revs s ++ [r0]) by done. split; [eapply wf_frame; [exact Hw|by repeat split|done|done]|by eapply fwd_same| |].
  - split; rewrite HR.
    + intros i j ri rj Hij Hi Hj. apply lookup_app_Some in Hj as [Hj|[Hge Hj]]; [rewrite lookup_app_l in Hi by (apply lookup_lt_Some in Hj; lia); by eapply (rv_sorted s Hr)|].
      apply list_lookup_singleton_Some in Hj as [Hz <-]. rewrite lookup_app_l in Hi by lia. destruct (rv_bound s Hr ri) as [? ?]; [by eapply list_elem_of_lookup_2|]. done.
    + intros r [Hr'| ->%list_elem_of_singleton]%elem_of_app; [destruct (rv_bound s Hr r Hr'); cbn; lia|cbn; lia].
  - intros r. rewrite HR. intros [Hr'| ->%list_elem_of_singleton]%elem_of_app.
    + destruct (Hh r Hr') as (sr & Hfr & HL). exists sr. split; [done|]. by eapply leadsTo_same.
    + exists s. split; [done|]. exists s'. split; [|by symmetry]. unfold undoTo. cbn. by rewrite drop_all.
Qed.

Lemma runOp_inv s s' op : stateInv s -> runOp s op = Done s' -> stateInv s'.
Proof.
  intros HI Hop. assert (HC : match op with OpSnapshot | OpRevertToSnapshot _ => False | _ => True end \/ op = OpSnapshot \/ exists id, op = OpRevertToSnapshot id) by (destruct op; eauto).
  destruct HC as [Hc|[->|[id ->]]].
  - eapply moves_inv; [done|]. eapply runOp_moves; [apply HI|done|done].
  - injection Hop as <-. by apply Snapshot_inv.
  - cbn [runOp] in Hop. destruct (decide (id ∈ revId <$> revs s)) as [Hin|Hn]; [|by rewrite (revert_invalid s id (si_revs s HI) Hn) in Hop].
    apply list_elem_of_fmap in Hin as (r & -> & Hr). apply list_elem_of_lookup in Hr as [i Hi]. destruct (revert_spec s i r HI Hi) as (s2 & Hs2 & _ & HI2 & _). congruence.
Qed.

(** ** A snapshot over operations *)

(** As long as the revision is valid, undoing leads back to its state. *)
Record tracked (r : revision) (s0 s : StateDB) : Prop := {
  tr_id : revId r < nextRevisionId s;
  tr_unique r' : r' ∈ revs s -> revId r' = revId r -> r' = r;
  tr_lead : r ∈ revs s -> leadsTo s (journalIndex r) s0 /\ exists l, revs s = revs s0 ++ r :: l
}.

Lemma tracked_op r s0 s s' op : stateInv s -> tracked r s0 s -> runOp s op = Done s' -> tracked r s0 s'.
Proof.
  intros HI [Hid Hq HL] Hop. assert (HC : match op with OpSnapshot | OpRevertToSnapshot _ => False | _ => True end \/ op = OpSnapshot \/ exists id, op = OpRevertToSnapshot id) by (destruct op; eauto).
  destruct HC as [Hc|[->|[id ->]]].
  - pose proof (runOp_moves s s' op (si_fwd s HI) Hc Hop) as HM. destruct (HM (si_wf s HI) (si_fwd s HI)) as (_ & _ & HV & HN & _). split; [by rewrite HN|unfold revs; by rewrite HV|]. unfold revs. rewrite HV. intros Hr.
    destruct (HL Hr) as [H1 H2]. split; [|done]. eapply leadsTo_moves; [apply HI|apply HI|done|by apply (rv_bound s (si_revs s HI))|done].
  - injection Hop as <-. split; [cbn; lia|intros r'; unfold revs; cbn; intros [Hr| ->%list_elem_of_singleton]%elem_of_app; [by apply Hq|cbn; lia]|]. cbn. unfold revs. cbn. intros [Hr|Hr%list_elem_of_singleton]%elem_of_app; [|exfalso; rewrite Hr in Hid; cbn in Hid; lia].
    destruct (HL Hr) as (H1 & l & H2). unfold revs in H2. rewrite H2. split; [eapply leadsTo_same; [apply HI|apply same_revisions|done|done]|]. eexists. by rewrite <-app_assoc.
  - cbn [runOp] in Hop. destruct (decide (id ∈ revId <$> revs s)) as [Hin|Hn]; [|by rewrite (revert_invalid s id (si_revs s HI) Hn) in Hop].
    apply list_elem_of_fmap in Hin as (r2 & -> & Hr2). apply list_elem_of_lookup in Hr2 as [i Hi]. destruct (revert_spec s i r2 HI Hi) as (s2 & Hs2 & _ & _ & HT & HN & HLd).
    rewrite Hs2 in Hop. injection Hop as <-. split; [by rewrite HN|intros r'; rewrite HT; intros Hr'%elem_of_take; destruct Hr' as (k & Hk & _); apply Hq; by eapply list_elem_of_lookup_2|]. rewrite HT. intros [j Hj]%list_elem_of_lookup. apply lookup_take_Some in Hj as [Hj Hlt].
    destruct (HL ltac:(by eapply list_elem_of_lookup_2)) as (H1 & l & H2). split; [apply HLd; [|done]; by apply (rv_sorted s (si_revs s HI) j i r r2)|].
    destruct (decide (i <= length (revs s0))%nat) as [Hle|Hgt]; [exfalso|].
    + assert (Hm : revs s !! length (revs s0) = Some r) by (rewrite H2, lookup_app_r, Nat.sub_diag by lia; done).
      destruct (rv_sorted s (si_revs s HI) j (length (revs s0)) r r) as [? _]; [lia|done|done|]. lia.
    + rewrite H2, take_app. destruct (i - length (revs s0))%nat as [|k] eqn:Hk; [lia|]. cbn. rewrite take_ge by lia. by eexists.
Qed.

Lemma tracked_ops r s0 ops : forall s s', stateInv s -> tracked r s0 s -> runStateOps s ops = Done s' -> stateInv s' /\ tracked r s0 s'.
Proof.
  unfold runStateOps. induction ops as [|op ops IH]; intros s s' HI HT; cbn [fold_outcome]; [by intros [= <-]|]. destruct (runOp s op) as [s1| |] eqn:Hop; [|done..].
  apply IH; [by eapply runOp_inv|by eapply tracked_op].
Qed.

Lemma snapshot_revert_inv s ops s2 : stateInv s -> runStateOps (Snapshot s).1 ops = Done s2 -> (Snapshot s).2 ∈ revId <$> validRevisions s2 ->
  exists s3, RevertToSnapshot s2 (Snapshot s).2 = Done s3 /\ same s3 s /\ validRevisions s3 = validRevisions s.
Proof.
  intros HI Hops Hv. set (r := mkRevision (nextRevisionId s) (length (entries (stJournal s)))). assert (HT : tracked r s (Snapshot s).1).
  { split; [cbn; lia|intros r'; cbn; intros [Hr| ->%list_elem_of_singleton]%elem_of_app; [destruct (rv_bound s (si_revs s HI) r' Hr); lia|done]|]. intros _. split; [|by exists []]. exists (Snapshot s).1. split; [unfold undoTo; cbn; by rewrite drop_all|]. symmetry. apply same_revisions. }
  destruct (tracked_ops r s ops _ s2 (Snapshot_inv s HI) HT Hops) as [HI2 [_ Hq HL]].
  apply list_elem_of_fmap in Hv as (r' & Hid & Hr'). assert (r' = r) as -> by (by apply Hq). destruct (HL Hr') as (HLd & l & Hl).
  assert (Hi : revs s2 !! length (revs s) = Some r) by (rewrite Hl, lookup_app_r, Nat.sub_diag by lia; done).
  destruct (revert_spec s2 _ r HI2 Hi) as (s3 & Hs3 & HS & _ & HT3 & _). exists s3. split; [done|]. split; [by apply HS|]. unfold revs in *. by rewrite HT3, Hl, take_app_length.
Qed.

(** ** Blocks *)

Inductive blockOp :=
| BOp (op : stateOp)
| BFinalise (deleteEmptyObjects : bool) (order : list Address)
| BIntermediateRoot (deleteEmptyObjects : bool) (ord : rangeOrders)
| BSetTxContext (hash : Hash) (ti : Z)
| BPrepare (IsBerlin IsShanghai : bool) (sender coinbase : Address) (dst : option Address) (precompiles : list Address) (list_ : list (Address * list Hash)).

(** The context and the access list are set before a transaction takes
    snapshots, since no entry undoes that. *)
Definition blockStep (s : StateDB) (b : blockOp) (s' : StateDB) : Prop :=
  match b with
  | BOp op => runOp s op = Done s'
  | BFinalise de order => s' = Finalise s de order
  | BIntermediateRoot de ord => exists root, IntermediateRoot s de ord = Done (s', root)
  | BSetTxContext hash ti => s' = SetTxContext s hash ti /\ validRevisions s = []
  | BPrepare berlin shanghai sender coinbase dst pre l => Prepare s berlin shanghai sender coinbase dst pre l = Done s' /\ validRevisions s = []
  end.

Definition fresh (s : StateDB) : Prop := exists root layer, snapOk layer /\ newStateDB root layer = inr s.

Lemma fresh_inv s : fresh s -> stateInv s.
Proof.
  intros (root & layer & Hl & Hs). unfold newStateDB in Hs. destruct (OpenTrie root) as [e|t]; [done|]. injection Hs as <-. split.
  - split; [done| |split; [by intros a Ha|constructor]]. intros a o Ho. rewrite peek_eq in Ho. cbn in Ho. destruct (dbAccount _ a) as [acct|] eqn:Hd; [|done]. injection Ho as <-.
    split; [done|]. split; [done|]. cbn. eapply dbAccount_code; [|exact Hd]. done.
  - split; [|split; [done|by split]]. intros a n. unfold dirtyCount. by case_decide.
  - split; [done|]. intros r Hr. by apply elem_of_nil in Hr.
  - intros r Hr. by apply elem_of_nil in Hr.
Qed.

Lemma norevs_inv s : wf s -> fwd s -> validRevisions s = [] -> stateInv s.
Proof. intros Hw Hf Hv. split; [done|done|split; unfold revs; rewrite Hv; [done|]|unfold revs; rewrite Hv]; intros r Hr; by apply elem_of_nil in Hr. Qed.

(** *** The end of a transaction *)

(** States whose journal is empty. *)
Definition clean (s : StateDB) : Prop := wf s /\ entries (stJournal s) = [].

Lemma finaliseOne_clean de s a : clean s -> clean (finaliseOne de s a).
Proof.
  intros [Hw He]. unfold finaliseOne. destruct (stateObjects s !! a) as [o|] eqn:Ho; [|done].
  assert (HM : forall s1 f, wf s1 -> entries (stJournal s1) = [] -> is_Some (stateObjects s1 !! a) -> keepsOk f ->
    clean (set_marks ({[a]} ∪ stateObjectsPending (onObject a f s1)) ({[a]} ∪ stateObjectsDirty (onObject a f s1)) (onObject a f s1))).
  { intros s1 f Hw1 He1 Hl Hf. split; [|done]. pose proof (wf_onObject s1 a f Hw1 Hl (Hf a)) as [G1 G2 [G3 G4]]. split; [done| |].
    - intros b p Hp. apply G2. rewrite <-Hp. by apply peek_cong.
    - split; [|cbn; rewrite He1; constructor]. unfold marks. cbn. intros b Hb. rewrite lookup_alter_is_Some. destruct (decide (b = a)) as [->|Hne]; [done|].
      apply (lookup_alter_is_Some f _ a). apply G3. unfold marks. cbn. set_solver. }
  case_match; apply HM; try done.
  - split; [cbn; rewrite (markDestruct_keeps s o snap) by done; apply Hw| |].
    + intros b p Hp. apply (wf_obj s Hw). rewrite <-Hp. apply peek_cong; cbn; by rewrite ?(markDestruct_keeps s o stateObjects), ?(markDestruct_keeps s o snap), ?(markDestruct_keeps s o stTrie).
    + eapply (marksOk_mono s); [by apply (markDestruct_keeps s o marks)|cbn; by rewrite (markDestruct_keeps s o stJournal)|cbn; by rewrite (markDestruct_keeps s o stateObjects)|apply Hw].
  - cbn. by rewrite (markDestruct_keeps s o stJournal).
  - cbn. rewrite (markDestruct_keeps s o stateObjects) by done. by exists o.
  - by intros b p Hp.
  - by intros b p Hp.
Qed.

(** What an object's end of transaction leaves alone. *)
Lemma finaliseOne_keeps {A : Type} (f : StateDB -> A) de s a : (forall v w, f (set_destruct v w) = f w) -> (forall v w, f (set_changes v w) = f w) -> (forall v w, f (set_objects v w) = f w) ->
  (forall u v w, f (set_marks u v w) = f w) -> f (finaliseOne de s a) = f s.
Proof.
  intros F1 F2 F3 F4. unfold finaliseOne. destruct (stateObjects s !! a) as [o|]; [|done]. case_match; unfold onObject; rewrite F4, F3, ?F2; [by apply markDestruct_keeps|done].
Qed.

Lemma finaliseAll_keeps {A : Type} (f : StateDB -> A) de order : (forall v w, f (set_destruct v w) = f w) -> (forall v w, f (set_changes v w) = f w) -> (forall v w, f (set_objects v w) = f w) ->
  (forall u v w, f (set_marks u v w) = f w) -> forall s, f (foldl (finaliseOne de) s order) = f s.
Proof. intros F1 F2 F3 F4. induction order as [|a order IH]; intros s; [done|]. cbn [foldl]. by rewrite IH, finaliseOne_keeps. Qed.

(** The journal takes no part. *)
Lemma finaliseOne_journal de s a j : finaliseOne de (set_journal j s) a = set_journal j (finaliseOne de s a).
Proof.
  unfold finaliseOne, markDestruct. cbn [stateObjects set_journal stateObjectsDestruct]. destruct (stateObjects s !! a) as [o|]; [|done]. case_match; [|done]. by destruct (stateObjectsDestruct s !! address o).
Qed.

Lemma finaliseAll_journal de order : forall s j, foldl (finaliseOne de) (set_journal j s) order = set_journal j (foldl (finaliseOne de) s order).
Proof. induction order as [|a order IH]; intros s j; [done|]. cbn [foldl]. by rewrite finaliseOne_journal, IH. Qed.

Lemma Finalise_clean s de order : wf s -> clean (Finalise s de order).
Proof.
  intros Hw. unfold Finalise. set (s1 := foldl _ s order). assert (HC : clean (set_journal newJournal s1)).
  { unfold s1. rewrite <-finaliseAll_journal. assert (HC0 : clean (set_journal newJournal s)).
    { split; [|done]. destruct Hw as [G1 G2 [G3 G4]]. split; [done|intros a o Ho; apply G2; rewrite <-Ho; by apply peek_cong|]. split; [done|constructor]. }
    revert HC0. generalize (set_journal newJournal s). induction order as [|a order IH]; intros u Hu; [done|]. cbn [foldl]. by apply IH, finaliseOne_clean. }
  assert (HJ : stJournal s1 = stJournal s) by (by apply finaliseAll_keeps). destruct HC as [Hw1 _]. unfold clearJournalAndRefund. destruct (entries (stJournal s1)) as [|e l] eqn:He.
  - split; [|done]. eapply wf_frame; [exact Hw1|by repeat split|done|cbn; by rewrite He].
  - split; [|done]. eapply wf_frame; [exact Hw1|by repeat split|done|done].
Qed.

Lemma Finalise_fwd s de order : fwd s -> fwd (Finalise s de order).
Proof.
  intros [Hc [Ha Hl]]. unfold Finalise, clearJournalAndRefund. set (s1 := foldl _ s order). assert (HJ : stJournal s1 = stJournal s) by (by apply finaliseAll_keeps).
  assert (HR : restOk s1) by (split; [unfold s1; by rewrite (finaliseAll_keeps stAccess)|unfold s1; by rewrite (finaliseAll_keeps logSize)]).
  destruct (entries (stJournal s1)); (split; [|done]).
  - intros a n. unfold dirtyCount. cbn. rewrite HJ. apply Hc.
  - intros a n. unfold dirtyCount. cbn. case_decide; [done|]. by rewrite lookup_empty.
Qed.

(** *** The root *)

(** The state but for what writing the tries changes. *)
Definition writeFrame (t : Trie) (s : StateDB) : StateDB := frame t (set_changes (mkChanges ∅ ∅ ∅ ∅) s).

(** The object but for the storage, the trie and the root. *)
Definition sameObj (o p : stateObject) : Prop := address p = address o /\ addrHash p = addrHash o /\ origin p = origin o /\ CodeHash (data p) = CodeHash (data o) /\ Nonce (data p) = Nonce (data o) /\
  Balance (data p) = Balance (data o) /\ code p = code o /\ selfDestructed p = selfDestructed o /\ deleted p = deleted o /\ created p = created o /\ dirtyCode p = dirtyCode o.

Lemma sameObj_trans o p q : sameObj o p -> sameObj p q -> sameObj o q.
Proof. intros (? & ? & ? & ? & ? & ? & ? & ? & ? & ? & ?) (? & ? & ? & ? & ? & ? & ? & ? & ? & ? & ?). repeat split; congruence. Qed.

Lemma setError_writes e s t : writeFrame t (setError e s) = writeFrame t s /\ stateObjects (setError e s) = stateObjects s /\ stTrie (setError e s) = stTrie s.
Proof. unfold setError. by destruct (dbErr s). Qed.

Lemma updateSlots_keeps order : forall s o tr s' o' tr' err, updateSlots s o tr order = (s', o', tr', err) ->
  (forall t, writeFrame t s' = writeFrame t s) /\ stateObjects s' = stateObjects s /\ stTrie s' = stTrie s /\ sameObj o o' /\ data o' = data o /\ pendingStorage o' = pendingStorage o /\ dirtyStorage o' = dirtyStorage o /\ trie o' = trie o.
Proof.
  induction order as [|key order IH]; intros s o tr s' o' tr' err; cbn [updateSlots]; [by intros [= <- <- <- <-]|]. case_decide; [apply IH|].
  destruct (if decide _ then _ else _) as [tr1 [e|]]; [intros [= <- <- <- <-]|].
  - split; [intros t; apply setError_writes|]. split; [by apply (setError_writes e s (stTrie s))|]. split; [by apply (setError_writes e s (stTrie s))|done].
  - intros HU. destruct (IH _ _ _ _ _ _ _ HU) as (H1 & H2 & H3 & H4 & H5 & H6 & H7 & H8). split; [intros t; by rewrite H1|]. split; [done|]. split; [done|]. split; [|done]. eapply sameObj_trans; [|exact H4]. done.
Qed.

Lemma getTrie_obj s o : sameObj o (getTrie s o).1 /\ data (getTrie s o).1 = data o /\ pendingStorage (getTrie s o).1 = pendingStorage o /\ originStorage (getTrie s o).1 = originStorage o /\
  dirtyStorage (getTrie s o).1 = dirtyStorage o.
Proof. unfold getTrie. destruct (trie o); [done|]. by destruct (OpenStorageTrie _ _ _). Qed.

Lemma updateRoot_keeps s a o order : exists o', sameObj o o' /\ (forall t, writeFrame t (updateRoot s a o order) = writeFrame t s) /\ stTrie (updateRoot s a o order) = stTrie s /\
  stateObjects (updateRoot s a o order) = <[a := o']> (stateObjects s).
Proof.
  unfold updateRoot. case_decide.
  { cbn [trie objFinalise set_storage]. destruct (trie o) as [tr|]; [destruct (TrieHash tr)|]; eexists; (split; [|split; [|split; [|reflexivity]]]); done. }
  destruct (getTrie_obj s (objFinalise o)) as (HG & _). destruct (getTrie s (objFinalise o)) as [o1 [e|tr]]; cbn [fst] in HG.
  { exists o1. split; [done|]. destruct (setError_writes e s (stTrie s)) as (_ & H2 & H3). split; [intros t; by destruct (setError_writes e s t)|]. split; [done|]. cbn. by rewrite H2. }
  destruct (updateSlots s o1 tr order) as [[[s' o'] tr'] err] eqn:HU. destruct (updateSlots_keeps _ _ _ _ _ _ _ _ HU) as (H1 & H2 & H3 & H4 & _).
  assert (HO : sameObj o o') by (eapply sameObj_trans; [|exact H4]; done).
  destruct err as [e|]; [|destruct (TrieHash tr')]; eexists; (split; [|split; [|split; [|cbn; rewrite H2; reflexivity]]]); done.
Qed.

Lemma sameObj_ok a o o' : objOk a o -> sameObj o o' -> objOk a o'.
Proof. intros (H1 & H2 & H3) (E1 & E2 & _ & E3 & _). repeat split; congruence. Qed.

(** States that differ in what writing changes, with the same live objects. *)
Lemma wf_writes s s' : wf s -> (forall t, writeFrame t s' = writeFrame t s) -> (forall a o', stateObjects s' !! a = Some o' -> exists o, stateObjects s !! a = Some o /\ sameObj o o') ->
  (forall a, is_Some (stateObjects s !! a) -> is_Some (stateObjects s' !! a)) -> wf s'.
Proof.
  intros Hw HF HO HL. pose proof (HF (stTrie s)) as H. assert (Hs : snapOk (snap s')) by (rewrite (f_equal snap H : snap s' = snap s); apply Hw). split; [done| |].
  - intros a o' Ho. rewrite peek_eq in Ho. destruct (stateObjects s' !! a) as [p|] eqn:Hp.
    + injection Ho as ->. destruct (HO a o' Hp) as (o & Ho & Hso). eapply sameObj_ok; [by eapply wf_live|done].
    + destruct (dbAccount s' a) as [acct|] eqn:Hd; [|done]. injection Ho as <-. split; [done|]. split; [done|]. by eapply dbAccount_code.
  - eapply (marksOk_mono s); [exact (f_equal marks H)|exact (f_equal (fun s => entries (stJournal s)) H)|exact HL|apply Hw].
Qed.

Definition writes (s s' : StateDB) : Prop := (forall t, writeFrame t s' = writeFrame t s) /\ (forall a o', stateObjects s' !! a = Some o' -> exists o, stateObjects s !! a = Some o /\ sameObj o o') /\
  forall a, is_Some (stateObjects s !! a) -> is_Some (stateObjects s' !! a).

Lemma writes_refl s : writes s s.
Proof. split; [done|]. split; [|done]. intros a o Ho. by exists o. Qed.

Lemma writes_trans s1 s2 s3 : writes s1 s2 -> writes s2 s3 -> writes s1 s3.
Proof.
  intros (H1 & H2 & H3) (H4 & H5 & H6). split; [intros t; congruence|]. split; [|auto]. intros a o Ho. destruct (H5 a o Ho) as (p & Hp & E1). destruct (H2 a p Hp) as (q & Hq & E2). exists q. split; [done|].
  by eapply sameObj_trans.
Qed.

Lemma writes_same s s' : (forall t, writeFrame t s' = writeFrame t s) -> stateObjects s' = stateObjects s -> writes s s'.
Proof. intros H1 H2. split; [done|]. rewrite H2. split; [|done]. intros a o Ho. by exists o. Qed.

Lemma rootOne_writes ord s s' a : rootOne ord s a = Done s' -> writes s s'.
Proof.
  unfold rootOne. destruct (stateObjects s !! a) as [o|] eqn:Ho; [|done]. intros [= <-]. destruct (deleted o); [apply writes_refl|]. destruct (updateRoot_keeps s a o (ord a)) as (o' & Hs & HF & _ & HO).
  split; [done|]. rewrite HO. split; intros b.
  - intros p. destruct (decide (a = b)) as [<-|Hne]; [rewrite lookup_insert_eq; intros [= <-]; by exists o|rewrite lookup_insert_ne by done; intros Hp; by exists p].
  - intros Hb. destruct (decide (a = b)) as [<-|Hne]; [rewrite lookup_insert_eq; eauto|by rewrite lookup_insert_ne].
Qed.

Lemma writeOne_writes s s' a : writeOne s a = Done s' -> writes s s'.
Proof.
  unfold writeOne. destruct (stateObjects s !! a) as [o|]; [|done]. destruct (deleted o).
  - intros [= <-]. unfold deleteStateObject. destruct (DeleteAccount _ _) as [t [e|]]; apply writes_same; try done; [intros u; by rewrite (proj1 (setError_writes e (set_stTrie t s) u))|].
    by rewrite (proj1 (proj2 (setError_writes e (set_stTrie t s) t))).
  - unfold updateStateObject. destruct (UpdateAccount _ _ _) as [t err]. set (s1 := match err with Some e => setError e (set_stTrie t s) | None => set_stTrie t s end).
    assert (HW : writes s s1).
    { apply writes_same; unfold s1; destruct err as [e|]; try done; [intros u; by rewrite (proj1 (setError_writes e (set_stTrie t s) u))|]. by rewrite (proj1 (proj2 (setError_writes e (set_stTrie t s) t))). }
    destruct (SlimAccountRLP (data o)); [|done..]. cbn [mbind outcome_bind]. destruct (match accountsOrigin _ !! _ with Some _ => _ | None => _ end); [|done..]. intros [= <-].
    eapply writes_trans; [exact HW|]. by apply writes_same.
Qed.

Lemma fold_writes (f : StateDB -> Address -> outcome StateDB) l : (forall s s' a, f s a = Done s' -> writes s s') -> forall s s', fold_outcome f l s = Done s' -> writes s s'.
Proof.
  intros Hf. induction l as [|a l IH]; intros s s'; cbn [fold_outcome]; [intros [= <-]; apply writes_refl|]. destruct (f s a) as [s1| |] eqn:H1; [|done..]. intros H2. eapply writes_trans; [by eapply Hf|by apply IH].
Qed.

Lemma IntermediateRoot_inv s s' de ord root : stateInv s -> IntermediateRoot s de ord = Done (s', root) -> stateInv s'.
Proof.
  intros HI. unfold IntermediateRoot. pose proof (Finalise_clean s de (ordDirties ord) (si_wf s HI)) as [Hw He]. pose proof (Finalise_fwd s de (ordDirties ord) (si_fwd s HI)) as Hf.
  set (s0 := Finalise s de (ordDirties ord)) in *. destruct (fold_outcome (rootOne _) _ s0) as [s1| |] eqn:H1; [|done..]. cbn [mbind outcome_bind].
  destruct (fold_outcome writeOne _ s1) as [s2| |] eqn:H2; [|done..]. cbn [mbind outcome_bind]. destruct (TrieHash _) as [t h]. intros [= <- <-].
  assert (HW : writes s0 s2) by (eapply writes_trans; [eapply fold_writes, H1; intros; by eapply rootOne_writes|eapply fold_writes, H2; intros; by eapply writeOne_writes]).
  destruct HW as (HF & HO & HL). pose proof (wf_writes s0 s2 Hw HF HO HL) as Hw2. pose proof (HF (stTrie s0)) as H.
  assert (Hj : stJournal s2 = stJournal s0) by exact (f_equal stJournal H). apply norevs_inv; [| |].
  - destruct Hw2 as [G1 G2 [G3 G4]]. split; [done| |].
    + intros a o. rewrite peek_eq. cbn. destruct (stateObjects s2 !! a) as [p|] eqn:Hp; [intros [= <-]; apply G2; by apply live_peek|].
      destruct (dbAccount _ a) as [acct|] eqn:Hd; [|done]. intros [= <-]. split; [done|]. split; [done|]. cbn. eapply dbAccount_code; [|exact Hd]. exact G1.
    + split; [intros a Ha; apply G3; unfold marks in *; cbn in Ha; set_solver|]. cbn. rewrite Hj, He. constructor.
  - destruct Hf as [Hc [Ha Hz]]. split; [|split].
    + intros a n. unfold dirtyCount. cbn. rewrite Hj. apply Hc.
    + cbn. by rewrite (f_equal stAccess H : stAccess s2 = stAccess s0).
    + cbn. by rewrite (f_equal logSize H : logSize s2 = logSize s0).
  - cbn. rewrite (f_equal validRevisions H : validRevisions s2 = validRevisions s0). unfold s0, Finalise, clearJournalAndRefund. by destruct (entries _).
Qed.

Lemma fold_outcome_keeps {A S} (P : S -> Prop) (f : S -> A -> outcome S) l : (forall s a s', P s -> f s a = Done s' -> P s') -> forall s s', P s -> fold_outcome f l s = Done s' -> P s'.
Proof. intros Hf. induction l as [|a l IH]; intros s s' Hs; cbn [fold_outcome]; [by intros [= <-]|]. destruct (f s a) as [s1| |] eqn:H1; [|done..]. apply IH. by eapply Hf. Qed.

Lemma Prepare_inv s s' berlin shanghai sender coinbase dst pre l : stateInv s -> validRevisions s = [] -> Prepare s berlin shanghai sender coinbase dst pre l = Done s' -> stateInv s'.
Proof.
  intros HI Hv. assert (HA : forall al tr, alOk al -> stateInv (set_transient tr (set_access al s))).
  { intros al tr Ha. apply norevs_inv; [eapply wf_frame; [apply HI|by repeat split|done|done]| |done]. destruct (si_fwd s HI) as [Hc [_ Hz]]. by split; [|split]. }
  unfold Prepare. destruct berlin; cbn [mbind outcome_bind]; [|intros [= <-]; replace s with (set_access (stAccess s) s) at 2 by (by destruct s); apply HA; by destruct (si_fwd s HI) as [_ [? _]]].
  set (al0 := foldl _ _ pre). assert (H0 : alOk al0).
  { unfold al0. assert (H1 : alOk (match dst with Some dst => (AddAddress (AddAddress newAccessList sender).1 dst).1 | None => (AddAddress newAccessList sender).1 end))
      by (destruct dst; repeat apply alOk_AddAddress; by intros a idx Hx).
    revert H1. generalize (match dst with Some dst => (AddAddress (AddAddress newAccessList sender).1 dst).1 | None => (AddAddress newAccessList sender).1 end).
    induction pre as [|a pre IH]; intros al Hal; [done|]. cbn [foldl]. by apply IH, alOk_AddAddress. }
  destruct (fold_outcome prepareTuple l al0) as [al| |] eqn:HL; [|done..]. cbn [mbind outcome_bind]. intros [= <-]. apply HA.
  assert (alOk al); [|destruct shanghai; [by apply alOk_AddAddress|done]]. revert HL. apply fold_outcome_keeps; [|done]. intros al1 el al2 Hal. unfold prepareTuple.
  apply fold_outcome_keeps; [|by apply alOk_AddAddress]. intros al3 key al4 H3. destruct (AddSlot al3 el.1 key) as [r| |] eqn:HS; [|done..]. cbn [mbind outcome_bind]. destruct r as [al5 p]. intros [= <-].
  exact (alOk_AddSlot al3 el.1 key _ H3 HS).
Qed.

Lemma blockStep_inv s b s' : stateInv s -> blockStep s b s' -> stateInv s'.
Proof.
  intros HI. destruct b as [op|de order|de ord|hash ti|berlin shanghai sender coinbase dst pre l]; cbn [blockStep].
  - by apply runOp_inv.
  - intros ->. destruct (Finalise_clean s de order (si_wf s HI)) as [Hw _]. apply norevs_inv; [done|apply Finalise_fwd, HI|]. unfold Finalise, clearJournalAndRefund. by destruct (entries _).
  - intros (root & Hr). by eapply IntermediateRoot_inv.
  - intros [-> Hv]. destruct (si_fwd s HI) as [Hc [Ha Hz]]. apply norevs_inv; [eapply wf_frame; [apply HI|by repeat split|done|done]|by split; [|split]|done].
  - intros [HP Hv]. by eapply Prepare_inv.
Qed.

(** ** What the state answers *)

Inductive query :=
| QExist (a : Address) | QEmpty (a : Address) | QBalance (a : Address) | QNonce (a : Address) | QStorageRoot (a : Address) | QCodeHash (a : Address) | QSelfDestructed (a : Address)
| QCode (a : Address) | QState (a : Address) (key : Hash) | QCommittedState (a : Address) (key : Hash) | QTransientState (a : Address) (key : Hash)
| QRefund | QLogs (h : Hash) | QPreimage (h : Hash) | QAddressInAccessList (a : Address) | QSlotInAccessList (a : Address) (slot : Hash).

Inductive reply := RBool (b : bool) | RNum (z : Z) | RBytes (b : option (list Z)) | RLogs (l : list Log) | RSlot (r : outcome (bool * bool)).

Definition reply_ (s : StateDB) (q : query) : reply :=
  match q with
  | QExist a => RBool (Exist s a).2
  | QEmpty a => RBool (Empty s a).2
  | QBalance a => RNum (GetBalance s a).2
  | QNonce a => RNum (GetNonce s a).2
  | QStorageRoot a => RBytes (Some (GetStorageRoot s a).2)
  | QCodeHash a => RBytes (Some (GetCodeHash s a).2)
  | QSelfDestructed a => RBool (HasSelfDestructed s a).2
  | QCode a => RBytes (GetCode s a).2
  | QState a key => RBytes (Some (GetState s a key).2)
  | QCommittedState a key => RBytes (Some (GetCommittedState s a key).2)
  | QTransientState a key => RBytes (Some (GetTransientState s a key))
  | QRefund => RNum (refund s)
  | QLogs h => RLogs (default [] (logs s !! h))
  | QPreimage h => RBytes (preimages s !! h)
  | QAddressInAccessList a => RBool (ContainsAddress (stAccess s) a)
  | QSlotInAccessList a slot => RSlot (Contains (stAccess s) a slot)
  end.

(** Loading an object does not change what it reads. *)
Lemma loaded_state s a o key : codeOf (getDeletedStateObject s a).1 o = codeOf s o /\ stateOf (getDeletedStateObject s a).1 o key = stateOf s o key /\
  committedOf (getDeletedStateObject s a).1 o key = committedOf s o key.
Proof.
  destruct (load_quiet s a) as (Hq & _). pose proof (quiet_env _ _ Hq) as HE. destruct (sameObject_self s (getDeletedStateObject s a).1 o HE). by repeat split.
Qed.

Lemma reply_same s t q : same s t -> reply_ s q = reply_ t q.
Proof.
  intros HS. assert (HA : forall A a (none : A) f, (forall o p, data o = data p -> selfDestructed o = selfDestructed p -> f o = f p) -> (ask s a none f).2 = (ask t a none f).2).
  { intros A a none f Hf. unfold ask. destruct (getStateObject_same s t a HS) as [(o & p & [] & _ & _ & _ & -> & ->)|[-> ->]]; [|done]. by apply Hf. }
  destruct q as [a|a|a|a|a|a|a|a|a key|a key|a key| |h|h|a|a slot]; cbn [reply_]; unfold Exist, Empty, GetBalance, GetNonce, GetStorageRoot, GetCodeHash, HasSelfDestructed.
  - by rewrite (HA _ a false (fun _ => true)).
  - rewrite (HA _ a true objEmpty); [done|]. intros o p Hd _. unfold objEmpty. by rewrite Hd.
  - rewrite (HA _ a 0 (fun o => Balance (data o))); [done|]. by intros o p -> _.
  - rewrite (HA _ a 0 (fun o => Nonce (data o))); [done|]. by intros o p -> _.
  - rewrite (HA _ a zeroHash (fun o => Root (data o))); [done|]. by intros o p -> _.
  - rewrite (HA _ a zeroHash (fun o => BytesToHash (CodeHash (data o)))); [done|]. by intros o p -> _.
  - by rewrite (HA _ a false selfDestructed).
  - unfold GetCode. destruct (getStateObject_same s t a HS) as [(o & p & [] & _ & _ & _ & -> & ->)|[-> ->]]; [|done].
    destruct (loaded_state s a o []) as (H1 & _), (loaded_state t a p []) as (H2 & _). unfold codeOf in *. congruence.
  - unfold GetState. destruct (getStateObject_same s t a HS) as [(o & p & [] & _ & _ & _ & -> & ->)|[-> ->]]; [|done].
    destruct (loaded_state s a o key) as (_ & H1 & _), (loaded_state t a p key) as (_ & H2 & _). unfold stateOf in *. specialize (so_state key). congruence.
  - unfold GetCommittedState. destruct (getStateObject_same s t a HS) as [(o & p & [] & _ & _ & _ & -> & ->)|[-> ->]]; [|done].
    destruct (loaded_state s a o key) as (_ & _ & H1), (loaded_state t a p key) as (_ & _ & H2). unfold committedOf in *. specialize (so_committed key). congruence.
  - unfold GetTransientState. by rewrite (sm_transient s t HS).
  - by rewrite (sm_refund s t HS).
  - by rewrite (sm_logs s t HS).
  - by rewrite (sm_preimages s t HS).
  - by rewrite (sm_access s t HS).
  - by rewrite (sm_access s t HS).
Qed.
End Snapshots.

(** ** Reverting *)

(** C6: after any operations behind a snapshot, nested snapshots and reverts
    among them, reverting to the snapshot works as long as it is valid; every
    question about accounts, storage, code, logs, refund, preimages, access list
    and transient storage is answered as it was when the snapshot was taken, and
    the snapshots before it are those of that time. *)
Theorem snapshot_revert {K : Keccak} {KL : KeccakLaws K} {DB : StateDatabase} {RL : StateReadLaws DB} s ops s2 :
  reachable fresh blockStep s -> runStateOps (Snapshot s).1 ops = Done s2 -> (Snapshot s).2 ∈ revId <$> validRevisions s2 ->
  exists s3, RevertToSnapshot s2 (Snapshot s).2 = Done s3 /\ same s3 s /\ (forall q, reply_ s3 q = reply_ s q) /\ validRevisions s3 = validRevisions s.
Proof.
  intros Hr Hops Hv. assert (stateInv s) as HI by (eapply (reachable_inv fresh blockStep stateInv); [exact fresh_inv|intros; by eapply blockStep_inv|done]).
  destruct (snapshot_revert_inv s ops s2 HI Hops Hv) as (s3 & H1 & H2 & H3). exists s3. split; [done|]. split; [done|]. split; [|done]. intros q. by apply reply_same.
Qed.

Module SampleState.
(** A function with 32 bytes of answer, and a database whose accounts have a
    nonce and a balance; every storage trie has the value 7 under each key. *)
Definition pad32 (b : list Z) : list Z := take 32 (1 :: b ++ replicate 32 7).

Lemma pad32_len b : length (pad32 b) = 32%nat.
Proof. unfold pad32. rewrite length_take. cbn [length]. rewrite length_app, length_replicate. lia. Qed.

#[export] Instance stK : Keccak := {| sha := pad32; emptyRoot := pad32 [0x80] |}.
#[export] Instance stKL : KeccakLaws stK := {| sha_len := pad32_len; emptyRoot_sha := eq_refl |}.

#[export] Instance stDB : StateDatabase := {|
  Trie := gmap Address (Z * Z);
  GetAccount t a := (t, inr ((fun nb => mkAccount nb.1 nb.2 emptyRoot (sha [])) <$> t !! a));
  GetStorage t a k := (t, inr [7]);
  UpdateAccount t a acct := (<[a := (Nonce acct, Balance acct)]> t, None);
  UpdateStorage t a k v := (t, None);
  DeleteAccount t a := (delete a t, None);
  DeleteStorage t a k := (t, None);
  TrieHash t := (t, pad32 [Z.of_nat (base.size t)]);
  OpenTrie root := inr {[ [1] := (3, 50) ]};
  OpenStorageTrie stateRoot a root := inr ∅;
  ContractCode a h := inl errCode
|}.

#[export] Instance stRL : StateReadLaws stDB.
Proof.
  split; try done. intros t a acct. change ((GetAccount t a).2) with (inr (A := dbError) ((fun nb => mkAccount nb.1 nb.2 emptyRoot (sha [])) <$> (t : gmap Address (Z * Z)) !! a)).
  destruct ((t : gmap Address (Z * Z)) !! a); [|discriminate]. intros [= <-]. apply pad32_len.
Qed.

Definition start : StateDB := match newStateDB (DB := stDB) zeroHash None with inr s => s | inl _ => mkState (∅ : gmap Address (Z * Z)) None [] (mkChanges ∅ ∅ ∅ ∅) ∅ ∅ ∅ ∅ None 0 [] 0 ∅ 0 ∅ newAccessList ∅ newJournal [] 0 end.

Lemma start_reachable : reachable fresh blockStep start.
Proof. apply reach_init. exists zeroHash, None. split; [done|reflexivity]. Qed.

Definition slotKey : Hash := replicate 32 9.
Definition slotValue : Hash := replicate 31 0 ++ [8].

(** Changes of an account and its storage, a nested snapshot with a new account in
    the same place that is reverted, an account that destroys itself, and an
    access. *)
Definition sampleOps : list stateOp :=
  [OpAddBalance [1] 5; OpSetState [1] slotKey slotValue; OpSnapshot; OpCreateAccount [1]; OpSetCode [1] [96; 0]; OpAddBalance [2] 0; OpRevertToSnapshot 1; OpSelfDestruct [1];
   OpAddSlot [4] slotKey; OpAddRefund 4; OpAddLog (mkLog [1] [] [] 0 [] 0 [] 0 false); OpSetTransientState [1] slotKey slotValue].
End SampleState.

Import SampleState.

Lemma snapshot_revert_witness :
  match runStateOps (Snapshot start).1 sampleOps with
  | Done s2 => (GetBalance s2 [1]).2 = 0 /\ exists s3, RevertToSnapshot s2 0 = Done s3 /\ (GetBalance s3 [1]).2 = 50 /\ (GetState s3 [1] slotKey).2 = replicate 31 0 ++ [7] /\
      Contains (stAccess s3) [4] slotKey = Done (false, false)
  | _ => False
  end.
Proof.
  assert (H : match runStateOps (Snapshot start).1 sampleOps with Done s2 => ((GetBalance s2 [1]).2, revId <$> validRevisions s2) | _ => (1, []) end = (0, [0])) by (vm_compute; reflexivity).
  destruct (runStateOps (Snapshot start).1 sampleOps) as [s2| |] eqn:E; [|discriminate H|discriminate H]. injection H as H1 H2. split; [exact H1|].
  destruct (snapshot_revert start sampleOps s2 start_reachable E) as (s3 & HR & _ & HQ & _); [rewrite H2; by left|]. exists s3. split; [exact HR|].
  pose proof (HQ (QBalance [1])) as Q1. pose proof (HQ (QState [1] slotKey)) as Q2. pose proof (HQ (QSlotInAccessList [4] slotKey)) as Q3.
  assert (R1 : (GetBalance start [1]).2 = 50) by (vm_compute; reflexivity). assert (R2 : (GetState start [1] slotKey).2 = replicate 31 0 ++ [7]) by (vm_compute; reflexivity).
  assert (R3 : Contains (stAccess start) [4] slotKey = Done (false, false)) by (vm_compute; reflexivity).
  split; [exact (eq_trans (f_equal (fun r => match r with RNum z => z | _ => 0 end) Q1) R1)|].
  split; [exact (eq_trans (f_equal (fun r => match r with RBytes (Some h) => h | _ => [] end) Q2) R2)|].
  exact (eq_trans (f_equal (fun r => match r with RSlot o => o | _ => Panic end) Q3) R3).
Defined.
