(* ===== verification/SortCache.v ===== *)
(** * Ordered caches of the Bitcoin worker

    [eth/btcsortmap.go] and [eth/btctxsortmap.go]: a map that remembers the
    order in which its keys were first set, and the in-place quicksort that
    reorders the keys of the block cache.  The two source types differ in the
    key type and in [Keys] and [Sort]; they share one model, over the type of
    keys. *)

From Stdlib Require Import Sorted.
From S2P Require Import Prelude.

Local Open Scope Z_scope.

(** ** The cache *)

Section cache.
Context {K V : Type} `{Countable K}.

Record sortCache := mkSortCache {
  keyList : list K;
  cache : gmap K V
}.

Definition newSortCache : sortCache := mkSortCache [] ∅.

Definition Set_ (b : sortCache) (index : K) (val : V) : sortCache :=
  mkSortCache
    (match cache b !! index with
     | Some _ => keyList b
     | None => keyList b ++ [index]
     end)
    (<[index := val]> (cache b)).

(** A missing key answers the nil interface, [None]. *)
Definition Get (b : sortCache) (index : K) : option V := cache b !! index.

Definition Keys (b : sortCache) : list K := keyList b.

(** [btcTxSortCache.Keys] may be called on a nil receiver. *)
Definition TxKeys (b : option sortCache) : list K :=
  match b with None => [] | Some b => keyList b end.

End cache.
Arguments sortCache K V {_ _}.

(** ** Quicksort on a slice of [int64]

    The slice is a list whose reads and writes are bounds-checked.  The
    indices are [int64] in the source; they stay between [-1] and the length,
    so no operation on them wraps. *)

(** The loop of [partition]: [n] iterations are left, [j] is the loop
    variable and [i] the end of the low part. *)
Fixpoint partition_loop (n : nat) (pivot : Z) (arr : list Z) (i j : Z) : outcome (list Z * Z) :=
  match n with
  | O => Done (arr, i)
  | S n =>
      x ← index arr j;
      if decide (x < pivot)
      then y ← index arr (i + 1);
           arr ← store arr (i + 1) x;
           arr ← store arr j y;
           partition_loop n pivot arr (i + 1) (j + 1)
      else partition_loop n pivot arr i (j + 1)
  end.

Definition partition (arr : list Z) (left right : Z) : outcome (list Z * Z) :=
  pivot ← index arr right;
  '(arr, i) ← partition_loop (Z.to_nat (right - left)) pivot arr (left - 1) left;
  x ← index arr (i + 1);
  y ← index arr right;
  arr ← store arr (i + 1) y;
  arr ← store arr right x;
  Done (arr, i + 1).

Fixpoint quickSort (fuel : nat) (arr : list Z) (left right : Z) : outcome (list Z) :=
  if decide (left < right)
  then match fuel with
       | O => Stuck
       | S fuel =>
           '(arr, pivot) ← partition arr left right;
           arr ← quickSort fuel arr left (pivot - 1);
           quickSort fuel arr (pivot + 1) right
       end
  else Done arr.

(** [Sort]: the fuel is the length of the slice, one unit per level of the
    recursion, which loses the pivot at every level. *)
Definition Sort {V} (b : sortCache Z V) : outcome (sortCache Z V) :=
  keys ← quickSort (length (keyList b)) (keyList b) 0 (Z.of_nat (length (keyList b)) - 1);
  Done (mkSortCache keys (cache b)).

(** ** The cache as a map *)

(** The key list enumerates the domain of the map, each key once. *)
Definition cache_wf {K V} `{Countable K} (b : sortCache K V) : Prop :=
  NoDup (keyList b) /\ forall k, k ∈ keyList b <-> is_Some (cache b !! k).

Section cache_theory.
Context {K V : Type} `{Countable K}.

Implicit Types b : sortCache K V.

Lemma newSortCache_wf : cache_wf (newSortCache (K := K) (V := V)).
Proof.
  split; [constructor|]. intros k. simpl.
  rewrite lookup_empty, elem_of_nil. split; [done | by intros []].
Qed.

Lemma Set_wf b k v : cache_wf b -> cache_wf (Set_ b k v).
Proof.
  intros [Hnd Hdom]. split; simpl.
  - destruct (cache b !! k) eqn:E; [done|]. apply NoDup_app. repeat split; [done| |apply NoDup_singleton].
    intros x Hx. rewrite list_elem_of_singleton. intros ->. apply Hdom in Hx as [? ?]. congruence.
  - intros x. destruct (decide (x = k)) as [->|Hne].
    + rewrite lookup_insert_eq. split; [eauto|intros _].
      destruct (cache b !! k) eqn:E; [apply Hdom; eauto|]. rewrite elem_of_app, list_elem_of_singleton. auto.
    + rewrite lookup_insert_ne by done. rewrite <-Hdom.
      destruct (cache b !! k); [done|]. rewrite elem_of_app, list_elem_of_singleton. naive_solver.
Qed.

Lemma Get_Set_eq b k v : Get (Set_ b k v) k = Some v.
Proof. apply lookup_insert_eq. Qed.

Lemma Get_Set_ne b k k' v : k <> k' -> Get (Set_ b k v) k' = Get b k'.
Proof. apply lookup_insert_ne. Qed.

(** Filling a fresh cache from a list of pairs. *)
Definition fill (l : list (K * V)) : sortCache K V :=
  foldl (fun b p => Set_ b p.1 p.2) newSortCache l.

Lemma fill_snoc l p : fill (l ++ [p]) = Set_ (fill l) p.1 p.2.
Proof. unfold fill. by rewrite foldl_app. Qed.

Lemma fill_wf l : cache_wf (fill l).
Proof.
  induction l as [|p l IH] using rev_ind; [apply newSortCache_wf|].
  rewrite fill_snoc. by apply Set_wf.
Qed.

Lemma fill_dom l k : is_Some (Get (fill l) k) <-> k ∈ l.*1.
Proof.
  induction l as [|p l IH] using rev_ind.
  - split; [by intros [? ?] | by intros ?%elem_of_nil].
  - rewrite fill_snoc, fmap_app, elem_of_app. simpl. rewrite list_elem_of_singleton.
    destruct (decide (p.1 = k)) as [->|Hne].
    + rewrite Get_Set_eq. naive_solver.
    + rewrite Get_Set_ne by done. naive_solver.
Qed.

(** With distinct keys, the key list is the insertion order. *)
Lemma fill_keys l : NoDup l.*1 -> Keys (fill l) = l.*1.
Proof.
  induction l as [|p l IH] using rev_ind; [done|].
  rewrite fmap_app. simpl. intros (Hnd & Hdis & _)%NoDup_app.
  rewrite fill_snoc. unfold Keys in *. simpl.
  destruct (cache (fill l) !! p.1) eqn:E; [|by rewrite IH].
  exfalso. apply (Hdis p.1); [|by apply list_elem_of_singleton].
  apply fill_dom. unfold Get. eauto.
Qed.

End cache_theory.

(** ** Correctness of quicksort *)

(** [seg arr l r P]: every element of [arr] at an index in [l, r] satisfies [P]. *)
Definition seg (arr : list Z) (l r : Z) (P : Z -> Prop) : Prop :=
  forall k x, l <= Z.of_nat k <= r -> arr !! k = Some x -> P x.

(** Equal outside the indices [l .. r]. *)
Definition same_outside (l r : Z) (arr arr' : list Z) : Prop :=
  forall k, ~ (l <= Z.of_nat k <= r) -> arr' !! k = arr !! k.

(** [arr'] is [arr] with the elements at [l .. r] permuted. *)
Definition perm_within (l r : Z) (arr arr' : list Z) : Prop :=
  arr' ≡ₚ arr /\ same_outside l r arr arr'.

Definition sorted_within (l r : Z) (arr : list Z) : Prop :=
  forall i j x y, l <= Z.of_nat i -> (i <= j)%nat -> Z.of_nat j <= r ->
    arr !! i = Some x -> arr !! j = Some y -> x <= y.

Lemma perm_within_refl l r arr : perm_within l r arr arr.
Proof. split; [done | intros ? ?; done]. Qed.

Lemma perm_within_trans l r a b c :
  perm_within l r a b -> perm_within l r b c -> perm_within l r a c.
Proof.
  intros [P1 S1] [P2 S2]. split; [by rewrite P2|].
  intros k Hk. by rewrite S2, S1.
Qed.

Lemma perm_within_mono l r l' r' a b :
  l' <= l -> r <= r' -> perm_within l r a b -> perm_within l' r' a b.
Proof. intros ?? [P S]. split; [done|]. intros k Hk. apply S. lia. Qed.

Lemma perm_within_length l r a b : perm_within l r a b -> length b = length a.
Proof. intros [P _]. by apply Permutation_length. Qed.

(** Swapping the contents of two cells. *)
Lemma swap_perm_within l r (arr : list Z) (i j : nat) x y :
  l <= Z.of_nat i <= r -> l <= Z.of_nat j <= r ->
  arr !! i = Some x -> arr !! j = Some y ->
  perm_within l r arr (<[j := x]> (<[i := y]> arr)).
Proof.
  intros Hi Hj Hx Hy. split.
  - by apply Permutation_insert_swap.
  - intros k Hk. rewrite !list_lookup_insert_ne; [done|intros ->; lia|intros ->; lia].
Qed.

Lemma partition_loop_spec n pivot left right : forall arr i j,
  0 <= left -> left - 1 <= i -> i < j -> j + Z.of_nat n = right ->
  right < Z.of_nat (length arr) ->
  seg arr left i (fun x => x < pivot) ->
  seg arr (i + 1) (j - 1) (fun x => pivot <= x) ->
  exists arr' i', partition_loop n pivot arr i j = Done (arr', i')
    /\ perm_within left (right - 1) arr arr' /\ left - 1 <= i' < right
    /\ seg arr' left i' (fun x => x < pivot)
    /\ seg arr' (i' + 1) (right - 1) (fun x => pivot <= x).
Proof.
  induction n as [|n IH]; intros arr i j Hl Hi Hij Hj Hlen Hlow Hhigh.
  { exists arr, i. replace (right - 1) with (j - 1) by lia.
    repeat split; [done|lia|lia|done|done]. }
  simpl. destruct (index_in_range arr j) as [x Hx]; [lia|]. rewrite Hx. simpl.
  apply index_Done in Hx as [_ Hx]. case_decide as Hcmp.
  - destruct (index_in_range arr (i + 1)) as [y Hy]; [lia|]. rewrite Hy. simpl.
    apply index_Done in Hy as [_ Hy].
    rewrite !store_Done; rewrite ?length_insert; try lia. simpl.
    rewrite store_Done by (rewrite length_insert; lia). simpl.
    set (arr2 := <[Z.to_nat j:=y]> (<[Z.to_nat (i + 1):=x]> arr)).
    assert (Hpw : perm_within left (right - 1) arr arr2)
      by (apply swap_perm_within; [lia|lia|done|done]).
    destruct (IH arr2 (i + 1) (j + 1)) as (arr' & i' & Heq & Hpw' & Hrest); try lia.
    + rewrite (perm_within_length _ _ _ _ Hpw). lia.
    + intros k z Hk. unfold arr2.
      destruct (decide (Z.of_nat k = i + 1)) as [E|E].
      * replace (Z.to_nat (i + 1)) with k by lia. destruct (decide (k = Z.to_nat j)) as [->|Hne].
        -- rewrite list_lookup_insert_eq by (rewrite length_insert; lia).
           replace (i + 1) with j in Hy by lia. intros. simplify_eq. congruence.
        -- rewrite list_lookup_insert_ne by done. rewrite list_lookup_insert_eq by lia. congruence.
      * rewrite !list_lookup_insert_ne by lia. apply Hlow. lia.
    + intros k z Hk. unfold arr2. destruct (decide (Z.of_nat k = j)) as [E|E].
      * replace (Z.to_nat j) with k by lia. rewrite list_lookup_insert_eq by (rewrite length_insert; lia).
        intros ?; simplify_eq. apply (Hhigh (Z.to_nat (i + 1))); [lia|done].
      * rewrite !list_lookup_insert_ne by lia. apply Hhigh. lia.
    + exists arr', i'. split; [done|]. split; [by eapply perm_within_trans|done].
  - destruct (IH arr i (j + 1)) as (arr' & i' & Heq & Hrest); try lia; [done| |eauto].
    intros k z Hk Hz. destruct (decide (Z.of_nat k = j)) as [E|E].
    + replace k with (Z.to_nat j) in Hz by lia. simplify_eq. lia.
    + apply (Hhigh k); [lia|done].
Qed.

Lemma partition_spec arr left right :
  0 <= left -> left <= right -> right < Z.of_nat (length arr) ->
  exists arr' p pivot, partition arr left right = Done (arr', p)
    /\ perm_within left right arr arr' /\ left <= p <= right
    /\ arr' !! Z.to_nat p = Some pivot
    /\ seg arr' left (p - 1) (fun x => x <= pivot)
    /\ seg arr' (p + 1) right (fun x => pivot <= x).
Proof.
  intros Hl Hlr Hlen. unfold partition.
  destruct (index_in_range arr right) as [pivot Hp]; [lia|]. rewrite Hp. simpl.
  apply index_Done in Hp as [_ Hp].
  destruct (partition_loop_spec (Z.to_nat (right - left)) pivot left right arr (left - 1) left)
    as (arr1 & i & -> & Hpw & Hi & Hlow & Hhigh); try lia; try (intros k z ?; lia).
  simpl. pose proof (perm_within_length _ _ _ _ Hpw) as Hlen1.
  assert (Hpiv : arr1 !! Z.to_nat right = Some pivot).
  { destruct Hpw as [_ Hs]. rewrite Hs by lia. done. }
  destruct (index_in_range arr1 (i + 1)) as [y Hy]; [lia|]. rewrite Hy. simpl.
  apply index_Done in Hy as [_ Hy].
  rewrite (proj2 (index_Done arr1 right pivot)) by (split; [lia|done]). simpl.
  rewrite store_Done by lia. simpl. rewrite store_Done by (rewrite length_insert; lia). simpl.
  set (arr2 := <[Z.to_nat right:=y]> (<[Z.to_nat (i + 1):=pivot]> arr1)).
  assert (Hpw2 : perm_within left right arr1 arr2) by (apply swap_perm_within; [lia|lia|done|done]).
  exists arr2, (i + 1), pivot. split; [done|]. split.
  { eapply perm_within_trans; [|done]. eapply perm_within_mono, Hpw; lia. }
  split; [lia|]. unfold arr2. repeat split.
  - destruct (decide (right = i + 1)) as [->|Hne].
    + rewrite list_lookup_insert_eq by (rewrite length_insert; lia). congruence.
    + rewrite list_lookup_insert_ne by lia. rewrite list_lookup_insert_eq by lia. done.
  - intros k z Hk. rewrite !list_lookup_insert_ne by lia. intros Hz.
    enough (z < pivot) by lia. apply (Hlow k); [lia|done].
  - intros k z Hk. destruct (decide (Z.of_nat k = right)) as [E|E].
    + replace k with (Z.to_nat right) by lia. rewrite list_lookup_insert_eq by (rewrite length_insert; lia).
      intros ?; simplify_eq. apply (Hhigh (Z.to_nat (i + 1))); [lia|done].
    + rewrite !list_lookup_insert_ne by lia. apply Hhigh. lia.
Qed.

(** A property of all elements of a range survives a permutation within it. *)
Lemma perm_within_seg l r arr arr' P :
  0 <= l -> l <= r + 1 -> r < Z.of_nat (length arr) ->
  perm_within l r arr arr' -> seg arr l r P -> seg arr' l r P.
Proof.
  intros Hl Hlr Hr Hpw Hseg. pose proof (perm_within_length _ _ _ _ Hpw) as Hlen.
  destruct Hpw as [Hp Hs].
  set (a := Z.to_nat l). set (n := Z.to_nat (r + 1 - l)).
  assert (Hsplit : forall x : list Z, x = take a x ++ take n (drop a x) ++ drop (a + n) x).
  { intros x. rewrite <-drop_drop, !take_drop. done. }
  assert (Htake : take a arr' = take a arr).
  { apply list_eq. intros k. destruct (decide (k < a)%nat).
    - rewrite !lookup_take_lt by done. apply Hs. lia.
    - rewrite !lookup_take_ge by lia. done. }
  assert (Hdrop : drop (a + n) arr' = drop (a + n) arr).
  { apply list_eq. intros k. rewrite !lookup_drop. apply Hs. lia. }
  rewrite (Hsplit arr), (Hsplit arr'), Htake, Hdrop in Hp.
  apply Permutation_app_inv_l, Permutation_app_inv_r in Hp.
  intros k x Hk Hx.
  assert (Hin : x ∈ take n (drop a arr)).
  { rewrite <-Hp. apply list_elem_of_lookup. exists (k - a)%nat.
    rewrite lookup_take_lt, lookup_drop by lia. rewrite <-Hx. f_equal. lia. }
  apply list_elem_of_lookup in Hin as [m Hm].
  apply lookup_take_Some in Hm as [Hm Hmn]. rewrite lookup_drop in Hm.
  apply (Hseg (a + m)%nat); [lia|done].
Qed.

Lemma quickSort_spec fuel : forall arr left right,
  0 <= left -> left <= right + 1 -> right < Z.of_nat (length arr) ->
  right - left <= Z.of_nat fuel ->
  exists arr', quickSort fuel arr left right = Done arr'
    /\ perm_within left right arr arr' /\ sorted_within left right arr'.
Proof.
  induction fuel as [|fuel IH]; intros arr left right Hl Hlr Hr Hf; simpl;
    case_decide as Hlt; try lia.
  1,3: exists arr; split; [done|]; split; [apply perm_within_refl|];
    intros i j x y ????? ; replace j with i in * by lia; simplify_eq; lia.
  destruct (partition_spec arr left right) as (a1 & p & pivot & -> & Hpw1 & Hp & Hpiv & Hlow & Hhigh); try lia.
  simpl. pose proof (perm_within_length _ _ _ _ Hpw1) as L1.
  destruct (IH a1 left (p - 1)) as (a2 & -> & Hpw2 & Hs2); try lia. simpl.
  pose proof (perm_within_length _ _ _ _ Hpw2) as L2.
  destruct (IH a2 (p + 1) right) as (a3 & -> & Hpw3 & Hs3); try lia.
  exists a3. split; [done|]. split.
  { eapply perm_within_trans; [done|].
    eapply perm_within_trans; (eapply perm_within_mono; [| |eassumption]); lia. }
  assert (Hpiv3 : a3 !! Z.to_nat p = Some pivot).
  { destruct Hpw3 as [_ E3], Hpw2 as [_ E2]. rewrite E3, E2 by lia. done. }
  assert (Hlow3 : seg a3 left (p - 1) (fun x => x <= pivot)).
  { assert (Hlow2 : seg a2 left (p - 1) (fun x => x <= pivot))
      by (apply (perm_within_seg _ _ a1); try lia; done).
    intros k x Hk Hx. apply (Hlow2 k); [done|]. destruct Hpw3 as [_ E3]. rewrite <-E3 by lia. done. }
  assert (Hhigh3 : seg a3 (p + 1) right (fun x => pivot <= x)).
  { assert (Hhigh2 : seg a2 (p + 1) right (fun x => pivot <= x)).
    { intros k x Hk Hx. apply (Hhigh k); [done|]. destruct Hpw2 as [_ E2]. rewrite <-E2 by lia. done. }
    apply (perm_within_seg _ _ a2); try lia; done. }
  intros i j x y Hi Hij Hj Hx Hy.
  destruct (Z.lt_trichotomy (Z.of_nat i) p) as [Ci|[Ci|Ci]],
    (Z.lt_trichotomy (Z.of_nat j) p) as [Cj|[Cj|Cj]]; try lia.
  - apply (Hs2 i j); try lia; destruct Hpw3 as [_ E3]; rewrite <-E3 by lia; done.
  - replace j with (Z.to_nat p) in Hy by lia. simplify_eq. apply (Hlow3 i); [lia|done].
  - transitivity pivot; [apply (Hlow3 i); [lia|done] | apply (Hhigh3 j); [lia|done]].
  - replace j with (Z.to_nat p) in Hy by lia. replace i with (Z.to_nat p) in Hx by lia. simplify_eq. lia.
  - replace i with (Z.to_nat p) in Hx by lia. simplify_eq. apply (Hhigh3 j); [lia|done].
  - apply (Hs3 i j); try lia; done.
Qed.

Lemma sorted_within_Sorted arr :
  sorted_within 0 (Z.of_nat (length arr) - 1) arr -> StronglySorted Z.le arr.
Proof.
  induction arr as [|x arr IH]; intros Hs; constructor.
  - apply IH. intros i j a b Hi Hij Hj Ha Hb. apply (Hs (S i) (S j)); simpl; try lia; done.
  - apply Forall_forall. intros y Hy. apply list_elem_of_lookup in Hy as [j Hj].
    pose proof (lookup_lt_Some _ _ _ Hj).
    apply (Hs 0%nat (S j)); simpl; try lia; done.
Qed.

(** [btcSortCache.Sort] returns on every well-formed cache: the key list
    becomes sorted in increasing order, it is a permutation of the old one,
    the stored values do not change and the cache stays well formed. *)
Theorem Sort_correct {V} (b : sortCache Z V) :
  exists b', Sort b = Done b'
    /\ StronglySorted Z.le (Keys b') /\ Keys b' ≡ₚ Keys b
    /\ (forall k, Get b' k = Get b k) /\ (cache_wf b -> cache_wf b').
Proof.
  unfold Sort.
  destruct (quickSort_spec (length (keyList b)) (keyList b) 0 (Z.of_nat (length (keyList b)) - 1))
    as (keys & -> & Hpw & Hs); try lia.
  destruct Hpw as [Hp Ho]. eexists. split; [done|]. simpl. split.
  - apply sorted_within_Sorted. by rewrite (Permutation_length Hp).
  - split; [done|]. split; [done|]. intros [Hnd Hdom]. split; simpl.
    + by rewrite Hp.
    + intros k. by rewrite Hp.
Qed.
