(* ===== verification/DAType.v ===== *)
(** * The data-availability record and its signers

    [core/types/file.go] and [core/types/fileData_signing.go], with the
    signature helpers of [core/types/transaction_signing.go] they call and the
    signing tool of [core/types/Singer.go].

    The KZG digest ([kzg.Digest], a BN254 curve point of gnark-crypto), the
    Keccak hash and the secp256k1 routines are code outside this repository:
    they are the fields of the classes [KZG] and [Crypto], and what the code
    relies on about them is stated in [KZGLaws] and [CryptoLaws]. *)

From S2P Require Import Prelude Bytes.

Local Open Scope Z_scope.

(** ** External libraries *)

(** [kzg.Digest] and the methods used of it. *)
Class KZG := {
  Digest : Type;
  Digest_eq_dec :: EqDecision Digest;
  zeroDigest : Digest;
  Marshal : Digest -> list Z;
  XIsZero : Digest -> bool;
  YIsZero : Digest -> bool;
  XBytes : Digest -> list Z;
  YBytes : Digest -> list Z;
  (** [SetBytes]: the receiver's new value and whether an error was returned. *)
  DigestSetBytes : Digest -> list Z -> Digest * bool
}.

(** The uncompressed form is the two 32-byte coordinates in order, the zero
    tests agree with the bytes, and a marshalled valid point parses back. *)
Class KZGLaws (kzg : KZG) := {
  digest_ok : Digest -> Prop;
  Marshal_coords d : Marshal d = XBytes d ++ YBytes d;
  XBytes_ok d : length (XBytes d) = 32%nat /\ bytes_ok (XBytes d);
  YBytes_ok d : length (YBytes d) = 32%nat /\ bytes_ok (YBytes d);
  DigestSetBytes_Marshal d d0 : digest_ok d -> DigestSetBytes d0 (Marshal d) = (d, false)
}.

(** [crypto.Keccak256], [crypto.Sign] and [crypto.Ecrecover].  A private key
    is known by its address. *)
Class Crypto := {
  PrivateKey : Type;
  Keccak256 : list Z -> list Z;
  Sign : list Z -> PrivateKey -> option (list Z);
  Ecrecover : list Z -> list Z -> option (list Z);
  keyAddress : PrivateKey -> Address
}.

(** ** The record *)

(** [time.Time] as nanoseconds since the zero time; only the calls the code
    makes are used of it. *)
Abbreviation time := Z (only parsing).

Section DAType.
Context `{KZG}.

Record DA := mkDA {
  Sender : Address;
  Nonce : Z;
  Index : Z;
  Length : Z;
  Data : list Z;
  Commitment : Digest;
  SignData : list (list Z);
  SignerAddr : list (list Z);
  DasKey : list Z;
  TxHash : Hash;
  BlockNum : Z;
  ReceiveAt : time;
  OutOfTime : time;
  Proof : list Z;
  ClaimedValue : list Z;
  NameSpaceID : option Z;
  Root : Hash
}.

(** [new(types.DA)] *)
Definition zeroDA : DA :=
  mkDA (replicate AddressLength 0) 0 0 0 [] zeroDigest [] [] (replicate 32 0) zeroHash 0 0 0 [] [] None zeroHash.

Definition NewDA (sender : Address) (index length : Z) (commitment : Digest) (data dasKey proof claimedValue : list Z) : DA :=
  mkDA sender 0 index length data commitment [] [] dasKey zeroHash 0 0 0 proof claimedValue None zeroHash.

(** The commitment of the zero point is taken as "no commitment". *)
Definition commitIsEmpty (d : DA) : bool := XIsZero (Commitment d) && YIsZero (Commitment d).

(** [common.BytesToHash(da.Commitment.Marshal())] *)
Definition cmHash (d : DA) : Hash := BytesToHash (Marshal (Commitment d)).

(** The key under which the pool and its callers file a record: the
    transaction hash when there is one, otherwise the commitment's. *)
Definition poolHash (d : DA) : Hash :=
  if decide (Cmp (TxHash d) zeroHash <> 0) then TxHash d else cmHash d.

Definition set_SignData (s : list (list Z)) (d : DA) : DA :=
  mkDA (Sender d) (Nonce d) (Index d) (Length d) (Data d) (Commitment d) s (SignerAddr d) (DasKey d)
    (TxHash d) (BlockNum d) (ReceiveAt d) (OutOfTime d) (Proof d) (ClaimedValue d) (NameSpaceID d) (Root d).

End DAType.

(** ** Signature parsing *)

Definition SignatureLength : nat := 65.

(** [decodeSignature]: R, S and V + 27 of a 65-byte signature; it panics on
    any other length.  [sig[64] + 27] is computed on a byte. *)
Definition decodeSignature (sig : list Z) : outcome (Z * Z * Z) :=
  if decide (length sig = SignatureLength)
  then v ← index sig 64;
       Done (be_to_Z (take 32 sig), be_to_Z (take 32 (drop 32 sig)), be_to_Z [u8 (v + 27)])
  else Panic.

(** [sliteSignature]: the slice expressions panic on fewer than 64 bytes. *)
Definition sliteSignature (sig : list Z) : outcome (Z * Z * Z) :=
  r ← subslice sig 0 32;
  s ← subslice sig 32 64;
  v ← subslice sig 64 (Z.of_nat (length sig));
  Done (be_to_Z r, be_to_Z s, be_to_Z v).

Definition transTo32Byte (data : list Z) : outcome (list Z) :=
  fold_outcome (fun (acc : list Z) '(i, b) => store acc (32 - Z.of_nat (length data) + Z.of_nat i) b)
    (imap pair data) (replicate 32 0).

Definition uint64ToBigEndianHexBytes (value : Z) : list Z := be_of_Z 8 value.

Definition secp256k1N : Z := 0xfffffffffffffffffffffffffffffffebaaedce6af48a03bbfd25e8cd0364141.
Definition secp256k1halfN : Z := secp256k1N `div` 2.

Definition ValidateSignatureValues (v r s : Z) (homestead : bool) : bool :=
  if decide (r < 1 \/ s < 1) then false
  else if decide (homestead = true /\ secp256k1halfN < s) then false
  else bool_decide (r < secp256k1N /\ s < secp256k1N /\ (v = 0 \/ v = 1)).

Inductive sigErr := ErrInvalidSig | errEcrecover | errInvalidPublicKey.

(** ** Signers *)

Section signing.
Context `{KZG} `{Crypto}.

(** [recoverPlain]; [Vb.BitLen()] and [Vb.Uint64()] look at the absolute value
    of [Vb], and [Vb.Uint64() - 27] wraps on 64 bits before it becomes a byte.  The copies put R and S right-aligned in their 32-byte fields. *)
Definition recoverPlain (sighash : Hash) (R S Vb : Z) (homestead : bool) : Address * option sigErr :=
  let zero := replicate AddressLength 0 in
  if decide (2 ^ 8 <= Z.abs Vb) then (zero, Some ErrInvalidSig)
  else
    let V := u8 (u64 (Z.abs Vb - 27)) in
    if ValidateSignatureValues V R S homestead
    then
      let sig := LeftPadBytes (bigBytes R) 32 ++ LeftPadBytes (bigBytes S) 32 ++ [V] in
      match Ecrecover sighash sig with
      | None => (zero, Some errEcrecover)
      | Some pub =>
          match pub with
          | 4 :: rest => (take AddressLength (drop 12 (Keccak256 rest)), None)
          | _ => (zero, Some errInvalidPublicKey)
          end
      end
    else (zero, Some ErrInvalidSig).

(** The signers: EIP-155 with its chain id, Homestead and Frontier. *)
Inductive FdSigner := EIP155FdSigner (chainId : Z) | HomesteadFdSigner | FrontierFdSigner.

Definition NewEIP155FdSigner (chainId : option Z) : FdSigner := EIP155FdSigner (default 0 chainId).

(** [LatestFdSigner]: the configuration's chain id and EIP-155 block. *)
Definition LatestFdSigner (chainID eip155Block : option Z) : FdSigner :=
  match chainID, eip155Block with
  | Some c, Some _ => NewEIP155FdSigner (Some c)
  | _, _ => HomesteadFdSigner
  end.

Definition LatestFdSignerForChainID (chainID : option Z) : FdSigner :=
  match chainID with None => HomesteadFdSigner | Some c => NewEIP155FdSigner (Some c) end.

(** [MakeFdSigner]: what the configuration answers for the block decides. *)
Definition MakeFdSigner (isEIP155 isHomestead : bool) (chainID : option Z) : FdSigner :=
  if isEIP155 then NewEIP155FdSigner chainID
  else if isHomestead then HomesteadFdSigner
  else FrontierFdSigner.

Definition FdSignerEqual (s s2 : FdSigner) : bool :=
  match s, s2 with
  | EIP155FdSigner c, EIP155FdSigner c2 => bool_decide (c2 = c)
  | HomesteadFdSigner, HomesteadFdSigner => true
  | FrontierFdSigner, FrontierFdSigner => true
  | _, _ => false
  end.

(** The bytes that are hashed.  [unix] is [OutOfTime.Unix()]. *)
Definition eip155Preimage (unix : time -> Z) (chainId : Z) (fd : DA) : outcome (list Z) :=
  chain ← transTo32Byte (uint64ToBigEndianHexBytes (u64 (Z.abs chainId)));
  indexByte ← transTo32Byte (uint64ToBigEndianHexBytes (Index fd));
  lengthByte ← transTo32Byte (uint64ToBigEndianHexBytes (Length fd));
  receiveByte ← transTo32Byte (uint64ToBigEndianHexBytes (u64 (unix (OutOfTime fd))));
  addrByte ← transTo32Byte (Sender fd);
  Done (chain ++ addrByte ++ indexByte ++ lengthByte ++ receiveByte
        ++ XBytes (Commitment fd) ++ YBytes (Commitment fd)).

Definition frontierPreimage (fd : DA) : outcome (list Z) :=
  indexByte ← transTo32Byte (uint64ToBigEndianHexBytes (Index fd));
  lengthByte ← transTo32Byte (uint64ToBigEndianHexBytes (Length fd));
  addrByte ← transTo32Byte (Sender fd);
  Done (addrByte ++ indexByte ++ lengthByte ++ XBytes (Commitment fd) ++ YBytes (Commitment fd)).

(** [Hash]; Homestead inherits the Frontier method. *)
Definition FdHash (unix : time -> Z) (s : FdSigner) (fd : DA) : outcome Hash :=
  data ← match s with
         | EIP155FdSigner chainId => eip155Preimage unix chainId fd
         | _ => frontierPreimage fd
         end;
  Done (BytesToHash (Keccak256 data)).

(** One signature of [Sender]: the three signers read V differently. *)
Definition recoverOne (s : FdSigner) (hash : Hash) (sig : list Z) : outcome (Address * option sigErr) :=
  match s with
  | EIP155FdSigner _ =>
      '(R, S', V) ← sliteSignature sig;
      Done (recoverPlain hash R S' V true)
  | HomesteadFdSigner =>
      '(r, s, v) ← decodeSignature sig;
      Done (recoverPlain hash r s (v - 27) true)
  | FrontierFdSigner =>
      '(r, s, v) ← sliteSignature sig;
      Done (recoverPlain hash r s (v * 27) false)
  end.

(** [Sender]: one address and one error per signature, in order. *)
Definition FdSender (unix : time -> Z) (s : FdSigner) (fd : DA) : outcome (list (Address * option sigErr)) :=
  fold_outcome (fun acc sig => hash ← FdHash unix s fd; r ← recoverOne s hash sig; Done (acc ++ [r])) (SignData fd) [].

(** [WithSignature]: the error of an empty signature is [None].  All three
    signers' [SignatureValues] are [decodeSignature]. *)
Definition WithSignature (fd : DA) (sign : list Z) : outcome (option DA) :=
  if decide (length sign = 0)%nat then Done None
  else '(r, s, v) ← decodeSignature sign;
       Done (Some (set_SignData [bigBytes r ++ bigBytes s ++ bigBytes v] fd)).

Definition SignFd (unix : time -> Z) (fd : DA) (s : FdSigner) (prv : PrivateKey) : outcome (option DA) :=
  h ← FdHash unix s fd;
  match Sign h prv with
  | None => Done None
  | Some sig => WithSignature fd sig
  end.

(** [SingerTool.Sign]: the signature is indexed before its error is looked
    at, so a failed [crypto.Sign], which answers a nil slice, panics. *)
Definition SingerTool_Sign (unix : time -> Z) (chainID : option Z) (prv : PrivateKey) (da : DA) : outcome (list Z) :=
  h ← FdHash unix (NewEIP155FdSigner chainID) da;
  let sign := default [] (Sign h prv) in
  v ← index sign 64;
  Done (take 64 sign ++ [u8 (v + 27)]).

(** The KZG SDK: whether it initialises, and its verdict on a commitment,
    proof and claimed value ([None] when it returns an error). *)
Class SDK := {
  sdkInit : bool;
  VerifyCommitWithProof : list Z -> list Z -> list Z -> option bool
}.

Inductive verifyErr := errDataLength | errSdkInit | errSdk.

(** [VerifyEth] and [VerifyBtc]: (flag, error). *)
Definition VerifyBtc `{SDK} (da : DA) : bool * option verifyErr :=
  if sdkInit
  then match VerifyCommitWithProof (Marshal (Commitment da)) (Proof da) (ClaimedValue da) with
       | None => (false, Some errSdk)
       | Some flag => (flag, None)
       end
  else (false, Some errSdkInit).

Definition VerifyEth `{SDK} (da : DA) : bool * option verifyErr :=
  if decide (Length da <> Z.of_nat (length (Data da))) then (false, Some errDataLength)
  else VerifyBtc da.

Definition SingerTool_Sender (unix : time -> Z) (chainID : option Z) (da : DA) : outcome (list (Address * option sigErr)) :=
  FdSender unix (NewEIP155FdSigner chainID) da.

End signing.

(** ** Padding to 32 bytes *)

Lemma transTo32Byte_fold (l : list Z) (n : nat) :
  (length l <= n)%nat -> (n <= 32)%nat ->
  fold_outcome (fun (acc : list Z) '(i, b) => store acc (32 - Z.of_nat n + Z.of_nat i) b)
    (imap pair l) (replicate 32 0)
  = Done (replicate (32 - n) 0 ++ l ++ replicate (n - length l) 0).
Proof.
  intros Hl Hn. revert Hl. induction l as [|x l IH] using rev_ind; intros Hl.
  { change (imap pair []) with (@nil (nat * Z)). cbn [fold_outcome]. rewrite app_nil_l, <-replicate_add.
    f_equal. replace (32 - n + (n - length []))%nat with 32%nat by (simpl; lia). done. }
  rewrite length_app in Hl. simpl in Hl.
  rewrite imap_app. simpl imap. rewrite fold_outcome_app, IH by lia. simpl.
  rewrite store_Done by (rewrite !length_app, !length_replicate; lia). f_equal.
  rewrite insert_app_r_alt by (rewrite length_replicate; lia).
  rewrite length_replicate, insert_app_r_alt by lia.
  replace (Z.to_nat (32 - Z.of_nat n + Z.of_nat (length l + 0)) - (32 - n) - length l)%nat with 0%nat by lia.
  rewrite length_app. simpl. replace (n - length l)%nat with (S (n - (length l + 1))) by lia.
  simpl. by rewrite <-(assoc_L (++)).
Qed.

Lemma transTo32Byte_short data :
  (length data <= 32)%nat -> transTo32Byte data = Done (LeftPadBytes data 32).
Proof.
  intros Hd. unfold transTo32Byte. rewrite transTo32Byte_fold by lia.
  rewrite Nat.sub_diag. simpl. rewrite app_nil_r. unfold LeftPadBytes.
  case_decide; [|done]. by replace (32 - length data)%nat with 0%nat by lia.
Qed.

Lemma transTo32Byte_long data : (32 < length data)%nat -> transTo32Byte data = Panic.
Proof.
  intros Hd. unfold transTo32Byte. destruct data as [|b data]; [simpl in Hd; lia|].
  rewrite imap_cons. simpl fold_outcome. unfold store at 1. rewrite decide_False; [done|]. simpl in *. lia.
Qed.

Lemma length_LeftPadBytes l n : (length l <= n)%nat -> length (LeftPadBytes l n) = n.
Proof. intros. unfold LeftPadBytes. case_decide; [lia|]. rewrite length_app, length_replicate. lia. Qed.

Lemma LeftPadBytes_inj l l' n :
  length l = length l' -> LeftPadBytes l n = LeftPadBytes l' n -> l = l'.
Proof.
  intros Hl. unfold LeftPadBytes. rewrite Hl. case_decide; [done|]. by intros ?%app_inv_head.
Qed.

Lemma LeftPadBytes_ok l n : bytes_ok l -> bytes_ok (LeftPadBytes l n).
Proof.
  intros Hl. unfold LeftPadBytes. case_decide; [done|]. apply Forall_app. split; [|done].
  apply Forall_replicate. unfold byte_ok. lia.
Qed.

(** Right-aligning the shortest form of a number read from 32 bytes gives the
    32 bytes back. *)
Lemma LeftPadBytes_bigBytes l :
  bytes_ok l -> LeftPadBytes (bigBytes (be_to_Z l)) (length l) = l.
Proof.
  intros Hl. pose proof (be_to_Z_bound l Hl) as [Hlo Hhi].
  assert (Hn : (length (bigBytes (be_to_Z l)) <= length l)%nat).
  { unfold bigBytes. rewrite length_be_of_Z. unfold nbytes. case_decide; [lia|].
    assert (Z.log2 (be_to_Z l) < 8 * Z.of_nat (length l)).
    { apply Z.log2_lt_pow2; [lia|]. rewrite Z.pow_mul_r by lia. exact Hhi. }
    assert (Z.log2 (be_to_Z l) `div` 8 < Z.of_nat (length l)) by (apply Z.div_lt_upper_bound; lia).
    pose proof (Z.div_pos (Z.log2 (be_to_Z l)) 8 (Z.log2_nonneg _) ltac:(done)). lia. }
  rewrite <-(be_of_to_Z (LeftPadBytes _ _)); [|apply LeftPadBytes_ok, be_of_Z_ok].
  rewrite length_LeftPadBytes by done.
  replace (be_to_Z (LeftPadBytes (bigBytes (be_to_Z l)) (length l))) with (be_to_Z l); [by apply be_of_to_Z|].
  unfold LeftPadBytes. case_decide; rewrite ?be_to_Z_zeros, be_to_Z_bigBytes; done.
Qed.

Lemma take_length_app_eq {A} (a b a' b' : list A) :
  length a = length a' -> a ++ b = a' ++ b' -> a = a' /\ b = b'.
Proof. intros Hl Heq. by apply app_inj_1. Qed.

Lemma length_uint64Bytes v : length (uint64ToBigEndianHexBytes v) = 8%nat.
Proof. apply length_be_of_Z. Qed.

Lemma uint64Bytes_inj a b :
  in_u64 a -> in_u64 b -> uint64ToBigEndianHexBytes a = uint64ToBigEndianHexBytes b -> a = b.
Proof. intros Ha Hb. by apply be_of_Z_inj. Qed.

#[export] Hint Resolve u64_bound length_uint64Bytes length_LeftPadBytes : go.

(** ** What is signed *)

Section signed_content.
Context `{kzg : KZG} `{!KZGLaws kzg}.

(** Go's types of the fields that are hashed. *)
Definition da_ok (fd : DA) : Prop :=
  address_ok (Sender fd) /\ in_u64 (Index fd) /\ in_u64 (Length fd).

(** The content a signature covers. *)
Definition signed_content (unix : Z -> Z) (fd : DA) : list Z * Z * Z * Z * list Z * list Z :=
  (Sender fd, Index fd, Length fd, u64 (unix (OutOfTime fd)), XBytes (Commitment fd), YBytes (Commitment fd)).

Lemma preimage_eq unix c fd :
  address_ok (Sender fd) ->
  eip155Preimage unix c fd =
  Done (LeftPadBytes (uint64ToBigEndianHexBytes (u64 (Z.abs c))) 32 ++ LeftPadBytes (Sender fd) 32
        ++ LeftPadBytes (uint64ToBigEndianHexBytes (Index fd)) 32
        ++ LeftPadBytes (uint64ToBigEndianHexBytes (Length fd)) 32
        ++ LeftPadBytes (uint64ToBigEndianHexBytes (u64 (unix (OutOfTime fd)))) 32
        ++ XBytes (Commitment fd) ++ YBytes (Commitment fd)).
Proof.
  intros [Hs _]. unfold eip155Preimage.
  rewrite !transTo32Byte_short; [done|..];
    rewrite ?length_uint64Bytes, ?Hs; unfold AddressLength; lia.
Qed.

Lemma padded_u64_inj a b t t' :
  in_u64 a -> in_u64 b ->
  LeftPadBytes (uint64ToBigEndianHexBytes a) 32 ++ t = LeftPadBytes (uint64ToBigEndianHexBytes b) 32 ++ t' ->
  a = b /\ t = t'.
Proof.
  intros Ha Hb Heq. apply take_length_app_eq in Heq as [Hp Ht].
  - split; [|done]. apply LeftPadBytes_inj in Hp; [|by rewrite !length_uint64Bytes].
    by apply uint64Bytes_inj in Hp.
  - rewrite !length_LeftPadBytes; rewrite ?length_uint64Bytes; lia.
Qed.

Lemma preimage_inj unix c c' fd fd' :
  in_u64 c -> in_u64 c' -> da_ok fd -> da_ok fd' ->
  eip155Preimage unix c fd = eip155Preimage unix c' fd' ->
  (c, signed_content unix fd) = (c', signed_content unix fd').
Proof.
  intros Hc Hc' (Hs & Hi & Hl) (Hs' & Hi' & Hl'). rewrite !preimage_eq by done. intros Heq%(inj Done).
  rewrite !Z.abs_eq, !(u64_small c), !(u64_small c') in Heq by (done || apply Hc || apply Hc').
  apply padded_u64_inj in Heq as [-> Heq]; [|done..].
  destruct Hs as [Ls _], Hs' as [Ls' _].
  apply take_length_app_eq in Heq as [Hsend Heq];
    [|rewrite !length_LeftPadBytes; rewrite ?Ls, ?Ls'; unfold AddressLength; lia].
  apply LeftPadBytes_inj in Hsend; [|congruence].
  apply padded_u64_inj in Heq as [Hidx Heq]; [|done..].
  apply padded_u64_inj in Heq as [Hlen Heq]; [|done..].
  apply padded_u64_inj in Heq as [Htime Heq]; [|apply u64_bound..].
  apply take_length_app_eq in Heq as [Hx Hy];
    [|by rewrite !(proj1 (XBytes_ok _))].
  unfold signed_content. congruence.
Qed.

End signed_content.

(** ** Signature round trip *)

(** What the code relies on about [crypto.Sign] and [crypto.Ecrecover]: the
    signature is R, S and a parity byte 0 or 1, S is in the lower half, and
    recovering it gives the uncompressed public key of the signer. *)
Class CryptoLaws (c : Crypto) := {
  Sign_format h k sig : Sign h k = Some sig ->
    length sig = SignatureLength /\ bytes_ok sig
    /\ (sig !! 64%nat = Some 0 \/ sig !! 64%nat = Some 1)
    /\ 1 <= be_to_Z (take 32 sig) < secp256k1N
    /\ 1 <= be_to_Z (take 32 (drop 32 sig)) <= secp256k1halfN;
  Ecrecover_Sign h k sig : Sign h k = Some sig ->
    exists pub, Ecrecover h sig = Some (4 :: pub)
      /\ take AddressLength (drop 12 (Keccak256 pub)) = keyAddress k
}.

Lemma halfN_lt_N : secp256k1halfN < secp256k1N.
Proof. done. Qed.

(** The three parts of a 65-byte signature. *)
Lemma sig_parts (sig : list Z) v :
  length sig = SignatureLength -> sig !! 64%nat = Some v ->
  sig = take 32 sig ++ take 32 (drop 32 sig) ++ [v].
Proof.
  intros Hl Hv. rewrite <-(take_drop 64 sig) at 1.
  rewrite (drop_S sig v 64) by done. rewrite (drop_ge sig) by (rewrite Hl; done).
  change 64%nat with (32 + 32)%nat. rewrite <-take_take_drop. by rewrite <-(assoc_L (++)).
Qed.

Lemma sliteSignature_65 (a b : list Z) v :
  length a = 32%nat -> length b = 32%nat ->
  sliteSignature (a ++ b ++ [v]) = Done (be_to_Z a, be_to_Z b, v).
Proof.
  intros Ha Hb. unfold sliteSignature, subslice.
  rewrite !decide_True by (rewrite !length_app; simpl; lia). cbn [mbind outcome_bind].
  rewrite !length_app, Ha, Hb. simpl length.
  change (Z.to_nat 0) with 0%nat. change (Z.to_nat (32 - 0)) with 32%nat.
  change (Z.to_nat 32) with 32%nat. change (Z.to_nat (64 - 32)) with 32%nat. change (Z.to_nat 64) with 64%nat.
  rewrite drop_0, <-Ha at 1. rewrite take_app_length.
  replace (drop 32 (a ++ b ++ [v])) with (b ++ [v]) by (rewrite <-Ha; by rewrite drop_app_length).
  rewrite <-Hb at 1. rewrite take_app_length.
  replace (drop 64 (a ++ b ++ [v])) with [v].
  - done.
  - change 64%nat with (32 + 32)%nat. rewrite <-drop_drop. rewrite <-Ha at 2. rewrite drop_app_length.
    rewrite <-Hb at 1. by rewrite drop_app_length.
Qed.

Lemma LeftPadBytes_bigBytes32 l :
  length l = 32%nat -> bytes_ok l -> LeftPadBytes (bigBytes (be_to_Z l)) 32 = l.
Proof. intros Hl Hb. pose proof (LeftPadBytes_bigBytes l Hb) as Heq. by rewrite Hl in Heq. Qed.

Section signature_roundtrip.
Context `{kzg : KZG} `{crypto : Crypto} `{!CryptoLaws crypto}.

Lemma recoverPlain_valid hash (sig : list Z) v homestead :
  length sig = SignatureLength -> bytes_ok sig -> sig !! 64%nat = Some v -> v = 0 \/ v = 1 ->
  1 <= be_to_Z (take 32 sig) < secp256k1N ->
  1 <= be_to_Z (take 32 (drop 32 sig)) <= secp256k1halfN ->
  recoverPlain hash (be_to_Z (take 32 sig)) (be_to_Z (take 32 (drop 32 sig))) (v + 27) homestead
  = match Ecrecover hash sig with
    | None => (replicate AddressLength 0, Some errEcrecover)
    | Some pub =>
        match pub with
        | 4 :: rest => (take AddressLength (drop 12 (Keccak256 rest)), None)
        | _ => (replicate AddressLength 0, Some errInvalidPublicKey)
        end
    end.
Proof.
  intros Hl Hb Hv Hv01 HR HS. unfold recoverPlain. rewrite decide_False by (destruct Hv01; subst; lia).
  replace (u8 (u64 (Z.abs (v + 27) - 27))) with v
    by (destruct Hv01; subst; vm_compute; done).
  assert (ValidateSignatureValues v (be_to_Z (take 32 sig)) (be_to_Z (take 32 (drop 32 sig))) homestead = true) as ->.
  { unfold ValidateSignatureValues. pose proof halfN_lt_N.
    rewrite decide_False by lia. rewrite decide_False by lia. apply bool_decide_eq_true. lia. }
  unfold SignatureLength in Hl.
  assert (L1 : length (take 32 sig) = 32%nat) by (rewrite length_take; lia).
  assert (L2 : length (take 32 (drop 32 sig)) = 32%nat) by (rewrite length_take, length_drop; lia).
  rewrite (LeftPadBytes_bigBytes32 (take 32 sig)) by (done || by apply Forall_take).
  rewrite (LeftPadBytes_bigBytes32 (take 32 (drop 32 sig))) by (done || by apply Forall_take, Forall_drop).
  by rewrite <-(sig_parts sig v).
Qed.

Lemma Sender_Sign unix chainID k da sig :
  SingerTool_Sign unix chainID k da = Done sig ->
  SingerTool_Sender unix chainID (set_SignData [sig] da) = Done [(keyAddress k, None)].
Proof.
  unfold SingerTool_Sign, SingerTool_Sender, FdSender. cbn [SignData set_SignData fold_outcome].
  assert (Hh : FdHash unix (NewEIP155FdSigner chainID) (set_SignData [sig] da)
             = FdHash unix (NewEIP155FdSigner chainID) da) by done. rewrite Hh. clear Hh.
  destruct (FdHash unix (NewEIP155FdSigner chainID) da) as [h| |]; [|done..]. simpl.
  destruct (Sign h k) as [s|] eqn:Hs; [|done]. simpl.
  pose proof (Sign_format h k s Hs) as (Hl & Hb & Hv & HR & HS).
  pose proof (Ecrecover_Sign h k s Hs) as (pub & Hpub & Haddr).
  assert (exists v, s !! 64%nat = Some v /\ (v = 0 \/ v = 1)) as (v & Hv' & Hv01) by naive_solver.
  rewrite (index_nat s 64 v Hv' : index s 64 = Done v). simpl. intros [= <-].
  assert (Hlen : length (take 32 s) = 32%nat /\ length (take 32 (drop 32 s)) = 32%nat)
    by (unfold SignatureLength in Hl; rewrite !length_take, length_drop; lia).
  replace (take 64 s ++ [u8 (v + 27)]) with (take 32 s ++ take 32 (drop 32 s) ++ [v + 27]).
  - rewrite sliteSignature_65 by apply Hlen. simpl.
    rewrite recoverPlain_valid by done. by rewrite Hpub, Haddr.
  - change 64%nat with (32 + 32)%nat. rewrite <-take_take_drop, <-(assoc_L (++)).
    do 3 f_equal. destruct Hv01; subst; done.
Qed.

End signature_roundtrip.

(** ** What each signer accepts *)

(** A boolean fact about a byte, by looking at all 256 of them. *)
Lemma byte_cases (f : Z -> bool) v : forallb f (seqZ 0 256) = true -> byte_ok v -> f v = true.
Proof.
  intros Hall Hv. rewrite forallb_forall in Hall. apply Hall.
  apply list_elem_of_In, elem_of_seqZ. unfold byte_ok in Hv. lia.
Qed.

(** The values of the last byte of a signature a signer goes on with. *)
Definition acceptedV (s : FdSigner) : list Z :=
  match s with
  | EIP155FdSigner _ => [27; 28]
  | HomesteadFdSigner => [27; 28; 229]
  | FrontierFdSigner => [1]
  end.

(** How a signer turns the last byte into [recoverPlain]'s [Vb]. *)
Definition signerV (s : FdSigner) (v : Z) : Z :=
  match s with
  | EIP155FdSigner _ => v
  | HomesteadFdSigner => be_to_Z [u8 (v + 27)] - 27
  | FrontierFdSigner => v * 27
  end.

Definition plainV_ok (Vb : Z) : bool :=
  negb (bool_decide (2 ^ 8 <= Z.abs Vb)) && bool_decide (u8 (u64 (Z.abs Vb - 27)) = 0 \/ u8 (u64 (Z.abs Vb - 27)) = 1).

Lemma plainV_accepted s v :
  byte_ok v -> plainV_ok (signerV s v) = bool_decide (v ∈ acceptedV s).
Proof.
  intros Hv. apply eqb_prop.
  refine (byte_cases (fun v => eqb (plainV_ok (signerV s v)) (bool_decide (v ∈ acceptedV s))) v _ Hv).
  by destruct s; vm_compute.
Qed.

Lemma nbytes_32 z : 0 <= z < 2 ^ 256 -> (nbytes z <= 32)%nat /\ (nbytes z = 32%nat <-> 2 ^ 248 <= z).
Proof.
  intros Hz. unfold nbytes. case_decide; [split; [lia|]; split; lia|].
  pose proof (Z.log2_le_pow2 z 248 ltac:(lia)) as H1. pose proof (Z.log2_lt_pow2 z 256 ltac:(lia)) as H2.
  pose proof (Z.log2_nonneg z). rewrite H1. assert (Z.log2 z < 256) by tauto.
  pose proof (Z.div_mod (Z.log2 z) 8 ltac:(lia)). pose proof (Z.mod_pos_bound (Z.log2 z) 8 ltac:(lia)). lia.
Qed.

Section accepted.
Context `{kzg : KZG} `{crypto : Crypto}.

Lemma recoverOne_parts s hash (a b : list Z) v :
  length a = 32%nat -> length b = 32%nat ->
  exists hs, recoverOne s hash (a ++ b ++ [v]) = Done (recoverPlain hash (be_to_Z a) (be_to_Z b) (signerV s v) hs).
Proof.
  intros Ha Hb. destruct s; simpl; [exists true|exists true|exists false].
  - by rewrite sliteSignature_65.
  - unfold decodeSignature. rewrite decide_True by (rewrite !length_app, Ha, Hb; done).
    assert (Hi : (a ++ b ++ [v]) !! 64%nat = Some v).
    { rewrite lookup_app_r, lookup_app_r; rewrite ?Ha, ?Hb; [done|lia..]. }
    rewrite (index_nat _ 64 v Hi : index _ 64 = Done v). cbn [mbind outcome_bind].
    replace (take 32 (a ++ b ++ [v])) with a by (rewrite <-Ha; by rewrite take_app_length).
    replace (drop 32 (a ++ b ++ [v])) with (b ++ [v]) by (rewrite <-Ha; by rewrite drop_app_length).
    replace (take 32 (b ++ [v])) with b by (rewrite <-Hb; by rewrite take_app_length). done.
  - by rewrite sliteSignature_65.
Qed.

Lemma recoverPlain_invalid hash R S' Vb hs :
  1 <= R < secp256k1N -> 1 <= S' <= secp256k1halfN ->
  (recoverPlain hash R S' Vb hs).2 = Some ErrInvalidSig <-> plainV_ok Vb = false.
Proof.
  intros HR HS. pose proof halfN_lt_N. unfold recoverPlain, plainV_ok.
  case_decide as Hbit; [rewrite bool_decide_eq_true_2 by exact Hbit; cbn [negb andb snd]; tauto|].
  rewrite (bool_decide_eq_false_2 (2 ^ 8 <= _)) by done. cbn [negb andb].
  unfold ValidateSignatureValues. rewrite decide_False by lia. rewrite decide_False by lia.
  case_bool_decide as Hv; [rewrite bool_decide_eq_true_2 by tauto|rewrite bool_decide_eq_false_2 by lia; cbn [snd]; tauto].
  split; [|intros Hf; discriminate Hf]. repeat case_match; cbn [snd]; intros Hf; discriminate Hf.
Qed.

Lemma recoverOne_accepted s hash (sig : list Z) v :
  length sig = SignatureLength -> bytes_ok sig -> sig !! 64%nat = Some v ->
  1 <= be_to_Z (take 32 sig) < secp256k1N ->
  1 <= be_to_Z (take 32 (drop 32 sig)) <= secp256k1halfN ->
  exists a e, recoverOne s hash sig = Done (a, e) /\ (e = Some ErrInvalidSig <-> v ∉ acceptedV s).
Proof.
  intros Hl Hb Hv HR HS. unfold SignatureLength in Hl.
  rewrite (sig_parts sig v) by done.
  destruct (recoverOne_parts s hash (take 32 sig) (take 32 (drop 32 sig)) v) as [hs ->];
    [rewrite length_take; lia|rewrite length_take, length_drop; lia|].
  destruct (recoverPlain _ _ _ _ _) as [a e] eqn:Hrec. exists a, e. split; [done|].
  pose proof (recoverPlain_invalid hash _ _ (signerV s v) hs HR HS) as Hi. rewrite Hrec in Hi. simpl in Hi.
  rewrite Hi, plainV_accepted, bool_decide_eq_false; [done|]. by eapply Forall_lookup_1.
Qed.

(** ** Signatures stored by [WithSignature] *)

Lemma WithSignature_eq fd (sig : list Z) v :
  length sig = SignatureLength -> sig !! 64%nat = Some v ->
  WithSignature fd sig =
  Done (Some (set_SignData [bigBytes (be_to_Z (take 32 sig)) ++ bigBytes (be_to_Z (take 32 (drop 32 sig)))
                            ++ bigBytes (be_to_Z [u8 (v + 27)])] fd)).
Proof.
  intros Hl Hv. unfold WithSignature, decodeSignature. rewrite decide_False by (rewrite Hl; done).
  rewrite decide_True by done. by rewrite (index_nat _ 64 v Hv : index _ 64 = Done v).
Qed.

End accepted.

(** ** A small instance

    Points are pairs of integers, a signature carries the key in S, and
    recovering reads it back: enough for the laws above to hold. *)

Module Sample.

#[export] Instance sampleKZG : KZG := {|
  Digest := Z * Z;
  zeroDigest := (0, 0);
  Marshal d := be_of_Z 32 d.1 ++ be_of_Z 32 d.2;
  XIsZero d := bool_decide (d.1 = 0);
  YIsZero d := bool_decide (d.2 = 0);
  XBytes d := be_of_Z 32 d.1;
  YBytes d := be_of_Z 32 d.2;
  DigestSetBytes d0 l :=
    if decide (length l = 64)%nat then ((be_to_Z (take 32 l), be_to_Z (drop 32 l)), false) else (d0, true)
|}.

#[export] Instance sampleKZGLaws : KZGLaws sampleKZG.
Proof.
  refine {| digest_ok := fun d : @Digest sampleKZG => 0 <= d.1 < 256 ^ 32 /\ 0 <= d.2 < 256 ^ 32 |}.
  - done.
  - intros d. split; [apply (length_be_of_Z 32)|apply be_of_Z_ok].
  - intros d. split; [apply (length_be_of_Z 32)|apply be_of_Z_ok].
  - intros [x y] d0 [Hx Hy]. cbn [fst snd Marshal DigestSetBytes sampleKZG] in *.
    rewrite decide_True by (rewrite length_app, !length_be_of_Z; done).
    rewrite take_app_length' by (by rewrite length_be_of_Z).
    rewrite drop_app_length' by (by rewrite length_be_of_Z).
    rewrite !be_to_of_Z, !Z.mod_small by done. done.
Defined.

(** S of key [k]. *)
Definition sampleS (k : nat) : Z := 1 + Z.of_nat k mod 1000.

#[export] Instance sampleCrypto : Crypto := {|
  PrivateKey := nat;
  Keccak256 l := take 32 (l ++ replicate 32 0);
  Sign _ k := Some (be_of_Z 32 (2 ^ 250) ++ be_of_Z 32 (sampleS k) ++ [1]);
  Ecrecover _ sig := Some (4 :: take 32 (drop 32 sig));
  keyAddress k := drop 12 (be_of_Z 32 (sampleS k))
|}.

Lemma sampleS_bound k : 1 <= sampleS k <= 1000.
Proof. unfold sampleS. pose proof (Z.mod_pos_bound (Z.of_nat k) 1000). lia. Qed.

#[export] Instance sampleCryptoLaws : CryptoLaws sampleCrypto.
Proof.
  split.
  - intros h k sig <-%(inj Some). pose proof (sampleS_bound k) as HS.
    rewrite drop_app_length' by (by rewrite length_be_of_Z).
    rewrite !take_app_length' by (by rewrite length_be_of_Z).
    rewrite !be_to_of_Z, (Z.mod_small (sampleS k)), (Z.mod_small (2 ^ 250)) by lia.
    split; [rewrite !length_app, !length_be_of_Z; done|].
    split; [apply Forall_app; split; [apply be_of_Z_ok|apply Forall_app; split; [apply be_of_Z_ok|by repeat constructor]]|].
    split; [right; rewrite !lookup_app_r; rewrite ?length_be_of_Z; done || lia|].
    assert (1000 < secp256k1halfN) by done. repeat split; lia || done.
  - intros h k sig <-%(inj Some). exists (be_of_Z 32 (sampleS k)).
    cbn [Ecrecover Keccak256 keyAddress sampleCrypto]. split.
    + rewrite drop_app_length' by (by rewrite length_be_of_Z).
      by rewrite take_app_length' by (by rewrite length_be_of_Z).
    + rewrite take_app_length' by (by rewrite length_be_of_Z).
      apply take_ge. rewrite length_drop, length_be_of_Z. done.
Qed.

Definition sampleDA : DA :=
  NewDA (replicate 20 7) 3 1024 (5, 6) (replicate 4 9) (replicate 32 0) [1] [2].

End Sample.

(** ** Properties *)

Section properties.
Context `{kzg : KZG} `{crypto : Crypto}.

(** C29: the bytes an EIP-155 signer hashes determine, and are determined by,
    the chain id and the signed content of the record (sender, index, length,
    expiry in Unix seconds, the two commitment coordinates): signing one
    record never signs another one or the same one on another chain.  Building
    them does not panic. *)
Theorem eip155Preimage_injective `{!KZGLaws kzg} unix c c' fd fd' :
  in_u64 c -> in_u64 c' -> da_ok fd -> da_ok fd' ->
  (exists p, eip155Preimage unix c fd = Done p /\ length p = 224%nat)
  /\ (eip155Preimage unix c fd = eip155Preimage unix c' fd'
      <-> (c, signed_content unix fd) = (c', signed_content unix fd')).
Proof.
  intros Hc Hc' Hfd Hfd'. split.
  - rewrite preimage_eq by apply Hfd. eexists. split; [done|].
    destruct Hfd as [[Hs _] _]. rewrite !length_app, !length_LeftPadBytes;
      rewrite ?length_uint64Bytes, ?Hs, ?(proj1 (XBytes_ok _)), ?(proj1 (YBytes_ok _)); unfold AddressLength; lia.
  - split; [by apply preimage_inj|]. intros Heq.
    rewrite !preimage_eq by (apply Hfd || apply Hfd'). unfold signed_content in Heq. congruence.
Qed.

(** [SingerTool.Sender] recovers exactly the signing key's address, with
    no error, from a record carrying the signature [SingerTool.Sign] made of
    it on the same chain. *)
Theorem SingerTool_roundtrip `{!CryptoLaws crypto} unix chainID k da sig :
  SingerTool_Sign unix chainID k da = Done sig ->
  SingerTool_Sender unix chainID (set_SignData [sig] da) = Done [(keyAddress k, None)].
Proof. apply Sender_Sign. Qed.

(** Which last bytes of a well-formed signature each signer accepts: 27 and
    28 for EIP-155; 27, 28 and 229 for Homestead, whose subtraction makes a
    negative number of which only the absolute value is used; 1 for Frontier,
    which multiplies by 27.  Any other byte is answered with an
    invalid-signature error, and nothing panics. *)
Theorem signers_accepted_V s hash (sig : list Z) v :
  length sig = SignatureLength -> bytes_ok sig -> sig !! 64%nat = Some v ->
  1 <= be_to_Z (take 32 sig) < secp256k1N ->
  1 <= be_to_Z (take 32 (drop 32 sig)) <= secp256k1halfN ->
  exists a e, recoverOne s hash sig = Done (a, e) /\ (e = Some ErrInvalidSig <-> v ∉ acceptedV s).
Proof. apply recoverOne_accepted. Qed.

(** [WithSignature] writes R and S without their leading zero bytes, so the
    stored signature has the 65 bytes the verifiers slice only when neither
    has one; otherwise it is shorter. *)
Theorem WithSignature_length fd (sig : list Z) v :
  length sig = SignatureLength -> bytes_ok sig -> sig !! 64%nat = Some v -> v = 0 \/ v = 1 ->
  exists fd' sig', WithSignature fd sig = Done (Some fd') /\ SignData fd' = [sig']
    /\ (length sig' <= SignatureLength)%nat
    /\ (length sig' = SignatureLength
        <-> 2 ^ 248 <= be_to_Z (take 32 sig) /\ 2 ^ 248 <= be_to_Z (take 32 (drop 32 sig))).
Proof.
  intros Hl Hb Hv Hv01. rewrite (WithSignature_eq fd sig v) by done.
  eexists _, _. split; [done|]. split; [done|]. unfold SignatureLength in *.
  assert (length (bigBytes (be_to_Z [u8 (v + 27)])) = 1%nat) as Hv1 by (destruct Hv01; subst; done).
  rewrite !length_app, Hv1. unfold bigBytes. rewrite !length_be_of_Z.
  destruct (nbytes_32 (be_to_Z (take 32 sig))) as [R1 R2].
  { pose proof (be_to_Z_bound (take 32 sig)) as Hbd. rewrite length_take, Hl in Hbd. apply Hbd. by apply Forall_take. }
  destruct (nbytes_32 (be_to_Z (take 32 (drop 32 sig)))) as [S1 S2].
  { pose proof (be_to_Z_bound (take 32 (drop 32 sig))) as Hbd. rewrite length_take, length_drop, Hl in Hbd.
    apply Hbd. by apply Forall_take, Forall_drop. }
  lia.
Qed.

End properties.

Section witnesses.
Import Sample.

Lemma eip155Preimage_injective_witness :
  eip155Preimage id 1 sampleDA <> eip155Preimage id 2 sampleDA.
Proof.
  intros Heq.
  assert (Hda : da_ok sampleDA) by (repeat split; simpl; try lia; by repeat constructor).
  destruct (eip155Preimage_injective id 1 2 sampleDA sampleDA) as [_ Hiff];
    [split; lia|split; lia|exact Hda|exact Hda|].
  apply Hiff in Heq. discriminate Heq.
Defined.

Lemma SingerTool_roundtrip_witness :
  exists sig, SingerTool_Sign id (Some 5) 42%nat sampleDA = Done sig
    /\ SingerTool_Sender id (Some 5) (set_SignData [sig] sampleDA) = Done [(keyAddress 42%nat, None)].
Proof.
  eexists. split; [vm_compute; reflexivity|].
  apply SingerTool_roundtrip. vm_compute. reflexivity.
Defined.

Lemma signers_accepted_V_witness :
  exists a e, recoverOne HomesteadFdSigner zeroHash (be_of_Z 32 9 ++ be_of_Z 32 9 ++ [0]) = Done (a, e)
    /\ e = Some ErrInvalidSig.
Proof.
  destruct (signers_accepted_V HomesteadFdSigner zeroHash (be_of_Z 32 9 ++ be_of_Z 32 9 ++ [0]) 0)
    as (a & e & Hr & He);
    [done|by repeat constructor|done|vm_compute; intuition congruence|vm_compute; intuition congruence|].
  exists a, e. split; [exact Hr|]. apply He. apply (bool_decide_unpack _). exact I.
Defined.

Lemma WithSignature_length_witness :
  exists fd' sig', WithSignature sampleDA (be_of_Z 32 9 ++ be_of_Z 32 (2 ^ 250) ++ [0]) = Done (Some fd')
    /\ SignData fd' = [sig'] /\ length sig' <> SignatureLength.
Proof.
  destruct (WithSignature_length sampleDA (be_of_Z 32 9 ++ be_of_Z 32 (2 ^ 250) ++ [0]) 0)
    as (fd' & sig' & H1 & H2 & _ & H3); [done|by repeat constructor|done|by left|].
  exists fd', sig'. split; [exact H1|]. split; [exact H2|]. rewrite H3. intros [Hr _]. vm_compute in Hr. by apply Hr.
Defined.

End witnesses.
