(* ===== verification/FilePool.v ===== *)
(** * The file-data pool and its journal

    [core/txpool/filedatapool/filedatapool.go] and [journal.go]: the lookup
    table, [Add] with its validation and error slots, the queries that fall
    back to the database and ask the network, the three tickers of [loop], and
    the disk journal.

    A [*types.DA] is [option DA]: no code of the pool writes through the
    pointer, so the record itself stands for it and [None] for nil.  The
    synchroniser does write to records it got from the pool, all fields but the
    commitment ([eth/sync.go]); that is a step of its own ([step_write]).  What the
    pool uses of the record codec and of the SQL store are the classes
    [DACodec] and [DAStore].  Map iteration order is an argument, as are the
    readings of the clock and the answers of the file system.  Locks are not
    modelled: every operation below runs under [fp.mu] in the code. *)

From S2P Require Import Prelude Bytes DAType.

Local Open Scope Z_scope.

(** ** What the pool uses of other components *)

(** [rlp.Encode] of a record, and [Stream.Decode] and [rlp.DecodeBytes] into a new
    one; decoding from a stream without a limit can panic on a size no slice has. *)
Inductive decoded (A : Type) := DecEOF | DecErr | DecPanic | DecOk (a : A) (rest : list Z).
Arguments DecEOF {A}.
Arguments DecErr {A}.
Arguments DecPanic {A}.
Arguments DecOk {A} a rest.

Class DACodec `{KZG} := {
  encodeDA : DA -> option (list Z);
  decodeDA : list Z -> decoded DA;
  DecodeBytesDA : list Z -> option DA
}.

(** Bytes that fit into the address space, and records with the values a Go
    record has, whose slices, strings and big integer fit too. *)
Definition goBytes (s : list Z) : Prop := bytes_ok s /\ Z.of_nat (length s) <= 2 ^ 48.

Definition slicesSize (headerSize : Z) (l : list (list Z)) : Z := foldr (fun b n => headerSize + Z.of_nat (length b) + n) 0 l.

Definition fitsMemory `{KZG} (d : DA) : Prop :=
  Z.of_nat (length (Data d)) + slicesSize 24 (SignData d) + slicesSize 16 (SignerAddr d) + Z.of_nat (length (Proof d))
    + Z.of_nat (length (ClaimedValue d)) + Z.log2 (Z.abs (default 0 (NameSpaceID d))) `div` 8 <= 2 ^ 48.

Definition goDA `{KZG} (d : DA) : Prop :=
  address_ok (Sender d) /\ in_u64 (Nonce d) /\ in_u64 (Index d) /\ in_u64 (Length d) /\ bytes_ok (Data d) /\
  Forall bytes_ok (SignData d) /\ Forall bytes_ok (SignerAddr d) /\ hash_ok (DasKey d) /\ hash_ok (TxHash d) /\
  in_u64 (BlockNum d) /\ bytes_ok (Proof d) /\ bytes_ok (ClaimedValue d) /\ hash_ok (Root d) /\ fitsMemory d.

(** A successful decode consumes input, and an encoded record decodes to
    [storedDA] of it, leaving what follows.  [RlpDA] shows this of the codec
    the code uses. *)
Class DACodecLaws `{KZG} (c : DACodec) := {
  storedDA : DA -> DA;
  decodeDA_consumes s d rest : goBytes s -> decodeDA s = DecOk d rest -> exists c, c <> [] /\ s = c ++ rest;
  decodeDA_nil : decodeDA [] = DecEOF;
  decodeDA_encodeDA d bs rest : goDA d -> goBytes (bs ++ rest) -> encodeDA d = Some bs -> decodeDA (bs ++ rest) = DecOk (storedDA d) rest;
  DecodeBytesDA_encodeDA d bs : goDA d -> goBytes bs -> encodeDA d = Some bs -> DecodeBytesDA bs = Some (storedDA d)
}.

(** The queries of [ethdb/db/dadata.go]: record and whether an error was
    returned. *)
Class DAStore `{KZG} := {
  sqlDB : Type;
  GetCommitmentByTxHash : sqlDB -> Hash -> outcome (option DA * bool);
  GetDAByCommitmentHash : sqlDB -> Hash -> outcome (option DA * bool);
  GetDAByCommitment : sqlDB -> list Z -> outcome (option DA * bool);
  GetAllDARecords : sqlDB -> option (list DA);
  DeleteDAByHash : sqlDB -> Hash -> sqlDB
}.

(** ** State *)

Inductive poolErr :=
| ErrAlreadyKnown
| ErrFdPoolOverflow
| errLengthMismatch
| errEmptySignature
| errSdkUnavailable
| errSdkRejected.

#[export] Instance poolErr_eq_dec : EqDecision poolErr.
Proof. solve_decision. Defined.

Section FilePool.
Context `{kzg : KZG} `{crypto : Crypto} `{sdk : SDK} `{codec : !DACodec} `{sqlStore : !DAStore}.

Record lookup := mkLookup { slots : Z; lcollector : gmap Hash DA }.

Definition newLookup : lookup := mkLookup 0 ∅.

Definition lookupGet (t : lookup) (hash : Hash) : option DA := lcollector t !! hash.
Definition lookupCount (t : lookup) : nat := size (lcollector t).

(** [lookup.Add]; [t.slots] is an [int]. *)
Definition lookupAdd (t : lookup) (fd : DA) : lookup :=
  let s := i64 (slots t + 1) in
  let c := lcollector t in
  let hasTx := bool_decide (Cmp (TxHash fd) zeroHash <> 0) in
  if hasTx && commitIsEmpty fd then mkLookup s (<[TxHash fd := fd]> c)
  else if hasTx && negb (commitIsEmpty fd) then mkLookup s (<[cmHash fd := fd]> (<[TxHash fd := fd]> c))
  else if negb hasTx && negb (commitIsEmpty fd) then mkLookup s (<[cmHash fd := fd]> c)
  else mkLookup s c.

Definition lookupRemove (t : lookup) (hash : Hash) : lookup :=
  mkLookup (i64 (slots t - 1)) (delete hash (lcollector t)).

(** What the pool sends on its two feeds, and the line [Get] writes to its
    log file. *)
Inductive poolEvent :=
| NewFileDataEvent (fileds : list DA)
| FileDataHashEvent (hashes : list Hash)
| UnknownTxHash (hash : Hash).

(** [journal.writer]. *)
Inductive journalWriter := noWriter | devNull | sink.

Record config := mkConfig {
  Journal : list Z;
  JournalRemote : bool;
  GlobalSlots : Z
}.

(** [journal] is [None] when journaling is off; [jfile] is the file at
    [journal.path], [None] when there is none. *)
Record FilePool := mkPool {
  fpConfig : config;
  nodeType : list Z;
  signer : FdSigner;
  journal : option journalWriter;
  jfile : option (list Z);
  all : lookup;
  diskCache : gmap Hash time;
  collector : gmap Hash DA;
  beats : gmap Hash time;
  sent : list poolEvent
}.

(** [fp.nodeType == "b"] *)
Definition isStorageNode (fp : FilePool) : bool := bool_decide (nodeType fp = lit "b").
Arguments isStorageNode : simpl never.

Definition set_journal j fp := mkPool (fpConfig fp) (nodeType fp) (signer fp) j (jfile fp) (all fp) (diskCache fp) (collector fp) (beats fp) (sent fp).
Definition set_jfile f fp := mkPool (fpConfig fp) (nodeType fp) (signer fp) (journal fp) f (all fp) (diskCache fp) (collector fp) (beats fp) (sent fp).
Definition set_all a fp := mkPool (fpConfig fp) (nodeType fp) (signer fp) (journal fp) (jfile fp) a (diskCache fp) (collector fp) (beats fp) (sent fp).
Definition set_diskCache d fp := mkPool (fpConfig fp) (nodeType fp) (signer fp) (journal fp) (jfile fp) (all fp) d (collector fp) (beats fp) (sent fp).
Definition set_collector c fp := mkPool (fpConfig fp) (nodeType fp) (signer fp) (journal fp) (jfile fp) (all fp) (diskCache fp) c (beats fp) (sent fp).
Definition set_beats b fp := mkPool (fpConfig fp) (nodeType fp) (signer fp) (journal fp) (jfile fp) (all fp) (diskCache fp) (collector fp) b (sent fp).
Definition send e fp := mkPool (fpConfig fp) (nodeType fp) (signer fp) (journal fp) (jfile fp) (all fp) (diskCache fp) (collector fp) (beats fp) (sent fp ++ [e]).

(** ** The journal *)

(** Which file operations succeed during a call. *)
Record fsAnswers := mkFs { readOK : bool; writeOK : bool; closeOK : bool; createOK : bool; renameOK : bool; appendOK : bool }.

Definition fsFine : fsAnswers := mkFs true true true true true true.

(** [journal.insert]: the new file contents and whether it succeeded.  The
    encoder writes its output in one piece. *)
Definition insert_ (fs : fsAnswers) (w : journalWriter) (file : option (list Z)) (fd : DA) : option (list Z) * bool :=
  match w with
  | noWriter => (file, false)
  | _ =>
      match encodeDA fd with
      | None => (file, false)
      | Some bs =>
          match w with
          | sink => if writeOK fs then (Some (default [] file ++ bs), true) else (file, false)
          | _ => (file, true)
          end
      end
  end.

(** The replacement file: the encodings in the order the map is ranged over,
    [None] when one record fails to encode. *)
Fixpoint encodeAll (fds : list DA) : option (list Z) :=
  match fds with
  | [] => Some []
  | fd :: fds => match encodeDA fd with
                 | None => None
                 | Some bs => match encodeAll fds with None => None | Some r => Some (bs ++ r) end
                 end
  end.

(** [journal.rotate]: writer, file, success. *)
Definition rotate (fs : fsAnswers) (w : journalWriter) (file : option (list Z)) (all : list DA)
  : journalWriter * option (list Z) * bool :=
  let closed := match w with sink => closeOK fs | _ => true end in
  if negb closed then (w, file, false)
  else if negb (createOK fs) then (noWriter, file, false)
  else match (if writeOK fs then encodeAll all else match all with [] => Some [] | _ => None end) with
       | None => (noWriter, file, false)
       | Some bs =>
           if negb (renameOK fs) then (noWriter, file, false)
           else if negb (appendOK fs) then (noWriter, Some bs, false)
           else (sink, Some bs, true)
       end.

(** [journal.close]. *)
Definition closeJournal (fs : fsAnswers) (w : journalWriter) : journalWriter * bool :=
  (noWriter, match w with sink => closeOK fs | _ => true end).

(** ** Adding *)

(** [journalFd]: a failed insertion is only logged. *)
Definition journalFd (fs : fsAnswers) (fp : FilePool) (txHash : Hash) (fd : DA) : FilePool :=
  match journal fp with
  | None => fp
  | Some w =>
      if negb (JournalRemote (fpConfig fp)) && negb (bool_decide (is_Some (collector fp !! txHash))) then fp
      else set_jfile (insert_ fs w (jfile fp) fd).1 fp
  end.

(** [add]; [now] is the clock read for the heartbeat. *)
Definition add (fs : fsAnswers) (now : time) (fp : FilePool) (fd : DA) : FilePool * option poolErr :=
  let hash := poolHash fd in
  match lookupGet (all fp) hash with
  | Some _ => (fp, Some ErrAlreadyKnown)
  | None =>
      if decide (GlobalSlots (fpConfig fp) < u64 (i64 (slots (all fp) + 1))) then (fp, Some ErrFdPoolOverflow)
      else
        let fp := journalFd fs fp hash fd in
        let fp := set_all (lookupAdd (all fp) fd) fp in
        (set_beats (<[hash := now]> (beats fp)) fp, None)
  end.

(** [validateFileDataSignature]: (valid, error).  The verdict of the proof
    check is dropped; only its error counts. *)
Definition validateFileDataSignature (da : DA) (local : bool) : bool * option poolErr :=
  if local then (true, None)
  else if decide (Length da <> Z.of_nat (length (Data da))) then (false, Some errLengthMismatch)
  else if decide (length (SignData da) = 0)%nat then (false, Some errEmptySignature)
  else if negb sdkInit then (false, Some errSdkUnavailable)
  else match VerifyCommitWithProof (Marshal (Commitment da)) (Proof da) (ClaimedValue da) with
       | None => (false, Some errSdkRejected)
       | Some _ => (true, None)
       end.

Definition AddInToDisk (fp : FilePool) (hash : Hash) (receive : time) : FilePool :=
  set_diskCache (<[hash := receive]> (diskCache fp)) fp.

(** The first loop of [Add], on element [i]. *)
Definition addScan (local : bool) (st : FilePool * list (option poolErr) * list DA) (ifd : nat * option DA)
  : outcome (FilePool * list (option poolErr) * list DA) :=
  let '(fp, errs, news) := st in
  let '(i, pfd) := ifd in
  match pfd with
  | None => Panic
  | Some fd =>
      let '(flag, err) := validateFileDataSignature fd local in
      let errs := if negb flag || bool_decide (is_Some err) then errs ++ [err] else errs in
      let hashData := poolHash fd in
      let fp := if isStorageNode fp then AddInToDisk fp hashData (ReceiveAt fd) else fp in
      match lookupGet (all fp) hashData with
      | Some _ => errs ← store errs (Z.of_nat i) (Some ErrAlreadyKnown); Done (fp, errs, news)
      | None => Done (fp, errs, news ++ [fd])
      end
  end.

(** [addFdsLocked]: [now i] is the [i]-th reading of the clock; [add] reads it
    when it succeeds. *)
Fixpoint addFdsLocked (fs : fsAnswers) (now : nat -> time) (fp : FilePool) (fds : list DA) : FilePool * list (option poolErr) :=
  match fds with
  | [] => (fp, [])
  | fd :: fds =>
      let '(fp, err) := add fs (now 0%nat) fp fd in
      let now := match err with None => fun i => now (S i) | Some _ => now end in
      let '(fp, errs) := addFdsLocked fs now fp fds in
      (fp, err :: errs)
  end.

(** [for errs[nilSlot] != nil { nilSlot++ }] *)
Fixpoint nextNil (fuel : nat) (errs : list (option poolErr)) (nilSlot : Z) : outcome Z :=
  match fuel with
  | O => Stuck
  | S fuel =>
      e ← index errs nilSlot;
      match e with Some _ => nextNil fuel errs (nilSlot + 1) | None => Done nilSlot end
  end.

(** The second loop of [Add]: the error slots and the records that went in. *)
Definition addFill (news : list DA) (st : list (option poolErr) * Z * list DA) (ie : nat * option poolErr)
  : outcome (list (option poolErr) * Z * list DA) :=
  let '(errs, nilSlot, final) := st in
  let '(i, err) := ie in
  final ← match err with
          | None => fd ← index news (Z.of_nat i); Done (final ++ [fd])
          | Some _ => Done final
          end;
  nilSlot ← nextNil (S (length errs)) errs nilSlot;
  errs ← store errs nilSlot err;
  Done (errs, nilSlot + 1, final).

Definition Add (fs : fsAnswers) (now : nat -> time) (fp : FilePool) (fds : list (option DA)) (local : bool)
  : outcome (FilePool * list (option poolErr)) :=
  '(fp, errs, news) ← fold_outcome (addScan local) (imap pair fds) (fp, replicate (length fds) None, []);
  if decide (length news = 0)%nat then Done (fp, errs)
  else
    let '(fp, newErrs) := addFdsLocked fs now fp news in
    '(errs, _, final) ← fold_outcome (addFill news) (imap pair newErrs) (errs, 0, []);
    Done (if decide (length final = 0)%nat then fp else send (NewFileDataEvent final) fp, errs).

Definition addLocals fs now fp fds := Add fs now fp fds true.
Definition addRemotesSync fs now fp fds := Add fs now fp fds false.

Definition SendNewFileDataEvent (fp : FilePool) (fileData : list DA) : FilePool :=
  if decide (length fileData = 0)%nat then fp else send (NewFileDataEvent fileData) fp.

(** ** Removing *)

(** [RemoveFileData]: [len(da.TxHash)] is 32, so both keys are deleted; the
    slot count is not touched. *)
Definition RemoveFileData (fp : FilePool) (das : list (option DA)) : outcome FilePool :=
  fold_outcome (fun fp da =>
    match da with
    | None => Panic
    | Some da =>
        let c := lcollector (all fp) in
        let c := if decide (length (TxHash da) = 0)%nat then c else delete (TxHash da) c in
        Done (set_all (mkLookup (slots (all fp)) (delete (cmHash da) c)) fp)
    end) das fp.

(** [removeFileData]: the pool and whether an error was returned. *)
Definition removeFileData (fp : FilePool) (hash : Hash) : FilePool * bool :=
  match lookupGet (all fp) hash with
  | None => (fp, true)
  | Some _ =>
      let fp := set_beats (delete hash (beats fp)) fp in
      let fp := set_all (lookupRemove (all fp) hash) fp in
      (set_collector (delete hash (collector fp)) fp, false)
  end.

(** ** Queries *)

Definition get (fp : FilePool) (hash : Hash) : option DA := lookupGet (all fp) hash.
Definition Has (fp : FilePool) (hash : Hash) : bool := bool_decide (is_Some (get fp hash)).

(** [GetSender]: the signatures are put on an empty record. *)
Definition GetSender (unix : time -> Z) (fp : FilePool) (signData : list (list Z)) : outcome (list (Address * option sigErr)) :=
  FdSender unix (signer fp) (set_SignData signData zeroDA).

(** [GetDAByCommit], from the label on.  [sql n] is the database at the
    [n]-th try: the pool is read-locked meanwhile and does not change.  The
    result is the pool (its feed grows), the record and the error flag. *)
Fixpoint GetDAByCommit_from (fuel : nat) (sql : nat -> sqlDB) (commit : list Z) (cmHash : Hash) (getTimes : nat) (fp : FilePool)
  : outcome (FilePool * option DA * bool) :=
  match fuel with
  | O => Stuck
  | S fuel =>
      match get fp cmHash with
      | Some fd => Done (fp, Some fd, false)
      | None =>
          '(da, err) ← GetDAByCommitment (sql getTimes) commit;
          if (err : bool) then Done (fp, None, true)
          else
            match da with
            | Some da => Done (fp, Some da, false)
            | None =>
                let fp := if decide (getTimes < 1)%nat then send (FileDataHashEvent [cmHash]) fp else fp in
                if decide (S getTimes <= 1)%nat
                then GetDAByCommit_from fuel sql commit cmHash (S getTimes) fp
                else Done (fp, None, false)
            end
      end
  end.

Definition GetDAByCommit (sql : nat -> sqlDB) (fp : FilePool) (commit : list Z) : outcome (FilePool * option DA * bool) :=
  let digest := (DigestSetBytes zeroDigest commit).1 in
  GetDAByCommit_from 3 sql commit (BytesToHash (Marshal digest)) 0 fp.

(** [Get] and [GetDA], from the label on; [ask] tells them apart: only [Get]
    asks the network and logs. *)
Fixpoint Get_from (fuel : nat) (ask : bool) (sql : nat -> sqlDB) (hash : Hash) (getTimes : nat) (fp : FilePool)
  : outcome (FilePool * option DA) :=
  match fuel with
  | O => Stuck
  | S fuel =>
      match get fp hash with
      | Some fd => Done (fp, Some fd)
      | None =>
          '(da, err) ← GetCommitmentByTxHash (sql getTimes) hash;
          match da, err with
          | Some da, false => Done (fp, Some da)
          | _, _ =>
              if decide (getTimes < 1)%nat
              then
                '(da, err) ← GetDAByCommitmentHash (sql getTimes) hash;
                match da, err with
                | Some da, false => Done (fp, Some da)
                | _, _ => Done (if ask then send (FileDataHashEvent [hash]) fp else fp, None)
                end
              else if decide (S getTimes <= 1)%nat then Get_from fuel ask sql hash (S getTimes) fp
              else Done (if ask then send (UnknownTxHash hash) fp else fp, None)
          end
      end
  end.

Definition Get (sql : nat -> sqlDB) (fp : FilePool) (hash : Hash) := Get_from 3 true sql hash 0 fp.
Definition GetDA (sql : nat -> sqlDB) (fp : FilePool) (hash : Hash) := Get_from 3 false sql hash 0 fp.

(** ** Loading the journal *)

(** The records of the stream up to its end or its first error, and whether
    it was an error. *)
Fixpoint decodeAll (fuel : nat) (input : list Z) : outcome (list DA * bool) :=
  match fuel with
  | O => Stuck
  | S fuel =>
      match decodeDA input with
      | DecEOF => Done ([], false)
      | DecErr => Done ([], true)
      | DecPanic => Panic
      | DecOk fd rest => '(fds, failure) ← decodeAll fuel rest; Done (fd :: fds, failure)
      end
  end.

(** The batches handed to [add]: one is full when it has more than 1024
    records, and the last one only counts when it has any. *)
Fixpoint batches (batch fds : list DA) : list (list DA) :=
  match fds with
  | [] => if decide (0 < length batch)%nat then [batch] else []
  | fd :: fds =>
      let batch := batch ++ [fd] in
      if decide (1024 < length batch)%nat then batch :: batches [] fds else batches batch fds
  end.

(** [journal.load] with the pool's [Add]: the writer discards during the load
    and is nil after it.  [now b i] is the [i]-th reading of the clock in
    batch [b].
    The answer is the pool and whether the load failed. *)
Definition load (fs : fsAnswers) (now : nat -> nat -> time) (local : bool) (fp : FilePool) : outcome (FilePool * bool) :=
  match jfile fp with
  | None => Done (fp, false)
  | Some input =>
      if negb (readOK fs) then Done (fp, true)
      else
        '(fds, failure) ← decodeAll (S (length input)) input;
        let fp := set_journal (Some devNull) fp in
        fp ← fold_outcome (fun fp '(b, batch) =>
               '(fp, _) ← Add fs (now b) fp (Some <$> batch) local; Done fp)
               (imap pair (batches [] fds)) fp;
        Done (set_journal (Some noWriter) fp, failure)
  end.

(** [toJournal], in the order [rotate] ranges over it. *)
Definition toJournal (order : gmap Hash DA -> list (Hash * DA)) (fp : FilePool) : list DA := (order (collector fp)).*2.

Definition rotatePool (fs : fsAnswers) (order : gmap Hash DA -> list (Hash * DA)) (fp : FilePool) : FilePool :=
  match journal fp with
  | None => fp
  | Some w => let '(w, file, _) := rotate fs w (jfile fp) (toJournal order fp) in set_jfile file (set_journal (Some w) fp)
  end.

(** [Init]: load, rotate, and the storage node's disk cache. *)
Definition Init (fs : fsAnswers) (now : nat -> nat -> time) (order : gmap Hash DA -> list (Hash * DA)) (sql : sqlDB) (fp : FilePool)
  : outcome FilePool :=
  fp ← match journal fp with
       | None => Done fp
       | Some _ =>
           '(fp, _) ← load fs now (negb (JournalRemote (fpConfig fp))) fp;
           Done (rotatePool fs order fp)
       end;
  Done (if isStorageNode fp
        then match GetAllDARecords sql with
             | None => fp
             | Some das =>
                 foldl (fun fp da => set_diskCache (<[cmHash da := ReceiveAt da]> (<[TxHash da := ReceiveAt da]> (diskCache fp))) fp) fp das
             end
        else fp).

(** The pool [New] fills before it calls [Init]; [file] is what is on disk. *)
Definition emptyPool (cfg : config) (node : list Z) (s : FdSigner) (file : option (list Z)) : FilePool :=
  mkPool cfg node s (if JournalRemote cfg && negb (bool_decide (Journal cfg = [])) then Some noWriter else None)
    file newLookup ∅ ∅ ∅ [].

Definition New cfg node s file fs now order sql := Init fs now order sql (emptyPool cfg node s file).

(** ** The background loop *)

Definition hour : Z := 3600 * 10 ^ 9.

(** [remove.C]: [now h] is the clock when [h] is looked at. *)
Definition removeTick (now : Hash -> time) (order : list (Hash * time)) (sql : sqlDB) (fp : FilePool) : sqlDB * FilePool :=
  foldl (fun '(sql, fp) '(hash, receive) =>
    if decide (receive + 14 * 24 * hour < now hash)
    then (DeleteDAByHash sql hash, set_diskCache (delete hash (diskCache fp)) fp)
    else (sql, fp)) (sql, fp) order.

(** [evict.C].  The body deletes from the maps it ranges over: an entry that
    is gone when its turn comes is not visited. *)
Definition evictAll (order : list Hash) (fp : FilePool) : FilePool :=
  foldl (fun fp txHash =>
    match collector fp !! txHash with
    | None => fp
    | Some _ => (removeFileData (set_diskCache (delete txHash (diskCache fp)) fp) txHash).1
    end) fp order.

Definition evictTick (now : Hash -> time) (order : list Hash) (inner : Hash -> list Hash) (fp : FilePool) : FilePool :=
  foldl (fun fp hash =>
    match collector fp !! hash with
    | None => fp
    | Some _ => if decide (24 * hour < now hash - default 0 (beats fp !! hash)) then evictAll (inner hash) fp else fp
    end) fp order.

(** [journal.C] *)
Definition journalTick := rotatePool.

(** [Close] *)
Definition Close (fs : fsAnswers) (fp : FilePool) : FilePool :=
  match journal fp with
  | None => fp
  | Some w => set_journal (Some (closeJournal fs w).1) fp
  end.

(** ** Steps of the pool *)

(** A holder of pointers to pooled records writes to them. *)
Definition rewriteRecords (keys : gset Hash) (g : DA -> DA) (fp : FilePool) : FilePool :=
  set_all (mkLookup (slots (all fp))
    (map_imap (fun h d => Some (if decide (h ∈ keys) then g d else d)) (lcollector (all fp)))) fp.

(** An operation of the pool run to completion, from any goroutine; the
    orders range over the map they are taken from. *)
Inductive pool_step : FilePool -> FilePool -> Prop :=
| step_Add fs now fds local fp fp' errs : Add fs now fp fds local = Done (fp', errs) -> pool_step fp fp'
| step_AddInToDisk h t fp : pool_step fp (AddInToDisk fp h t)
| step_RemoveFileData das fp fp' : RemoveFileData fp das = Done fp' -> pool_step fp fp'
| step_Send fds fp : pool_step fp (SendNewFileDataEvent fp fds)
| step_Get sql h fp fp' da : Get sql fp h = Done (fp', da) -> pool_step fp fp'
| step_GetDA sql h fp fp' da : GetDA sql fp h = Done (fp', da) -> pool_step fp fp'
| step_GetDAByCommit sql c fp fp' da e : GetDAByCommit sql fp c = Done (fp', da, e) -> pool_step fp fp'
| step_removeTick now order sql fp :
    order ≡ₚ map_to_list (diskCache fp) -> pool_step fp (removeTick now order sql fp).2
| step_evictTick now order inner fp :
    order ≡ₚ (map_to_list (collector fp)).*1 -> pool_step fp (evictTick now order inner fp)
| step_journalTick fs order fp :
    order (collector fp) ≡ₚ map_to_list (collector fp) -> pool_step fp (journalTick fs order fp)
| step_Close fs fp : pool_step fp (Close fs fp)
| step_write keys g fp : (forall d, Commitment (g d) = Commitment d) -> pool_step fp (rewriteRecords keys g fp).

(** The states [New] answers, with a file system and a clock of any kind. *)
Definition pool_init (fp : FilePool) : Prop :=
  exists cfg node s file fs now order sql,
    order ∅ = [] /\ New cfg node s file fs now order sql = Done fp.

Definition pool_reachable := reachable pool_init (fun fp (_ : unit) fp' => pool_step fp fp').

(** ** [Add] is the sequential insertion of its records *)

Definition known (fp : FilePool) (d : DA) : bool := bool_decide (is_Some (get fp (poolHash d))).

(** The validation errors of a batch, in order. *)
Definition invalidErrs (local : bool) (ds : list DA) : list (option poolErr) :=
  filter is_Some ((fun d => (validateFileDataSignature d local).2) <$> ds).

Definition slotOf (fp : FilePool) (d : DA) : option poolErr := if known fp d then Some ErrAlreadyKnown else None.

(** The disk cache of a storage node after a batch. *)
Definition diskAll (fp : FilePool) (ds : list DA) : FilePool :=
  foldl (fun fp d => if isStorageNode fp then AddInToDisk fp (poolHash d) (ReceiveAt d) else fp) fp ds.

Lemma diskAll_frame fp ds : all (diskAll fp ds) = all fp /\ isStorageNode (diskAll fp ds) = isStorageNode fp.
Proof.
  unfold diskAll. revert fp. induction ds as [|d ds IH]; intros fp; [done|]. simpl.
  destruct (IH (if isStorageNode fp then AddInToDisk fp (poolHash d) (ReceiveAt d) else fp)) as [-> ->].
  destruct (isStorageNode fp) eqn:Hb; [|done]. split; [done|].
  by change (isStorageNode fp = true).
Qed.

Lemma diskAll_snoc fp ds d :
  diskAll fp (ds ++ [d]) =
  if isStorageNode fp then AddInToDisk (diskAll fp ds) (poolHash d) (ReceiveAt d) else diskAll fp ds.
Proof. unfold diskAll at 1. rewrite foldl_app. simpl. fold (diskAll fp ds). by rewrite (proj2 (diskAll_frame fp ds)). Qed.

Lemma validate_flag d local :
  (validateFileDataSignature d local).1 = bool_decide ((validateFileDataSignature d local).2 = None).
Proof. unfold validateFileDataSignature. by repeat case_match. Qed.

Lemma invalidErrs_snoc local ds d :
  invalidErrs local (ds ++ [d]) =
  invalidErrs local ds ++ (let '(flag, err) := validateFileDataSignature d local in
                           if negb flag || bool_decide (is_Some err) then [err] else []).
Proof.
  unfold invalidErrs. rewrite fmap_app, filter_app. f_equal. simpl.
  pose proof (validate_flag d local) as Hf.
  destruct (validateFileDataSignature d local) as [flag [e|]]; simpl in *; subst flag; done.
Qed.

(** One element of the first loop, once the loop has got to it. *)
Lemma addScan_step fp0 fp local slots_ n inv news d :
  all fp = all fp0 ->
  addScan local (fp, slots_ ++ None :: replicate n None ++ inv, news) (length slots_, Some d)
  = Done (if isStorageNode fp then AddInToDisk fp (poolHash d) (ReceiveAt d) else fp,
          slots_ ++ slotOf fp0 d :: replicate n None ++ inv
            ++ (let '(flag, err) := validateFileDataSignature d local in
                if negb flag || bool_decide (is_Some err) then [err] else []),
          if known fp0 d then news else news ++ [d]).
Proof.
  intros Hall. unfold addScan. destruct (validateFileDataSignature d local) as [flag err].
  set (bad := negb flag || bool_decide (is_Some err)).
  assert (Hget : lookupGet (all (if isStorageNode fp then AddInToDisk fp (poolHash d) (ReceiveAt d) else fp)) (poolHash d)
                 = get fp0 (poolHash d)).
  { unfold get. rewrite <-Hall. by destruct (isStorageNode fp). }
  rewrite Hget. unfold slotOf, known.
  destruct (get fp0 (poolHash d)) as [d'|].
  - rewrite bool_decide_eq_true_2 by eauto.
    rewrite store_Done by (destruct bad; rewrite !length_app; simpl; lia). simpl. rewrite Nat2Z.id. do 3 f_equal.
    destruct bad; rewrite ?app_nil_r; [rewrite <-(assoc_L (++)); cbn [app]; rewrite <-(assoc_L (++))|];
      by rewrite insert_app_r_alt, Nat.sub_diag by lia.
  - rewrite bool_decide_eq_false_2 by (by intros [? ?]). do 3 f_equal.
    destruct bad; rewrite ?app_nil_r; [|done]. by rewrite <-(assoc_L (++)); cbn [app]; rewrite <-(assoc_L (++)).
Qed.

Lemma addScan_all fp local ds n :
  (length ds <= n)%nat ->
  fold_outcome (addScan local) (imap pair (Some <$> ds)) (fp, replicate n None, [])
  = Done (diskAll fp ds, (slotOf fp <$> ds) ++ replicate (n - length ds) None ++ invalidErrs local ds,
          filter (fun d => known fp d = false) ds).
Proof.
  intros Hn. induction ds as [|d ds IH] using rev_ind.
  { simpl. by rewrite Nat.sub_0_r, app_nil_r. }
  rewrite length_app in Hn. simpl in Hn.
  rewrite fmap_app, imap_app, fold_outcome_app, IH by lia. cbn [mbind outcome_bind].
  rewrite length_fmap. cbn [imap fmap list_fmap fold_outcome]. rewrite Nat.add_0_r.
  replace (n - length ds)%nat with (S (n - length (ds ++ [d]))) by (rewrite length_app; simpl; lia).
  cbn [replicate app]. pose proof (diskAll_frame fp ds) as [Hall Hnode].
  rewrite <-(length_fmap (slotOf fp) ds).
  rewrite (addScan_step fp) by done. rewrite Hnode, diskAll_snoc, invalidErrs_snoc, fmap_app, filter_app.
  rewrite <-!(assoc_L (++)). do 3 f_equal.
  destruct (known fp d) eqn:Hk; [rewrite filter_cons_False by congruence|rewrite filter_cons_True by done];
    by rewrite ?filter_nil, ?app_nil_r.
Qed.

(** The nil slots of [slots_] filled from left to right with [es]. *)
Fixpoint merge (slots_ es : list (option poolErr)) : list (option poolErr) :=
  match slots_, es with
  | [], _ => []
  | Some k :: slots_, es => Some k :: merge slots_ es
  | None :: slots_, e :: es => e :: merge slots_ es
  | None :: slots_, [] => None :: merge slots_ []
  end.

(** Records whose result is nil. *)
Definition added (ds : list DA) (results : list (option poolErr)) : list DA :=
  (filter (fun p => p.2 = None) (zip ds results)).*1.

Definition nilCount (slots_ : list (option poolErr)) : nat := length (filter (fun e => e = None) slots_).

Lemma nextNil_skip fuel pre (ks : list poolErr) post :
  (length ks < fuel)%nat ->
  nextNil fuel (pre ++ (Some <$> ks) ++ None :: post) (Z.of_nat (length pre))
  = Done (Z.of_nat (length pre + length ks)).
Proof.
  revert fuel pre. induction ks as [|k ks IH]; intros [|fuel] pre Hf; simpl in Hf; try lia.
  - cbn [nextNil]. rewrite (index_nat _ _ None) by (by rewrite lookup_app_r, Nat.sub_diag by lia). simpl. by rewrite Nat.add_0_r.
  - rewrite fmap_cons. cbn [nextNil app]. rewrite (index_nat _ _ (Some k)) by (by rewrite lookup_app_r, Nat.sub_diag by lia). cbn [mbind outcome_bind length].
    pose proof (IH fuel (pre ++ [Some k]) ltac:(lia)) as IH'.
    rewrite <-!(assoc_L (++)) in IH'. cbn [app] in IH'. rewrite length_app in IH'. simpl in IH'.
    replace (Z.of_nat (length pre) + 1) with (Z.of_nat (length pre + 1)) by lia. rewrite IH'. f_equal. lia.
Qed.

Lemma slots_split (slots_ : list (option poolErr)) n :
  nilCount slots_ = S n -> exists ks post, slots_ = (Some <$> ks) ++ None :: post /\ nilCount post = n.
Proof.
  unfold nilCount. induction slots_ as [|[k|] s IH]; intros Hn; [done| |].
  - rewrite filter_cons_False in Hn by done. destruct (IH Hn) as (ks & post & -> & Hp). by exists (k :: ks), post.
  - rewrite filter_cons_True in Hn by done. simpl in Hn. exists [], s. split; [done|lia].
Qed.

Lemma merge_skip (ks : list poolErr) post e es :
  merge ((Some <$> ks) ++ None :: post) (e :: es) = (Some <$> ks) ++ e :: merge post es.
Proof. induction ks as [|k ks IH]; [done|]. rewrite !fmap_cons. cbn [app merge]. by rewrite IH. Qed.

Lemma merge_nil s : nilCount s = 0%nat -> merge s [] = s.
Proof.
  unfold nilCount. induction s as [|[k|] s IH]; intros Hn; [done| |].
  - rewrite filter_cons_False in Hn by done. simpl. by rewrite IH.
  - by rewrite filter_cons_True in Hn.
Qed.

Lemma addFill_step news k d pre ks post tail final e :
  news !! k = Some d ->
  addFill news (pre ++ ((Some <$> ks) ++ None :: post) ++ tail, Z.of_nat (length pre), final) (k, e)
  = Done ((pre ++ (Some <$> ks) ++ [e]) ++ post ++ tail, Z.of_nat (length (pre ++ (Some <$> ks) ++ [e])),
          match e with None => final ++ [d] | Some _ => final end).
Proof.
  intros Hd. unfold addFill. rewrite (index_nat news k d Hd).
  replace (match e with Some _ => Done final | None => _ end)
    with (Done (match e with None => final ++ [d] | Some _ => final end)) by (by destruct e).
  rewrite <-!(assoc_L (++)), <-app_comm_cons.
  unfold mbind at 1, outcome_bind at 1. rewrite nextNil_skip by (rewrite !length_app, length_fmap; simpl; lia).
  unfold mbind at 1, outcome_bind at 1.
  rewrite store_Done by (rewrite !length_app, length_fmap; simpl; lia). unfold mbind, outcome_bind.
  rewrite Nat2Z.id, insert_app_r_alt by lia.
  rewrite insert_app_r_alt by (rewrite length_fmap; lia).
  replace (length pre + length ks - length pre - length (Some <$> ks))%nat with 0%nat by (rewrite length_fmap; lia).
  rewrite !length_app, length_fmap. do 3 f_equal. simpl. lia.
Qed.

Lemma addFill_all news es k pre s tail final :
  nilCount s = length es -> length news = (k + length es)%nat ->
  exists m, fold_outcome (addFill news) (imap (fun i e => ((k + i)%nat, e)) es) (pre ++ s ++ tail, Z.of_nat (length pre), final)
  = Done (pre ++ merge s es ++ tail, m, final ++ added (drop k news) es).
Proof.
  revert k pre s final. induction es as [|e es IH]; intros k pre s final Hs Hnews.
  { rewrite merge_nil by done. unfold added. rewrite zip_with_nil_r. simpl. rewrite app_nil_r. eauto. }
  apply slots_split in Hs as (ks & post & -> & Hpost). simpl in Hnews.
  destruct (lookup_lt_is_Some_2 news k) as [d Hd]; [lia|].
  rewrite (drop_S news d k) by done. rewrite merge_skip, imap_cons. cbn [fold_outcome]. rewrite Nat.add_0_r.
  rewrite (addFill_step _ _ d) by done.
  destruct (IH (S k) (pre ++ (Some <$> ks) ++ [e]) post (match e with None => final ++ [d] | Some _ => final end))
    as [m Hm]; [done|lia|]. exists m.
  replace (imap _ es) with (imap (fun i e => ((S k + i)%nat, e)) es) by (apply imap_ext; intros; simpl; f_equal; lia).
  rewrite Hm. rewrite <-!(assoc_L (++)). f_equal. f_equal.
  unfold added. cbn [zip zip_with]. destruct e; [by rewrite filter_cons_False by done|].
  rewrite filter_cons_True by done. by rewrite <-(assoc_L (++)).
Qed.

(** Inserting never takes a key away. *)
Lemma lookupAdd_mono t fd h : is_Some (lookupGet t h) -> is_Some (lookupGet (lookupAdd t fd) h).
Proof.
  unfold lookupGet, lookupAdd. intros Hh.
  repeat case_match; simpl; rewrite ?lookup_insert_is_Some'; tauto.
Qed.

Lemma journalFd_frame fs fp h fd :
  all (journalFd fs fp h fd) = all fp /\ collector (journalFd fs fp h fd) = collector fp
  /\ fpConfig (journalFd fs fp h fd) = fpConfig fp /\ diskCache (journalFd fs fp h fd) = diskCache fp
  /\ sent (journalFd fs fp h fd) = sent fp.
Proof. unfold journalFd. by repeat case_match. Qed.

Lemma add_mono fs now fp fd h : is_Some (get fp h) -> is_Some (get (add fs now fp fd).1 h).
Proof.
  intros Hh. unfold add. repeat case_match; simpl; try done.
  unfold get. simpl. rewrite (proj1 (journalFd_frame _ _ _ _)). by apply lookupAdd_mono.
Qed.

Lemma add_known fs now fp fd :
  known fp fd = true -> add fs now fp fd = (fp, Some ErrAlreadyKnown).
Proof. unfold known, add, get. intros [d Hd]%bool_decide_eq_true. by rewrite Hd. Qed.

Lemma known_add fs now fp fd d : known fp d = true -> known (add fs now fp fd).1 d = true.
Proof. unfold known. rewrite !bool_decide_eq_true. apply add_mono. Qed.

(** Leaving out the records known at the start and filling their slots in
    again is inserting them all. *)
Lemma addFds_filter fs fp0 ds : forall now fp,
  (forall d, known fp0 d = true -> known fp d = true) ->
  let news := filter (fun d => known fp0 d = false) ds in
  let '(fp1, es) := addFdsLocked fs now fp news in
  addFdsLocked fs now fp ds = (fp1, merge (slotOf fp0 <$> ds) es)
  /\ length es = length news /\ nilCount (slotOf fp0 <$> ds) = length news
  /\ added news es = added ds (merge (slotOf fp0 <$> ds) es).
Proof.
  induction ds as [|d ds IH]; intros now fp Hmono; [done|].
  unfold nilCount in *. rewrite !fmap_cons. unfold slotOf at 1 3 5.
  destruct (known fp0 d) eqn:Hk.
  - rewrite filter_cons_False by congruence. rewrite (filter_cons_False _ (Some _)) by done.
    specialize (IH now fp Hmono). cbn zeta in *. cbn [addFdsLocked].
    rewrite add_known by auto. destruct (addFdsLocked fs now fp _) as [fp1 es].
    destruct IH as (-> & Hl & Hn & Hadd). split_and!; [done..|].
    unfold added at 2. cbn [merge zip zip_with]. rewrite filter_cons_False by done. exact Hadd.
  - rewrite filter_cons_True by done. rewrite (filter_cons_True _ None) by done. cbn zeta. cbn [addFdsLocked].
    destruct (add fs (now 0%nat) fp d) as [fp' err] eqn:Hadd_.
    specialize (IH (match err with None => fun i => now (S i) | Some _ => now end) fp').
    cbn zeta in IH. destruct (addFdsLocked fs _ fp' (filter _ ds)) as [fp1 es].
    destruct IH as (-> & Hl & Hn & Hadd).
    { intros d' Hd'. replace fp' with (add fs (now 0%nat) fp d).1 by (by rewrite Hadd_). by apply known_add, Hmono. }
    split_and!; [done|by simpl; rewrite Hl|by simpl; rewrite Hn|].
    unfold added in *. cbn [merge zip zip_with].
    destruct err; [rewrite !filter_cons_False by done|rewrite !filter_cons_True by done; simpl; f_equal]; exact Hadd.
Qed.

Lemma addFds_nil fs now fp ds :
  (addFdsLocked fs now fp ds).2 = [] -> ds = [].
Proof. destruct ds; [done|]. simpl. by repeat case_match. Qed.

(** What [Add] does, for records that are not nil. *)
Lemma Add_eq fs now fp ds local :
  Add fs now fp (Some <$> ds) local =
  let '(fp', results) := addFdsLocked fs now (diskAll fp ds) ds in
  Done (SendNewFileDataEvent fp' (added ds results), results ++ invalidErrs local ds).
Proof.
  unfold Add. rewrite length_fmap, addScan_all by done. cbn [mbind outcome_bind].
  rewrite Nat.sub_diag. cbn [replicate app].
  pose proof (addFds_filter fs fp ds now (diskAll fp ds)) as Hf. cbn zeta in Hf.
  destruct (addFdsLocked fs now (diskAll fp ds) (filter _ ds)) as [fp1 es] eqn:Hnews.
  destruct Hf as (-> & Hl & Hn & Hadd).
  { intros d. unfold known, get. by rewrite (proj1 (diskAll_frame fp ds)). }
  case_decide as Hz.
  - rewrite Hz in *. destruct es; [|done]. apply nil_length_inv in Hz. rewrite Hz in *. simpl in Hnews.
    injection Hnews as <-. rewrite <-Hadd, merge_nil by done. done.
  - destruct (addFill_all (filter (fun d => known fp d = false) ds) es 0 [] (slotOf fp <$> ds)
      (invalidErrs local ds) []) as [m Hm]; [congruence|simpl; congruence|].
    simpl in Hm. replace (imap pair es) with (imap (fun i e => (i, e)) es) by done.
    unfold mbind, outcome_bind. change (Z.of_nat 0) with 0 in Hm. rewrite Hm. rewrite drop_0, Hadd.
    unfold SendNewFileDataEvent. done.
Qed.

(** A batch with a nil record in it panics. *)
Lemma nil_or_not (fds : list (option DA)) :
  (exists ds, fds = Some <$> ds) \/ (exists ds rest, fds = (Some <$> ds) ++ None :: rest).
Proof.
  induction fds as [|[d|] fds IH]; [left; by exists []| |right; by exists [], fds].
  destruct IH as [[ds ->]|(ds & rest & ->)]; [left; by exists (d :: ds)|right; by exists (d :: ds), rest].
Qed.

Lemma Add_nil fs now fp ds rest local : Add fs now fp ((Some <$> ds) ++ None :: rest) local = Panic.
Proof.
  unfold Add. rewrite imap_app, fold_outcome_app, addScan_all by (rewrite length_app, length_fmap; lia). done.
Qed.

Lemma Add_Done fs now fp fds local r :
  Add fs now fp fds local = Done r -> exists ds, fds = Some <$> ds.
Proof. destruct (nil_or_not fds) as [?|(ds & rest & ->)]; [done|]. by rewrite Add_nil. Qed.

(** ** The invariant of the pool *)

(** The keys a record is filed under. *)
Definition key_of (h : Hash) (d : DA) : Prop :=
  (h = TxHash d /\ Cmp (TxHash d) zeroHash <> 0) \/ (h = cmHash d /\ commitIsEmpty d = false).

(** What stays true of a key when the record under it is written to. *)
Definition filed (h : Hash) (d : DA) : Prop :=
  Cmp h zeroHash <> 0 \/ (h = cmHash d /\ commitIsEmpty d = false).

Lemma key_of_filed h d : key_of h d -> filed h d.
Proof. intros [[-> ?]|[-> ?]]; [by left|by right]. Qed.

Record core_inv (c : gmap Hash DA) (t : lookup) (cfg : config) : Prop := {
  inv_collector : c = ∅;
  inv_keys h d : lcollector t !! h = Some d -> filed h d;
  inv_slots : 0 <= GlobalSlots cfg < 2 ^ 63 -> 0 <= slots t <= GlobalSlots cfg;
  inv_size : 0 <= GlobalSlots cfg < 2 ^ 63 -> Z.of_nat (size (lcollector t)) <= 2 * slots t
}.

Definition pool_inv (fp : FilePool) : Prop :=
  core_inv (collector fp) (all fp) (fpConfig fp) /\ forall h, UnknownTxHash h ∉ sent fp.

Lemma lookupAdd_slots t fd : slots (lookupAdd t fd) = i64 (slots t + 1).
Proof. unfold lookupAdd. by repeat case_match. Qed.

Lemma lookupAdd_keys t fd h d :
  lcollector (lookupAdd t fd) !! h = Some d -> lcollector t !! h = Some d \/ (d = fd /\ key_of h fd).
Proof.
  unfold lookupAdd, key_of. destruct (bool_decide _) eqn:Htx, (commitIsEmpty fd) eqn:Hc; simpl; try tauto.
  all: rewrite ?bool_decide_eq_true in Htx.
  all: rewrite ?lookup_insert_Some; naive_solver.
Qed.

Lemma size_insert_le {A} (m : gmap Hash A) h x : (size (<[h := x]> m) <= S (size m))%nat.
Proof. rewrite map_size_insert. destruct (m !! h); simpl; lia. Qed.

Lemma lookupAdd_size t fd : (size (lcollector (lookupAdd t fd)) <= S (S (size (lcollector t))))%nat.
Proof.
  unfold lookupAdd. repeat case_match; simpl.
  - pose proof (size_insert_le (lcollector t) (TxHash fd) fd). lia.
  - pose proof (size_insert_le (lcollector t) (TxHash fd) fd).
    pose proof (size_insert_le (<[TxHash fd := fd]> (lcollector t)) (cmHash fd) fd). lia.
  - pose proof (size_insert_le (lcollector t) (cmHash fd) fd). lia.
  - lia.
Qed.

Lemma slots_next s G :
  0 <= G < 2 ^ 63 -> 0 <= s <= G -> ~ G < u64 (i64 (s + 1)) -> i64 (s + 1) = s + 1 /\ s + 1 <= G.
Proof.
  intros HG Hs Hle. rewrite u64_i64 in Hle by (unfold in_u64; lia).
  split; [|lia]. apply i64_small. unfold in_i64. lia.
Qed.

Lemma add_inv fs now fp fd :
  core_inv (collector fp) (all fp) (fpConfig fp) ->
  let fp' := (add fs now fp fd).1 in
  core_inv (collector fp') (all fp') (fpConfig fp') /\ sent fp' = sent fp
  /\ fpConfig fp' = fpConfig fp
  /\ (0 <= GlobalSlots (fpConfig fp) < 2 ^ 63 -> slots (all fp) <= slots (all fp')).
Proof.
  intros Hinv. cbn zeta. unfold add. destruct (lookupGet _ _); [split_and!; done || lia|].
  case_decide as Hfull; [split_and!; done || lia|].
  destruct (journalFd_frame fs fp (poolHash fd) fd) as (Ha & Hc & Hcfg & _ & Hsent). simpl.
  rewrite Ha, Hc, Hcfg, Hsent. destruct Hinv as [Hcol Hkeys Hslots Hsize].
  assert (Hnext : 0 <= GlobalSlots (fpConfig fp) < 2 ^ 63 ->
    slots (lookupAdd (all fp) fd) = slots (all fp) + 1 /\ slots (all fp) + 1 <= GlobalSlots (fpConfig fp)).
  { intros HG. rewrite lookupAdd_slots. by apply slots_next; auto. }
  split_and!; [|done..|intros HG; specialize (Hnext HG); lia]. split; [done| | |].
  - intros h d [?|[-> ?]]%lookupAdd_keys; auto using key_of_filed.
  - intros HG. specialize (Hnext HG). specialize (Hslots HG). lia.
  - intros HG. specialize (Hnext HG). specialize (Hsize HG).
    pose proof (lookupAdd_size (all fp) fd). lia.
Qed.

Lemma addFds_inv fs ds : forall now fp,
  core_inv (collector fp) (all fp) (fpConfig fp) ->
  let fp' := (addFdsLocked fs now fp ds).1 in
  core_inv (collector fp') (all fp') (fpConfig fp') /\ sent fp' = sent fp
  /\ fpConfig fp' = fpConfig fp
  /\ (0 <= GlobalSlots (fpConfig fp) < 2 ^ 63 -> slots (all fp) <= slots (all fp')).
Proof.
  induction ds as [|d ds IH]; intros now fp Hinv; [simpl; split_and!; done || lia|]. cbn zeta. cbn [addFdsLocked].
  pose proof (add_inv fs (now 0%nat) fp d Hinv) as (H1 & H2 & H3 & H4).
  destruct (add fs (now 0%nat) fp d) as [fp1 err]. cbn [fst] in *.
  pose proof (IH (match err with None => fun i => now (S i) | Some _ => now end) fp1 H1) as (G1 & G2 & G3 & G4).
  destruct (addFdsLocked fs _ fp1 ds) as [fp2 es]. cbn [fst] in *.
  rewrite H3 in G4. split_and!; [done|congruence|congruence|intros HG; specialize (H4 HG); specialize (G4 HG); lia].
Qed.

(** What a step does to the invariant: it is kept, the configuration does not
    change and no slot is given back. *)
Definition step_ok (fp fp' : FilePool) : Prop :=
  pool_inv fp' /\ fpConfig fp' = fpConfig fp
  /\ (0 <= GlobalSlots (fpConfig fp) < 2 ^ 63 -> slots (all fp) <= slots (all fp')).

Lemma step_ok_refl fp : pool_inv fp -> step_ok fp fp.
Proof. intros. split_and!; done || lia. Qed.

(** A step that leaves the lookup alone and logs nothing. *)
Lemma step_ok_same fp fp' :
  pool_inv fp -> collector fp' = collector fp -> all fp' = all fp -> fpConfig fp' = fpConfig fp ->
  (forall h, UnknownTxHash h ∈ sent fp' -> UnknownTxHash h ∈ sent fp) -> step_ok fp fp'.
Proof.
  intros [Hc Hs] H1 H2 H3 H4. unfold step_ok, pool_inv. rewrite H1, H2, H3.
  split_and!; [done|naive_solver|done|lia].
Qed.

Lemma send_log fp e h :
  (forall h', e <> UnknownTxHash h') -> UnknownTxHash h ∈ sent (send e fp) -> UnknownTxHash h ∈ sent fp.
Proof. simpl. intros He [?|?%list_elem_of_singleton]%elem_of_app; [done|]. by destruct (He h). Qed.

Lemma send_ok fp e : pool_inv fp -> (forall h, e <> UnknownTxHash h) -> step_ok fp (send e fp).
Proof. intros Hp He. apply step_ok_same; try done. intros h. by apply send_log. Qed.

Lemma diskAll_core fp ds :
  collector (diskAll fp ds) = collector fp /\ fpConfig (diskAll fp ds) = fpConfig fp /\ sent (diskAll fp ds) = sent fp.
Proof.
  induction ds as [|d ds IH] using rev_ind; [done|]. rewrite diskAll_snoc. by destruct (isStorageNode fp).
Qed.

Lemma Add_ok fs now fp fds local fp' errs :
  pool_inv fp -> Add fs now fp fds local = Done (fp', errs) -> step_ok fp fp'.
Proof.
  intros [Hc Hs] HA. destruct (Add_Done _ _ _ _ _ _ HA) as [ds ->]. rewrite Add_eq in HA.
  destruct (diskAll_core fp ds) as (D1 & D2 & D3). destruct (diskAll_frame fp ds) as [D4 _].
  pose proof (addFds_inv fs ds now (diskAll fp ds)) as Hadd. cbn zeta in Hadd.
  destruct (addFdsLocked fs now (diskAll fp ds) ds) as [fp1 results]. cbn [fst] in Hadd.
  rewrite D1, D2, D3, D4 in Hadd. destruct (Hadd Hc) as (H1 & H2 & H3 & H4). injection HA as <- <-.
  assert (step_ok fp fp1) as (Hp & ? & ?).
  { split_and!; [|done|done]. split; [done|]. by rewrite H2. }
  unfold SendNewFileDataEvent. case_decide; [done|].
  destruct (send_ok fp1 (NewFileDataEvent (added ds results))) as (? & ? & ?); [done|done|].
  split_and!; [done|congruence|done].
Qed.

Lemma core_inv_shrink c t cfg m :
  core_inv c t cfg -> m ⊆ lcollector t -> core_inv c (mkLookup (slots t) m) cfg.
Proof.
  intros [H1 H2 H3 H4] Hm. split; [done| |done|]; simpl.
  - intros h d Hd. apply H2. by eapply lookup_weaken.
  - intros HG. specialize (H4 HG). pose proof (map_subseteq_size m (lcollector t) Hm). lia.
Qed.

Lemma step_ok_trans fp1 fp2 fp3 : step_ok fp1 fp2 -> step_ok fp2 fp3 -> step_ok fp1 fp3.
Proof.
  intros (A1 & A2 & A3) (B1 & B2 & B3). split_and!; [done|congruence|].
  intros HG. specialize (A3 HG). rewrite A2 in B3. specialize (B3 HG). lia.
Qed.

Lemma RemoveFileData_ok das : forall fp fp', pool_inv fp -> RemoveFileData fp das = Done fp' -> step_ok fp fp'.
Proof.
  unfold RemoveFileData. induction das as [|[da|] das IH]; intros fp fp' Hp HR; simpl in HR; [|  |done].
  { injection HR as <-. by apply step_ok_refl. }
  eapply step_ok_trans; [|eapply IH; [|exact HR]]; destruct Hp as [Hc Hs].
  - split_and!; [split; [|done]|done|simpl; lia]. apply core_inv_shrink; [done|].
    etrans; [apply delete_subseteq|]. case_decide; [done|apply delete_subseteq].
  - split; [|done]. apply core_inv_shrink; [done|].
    etrans; [apply delete_subseteq|]. case_decide; [done|apply delete_subseteq].
Qed.

(** The first try of [Get] and [GetDA] always returns. *)
Definition okDA (r : option DA * bool) : option DA := match r with (Some d, false) => Some d | _ => None end.

Lemma Get_from_eq fuel ask sql h fp :
  Get_from (S fuel) ask sql h 0 fp =
  match get fp h with
  | Some d => Done (fp, Some d)
  | None =>
      r1 ← GetCommitmentByTxHash (sql 0%nat) h;
      match okDA r1 with
      | Some d => Done (fp, Some d)
      | None =>
          r2 ← GetDAByCommitmentHash (sql 0%nat) h;
          Done (match okDA r2 with
                | Some d => (fp, Some d)
                | None => (if ask then send (FileDataHashEvent [h]) fp else fp, None)
                end)
      end
  end.
Proof.
  cbn [Get_from]. destruct (get fp h); [done|].
  destruct (GetCommitmentByTxHash (sql 0%nat) h) as [[[d|] [|]]| |]; simpl; try done;
  by destruct (GetDAByCommitmentHash (sql 0%nat) h) as [[[d'|] [|]]| |].
Qed.

Lemma Get_from_ok fuel ask sql h fp fp' da :
  pool_inv fp -> Get_from (S fuel) ask sql h 0 fp = Done (fp', da) -> step_ok fp fp'.
Proof.
  intros Hp. rewrite Get_from_eq.
  assert (step_ok fp (if ask then send (FileDataHashEvent [h]) fp else fp))
    by (destruct ask; [by apply send_ok|by apply step_ok_refl]).
  pose proof (step_ok_refl fp Hp).
  destruct (get fp h); [intros [= <- <-]; done|].
  destruct (GetCommitmentByTxHash (sql 0%nat) h) as [r1| |]; simpl; [|done..].
  destruct (okDA r1); [intros [= <- <-]; done|].
  destruct (GetDAByCommitmentHash (sql 0%nat) h) as [r2| |]; simpl; [|done..].
  destruct (okDA r2); intros [= <- <-]; done.
Qed.

(** The two tries of [GetDAByCommit]. *)
Lemma GetDAByCommit_eq sql fp commit :
  let cmH := BytesToHash (Marshal (DigestSetBytes zeroDigest commit).1) in
  GetDAByCommit sql fp commit =
  match get fp cmH with
  | Some d => Done (fp, Some d, false)
  | None =>
      '(da, err) ← GetDAByCommitment (sql 0%nat) commit;
      match da, err with
      | _, true => Done (fp, None, true)
      | Some d, false => Done (fp, Some d, false)
      | None, false =>
          '(da', err') ← GetDAByCommitment (sql 1%nat) commit;
          Done (send (FileDataHashEvent [cmH]) fp, if (err' : bool) then None else da', err')
      end
  end.
Proof.
  cbn zeta. unfold GetDAByCommit. set (h := BytesToHash _). cbn [GetDAByCommit_from].
  unfold get. cbn [all send]. destruct (lookupGet (all fp) h) eqn:Hg; [done|].
  destruct (GetDAByCommitment (sql 0%nat) commit) as [[[d|] [|]]| |]; simpl; try done.
  rewrite Hg. by destruct (GetDAByCommitment (sql 1%nat) commit) as [[[d'|] [|]]| |].
Qed.

Lemma GetDAByCommit_ok sql fp commit fp' da e :
  pool_inv fp -> GetDAByCommit sql fp commit = Done (fp', da, e) -> step_ok fp fp'.
Proof.
  intros Hp. rewrite GetDAByCommit_eq. pose proof (step_ok_refl fp Hp).
  set (h := BytesToHash _). pose proof (send_ok fp (FileDataHashEvent [h]) Hp ltac:(done)).
  destruct (get fp h); [by intros [= <- <- <-]|].
  destruct (GetDAByCommitment (sql 0%nat) commit) as [[[d|] [|]]| |]; simpl; try done; try by intros [= <- <- <-].
  destruct (GetDAByCommitment (sql 1%nat) commit) as [[da' err']| |]; simpl; [|done..]. by intros [= <- <- <-].
Qed.

(** ** The tickers *)

Definition expired (now : Hash -> time) (p : Hash * time) : Prop := p.2 + 14 * 24 * hour < now p.1.

#[local] Instance expired_dec now p : Decision (expired now p).
Proof. unfold expired. apply _. Defined.

Lemma removeTick_eq now order sql fp :
  removeTick now order sql fp =
  (foldl DeleteDAByHash sql (filter (expired now) order).*1,
   set_diskCache (foldl (fun c h => delete h c) (diskCache fp) (filter (expired now) order).*1) fp).
Proof.
  unfold removeTick. revert sql fp. induction order as [|[h r] order IH]; intros sql fp; [by destruct fp|]. simpl.
  case_decide as Hx.
  - rewrite filter_cons_True by done. simpl. by rewrite IH.
  - by rewrite filter_cons_False, IH.
Qed.

Lemma foldl_delete (c : gmap Hash time) hs h :
  foldl (fun c h => delete h c) c hs !! h = if decide (h ∈ hs) then None else c !! h.
Proof.
  revert c. induction hs as [|h0 hs IH]; intros c; [done|]. cbn [foldl].
  rewrite IH. destruct (decide (h = h0)) as [->|Hne].
  - rewrite lookup_delete_eq, (decide_True (P := h0 ∈ h0 :: hs)) by set_solver. by case_decide.
  - rewrite lookup_delete_ne by done. repeat case_decide; set_solver.
Qed.

Lemma removeTick_diskCache now order sql fp :
  order ≡ₚ map_to_list (diskCache fp) ->
  diskCache (removeTick now order sql fp).2 = filter (fun p => ~ expired now p) (diskCache fp).
Proof.
  intros Ho. rewrite removeTick_eq. simpl. apply map_eq. intros h. rewrite foldl_delete.
  assert (Hin : forall r, (h, r) ∈ order <-> diskCache fp !! h = Some r)
    by (intros r; rewrite Ho; apply elem_of_map_to_list).
  apply option_eq. intros r. rewrite map_lookup_filter_Some, <-(Hin r). case_decide as Hx.
  - split; [done|]. intros [Hr He]. apply list_elem_of_fmap in Hx as ([h' r'] & -> & Hf).
    apply list_elem_of_filter in Hf as [He' Hr']. simpl in *. apply Hin in Hr, Hr'. congruence.
  - rewrite Hin. split; [|tauto]. intros Hr. split; [done|]. intros He. apply Hx, list_elem_of_fmap.
    exists (h, r). split; [done|]. apply list_elem_of_filter. by rewrite Hin.
Qed.

Lemma evictTick_empty now order inner fp :
  collector fp = ∅ -> order ≡ₚ (map_to_list (collector fp)).*1 -> evictTick now order inner fp = fp.
Proof. intros -> Ho. rewrite map_to_list_empty in Ho. by apply Permutation_nil_r in Ho as ->. Qed.

Lemma toJournal_empty order fp :
  collector fp = ∅ -> order (collector fp) ≡ₚ map_to_list (collector fp) -> toJournal order fp = [].
Proof.
  unfold toJournal. intros -> Ho. rewrite map_to_list_empty in Ho. by apply Permutation_nil_r in Ho as ->.
Qed.

(** Rotating with nothing to write leaves an empty file. *)
Lemma rotatePool_empty fs order fp w :
  journal fp = Some w -> toJournal order fp = [] ->
  closeOK fs = true -> createOK fs = true -> renameOK fs = true ->
  jfile (rotatePool fs order fp) = Some [].
Proof.
  intros Hj Ht H1 H2 H3. unfold rotatePool, rotate. rewrite Hj, Ht, H1, H2, H3.
  destruct w; simpl; destruct (writeOK fs); simpl; by destruct (appendOK fs).
Qed.

Lemma rotatePool_ok fs order fp : pool_inv fp -> step_ok fp (rotatePool fs order fp).
Proof.
  intros Hp. unfold rotatePool. destruct (journal fp) as [w|]; [|by apply step_ok_refl].
  destruct (rotate fs w (jfile fp) (toJournal order fp)) as [[w' file] ok]. by apply step_ok_same.
Qed.

Lemma rewriteRecords_ok keys g fp :
  (forall d, Commitment (g d) = Commitment d) -> pool_inv fp -> step_ok fp (rewriteRecords keys g fp).
Proof.
  intros Hg [[H1 H2 H3 H4] Hs]. split_and!; [split; [|done]|done|simpl; lia]. split; simpl; [done| |done|].
  - intros h d. rewrite map_lookup_imap. destruct (lcollector (all fp) !! h) as [d0|] eqn:Hd; [|done]. simpl. intros [= <-].
    destruct (H2 h d0 Hd) as [?|[-> Hc]]; [by left|]. right. case_decide; [|done].
    unfold cmHash, commitIsEmpty in *. by rewrite Hg.
  - intros HG. specialize (H4 HG). rewrite <-size_dom in *.
    assert (Hdom : dom (map_imap (fun h d => Some (if decide (h ∈ keys) then g d else d)) (lcollector (all fp))) = dom (lcollector (all fp))).
    { apply set_eq. intros h. rewrite !elem_of_dom, map_lookup_imap. destruct (lcollector (all fp) !! h); simpl; [split; eauto|done]. }
    by rewrite Hdom.
Qed.

Lemma pool_step_ok fp fp' : pool_inv fp -> pool_step fp fp' -> step_ok fp fp'.
Proof.
  intros Hp Hstep. destruct Hstep; eauto using Add_ok, RemoveFileData_ok, Get_from_ok, GetDAByCommit_ok, rotatePool_ok, rewriteRecords_ok.
  - by apply step_ok_same.
  - unfold SendNewFileDataEvent. case_decide; [by apply step_ok_refl|by apply send_ok].
  - rewrite removeTick_eq. by apply step_ok_same.
  - rewrite evictTick_empty by (done || apply Hp). by apply step_ok_refl.
  - unfold Close. destruct (journal fp); [by apply step_ok_same|by apply step_ok_refl].
Qed.

(** ** Start-up *)

Lemma load_ok fs now local fp fp' failure :
  pool_inv fp -> load fs now local fp = Done (fp', failure) -> step_ok fp fp'.
Proof.
  intros Hp. unfold load. destruct (jfile fp) as [input|]; [|intros [= <- <-]; by apply step_ok_refl].
  destruct (readOK fs); cbn [negb]; [|intros [= <- <-]; by apply step_ok_refl].
  destruct (decodeAll (S (length input)) input) as [[fds fl]| |]; [|done..]. cbn [mbind outcome_bind].
  assert (H0 : step_ok fp (set_journal (Some devNull) fp)) by (by apply step_ok_same).
  set (fp0 := set_journal (Some devNull) fp) in *. clearbody fp0. revert fp0 H0.
  generalize (imap pair (batches [] fds)). intros bs. induction bs as [|[b batch] bs IH]; intros fp0 H0.
  - simpl. intros [= <- <-]. eapply step_ok_trans; [done|]. apply step_ok_same; done || apply H0.
  - simpl. destruct (Add fs (now b) fp0 (Some <$> batch) local) as [[fp1 errs]| |] eqn:HA; [|done..]. simpl.
    apply IH. eapply step_ok_trans; [done|]. eapply Add_ok; [apply H0|done].
Qed.

Lemma emptyPool_inv cfg node s file : pool_inv (emptyPool cfg node s file).
Proof. split; [|intros h; apply not_elem_of_nil]. split; simpl; [done|done|lia|rewrite map_size_empty; lia]. Qed.

Lemma diskFill_frame das : forall fp,
  let fp' := foldl (fun fp da => set_diskCache (<[cmHash da := ReceiveAt da]> (<[TxHash da := ReceiveAt da]> (diskCache fp))) fp) fp das in
  collector fp' = collector fp /\ all fp' = all fp /\ fpConfig fp' = fpConfig fp /\ sent fp' = sent fp /\ jfile fp' = jfile fp.
Proof. induction das as [|da das IH]; intros fp; [done|]. simpl. apply (IH (set_diskCache _ fp)). Qed.

Lemma Init_ok fs now order sql fp fp' : pool_inv fp -> Init fs now order sql fp = Done fp' -> step_ok fp fp'.
Proof.
  intros Hp. unfold Init. set (m := match journal fp with None => Done fp | Some _ => _ end).
  assert (Hm : forall fp1, m = Done fp1 -> step_ok fp fp1).
  { intros fp1. subst m. destruct (journal fp); [|intros [= <-]; by apply step_ok_refl].
    destruct (load _ _ _ _) as [[fp2 fl]| |] eqn:HL; simpl; [|done..]. intros [= <-].
    pose proof (load_ok _ _ _ _ _ _ Hp HL). eapply step_ok_trans; [done|]. by apply rotatePool_ok; apply H. }
  destruct m as [fp1| |]; simpl; [|done..]. specialize (Hm fp1 eq_refl). intros [= <-].
  destruct (isStorageNode fp1); [|done]. destruct (GetAllDARecords sql) as [das|]; [|done].
  eapply step_ok_trans; [exact Hm|]. destruct (diskFill_frame das fp1) as (? & ? & ? & Hsent & _).
  apply step_ok_same; try done; [apply Hm|]. by rewrite Hsent.
Qed.

Lemma pool_reachable_inv fp : pool_reachable fp -> pool_inv fp.
Proof.
  apply reachable_inv.
  - intros fp0 (cfg & node & s & file & fs & now & order & sql & _ & HN).
    eapply Init_ok in HN; [apply HN|apply emptyPool_inv].
  - intros fp0 _ fp1 Hp Hs. by apply (pool_step_ok fp0 fp1).
Qed.

(** ** The lookup table a sequence of records makes *)

Definition admit_ (G : Z) (t : lookup) (d : DA) : lookup :=
  match lookupGet t (poolHash d) with
  | Some _ => t
  | None => if decide (G < u64 (i64 (slots t + 1))) then t else lookupAdd t d
  end.

Lemma add_all fs now fp d :
  all (add fs now fp d).1 = admit_ (GlobalSlots (fpConfig fp)) (all fp) d /\ fpConfig (add fs now fp d).1 = fpConfig fp.
Proof.
  unfold add, admit_. destruct (lookupGet _ _); [done|]. case_decide; [done|].
  destruct (journalFd_frame fs fp (poolHash d) d) as (Ha & _ & Hc & _). simpl. by rewrite Ha, Hc.
Qed.

Lemma addFds_all fs ds : forall now fp,
  let fp' := (addFdsLocked fs now fp ds).1 in
  all fp' = foldl (admit_ (GlobalSlots (fpConfig fp))) (all fp) ds /\ fpConfig fp' = fpConfig fp.
Proof.
  induction ds as [|d ds IH]; intros now fp; [done|]. cbn zeta. cbn [addFdsLocked foldl].
  pose proof (add_all fs (now 0%nat) fp d) as [H1 H2]. destruct (add fs (now 0%nat) fp d) as [fp1 err]. cbn [fst] in *.
  pose proof (IH (match err with None => fun i => now (S i) | Some _ => now end) fp1) as [G1 G2].
  destruct (addFdsLocked fs _ fp1 ds) as [fp2 es]. cbn [fst] in *. rewrite G1, G2, H1, H2. done.
Qed.

Lemma Add_all fs now fp ds local :
  exists fp' errs, Add fs now fp (Some <$> ds) local = Done (fp', errs)
    /\ all fp' = foldl (admit_ (GlobalSlots (fpConfig fp))) (all fp) ds /\ fpConfig fp' = fpConfig fp.
Proof.
  rewrite Add_eq. pose proof (addFds_all fs ds now (diskAll fp ds)) as [H1 H2].
  destruct (diskAll_core fp ds) as (_ & Hc & _). destruct (diskAll_frame fp ds) as [Ha _].
  destruct (addFdsLocked _ _ _ _) as [fp1 results]. cbn [fst] in *. rewrite Hc, Ha in *.
  eexists _, _. split; [done|]. unfold SendNewFileDataEvent. by case_decide.
Qed.

(** *** Loading *)

Lemma concat_batches fds : forall batch, concat (batches batch fds) = batch ++ fds.
Proof.
  induction fds as [|fd fds IH]; intros batch; cbn [batches].
  - case_decide; [done|]. by destruct batch; [|simpl in *; lia].
  - case_decide; simpl; rewrite IH; by rewrite <-?(assoc_L (++)).
Qed.

Lemma loadBatches_all fs (now : nat -> nat -> time) local (bs : list (nat * list DA)) : forall fp,
  exists fp', fold_outcome (fun fp '(b, batch) => '(fp, _) ← Add fs (now b) fp (Some <$> batch) local; Done fp) bs fp = Done fp'
    /\ all fp' = foldl (admit_ (GlobalSlots (fpConfig fp))) (all fp) (concat bs.*2).
Proof.
  induction bs as [|[b batch] bs IH]; intros fp; [eauto|]. cbn [fold_outcome].
  destruct (Add_all fs (now b) fp batch local) as (fp1 & errs & -> & Hall & Hcfg). cbn [mbind outcome_bind].
  destruct (IH fp1) as (fp2 & -> & H2). exists fp2. split; [done|].
  rewrite H2, Hall, Hcfg, fmap_cons. simpl. by rewrite foldl_app.
Qed.

Lemma imap_pair_snd {A} (l : list A) : (imap pair l).*2 = l.
Proof. rewrite fmap_imap. rewrite (imap_ext _ (const id)) by done. by rewrite imap_const, list_fmap_id. Qed.

Section laws.
Context `{!DACodecLaws codec}.

Lemma goBytes_app c rest : goBytes (c ++ rest) -> goBytes c /\ goBytes rest.
Proof. intros [[Hc Hr]%Forall_app Hl]. rewrite length_app in Hl. split; (split; [done|lia]). Qed.

(** The fuel covers the input: the loop ends. *)
Lemma decodeAll_not_stuck fuel : forall input, goBytes input -> (length input < fuel)%nat -> decodeAll fuel input <> Stuck.
Proof.
  induction fuel as [|fuel IH]; intros input Hg Hf; [lia|]. cbn [decodeAll].
  destruct (decodeDA input) as [| | |fd rest] eqn:Hd; [done..|].
  apply decodeDA_consumes in Hd as (c & Hc & ->); [|done]. apply goBytes_app in Hg as [_ Hg].
  rewrite length_app in Hf. specialize (IH rest Hg). destruct (decodeAll fuel rest) as [[]| |]; [done|done|].
  exfalso. apply IH; [|done]. destruct c; [done|simpl in Hf; lia].
Qed.

Lemma decodeAll_encodeAll ds : forall fuel bs, Forall goDA ds -> goBytes bs ->
  encodeAll ds = Some bs -> (length ds < fuel)%nat -> decodeAll fuel bs = Done (storedDA <$> ds, false).
Proof.
  induction ds as [|d ds IH]; intros [|fuel] bs Hds Hg Hbs Hf; try lia; cbn [encodeAll] in Hbs; cbn [decodeAll].
  - injection Hbs as <-. by rewrite decodeDA_nil.
  - apply Forall_cons_1 in Hds as [Hd0 Hds]. destruct (encodeDA d) as [b|] eqn:Hd; [|done]. destruct (encodeAll ds) as [r|] eqn:Hr; [|done].
    injection Hbs as <-. rewrite (decodeDA_encodeDA d b r Hd0 Hg Hd). simpl in Hf. apply goBytes_app in Hg as [_ Hg].
    rewrite (IH fuel r) by (done || lia). done.
Qed.

Lemma encodeAll_length ds : forall bs, Forall goDA ds -> goBytes bs -> encodeAll ds = Some bs -> (length ds <= length bs)%nat.
Proof.
  induction ds as [|d ds IH]; intros bs Hds Hg Hbs; simpl in *; [lia|]. apply Forall_cons_1 in Hds as [Hd0 Hds].
  destruct (encodeDA d) as [b|] eqn:Hd; [|done]. destruct (encodeAll ds) as [r|]; [|done]. injection Hbs as <-.
  apply goBytes_app in Hg as [Hgb Hg]. specialize (IH r Hds Hg eq_refl). rewrite <-(app_nil_r b) in Hgb.
  pose proof (decodeDA_encodeDA d b [] Hd0 Hgb Hd) as (c & Hc & Hb)%decodeDA_consumes; [|done].
  rewrite !app_nil_r in Hb. subst c. rewrite length_app. destruct b; [done|simpl; lia].
Qed.

Lemma load_encoded fs now local fp ds bs : Forall goDA ds -> goBytes bs ->
  encodeAll ds = Some bs -> jfile fp = Some bs -> readOK fs = true ->
  exists fp', load fs now local fp = Done (fp', false)
    /\ all fp' = foldl (admit_ (GlobalSlots (fpConfig fp))) (all fp) (storedDA <$> ds).
Proof.
  intros Hds Hg Hbs Hj Hr. unfold load. rewrite Hj, Hr. cbn [negb].
  pose proof (encodeAll_length _ _ Hds Hg Hbs).
  rewrite (decodeAll_encodeAll ds) by (done || lia). cbn [mbind outcome_bind].
  destruct (loadBatches_all fs now local (imap pair (batches [] (storedDA <$> ds))) (set_journal (Some devNull) fp))
    as (fp' & -> & Hall). cbn [mbind outcome_bind].
  eexists. split; [done|]. simpl. rewrite Hall, imap_pair_snd, concat_batches. done.
Qed.

End laws.

Lemma load_journal fs now local fp fp' r :
  load fs now local fp = Done (fp', r) -> is_Some (journal fp) -> is_Some (journal fp').
Proof.
  unfold load. intros HL Hj. destruct (jfile fp) as [input|]; [|by injection HL as <- _].
  destruct (negb (readOK fs)); [by injection HL as <- _|].
  destruct (decodeAll (S (length input)) input) as [[fds fl]| |]; [|done..]. cbn [mbind outcome_bind] in HL.
  unfold mbind at 1, outcome_bind at 1 in HL.
  destruct (fold_outcome _ (imap pair (batches [] fds)) _); [|done..]. injection HL as <- _. simpl. eauto.
Qed.

Lemma New_ok cfg node s file fs now order sql fp0 r :
  load fs now false (emptyPool cfg node s file) = Done (fp0, r) -> JournalRemote cfg = true -> Journal cfg <> [] -> order ∅ = [] ->
  closeOK fs = true -> createOK fs = true -> renameOK fs = true ->
  exists fp, New cfg node s file fs now order sql = Done fp /\ all fp = all fp0 /\ jfile fp = Some [].
Proof.
  intros HL HJ Hne Ho H1 H2 H3. unfold New, Init.
  assert (Hj : journal (emptyPool cfg node s file) = Some noWriter).
  { simpl. rewrite HJ, bool_decide_eq_false_2 by done. done. }
  rewrite Hj. cbn [emptyPool fpConfig]. rewrite HJ. cbn [negb].
  fold (emptyPool cfg node s file) in *. unfold emptyPool in *. rewrite HL. cbn [mbind outcome_bind].
  pose proof (load_ok _ _ _ _ _ _ (emptyPool_inv cfg node s file) HL) as (Hinv & _ & _).
  destruct (load_journal _ _ _ _ _ _ HL) as [w Hw]; [by eexists|].
  assert (Ht : toJournal order fp0 = []).
  { unfold toJournal. rewrite (inv_collector _ _ _ (proj1 Hinv)), Ho. done. }
  pose proof (rotatePool_empty fs order fp0 w Hw Ht H1 H2 H3) as Hfile.
  assert (Hall : all (rotatePool fs order fp0) = all fp0).
  { unfold rotatePool. rewrite Hw. by destruct (rotate _ _ _ _) as [[? ?] ?]. }
  eexists. split; [done|].
  destruct (isStorageNode _); [|done]. destruct (GetAllDARecords sql) as [das|]; [|done].
  destruct (diskFill_frame das (rotatePool fs order fp0)) as (_ & Ha & _ & _ & Hf). by rewrite Ha, Hf.
Qed.

(** ** Properties *)

(** C28: [Add] never panics on records that are not nil, whatever slots it fills
    and however many errors it appends.  Its effect is the insertion of the
    records one after the other: the first [len(fds)] errors are, in order,
    what each insertion answered, the validation errors follow, and one event
    carries exactly the records that went in. *)
Theorem Add_sequential fs now fp ds local :
  Add fs now fp (Some <$> ds) local =
  let '(fp', results) := addFdsLocked fs now (diskAll fp ds) ds in
  Done (SendNewFileDataEvent fp' (added ds results), results ++ invalidErrs local ds).
Proof. apply Add_eq. Qed.

(** A nil record anywhere in the batch makes [Add] panic. *)
Theorem Add_nil_record_panics fs now fp ds rest local :
  Add fs now fp ((Some <$> ds) ++ None :: rest) local = Panic.
Proof. apply Add_nil. Qed.

(** A remote record that fails validation is admitted all the same: it is
    filed under its hash and announced, its error slot stays nil, and the
    validation error is put one place after the end of the batch. *)
Theorem Add_admits_invalid fs now fp d e :
  validateFileDataSignature d false = (false, Some e) ->
  get fp (poolHash d) = None -> key_of (poolHash d) d ->
  u64 (i64 (slots (all fp) + 1)) <= GlobalSlots (fpConfig fp) ->
  exists fp', Add fs now fp [Some d] false = Done (fp', [None; Some e])
    /\ get fp' (poolHash d) = Some d /\ sent fp' = sent fp ++ [NewFileDataEvent [d]].
Proof.
  intros Hv Hg Hkey Hfree. pose proof (Add_eq fs now fp [d] false) as HA. simpl fmap in HA. rewrite HA. clear HA.
  destruct (diskAll_core fp [d]) as (_ & Hc & Hs). destruct (diskAll_frame fp [d]) as [Ha _].
  set (fp1 := diskAll fp [d]) in *. clearbody fp1. cbn [addFdsLocked]. unfold add. rewrite Ha, Hc.
  unfold get in Hg. rewrite Hg. rewrite decide_False by lia.
  assert (Hi : invalidErrs false [d] = [Some e]) by (unfold invalidErrs; cbn [fmap list_fmap]; by rewrite Hv).
  rewrite Hi. eexists. split; [done|].
  destruct (journalFd_frame fs fp1 (poolHash d) d) as (Hj & _ & _ & _ & Hjs).
  unfold SendNewFileDataEvent, added. simpl. rewrite Hjs, Hs. split; [|done].
  unfold get. simpl. rewrite Hj, Ha. unfold lookupGet, lookupAdd, poolHash, key_of in *.
  destruct (decide (Cmp (TxHash d) zeroHash <> 0)) as [Htx|Htx].
  - rewrite bool_decide_eq_true_2 by done. destruct (commitIsEmpty d); simpl; [apply lookup_insert_eq|].
    rewrite lookup_insert. case_decide; [done|apply lookup_insert_eq].
  - rewrite bool_decide_eq_false_2 by done. destruct Hkey as [[_ ?]|[_ ->]]; [done|]. simpl. apply lookup_insert_eq.
Qed.

(** C2: in every reachable state, also when records are written to from outside,
    the lookup files a record only under its commitment hash or a transaction
    hash that is not zero, holds at most two entries per
    slot and never more slots than configured; the map the journal and the
    eviction range over is empty; and the log of unanswered hashes is never
    written. *)
Theorem pool_invariant fp :
  pool_reachable fp ->
  collector fp = ∅
  /\ (forall h d, get fp h = Some d -> filed h d)
  /\ (0 <= GlobalSlots (fpConfig fp) < 2 ^ 63 ->
      0 <= slots (all fp) <= GlobalSlots (fpConfig fp) /\ Z.of_nat (lookupCount (all fp)) <= 2 * slots (all fp))
  /\ (forall h, UnknownTxHash h ∉ sent fp).
Proof. intros [[H1 H2 H3 H4] H5]%pool_reachable_inv. split_and!; auto. Qed.

(** In every reachable state the eviction tick does nothing, however old
    the heartbeats are, and the journal tick replaces the journal by an empty
    file. *)
Theorem ticks_on_empty_collector fp now order inner fs jorder w :
  pool_reachable fp ->
  order ≡ₚ (map_to_list (collector fp)).*1 -> jorder (collector fp) ≡ₚ map_to_list (collector fp) ->
  journal fp = Some w -> closeOK fs = true -> createOK fs = true -> renameOK fs = true ->
  evictTick now order inner fp = fp /\ jfile (journalTick fs jorder fp) = Some [].
Proof.
  intros [[Hc _ _ _] _]%pool_reachable_inv Ho Hjo Hj H1 H2 H3. split; [by apply evictTick_empty|].
  eapply rotatePool_empty; eauto using toJournal_empty.
Qed.

Lemma steps_ok fp fp' : pool_inv fp -> rtc pool_step fp fp' -> step_ok fp fp'.
Proof.
  intros Hp Hrtc. revert Hp. induction Hrtc as [|fp fp1 fp2 Hs _ IH]; intros Hp; [by apply step_ok_refl|].
  pose proof (pool_step_ok _ _ Hp Hs) as H1. eapply step_ok_trans; [exact H1|]. apply IH, H1.
Qed.

Lemma admit_full G t ds :
  0 <= G < 2 ^ 63 -> slots t = G -> foldl (admit_ G) t ds = t.
Proof.
  intros HG Ht. induction ds as [|d ds IH]; [done|]. simpl. unfold admit_ at 2.
  destruct (lookupGet t (poolHash d)); [done|]. rewrite decide_True; [done|].
  rewrite u64_i64; unfold in_u64; lia.
Qed.

(** Once a reachable pool has used all its slots it stays full: whatever
    operations follow, removals included, no batch changes the lookup any
    more. *)
Theorem full_pool_stays_full fp fp' fs now ds local :
  pool_reachable fp -> 0 <= GlobalSlots (fpConfig fp) < 2 ^ 63 ->
  slots (all fp) = GlobalSlots (fpConfig fp) -> rtc pool_step fp fp' ->
  exists fp'' errs, Add fs now fp' (Some <$> ds) local = Done (fp'', errs) /\ all fp'' = all fp'.
Proof.
  intros Hp%pool_reachable_inv HG Hfull Hsteps. destruct (steps_ok _ _ Hp Hsteps) as ([[_ _ Hs _] _] & Hcfg & Hmono).
  destruct (Add_all fs now fp' ds local) as (fp'' & errs & HA & Hall & _). exists fp'', errs. split; [done|].
  rewrite Hall. apply admit_full; rewrite Hcfg in *; [done|]. specialize (Hs HG). specialize (Hmono HG). lia.
Qed.

(** The removal tick deletes from the disk cache, and from the database,
    exactly the hashes received more than fourteen days before they are looked
    at, in whatever order the map is ranged over, and nothing else changes. *)
Theorem removeTick_correct now order sql fp :
  order ≡ₚ map_to_list (diskCache fp) ->
  removeTick now order sql fp =
  (foldl DeleteDAByHash sql (filter (fun p => p.2 + 14 * 24 * hour < now p.1) order).*1,
   set_diskCache (filter (fun p => ~ p.2 + 14 * 24 * hour < now p.1) (diskCache fp)) fp).
Proof.
  intros Ho. pose proof (removeTick_diskCache now order sql fp Ho) as Hd. rewrite removeTick_eq in *.
  simpl in Hd. rewrite Hd. done.
Qed.

(** [Get] and [GetDA] answer the pool's record, else the database's by
    transaction hash, else by commitment hash, else nil; only [Get], and only
    when it answers nil, asks the network, once.  They never get to their
    second try. *)
Theorem Get_correct sql fp h r1 r2 :
  GetCommitmentByTxHash (sql 0%nat) h = Done r1 -> GetDAByCommitmentHash (sql 0%nat) h = Done r2 ->
  let answer := match get fp h with Some d => Some d | None =>
                match okDA r1 with Some d => Some d | None => okDA r2 end end in
  GetDA sql fp h = Done (fp, answer)
  /\ Get sql fp h = Done (match answer with Some _ => fp | None => send (FileDataHashEvent [h]) fp end, answer).
Proof.
  intros H1 H2. cbn zeta. unfold GetDA, Get. rewrite !Get_from_eq, H1, H2. unfold mbind, outcome_bind.
  destruct (get fp h); [done|]. destruct (okDA r1); [done|]. by destruct (okDA r2).
Qed.

(** [GetDAByCommit] returns: from the pool when it holds the commitment,
    otherwise from the database; when the database has nothing it sends one
    request to the network, and what the database holds at the second try is
    its answer. *)
Theorem GetDAByCommit_correct sql fp commit r0 r1 :
  GetDAByCommitment (sql 0%nat) commit = Done r0 -> GetDAByCommitment (sql 1%nat) commit = Done r1 ->
  let cmH := BytesToHash (Marshal (DigestSetBytes zeroDigest commit).1) in
  GetDAByCommit sql fp commit = Done
    match get fp cmH, r0 with
    | Some d, _ => (fp, Some d, false)
    | None, (_, true) => (fp, None, true)
    | None, (Some d, false) => (fp, Some d, false)
    | None, (None, false) => (send (FileDataHashEvent [cmH]) fp, if (r1.2 : bool) then None else r1.1, r1.2)
    end.
Proof.
  intros H0 H1. rewrite GetDAByCommit_eq. cbn zeta. destruct (get fp _); [done|]. rewrite H0. simpl.
  destruct r0 as [[d|] [|]]; [done..|]. rewrite H1. by destruct r1.
Qed.

(** The pool can file the record: it has a transaction hash or a commitment. *)
Definition hasKey (d : DA) : Prop := Cmp (TxHash d) zeroHash <> 0 \/ commitIsEmpty d = false.

Lemma lookupAdd_own t d : hasKey d -> is_Some (lookupGet (lookupAdd t d) (poolHash d)).
Proof.
  unfold hasKey, lookupGet, lookupAdd, poolHash. intros Hk. destruct (decide (Cmp (TxHash d) zeroHash <> 0)) as [Ht|Ht].
  - rewrite bool_decide_true by done. destruct (commitIsEmpty d); cbn [andb negb lcollector]; [rewrite lookup_insert_eq; by eexists|]. rewrite lookup_insert. destruct (decide _); [by eexists|]. rewrite lookup_insert_eq. by eexists.
  - rewrite bool_decide_false by done. destruct Hk as [Hk|Hk]; [done|]. rewrite Hk. cbn [andb negb lcollector]. rewrite lookup_insert_eq. by eexists.
Qed.

(** With a slot for each of them all records get into the pool. *)
Lemma admit_all G ds : forall t, 0 <= slots t -> slots t + Z.of_nat (length ds) <= G -> G < 2 ^ 63 ->
  let t' := foldl (admit_ G) t ds in
  (forall h, is_Some (lookupGet t h) -> is_Some (lookupGet t' h)) /\ forall d, d ∈ ds -> hasKey d -> is_Some (lookupGet t' (poolHash d)).
Proof.
  induction ds as [|d ds IH]; intros t H0 Hle HG t'; [split; [done|by intros d ?%not_elem_of_nil]|]. cbn [length] in Hle.
  assert (HA : slots t <= slots (admit_ G t d) <= slots t + 1 /\ (forall h, is_Some (lookupGet t h) -> is_Some (lookupGet (admit_ G t d) h)) /\ (hasKey d -> is_Some (lookupGet (admit_ G t d) (poolHash d)))).
  { unfold admit_. destruct (lookupGet t (poolHash d)) eqn:E; [rewrite E; split_and!; [lia|lia|done|by eexists]|]. rewrite decide_False by (rewrite u64_i64; unfold in_u64; lia).
    rewrite lookupAdd_slots, i64_small by (unfold in_i64; lia). split_and!; [lia|lia|intros h; apply lookupAdd_mono|apply lookupAdd_own]. }
  destruct HA as (Hs & Hm & Hk). destruct (IH (admit_ G t d)) as [H1 H2]; [lia..|]. unfold t'. cbn [foldl]. split; [intros h Hh; by apply H1, Hm|].
  intros x [->|Hx]%elem_of_cons Hkx; [by apply H1, Hk|by apply H2].
Qed.

(** C39: a start loads the records of the journal one after the other, without a
    panic, whatever the batch boundaries: a record goes in unless its hash is
    known or the slots are used up, so that all are there when there is a slot
    for each.  But the same start rotates the journal to an empty file, so that
    after the next start the pool is empty. *)
Theorem restart_loads_then_forgets `{!DACodecLaws codec} cfg node s ds bs now order sql :
  JournalRemote cfg = true -> Journal cfg <> [] -> order ∅ = [] -> Forall goDA ds -> goBytes bs -> encodeAll ds = Some bs ->
  exists fp1 fp2,
    New cfg node s (Some bs) fsFine now order sql = Done fp1
    /\ all fp1 = foldl (admit_ (GlobalSlots cfg)) newLookup (storedDA <$> ds)
    /\ (Z.of_nat (length ds) <= GlobalSlots cfg < 2 ^ 63 -> forall d, d ∈ ds -> hasKey (storedDA d) -> is_Some (get fp1 (poolHash (storedDA d))))
    /\ jfile fp1 = Some []
    /\ New cfg node s (jfile fp1) fsFine now order sql = Done fp2 /\ all fp2 = newLookup /\ jfile fp2 = Some [].
Proof.
  intros HJ Hne Ho Hds Hg Hbs.
  destruct (load_encoded fsFine now false (emptyPool cfg node s (Some bs)) ds bs) as (fp0 & HL & Hall); [done..|].
  destruct (New_ok cfg node s (Some bs) fsFine now order sql _ _ HL) as (fp1 & HN & Ha & Hf); [done..|].
  destruct (load_encoded fsFine now false (emptyPool cfg node s (Some [])) [] []) as (gp0 & GL & Gall); [done|by split; [constructor|]|done..|].
  destruct (New_ok cfg node s (Some []) fsFine now order sql _ _ GL) as (fp2 & GN & Ga & Gf); [done..|].
  exists fp1, fp2. rewrite Hf. split_and!; [done|by rewrite Ha, Hall| |done|done|by rewrite Ga, Gall|done].
  intros [Hlen HG] d Hd Hk. unfold get. rewrite Ha, Hall. apply (admit_all (GlobalSlots cfg)); [done|rewrite length_fmap; exact Hlen|done|by apply list_elem_of_fmap_2|done].
Qed.

End FilePool.

(** ** A small instance, and the properties on it *)

Module PoolSample.
Import Sample.

#[export] Instance sampleSDK : SDK := {| sdkInit := true; VerifyCommitWithProof _ _ _ := None |}.

#[export] Instance sampleCodec : DACodec := {|
  encodeDA _ := Some [1];
  decodeDA s := match s with [] => DecEOF | _ :: rest => DecOk zeroDA rest end;
  DecodeBytesDA s := match s with [_] => Some zeroDA | _ => None end
|}.

#[export] Instance sampleCodecLaws : DACodecLaws sampleCodec.
Proof.
  refine {| storedDA := fun _ => zeroDA |}.
  - intros [|b s] d rest _; [done|]. intros [= <- <-]. by exists [b].
  - done.
  - by intros d bs rest _ _ <-%(inj Some).
  - by intros d bs _ _ <-%(inj Some).
Defined.

(** A database of records, looked up by the obvious keys. *)
#[export] Instance sampleStore : DAStore := {|
  sqlDB := list DA;
  GetCommitmentByTxHash db h := Done (head (filter (fun d => TxHash d = h) db), false);
  GetDAByCommitmentHash db h := Done (head (filter (fun d => cmHash d = h) db), false);
  GetDAByCommitment db c := Done (head (filter (fun d => Marshal (Commitment d) = c) db), false);
  GetAllDARecords db := Some db;
  DeleteDAByHash db h := filter (fun d => TxHash d <> h) db
|}.

Definition sampleConfig : config := mkConfig (lit "fileData.rlp") true 1.

Definition pool0 : FilePool :=
  mkPool sampleConfig (lit "b") HomesteadFdSigner (Some sink) (Some []) newLookup ∅ ∅ ∅ [].

Definition badDA : DA := mkDA (replicate 20 7) 0 3 99 [] (5, 6) [] [] zeroHash zeroHash 0 12 0 [] [] None zeroHash.

Definition pool1 : FilePool :=
  match Add fsFine (fun _ => 100) pool0 [Some badDA] false with Done (fp, _) => fp | _ => pool0 end.

Definition pool2 : FilePool := match RemoveFileData pool1 [Some badDA] with Done fp => fp | _ => pool1 end.

(** A database that holds the record, and one that has got it by the second
    try. *)
Definition fixedDB (_ : nat) : @sqlDB _ sampleStore := [badDA].
Definition lateDB (n : nat) : @sqlDB _ sampleStore := match n with O => [] | S _ => [badDA] end.

End PoolSample.

Section pool_witnesses.
Import Sample PoolSample.

Lemma pool0_reachable : pool_reachable pool0.
Proof.
  apply reach_init. exists sampleConfig, (lit "b"), HomesteadFdSigner, None, fsFine, (fun _ _ => 0), map_to_list, [].
  split; [done|]. reflexivity.
Qed.

Lemma pool1_step : pool_step pool0 pool1.
Proof. apply (step_Add fsFine (fun _ => 100) [Some badDA] false _ _ [None; Some errLengthMismatch]). reflexivity. Qed.

Lemma pool1_reachable : pool_reachable pool1.
Proof. apply (reach_step _ _ pool0 tt); [apply pool0_reachable|apply pool1_step]. Qed.

Lemma Add_admits_invalid_witness :
  exists fp', Add fsFine (fun _ => 100) pool0 [Some badDA] false = Done (fp', [None; Some errLengthMismatch])
    /\ get fp' (poolHash badDA) = Some badDA /\ sent fp' = sent pool0 ++ [NewFileDataEvent [badDA]].
Proof.
  apply Add_admits_invalid; [reflexivity|reflexivity|right; done|done].
Defined.

Lemma pool_invariant_witness : collector pool1 = ∅.
Proof. destruct (pool_invariant pool1 pool1_reachable) as [H _]. exact H. Defined.

Lemma ticks_on_empty_collector_witness :
  evictTick (fun _ => 10 ^ 20) [] (fun _ => []) pool1 = pool1 /\ jfile (journalTick fsFine map_to_list pool1) = Some [].
Proof.
  apply (ticks_on_empty_collector pool1 _ _ _ _ _ sink); [apply pool1_reachable|done..].
Defined.

Lemma full_pool_stays_full_witness :
  lookupCount (all pool2) = 0%nat /\
  exists fp errs, Add fsFine (fun _ => 7) pool2 (Some <$> [sampleDA]) true = Done (fp, errs) /\ all fp = all pool2.
Proof.
  split; [reflexivity|]. apply (full_pool_stays_full pool1 pool2 fsFine (fun _ => 7) [sampleDA] true);
    [apply pool1_reachable|split; [discriminate|reflexivity]|reflexivity|].
  apply rtc_once, (step_RemoveFileData [Some badDA]). reflexivity.
Defined.

Lemma removeTick_correct_witness :
  removeTick (fun _ => 10 ^ 20) (map_to_list (diskCache pool1)) (fixedDB 0) pool1
  = (foldl DeleteDAByHash (fixedDB 0) (filter (fun p => p.2 + 14 * 24 * hour < 10 ^ 20) (map_to_list (diskCache pool1))).*1,
     set_diskCache (filter (fun p => ~ p.2 + 14 * 24 * hour < 10 ^ 20) (diskCache pool1)) pool1).
Proof. apply (removeTick_correct (fun _ => 10 ^ 20)). reflexivity. Defined.

Lemma Get_correct_witness :
  GetDA fixedDB pool0 (cmHash badDA) = Done (pool0, Some badDA)
  /\ Get fixedDB pool0 (cmHash badDA) = Done (pool0, Some badDA).
Proof.
  apply (Get_correct fixedDB pool0 (cmHash badDA) (None, false) (Some badDA, false)); reflexivity.
Defined.

Lemma GetDAByCommit_correct_witness :
  exists fp', GetDAByCommit lateDB pool0 (Marshal (Commitment badDA))
              = Done (fp', Some badDA, false) /\ sent fp' = [FileDataHashEvent [cmHash badDA]].
Proof.
  eexists. split.
  - apply (GetDAByCommit_correct lateDB pool0 (Marshal (Commitment badDA))
      (None, false) (Some badDA, false)); reflexivity.
  - reflexivity.
Defined.

Lemma restart_loads_then_forgets_witness :
  exists fp1 fp2,
    New sampleConfig (lit "a") HomesteadFdSigner (Some [1; 1]) fsFine (fun _ _ => 0) map_to_list ([] : @sqlDB _ sampleStore) = Done fp1
    /\ all fp1 = foldl (admit_ 1) newLookup (storedDA <$> [badDA; sampleDA])
    /\ jfile fp1 = Some []
    /\ New sampleConfig (lit "a") HomesteadFdSigner (jfile fp1) fsFine (fun _ _ => 0) map_to_list ([] : @sqlDB _ sampleStore) = Done fp2
    /\ all fp2 = newLookup /\ jfile fp2 = Some [].
Proof.
  destruct (restart_loads_then_forgets sampleConfig (lit "a") HomesteadFdSigner [badDA; sampleDA] [1; 1] (fun _ _ => 0) map_to_list ([] : @sqlDB _ sampleStore))
    as (fp1 & fp2 & H1 & H2 & _ & H3); [reflexivity|discriminate|reflexivity| | |reflexivity|exists fp1, fp2; split; [exact H1|]; split; [exact H2|exact H3]].
  - repeat constructor; done.
  - split; [repeat constructor; done|done].
Defined.

End pool_witnesses.
