(* ===== verification/Fetcher.v ===== *)
(** * The file-data fetcher

    [eth/fetcher/fileData_fetcher.go]: the announcement tracker of a node.  A
    hash waits for a broadcast (stage 1: [waitlist], [waittime],
    [waitslots]), is queued for retrieval (stage 2: [announces],
    [announced]) and is fetched from one peer (stage 3: [fetching],
    [requests], [alternates]).  Each case of the [select] in [loop] is a
    function on the state; a Go panic is [Panic].

    A nil map inside [alternates] is [Some None].  The order in which Go
    ranges over a map is an argument ([order]), as are the readings of the
    clock ([clock]).  The goroutines that send requests and the callback that
    drops a peer are the entries of [out]. *)

From S2P Require Import Prelude Bytes.

Local Open Scope Z_scope.

Abbreviation Peer := (list Z) (only parsing).

(** ** Constants, in nanoseconds and bytes *)

Definition ms : Z := 10 ^ 6.
Definition maxFdAnnounces : Z := 4096.
Definition maxFdRetrievals : nat := 256.
Definition maxFdRetrievalSize : Z := 500 * 1024.
Definition fdGatherSlack : Z := 100 * ms.
Definition fdArriveTimeout : Z := 500 * ms.
Definition fdFetchTimeout : Z := 5000 * ms.

(** ** State *)

(** [*fdMetadata]: the announced size, [None] for nil. *)
Abbreviation fdMetadata := (option Z) (only parsing).
Abbreviation slotMap := (gmap Peer (gmap Hash fdMetadata)) (only parsing).

(** [hashes] is nil when it is empty: a request is made with at least one
    hash, and [nil] marks one that timed out. *)
Record fdRequest := mkReq { hashes : list Hash; stolen : gset Hash; reqTime : Z }.

Inductive action := FetchFds (peer : Peer) (hs : list Hash) | DropPeer (peer : Peer).

Record FileDataFetcher := mkF {
  waitlist : gmap Hash (gset Peer);
  waittime : gmap Hash Z;
  waitslots : slotMap;
  announces : slotMap;
  announced : gmap Hash (gset Peer);
  fetching : gmap Hash Peer;
  requests : gmap Peer fdRequest;
  alternates : gmap Hash (option (gset Peer));
  waitTimer : option Z;
  timeoutTimer : option Z;
  out : list action
}.

Definition NewFdFetcher : FileDataFetcher := mkF ∅ ∅ ∅ ∅ ∅ ∅ ∅ ∅ None None [].

Definition set_waitlist x f := mkF x (waittime f) (waitslots f) (announces f) (announced f) (fetching f) (requests f) (alternates f) (waitTimer f) (timeoutTimer f) (out f).
Definition set_waittime x f := mkF (waitlist f) x (waitslots f) (announces f) (announced f) (fetching f) (requests f) (alternates f) (waitTimer f) (timeoutTimer f) (out f).
Definition set_waitslots x f := mkF (waitlist f) (waittime f) x (announces f) (announced f) (fetching f) (requests f) (alternates f) (waitTimer f) (timeoutTimer f) (out f).
Definition set_announces x f := mkF (waitlist f) (waittime f) (waitslots f) x (announced f) (fetching f) (requests f) (alternates f) (waitTimer f) (timeoutTimer f) (out f).
Definition set_announced x f := mkF (waitlist f) (waittime f) (waitslots f) (announces f) x (fetching f) (requests f) (alternates f) (waitTimer f) (timeoutTimer f) (out f).
Definition set_fetching x f := mkF (waitlist f) (waittime f) (waitslots f) (announces f) (announced f) x (requests f) (alternates f) (waitTimer f) (timeoutTimer f) (out f).
Definition set_requests x f := mkF (waitlist f) (waittime f) (waitslots f) (announces f) (announced f) (fetching f) x (alternates f) (waitTimer f) (timeoutTimer f) (out f).
Definition set_alternates x f := mkF (waitlist f) (waittime f) (waitslots f) (announces f) (announced f) (fetching f) (requests f) x (waitTimer f) (timeoutTimer f) (out f).
Definition set_waitTimer x f := mkF (waitlist f) (waittime f) (waitslots f) (announces f) (announced f) (fetching f) (requests f) (alternates f) x (timeoutTimer f) (out f).
Definition set_timeoutTimer x f := mkF (waitlist f) (waittime f) (waitslots f) (announces f) (announced f) (fetching f) (requests f) (alternates f) (waitTimer f) x (out f).
Definition emit x f := mkF (waitlist f) (waittime f) (waitslots f) (announces f) (announced f) (fetching f) (requests f) (alternates f) (waitTimer f) (timeoutTimer f) (out f ++ [x]).

(** The order Go ranges over a set of peers or hashes in. *)
Record order := mkOrd { ordP : gset Peer -> list Peer; ordH : gset Hash -> list Hash }.
Definition order_ok (o : order) : Prop :=
  (forall s, ordP o s ≡ₚ elements s) /\ (forall s, ordH o s ≡ₚ elements s).

(** The readings of the clock in one iteration: at a hash, at a peer, and for
    the timers. *)
Record clock := mkClock { nowH : Hash -> Z; nowP : Peer -> Z; nowT : Z }.

(** ** The per-peer sets *)

(** [if s := m[p]; s != nil { s[h] = meta } else { m[p] = {h: meta} }] *)
Definition addSlot (p : Peer) (h : Hash) (meta : fdMetadata) (m : slotMap) : slotMap :=
  <[p := <[h := meta]> (default ∅ (m !! p))]> m.

(** [delete(m[p], h); if len(m[p]) == 0 { delete(m, p) }] *)
Definition delSlot (p : Peer) (h : Hash) (m : slotMap) : slotMap :=
  match m !! p with
  | None => m
  | Some s => if decide (delete h s = ∅) then delete p m else <[p := delete h s]> m
  end.

(** [m[p][h]], nil when either is missing. *)
Definition slotMeta (p : Peer) (h : Hash) (m : slotMap) : fdMetadata :=
  match m !! p with Some s => default None (s !! h) | None => None end.

Definition slotCount (p : Peer) (m : slotMap) : nat := size (default ∅ (m !! p)).

(** ** Timers *)

(** The earliest instance a loop finds that stops once one is about to
    expire. *)
Fixpoint earliestOf (timeout now earliest : Z) (ts : list Z) : Z :=
  match ts with
  | [] => earliest
  | t :: ts =>
      if decide (t < earliest)
      then if decide (timeout - (now - t) < fdGatherSlack) then t else earliestOf timeout now t ts
      else earliestOf timeout now earliest ts
  end.

Definition rescheduleWait (c : clock) (o : order) (f : FileDataFetcher) : FileDataFetcher :=
  let ts := (fun h => default 0 (waittime f !! h)) <$> ordH o (dom (waittime f)) in
  let earliest := earliestOf fdArriveTimeout (nowT c) (nowT c) ts in
  set_waitTimer (Some (nowT c + (fdArriveTimeout - (nowT c - earliest)))) f.

Definition rescheduleTimeout (c : clock) (o : order) (f : FileDataFetcher) : FileDataFetcher :=
  let ts := omap (fun p => match requests f !! p with
                           | Some req => if decide (hashes req = []) then None else Some (reqTime req)
                           | None => None
                           end) (ordP o (dom (requests f))) in
  let earliest := earliestOf fdFetchTimeout (nowT c) (nowT c) ts in
  set_timeoutTimer (Some (nowT c + (fdFetchTimeout - (nowT c - earliest)))) f.

(** ** Scheduling retrievals *)

(** The callback of [forEachAnnounce] over the hashes of [peer]: the state and
    the hashes allocated to the request. *)
Fixpoint allocate (peer : Peer) (anns : gmap Hash fdMetadata) (hs : list Hash) (acc : list Hash) (bytes : Z) (f : FileDataFetcher)
  : outcome (FileDataFetcher * list Hash) :=
  match hs with
  | [] => Done (f, acc)
  | hash :: hs =>
      match fetching f !! hash with
      | Some _ => allocate peer anns hs acc bytes f
      | None =>
          let f := set_fetching (<[hash := peer]> (fetching f)) f in
          match alternates f !! hash with
          | Some _ => Panic
          | None =>
              let f := set_alternates (<[hash := announced f !! hash]> (alternates f)) f in
              let f := set_announced (delete hash (announced f)) f in
              let acc := acc ++ [hash] in
              if decide (maxFdRetrievals <= length acc)%nat then Done (f, acc)
              else match default None (anns !! hash) with
                   | None => allocate peer anns hs acc bytes f
                   | Some size =>
                       let bytes := u64 (bytes + size) in
                       if decide (maxFdRetrievalSize <= bytes) then Done (f, acc)
                       else allocate peer anns hs acc bytes f
                   end
          end
      end
  end.

Definition schedulePeer (c : clock) (o : order) (f : FileDataFetcher) (peer : Peer) : outcome FileDataFetcher :=
  match requests f !! peer with
  | Some _ => Done f
  | None =>
      if decide (slotCount peer (announces f) = 0)%nat then Done f
      else
        let anns := default ∅ (announces f !! peer) in
        '(f, hs) ← allocate peer anns (ordH o (dom anns)) [] 0 f;
        if decide (0 < length hs)%nat
        then Done (emit (FetchFds peer hs) (set_requests (<[peer := mkReq hs ∅ (nowP c peer)]> (requests f)) f))
        else Done f
  end.

(** [whitelist] is [None] for nil. *)
Definition scheduleFetches (c : clock) (o : order) (whitelist : option (gset Peer)) (f : FileDataFetcher) : outcome FileDataFetcher :=
  let actives := default (dom (announces f)) whitelist in
  if decide (actives = ∅) then Done f
  else
    let idle := bool_decide (requests f = ∅) in
    f ← fold_outcome (schedulePeer c o) (ordP o actives) f;
    Done (if idle && negb (bool_decide (requests f = ∅)) then rescheduleTimeout c o f else f).

(** ** [case ann := <-f.notify] *)

Record fdAnnounce := mkAnn { annOrigin : Peer; annHashes : list Hash; annMetas : list fdMetadata }.

Definition notifyOne (c : clock) (origin : Peer) (metas : list fdMetadata) (f : FileDataFetcher) (ih : nat * Hash) : outcome FileDataFetcher :=
  let '(i, hash) := ih in
  match alternates f !! hash with
  | Some (Some s) =>
      meta ← index metas (Z.of_nat i);
      let f := set_alternates (<[hash := Some ({[origin]} ∪ s)]> (alternates f)) f in
      Done (set_announces (addSlot origin hash meta (announces f)) f)
  | _ =>
      match announced f !! hash with
      | Some s =>
          meta ← index metas (Z.of_nat i);
          let f := set_announced (<[hash := {[origin]} ∪ s]> (announced f)) f in
          Done (set_announces (addSlot origin hash meta (announces f)) f)
      | None =>
          match waitlist f !! hash with
          | Some s =>
              if decide (origin ∈ s) then Done f
              else
                meta ← index metas (Z.of_nat i);
                let f := set_waitlist (<[hash := {[origin]} ∪ s]> (waitlist f)) f in
                Done (set_waitslots (addSlot origin hash meta (waitslots f)) f)
          | None =>
              let f := set_waitlist (<[hash := {[origin]}]> (waitlist f)) f in
              let f := set_waittime (<[hash := nowH c hash]> (waittime f)) f in
              meta ← index metas (Z.of_nat i);
              Done (set_waitslots (addSlot origin hash meta (waitslots f)) f)
          end
      end
  end.

Definition onNotify (c : clock) (o : order) (ann : fdAnnounce) (f : FileDataFetcher) : outcome FileDataFetcher :=
  let origin := annOrigin ann in
  let used := Z.of_nat (slotCount origin (waitslots f)) + Z.of_nat (slotCount origin (announces f)) in
  if decide (maxFdAnnounces <= used) then Done f
  else
    let want := used + Z.of_nat (length (annHashes ann)) in
    '(hs, metas) ← (if decide (maxFdAnnounces < want)
                    then hs ← subslice (annHashes ann) 0 (want - maxFdAnnounces);
                         metas ← subslice (annMetas ann) 0 (want - maxFdAnnounces);
                         Done (hs, metas)
                    else Done (annHashes ann, annMetas ann));
    let idleWait := bool_decide (waittime f = ∅) in
    let oldPeer := bool_decide (is_Some (announces f !! origin)) in
    f ← fold_outcome (notifyOne c origin metas) (imap pair hs) f;
    let f := if idleWait && negb (bool_decide (waittime f = ∅)) then rescheduleWait c o f else f in
    if oldPeer && bool_decide (0 < slotCount origin (announces f))%nat
    then scheduleFetches c o (Some {[origin]}) f
    else Done f.

(** ** [case <-waitTrigger] *)

(** The peers of an expired hash move from the waiting to the queued slots. *)
Definition expirePeer (hash : Hash) (st : FileDataFetcher * gset Peer) (peer : Peer) : FileDataFetcher * gset Peer :=
  let '(f, actives) := st in
  let f := set_announces (addSlot peer hash (slotMeta peer hash (waitslots f)) (announces f)) f in
  let f := set_waitslots (delSlot peer hash (waitslots f)) f in
  (f, {[peer]} ∪ actives).

(** [waitlist] and [waittime] have the same keys ([fetcher_inv]), so the
    waiting set of a hash found in [waittime] is there. *)
Definition expireHash (c : clock) (o : order) (st : FileDataFetcher * gset Peer) (hash : Hash) : outcome (FileDataFetcher * gset Peer) :=
  let '(f, actives) := st in
  match waittime f !! hash with
  | None => Done (f, actives)
  | Some instance =>
      if decide (fdArriveTimeout < nowH c hash - instance + fdGatherSlack)
      then
        match announced f !! hash with
        | Some _ => Panic
        | None =>
            let peers := waitlist f !! hash in
            let f := match peers with Some s => set_announced (<[hash := s]> (announced f)) f | None => f end in
            let '(f, actives) := foldl (expirePeer hash) (f, actives) (ordP o (default ∅ peers)) in
            let f := set_waittime (delete hash (waittime f)) f in
            Done (set_waitlist (delete hash (waitlist f)) f, actives)
        end
      else Done (f, actives)
  end.

Definition onWait (c : clock) (o : order) (f : FileDataFetcher) : outcome FileDataFetcher :=
  '(f, actives) ← fold_outcome (expireHash c o) (ordH o (dom (waittime f))) (f, ∅);
  let f := if negb (bool_decide (waittime f = ∅)) then rescheduleWait c o f else f in
  if decide (actives = ∅) then Done f else scheduleFetches c o (Some actives) f.

(** ** [case <-timeoutTrigger] *)

Definition timeoutHash (peer : Peer) (req : fdRequest) (f : FileDataFetcher) (hash : Hash) : outcome FileDataFetcher :=
  if decide (hash ∈ stolen req) then Done f
  else
    match announced f !! hash with
    | Some _ => Panic
    | None =>
        let f := match alternates f !! hash with
                 | Some (Some s) => set_announced (<[hash := s]> (announced f)) f
                 | _ => f
                 end in
        let f := match announced f !! hash with
                 | Some s =>
                     if decide (s ∖ {[peer]} = ∅) then set_announced (delete hash (announced f)) f
                     else set_announced (<[hash := s ∖ {[peer]}]> (announced f)) f
                 | None => f
                 end in
        let f := set_alternates (delete hash (alternates f)) f in
        Done (set_fetching (delete hash (fetching f)) f)
    end.

(** [if len(m[p]) == 0 { delete(m, p) }] *)
Definition dropEmpty (p : Peer) (m : slotMap) : slotMap := if decide (slotCount p m = 0)%nat then delete p m else m.

Definition timeoutPeer (c : clock) (f : FileDataFetcher) (peer : Peer) : outcome FileDataFetcher :=
  match requests f !! peer with
  | None => Done f
  | Some req =>
      if decide (fdFetchTimeout < nowP c peer - reqTime req + 100 * ms)
      then
        f ← fold_outcome (timeoutHash peer req) (hashes req) f;
        let f := set_announces (dropEmpty peer (announces f)) f in
        Done (set_requests (<[peer := mkReq [] (stolen req) (reqTime req)]> (requests f)) f)
      else Done f
  end.

(** The clock is read again by the scheduling that follows. *)
Definition onTimeout (c c' : clock) (o : order) (f : FileDataFetcher) : outcome FileDataFetcher :=
  f ← fold_outcome (timeoutPeer c) (ordP o (dom (requests f))) f;
  f ← scheduleFetches c' o None f;
  Done (rescheduleTimeout c' o f).

(** ** [case delivery := <-f.cleanup] *)

Record fdDelivery := mkDel { delOrigin : Peer; delHashes : list Hash; delMetas : list Z; delDirect : bool }.

(** One peer's set when [hash] is delivered: a peer that announced a size more
    than eight bytes off is dropped, and the hash is forgotten. *)
Definition forgetPeer (metas : list Z) (i : nat) (hash : Hash) (st : slotMap * list action) (peer : Peer) : outcome (slotMap * list action) :=
  let '(m, acts) := st in
  acts ← match slotMeta peer hash m with
         | None => Done acts
         | Some size =>
             real ← index metas (Z.of_nat i);
             Done (if decide (real <> size /\ 8 < Z.abs (real - size)) then acts ++ [DropPeer peer] else acts)
         end;
  Done (match m !! peer with
        | None => m
        | Some s => if decide (delete hash s = ∅) then delete peer m else <[peer := delete hash s]> m
        end, acts).

Definition forget (o : order) (metas : list Z) (i : nat) (hash : Hash) (m : slotMap) : outcome (slotMap * list action) :=
  fold_outcome (forgetPeer metas i hash) (ordP o (dom m)) (m, []).

Definition emitAll (acts : list action) (f : FileDataFetcher) : FileDataFetcher := foldl (fun f a => emit a f) f acts.

(** A hash that was being fetched from elsewhere is marked as stolen there. *)
Definition markStolen (d : fdDelivery) (hash : Hash) (f : FileDataFetcher) : outcome FileDataFetcher :=
  match fetching f !! hash with
  | Some origin =>
      if decide (origin <> delOrigin d \/ delDirect d = false)
      then match requests f !! origin with
           | None => Panic
           | Some req => Done (set_requests (<[origin := mkReq (hashes req) ({[hash]} ∪ stolen req) (reqTime req)]> (requests f)) f)
           end
      else Done f
  | None => Done f
  end.

Definition deliverOne (o : order) (d : fdDelivery) (f : FileDataFetcher) (ih : nat * Hash) : outcome FileDataFetcher :=
  let '(i, hash) := ih in
  match waitlist f !! hash with
  | Some _ =>
      '(m, acts) ← forget o (delMetas d) i hash (waitslots f);
      let f := emitAll acts (set_waitslots m f) in
      let f := set_waitlist (delete hash (waitlist f)) f in
      Done (set_waittime (delete hash (waittime f)) f)
  | None =>
      '(m, acts) ← forget o (delMetas d) i hash (announces f);
      let f := emitAll acts (set_announces m f) in
      let f := set_announced (delete hash (announced f)) f in
      let f := set_alternates (delete hash (alternates f)) f in
      f ← markStolen d hash f;
      Done (set_fetching (delete hash (fetching f)) f)
  end.

(** The index of the last requested hash that was delivered, or the number of
    requested hashes. *)
Definition cutoffOf (delivered : gset Hash) (hs : list Hash) : nat :=
  foldl (fun cutoff '(i, h) => if decide (h ∈ delivered) then i else cutoff) (length hs) (imap pair hs).

Definition rescheduleHash (origin : Peer) (delivered : gset Hash) (cutoff : nat) (req : fdRequest)
    (f : FileDataFetcher) (ih : nat * Hash) : outcome FileDataFetcher :=
  let '(i, hash) := ih in
  if decide (hash ∈ stolen req) then Done f
  else
    f ← (if decide (hash ∈ delivered) then Done f
         else
           let f := if decide (i < cutoff)%nat
                    then set_announces (delSlot origin hash (announces f))
                           (set_alternates (alter (fmap (fun s => s ∖ {[origin]})) hash (alternates f)) f)
                    else f in
           match alternates f !! hash with
           | Some (Some s) =>
               if decide (s = ∅) then Done f
               else match announced f !! hash with
                    | Some _ => Panic
                    | None => Done (set_announced (<[hash := s]> (announced f)) f)
                    end
           | _ => Done f
           end);
    let f := set_alternates (delete hash (alternates f)) f in
    Done (set_fetching (delete hash (fetching f)) f).

Definition onDelivery (c : clock) (o : order) (d : fdDelivery) (f : FileDataFetcher) : outcome FileDataFetcher :=
  f ← fold_outcome (deliverOne o d) (imap pair (delHashes d)) f;
  if negb (delDirect d) then Done f
  else
    match requests f !! delOrigin d with
    | None => Done f
    | Some req =>
        let f := set_requests (delete (delOrigin d) (requests f)) f in
        let delivered := list_to_set (delHashes d) in
        let cutoff := cutoffOf delivered (hashes req) in
        f ← fold_outcome (rescheduleHash (delOrigin d) delivered cutoff req) (imap pair (hashes req)) f;
        scheduleFetches c o None f
    end.

(** ** [case drop := <-f.drop] *)

Definition dropHash (peer : Peer) (req : fdRequest) (f : FileDataFetcher) (hash : Hash) : FileDataFetcher :=
  if decide (hash ∈ stolen req) then f
  else
    let alts := alter (fmap (fun s => s ∖ {[peer]})) hash (alternates f) in
    let f := match alts !! hash with
             | Some (Some s) => if decide (s = ∅) then f else set_announced (<[hash := s]> (announced f)) f
             | _ => f
             end in
    set_fetching (delete hash (fetching f)) (set_alternates (delete hash alts) f).

Definition onDrop (c : clock) (o : order) (peer : Peer) (f : FileDataFetcher) : outcome FileDataFetcher :=
  match requests f !! peer with
  | None => Done f
  | Some req =>
      let f := foldl (dropHash peer req) f (hashes req) in
      let f := set_requests (delete peer (requests f)) f in
      f ← scheduleFetches c o None f;
      Done (rescheduleTimeout c o f)
  end.

(** ** Steps *)

Inductive event :=
| EvNotify (ann : fdAnnounce)
| EvWait
| EvTimeout
| EvDelivery (d : fdDelivery)
| EvDrop (peer : Peer).

(** One iteration of [loop]. *)
Definition loopStep (c c' : clock) (o : order) (e : event) (f : FileDataFetcher) : outcome FileDataFetcher :=
  match e with
  | EvNotify ann => onNotify c o ann f
  | EvWait => onWait c o f
  | EvTimeout => onTimeout c c' o f
  | EvDelivery d => onDelivery c o d f
  | EvDrop peer => onDrop c o peer f
  end.

(** What [Notify] and [Enqueue] send has a size for each hash. *)
Definition event_ok (e : event) : Prop :=
  match e with
  | EvNotify ann => length (annMetas ann) = length (annHashes ann)
  | EvDelivery d => length (delMetas d) = length (delHashes d)
  | _ => True
  end.

(** ** The invariant of the trackers *)

(** [pend p h]: [p] is being asked for [h] though no request says so yet. *)
Record inv (pend : Peer -> Hash -> Prop) (wl : gmap Hash (gset Peer)) (wt : gmap Hash Z) (ad : gmap Hash (gset Peer))
    (fe : gmap Hash Peer) (rq : gmap Peer fdRequest) (al : gmap Hash (option (gset Peer))) : Prop := mkInv {
  inv_alternates h : is_Some (al !! h) <-> is_Some (fe !! h);
  inv_fetching h p : fe !! h = Some p ->
    pend p h \/ exists req, rq !! p = Some req /\ h ∈ hashes req /\ h ∉ stolen req;
  inv_waittime h : is_Some (wt !! h) <-> is_Some (wl !! h);
  inv_waiting h : is_Some (wl !! h) -> ad !! h = None /\ forall s, al !! h <> Some (Some s);
  inv_queued h s : al !! h = Some (Some s) -> ad !! h = None;
  inv_requests p req : rq !! p = Some req -> (length (hashes req) <= maxFdRetrievals)%nat /\ NoDup (hashes req)
}.

Definition fetcher_pend (pend : Peer -> Hash -> Prop) (f : FileDataFetcher) : Prop :=
  inv pend (waitlist f) (waittime f) (announced f) (fetching f) (requests f) (alternates f).

Definition no_pend (p : Peer) (h : Hash) : Prop := False.
Definition fetcher_inv : FileDataFetcher -> Prop := fetcher_pend no_pend.

Lemma fetcher_inv_init : fetcher_inv NewFdFetcher.
Proof. split; simpl; intros; rewrite ?lookup_empty in *; try done; by destruct H. Qed.

Lemma inv_pend_mono (P Q : Peer -> Hash -> Prop) wl wt ad fe rq al :
  (forall p h, fe !! h = Some p -> P p h -> Q p h) -> inv P wl wt ad fe rq al -> inv Q wl wt ad fe rq al.
Proof. intros HPQ [H1 H2 H3 H4 H5 H6]. split; try done. intros h p Hf. destruct (H2 h p Hf); eauto. Qed.

(** *** Scheduling *)

Lemma inv_allocate peer acc wl wt ad fe rq al h :
  inv (fun p h => p = peer /\ h ∈ acc) wl wt ad fe rq al -> fe !! h = None ->
  al !! h = None /\
  inv (fun p h' => p = peer /\ h' ∈ acc ++ [h]) wl wt (delete h ad) (<[h := peer]> fe) rq (<[h := ad !! h]> al).
Proof.
  intros [H1 H2 H3 H4 H5 H6] Hf.
  assert (Hal : al !! h = None).
  { apply eq_None_not_Some. rewrite H1, Hf. by intros [? ?]. }
  split; [done|]. split; try done.
  - intros h'. destruct (decide (h = h')) as [->|]; [rewrite !lookup_insert_eq|rewrite !lookup_insert_ne by done]; [|done].
    split; eauto.
  - intros h' p. destruct (decide (h = h')) as [->|].
    + rewrite lookup_insert_eq. intros [= <-]. left. split; [done|]. set_solver.
    + rewrite lookup_insert_ne by done. intros [[-> ?]|?]%H2; [left; set_solver|by right].
  - intros h' Hw. destruct (H4 h' Hw) as [Ha Hs]. destruct (decide (h = h')) as [->|].
    + rewrite lookup_delete_eq, lookup_insert_eq, Ha. done.
    + rewrite lookup_delete_ne, lookup_insert_ne by done. done.
  - intros h' s. destruct (decide (h = h')) as [->|]; [by rewrite lookup_delete_eq|].
    rewrite lookup_delete_ne, lookup_insert_ne by done. apply H5.
Qed.

(** What allocating leaves alone. *)
Definition alloc_frame (f f' : FileDataFetcher) : Prop :=
  waitlist f' = waitlist f /\ waittime f' = waittime f /\ waitslots f' = waitslots f
  /\ announces f' = announces f /\ requests f' = requests f /\ out f' = out f.

Lemma allocate_ok peer anns hs : forall acc bytes f,
  fetcher_pend (fun p h => p = peer /\ h ∈ acc) f ->
  (length acc < maxFdRetrievals)%nat -> NoDup acc -> (forall h, h ∈ acc -> fetching f !! h = Some peer) ->
  exists f' acc', allocate peer anns hs acc bytes f = Done (f', acc')
    /\ fetcher_pend (fun p h => p = peer /\ h ∈ acc') f' /\ alloc_frame f f'
    /\ (length acc' <= maxFdRetrievals)%nat /\ NoDup acc'.
Proof.
  induction hs as [|h hs IH]; intros acc bytes f Hinv Hlen Hnd Hacc; cbn [allocate].
  { exists f, acc. split_and!; [done|done|done|lia|done]. }
  destruct (fetching f !! h) as [q|] eqn:Hf; [by apply IH|].
  destruct (inv_allocate _ _ _ _ _ _ _ _ h Hinv Hf) as [Hal Hinv']. cbn [alternates set_fetching]. rewrite Hal.
  set (f1 := set_announced _ _).
  assert (Hnd' : NoDup (acc ++ [h])).
  { apply NoDup_app. split_and!; [done| |apply NoDup_singleton].
    intros x Hx ->%list_elem_of_singleton. rewrite (Hacc h Hx) in Hf. done. }
  assert (Hacc' : forall h', h' ∈ acc ++ [h] -> fetching f1 !! h' = Some peer).
  { intros h'. subst f1. simpl. intros [Hin| ->%list_elem_of_singleton]%elem_of_app; [|apply lookup_insert_eq].
    destruct (decide (h = h')) as [->|]; [apply lookup_insert_eq|rewrite lookup_insert_ne by done; auto]. }
  assert (Hfin : fetcher_pend (fun p h' => p = peer /\ h' ∈ acc ++ [h]) f1) by done.
  case_decide as Hmax.
  { exists f1, (acc ++ [h]). split_and!; [done|done|done| |done]. rewrite length_app in *. simpl in *. lia. }
  assert (Hlen' : (length (acc ++ [h]) < maxFdRetrievals)%nat) by lia.
  assert (Hrec : forall bytes', exists f' acc', allocate peer anns hs (acc ++ [h]) bytes' f1 = Done (f', acc')
    /\ fetcher_pend (fun p h' => p = peer /\ h' ∈ acc') f' /\ alloc_frame f f'
    /\ (length acc' <= maxFdRetrievals)%nat /\ NoDup acc').
  { intros bytes'. destruct (IH (acc ++ [h]) bytes' f1) as (f' & acc' & -> & Hi & Hfr & Hl & Hn); [done..|].
    exists f', acc'. done. }
  destruct (default None (anns !! h)); [|apply Hrec]. case_decide; [|apply Hrec].
  exists f1, (acc ++ [h]). split_and!; [done|done|done|lia|done].
Qed.

(** Every request sent is for one to 256 distinct hashes. *)
Definition acts_ok (acts : list action) : Prop :=
  Forall (fun a => match a with
                   | FetchFds _ hs => (0 < length hs <= maxFdRetrievals)%nat /\ NoDup hs
                   | DropPeer _ => True
                   end) acts.

Definition fetcher_ok (f : FileDataFetcher) : Prop := fetcher_inv f /\ acts_ok (out f).

(** What scheduling leaves alone. *)
Definition sched_frame (f f' : FileDataFetcher) : Prop :=
  waitlist f' = waitlist f /\ waittime f' = waittime f /\ waitslots f' = waitslots f /\ announces f' = announces f.

Lemma inv_request peer acc wl wt ad fe rq al t :
  inv (fun p h => p = peer /\ h ∈ acc) wl wt ad fe rq al -> rq !! peer = None ->
  (length acc <= maxFdRetrievals)%nat -> NoDup acc ->
  inv no_pend wl wt ad fe (<[peer := mkReq acc ∅ t]> rq) al.
Proof.
  intros [H1 H2 H3 H4 H5 H6] Hp Hl Hn. split; try done.
  - intros h p Hf. right. destruct (H2 h p Hf) as [[-> Hin]|(req & Hr & ?)].
    + exists (mkReq acc ∅ t). rewrite lookup_insert_eq. set_solver.
    + exists req. rewrite lookup_insert_ne by congruence. done.
  - intros p req. rewrite lookup_insert_Some. intros [[<- <-]|[_ Hr]]; [done|]. by apply (H6 p).
Qed.

Lemma schedulePeer_ok c o f peer :
  fetcher_ok f -> exists f', schedulePeer c o f peer = Done f' /\ fetcher_ok f' /\ sched_frame f f'.
Proof.
  intros [Hinv Hout]. unfold schedulePeer.
  destruct (requests f !! peer) eqn:Hreq; [by exists f|]. case_decide; [by exists f|].
  destruct (allocate_ok peer (default ∅ (announces f !! peer)) (ordH o (dom (default ∅ (announces f !! peer)))) [] 0 f)
    as (f' & acc & -> & Hi & (F1 & F2 & F3 & F4 & F5 & F6) & Hl & Hn);
    [|unfold maxFdRetrievals; simpl; lia|apply NoDup_nil_2|intros h Hh; by apply not_elem_of_nil in Hh|].
  { eapply inv_pend_mono; [|exact Hinv]. done. }
  cbn [mbind outcome_bind]. unfold fetcher_ok, sched_frame. case_decide as Hacc.
  - eexists. split; [done|]. split; [split|done].
    + apply (inv_request peer acc _ _ _ _ _ _ _ Hi); [by rewrite F5|done|done].
    + simpl. rewrite F6. apply Forall_app. split; [done|]. apply Forall_singleton. done.
  - exists f'. split; [done|]. split; [split; [|by rewrite F6]|done].
    eapply inv_pend_mono; [|exact Hi]. destruct acc; [|simpl in Hacc; lia]. set_solver.
Qed.

Lemma sched_frame_trans f1 f2 f3 : sched_frame f1 f2 -> sched_frame f2 f3 -> sched_frame f1 f3.
Proof. unfold sched_frame. intuition congruence. Qed.

Lemma scheduleFetches_ok c o wl f :
  fetcher_ok f -> exists f', scheduleFetches c o wl f = Done f' /\ fetcher_ok f' /\ sched_frame f f'.
Proof.
  intros Hf. unfold scheduleFetches. case_decide; [by exists f|].
  assert (Hfold : forall ps g, fetcher_ok g -> exists g', fold_outcome (schedulePeer c o) ps g = Done g' /\ fetcher_ok g' /\ sched_frame g g').
  { induction ps as [|p ps IH]; intros g Hg; [by exists g|]. cbn [fold_outcome].
    destruct (schedulePeer_ok c o g p Hg) as (g1 & -> & Hg1 & Hfr). destruct (IH g1 Hg1) as (g2 & -> & ? & ?).
    exists g2. split_and!; [done..|]. by eapply sched_frame_trans. }
  destruct (Hfold (ordP o (default (dom (announces f)) wl)) f Hf) as (f' & -> & Hok & Hfr). cbn [mbind outcome_bind].
  eexists. split; [done|]. by case_match.
Qed.

(** *** Announcements *)

(** Decide whether a lookup in an updated map is at the updated key. *)
Ltac at_key h h' :=
  destruct (decide (h = h')) as [<-|?];
  [rewrite ?lookup_insert_eq, ?lookup_delete_eq|rewrite ?lookup_insert_ne, ?lookup_delete_ne by done].

Section updates.
Context {pend : Peer -> Hash -> Prop} {wl : gmap Hash (gset Peer)} {wt : gmap Hash Z} {ad : gmap Hash (gset Peer)}
  {fe : gmap Hash Peer} {rq : gmap Peer fdRequest} {al : gmap Hash (option (gset Peer))}.
Hypothesis (Hinv : inv pend wl wt ad fe rq al).

Lemma inv_alt_update h s s' : al !! h = Some (Some s) -> inv pend wl wt ad fe rq (<[h := Some s']> al).
Proof using Hinv.
  destruct Hinv as [H1 H2 H3 H4 H5 H6]. intros Hal. split; try done.
  - intros h'. rewrite <-H1. at_key h h'; [|done]. rewrite Hal. split; eauto.
  - intros h' Hw. destruct (H4 h' Hw) as [? Hs]. at_key h h'; [|done]. by destruct (Hs s).
  - intros h' s''. at_key h h'; [|apply H5]. intros _. by apply (H5 _ s).
Qed.

Lemma inv_announced_update h s s' : ad !! h = Some s -> inv pend wl wt (<[h := s']> ad) fe rq al.
Proof using Hinv.
  destruct Hinv as [H1 H2 H3 H4 H5 H6]. intros Had. split; try done.
  - intros h' Hw. destruct (H4 h' Hw) as [? Hs]. at_key h h'; [congruence|done].
  - intros h' s'' Hal. at_key h h'; [|by eapply H5]. apply H5 in Hal. congruence.
Qed.

Lemma inv_wait_update h s s' : wl !! h = Some s -> inv pend (<[h := s']> wl) wt ad fe rq al.
Proof using Hinv.
  destruct Hinv as [H1 H2 H3 H4 H5 H6]. intros Hwl. split; try done.
  - intros h'. rewrite H3. at_key h h'; [|done]. rewrite Hwl. split; eauto.
  - intros h'. at_key h h'; [|apply H4]. intros _. apply H4. eauto.
Qed.

Lemma inv_wait_new h s t :
  ad !! h = None -> (forall s', al !! h <> Some (Some s')) -> inv pend (<[h := s]> wl) (<[h := t]> wt) ad fe rq al.
Proof using Hinv.
  destruct Hinv as [H1 H2 H3 H4 H5 H6]. intros Had Hal. split; try done.
  - intros h'. at_key h h'; [split; eauto|apply H3].
  - intros h'. at_key h h'; [done|apply H4].
Qed.

(** A hash leaves the waiting list. *)
Lemma inv_wait_delete h : inv pend (delete h wl) (delete h wt) ad fe rq al.
Proof using Hinv.
  destruct Hinv as [H1 H2 H3 H4 H5 H6]. split; try done.
  - intros h'. at_key h h'; [done|apply H3].
  - intros h'. at_key h h'; [by intros [? ?]|apply H4].
Qed.

(** A waiting hash is queued. *)
Lemma inv_expire h s : is_Some (wl !! h) -> inv pend (delete h wl) (delete h wt) (<[h := s]> ad) fe rq al.
Proof using Hinv.
  intros Hw. destruct (inv_wait_delete h) as [_ _ D3 D4 _ _]. destruct Hinv as [H1 H2 H3 H4 H5 H6]. split; try done.
  - intros h' Hw'. destruct (D4 h' Hw') as [? ?]. at_key h h'; [|done].
    rewrite lookup_delete_eq in Hw'. by destruct Hw'.
  - intros h' s' Hal. at_key h h'; [|by eapply H5]. destruct (H4 h Hw) as [_ Hn]. by destruct (Hn s').
Qed.

(** A hash is no longer fetched; with alternatives it is queued again. *)
Lemma inv_unfetch h : inv pend wl wt ad (delete h fe) rq (delete h al).
Proof using Hinv.
  destruct Hinv as [H1 H2 H3 H4 H5 H6]. split; try done.
  - intros h'. at_key h h'; [done|apply H1].
  - intros h' p. at_key h h'; [done|apply H2].
  - intros h' Hw. destruct (H4 h' Hw). split; [done|]. intros s. at_key h h'; [done|auto].
  - intros h' s. at_key h h'; [done|apply H5].
Qed.

Lemma inv_unfetch_queue h s s' :
  al !! h = Some (Some s) -> inv pend wl wt (<[h := s']> ad) (delete h fe) rq (delete h al).
Proof using Hinv.
  intros Hal. destruct (inv_unfetch h) as [D1 D2 D3 D4 D5 D6]. destruct Hinv as [H1 H2 H3 H4 H5 H6]. split; try done.
  - intros h' Hw. at_key h h'; [by destruct (H4 h Hw) as [_ Hn]; destruct (Hn s)|].
    split; [by apply H4|by apply H4].
  - intros h' s''. at_key h h'; [done|apply H5].
Qed.

(** A hash leaves the queue. *)
Lemma inv_dequeue h : inv pend wl wt (delete h ad) fe rq al.
Proof using Hinv.
  destruct Hinv as [H1 H2 H3 H4 H5 H6]. split; try done.
  - intros h' Hw. destruct (H4 h' Hw). at_key h h'; done.
  - intros h' s Hal. at_key h h'; [done|by eapply H5].
Qed.

End updates.

Lemma notifyOne_ok c origin metas f i h :
  fetcher_ok f -> (i < length metas)%nat -> exists f', notifyOne c origin metas f (i, h) = Done f' /\ fetcher_ok f'.
Proof.
  intros [Hinv Hout] Hi. unfold notifyOne.
  destruct (index_in_range metas (Z.of_nat i)) as [meta ->]; [lia|]. cbn [mbind outcome_bind].
  assert (Hrest : (forall s, alternates f !! h <> Some (Some s)) ->
    exists f', match announced f !! h with
      | Some s => Done (set_announces (addSlot origin h meta (announces f)) (set_announced (<[h := {[origin]} ∪ s]> (announced f)) f))
      | None => match waitlist f !! h with
        | Some s => if decide (origin ∈ s) then Done f else
            Done (set_waitslots (addSlot origin h meta (waitslots f)) (set_waitlist (<[h := {[origin]} ∪ s]> (waitlist f)) f))
        | None => Done (set_waitslots (addSlot origin h meta (waitslots f))
            (set_waittime (<[h := nowH c h]> (waittime f)) (set_waitlist (<[h := {[origin]}]> (waitlist f)) f)))
        end end = Done f' /\ fetcher_ok f').
  { intros Hal. destruct (announced f !! h) as [s|] eqn:Had.
    { eexists. split; [done|]. split; [|done]. by apply (inv_announced_update Hinv h s). }
    destruct (waitlist f !! h) as [s|] eqn:Hwl.
    - case_decide; [by exists f|]. eexists. split; [done|]. split; [|done]. by apply (inv_wait_update Hinv h s).
    - eexists. split; [done|]. split; [|done]. by apply (inv_wait_new Hinv). }
  destruct (alternates f !! h) as [[s|]|] eqn:Hal; [|by apply Hrest..].
  eexists. split; [done|]. split; [|done]. by apply (inv_alt_update Hinv h s).
Qed.

(** A loop over indexed hashes whose body keeps the invariant. *)
Lemma fold_ok {A} (P : FileDataFetcher -> Prop) (body : FileDataFetcher -> A -> outcome FileDataFetcher) (l : list A) f :
  P f -> (forall a g, a ∈ l -> P g -> exists g', body g a = Done g' /\ P g') ->
  exists f', fold_outcome body l f = Done f' /\ P f'.
Proof.
  intros Hf Hbody. revert f Hf. induction l as [|a l IH]; intros f Hf; cbn [fold_outcome]; [by exists f|].
  destruct (Hbody a f) as (g & -> & Hg); [set_solver|done|]. apply IH; [|done]. intros b g' Hb. apply Hbody. set_solver.
Qed.

Lemma elem_of_imap_pair {A} (l : list A) i x : (i, x) ∈ imap pair l -> (i < length l)%nat /\ x ∈ l.
Proof.
  intros (j & y & [= -> ->] & Hj)%elem_of_lookup_imap_1. split; [by eapply lookup_lt_Some|by eapply list_elem_of_lookup_2].
Qed.

Lemma onNotify_ok c o ann f :
  fetcher_ok f -> length (annMetas ann) = length (annHashes ann) ->
  exists f', onNotify c o ann f = Done f' /\ fetcher_ok f'.
Proof.
  intros Hf Hlen. unfold onNotify. case_decide as Hused; [by exists f|].
  match goal with |- context [decide (maxFdAnnounces < ?w)] => set (want := w) end.
  assert (exists hs metas, (if decide (maxFdAnnounces < want)
      then hs ← subslice (annHashes ann) 0 (want - maxFdAnnounces);
           metas ← subslice (annMetas ann) 0 (want - maxFdAnnounces); Done (hs, metas)
      else Done (annHashes ann, annMetas ann)) = Done (hs, metas) /\ length metas = length hs)
    as (hs & metas & -> & Hl).
  { case_decide as Hw; [|by eexists _, _]. unfold subslice.
    rewrite !decide_True by (subst want; lia). cbn [mbind outcome_bind]. eexists _, _. split; [done|].
    rewrite !length_take, !length_drop. lia. }
  cbn [mbind outcome_bind].
  destruct (fold_ok fetcher_ok (notifyOne c (annOrigin ann) metas) (imap pair hs) f) as (f' & -> & Hf'); [done| |].
  { intros [i h] g [Hi _]%elem_of_imap_pair Hg. apply notifyOne_ok; [done|lia]. }
  cbn [mbind outcome_bind].
  match goal with |- context [if ?b then rescheduleWait c o f' else f'] => set (f1 := if b then rescheduleWait c o f' else f') end.
  assert (Hf1 : fetcher_ok f1) by (subst f1; by case_match).
  case_match; [|by exists f1].
  destruct (scheduleFetches_ok c o (Some {[annOrigin ann]}) f1 Hf1) as (f2 & -> & ? & _). eauto.
Qed.

(** *** The waiting list *)

Lemma expirePeers_frame hash ps : forall f actives,
  let f' := (foldl (expirePeer hash) (f, actives) ps).1 in
  waitlist f' = waitlist f /\ waittime f' = waittime f /\ announced f' = announced f /\ fetching f' = fetching f
  /\ requests f' = requests f /\ alternates f' = alternates f /\ out f' = out f.
Proof.
  induction ps as [|p ps IH]; intros f actives; [done|]. cbn [foldl expirePeer]. cbn zeta.
  apply (IH (set_waitslots _ (set_announces _ f)) ({[p]} ∪ actives)).
Qed.

Lemma expireHash_ok c o f actives h :
  fetcher_ok f -> exists f' actives', expireHash c o (f, actives) h = Done (f', actives') /\ fetcher_ok f'.
Proof.
  intros [Hinv Hout]. unfold expireHash. destruct (waittime f !! h) as [t|] eqn:Ht; [|by exists f, actives].
  case_decide; [|by exists f, actives].
  assert (is_Some (waitlist f !! h)) as [s Hs] by (apply (inv_waittime _ _ _ _ _ _ _ Hinv); eauto).
  destruct (inv_waiting _ _ _ _ _ _ _ Hinv h) as [-> Hal]; [eauto|]. rewrite Hs. cbn [default].
  destruct (expirePeers_frame h (ordP o s) (set_announced (<[h := s]> (announced f)) f) actives)
    as (E1 & E2 & E3 & E4 & E5 & E6 & E7).
  destruct (foldl _ _ _) as [f' actives']. cbn [fst] in *.
  eexists _, _. split; [done|]. split; [|cbn; by rewrite E7].
  unfold fetcher_inv, fetcher_pend. cbn [waitlist waittime announced fetching requests alternates set_waittime set_waitlist].
  rewrite E1, E2, E3, E4, E5, E6. apply (inv_expire Hinv). eauto.
Qed.

Lemma onWait_ok c o f : fetcher_ok f -> exists f', onWait c o f = Done f' /\ fetcher_ok f'.
Proof.
  intros Hf. unfold onWait.
  assert (Hfold : forall hs g a, fetcher_ok g -> exists g' a', fold_outcome (expireHash c o) hs (g, a) = Done (g', a') /\ fetcher_ok g').
  { induction hs as [|h hs IH]; intros g a Hg; [by exists g, a|]. cbn [fold_outcome].
    destruct (expireHash_ok c o g a h Hg) as (g1 & a1 & -> & Hg1). by apply IH. }
  destruct (Hfold (ordH o (dom (waittime f))) f ∅ Hf) as (f' & actives & -> & Hf'). cbn [mbind outcome_bind].
  match goal with |- context [if ?b then rescheduleWait c o f' else f'] => set (f1 := if b then rescheduleWait c o f' else f') end. assert (Hf1 : fetcher_ok f1) by (subst f1; by case_match).
  case_decide; [by exists f1|]. destruct (scheduleFetches_ok c o (Some actives) f1 Hf1) as (f2 & -> & ? & _). eauto.
Qed.

(** *** Deliveries *)

Lemma forget_ok o metas i h m : (i < length metas)%nat -> exists m' acts, forget o metas i h m = Done (m', acts) /\ acts_ok acts.
Proof.
  intros Hi. unfold forget.
  assert (Hfold : forall ps m acts, acts_ok acts -> exists m' acts', fold_outcome (forgetPeer metas i h) ps (m, acts) = Done (m', acts') /\ acts_ok acts').
  { induction ps as [|p ps IH]; intros m0 acts Ha; [by exists m0, acts|]. cbn [fold_outcome]. unfold forgetPeer at 1.
    destruct (index_in_range metas (Z.of_nat i)) as [real ->]; [lia|]. cbn [mbind outcome_bind].
    destruct (slotMeta p h m0) as [size|]; [|cbn [mbind outcome_bind]; by apply IH].
    cbn [mbind outcome_bind]. apply IH. case_decide; [|done]. apply Forall_app. split; [done|]. by apply Forall_singleton. }
  apply Hfold. apply Forall_nil_2.
Qed.

Lemma emitAll_frame acts : forall f,
  let f' := emitAll acts f in
  waitlist f' = waitlist f /\ waittime f' = waittime f /\ announced f' = announced f /\ fetching f' = fetching f
  /\ requests f' = requests f /\ alternates f' = alternates f /\ out f' = out f ++ acts.
Proof.
  unfold emitAll. induction acts as [|a acts IH]; intros f; [by rewrite app_nil_r|]. cbn [foldl]. cbn zeta.
  destruct (IH (emit a f)) as (E1 & E2 & E3 & E4 & E5 & E6 & E7). rewrite E1, E2, E3, E4, E5, E6, E7.
  cbn [out emit]. by rewrite <-(assoc_L (++)).
Qed.

Lemma inv_steal pend wl wt ad fe rq al h origin req :
  inv pend wl wt ad fe rq al -> fe !! h = None -> rq !! origin = Some req ->
  inv pend wl wt ad fe (<[origin := mkReq (hashes req) ({[h]} ∪ stolen req) (reqTime req)]> rq) al.
Proof.
  intros [H1 H2 H3 H4 H5 H6] Hf Hr. split; try done.
  - intros h' p Hf'. destruct (H2 h' p Hf') as [?|(req' & Hr' & Hin & Hns)]; [by left|]. right.
    destruct (decide (origin = p)) as [<-|]; [|exists req'; by rewrite lookup_insert_ne].
    eexists. rewrite lookup_insert_eq. split; [done|]. simpl. assert (req' = req) as -> by congruence.
    split; [done|]. assert (h' <> h) by congruence. set_solver.
  - intros p req'. rewrite lookup_insert_Some. intros [[<- <-]|[_ Hr']]; simpl; [by apply (H6 origin)|by apply (H6 p)].
Qed.

Lemma markStolen_ok d h f :
  inv no_pend (waitlist f) (waittime f) (announced f) (delete h (fetching f)) (requests f) (alternates f) ->
  (forall origin, fetching f !! h = Some origin -> is_Some (requests f !! origin)) ->
  exists f', markStolen d h f = Done f' /\ fetcher_inv (set_fetching (delete h (fetching f')) f') /\ out f' = out f.
Proof.
  intros Hinv Hreq. unfold markStolen. destruct (fetching f !! h) as [origin|] eqn:Hfe; [|by exists f].
  case_decide; [|by exists f]. destruct (Hreq origin) as [req Hr]; [done|]. rewrite Hr.
  eexists. split; [done|]. split; [|done]. apply inv_steal; [done|apply lookup_delete_eq|done].
Qed.

Lemma deliverOne_ok o d f i h :
  fetcher_ok f -> (i < length (delMetas d))%nat -> exists f', deliverOne o d f (i, h) = Done f' /\ fetcher_ok f'.
Proof.
  intros [Hinv Hout] Hi. unfold deliverOne. destruct (waitlist f !! h) as [s|] eqn:Hw.
  - destruct (forget_ok o (delMetas d) i h (waitslots f) Hi) as (m & acts & -> & Ha). cbn [mbind outcome_bind].
    destruct (emitAll_frame acts (set_waitslots m f)) as (E1 & E2 & E3 & E4 & E5 & E6 & E7).
    eexists. split; [done|]. split; [|cbn; rewrite E7; by apply Forall_app].
    unfold fetcher_inv, fetcher_pend. cbn. rewrite E1, E2, E3, E4, E5, E6. apply (inv_wait_delete Hinv).
  - destruct (forget_ok o (delMetas d) i h (announces f) Hi) as (m & acts & -> & Ha). cbn [mbind outcome_bind].
    destruct (emitAll_frame acts (set_announces m f)) as (E1 & E2 & E3 & E4 & E5 & E6 & E7).
    set (g := set_alternates _ _).
    destruct (markStolen_ok d h g) as (g' & -> & Hg' & Hog).
    + subst g. cbn. rewrite E1, E2, E3, E4, E5, E6. apply (inv_dequeue (inv_unfetch Hinv h)).
    + subst g. cbn. rewrite E4, E5. intros origin Hfe.
      destruct (inv_fetching _ _ _ _ _ _ _ Hinv h origin Hfe) as [[]|(req & Hreq & _ & _)]. eauto.
    + cbn [mbind outcome_bind]. eexists. split; [done|]. split; [done|].
      cbn [out set_fetching]. rewrite Hog. subst g. cbn. rewrite E7. by apply Forall_app.
Qed.

(** The request of a peer is given up: its hashes are being fetched without one. *)
Definition open_hashes (peer : Peer) (req : fdRequest) (hs : list Hash) (p : Peer) (h : Hash) : Prop :=
  p = peer /\ h ∈ hs /\ h ∉ stolen req.

Lemma inv_drop_request wl wt ad fe rq al peer req :
  inv no_pend wl wt ad fe rq al -> rq !! peer = Some req ->
  inv (open_hashes peer req (hashes req)) wl wt ad fe (delete peer rq) al.
Proof.
  intros [H1 H2 H3 H4 H5 H6] Hr. split; try done.
  - intros h p Hf. destruct (H2 h p Hf) as [[]|(req' & Hr' & Hin & Hns)].
    destruct (decide (peer = p)) as [<-|].
    + left. assert (req' = req) as -> by congruence. done.
    + right. exists req'. by rewrite lookup_delete_ne.
  - intros p req' [_ ?]%lookup_delete_Some. by apply (H6 p).
Qed.

(** Going past a hash that is stolen or no longer fetched. *)
Lemma open_next wl wt ad fe rq al peer req h hs :
  inv (open_hashes peer req (h :: hs)) wl wt ad fe rq al -> (h ∈ stolen req \/ fe !! h = None) ->
  inv (open_hashes peer req hs) wl wt ad fe rq al.
Proof.
  intros Hinv Hh. eapply inv_pend_mono; [|exact Hinv]. intros p h' Hf (-> & Hin & Hns).
  split_and!; [done| |done]. apply elem_of_cons in Hin as [->|]; [|done]. destruct Hh; [done|congruence].
Qed.

Lemma inv_alt_alter pend wl wt ad fe rq al h g :
  inv pend wl wt ad fe rq al -> inv pend wl wt ad fe rq (alter (fmap g) h al).
Proof.
  intros Hinv. destruct (al !! h) as [[s|]|] eqn:Hal.
  - replace (alter (fmap g) h al) with (<[h := Some (g s)]> al); [by eapply inv_alt_update|].
    apply map_eq. intros h'. at_key h h'; [by rewrite lookup_alter_eq, Hal|by rewrite lookup_alter_ne].
  - replace (alter (fmap g) h al) with al; [done|].
    apply map_eq. intros h'. destruct (decide (h = h')) as [<-|]; [by rewrite lookup_alter_eq, Hal|by rewrite lookup_alter_ne].
  - replace (alter (fmap g) h al) with al; [done|].
    apply map_eq. intros h'. destruct (decide (h = h')) as [<-|]; [by rewrite lookup_alter_eq, Hal|by rewrite lookup_alter_ne].
Qed.

Lemma rescheduleHash_ok origin delivered cutoff req f i h hs :
  fetcher_pend (open_hashes origin req (h :: hs)) f ->
  exists f', rescheduleHash origin delivered cutoff req f (i, h) = Done f'
    /\ fetcher_pend (open_hashes origin req hs) f' /\ out f' = out f.
Proof.
  intros Hinv. unfold rescheduleHash. case_decide as Hst.
  { exists f. split_and!; [done| |done]. apply (open_next _ _ _ _ _ _ _ _ h); eauto. }
  assert (Hend : forall ad fe' al', inv (open_hashes origin req (h :: hs)) (waitlist f) (waittime f) ad (delete h fe') (requests f) al' ->
    inv (open_hashes origin req hs) (waitlist f) (waittime f) ad (delete h fe') (requests f) al').
  { intros ad fe' al' Hi. apply (open_next _ _ _ _ _ _ _ _ h); [done|]. right. apply lookup_delete_eq. }
  case_decide as Hdel.
  { eexists. split; [done|]. split; [|done]. apply Hend, (inv_unfetch Hinv). }
  match goal with |- context [if decide (i < cutoff)%nat then ?g else f] =>
    set (f1 := if decide (i < cutoff)%nat then g else f) end.
  assert (fetcher_pend (open_hashes origin req (h :: hs)) f1 /\ waitlist f1 = waitlist f /\ waittime f1 = waittime f
    /\ requests f1 = requests f /\ out f1 = out f) as (Hi1 & W1 & W2 & W3 & W4).
  { subst f1. case_decide; [|done]. split; [|done]. by apply inv_alt_alter. }
  unfold fetcher_pend in *. rewrite W1, W2, W3 in Hi1. rewrite <-W4.
  destruct (alternates f1 !! h) as [[s|]|] eqn:Hal.
  - case_decide as Hs.
    + eexists. split; [done|]. split; [|done]. cbn. rewrite W1, W2, W3. apply Hend, (inv_unfetch Hi1).
    + rewrite (inv_queued _ _ _ _ _ _ _ Hi1 h s Hal). eexists. split; [done|]. split; [|done]. cbn. rewrite W1, W2, W3.
      apply Hend. by apply (inv_unfetch_queue Hi1 h s).
  - eexists. split; [done|]. split; [|done]. cbn. rewrite W1, W2, W3. apply Hend, (inv_unfetch Hi1).
  - eexists. split; [done|]. split; [|done]. cbn. rewrite W1, W2, W3. apply Hend, (inv_unfetch Hi1).
Qed.

Lemma reschedule_ok origin delivered cutoff req hs : forall k f,
  fetcher_pend (open_hashes origin req hs) f ->
  exists f', fold_outcome (rescheduleHash origin delivered cutoff req) (imap (fun i h => ((k + i)%nat, h)) hs) f = Done f'
    /\ fetcher_inv f' /\ out f' = out f.
Proof.
  induction hs as [|h hs IH]; intros k f Hinv.
  { exists f. split; [done|]. split; [|done]. eapply inv_pend_mono; [|exact Hinv]. unfold open_hashes. set_solver. }
  rewrite imap_cons. cbn [fold_outcome].
  destruct (rescheduleHash_ok origin delivered cutoff req f (k + 0) h hs Hinv) as (f1 & -> & Hi1 & Ho1).
  destruct (IH (S k) f1 Hi1) as (f2 & Hf2 & Hi2 & Ho2). exists f2.
  split_and!; [|done|congruence]. rewrite <-Hf2. f_equal. apply imap_ext. intros j x _. simpl. f_equal. lia.
Qed.

Lemma onDelivery_ok c o d f :
  fetcher_ok f -> length (delMetas d) = length (delHashes d) ->
  exists f', onDelivery c o d f = Done f' /\ fetcher_ok f'.
Proof.
  intros Hf Hlen. unfold onDelivery.
  destruct (fold_ok fetcher_ok (deliverOne o d) (imap pair (delHashes d)) f) as (f1 & -> & Hf1); [done| |].
  { intros [i h] g [Hi _]%elem_of_imap_pair Hg. apply deliverOne_ok; [done|lia]. }
  cbn [mbind outcome_bind]. case_match; [by exists f1|].
  destruct (requests f1 !! delOrigin d) as [req|] eqn:Hreq; [|by exists f1].
  destruct (reschedule_ok (delOrigin d) (list_to_set (delHashes d)) (cutoffOf (list_to_set (delHashes d)) (hashes req)) req
    (hashes req) 0 (set_requests (delete (delOrigin d) (requests f1)) f1)) as (f2 & Hf2 & Hi2 & Ho2).
  { apply inv_drop_request; [apply Hf1|done]. }
  replace (imap pair (hashes req)) with (imap (fun i h => ((0 + i)%nat, h)) (hashes req)) by done.
  rewrite Hf2. cbn [mbind outcome_bind].
  destruct (scheduleFetches_ok c o None f2) as (f3 & -> & ? & _); [|eauto].
  split; [done|]. rewrite Ho2. apply Hf1.
Qed.

(** *** Dropped peers and timeouts *)

(** Giving up the hashes of a request that is still there. *)
Definition givenUp (peer : Peer) (req : fdRequest) (done_ : list Hash) (f : FileDataFetcher) : Prop :=
  fetcher_inv f /\ requests f !! peer = Some req /\ forall h, h ∈ done_ -> h ∉ stolen req -> fetching f !! h = None.

Lemma givenUp_all peer req f :
  givenUp peer req (hashes req) f -> forall h, fetching f !! h <> Some peer.
Proof.
  intros (Hinv & Hr & Hd) h Hf. destruct (inv_fetching _ _ _ _ _ _ _ Hinv h peer Hf) as [[]|(req' & Hr' & Hin & Hns)].
  assert (req' = req) as -> by congruence. rewrite (Hd h) in Hf by done. done.
Qed.

(** A request none of whose hashes is fetched may be replaced or deleted. *)
Lemma inv_request_gone pend wl wt ad fe rq al peer :
  inv pend wl wt ad fe rq al -> (forall h, fe !! h <> Some peer) -> inv pend wl wt ad fe (delete peer rq) al.
Proof.
  intros [H1 H2 H3 H4 H5 H6] Hn. split; try done.
  - intros h p Hf. destruct (H2 h p Hf) as [?|(req & Hr & ?)]; [by left|]. right. exists req.
    rewrite lookup_delete_ne; [done|]. intros <-. by apply (Hn h).
  - intros p req [_ ?]%lookup_delete_Some. by apply (H6 p).
Qed.

Lemma inv_request_set pend wl wt ad fe rq al peer st t :
  inv pend wl wt ad fe rq al -> (forall h, fe !! h <> Some peer) -> inv pend wl wt ad fe (<[peer := mkReq [] st t]> rq) al.
Proof.
  intros [H1 H2 H3 H4 H5 H6] Hn. split; try done.
  - intros h p Hf. destruct (H2 h p Hf) as [?|(req & Hr & ?)]; [by left|]. right. exists req.
    rewrite lookup_insert_ne; [done|]. intros <-. by apply (Hn h).
  - intros p req. rewrite lookup_insert_Some. intros [[<- <-]|[_ Hr]]; [|by apply (H6 p)].
    split; [simpl; lia|apply NoDup_nil_2].
Qed.

Lemma givenUp_snoc peer req done_ h f :
  (h ∈ stolen req \/ fetching f !! h = None) -> givenUp peer req done_ f -> givenUp peer req (done_ ++ [h]) f.
Proof.
  intros Hh (Hinv & Hr & Hd). split_and!; [done|done|].
  intros h' [?| ->%list_elem_of_singleton]%elem_of_app Hns; [auto|]. by destruct Hh.
Qed.

Lemma givenUp_step peer req done_ h f f' :
  givenUp peer req done_ f -> fetcher_inv f' -> requests f' = requests f -> fetching f' = delete h (fetching f) ->
  givenUp peer req (done_ ++ [h]) f'.
Proof.
  intros (Hinv & Hr & Hd) Hinv' Hrq Hfe. split_and!; [done|by rewrite Hrq|].
  intros h' Hin Hns. rewrite Hfe. at_key h h'; [done|]. apply Hd; [|done].
  apply elem_of_app in Hin as [?| ->%list_elem_of_singleton]; done.
Qed.

Lemma dropHash_ok peer req done_ h f :
  givenUp peer req done_ f ->
  givenUp peer req (done_ ++ [h]) (dropHash peer req f h) /\ out (dropHash peer req f h) = out f.
Proof.
  intros Hg. unfold dropHash. case_decide as Hst; [split; [apply givenUp_snoc; eauto|done]|].
  pose proof (inv_alt_alter _ _ _ _ _ _ _ h (fun s => s ∖ {[peer]}) (proj1 Hg)) as Hi.
  set (alts := alter _ h (alternates f)) in *.
  destruct (alts !! h) as [[s|]|] eqn:Hal; [case_decide|..].
  all: split; [|done]; eapply (givenUp_step _ _ _ h); [exact Hg| |done|done].
  - apply (inv_unfetch Hi).
  - by apply (inv_unfetch_queue Hi h s).
  - apply (inv_unfetch Hi).
  - apply (inv_unfetch Hi).
Qed.

Lemma onDrop_ok c o peer f : fetcher_ok f -> exists f', onDrop c o peer f = Done f' /\ fetcher_ok f'.
Proof.
  intros [Hinv Hout]. unfold onDrop. destruct (requests f !! peer) as [req|] eqn:Hr; [|by exists f].
  assert (Hfold : forall hs, givenUp peer req hs (foldl (dropHash peer req) f hs) /\ out (foldl (dropHash peer req) f hs) = out f).
  { induction hs as [|h hs [IH1 IH2]] using rev_ind; [simpl; split; [split_and!; [done|done|set_solver]|done]|].
    rewrite foldl_app. cbn [foldl]. destruct (dropHash_ok peer req hs h _ IH1). split; [done|congruence]. }
  destruct (Hfold (hashes req)) as [Hg Ho]. set (f1 := foldl _ f _) in *.
  destruct (scheduleFetches_ok c o None (set_requests (delete peer (requests f1)) f1)) as (f2 & -> & ? & _).
  { split; [|by cbn; rewrite Ho]. apply inv_request_gone; [apply Hg|exact (givenUp_all peer req f1 Hg)]. }
  cbn [mbind outcome_bind]. eauto.
Qed.

(** A timeout panics exactly at a hash that is fetched and queued at once. *)
Lemma timeoutHash_ok peer req done_ h f :
  givenUp peer req done_ f ->
  match timeoutHash peer req f h with
  | Done f' => givenUp peer req (done_ ++ [h]) f' /\ out f' = out f
               /\ (forall h', h' <> h -> announced f' !! h' = announced f !! h')
  | Panic => (h ∉ stolen req) /\ is_Some (announced f !! h)
  | Stuck => False
  end.
Proof.
  intros Hg. unfold timeoutHash. case_decide as Hst; [split_and!; [apply givenUp_snoc; eauto|done|done]|].
  destruct (announced f !! h) as [s0|] eqn:Had; [eauto|].
  destruct (alternates f !! h) as [[s|]|] eqn:Hal; cbn; [rewrite lookup_insert_eq|rewrite Had|rewrite Had].
  1: case_decide.
  all: split_and!; [eapply (givenUp_step _ _ _ h); [exact Hg| |done|done]|done|].
  - replace (delete h (<[h := s]> (announced f))) with (delete h (announced f)) by (by rewrite delete_insert_eq).
    apply (inv_dequeue (inv_unfetch (proj1 Hg) h)).
  - cbn. intros h' Hne. by rewrite lookup_delete_ne, lookup_insert_ne by done.
  - cbn. rewrite insert_insert_eq. by apply (inv_unfetch_queue (proj1 Hg) h s).
  - cbn. intros h' Hne. by rewrite !lookup_insert_ne by done.
  - apply (inv_unfetch (proj1 Hg)).
  - done.
  - apply (inv_unfetch (proj1 Hg)).
  - done.
Qed.

Lemma timeoutPeer_ok c f peer :
  fetcher_ok f ->
  match timeoutPeer c f peer with Done f' => fetcher_ok f' | Panic => True | Stuck => False end.
Proof.
  intros [Hinv Hout]. unfold timeoutPeer. destruct (requests f !! peer) as [req|] eqn:Hr; [|done].
  case_decide; [|done].
  assert (Hfold : forall hs done_ g, givenUp peer req done_ g ->
    match fold_outcome (timeoutHash peer req) hs g with
    | Done g' => givenUp peer req (done_ ++ hs) g' /\ out g' = out g | Panic => True | Stuck => False end).
  { induction hs as [|h hs IH]; intros done_ g Hg; cbn [fold_outcome]; [by rewrite app_nil_r|].
    pose proof (timeoutHash_ok peer req done_ h g Hg) as Ht. destruct (timeoutHash peer req g h) as [g1| |]; [|done..].
    destruct Ht as (Hg1 & Ho & _). specialize (IH _ g1 Hg1).
    destruct (fold_outcome _ hs g1) as [g2| |]; [|done..]. rewrite <-(assoc_L (++)) in IH. destruct IH. split; [done|congruence]. }
  specialize (Hfold (hashes req) [] f). cbn [app] in Hfold.
  destruct (fold_outcome _ (hashes req) f) as [g| |]; [|done|apply Hfold; split_and!; [done|done|set_solver]].
  destruct Hfold as [Hg Ho]; [split_and!; [done|done|set_solver]|]. cbn [mbind outcome_bind].
  split; [|by cbn; rewrite Ho]. apply inv_request_set; [apply Hg|exact (givenUp_all peer req g Hg)].
Qed.

Lemma onTimeout_ok c c' o f :
  fetcher_ok f -> match onTimeout c c' o f with Done f' => fetcher_ok f' | Panic => True | Stuck => False end.
Proof.
  intros Hf. unfold onTimeout.
  assert (Hfold : forall ps g, fetcher_ok g ->
    match fold_outcome (timeoutPeer c) ps g with Done g' => fetcher_ok g' | Panic => True | Stuck => False end).
  { induction ps as [|p ps IH]; intros g Hg; cbn [fold_outcome]; [done|].
    pose proof (timeoutPeer_ok c g p Hg) as Hp. destruct (timeoutPeer c g p) as [g1| |]; [by apply IH|done..]. }
  specialize (Hfold (ordP o (dom (requests f))) f Hf).
  destruct (fold_outcome _ _ f) as [g| |]; [|done..]. cbn [mbind outcome_bind].
  destruct (scheduleFetches_ok c' o None g Hfold) as (g2 & -> & ? & _). done.
Qed.

(** ** Reachable states *)

Definition fetcher_step (f : FileDataFetcher) (e : event) (f' : FileDataFetcher) : Prop :=
  event_ok e /\ exists c c' o, order_ok o /\ loopStep c c' o e f = Done f'.

Definition fetcher_reachable := reachable (fun f => f = NewFdFetcher) fetcher_step.

Lemma fetcher_reachable_ok f : fetcher_reachable f -> fetcher_ok f.
Proof.
  apply reachable_inv; [intros ? ->; split; [apply fetcher_inv_init|apply Forall_nil_2]|].
  intros g e g' Hg (He & c & c' & o & _ & Hstep). destruct e as [ann| | |d|peer]; simpl in *.
  - destruct (onNotify_ok c o ann g Hg He) as (? & ? & ?). congruence.
  - destruct (onWait_ok c o g Hg) as (? & ? & ?). congruence.
  - pose proof (onTimeout_ok c c' o g Hg) as Ht. by rewrite Hstep in Ht.
  - destruct (onDelivery_ok c o d g Hg He) as (? & ? & ?). congruence.
  - destruct (onDrop_ok c o peer g Hg) as (? & ? & ?). congruence.
Qed.

(** ** Properties *)

(** C3: in every reachable state a hash has alternates exactly while it is
    fetched; whoever it is fetched from has a request in flight that lists it;
    the waiting list and the waiting times have the same hashes; a waiting hash
    is not queued; a hash fetched with known alternates is not queued; and
    every request ever sent asks one peer for 1 to 256 distinct hashes. *)
Theorem fetcher_invariant f :
  fetcher_reachable f ->
  dom (alternates f) = dom (fetching f)
  /\ (forall h p, fetching f !! h = Some p ->
        exists req, requests f !! p = Some req /\ h ∈ hashes req /\ h ∉ stolen req)
  /\ dom (waittime f) = dom (waitlist f)
  /\ (forall h, is_Some (waitlist f !! h) -> announced f !! h = None)
  /\ (forall h s, alternates f !! h = Some (Some s) -> announced f !! h = None)
  /\ Forall (fun a => match a with
                      | FetchFds _ hs => (0 < length hs <= maxFdRetrievals)%nat /\ NoDup hs
                      | DropPeer _ => True
                      end) (out f).
Proof.
  intros [[H1 H2 H3 H4 H5 H6] Hout]%fetcher_reachable_ok. split_and!; [..|done].
  - apply set_eq. intros h. by rewrite !elem_of_dom.
  - intros h p Hf. by destruct (H2 h p Hf) as [[]|?].
  - apply set_eq. intros h. by rewrite !elem_of_dom.
  - intros h Hw. by apply H4.
  - done.
Qed.

(** In a reachable state no iteration of the loop panics, whatever is
    announced, delivered or dropped and in whatever order maps are ranged over,
    with the exception of the timeout case. *)
Theorem loop_panics_only_on_timeout f e c c' o :
  fetcher_reachable f -> event_ok e -> e <> EvTimeout -> exists f', loopStep c c' o e f = Done f'.
Proof.
  intros Hf%fetcher_reachable_ok He Hne. destruct e as [ann| | |d|peer]; simpl in *; [..|done| |].
  - destruct (onNotify_ok c o ann f Hf He) as (? & ? & _). eauto.
  - destruct (onWait_ok c o f Hf) as (? & ? & _). eauto.
  - destruct (onDelivery_ok c o d f Hf He) as (? & ? & _). eauto.
  - destruct (onDrop_ok c o peer f Hf) as (? & ? & _). eauto.
Qed.

(** A run that ends in the timeout panic, with the clock in milliseconds.
    Peer A announces a hash, is asked for it and does not answer; peer B
    announces the hash while it waits to be asked again; A is dropped, which
    makes the fetcher ask A again, because the timed-out hash is still listed
    under A; the waiting time of B's announcement runs out, so the hash is
    queued while it is fetched; and the second request to A times out. *)
Definition sampleOrder : order := mkOrd elements elements.
Definition at_ms (t : Z) : clock := mkClock (fun _ => t * ms) (fun _ => t * ms) (t * ms).
Definition peerA : Peer := [65].
Definition peerB : Peer := [66].
Definition hash7 : Hash := replicate 32 7.

Definition crashRun : list (Z * event) :=
  [(0, EvNotify (mkAnn peerA [hash7] [Some 10]));
   (500, EvWait);
   (5500, EvTimeout);
   (6000, EvNotify (mkAnn peerB [hash7] [Some 10]));
   (6100, EvDrop peerA);
   (6500, EvWait)].

Definition runEvents (l : list (Z * event)) (f : FileDataFetcher) : outcome FileDataFetcher :=
  fold_outcome (fun f '(t, e) => loopStep (at_ms t) (at_ms t) sampleOrder e f) l f.

Lemma sampleOrder_ok : order_ok sampleOrder.
Proof. split; intros; reflexivity. Qed.

Lemma runEvents_reachable l : forall f f',
  Forall (fun te => event_ok te.2) l -> fetcher_reachable f -> runEvents l f = Done f' -> fetcher_reachable f'.
Proof.
  unfold runEvents. induction l as [|[t e] l IH]; intros f f' Hl Hf Hrun; simpl in Hrun; [by injection Hrun as <-|].
  apply Forall_cons in Hl as [He Hl]. destruct (loopStep _ _ _ e f) as [g| |] eqn:Hs; [|done..].
  eapply (IH g); [done| |done]. eapply reach_step; [exact Hf|]. split; [exact He|].
  eexists _, _, _. split; [apply sampleOrder_ok|exact Hs].
Qed.

(** The run ends with the timeout due at 11.1 seconds, and that panics. *)
Definition crashes : bool :=
  match runEvents crashRun NewFdFetcher with
  | Done f =>
      if decide (timeoutTimer f = Some (11100 * ms))
      then match loopStep (at_ms 11100) (at_ms 11100) sampleOrder EvTimeout f with Panic => true | _ => false end
      else false
  | _ => false
  end.

Lemma crashRun_panics : crashes = true.
Proof. vm_compute. reflexivity. Qed.

(** The timeout case can panic: a state is reachable, through events that
    are each due by the fetcher's own timers, in which the timeout of a request
    finds its hash queued already. *)
Theorem timeout_panic_reachable :
  exists f, fetcher_reachable f /\ timeoutTimer f = Some (11100 * ms)
    /\ loopStep (at_ms 11100) (at_ms 11100) sampleOrder EvTimeout f = Panic.
Proof.
  pose proof crashRun_panics as Hc. unfold crashes in Hc.
  destruct (runEvents crashRun NewFdFetcher) as [f| |] eqn:Hrun; [|discriminate Hc..].
  exists f. split; [eapply runEvents_reachable; [|apply reach_init; reflexivity|exact Hrun]; repeat constructor|].
  destruct (decide (timeoutTimer f = _)) as [Ht|]; [|discriminate Hc].
  destruct (loopStep _ _ _ _ f); [discriminate Hc|split; [exact Ht|reflexivity]|discriminate Hc].
Qed.

(** *** What a delivery forgets *)

Definition slots_free (h : Hash) (m : slotMap) : Prop := forall p s, m !! p = Some s -> s !! h = None.

Lemma forget_frees o metas i h m m' acts :
  order_ok o -> forget o metas i h m = Done (m', acts) ->
  slots_free h m' /\ forall h', slots_free h' m -> slots_free h' m'.
Proof.
  intros [Ho _] Hf. unfold forget in Hf.
  assert (Hfold : forall ps m0 acts0, fold_outcome (forgetPeer metas i h) ps (m0, acts0) = Done (m', acts) ->
    (forall p s, m0 !! p = Some s -> p ∈ ps \/ s !! h = None) ->
    slots_free h m' /\ forall h', slots_free h' m0 -> slots_free h' m').
  { induction ps as [|p ps IH]; intros m0 acts0 Hrun Hfree; cbn [fold_outcome] in Hrun.
    { injection Hrun as -> ->. split; [|done]. intros p s Hs. destruct (Hfree p s Hs) as [Hin|]; [|done].
      by apply not_elem_of_nil in Hin. }
    destruct (forgetPeer metas i h (m0, acts0) p) as [[m1 acts1]| |] eqn:Hp; [|done..].
    assert (Hm1 : m1 = match m0 !! p with None => m0 | Some s => if decide (delete h s = ∅) then delete p m0 else <[p := delete h s]> m0 end).
    { unfold forgetPeer in Hp. destruct (slotMeta p h m0); cbn [mbind outcome_bind] in Hp;
        [destruct (index metas _); [|done..]; cbn [mbind outcome_bind] in Hp|]; by injection Hp as <- _. }
    assert (Hsub : forall q s, m1 !! q = Some s ->
      exists s0, m0 !! q = Some s0 /\ s ⊆ s0 /\ (q = p -> s !! h = None)).
    { intros q s. subst m1. destruct (m0 !! p) as [s0|] eqn:Hp0; [case_decide|].
      - intros [Hne Hq]%lookup_delete_Some. exists s. split_and!; [done|done|congruence].
      - rewrite lookup_insert_Some. intros [[<- <-]|[Hne Hq]].
        + exists s0. split_and!; [done|apply delete_subseteq|intros _; apply lookup_delete_eq].
        + exists s. split_and!; [done|done|congruence].
      - intros Hq. exists s. split_and!; [done|done|]. intros ->. congruence. }
    destruct (IH m1 acts1 Hrun) as [H1 H2].
    { intros q s Hq. destruct (Hsub q s Hq) as (s0 & Hs0 & Hss & Hqp). destruct (decide (q = p)) as [->|Hne]; [by right; apply Hqp|].
      destruct (Hfree q s0 Hs0) as [Hin|Hn]; [left; set_solver|right]. by eapply lookup_weaken_None. }
    split; [done|]. intros h' Hh'. apply H2. intros q s Hq. destruct (Hsub q s Hq) as (s0 & Hs0 & Hss & _).
    eapply lookup_weaken_None; [by eapply Hh'|done]. }
  apply (Hfold _ _ _ Hf). intros p s Hp. left. rewrite Ho. apply elem_of_elements, elem_of_dom. eauto.
Qed.

(** No trace of the hash past the waiting list. *)
Definition forgotten (h : Hash) (f : FileDataFetcher) : Prop :=
  announced f !! h = None /\ fetching f !! h = None /\ alternates f !! h = None /\ slots_free h (announces f).

Lemma markStolen_frame d h f f' :
  markStolen d h f = Done f' ->
  waitlist f' = waitlist f /\ waittime f' = waittime f /\ announced f' = announced f /\ announces f' = announces f
  /\ fetching f' = fetching f /\ alternates f' = alternates f.
Proof. unfold markStolen. intros Hm. repeat case_match; simplify_eq; done. Qed.

Lemma emitAll_slots acts : forall f, announces (emitAll acts f) = announces f /\ waitslots (emitAll acts f) = waitslots f.
Proof. unfold emitAll. induction acts as [|a acts IH]; intros f; [done|]. cbn [foldl]. apply (IH (emit a f)). Qed.

Lemma deliverOne_forgets o d f f' i h :
  order_ok o -> deliverOne o d f (i, h) = Done f' ->
  waitlist f' !! h = None
  /\ (waitlist f !! h = None -> forgotten h f')
  /\ (forall h', waitlist f !! h' = None -> waitlist f' !! h' = None)
  /\ (forall h', forgotten h' f -> forgotten h' f').
Proof.
  intros Ho Hd. unfold deliverOne in Hd. destruct (waitlist f !! h) as [s|] eqn:Hw.
  - destruct (forget o (delMetas d) i h (waitslots f)) as [[m acts]| |]; [|done..]. cbn [mbind outcome_bind] in Hd.
    destruct (emitAll_frame acts (set_waitslots m f)) as (E1 & E2 & E3 & E4 & E5 & E6 & E7).
    destruct (emitAll_slots acts (set_waitslots m f)) as [E8 _]. injection Hd as <-. unfold forgotten. cbn.
    rewrite E1, E3, E4, E6, E8. cbn. split_and!; [apply lookup_delete_eq|done| |done].
    intros h' Hh'. by rewrite lookup_delete_None; right.
  - destruct (forget o (delMetas d) i h (announces f)) as [[m acts]| |] eqn:Hf; [|done..]. cbn [mbind outcome_bind] in Hd.
    destruct (forget_frees _ _ _ _ _ _ _ Ho Hf) as [F1 F2].
    destruct (emitAll_frame acts (set_announces m f)) as (E1 & E2 & E3 & E4 & E5 & E6 & E7).
    destruct (emitAll_slots acts (set_announces m f)) as [E8 _].
    destruct (markStolen d h _) as [g| |] eqn:Hm; [|done..]. apply markStolen_frame in Hm as (M1 & M2 & M3 & M4 & M5 & M6).
    cbn [mbind outcome_bind] in Hd. injection Hd as <-. unfold forgotten. cbn in *.
    rewrite M1, M3, M4, M5, M6, E1, E3, E4, E6, E8. split_and!; [done| |done|].
    + intros _. rewrite !lookup_delete_eq. done.
    + intros h' (A1 & A2 & A3 & A4). rewrite !lookup_delete_None. auto 6.
Qed.

(** A broadcast delivery takes every delivered hash out of the waiting
    list, and a delivered hash that was not waiting leaves no trace: it is
    neither queued, nor fetched, nor listed under any peer. *)
Theorem broadcast_delivery_forgets c o d f f' h :
  order_ok o -> delDirect d = false -> onDelivery c o d f = Done f' -> h ∈ delHashes d ->
  waitlist f' !! h = None /\ (waitlist f !! h = None -> forgotten h f').
Proof.
  intros Ho Hdir Hd Hin. unfold onDelivery in Hd.
  assert (Hfold : forall l g g', fold_outcome (deliverOne o d) l g = Done g' ->
    (forall h', waitlist g !! h' = None -> waitlist g' !! h' = None)
    /\ (forall h', forgotten h' g -> forgotten h' g')
    /\ (forall i h', (i, h') ∈ l -> waitlist g' !! h' = None /\ (waitlist g !! h' = None -> forgotten h' g'))).
  { induction l as [|[i x] l IH]; intros g g' Hrun; cbn [fold_outcome] in Hrun.
    { injection Hrun as <-. split_and!; [done|done|]. intros i h' Hx. by apply not_elem_of_nil in Hx. }
    destruct (deliverOne o d g (i, x)) as [g1| |] eqn:H1; [|done..].
    destruct (deliverOne_forgets _ _ _ _ _ _ Ho H1) as (D1 & D2 & D3 & D4). destruct (IH _ _ Hrun) as (I1 & I2 & I3).
    split_and!; [auto|auto|]. intros j h' [[= -> ->]|Hx]%elem_of_cons; [split; auto|].
    destruct (I3 j h' Hx). split; auto. }
  destruct (fold_outcome (deliverOne o d) (imap pair (delHashes d)) f) as [g| |] eqn:Hrun; [|done..].
  cbn [mbind outcome_bind] in Hd. rewrite Hdir in Hd. injection Hd as <-.
  apply list_elem_of_lookup in Hin as [i Hi].
  apply (Hfold _ _ _ Hrun) with (i := i). apply elem_of_lookup_imap_2. eauto.
Qed.

(** *** The cap on announcements *)

(** Only [peer] has announced anything, [D], and it all waits. *)
Definition onlyWaiting (peer : Peer) (D : gset Hash) (f : FileDataFetcher) : Prop :=
  alternates f = ∅ /\ announced f = ∅ /\ announces f = ∅
  /\ dom (waitlist f) = D /\ dom (default ∅ (waitslots f !! peer)) = D.

Lemma notifyOne_new c peer metas f D i h :
  onlyWaiting peer D f -> h ∉ D -> (i < length metas)%nat ->
  exists f', notifyOne c peer metas f (i, h) = Done f' /\ onlyWaiting peer ({[h]} ∪ D) f'.
Proof.
  intros (H1 & H2 & H3 & H4 & H5) Hh Hi. unfold notifyOne.
  destruct (index_in_range metas (Z.of_nat i)) as [meta ->]; [lia|].
  rewrite H1, H2, !lookup_empty. assert (Hw : waitlist f !! h = None) by (apply not_elem_of_dom; by rewrite H4).
  rewrite Hw. cbn [mbind outcome_bind]. eexists. split; [done|]. split_and!; try done; cbn.
  - by rewrite dom_insert_L, H4.
  - unfold addSlot. rewrite lookup_insert_eq. simpl. by rewrite dom_insert_L, H5.
Qed.

Lemma notify_new c peer metas hs : forall k f D,
  onlyWaiting peer D f -> NoDup hs -> (forall h, h ∈ hs -> h ∉ D) -> (k + length hs <= length metas)%nat ->
  exists f', fold_outcome (notifyOne c peer metas) (imap (fun i h => ((k + i)%nat, h)) hs) f = Done f'
    /\ onlyWaiting peer (list_to_set hs ∪ D) f'.
Proof.
  induction hs as [|h hs IH]; intros k f D Hf Hnd Hfresh Hk.
  { exists f. split; [done|]. by replace (list_to_set [] ∪ D) with D by set_solver. }
  apply NoDup_cons in Hnd as [Hh Hnd]. simpl in Hk. rewrite imap_cons. cbn [fold_outcome].
  destruct (notifyOne_new c peer metas f D (k + 0) h) as (f1 & -> & Hf1); [done|set_solver|lia|].
  destruct (IH (S k) f1 ({[h]} ∪ D)) as (f2 & Hf2 & Hw); [done|done|set_solver|lia|]. exists f2. split.
  - rewrite <-Hf2. f_equal. apply imap_ext. intros j x _. simpl. f_equal. lia.
  - replace (list_to_set (h :: hs) ∪ D) with (list_to_set hs ∪ ({[h]} ∪ D)) by set_solver. done.
Qed.

Lemma onlyWaiting_count peer D f : onlyWaiting peer D f -> slotCount peer (waitslots f) = size D /\ slotCount peer (announces f) = 0%nat.
Proof.
  intros (_ & _ & H3 & _ & H5). unfold slotCount. rewrite H3, <-H5, size_dom. by rewrite lookup_empty.
Qed.

(** An announcement of new hashes by such a peer. *)
Lemma onNotify_new c o peer hs metas f D :
  onlyWaiting peer D f -> NoDup hs -> (forall h, h ∈ hs -> h ∉ D) -> length metas = length hs ->
  Z.of_nat (size D) < maxFdAnnounces ->
  let want := Z.of_nat (size D) + Z.of_nat (length hs) in
  let kept := if decide (maxFdAnnounces < want) then take (Z.to_nat (want - maxFdAnnounces)) hs else hs in
  exists f', onNotify c o (mkAnn peer hs metas) f = Done f' /\ onlyWaiting peer (list_to_set kept ∪ D) f'.
Proof.
  intros Hf Hnd Hfresh Hl HD want kept. unfold onNotify. cbn [annOrigin annHashes annMetas].
  destruct (onlyWaiting_count _ _ _ Hf) as [-> ->]. rewrite Z.add_0_r. rewrite decide_False by lia. fold want.
  destruct (notify_new c peer (take (length kept) metas) kept 0 f D) as (f1 & Hf1 & Hw).
  { done. }
  { subst kept. case_decide; [|done]. apply (sublist_NoDup _ hs); [done|apply sublist_take]. }
  { intros h Hh. apply Hfresh. subst kept. case_decide; [|done]. by eapply subseteq_take. }
  { rewrite length_take. assert (length kept <= length hs)%nat by (subst kept; case_decide; rewrite ?length_take; lia). lia. }
  assert (Hm : (if decide (maxFdAnnounces < want)
      then hs ← subslice hs 0 (want - maxFdAnnounces); metas ← subslice metas 0 (want - maxFdAnnounces); Done (hs, metas)
      else Done (hs, metas)) = Done (kept, take (length kept) metas)).
  { subst kept. case_decide; [|by rewrite take_ge by lia]. unfold subslice.
    rewrite !decide_True by lia. cbn [mbind outcome_bind]. rewrite !Z.sub_0_r. change (Z.to_nat 0) with 0%nat.
    rewrite !drop_0, length_take. do 3 f_equal. lia. }
  rewrite Hm. cbn [mbind outcome_bind].
  replace (imap pair kept) with (imap (fun i h => ((0 + i)%nat, h)) kept) by done. rewrite Hf1. cbn [mbind outcome_bind].
  destruct Hf as (_ & _ & -> & _ & _). rewrite lookup_empty. cbn [is_Some].
  rewrite bool_decide_eq_false_2 by (by intros [? ?]). cbn [andb]. eexists. split; [done|]. destruct (bool_decide (waittime f = ∅) && negb (bool_decide (waittime f1 = ∅))); exact Hw.
Qed.

(** The cap of 4096 announcements per peer is not kept: a peer that has
    [n1] hashes waiting and announces [n2] new ones, with [n1 + n2] over the
    cap, gets the first [n1 + n2 - 4096] of them accepted, where [4096 - n1]
    are left; two announcements bring a peer up to twice the cap. *)
Theorem announce_cap_not_kept c o peer hs1 hs2 metas1 metas2 :
  NoDup (hs1 ++ hs2) -> length metas1 = length hs1 -> length metas2 = length hs2 ->
  Z.of_nat (length hs1) < maxFdAnnounces -> Z.of_nat (length hs2) <= maxFdAnnounces ->
  maxFdAnnounces < Z.of_nat (length hs1) + Z.of_nat (length hs2) ->
  exists f1 f2, onNotify c o (mkAnn peer hs1 metas1) NewFdFetcher = Done f1
    /\ onNotify c o (mkAnn peer hs2 metas2) f1 = Done f2
    /\ Z.of_nat (slotCount peer (waitslots f2))
       = Z.of_nat (length hs1) + (Z.of_nat (length hs1) + Z.of_nat (length hs2) - maxFdAnnounces).
Proof.
  intros (Hnd1 & Hdisj & Hnd2)%NoDup_app Hl1 Hl2 H1 H2 H3.
  destruct (onNotify_new c o peer hs1 metas1 NewFdFetcher ∅) as (f1 & Hf1 & Hw1);
    [split_and!; reflexivity|done|set_solver|done|rewrite size_empty; done|].
  rewrite size_empty in Hw1. rewrite decide_False in Hw1 by lia. rewrite union_empty_r_L in Hw1.
  destruct (onNotify_new c o peer hs2 metas2 f1 (list_to_set hs1)) as (f2 & Hf2 & Hw2);
    [done|done| |done|rewrite size_list_to_set; done|].
  { intros h Hh Hin. apply elem_of_list_to_set in Hin. by apply (Hdisj h). }
  exists f1, f2. split_and!; [done|done|]. destruct (onlyWaiting_count _ _ _ Hw2) as [-> _].
  rewrite size_list_to_set in * by done. rewrite decide_True by lia.
  rewrite size_union, !size_list_to_set, length_take.
  - lia.
  - done.
  - apply (sublist_NoDup _ hs2); [done|apply sublist_take].
  - intros h Ha Hb. apply elem_of_list_to_set in Ha, Hb. apply (Hdisj h Hb). by eapply subseteq_take.
Qed.

(** *** The wait timer *)

Lemma earliestOf_spec timeout now ts : forall e0,
  let e := earliestOf timeout now e0 ts in
  e <= e0 /\ (e = e0 \/ e ∈ ts) /\ forall t, t ∈ ts -> e <= t \/ timeout - (now - e) < fdGatherSlack.
Proof.
  induction ts as [|t ts IH]; intros e0; cbn [earliestOf]; [split_and!; [lia|by left|set_solver]|].
  case_decide; [case_decide|].
  - split_and!; [lia|right; set_solver|]. intros t' Ht'. by right.
  - destruct (IH t) as (H1 & H2 & H3). cbn zeta. split_and!; [lia|right; destruct H2 as [->|]; set_solver|].
    intros t' [->|Ht']%elem_of_cons; [left; lia|by apply H3].
  - destruct (IH e0) as (H1 & H2 & H3). cbn zeta. split_and!; [lia|destruct H2 as [->|]; [by left|right; set_solver]|].
    intros t' [->|Ht']%elem_of_cons; [left; lia|by apply H3].
Qed.

(** [rescheduleWait] never lets a waiting hash wait longer than its 500 ms,
    or than 100 ms from now when it is nearly due, and when the timer it sets
    runs out at least one waiting hash is expired for the check of the wait
    case. *)
Theorem wait_timer_correct c o f :
  order_ok o -> (forall h t, waittime f !! h = Some t -> t <= nowT c) -> waittime f <> ∅ ->
  exists T, waitTimer (rescheduleWait c o f) = Some T
    /\ (forall h t, waittime f !! h = Some t -> T <= Z.max (nowT c + fdGatherSlack) (t + fdArriveTimeout))
    /\ (exists h t, waittime f !! h = Some t /\ fdArriveTimeout < T - t + fdGatherSlack).
Proof.
  intros [_ Ho] Hpast Hne. unfold rescheduleWait. cbn [waitTimer set_waitTimer].
  set (ts := _ <$> ordH o (dom (waittime f))).
  assert (Hts : forall t, t ∈ ts <-> exists h, waittime f !! h = Some t).
  { intros t. subst ts. rewrite list_elem_of_fmap. setoid_rewrite (Ho (dom (waittime f))).
    setoid_rewrite elem_of_elements. setoid_rewrite elem_of_dom. split.
    - intros (h & -> & [t' Ht']). exists h. by rewrite Ht'.
    - intros [h Hh]. exists h. rewrite Hh. simpl. eauto. }
  destruct (earliestOf_spec fdArriveTimeout (nowT c) ts (nowT c)) as (H1 & H2 & H3).
  set (e := earliestOf _ _ _ ts) in *. eexists. split; [done|].
  assert (0 < fdGatherSlack) by (by vm_compute). split.
  - intros h t Ht. destruct (H3 t) as [Hle|Hle]; [apply Hts; eauto| |]; lia.
  - destruct H2 as [He|[h Hh]%Hts]; [|exists h, e; split; [done|lia]].
    apply map_choose in Hne as (h & t & Ht). exists h, t. split; [done|]. specialize (Hpast h t Ht).
    destruct (H3 t) as [Hle|Hle]; [apply Hts; eauto| |]; lia.
Qed.

(** ** The properties at concrete states *)

Lemma NewFdFetcher_reachable : fetcher_reachable NewFdFetcher.
Proof. by apply reach_init. Qed.

Definition waitingState : FileDataFetcher :=
  mkF {[hash7 := {[peerA]}]} {[hash7 := 0]} {[peerA := {[hash7 := Some 10]}]} ∅ ∅ ∅ ∅ ∅ (Some (500 * ms)) None [].

Lemma waitingState_reachable : fetcher_reachable waitingState.
Proof.
  apply (reach_step _ _ NewFdFetcher (EvNotify (mkAnn peerA [hash7] [Some 10])) _ NewFdFetcher_reachable).
  split; [reflexivity|]. exists (at_ms 0), (at_ms 0), sampleOrder. split; [apply sampleOrder_ok|].
  vm_compute. reflexivity.
Qed.

Lemma fetcher_invariant_witness : dom (waittime waitingState) = dom (waitlist waitingState).
Proof. destruct (fetcher_invariant waitingState waitingState_reachable) as (_ & _ & H & _). exact H. Defined.

Lemma loop_panics_only_on_timeout_witness :
  exists f', loopStep (at_ms 500) (at_ms 500) sampleOrder EvWait waitingState = Done f'.
Proof. apply loop_panics_only_on_timeout; [apply waitingState_reachable|exact I|discriminate]. Defined.

Lemma broadcast_delivery_forgets_witness :
  exists f', onDelivery (at_ms 100) sampleOrder (mkDel peerB [hash7] [10] false) waitingState = Done f'
    /\ waitlist f' !! hash7 = None.
Proof.
  destruct (onDelivery (at_ms 100) sampleOrder (mkDel peerB [hash7] [10] false) waitingState) as [f'| |] eqn:Hd;
    [|vm_compute in Hd; discriminate Hd..].
  exists f'. split; [reflexivity|].
  apply (broadcast_delivery_forgets (at_ms 100) sampleOrder (mkDel peerB [hash7] [10] false) waitingState f' hash7);
    [apply sampleOrder_ok|reflexivity|exact Hd|apply list_elem_of_here].
Defined.

Definition numbered (lo n : Z) : list Hash := be_of_Z 32 <$> seqZ lo n.

Lemma numbered_NoDup : NoDup (numbered 0 4095 ++ numbered 4095 2).
Proof.
  unfold numbered. rewrite <-fmap_app. change 4095 with (0 + 4095) at 2. rewrite <-seqZ_app by lia.
  apply NoDup_fmap_2_strong; [|apply NoDup_seqZ]. intros x y Hx%elem_of_seqZ Hy%elem_of_seqZ Heq.
  apply (be_of_Z_inj 32); [lia..|done].
Qed.

Lemma length_numbered lo n : 0 <= n -> length (numbered lo n) = Z.to_nat n.
Proof. intros. unfold numbered. by rewrite length_fmap, length_seqZ. Qed.

Lemma announce_cap_not_kept_witness :
  exists f1 f2,
    onNotify (at_ms 0) sampleOrder (mkAnn peerA (numbered 0 4095) (replicate 4095 None)) NewFdFetcher = Done f1
    /\ onNotify (at_ms 0) sampleOrder (mkAnn peerA (numbered 4095 2) [None; None]) f1 = Done f2
    /\ Z.of_nat (slotCount peerA (waitslots f2))
       = Z.of_nat (length (numbered 0 4095)) + (Z.of_nat (length (numbered 0 4095)) + Z.of_nat (length (numbered 4095 2)) - maxFdAnnounces).
Proof.
  apply announce_cap_not_kept;
    [apply numbered_NoDup|rewrite length_replicate, length_numbered by lia; reflexivity|reflexivity
    |rewrite length_numbered by lia; reflexivity|rewrite length_numbered by lia; discriminate
    |rewrite !length_numbered by lia; reflexivity].
Defined.

Lemma wait_timer_correct_witness :
  exists T, waitTimer (rescheduleWait (at_ms 20) sampleOrder waitingState) = Some T.
Proof.
  destruct (wait_timer_correct (at_ms 20) sampleOrder waitingState sampleOrder_ok) as (T & HT & _).
  - intros h t Ht. cbn in Ht. apply lookup_singleton_Some in Ht as [_ <-]. cbn. vm_compute. discriminate.
  - apply map_non_empty_singleton.
  - exists T. exact HT.
Defined.
