(* ===== verification/Intake.v ===== *)
(** * From a peer's message to the pool and the fetcher

    [FileDataFetcher.Notify] and [Enqueue] ([eth/fetcher/fileData_fetcher.go])
    and [ethHandler.Handle] ([eth/handler_eth.go]), with the pool's [Add] and
    [Has] as the callbacks [newHandler] ([eth/handler.go]) gives the fetcher.
    What is sent to the fetcher's loop is the event it will handle
    ([Fetcher.event]); the channel's quit case is left out. *)

From S2P Require Import Prelude Bytes DAType FilePool Fetcher.

Local Open Scope Z_scope.

Section Intake.
Context `{kzg : KZG} `{crypto : Crypto} `{sdk : SDK} `{codec : !DACodec}.

(** The loop over the announced hashes. *)
Definition notifyScan (fp : FilePool) (sizes : list Z) (st : list Hash * list fdMetadata) (ih : nat * Hash)
  : outcome (list Hash * list fdMetadata) :=
  let '(uh, um) := st in
  let '(i, hash) := ih in
  if Has fp hash then Done (uh, um)
  else size ← index sizes (Z.of_nat i); Done (uh ++ [hash], um ++ [Some size]).

(** [Notify]: [None] when every hash is known.  [sizes[i]] is read for every
    unknown hash. *)
Definition Notify (fp : FilePool) (peer : Peer) (sizes : list Z) (hs : list Hash) : outcome (option fdAnnounce) :=
  '(unknownHashes, unknownMetas) ←
    fold_outcome (notifyScan fp sizes) (imap pair hs) ([], []);
  Done (if decide (length unknownHashes = 0)%nat then None else Some (mkAnn peer unknownHashes unknownMetas)).

(** [da.Size()] *)
Definition Size (d : DA) : Z := u64 (Z.of_nat (length (default [] (encodeDA d)))).

(** The loop over what [addFds] answered for one batch: an entry is read from
    the batch for every error. *)
Definition enqueueErrs (batch : list (option DA)) (errs : list (option poolErr)) (st : list Hash * list Z) : outcome (list Hash * list Z) :=
  fold_outcome (fun '(addedH, metas) '(j, _) =>
    fd ← index batch (Z.of_nat j);
    match fd with
    | None => Panic
    | Some fd => Done (addedH ++ [TxHash fd], metas ++ [u32 (Size fd)])
    end) (imap pair errs) st.

(** The batches of at most 128 records. *)
Fixpoint enqueueFrom (fuel : nat) (fs : fsAnswers) (now : nat -> nat -> time) (b : nat) (fds : list (option DA))
    (fp : FilePool) (st : list Hash * list Z) : outcome (FilePool * (list Hash * list Z)) :=
  match fuel with
  | O => Stuck
  | S fuel =>
      if decide (length fds = 0)%nat then Done (fp, st)
      else
        let batch := take 128 fds in
        '(fp, errs) ← Add fs (now b) fp batch false;
        st ← enqueueErrs batch errs st;
        enqueueFrom fuel fs now (S b) (drop 128 fds) fp st
  end.

Definition Enqueue (fs : fsAnswers) (now : nat -> nat -> time) (fp : FilePool) (peer : Peer) (fds : list (option DA)) (direct : bool)
  : outcome (FilePool * fdDelivery) :=
  '(fp, (addedH, metas)) ← enqueueFrom (S (length fds)) fs now 0 fds fp ([], []);
  Done (fp, mkDel peer addedH metas direct).

(** ** [ethHandler.Handle] *)

Inductive ethPacket :=
| FileDataPacket (fds : list (option DA))
| NewPooledFileDataHashesPacket67 (hs : list Hash)
| NewPooledFileDataHashesPacket68 (sizes : list Z) (hs : list Hash)
| PooledFileDataResponse (fds : list (option DA))
| FileDatasResponse (raw : list Z)
| otherPacket.

(** [rlp.DecodeBytes] of a batch: the encoded records it leaves in the target,
    also when it fails. *)
Context (decodeBatch : list Z -> outcome (list (list Z))).

Definition HandlePacket (fs : fsAnswers) (now : nat -> nat -> time) (fp : FilePool) (peer : Peer) (packet : ethPacket)
  : outcome (FilePool * option event) :=
  match packet with
  | FileDataPacket fds | PooledFileDataResponse fds =>
      '(fp, d) ← Enqueue fs now fp peer fds true; Done (fp, Some (EvDelivery d))
  | NewPooledFileDataHashesPacket67 hs =>
      a ← Notify fp peer [] hs; Done (fp, option_map EvNotify a)
  | NewPooledFileDataHashesPacket68 sizes hs =>
      a ← Notify fp peer sizes hs; Done (fp, option_map EvNotify a)
  | FileDatasResponse raw =>
      fileDatas ← decodeBatch raw;
      '(fp, d) ← Enqueue fs now fp peer (DecodeBytesDA <$> fileDatas) true; Done (fp, Some (EvDelivery d))
  | otherPacket => Done (fp, None)
  end.

(** ** [Notify] *)

Lemma Notify_fold fp sizes hs : forall k uh um,
  length um = length uh -> (k + length hs <= length sizes)%nat ->
  exists uh' um', fold_outcome (notifyScan fp sizes) (imap (fun i h => ((k + i)%nat, h)) hs) (uh, um) = Done (uh', um')
    /\ length um' = length uh' /\ uh' = uh ++ filter (fun h => Has fp h = false) hs.
Proof.
  induction hs as [|h hs IH]; intros k uh um Hl Hk.
  { exists uh, um. rewrite app_nil_r. done. }
  simpl in Hk. rewrite imap_cons. cbn [fold_outcome].
  replace (imap _ hs) with (imap (fun i h => ((S k + i)%nat, h)) hs) by (apply imap_ext; intros; simpl; f_equal; lia).
  unfold notifyScan at 1. destruct (Has fp h) eqn:Hh.
  - rewrite filter_cons_False by congruence. by apply IH; [|lia].
  - destruct (index_in_range sizes (Z.of_nat (k + 0))) as [sz ->]; [lia|]. cbn [mbind outcome_bind].
    destruct (IH (S k) (uh ++ [h]) (um ++ [Some sz])) as (uh' & um' & -> & Hl' & ->); [rewrite !length_app; simpl; lia|lia|].
    rewrite filter_cons_True by done. eexists _, _. split; [done|]. split; [done|]. by rewrite <-(assoc_L (++)).
Qed.

(** An announcement with a size for each hash never panics in [Notify]; what
    reaches the fetcher is exactly the hashes the pool does not have, in order,
    with a size each, and nothing when there are none. *)
Theorem Notify_correct fp peer sizes hs :
  length sizes = length hs ->
  let unknown := filter (fun h => Has fp h = false) hs in
  exists a, Notify fp peer sizes hs = Done a
    /\ match a with
       | None => unknown = []
       | Some ann => annOrigin ann = peer /\ annHashes ann = unknown /\ event_ok (EvNotify ann)
       end.
Proof.
  intros Hl unknown. unfold Notify.
  destruct (Notify_fold fp sizes hs 0 [] []) as (uh & um & Hf & Hlen & Huh); [done|simpl; lia|].
  change (imap pair hs) with (imap (fun i h => ((0 + i)%nat, h)) hs). rewrite Hf. cbn [mbind outcome_bind].
  simpl in Huh. change (uh = unknown) in Huh. subst uh. case_decide as Hz; eexists; (split; [done|]).
  - by apply nil_length_inv.
  - done.
Qed.

(** An announcement without sizes of hashes the pool has goes nowhere. *)
Lemma Notify_known fp peer hs : filter (fun h => Has fp h = false) hs = [] -> Notify fp peer [] hs = Done None.
Proof.
  intros Hu. unfold Notify.
  assert (Hfold : forall l : list (nat * Hash), filter (fun h => Has fp h = false) l.*2 = [] ->
    fold_outcome (notifyScan fp []) l ([], []) = Done ([], [])).
  { induction l as [|[i h] l IH]; intros Hl; [done|]. rewrite fmap_cons in Hl. cbn [fold_outcome fst snd] in *.
    unfold notifyScan at 1. destruct (Has fp h) eqn:Hh; [rewrite filter_cons_False in Hl by (simpl; congruence); by apply IH|].
    by rewrite filter_cons_True in Hl. }
  by rewrite Hfold by (by rewrite imap_pair_snd).
Qed.

(** An eth/67 announcement carries no sizes, and [Notify] indexes them: the
    first hash the pool does not have makes it panic. *)
Lemma Notify_unknown fp peer hs : filter (fun h => Has fp h = false) hs <> [] -> Notify fp peer [] hs = Panic.
Proof.
  intros Hu. unfold Notify.
  assert (Hfold : forall l : list (nat * Hash), filter (fun h => Has fp h = false) l.*2 <> [] ->
    fold_outcome (notifyScan fp []) l ([], []) = Panic).
  { induction l as [|[i h] l IH]; intros Hl; [done|]. rewrite fmap_cons in Hl. cbn [fold_outcome fst snd] in *.
    unfold notifyScan at 1. destruct (Has fp h) eqn:Hh; [rewrite filter_cons_False in Hl by (simpl; congruence); by apply IH|].
    unfold index. rewrite decide_True by lia. rewrite lookup_nil. done. }
  rewrite Hfold; [done|]. by rewrite imap_pair_snd.
Qed.

Theorem announcement67_panics fs now fp peer hs :
  filter (fun h => Has fp h = false) hs <> [] ->
  HandlePacket fs now fp peer (NewPooledFileDataHashesPacket67 hs) = Panic.
Proof. intros Hu. cbn [HandlePacket]. by rewrite Notify_unknown. Qed.

(** ** [Enqueue] *)

Lemma enqueueErrs_short (batch : list DA) : forall (errs : list (option poolErr)) k st,
  (k + length errs <= length batch)%nat ->
  fold_outcome (fun '(addedH, metas) '(j, _) =>
    fd ← index (Some <$> batch) (Z.of_nat j);
    match fd with
    | None => Panic
    | Some fd => Done (addedH ++ [TxHash fd], metas ++ [u32 (Size fd)])
    end) (imap (fun i e => ((k + i)%nat, e)) errs) st
  = Done (st.1 ++ (TxHash <$> take (length errs) (drop k batch)), st.2 ++ ((fun d => u32 (Size d)) <$> take (length errs) (drop k batch))).
Proof.
  induction errs as [|e errs IH]; intros k [ah um] Hk; simpl in Hk.
  { simpl. by rewrite !app_nil_r. }
  rewrite imap_cons. cbn [fold_outcome]. rewrite Nat.add_0_r.
  destruct (lookup_lt_is_Some_2 batch k) as [d Hd]; [lia|].
  rewrite (index_nat _ k (Some d)) by (by rewrite list_lookup_fmap, Hd). cbn [mbind outcome_bind].
  replace (imap _ errs) with (imap (fun i e => ((S k + i)%nat, e)) errs) by (apply imap_ext; intros; simpl; f_equal; lia).
  rewrite IH by lia. rewrite (drop_S batch d k) by done. cbn [length take fst snd]. rewrite !fmap_cons.
  by rewrite <-!(assoc_L (++)).
Qed.

(** An answer longer than the batch is read past its end. *)
Lemma enqueueErrs_long (batch : list DA) errs st :
  (length batch < length errs)%nat -> enqueueErrs (Some <$> batch) errs st = Panic.
Proof.
  intros Hlt. unfold enqueueErrs. rewrite <-(take_drop (length batch) errs), imap_app, fold_outcome_app.
  change (imap pair (take (length batch) errs)) with (imap (fun i e => ((0 + i)%nat, e)) (take (length batch) errs)).
  rewrite enqueueErrs_short by (rewrite length_take; lia). cbn [mbind outcome_bind].
  rewrite length_take_le by lia.
  destruct (drop (length batch) errs) as [|e rest] eqn:Hd.
  { apply (f_equal length) in Hd. rewrite length_drop in Hd. simpl in Hd. lia. }
  rewrite imap_cons. cbn [fold_outcome]. unfold index. rewrite decide_True by lia.
  rewrite Nat2Z.id. cbn [compose]. rewrite Nat.add_0_r.
  rewrite (lookup_ge_None_2 (Some <$> batch)) by (rewrite length_fmap; lia). done.
Qed.

Lemma Add_errs_length fs now fp ds local fp' errs :
  Add fs now fp (Some <$> ds) local = Done (fp', errs) ->
  length errs = (length ds + length (invalidErrs local ds))%nat.
Proof.
  rewrite Add_eq. destruct (addFdsLocked fs now (diskAll fp ds) ds) as [fp1 results] eqn:Hadd.
  intros [= <- <-]. rewrite length_app. f_equal.
  assert (Hl : forall ds now fp fp1 results, addFdsLocked fs now fp ds = (fp1, results) -> length results = length ds).
  { clear. induction ds as [|d ds IH]; intros now fp fp1 results; cbn [addFdsLocked]; [by intros [= <- <-]|].
    destruct (add fs (now 0%nat) fp d) as [fp2 err]. destruct (addFdsLocked fs _ fp2 ds) as [fp3 es] eqn:He.
    intros [= <- <-]. simpl. f_equal. by eapply IH. }
  by eapply Hl.
Qed.

Definition valid (d : DA) : Prop := (validateFileDataSignature d false).2 = None.

Lemma invalidErrs_valid ds : Forall valid ds <-> invalidErrs false ds = [].
Proof.
  unfold invalidErrs, valid. induction ds as [|d ds IH]; [done|]. rewrite fmap_cons, Forall_cons, IH.
  destruct ((validateFileDataSignature d false).2) eqn:He; [rewrite filter_cons_True by eauto|rewrite filter_cons_False by (by intros [? ?])].
  - split; [intros [? _]; done|done].
  - tauto.
Qed.

Lemma enqueueErrs_batch batch errs st :
  length errs = length batch ->
  enqueueErrs (Some <$> batch) errs st = Done (st.1 ++ (TxHash <$> batch), st.2 ++ ((fun d => u32 (Size d)) <$> batch)).
Proof.
  intros Hl. unfold enqueueErrs. change (imap pair errs) with (imap (fun i e => ((0 + i)%nat, e)) errs).
  rewrite enqueueErrs_short by lia. by rewrite drop_0, take_ge by lia.
Qed.

Lemma enqueueFrom_eq fs now ds fuel : forall b fp st,
  (length ds < fuel)%nat ->
  match enqueueFrom fuel fs now b (Some <$> ds) fp st with
  | Done (fp', st') => Forall valid ds /\ st' = (st.1 ++ (TxHash <$> ds), st.2 ++ ((fun d => u32 (Size d)) <$> ds))
      /\ all fp' = foldl (admit_ (GlobalSlots (fpConfig fp))) (all fp) ds
  | Panic => ~ Forall valid ds
  | Stuck => False
  end.
Proof.
  revert ds. induction fuel as [|fuel IH]; intros ds b fp st Hf; [lia|]. cbn [enqueueFrom]. rewrite length_fmap.
  case_decide as Hz.
  { apply nil_length_inv in Hz as ->. split; [done|]. destruct st. simpl. by rewrite !app_nil_r. }
  rewrite <-fmap_take, <-fmap_drop.
  destruct (Add_all fs (now b) fp (take 128 ds) false) as (fp1 & errs & HA & Hall & Hcfg). rewrite HA. cbn [mbind outcome_bind].
  apply Add_errs_length in HA.
  assert (Hsplit : Forall valid ds <-> Forall valid (take 128 ds) /\ Forall valid (drop 128 ds)).
  { rewrite <-Forall_app. by rewrite take_drop. }
  destruct (invalidErrs false (take 128 ds)) as [|e es] eqn:Hi.
  - rewrite enqueueErrs_batch by (simpl in HA; lia). cbn [mbind outcome_bind]. apply invalidErrs_valid in Hi.
    specialize (IH (drop 128 ds) (S b) fp1 (st.1 ++ (TxHash <$> take 128 ds), st.2 ++ ((fun d => u32 (Size d)) <$> take 128 ds))).
    destruct (enqueueFrom fuel fs now (S b) _ fp1 _) as [[fp2 st2]| |].
    + destruct IH as (Hv & -> & Hp); [rewrite length_drop; lia|]. split; [by apply Hsplit|]. cbn [fst snd].
      rewrite <-!(assoc_L (++)), <-!fmap_app, take_drop. split; [done|]. by rewrite Hp, Hall, Hcfg, <-foldl_app, take_drop.
    + rewrite Hsplit. intros [_ Hv]. apply IH; [rewrite length_drop; lia|done].
    + apply IH. rewrite length_drop. lia.
  - rewrite enqueueErrs_long by (simpl in HA; lia). cbn [mbind outcome_bind].
    rewrite Hsplit. intros [Hv _]. apply invalidErrs_valid in Hv. congruence.
Qed.

(** [Enqueue] of records that are not nil succeeds exactly when every record
    passes validation; the records are then added one after the other, each
    unless its hash is known or the slots are used up, and the delivery lists
    every record's transaction hash and size, in order.  A single invalid record, from any peer, makes it
    panic, because the pool appends an error to its answer and the fetcher
    reads the batch at that index. *)
Theorem Enqueue_panics_iff_invalid fs now fp peer ds direct :
  match Enqueue fs now fp peer (Some <$> ds) direct with
  | Done (fp', d) => Forall valid ds /\ d = mkDel peer (TxHash <$> ds) ((fun d => u32 (Size d)) <$> ds) direct /\ event_ok (EvDelivery d)
      /\ all fp' = foldl (admit_ (GlobalSlots (fpConfig fp))) (all fp) ds
  | Panic => ~ Forall valid ds
  | Stuck => False
  end.
Proof.
  unfold Enqueue. rewrite length_fmap.
  pose proof (enqueueFrom_eq fs now ds (S (length ds)) 0 fp ([], []) ltac:(lia)) as He.
  destruct (enqueueFrom _ _ _ _ _ _ _) as [[fp' st]| |]; [|done..]. cbn [mbind outcome_bind].
  destruct He as (Hv & -> & Hall). simpl. split_and!; [done|done| |done]. by rewrite !length_fmap.
Qed.

(** A response with one entry, among its first 128, that does not decode as a record makes the
    handler panic: the nil record is handed to the pool. *)
Theorem undecodable_response_panics fs now fp peer raw fileDatas ds rest :
  decodeBatch raw = Done fileDatas -> DecodeBytesDA <$> fileDatas = (Some <$> ds) ++ None :: rest -> (length ds < 128)%nat ->
  HandlePacket fs now fp peer (FileDatasResponse raw) = Panic.
Proof.
  intros Hd Hraw Hl. cbn [HandlePacket]. rewrite Hd. cbn [mbind outcome_bind]. unfold Enqueue. rewrite Hraw. cbn [enqueueFrom].
  rewrite decide_False by (rewrite length_app; simpl; lia).
  replace (take 128 ((Some <$> ds) ++ None :: rest)) with ((Some <$> ds) ++ None :: take (128 - S (length ds)) rest).
  - by rewrite Add_nil.
  - rewrite take_app, length_fmap, (take_ge (Some <$> ds)) by (rewrite length_fmap; lia).
    replace (128 - length ds)%nat with (S (128 - S (length ds))) by lia. done.
Qed.

End Intake.

(** ** The properties at a concrete pool *)

Section intake_witnesses.
Import Sample PoolSample.

Lemma Notify_correct_witness :
  exists a, Notify pool0 peerA [10; 11] [hash7; hash7] = Done a /\ a <> None.
Proof.
  destruct (Notify_correct pool0 peerA [10; 11] [hash7; hash7] eq_refl) as (a & Ha & Hspec).
  exists a. split; [exact Ha|]. destruct a; [discriminate|]. discriminate Hspec.
Defined.

Lemma announcement67_panics_witness :
  HandlePacket (fun _ => Done []) fsFine (fun _ _ => 0) pool0 peerA (NewPooledFileDataHashesPacket67 [hash7]) = Panic.
Proof. apply announcement67_panics. discriminate. Defined.

Lemma undecodable_response_panics_witness :
  HandlePacket (fun raw => Done [raw]) fsFine (fun _ _ => 0) pool0 peerA (FileDatasResponse []) = Panic.
Proof. apply (undecodable_response_panics _ _ _ _ _ _ [[]] [] []); [reflexivity|reflexivity|simpl; lia]. Defined.

End intake_witnesses.
