(* ===== verification/RlpDA.v ===== *)
(** * The encoding of records

    The codec of [types.DA]: [DA.Encode] and [DA.Decode] of
    [core/types/file.go], and what [rlp.Encode], [Stream.Decode] and
    [rlp.DecodeBytes] do on a record where the journal and the packet handler
    call them.  The package [rlp] works on the reflected type of the record,
    [daType], and on its fields as values, [daVal]; unexported fields, as those
    of [time.Time], are not part of either.

    [rlpCodec] is the codec that [FilePool] and [Intake] are written against,
    and [rlpCodecLaws] shows what they rely on. *)

From S2P Require Import Prelude Bytes RlpRaw RlpEncode RlpDecode DAType FilePool.

Local Open Scope Z_scope.
Local Open Scope rlp_scope.

(** ** The digest in memory *)

(** [kzg.Digest] is a struct of the two coordinates, each of the array type
    [[4]uint64]. *)
Class KZGWords (kzg : KZG) := {
  digestWords : Digest -> list Z * list Z;
  digestOfWords : list Z -> list Z -> Digest
}.

Definition limbs (l : list Z) : Prop := length l = 4%nat /\ Forall in_u64 l.

Class KZGWordsLaws (kzg : KZG) (w : KZGWords kzg) (laws : KZGLaws kzg) := {
  digestWords_limbs d : limbs (digestWords d).1 /\ limbs (digestWords d).2;
  digestWords_ofWords x y : limbs x -> limbs y -> digestWords (digestOfWords x y) = (x, y);
  digestOfWords_words d : digest_ok d -> digestOfWords (digestWords d).1 (digestWords d).2 = d
}.

(** ** The record as a value *)

Definition digestType : rtype := TStruct [TArray 4 (TUint 64); TArray 4 (TUint 64)].

Definition daType : rtype := TStruct [
  TByteArray 20; TUint 64; TUint 64; TUint 64; TBytes; digestType; TSlice TBytes; TSlice TString; TByteArray 32;
  TByteArray 32; TUint 64; TStruct []; TStruct []; TBytes; TBytes; TBigPtr; TByteArray 32].

Definition uintOf (v : rval) : Z := match v with VUint z => z | _ => 0 end.
Definition bytesOf (v : rval) : list Z := match v with VBytes b => b | _ => [] end.

Section codec.
Context {kzg : KZG} {kw : KZGWords kzg}.

Definition digestVal (d : Digest) : rval :=
  VList [VList (VUint <$> (digestWords d).1); VList (VUint <$> (digestWords d).2)].

Definition daVal (d : DA) : rval := VList [
  VBytes (Sender d); VUint (Nonce d); VUint (Index d); VUint (Length d); VBytes (Data d); digestVal (Commitment d);
  VList (VBytes <$> SignData d); VList (VBytes <$> SignerAddr d); VBytes (DasKey d); VBytes (TxHash d); VUint (BlockNum d);
  VList []; VList []; VBytes (Proof d); VBytes (ClaimedValue d); VBig (NameSpaceID d); VBytes (Root d)].

(** The record whose exported fields were set; the times stay zero. *)
Definition valDA (v : rval) : option DA :=
  match v with
  | VList [VBytes sender; VUint nonce; VUint index; VUint len; VBytes data; VList [VList x; VList y]; VList signs; VList addrs;
           VBytes key; VBytes hash; VUint num; VList []; VList []; VBytes proof; VBytes value; VBig ns; VBytes root] =>
      Some (mkDA sender nonce index len data (digestOfWords (uintOf <$> x) (uintOf <$> y)) (bytesOf <$> signs) (bytesOf <$> addrs)
              key hash num 0 0 proof value ns root)
  | _ => None
  end.

(** ** [DA.Encode] and [DA.Decode] *)

Definition DA_Encode (f : DA) : res (list Z) := EncodeToBytes newEncBuffer (TPtr daType) (VPtr (Some (daVal f))).

(** The target is a new record at every call. *)
Definition DA_Decode (data : list Z) : res DA :=
  v <-- DecodeBytes data daType;
  match valDA v with Some d => ok d | None => err errIllTyped end.

(** [stream.Decode(fd)] of a stream without a limit, with the input behind the
    value. *)
Definition streamDA (s : list Z) : outcome (decoded DA) :=
  match streamDecode daType (Reset s 0) with
  | Done (inl e, _) => Done (if decide (e = errIOEOF) then DecEOF else DecErr)
  | Done (inr v, s) => Done (match valDA v with Some d => DecOk d (input s) | None => DecErr end)
  | Panic => Done DecPanic
  | Stuck => Stuck
  end.

#[export] Instance rlpCodec : DACodec := {|
  encodeDA d := match DA_Encode d with Done (inr bs) => Some bs | _ => None end;
  decodeDA s := match streamDA s with Done r => r | _ => DecPanic end;
  DecodeBytesDA s := match DA_Decode s with Done (inr d) => Some d | _ => None end
|}.

End codec.

(** ** The size of an encoding *)

(** A bound that needs no type, with nine bytes for every header. *)
Fixpoint weight (v : rval) : Z :=
  match v with
  | VBytes b => 9 + Z.of_nat (length b)
  | VBig (Some z) => 10 + Z.log2 (Z.abs z) `div` 8
  | VList l => 9 + foldr (fun v n => weight v + n) 0 l
  | VPtr (Some v) | VIface (Some (_, v)) => weight v
  | _ => 17
  end.

Lemma weight_pos v : 0 <= weight v.
Proof.
  induction v as [z|b|b|z|l IH| |v IH| |t v IH] using rval_rect_nested; simpl; try lia.
  - destruct z as [z|]; [|lia]. pose proof (Z.log2_nonneg (Z.abs z)). pose proof (Z.div_pos (Z.log2 (Z.abs z)) 8 ltac:(lia) ltac:(lia)). lia.
  - assert (0 <= foldr (fun v n => weight v + n) 0 l) by (induction IH; simpl; lia). lia.
Qed.

Lemma header_short s l n : Z.of_nat n < 2 ^ 64 -> (length (header s l n) <= 9)%nat.
Proof.
  intros Hn. unfold header. case_decide; simpl; [lia|]. rewrite length_bigBytes.
  pose proof (nbytes_u64 (Z.of_nat n) ltac:(split; lia)). lia.
Qed.

Lemma encStr_short b : Z.of_nat (length b) < 2 ^ 64 -> (length (encStr b) <= 9 + length b)%nat.
Proof.
  intros Hb. destruct b as [|x [|y b]]; unfold encStr; [| |rewrite length_app; pose proof (header_short 0x80 0xB7 (length (x :: y :: b)) Hb); lia].
  - simpl. lia.
  - case_decide; simpl; lia.
Qed.

Lemma bigBytes_weight z : 0 <= z -> Z.of_nat (length (bigBytes z)) <= 1 + Z.log2 (Z.abs z) `div` 8.
Proof.
  intros Hz. rewrite length_bigBytes, Z.abs_eq by done. unfold nbytes. pose proof (Z.log2_nonneg z).
  pose proof (Z.div_pos (Z.log2 z) 8 ltac:(lia) ltac:(lia)). case_decide; lia.
Qed.

(** As long as the bound is an [int], it bounds the encoding. *)
Lemma length_enc v : forall t, typed v t -> weight v < 2 ^ 63 -> Z.of_nat (length (enc v t)) <= weight v.
Proof.
  assert (forall l ts, Forall (fun v => forall t, typed v t -> weight v < 2 ^ 63 -> Z.of_nat (length (enc v t)) <= weight v) l ->
    typedElems l ts -> 9 + foldr (fun v n => weight v + n) 0 l < 2 ^ 63 ->
    Z.of_nat (length (encList (encElems l ts))) <= 9 + foldr (fun v n => weight v + n) 0 l) as Helems.
  { clear v. intros l ts Hl Ht Hw. assert (0 <= foldr (fun v n => weight v + n) 0 l /\
      Z.of_nat (length (encElems l ts)) <= foldr (fun v n => weight v + n) 0 l) as [_ Hlen].
    { revert ts Ht Hw. induction Hl as [|v l Hv Hl IH]; intros [|t ts] Ht Hw; try done. destruct Ht as [Ht Hts]. simpl in *.
      pose proof (weight_pos v). destruct (IH ts Hts ltac:(lia)). specialize (Hv t Ht ltac:(lia)). rewrite length_app. lia. }
    unfold encList. rewrite length_app. pose proof (header_short 0xC0 0xF7 (length (encElems l ts)) ltac:(lia)). lia. }
  induction v as [z|b|b|z|l IH| |v IH| |t' v IH] using rval_rect_nested; intros t Ht Hw; destruct t; try done;
    rewrite ?typed_slice, ?typed_array, ?typed_struct, ?enc_slice, ?enc_array, ?enc_struct in *; try (by apply Helems).
  all: try (by apply IH).
  all: cbn [enc weight] in *.
  - destruct Ht as [Hb Hz]. assert (in_u64 z) as Hu.
    { destruct Hz. split; [done|]. pose proof (Z.pow_le_mono_r 2 bits 64 ltac:(lia)). destruct Hb as [->|[->|[->| ->]]]; lia. }
    pose proof (nbytes_u64 z Hu) as Hn. pose proof (encStr_short (bigBytes z)) as Hs. rewrite length_bigBytes in Hs. lia.
  - destruct b; simpl; lia.
  - lia.
  - pose proof (encStr_short b). lia.
  - pose proof (encStr_short b). lia.
  - pose proof (encStr_short b). lia.
  - destruct z as [z|]; [|simpl; lia]. pose proof (weight_pos (VBig (Some z))). case_decide; [done|]. pose proof (bigBytes_weight z ltac:(lia)).
    pose proof (encStr_short (bigBytes z)). simpl in *. lia.
  - destruct Ht as [_ Ht]. by apply Helems.
Qed.

(** ** Records and values *)

Lemma storable_uints l : Forall in_u64 l -> storableElems (VUint <$> l) (replicate (length (VUint <$> l)) (TUint 64)).
Proof.
  induction 1 as [|z l Hz Hl IH]; [done|]. cbn [fmap list_fmap length replicate storableElems storable]. split; [|exact IH].
  split; [by right; right; right|exact Hz].
Qed.

Lemma storable_bytes t l : t = TBytes \/ t = TString -> Forall bytes_ok l ->
  storableElems (VBytes <$> l) (replicate (length (VBytes <$> l)) t).
Proof. intros Ht. induction 1; [done|]. split; [by destruct Ht as [-> | ->]|done]. Qed.

Lemma stored_uints (l : list _) : stored <$> (VUint <$> l) = VUint <$> l.
Proof. induction l as [|x l IH]; [done|]. cbn [fmap list_fmap]. f_equal. exact IH. Qed.

Lemma stored_bytes (l : list _) : stored <$> (VBytes <$> l) = VBytes <$> l.
Proof. induction l as [|x l IH]; [done|]. cbn [fmap list_fmap]. f_equal. exact IH. Qed.

Lemma uintOf_uints (l : list _) : uintOf <$> (VUint <$> l) = l.
Proof. induction l as [|x l IH]; [done|]. cbn [fmap list_fmap]. f_equal. exact IH. Qed.

Lemma bytesOf_bytes (l : list _) : bytesOf <$> (VBytes <$> l) = l.
Proof. induction l as [|x l IH]; [done|]. cbn [fmap list_fmap]. f_equal. exact IH. Qed.

Lemma typedElems_cons l t ts : typedElems l (t :: ts) -> exists v l', l = v :: l' /\ typed v t /\ typedElems l' ts.
Proof. destruct l as [|v l]; [done|]. intros []. eauto. Qed.

Lemma typedElems_nil l : typedElems l [] -> l = [].
Proof. by destruct l. Qed.

Lemma typed_uints l : typedElems l (replicate (length l) (TUint 64)) -> VUint <$> (uintOf <$> l) = l /\ Forall in_u64 (uintOf <$> l).
Proof.
  induction l as [|v l IH]; [done|]. intros [Hv Hl]. destruct (IH Hl) as [Hi Hf]. destruct v; try done. destruct Hv as [_ Hz].
  split; [cbn [fmap list_fmap]; f_equal; exact Hi|]. by constructor.
Qed.

Lemma typed_bytes t l : t = TBytes \/ t = TString -> typedElems l (replicate (length l) t) ->
  VBytes <$> (bytesOf <$> l) = l /\ Forall bytes_ok (bytesOf <$> l).
Proof.
  intros Ht. induction l as [|v l IH]; [done|]. intros [Hv Hl]. destruct (IH Hl) as [Hi Hf].
  destruct v; try (by destruct Ht; subst). assert (bytes_ok b) by (by destruct Ht; subst).
  split; [cbn [fmap list_fmap]; f_equal; exact Hi|]. by constructor.
Qed.

Ltac typed_fields H :=
  repeat match type of H with
  | typedElems _ (_ :: _) =>
      let v := fresh "v" in let l := fresh "l" in let Hv := fresh "Hv" in
      apply typedElems_cons in H as (v & l & -> & Hv & H)
  | typedElems _ [] => apply typedElems_nil in H as ->
  end.

Section laws.
Context {kzg : KZG} {kw : KZGWords kzg} {kl : KZGLaws kzg} {wl : KZGWordsLaws kzg kw kl}.

(** What a record becomes: the times are not kept, and no namespace is read
    back as 0. *)
Definition recordKept (d : DA) : DA :=
  mkDA (Sender d) (Nonce d) (Index d) (Length d) (Data d) (digestOfWords (digestWords (Commitment d)).1 (digestWords (Commitment d)).2)
    (SignData d) (SignerAddr d) (DasKey d) (TxHash d) (BlockNum d) 0 0 (Proof d) (ClaimedValue d) (Some (default 0 (NameSpaceID d))) (Root d).

Lemma digestVal_storable d : storable (digestVal d) digestType.
Proof.
  destruct (digestWords_limbs d) as [[Hx Hxs] [Hy Hys]]. unfold digestVal, digestType. cbn [storable].
  split_and!; try done; try (by rewrite length_fmap); by apply storable_uints.
Qed.

Lemma daVal_storable d : goDA d -> 0 <= default 0 (NameSpaceID d) -> storable (daVal d) daType.
Proof.
  intros ((? & ?) & Hn & Hi & Hl & Hd & Hsd & Hsa & (? & ?) & (? & ?) & Hb & Hp & Hc & (? & ?) & _) Hns.
  assert (uintBits 64) as H64 by (by right; right; right).
  assert (forall z, in_u64 z -> storable (VUint z) (TUint 64)) as Hu by (intros z Hz; split; [exact H64|exact Hz]).
  unfold daVal, daType.
  repeat (split; [first [by apply Hu | exact (digestVal_storable _) | by split | apply (storable_bytes _ _ (or_introl eq_refl) Hsd)
    | apply (storable_bytes _ _ (or_intror eq_refl) Hsa) | done | by destruct (NameSpaceID d)]|]). exact I.
Qed.

Lemma valDA_stored d : valDA (stored (daVal d)) = Some (recordKept d).
Proof.
  unfold daVal, digestVal. cbn [stored map]. change (map stored) with (fmap (M:=list) stored).
  rewrite !stored_uints, !stored_bytes. destruct (NameSpaceID d) eqn:Hns; cbn [valDA]; rewrite !uintOf_uints, !bytesOf_bytes; unfold recordKept; by rewrite Hns.
Qed.

(** Every value of the type is a record. *)
Lemma typed_daVal v : typed v daType -> exists d, valDA v = Some d /\ daVal d = v.
Proof.
  intros Ht. destruct v as [| | | |l| |]; try done. unfold daType in Ht. rewrite typed_struct in Ht. typed_fields Ht.
  repeat match goal with H : typed ?v _ |- _ => is_var v; destruct v; try (exfalso; exact H) end.
  match goal with H : typed (VList ?l) digestType |- _ => rename H into Hdig, l into dig end.
  match goal with H : typed (VList ?l) (TSlice TBytes) |- _ => rename H into Hsd, l into sd end.
  match goal with H : typed (VList ?l) (TSlice TString) |- _ => rename H into Hsa, l into sa end.
  repeat match goal with H : typed (VList ?l) (TStruct []) |- _ => rewrite typed_struct in H; apply typedElems_nil in H; subst l end.
  unfold digestType in Hdig. rewrite typed_struct in Hdig. typed_fields Hdig.
  repeat match goal with H : typed ?v (TArray _ _) |- _ => is_var v; destruct v; try (exfalso; exact H); rewrite typed_array in H; destruct H end.
  rewrite typed_slice in Hsd, Hsa. apply (typed_bytes TBytes sd (or_introl eq_refl)) in Hsd as [Hsd _].
  apply (typed_bytes TString sa (or_intror eq_refl)) in Hsa as [Hsa _].
  repeat match goal with H : typedElems _ (replicate _ (TUint 64)) |- _ => apply typed_uints in H as [??] end.
  eexists. split; [reflexivity|]. unfold daVal, digestVal. cbn [Sender Nonce Index Length Data Commitment SignData SignerAddr DasKey TxHash BlockNum
    Proof ClaimedValue NameSpaceID Root].
  rewrite digestWords_ofWords by (split; [by rewrite length_fmap|done]). cbn [fst snd]. congruence.
Qed.

Lemma weight_slices s (l : list (list Z)) : 9 <= s -> foldr (fun v n => weight v + n) 0 (VBytes <$> l) <= slicesSize s l.
Proof. intros Hs. unfold slicesSize. induction l as [|b l IH]; [done|]. cbn [fmap list_fmap foldr weight].
  apply Z.add_le_mono; [lia|exact IH]. Qed.

Lemma weight_uints (l : list Z) : length l = 4%nat -> foldr (fun v n => weight v + n) 0 (VUint <$> l) = 68.
Proof. destruct l as [|? [|? [|? [|? [|]]]]]; done. Qed.

Lemma weight_daVal d : goDA d -> weight (daVal d) < 2 ^ 63.
Proof.
  intros ((? & _) & Hn & Hi & Hl & Hd & Hsd & Hsa & (? & _) & (? & _) & Hb & Hp & Hc & (? & _) & Hf).
  unfold fitsMemory in Hf. pose proof (weight_slices 24 (SignData d) ltac:(lia)). pose proof (weight_slices 16 (SignerAddr d) ltac:(lia)).
  destruct (digestWords_limbs (Commitment d)) as [[Hx _] [Hy _]]. apply weight_uints in Hx, Hy.
  unfold daVal, digestVal. destruct (NameSpaceID d); cbn [weight foldr default from_option] in *; unfold id in *;
    change (Z.log2 (Z.abs 0) `div` 8) with 0 in *; rewrite Hx, Hy; unfold AddressLength, HashLength in *; lia.
Qed.

(** ** The laws *)

Lemma daType_wf : wfType daType.
Proof. by repeat split; right; right; right. Qed.

Lemma daVal_typed d : goDA d -> typed (daVal d) daType.
Proof.
  intros Hd. set (d0 := mkDA (Sender d) (Nonce d) (Index d) (Length d) (Data d) (Commitment d) (SignData d) (SignerAddr d) (DasKey d) (TxHash d)
    (BlockNum d) 0 0 (Proof d) (ClaimedValue d) None (Root d)).
  assert (goDA d0) as H0.
  { unfold goDA, fitsMemory in *. pose proof (Z.div_pos (Z.log2 (Z.abs (default 0 (NameSpaceID d)))) 8 (Z.log2_nonneg _) ltac:(lia)).
    destruct Hd as (? & ? & ? & ? & ? & ? & ? & ? & ? & ? & ? & ? & ? & Hf). split_and!; try done.
    cbn [Data SignData SignerAddr Proof ClaimedValue NameSpaceID d0 default from_option]. change (Z.log2 (Z.abs 0) `div` 8) with 0. lia. }
  exact (proj1 (storable_typed _ _ (daVal_storable d0 H0 ltac:(done)))).
Qed.

Lemma negative_bytes (l : list (list Z)) : existsb negative (VBytes <$> l) = false.
Proof. by induction l. Qed.

Lemma negative_uints (l : list Z) : existsb negative (VUint <$> l) = false.
Proof. by induction l. Qed.

Lemma negative_daVal d : negative (daVal d) = bool_decide (default 0 (NameSpaceID d) < 0).
Proof.
  unfold daVal, digestVal. cbn [negative existsb]. rewrite !negative_bytes, !negative_uints. destruct (NameSpaceID d); simpl; [|done].
  by rewrite orb_false_r.
Qed.

Lemma encodeDA_enc d : goDA d ->
  encodeDA d = if decide (0 <= default 0 (NameSpaceID d)) then Some (enc (daVal d) daType) else None.
Proof.
  intros Hd. pose proof (daVal_typed d Hd) as Ht. pose proof (length_enc _ _ Ht (weight_daVal d Hd)) as Hl. pose proof (weight_daVal d Hd).
  unfold encodeDA, rlpCodec, DA_Encode. rewrite EncodeToBytes_enc; [|done|exact Ht|cbn [enc]; lia].
  cbn [negative enc]. rewrite negative_daVal. case_bool_decide; case_decide; (done || lia).
Qed.

(** Nothing an unlimited stream can make of the bytes of a Go slice is left out. *)
Lemma streamDA_cases s : goBytes s ->
  streamDA s = Done DecEOF \/ streamDA s = Done DecErr \/ streamDA s = Done DecPanic \/
  exists d c rest, streamDA s = Done (DecOk d rest) /\ s = c ++ rest /\ c <> [] /\ negative (daVal d) = false /\ typed (daVal d) daType /\
    c = enc (daVal d) daType.
Proof.
  intros [Hb Hl]. assert (streamOk (Reset s 0)) as Hok by (split_and!; simpl; [done|done|done|lia]).
  pose proof (decode_spec (typeDepth daType + length (input (Reset s 0)) + 1)%nat daType daType_wf _ Hok eq_refl) as H.
  unfold streamDA, streamDecode.
  destruct (decode (typeDepth daType + length (input (Reset s 0)) + 1)%nat daType (Reset s 0)) as [[[e|v] s']| |] eqn:Hd; [|clear Hd|auto|unfold stuckAt in H; lia].
  - case_decide; auto.
  - do 3 right. destruct H as (c & (Ht & Hn%unread_negative & ->) & (Hi & _) & _ & Hne). destruct (typed_daVal v Ht) as (d & -> & <-).
    exists d, (enc (daVal d) daType), (input s'). done.
Qed.

Lemma streamDA_stored d bs rest : goDA d -> goBytes (bs ++ rest) -> encodeDA d = Some bs -> streamDA (bs ++ rest) = Done (DecOk (recordKept d) rest).
Proof.
  intros Hd Hg He. rewrite encodeDA_enc in He by done. case_decide as Hns; [|done]. assert (bs = enc (daVal d) daType) as -> by congruence. clear He. destruct Hg as [Hb Hl].
  set (bs := enc (daVal d) daType) in *. set (s := Reset (bs ++ rest) 0).
  assert (streamOk s) as Hok by (split_and!; simpl; [done|done|done|lia]).
  assert (startsWith s bs) as Hs.
  { split_and!; [done|done|by exists rest|done|]. rewrite length_app in Hl. unfold maxAlloc. lia. }
  unfold streamDA, streamDecode. fold s.
  destruct (decode_enc (daVal d) daType (typeDepth daType + length (input s) + 1)%nat s (daVal_storable d Hd Hns) Hs) as [H|(s' & -> & (Hi & _) & _)].
  - pose proof (decode_spec (typeDepth daType + length (input s) + 1)%nat daType daType_wf s Hok eq_refl) as Hsp.
    rewrite H in Hsp. unfold stuckAt in Hsp. lia.
  - rewrite valDA_stored. simpl in Hi. apply app_inv_head in Hi. by rewrite Hi.
Qed.

#[export] Instance rlpCodecLaws : DACodecLaws rlpCodec.
Proof.
  refine {| storedDA := recordKept |}.
  - intros s d rest Hg. cbn [decodeDA rlpCodec]. destruct (streamDA_cases s Hg) as [-> |[-> |[-> |(d' & c & r & -> & -> & Hc & _)]]]; try done.
    intros [= -> ->]. by exists c.
  - reflexivity.
  - intros d bs rest Hd Hg He. cbn [decodeDA rlpCodec]. by rewrite (streamDA_stored d bs rest).
  - intros d bs Hd [Hb Hl] He. rewrite encodeDA_enc in He by done. case_decide as Hns; [|done].
    assert (bs = enc (daVal d) daType) as -> by congruence. cbn [DecodeBytesDA rlpCodec]. unfold DA_Decode.
    rewrite DecodeBytes_stored by (done || apply daType_wf || by apply daVal_storable). cbn [ok rbind]. by rewrite valDA_stored.
Defined.
(** ** Properties *)

(** C13: a record that a Go program can hold, with a valid commitment and no
    negative namespace, survives [Encode] and [Decode] with all its fields,
    except that the two times are lost and a missing namespace becomes 0; with
    a negative namespace [Encode] fails. *)
Theorem record_roundtrip d : goDA d -> digest_ok (Commitment d) ->
  match DA_Encode d with
  | Done (inr bs) => 0 <= default 0 (NameSpaceID d) /\ (goBytes bs -> DA_Decode bs = ok
      (mkDA (Sender d) (Nonce d) (Index d) (Length d) (Data d) (Commitment d) (SignData d) (SignerAddr d) (DasKey d) (TxHash d) (BlockNum d)
         0 0 (Proof d) (ClaimedValue d) (Some (default 0 (NameSpaceID d))) (Root d)))
  | Done (inl e) => default 0 (NameSpaceID d) < 0 /\ e = ErrNegativeBigInt
  | _ => False
  end.
Proof.
  intros Hd Hc. pose proof (daVal_typed d Hd) as Ht. pose proof (weight_daVal d Hd) as Hw. pose proof (length_enc _ _ Ht Hw).
  unfold DA_Encode. rewrite EncodeToBytes_enc; [|done|exact Ht|cbn [enc]; lia].
  change (negative (VPtr (Some (daVal d)))) with (negative (daVal d)). change (enc (VPtr (Some (daVal d))) (TPtr daType)) with (enc (daVal d) daType).
  rewrite negative_daVal. case_bool_decide as Hn; [done|]. cbn [ok]. split; [lia|]. intros [_ Hl]. unfold DA_Decode.
  rewrite (DecodeBytes_stored (daVal d) daType daType_wf (daVal_storable d Hd ltac:(lia)) Hl). cbn [ok rbind]. rewrite valDA_stored.
  unfold recordKept. by rewrite digestOfWords_words.
Qed.

(** Decoding the bytes of a record ends without a panic, and what it accepts
    is the encoding of the record it answers: no two byte strings are the same
    record, so that records can be compared and counted by their bytes. *)
Theorem record_canonical bs : goBytes bs ->
  isDone (DA_Decode bs) = true /\ forall d, DA_Decode bs = ok d -> DA_Encode d = ok bs.
Proof.
  intros [Hb Hl]. destruct (DecodeBytes_sound bs daType daType_wf Hb Hl) as [Hd Hs]. unfold DA_Decode.
  destruct (DecodeBytes bs daType) as [[e|v]| |]; try done. destruct (Hs v eq_refl) as (Ht & Hn & ->).
  destruct (typed_daVal v Ht) as (d & Hv & <-). cbn [rbind]. rewrite Hv. split; [done|]. intros d' [= <-].
  unfold DA_Encode. rewrite EncodeToBytes_enc; [by cbn [negative enc]; rewrite Hn|done|exact Ht|cbn [enc]; lia].
Qed.

End laws.

(** ** On the small instance *)

Module RlpSample.
Import Sample PoolSample.

Definition ofLimbs (l : list Z) : Z := foldr (fun w z => w + 2 ^ 64 * z) 0 l.

#[export] Instance sampleWords : KZGWords sampleKZG := {|
  digestWords (d : @Digest sampleKZG) := (words 4 d.1, words 4 d.2);
  digestOfWords x y := ((ofLimbs x, ofLimbs y) : @Digest sampleKZG)
|}.

Lemma words_limbs n z : length (words n z) = n /\ Forall in_u64 (words n z).
Proof. revert z. induction n as [|n IH]; intros z; [done|]. destruct (IH (z `div` 2 ^ 64)) as [Hl Hf]. simpl. split; [lia|]. constructor; [apply Z.mod_pos_bound; lia|done]. Qed.

Lemma words_ofLimbs l : Forall in_u64 l -> words (length l) (ofLimbs l) = l.
Proof.
  induction 1 as [|w l [Hw1 Hw2] Hl IH]; [done|]. cbn [length words ofLimbs foldr]. fold (ofLimbs l).
  rewrite (Z.mul_comm (2 ^ 64)), Z.mod_add, Z.div_add, Z.mod_small, Z.div_small by lia. by rewrite Z.add_0_l, IH.
Qed.

Lemma ofLimbs_words n z : 0 <= z < 2 ^ (64 * Z.of_nat n) -> ofLimbs (words n z) = z.
Proof.
  revert z. induction n as [|n IH]; intros z Hz; [simpl in *; lia|]. cbn [words ofLimbs foldr]. fold (ofLimbs (words n (z `div` 2 ^ 64))).
  rewrite IH; [pose proof (Z.div_mod z (2 ^ 64)); lia|]. split; [apply Z.div_pos; lia|]. apply Z.div_lt_upper_bound; [lia|].
  rewrite <-Z.pow_add_r by lia. replace (64 + 64 * Z.of_nat n) with (64 * Z.of_nat (S n)) by lia. lia.
Qed.

#[export] Instance sampleWordsLaws : KZGWordsLaws sampleKZG sampleWords sampleKZGLaws.
Proof.
  split.
  - intros d. split; apply words_limbs.
  - intros x y [Hx Hxs] [Hy Hys]. cbn [digestWords digestOfWords sampleWords fst snd]. rewrite <-Hx at 1. rewrite <-Hy. by rewrite !words_ofLimbs.
  - intros [x y] [Hx Hy]. cbn [digestWords digestOfWords sampleWords fst snd] in *.
    rewrite !ofLimbs_words by (change (2 ^ (64 * Z.of_nat 4)) with (256 ^ 32); done). done.
Qed.

End RlpSample.

(** ** A damaged journal *)

(** The beginning of a record of 2^56 bytes whose data have 2^50. *)
Definition damagedJournal : list Z :=
  [0xFF; 1; 0; 0; 0; 0; 0; 0; 0] ++ 0x94 :: replicate 20 7 ++ [0x80; 0x80; 0x80] ++ [0xBE; 4; 0; 0; 0; 0; 0; 0].

Section journal.
Context {kzg : KZG} {kw : KZGWords kzg} `{crypto : Crypto} `{sdk : SDK} `{sqlStore : !DAStore}.

(** The journal is read without an input limit: sizes in a damaged file are
    believed, and one that no slice can have makes the node panic at every
    start, where a file with any other fault is read up to it and rotated. *)
Theorem damaged_journal_panics cfg node s fs now order sql :
  JournalRemote cfg = true -> Journal cfg <> [] -> readOK fs = true ->
  New (codec := rlpCodec) cfg node s (Some damagedJournal) fs now order sql = Panic.
Proof.
  intros HJ Hne Hfs. unfold New, Init, emptyPool, load. rewrite HJ, bool_decide_false by done. cbn [andb negb journal jfile fpConfig].
  rewrite Hfs. cbn [negb]. assert (decodeDA (DACodec := rlpCodec) damagedJournal = DecPanic) as Hd by (vm_compute; reflexivity).
  cbn [decodeAll]. by rewrite Hd.
Qed.

End journal.

Section record_witnesses.
Import Sample PoolSample RlpSample.

Lemma record_roundtrip_witness : exists bs, DA_Encode badDA = ok bs /\ DA_Decode bs =
  ok (mkDA (replicate 20 7) 0 3 99 [] (5, 6) [] [] zeroHash zeroHash 0 0 0 [] [] (Some 0) zeroHash).
Proof.
  assert (goDA badDA) as Hd by (repeat constructor; done).
  assert (@digest_ok _ sampleKZGLaws (Commitment badDA)) as Hc by (repeat constructor; done).
  pose proof (record_roundtrip badDA Hd Hc) as H.
  assert (exists bs, DA_Encode badDA = ok bs /\ goBytes bs) as (bs & He & Hg).
  { let bs := eval vm_compute in (match DA_Encode badDA with Done (inr bs) => bs | _ => [] end) in exists bs.
    split; [vm_compute; reflexivity|]. split; [apply bytes_ok_check; vm_compute; reflexivity|vm_compute; discriminate]. }
  exists bs. split; [exact He|]. rewrite He in H. exact (proj2 H Hg).
Defined.

Lemma record_canonical_witness : isDone (DA_Decode damagedJournal) = true.
Proof. refine (proj1 (record_canonical damagedJournal _)). split; [apply bytes_ok_check; vm_compute; reflexivity|vm_compute; discriminate]. Defined.

Lemma damaged_journal_panics_witness :
  New (codec := rlpCodec) sampleConfig (lit "a") HomesteadFdSigner (Some damagedJournal) fsFine (fun _ _ => 0) map_to_list
    ([] : @sqlDB _ sampleStore) = Panic.
Proof. apply (damaged_journal_panics sampleConfig); [reflexivity|discriminate|reflexivity]. Defined.

End record_witnesses.
