(* ===== verification/P2P.v ===== *)
(** * Messages of the subprotocols

    [p2p/peer.go] and [p2p/protocol.go]: how the protocols two nodes have in
    common are found and given ranges of message codes ([matchProtocols]), and
    how a message is written by a protocol and handed to one ([protoRW.WriteMsg],
    [Peer.handle], [getProto], [protoRW.ReadMsg]).

    [slices.SortFunc] is code of another module: it is an argument, and
    [sorts] says that it sorts.  Maps are ranged over in an order that is an
    argument too. *)

From stdpp Require Import sorting.
From S2P Require Import Prelude Bytes.

Local Open Scope Z_scope.

Record Cap := mkCap { cName : list Z; cVersion : Z }.

#[export] Instance Cap_eq_dec : EqDecision Cap.
Proof. solve_decision. Defined.

(** [Protocol] without its callbacks. *)
Record Protocol := mkProtocol { pName : list Z; pVersion : Z; pLength : Z }.

#[export] Instance Protocol_eq_dec : EqDecision Protocol.
Proof. solve_decision. Defined.

Definition capOf (p : Protocol) : Cap := mkCap (pName p) (pVersion p).

(** [Cap.Cmp] *)
Definition CapCmp (cap other : Cap) : Z :=
  if decide (cName cap = cName other) then
    if decide (cVersion cap < cVersion other) then -1
    else if decide (cVersion cap > cVersion other) then 1 else 0
  else Compare (cName cap) (cName other).

Record protoRW := mkRW { rwProto : Protocol; offset : Z }.

Definition baseProtocolLength : Z := 16.
Definition discMsg : Z := 0x01.
Definition pingMsg : Z := 0x02.

Definition countMatchingProtocols (protocols : list Protocol) (caps : list Cap) : Z :=
  Z.of_nat (length (filter (fun '(cap, p) => capOf p = cap) (caps ≫= fun cap => (cap,.) <$> protocols))).

(** One round of the outer loop of [matchProtocols]; the inner one stops at the
    first protocol that matches. *)
Definition matchStep (protocols : list Protocol) (st : Z * gmap (list Z) protoRW) (cap : Cap) : Z * gmap (list Z) protoRW :=
  let '(off, result) := st in
  match find (fun p => bool_decide (capOf p = cap)) protocols with
  | None => st
  | Some proto =>
      let off := match result !! cName cap with Some old => u64 (off - pLength (rwProto old)) | None => off end in
      (u64 (off + pLength proto), <[cName cap := mkRW proto off]> result)
  end.

Definition matchProtocols (SortFunc : list Cap -> list Cap) (protocols : list Protocol) (caps : list Cap) : gmap (list Z) protoRW :=
  (foldl (matchStep protocols) (baseProtocolLength, ∅) (SortFunc caps)).2.

(** [Peer.RunningCap] *)
Definition RunningCap (running : gmap (list Z) protoRW) (protocol : list Z) (versions : list Z) : bool :=
  match running !! protocol with Some rw => bool_decide (pVersion (rwProto rw) ∈ versions) | None => false end.

Definition handles (code : Z) (rw : protoRW) : bool :=
  bool_decide (offset rw <= code /\ code < u64 (offset rw + pLength (rwProto rw))).

Definition getProto (running : list (list Z * protoRW)) (code : Z) : option protoRW :=
  find (handles code) running.*2.

(** The code [protoRW.WriteMsg] puts on the wire; [None] when the protocol does
    not have the message. *)
Definition WriteMsg (rw : protoRW) (code : Z) : option Z :=
  if decide (code >= pLength (rwProto rw)) then None else Some (u64 (code + offset rw)).

Definition ReadMsg (rw : protoRW) (code : Z) : Z := u64 (code - offset rw).

(** [Peer.handle]: where a message that was read goes. *)
Inductive route :=
| toPing
| toDisconnect
| toNobody
| toProto (name : list Z) (version code : Z)
| outOfRange.

Definition handle (running : list (list Z * protoRW)) (code : Z) : route :=
  if decide (code = pingMsg) then toPing
  else if decide (code = discMsg) then toDisconnect
  else if decide (code < baseProtocolLength) then toNobody
  else match getProto running code with
       | None => outOfRange
       | Some rw => toProto (pName (rwProto rw)) (pVersion (rwProto rw)) (ReadMsg rw code)
       end.

(** ** The order of capabilities *)

Lemma Compare_opp a : forall b, Compare b a = - Compare a b.
Proof. induction a as [|x a IH]; intros [|y b]; simpl; try done. repeat case_decide; subst; try done; lia. Qed.

Lemma Compare_trans a : forall b c, Compare a b < 0 -> Compare b c < 0 -> Compare a c < 0.
Proof.
  induction a as [|x a IH]; intros [|y b] [|z c]; simpl; try lia. repeat case_decide; subst; try lia. apply IH.
Qed.

(** Names in order, and capabilities in order. *)
Definition nameLt (a b : list Z) : Prop := Compare a b < 0.
Definition capLe (a b : Cap) : Prop := CapCmp a b <= 0.

#[export] Instance nameLt_trans : Transitive nameLt.
Proof. intros a b c. apply Compare_trans. Qed.

Lemma nameLt_irrefl a : ~ nameLt a a.
Proof. unfold nameLt. rewrite (proj2 (Compare_eq a a) eq_refl). lia. Qed.

Lemma capLe_cases a b : capLe a b <-> nameLt (cName a) (cName b) \/ cName a = cName b /\ cVersion a <= cVersion b.
Proof.
  unfold capLe, CapCmp, nameLt. case_decide as Hn.
  - rewrite Hn, (proj2 (Compare_eq (cName b) (cName b)) eq_refl). repeat case_decide; (split; [intros; right; split; [done|lia]|intros [?|[_ ?]]; lia]).
  - pose proof (Compare_eq (cName a) (cName b)). split; [|intuition lia]. intros. left.
    destruct (decide (Compare (cName a) (cName b) = 0)); [tauto|lia].
Qed.

#[export] Instance capLe_trans : Transitive capLe.
Proof.
  intros a b c. rewrite !capLe_cases. intros [H1|[H1 ?]] [H2|[H2 ?]].
  - left. by etransitivity.
  - left. by rewrite <-H2.
  - left. by rewrite H1.
  - right. split; [congruence|lia].
Qed.

(** What [slices.SortFunc] does with [Cap.Cmp]. *)
Definition sorts (SortFunc : list Cap -> list Cap) : Prop :=
  forall caps, SortFunc caps ≡ₚ caps /\ Sorted capLe (SortFunc caps).

(** ** The layout *)

(** The protocols one after the other, each with its range of codes. *)
Fixpoint laidOut (off : Z) (l : list protoRW) : Prop :=
  match l with
  | [] => True
  | rw :: l => offset rw = off /\ laidOut (off + pLength (rwProto rw)) l
  end.

Definition lengthOf (l : list protoRW) : Z := foldr (fun rw n => pLength (rwProto rw) + n) 0 l.

Abbreviation nameOf rw := (pName (rwProto rw)) (only parsing).

(** [l] is the layout of the protocols in common with the capabilities [caps]:
    in the order of their names, each with the highest version both have. *)
Record layout (protocols : list Protocol) (caps : list Cap) (l : list protoRW) : Prop := {
  layout_out : laidOut baseProtocolLength l;
  layout_sorted : StronglySorted nameLt ((fun rw => nameOf rw) <$> l);
  layout_common rw : rw ∈ l -> rwProto rw ∈ protocols /\ capOf (rwProto rw) ∈ caps;
  layout_best p : p ∈ protocols -> capOf p ∈ caps -> exists rw, rw ∈ l /\ nameOf rw = pName p /\ pVersion p <= pVersion (rwProto rw)
}.

(** The map holds the layout. *)
Definition holds (m : gmap (list Z) protoRW) (l : list protoRW) : Prop :=
  forall name rw, m !! name = Some rw <-> rw ∈ l /\ nameOf rw = name.

Lemma laidOut_app off l1 l2 : laidOut off (l1 ++ l2) <-> laidOut off l1 /\ laidOut (off + lengthOf l1) l2.
Proof.
  revert off. induction l1 as [|rw l1 IH]; intros off; simpl; [rewrite Z.add_0_r; tauto|]. rewrite IH, Z.add_assoc. tauto.
Qed.

Lemma lengthOf_app l1 l2 : lengthOf (l1 ++ l2) = lengthOf l1 + lengthOf l2.
Proof. induction l1 as [|rw l1 IH]; simpl; [done|]. rewrite IH. lia. Qed.

Definition lengthsOk (protocols : list Protocol) : Prop := Forall (fun p => 0 <= pLength p < 2 ^ 32) protocols.

Lemma lengthOf_bound protocols l : lengthsOk protocols -> (forall rw, rw ∈ l -> rwProto rw ∈ protocols) ->
  0 <= lengthOf l <= 2 ^ 32 * Z.of_nat (length l).
Proof.
  intros Hp. induction l as [|rw l IH]; intros Hin; [simpl; lia|].
  assert (rwProto rw ∈ protocols) as Hrw by (apply Hin; set_solver). pose proof (proj1 (Forall_forall _ _) Hp _ Hrw) as Hlen. cbn beta in Hlen.
  destruct IH; [intros; apply Hin; set_solver|]. cbn [lengthOf foldr length]. fold (lengthOf l). lia.
Qed.

(** In an ordered list an element no name is above is the last. *)
Lemma sorted_last l x : StronglySorted nameLt ((fun rw => nameOf rw) <$> l) -> x ∈ l ->
  (forall y, y ∈ l -> nameOf y = nameOf x \/ nameLt (nameOf y) (nameOf x)) -> exists l', l = l' ++ [x].
Proof.
  intros Hs Hx Hle. apply list_elem_of_split in Hx as (l1 & l2 & ->). exists l1. destruct l2 as [|y l2]; [done|exfalso].
  rewrite fmap_app in Hs. apply StronglySorted_app in Hs as (_ & _ & Hs). cbn [fmap list_fmap] in Hs.
  apply StronglySorted_inv in Hs as [_ Hs]. apply Forall_cons_1 in Hs as [Hlt _].
  destruct (Hle y ltac:(set_solver)) as [He|He].
  - rewrite He in Hlt. by apply nameLt_irrefl in Hlt.
  - by apply (nameLt_irrefl (nameOf x)); etransitivity.
Qed.

Lemma sorted_snoc l (x : list Z) : StronglySorted nameLt l -> Forall (fun y => nameLt y x) l -> StronglySorted nameLt (l ++ [x]).
Proof.
  intros Hs Hx. apply StronglySorted_app. split_and!; [|done|repeat constructor].
  intros a b Ha Hb%list_elem_of_singleton. subst. rewrite Forall_forall in Hx. by apply Hx.
Qed.

Lemma find_cap protocols cap :
  match find (fun p => bool_decide (capOf p = cap)) protocols with
  | Some p => p ∈ protocols /\ capOf p = cap
  | None => forall p, p ∈ protocols -> capOf p <> cap
  end.
Proof.
  destruct (find _ _) as [p|] eqn:Hf.
  - apply find_some in Hf as [Hin Hc]. rewrite bool_decide_eq_true in Hc. by rewrite list_elem_of_In.
  - intros p Hp%list_elem_of_In Hc. apply (find_none _ _ Hf) in Hp. rewrite bool_decide_eq_false in Hp. done.
Qed.

(** What the loop of [matchProtocols] keeps, after the capabilities [caps]. *)
Record matchInv (protocols : list Protocol) (caps : list Cap) (l : list protoRW) (st : Z * gmap (list Z) protoRW) : Prop := {
  match_layout : layout protocols caps l;
  match_offset : st.1 = baseProtocolLength + lengthOf l;
  match_holds : holds st.2 l;
  match_count : (length l <= length caps)%nat
}.

Lemma layout_skip protocols caps l cap : layout protocols caps l -> (forall p, p ∈ protocols -> capOf p <> cap) -> layout protocols (caps ++ [cap]) l.
Proof.
  intros [Ho Hs Hc Hb] Hn. split; [done|done| |].
  - intros rw Hrw. destruct (Hc rw Hrw). set_solver.
  - intros p Hp [Hpc|Hpc%list_elem_of_singleton]%elem_of_app; [by apply Hb|]. by destruct (Hn p Hp).
Qed.

(** The protocol of the capability is put behind the ones with smaller names;
    it replaces an older version of itself. *)
Lemma layout_put protocols caps l0 old proto : layout protocols caps (l0 ++ old) -> proto ∈ protocols ->
  (old = [] \/ exists o, old = [o] /\ nameOf o = pName proto) -> (forall c, c ∈ caps -> capLe c (capOf proto)) ->
  Forall (fun rw => nameLt (nameOf rw) (pName proto)) l0 ->
  layout protocols (caps ++ [capOf proto]) (l0 ++ [mkRW proto (baseProtocolLength + lengthOf l0)]).
Proof.
  intros [Ho Hs Hc Hb] Hp Hold Hle Hlt. apply laidOut_app in Ho as [Ho _]. rewrite fmap_app in Hs. apply StronglySorted_app in Hs as (_ & Hs & _). split.
  - by apply laidOut_app.
  - rewrite fmap_app. apply sorted_snoc; [done|]. by apply Forall_fmap.
  - intros rw [Hrw| ->%list_elem_of_singleton]%elem_of_app; [|set_solver]. destruct (Hc rw); set_solver.
  - intros p Hpp Hcap. destruct (decide (pName p = pName proto)) as [Hn|Hn].
    + eexists. split; [apply elem_of_app; right; by apply list_elem_of_singleton|]. split; [done|].
      apply elem_of_app in Hcap as [Hcap|Hcap%list_elem_of_singleton]; [|injection Hcap; simpl; lia].
      apply Hle, capLe_cases in Hcap as [Hcap|[_ Hcap]]; [|done]. simpl in Hcap. rewrite Hn in Hcap. by apply nameLt_irrefl in Hcap.
    + apply elem_of_app in Hcap as [Hcap|Hcap%list_elem_of_singleton]; [|by injection Hcap].
      destruct (Hb p Hpp Hcap) as (rw & [Hrw|Hrw]%elem_of_app & Hnm & Hv); [exists rw; set_solver|].
      destruct Hold as [->|(o & -> & Ho2)]; [set_solver|]. apply list_elem_of_singleton in Hrw as ->. congruence.
Qed.

Lemma holds_put m l0 old proto off : holds m (l0 ++ old) -> (old = [] \/ exists o, old = [o] /\ nameOf o = pName proto) ->
  Forall (fun rw => nameLt (nameOf rw) (pName proto)) l0 -> holds (<[pName proto := mkRW proto off]> m) (l0 ++ [mkRW proto off]).
Proof.
  intros Hm Hold Hlt name rw. rewrite Forall_forall in Hlt. destruct (decide (name = pName proto)) as [->|Hn].
  - rewrite lookup_insert_eq. split; [intros [= <-]; set_solver|].
    intros [[Hrw| ->%list_elem_of_singleton]%elem_of_app Hnm]; [|done]. apply Hlt in Hrw. rewrite Hnm in Hrw. by apply nameLt_irrefl in Hrw.
  - rewrite lookup_insert_ne by done. rewrite (Hm name rw), !elem_of_app, !list_elem_of_singleton. split.
    + intros [[Hrw|Hrw] Hnm]; [auto|]. destruct Hold as [->|(o & -> & Ho)]; [set_solver|]. apply list_elem_of_singleton in Hrw as ->. congruence.
    + intros [[Hrw| ->] Hnm]; [auto|]. by simpl in Hnm.
Qed.

Lemma sorted_init l o : StronglySorted nameLt ((fun rw => nameOf rw) <$> l ++ [o]) -> Forall (fun rw => nameLt (nameOf rw) (nameOf o)) l.
Proof.
  rewrite fmap_app. intros (Hs & _)%StronglySorted_app. apply Forall_forall. intros rw Hrw. apply Hs; [|by apply list_elem_of_singleton].
  by apply (list_elem_of_fmap_2 (fun rw => nameOf rw)).
Qed.

(** The place of a protocol in the layout, and the offset the step computes. *)
Lemma layout_place protocols caps l m proto : lengthsOk protocols -> Z.of_nat (length l) < 2 ^ 30 ->
  layout protocols caps l -> holds m l -> (forall c, c ∈ caps -> capLe c (capOf proto)) ->
  exists l0 old, l = l0 ++ old /\ (old = [] \/ exists o, old = [o] /\ nameOf o = pName proto) /\
    Forall (fun rw => nameLt (nameOf rw) (pName proto)) l0 /\ 0 <= lengthOf l0 <= 2 ^ 62 /\
    match m !! pName proto with Some old => u64 (baseProtocolLength + lengthOf l - pLength (rwProto old)) | None => baseProtocolLength + lengthOf l end =
      baseProtocolLength + lengthOf l0.
Proof.
  intros Hlen Hn Hl Hm Hle. pose proof (lengthOf_bound protocols l Hlen (fun rw Hrw => proj1 (layout_common _ _ _ Hl rw Hrw))) as Hbnd.
  assert (forall rw, rw ∈ l -> nameOf rw = pName proto \/ nameLt (nameOf rw) (pName proto)) as Hnames.
  { intros rw Hrw. apply (layout_common _ _ _ Hl) in Hrw as [_ [Hc|[Hc _]]%Hle%capLe_cases]; auto. }
  destruct (m !! pName proto) as [o|] eqn:Ho.
  - apply Hm in Ho as [Ho Hon]. destruct (sorted_last l o) as [l' ->]; [apply Hl|done|by rewrite Hon|]. exists l', [o].
    pose proof (lengthOf_bound protocols l' Hlen (fun rw Hrw => proj1 (layout_common _ _ _ Hl rw ltac:(set_solver)))) as Hbnd'.
    rewrite lengthOf_app, length_app in *. simpl in *. unfold baseProtocolLength in *.
    split_and!; [done|by eauto| |lia|lia|rewrite u64_small by (split; lia); lia].
    rewrite <-Hon. apply sorted_init, Hl.
  - exists l, []. rewrite app_nil_r. split_and!; [done|by left| |lia|lia|done]. apply Forall_forall. intros rw Hrw.
    destruct (Hnames rw Hrw) as [He|]; [|done]. pose proof (proj2 (Hm (pName proto) rw) (conj Hrw He)). congruence.
Qed.

Lemma matchStep_inv protocols caps l st cap : lengthsOk protocols -> Z.of_nat (length caps) < 2 ^ 30 ->
  matchInv protocols caps l st -> (forall c, c ∈ caps -> capLe c cap) ->
  exists l', matchInv protocols (caps ++ [cap]) l' (matchStep protocols st cap).
Proof.
  intros Hlen Hn [Hl Hoff Hm Hcnt] Hle. destruct st as [off m]. simpl in Hoff, Hm. subst off. unfold matchStep.
  pose proof (find_cap protocols cap) as Hf. destruct (find _ _) as [proto|].
  2:{ exists l. split; [by apply layout_skip|done|done|rewrite length_app; simpl; lia]. }
  destruct Hf as [Hp <-]. change (cName (capOf proto)) with (pName proto).
  destruct (layout_place protocols caps l m proto) as (l0 & old & -> & Hold & Hlt & Hbnd & ->); [done|lia|done|done|done|].
  pose proof (proj1 (Forall_forall _ _) Hlen _ Hp) as Hpl. cbn beta in Hpl.
  exists (l0 ++ [mkRW proto (baseProtocolLength + lengthOf l0)]). split.
  - by eapply layout_put.
  - simpl. rewrite lengthOf_app. simpl. unfold baseProtocolLength. rewrite u64_small by (split; lia). lia.
  - by eapply holds_put.
  - rewrite !length_app in *. simpl. destruct Hold as [->|(o & -> & _)]; simpl in *; lia.
Qed.

Lemma matchProtocols_layout SortFunc protocols caps : sorts SortFunc -> lengthsOk protocols -> Z.of_nat (length caps) < 2 ^ 30 ->
  exists l, layout protocols caps l /\ holds (matchProtocols SortFunc protocols caps) l /\ (length l <= length caps)%nat.
Proof.
  intros Hsort Hlen Hn. destruct (Hsort caps) as [Hperm Hs%Sorted_StronglySorted]; [|apply _]. unfold matchProtocols.
  set (cs := SortFunc caps) in *. assert (exists l, matchInv protocols cs l (foldl (matchStep protocols) (baseProtocolLength, ∅) cs)) as (l & [Hl _ Hm Hc]).
  { rewrite <-Hperm in Hn. clear Hperm. revert Hs Hn. induction cs as [|cap cs IH] using rev_ind; intros Hs Hn.
    - exists []. split; [split; [done|apply SSorted_nil|set_solver|set_solver]|done|intros name rw; cbn [foldl snd]; rewrite lookup_empty; set_solver|done].
    - apply StronglySorted_app in Hs as (Hle & Hs & _). rewrite length_app in Hn. destruct (IH Hs ltac:(lia)) as [l Hl].
      rewrite foldl_snoc. apply (matchStep_inv _ _ l); [done|lia|done|]. intros c Hc. apply Hle; set_solver. }
  exists l. split_and!; [|done|by rewrite <-Hperm]. destruct Hl as [Ho Hst Hcm Hb].
  split; [done|done|intros rw Hrw; by rewrite <-Hperm; apply Hcm|intros p Hp Hpc; apply Hb; [done|by rewrite Hperm]].
Qed.

(** ** Ranges of codes *)

Lemma laidOut_range off l rw : laidOut off l -> Forall (fun rw => 0 <= pLength (rwProto rw)) l -> rw ∈ l ->
  off <= offset rw /\ offset rw + pLength (rwProto rw) <= off + lengthOf l.
Proof.
  revert off. induction l as [|x l IH]; intros off Hl Hp Hrw; [set_solver|]. destruct Hl as [Ho Hl]. apply Forall_cons_1 in Hp as [Hx Hp].
  assert (0 <= lengthOf l) by (clear -Hp; induction Hp; simpl; lia). cbn [lengthOf foldr]. fold (lengthOf l).
  apply elem_of_cons in Hrw as [->|Hrw]; [lia|]. destruct (IH _ Hl Hp Hrw). lia.
Qed.

(** No code belongs to two protocols. *)
Lemma laidOut_unique off l rw rw' code : laidOut off l -> Forall (fun rw => 0 <= pLength (rwProto rw)) l -> rw ∈ l -> rw' ∈ l ->
  offset rw <= code < offset rw + pLength (rwProto rw) -> offset rw' <= code < offset rw' + pLength (rwProto rw') -> rw = rw'.
Proof.
  revert off. induction l as [|x l IH]; intros off Hl Hp Hrw Hrw' H1 H2; [set_solver|]. destruct Hl as [Ho Hl].
  apply Forall_cons_1 in Hp as [Hx Hp].
  apply elem_of_cons in Hrw as [->|Hrw]; apply elem_of_cons in Hrw' as [->|Hrw']; [done| | |by eapply IH];
    [destruct (laidOut_range _ _ _ Hl Hp Hrw')|destruct (laidOut_range _ _ _ Hl Hp Hrw)]; lia.
Qed.

(** What a written code is: in the range of the protocol, and no base message. *)
Lemma layout_write protocols caps l m order rw code w : lengthsOk protocols -> layout protocols caps l -> Z.of_nat (length l) < 2 ^ 30 ->
  holds m l -> order ≡ₚ map_to_list m -> rw ∈ l -> 0 <= code -> WriteMsg rw code = Some w ->
  baseProtocolLength <= w /\ getProto order w = Some rw /\ ReadMsg rw w = code.
Proof.
  intros Hlen Hl Hn Hm Ho Hrw Hc. unfold WriteMsg. case_decide as Hlt; [done|]. intros [= <-].
  assert (forall x, x ∈ l -> 0 <= pLength (rwProto x) < 2 ^ 32 /\ baseProtocolLength <= offset x /\ offset x + pLength (rwProto x) < 2 ^ 63) as Hin.
  { intros x Hx. pose proof (lengthOf_bound protocols l Hlen (fun rw Hrw => proj1 (layout_common _ _ _ Hl rw Hrw))).
    pose proof (proj1 (Forall_forall _ _) Hlen _ (proj1 (layout_common _ _ _ Hl x Hx))) as Hpl. cbn beta in Hpl. split; [done|].
    destruct (laidOut_range baseProtocolLength l x); [apply Hl| |done|unfold baseProtocolLength in *; lia].
    apply Forall_forall. intros y Hy. pose proof (proj1 (Forall_forall _ _) Hlen _ (proj1 (layout_common _ _ _ Hl y Hy))) as Hy'. cbn beta in Hy'. lia. }
  destruct (Hin rw Hrw) as (H1 & H2 & H3). unfold baseProtocolLength in *. rewrite u64_small by (split; lia). split; [lia|]. split.
  - unfold getProto. assert (forall x, x ∈ order.*2 -> x ∈ l) as Hol.
    { intros x ([name y] & -> & Hy)%list_elem_of_fmap. rewrite Ho in Hy. by apply elem_of_map_to_list, Hm in Hy as [Hy _]. }
    assert (rw ∈ order.*2) as Hro.
    { apply (list_elem_of_fmap_2' snd _ (nameOf rw, rw)); [|done]. rewrite Ho. apply elem_of_map_to_list, Hm. done. }
    destruct (find (handles (code + offset rw)) order.*2) as [x|] eqn:Hf.
    + apply find_some in Hf as [Hx Hh]. apply list_elem_of_In, Hol in Hx. unfold handles in Hh. apply bool_decide_eq_true in Hh.
      destruct (Hin x Hx) as (? & ? & ?). rewrite u64_small in Hh by (split; lia). f_equal. symmetry.
      apply (laidOut_unique baseProtocolLength l rw x (code + offset rw)); [apply Hl| |done|done|split; lia|exact Hh]. apply Forall_forall. intros y Hy. apply Hin in Hy. lia.
    + apply list_elem_of_In in Hro. apply (find_none _ _ Hf) in Hro. unfold handles in Hro. apply bool_decide_eq_false in Hro.
      exfalso. apply Hro. rewrite u64_small by (split; lia). lia.
  - unfold ReadMsg. rewrite u64_small by (split; lia). lia.
Qed.

(** ** Two nodes *)

(** The protocols of two nodes have the same messages where they have the same
    name and version. *)
Definition agree (PA PB : list Protocol) : Prop := forall pa pb, pa ∈ PA -> pb ∈ PB -> capOf pa = capOf pb -> pa = pb.

Lemma layout_other PA PB l rw : agree PA PB -> layout PA (capOf <$> PB) l -> rw ∈ l -> rwProto rw ∈ PA /\ rwProto rw ∈ PB.
Proof.
  intros Hag Hl Hrw. apply (layout_common _ _ _ Hl) in Hrw as [Ha (pb & Hc & Hb)%list_elem_of_fmap]. split; [done|]. by rewrite (Hag _ _ Ha Hb Hc).
Qed.

Lemma layout_same_proto PA PB lA lB a b : agree PA PB -> layout PA (capOf <$> PB) lA -> layout PB (capOf <$> PA) lB ->
  a ∈ lA -> b ∈ lB -> nameOf a = nameOf b -> rwProto a = rwProto b.
Proof.
  intros Hag HA HB Ha Hb Hn. assert (agree PB PA) as Hag' by (intros ?????; symmetry; by apply Hag).
  destruct (layout_other _ _ _ _ Hag HA Ha) as [Ha1 Ha2], (layout_other _ _ _ _ Hag' HB Hb) as [Hb1 Hb2].
  destruct (layout_best _ _ _ HA (rwProto b)) as (a' & Ha' & Hn' & Hv'); [done|by apply list_elem_of_fmap_2|].
  destruct (layout_best _ _ _ HB (rwProto a)) as (b' & Hb' & Hm' & Hw'); [done|by apply list_elem_of_fmap_2|].
  assert (forall l x y, StronglySorted nameLt ((fun rw => nameOf rw) <$> l) -> x ∈ l -> y ∈ l -> nameOf x = nameOf y -> x = y) as Huniq.
  { clear. intros l x y Hs Hx Hy Hxy. induction l as [|z l IH]; [set_solver|]. apply StronglySorted_inv in Hs as [Hs Hz].
    apply (proj1 (Forall_fmap _ _ _)) in Hz. rewrite Forall_forall in Hz.
    apply elem_of_cons in Hx as [->|Hx]; apply elem_of_cons in Hy as [->|Hy]; [done| | |by apply IH].
    - apply Hz in Hy. simpl in Hy. rewrite Hxy in Hy. by apply nameLt_irrefl in Hy.
    - apply Hz in Hx. simpl in Hx. rewrite Hxy in Hx. by apply nameLt_irrefl in Hx. }
  rewrite (Huniq lA a' a) in Hv' by (apply HA || done || congruence). rewrite (Huniq lB b' b) in Hw' by (apply HB || done || congruence).
  apply Hag; [done|done|]. unfold capOf. rewrite Hn. f_equal. lia.
Qed.

Lemma layout_names PA PB lA lB : agree PA PB -> layout PA (capOf <$> PB) lA -> layout PB (capOf <$> PA) lB ->
  forall n, n ∈ (fun rw => nameOf rw) <$> lA -> n ∈ (fun rw => nameOf rw) <$> lB.
Proof.
  intros Hag HA HB n (a & -> & Ha)%list_elem_of_fmap. destruct (layout_other _ _ _ _ Hag HA Ha) as [Ha1 Ha2].
  destruct (layout_best _ _ _ HB (rwProto a)) as (b & Hb & <- & _); [done|by apply list_elem_of_fmap_2|]. by apply (list_elem_of_fmap_2 (fun rw => nameOf rw)).
Qed.

Lemma sorted_NoDup l : StronglySorted nameLt l -> NoDup l.
Proof. induction 1 as [|x l Hs IH Hx]; constructor; [|done]. intros Hin. rewrite Forall_forall in Hx. apply Hx in Hin. by apply nameLt_irrefl in Hin. Qed.

Lemma laidOut_eq off l1 l2 : laidOut off l1 -> laidOut off l2 -> rwProto <$> l1 = rwProto <$> l2 -> l1 = l2.
Proof.
  revert off l2. induction l1 as [|[p1 o1] l1 IH]; intros off [|[p2 o2] l2] H1 H2 He; try done.
  destruct H1 as [E1 H1], H2 as [E2 H2]. simpl in E1, E2. subst. injection He as -> He. f_equal. by eapply IH.
Qed.

Lemma layout_agree PA PB lA lB : agree PA PB -> layout PA (capOf <$> PB) lA -> layout PB (capOf <$> PA) lB -> lA = lB.
Proof.
  intros Hag HA HB. assert (agree PB PA) as Hag' by (intros ?????; symmetry; by apply Hag).
  assert ((fun rw => nameOf rw) <$> lA = (fun rw => nameOf rw) <$> lB) as Hn.
  { apply (StronglySorted_unique_strong nameLt).
    - intros x1 x2 _ _ H1 H2. by destruct (nameLt_irrefl x1); etransitivity.
    - apply HA.
    - apply HB.
    - apply list.NoDup_Permutation; [apply sorted_NoDup, HA|apply sorted_NoDup, HB|]. intros n. split; [by apply (layout_names PA PB)|by apply (layout_names PB PA)]. }
  apply (laidOut_eq baseProtocolLength); [apply HA|apply HB|]. apply list_eq. intros i. rewrite !list_lookup_fmap.
  apply (f_equal (fun l => l !! i)) in Hn. rewrite !list_lookup_fmap in Hn.
  destruct (lA !! i) as [a|] eqn:Ha, (lB !! i) as [b|] eqn:Hb; try done. apply list_elem_of_lookup_2 in Ha, Hb. injection Hn as Hn. simpl.
  f_equal. by eapply (layout_same_proto PA PB lA lB).
Qed.

(** ** Properties *)

(** C12: the loop of [matchProtocols], which takes ranges back when it meets a
    higher version, builds the layout of the protocols in common: one entry
    per name, with the highest version both sides have, and ranges of codes
    that follow each other from 16 in the order of the names. *)
Theorem matchProtocols_correct SortFunc protocols caps :
  sorts SortFunc -> lengthsOk protocols -> Z.of_nat (length caps) < 2 ^ 30 ->
  exists l, layout protocols caps l /\ holds (matchProtocols SortFunc protocols caps) l.
Proof. intros Hs Hl Hn. destruct (matchProtocols_layout SortFunc protocols caps Hs Hl Hn) as (l & ? & ? & _). by exists l. Qed.

(** C24: two nodes whose protocols have the same messages under the same name
    and version find the same layout, whatever the order of their protocols
    and capabilities, and a message that one writes with a code of a protocol
    is handed by the other to that protocol with that code, whatever the order
    in which it looks at its protocols. *)
Theorem message_reaches_protocol SortA SortB PA PB :
  sorts SortA -> sorts SortB -> lengthsOk PA -> lengthsOk PB -> Z.of_nat (length PA) < 2 ^ 30 -> Z.of_nat (length PB) < 2 ^ 30 -> agree PA PB ->
  let runningA := matchProtocols SortA PA (capOf <$> PB) in
  let runningB := matchProtocols SortB PB (capOf <$> PA) in
  runningA = runningB /\
  forall name rw code w order, runningA !! name = Some rw -> 0 <= code -> WriteMsg rw code = Some w -> order ≡ₚ map_to_list runningB ->
    handle order w = toProto name (pVersion (rwProto rw)) code.
Proof.
  intros HsA HsB HlA HlB HnA HnB Hag runningA runningB.
  destruct (matchProtocols_layout SortA PA (capOf <$> PB)) as (lA & HA & HmA & HcA); [done|done|by rewrite length_fmap|].
  destruct (matchProtocols_layout SortB PB (capOf <$> PA)) as (lB & HB & HmB & _); [done|done|by rewrite length_fmap|].
  assert (lA = lB) as <- by (by eapply layout_agree).
  assert (runningA = runningB) as HAB by (apply map_eq; intros name; apply option_eq; intros rw;
    etransitivity; [apply HmA|symmetry; apply HmB]).
  split; [done|]. intros name rw code w order Hrw Hc Hw Ho. rewrite <-HAB in Ho. apply HmA in Hrw as [Hrw <-]. rewrite length_fmap in HcA.
  destruct (layout_write PA (capOf <$> PB) lA runningA order rw code w) as (H16 & Hg & Hr); [done|done|lia|done|done|done|done|done|].
  unfold handle, pingMsg, discMsg, baseProtocolLength in *. rewrite !decide_False, Hg, Hr by lia. done.
Qed.

(** ** Examples *)

#[export] Instance capLe_dec : RelDecision capLe.
Proof. intros a b. unfold capLe. apply _. Defined.

#[export] Instance capLe_total : Total capLe.
Proof.
  intros a b. rewrite !capLe_cases. unfold nameLt. rewrite (Compare_opp (cName a)). destruct (decide (Compare (cName a) (cName b) = 0)) as [He|He]; [|lia].
  apply Compare_eq in He. destruct (decide (cVersion a <= cVersion b)); [by left; right|right; right; split; [done|lia]].
Qed.

Lemma merge_sort_sorts : sorts (merge_sort capLe).
Proof. intros caps. split; [apply merge_sort_Permutation|apply Sorted_merge_sort, _]. Qed.

Definition exEth68 : Protocol := mkProtocol (lit "eth") 68 17.
Definition exEth67 : Protocol := mkProtocol (lit "eth") 67 17.
Definition exSnap1 : Protocol := mkProtocol (lit "snap") 1 8.

Lemma lengthsOk_check protocols : forallb (fun p => (0 <=? pLength p) && (pLength p <? 2 ^ 32)) protocols = true -> lengthsOk protocols.
Proof. intros H%Is_true_true%forallb_True. eapply Forall_impl; [exact H|]. intros p Hp%Is_true_true. lia. Qed.

Lemma matchProtocols_correct_witness : exists l, layout [exEth68; exEth67; exSnap1] [capOf exSnap1; capOf exEth67; mkCap (lit "les") 4; capOf exEth68] l /\
  holds (matchProtocols (merge_sort capLe) [exEth68; exEth67; exSnap1] [capOf exSnap1; capOf exEth67; mkCap (lit "les") 4; capOf exEth68]) l.
Proof. apply (matchProtocols_correct (merge_sort capLe)); [exact merge_sort_sorts|apply lengthsOk_check; reflexivity|vm_compute; reflexivity]. Defined.

Lemma message_reaches_protocol_witness :
  handle (map_to_list (matchProtocols (merge_sort capLe) [exSnap1; exEth67; exEth68] (capOf <$> [exEth68; exSnap1]))) (33 + 5) = toProto (lit "snap") 1 5.
Proof.
  refine (proj2 (message_reaches_protocol (merge_sort capLe) (merge_sort capLe) [exEth68; exSnap1] [exSnap1; exEth67; exEth68] _ _ _ _ _ _ _)
    (lit "snap") (mkRW exSnap1 33) 5 38 _ _ _ _ _).
  1-2: exact merge_sort_sorts.
  1-2: apply lengthsOk_check; reflexivity.
  1-2: vm_compute; reflexivity.
  - intros pa pb Ha Hb. repeat (apply elem_of_cons in Ha as [->|Ha]; [|]); try (by apply not_elem_of_nil in Ha);
      repeat (apply elem_of_cons in Hb as [->|Hb]; [|]); try (by apply not_elem_of_nil in Hb); done.
  - vm_compute. reflexivity.
  - done.
  - reflexivity.
  - reflexivity.
Defined.
