(* ===== verification/PeerSet.v ===== *)
(** * The peer set

    [eth/peerset.go], and the life of a connection in [runEthPeer],
    [runSnapExtension] and [unregisterPeer] of [eth/handler.go].

    The set is a record with its operations; each takes the lock, so that it is
    one step.  An [eth] connection that has to wait for its [snap] counterpart
    blocks on a channel: the waiting connection is what the map of channels
    holds, and a step that sends on the channel names the connection it wakes.
    [netStep] interleaves the steps of any number of connections; what the
    handshake, the flags of the node and the capabilities of a peer are is part
    of the events. *)

From S2P Require Import Prelude Bytes.

Local Open Scope Z_scope.

Abbreviation peerId := (list Z) (only parsing).

Inductive psErr := errPeerSetClosed | errPeerAlreadyRegistered | errPeerNotRegistered | errSnapWithoutEth.

Section PeerSet.
(** [eth.Peer], with its advertised total difficulty, and [snap.Peer]. *)
Context {P S : Type} (peerTD : P -> Z).

Record ethPeer := mkEthPeer { peerOf : P; snapExt : option S }.

(** [snapWait] holds the number of the connection that waits. *)
Record peerSet := mkPeerSet {
  peers : gmap peerId ethPeer;
  snapPeers : Z;
  snapWait : gmap peerId nat;
  snapPend : gmap peerId S;
  closed : bool
}.

Definition newPeerSet : peerSet := mkPeerSet ∅ 0 ∅ ∅ false.

(** The error, and the connection that is woken. *)
Definition registerSnapExtension (ps : peerSet) (runningEth : bool) (id : peerId) (peer : S) : peerSet * (psErr + option nat) :=
  if negb runningEth then (ps, inl errSnapWithoutEth)
  else match peers ps !! id with
  | Some _ => (ps, inl errPeerAlreadyRegistered)
  | None =>
      match snapPend ps !! id with
      | Some _ => (ps, inl errPeerAlreadyRegistered)
      | None =>
          match snapWait ps !! id with
          | Some wait => (mkPeerSet (peers ps) (snapPeers ps) (delete id (snapWait ps)) (snapPend ps) (closed ps), inr (Some wait))
          | None => (mkPeerSet (peers ps) (snapPeers ps) (snapWait ps) (<[id := peer]> (snapPend ps)) (closed ps), inr None)
          end
      end
  end.

Inductive waitResult := waitErr (e : psErr) | waitDone (snap : option S) | waitBlocks.

Definition waitSnapExtension (ps : peerSet) (runningSnap : bool) (id : peerId) (conn : nat) : peerSet * waitResult :=
  if negb runningSnap then (ps, waitDone None)
  else match peers ps !! id with
  | Some _ => (ps, waitErr errPeerAlreadyRegistered)
  | None =>
      match snapWait ps !! id with
      | Some _ => (ps, waitErr errPeerAlreadyRegistered)
      | None =>
          match snapPend ps !! id with
          | Some snap => (mkPeerSet (peers ps) (snapPeers ps) (snapWait ps) (delete id (snapPend ps)) (closed ps), waitDone (Some snap))
          | None => (mkPeerSet (peers ps) (snapPeers ps) (<[id := conn]> (snapWait ps)) (snapPend ps) (closed ps), waitBlocks)
          end
      end
  end.

Definition registerPeer (ps : peerSet) (id : peerId) (peer : P) (ext : option S) : peerSet * option psErr :=
  if closed ps then (ps, Some errPeerSetClosed)
  else match peers ps !! id with
  | Some _ => (ps, Some errPeerAlreadyRegistered)
  | None =>
      (mkPeerSet (<[id := mkEthPeer peer ext]> (peers ps)) (match ext with Some _ => i64 (snapPeers ps + 1) | None => snapPeers ps end)
         (snapWait ps) (snapPend ps) (closed ps), None)
  end.

Definition unregisterPeer (ps : peerSet) (id : peerId) : peerSet * option psErr :=
  match peers ps !! id with
  | None => (ps, Some errPeerNotRegistered)
  | Some peer =>
      (mkPeerSet (delete id (peers ps)) (match snapExt peer with Some _ => i64 (snapPeers ps - 1) | None => snapPeers ps end)
         (snapWait ps) (snapPend ps) (closed ps), None)
  end.

Definition peer (ps : peerSet) (id : peerId) : option ethPeer := peers ps !! id.

Definition len (ps : peerSet) : Z := Z.of_nat (size (peers ps)).
Definition snapLen (ps : peerSet) : Z := snapPeers ps.

(** The loops over the peers, in the order [order] of the map. *)
Definition peerWithOutFileData (known : P -> bool) (order : list (peerId * ethPeer)) : list (peerId * ethPeer) :=
  foldl (fun list x => if negb (known (peerOf x.2)) then list ++ [x] else list) [] order.

Definition peerWithOutFileData2 (knownTx knownCommit : P -> bool) (order : list (peerId * ethPeer)) : list (peerId * ethPeer) :=
  foldl (fun list x => if negb (knownTx (peerOf x.2)) && negb (knownCommit (peerOf x.2)) then list ++ [x] else list) [] order.

Definition peersToGetFileData (order : list (peerId * ethPeer)) : list (peerId * ethPeer) :=
  foldl (fun list x => list ++ [x]) [] order.

Definition peerWithHighestTD (order : list (peerId * ethPeer)) : option P :=
  fst <$> foldl (fun best x =>
    let td := peerTD (peerOf x.2) in
    match best with
    | None => Some (peerOf x.2, td)
    | Some (_, bestTd) => if decide (td > bestTd) then Some (peerOf x.2, td) else best
    end) None order.

(** [close]: the peers it disconnects. *)
Definition closeSet (ps : peerSet) (order : list (peerId * ethPeer)) : peerSet * list P :=
  (mkPeerSet (peers ps) (snapPeers ps) (snapWait ps) (snapPend ps) true, (fun x => peerOf x.2) <$> order).

(** ** Loops *)

Lemma foldl_filter {A} (f : A -> bool) (l : list A) : forall acc,
  foldl (fun list x => if f x then list ++ [x] else list) acc l = acc ++ filter (fun x => f x = true) l.
Proof.
  induction l as [|x l IH]; intros acc; cbn [foldl]; [by rewrite app_nil_r|]. rewrite IH, filter_cons.
  destruct (f x); simpl; [by rewrite <-app_assoc|done].
Qed.

Lemma peerWithOutFileData_filter known order : peerWithOutFileData known order = filter (fun x => known (peerOf x.2) = false) order.
Proof.
  unfold peerWithOutFileData. rewrite (foldl_filter (fun x => negb (known (peerOf x.2)))). apply list_filter_iff. intros x. apply negb_true_iff.
Qed.

Lemma peerWithOutFileData2_filter knownTx knownCommit order :
  peerWithOutFileData2 knownTx knownCommit order = filter (fun x => knownTx (peerOf x.2) || knownCommit (peerOf x.2) = false) order.
Proof.
  unfold peerWithOutFileData2. rewrite (foldl_filter (fun x => negb (knownTx (peerOf x.2)) && negb (knownCommit (peerOf x.2)))).
  apply list_filter_iff. intros x. rewrite <-negb_orb. apply negb_true_iff.
Qed.

Lemma peersToGetFileData_all order : peersToGetFileData order = order.
Proof. unfold peersToGetFileData. rewrite (foldl_filter (fun _ => true)). apply filter_all. done. Qed.

(** The peer with the highest difficulty is found in any order. *)
Theorem peerWithHighestTD_correct order :
  match peerWithHighestTD order with
  | None => order = []
  | Some p => p ∈ (fun x => peerOf x.2) <$> order /\ forall x, x ∈ order -> peerTD (peerOf x.2) <= peerTD p
  end.
Proof.
  unfold peerWithHighestTD. set (f := fun best x => _).
  assert (match foldl f None order with None => order = [] | Some (p, td) => td = peerTD p /\ p ∈ (fun x => peerOf x.2) <$> order /\
    forall x, x ∈ order -> peerTD (peerOf x.2) <= td end) as H.
  { induction order as [|x order IH] using rev_ind; [done|]. rewrite foldl_snoc. destruct (foldl f None order) as [[p td]|]; unfold f.
    - destruct IH as (-> & Hp & Hle). case_decide.
      + split_and!; [done|set_solver|]. intros y [Hy| ->%list_elem_of_singleton]%elem_of_app; [apply Hle in Hy; lia|done].
      + split_and!; [done|set_solver|]. intros y [Hy| ->%list_elem_of_singleton]%elem_of_app; [by apply Hle|lia].
    - subst. split_and!; [done|set_solver|]. intros y ->%list_elem_of_singleton. done. }
  destruct (foldl f None order) as [[p td]|]; [|done]. simpl. destruct H as (-> & ?). done.
Qed.

End PeerSet.
Arguments ethPeer : clear implicits.
Arguments peerSet : clear implicits.

(** ** Connections *)

Section net.
Context {S : Type}.

(** Where a connection is in [runEthPeer].  The peer object of a connection is
    known by its number. *)
Inductive phase :=
| Waiting (id : peerId)
| Shaking (id : peerId) (ext : option S)
| Shaken (id : peerId) (ext : option S)
| LetIn (id : peerId) (ext : option S)
| Running (id : peerId)
| Ended.

Record net := mkNet { pset : peerSet nat S; conns : gmap nat phase }.

(** [started] is what [incHandlers] answers: false only when the node quits. *)
Inductive netEvent :=
| ethConnect (c : nat) (id : peerId) (runningSnap started : bool)
| snapConnect (id : peerId) (runningEth : bool) (s : S) (started : bool)
| handshakeDone (c : nat) (fine : bool)
| checkLimits (c : nat) (trusted snapSync : bool) (maxPeers : Z)
| registerConn (c : nat)
| handlerDone (c : nat)
| closePeers.

(** Reserved slots: [all-snp > snp+5]. *)
Definition tooFewSnap (ps : peerSet nat S) (snapSync : bool) (ext : option S) : bool :=
  snapSync && match ext with None => bool_decide (len ps - snapLen ps > snapLen ps + 5) | Some _ => false end.

Definition setPhase (n : net) (ps : peerSet nat S) (c : nat) (ph : phase) : net := mkNet ps (<[c := ph]> (conns n)).

(** One step of [runEthPeer] of a connection, of [runSnapExtension], or of
    [Stop]; [None] when it is not the turn of that connection. *)
Definition netStep (n : net) (e : netEvent) : option net :=
  match e with
  | ethConnect c id runningSnap started =>
      match conns n !! c with
      | Some _ => None
      | None =>
          if negb started then Some (setPhase n (pset n) c Ended)
          else
          let '(ps, r) := waitSnapExtension (pset n) runningSnap id c in
          Some (setPhase n ps c match r with waitErr _ => Ended | waitDone ext => Shaking id ext | waitBlocks => Waiting id end)
      end
  | snapConnect id runningEth s started =>
      if negb started then Some n
      else
      let '(ps, r) := registerSnapExtension (pset n) runningEth id s in
      Some match r with
           | inr (Some c) => setPhase n ps c (Shaking id (Some s))
           | _ => mkNet ps (conns n)
           end
  | handshakeDone c fine =>
      match conns n !! c with
      | Some (Shaking id ext) => Some (setPhase n (pset n) c (if fine then Shaken id ext else Ended))
      | _ => None
      end
  | checkLimits c trusted snapSync maxPeers =>
      match conns n !! c with
      | Some (Shaken id ext) =>
          let refused := negb trusted && (tooFewSnap (pset n) snapSync ext || bool_decide (len (pset n) >= maxPeers)) in
          Some (setPhase n (pset n) c (if refused then Ended else LetIn id ext))
      | _ => None
      end
  | registerConn c =>
      match conns n !! c with
      | Some (LetIn id ext) =>
          let '(ps, r) := registerPeer (pset n) id c ext in
          Some (setPhase n ps c match r with Some _ => Ended | None => Running id end)
      | _ => None
      end
  | handlerDone c =>
      match conns n !! c with
      | Some (Running id) =>
          Some (setPhase n match peer (pset n) id with None => pset n | Some _ => (unregisterPeer (pset n) id).1 end c Ended)
      | _ => None
      end
  | closePeers => Some (mkNet (closeSet (pset n) (map_to_list (peers (pset n)))).1 (conns n))
  end.

Definition netInit (n : net) : Prop := n = mkNet newPeerSet ∅.
Definition netReachable : net -> Prop := reachable netInit (fun n e n' => netStep n e = Some n').

Definition withSnap (m : gmap peerId (ethPeer nat S)) : Z :=
  Z.of_nat (size (filter (fun x => is_Some (snapExt x.2)) m)).

(** The peers are those of the running connections, each under its own id; the
    channels are those of the waiting ones; the counter counts. *)
Record netOk (n : net) : Prop := {
  net_running c id : conns n !! c = Some (Running id) <-> exists ext, peers (pset n) !! id = Some (mkEthPeer c ext);
  net_waiting c id : conns n !! c = Some (Waiting id) <-> snapWait (pset n) !! id = Some c;
  net_pending id : is_Some (snapWait (pset n) !! id) -> snapPend (pset n) !! id = None;
  net_count : snapPeers (pset n) = i64 (withSnap (peers (pset n)))
}.

Lemma i64_step a b : i64 (i64 a + b) = i64 (a + b).
Proof.
  unfold i64, swrap. f_equal. replace (_ - 2 ^ (64 - 1) + b + 2 ^ (64 - 1)) with ((a + 2 ^ (64 - 1)) `mod` 2 ^ 64 + b) by lia.
  rewrite Zplus_mod_idemp_l. f_equal. lia.
Qed.

Lemma withSnap_insert m id c ext : m !! id = None ->
  withSnap (<[id := mkEthPeer c ext]> m) = withSnap m + match ext with Some _ => 1 | None => 0 end.
Proof.
  intros Hm. unfold withSnap. destruct ext as [s|].
  - rewrite map_filter_insert_True by (by eexists). rewrite map_size_insert_None; [lia|]. by apply map_lookup_filter_None; left.
  - rewrite map_filter_insert_False by (by intros [? ?]). rewrite delete_id by done. lia.
Qed.

Lemma withSnap_delete m id c ext : m !! id = Some (mkEthPeer c ext) ->
  withSnap (delete id m) = withSnap m - match ext with Some _ => 1 | None => 0 end.
Proof.
  intros Hm. rewrite <-(insert_delete_id m id (mkEthPeer c ext) Hm) at 2. rewrite withSnap_insert by apply lookup_delete_eq. lia.
Qed.

(** A step that only moves a connection between phases that own nothing. *)
Definition ownsNothing (ph : option phase) : Prop := match ph with Some (Running _ | Waiting _) => False | _ => True end.

Lemma netOk_move n c ph : netOk n -> ownsNothing (conns n !! c) -> ownsNothing (Some ph) -> netOk (setPhase n (pset n) c ph).
Proof.
  intros [Hr Hw Hp Hc] Hold Hnew. split; simpl; [| |done|done].
  - intros c' id. rewrite <-Hr. destruct (decide (c = c')) as [<-|]; [|by rewrite lookup_insert_ne].
    rewrite lookup_insert_eq. split; [intros [= ->]; done|]. intros He. by rewrite He in Hold.
  - intros c' id. rewrite <-Hw. destruct (decide (c = c')) as [<-|]; [|by rewrite lookup_insert_ne].
    rewrite lookup_insert_eq. split; [intros [= ->]; done|]. intros He. by rewrite He in Hold.
Qed.

(** The pending extensions matter only where a connection waits. *)
Lemma netOk_pend n pend : netOk n -> (forall id, is_Some (snapWait (pset n) !! id) -> pend !! id = None) ->
  netOk (mkNet (mkPeerSet (peers (pset n)) (snapPeers (pset n)) (snapWait (pset n)) pend (closed (pset n))) (conns n)).
Proof. intros [Hr Hw Hp Hc] Hpend. by split. Qed.

Lemma netOk_connect n c id runningSnap started n' : netOk n -> netStep n (ethConnect c id runningSnap started) = Some n' -> netOk n'.
Proof.
  intros Hn. cbn [netStep]. destruct (conns n !! c) eqn:Hc; [done|]. unfold waitSnapExtension.
  assert (forall ph, ownsNothing (Some ph) -> netOk (setPhase n (pset n) c ph)) as Hmove by (intros; apply netOk_move; [done|by rewrite Hc|done]).
  destruct started; [|intros [= <-]; by apply Hmove]. destruct runningSnap; [|intros [= <-]; by apply Hmove]. cbn [negb].
  destruct (peers (pset n) !! id) eqn:Hpeer; [intros [= <-]; by apply Hmove|].
  destruct (snapWait (pset n) !! id) eqn:Hwait; [intros [= <-]; by apply Hmove|].
  destruct (snapPend (pset n) !! id) eqn:Hpend; intros [= <-].
  - apply (netOk_pend (setPhase n (pset n) c (Shaking id (Some s)))); [by apply Hmove|]. intros id' Hid. apply lookup_delete_None. right. by apply Hn.
  - destruct Hn as [Hr Hw Hp Hcnt]. split; simpl; [| | |done].
    + intros c' id'. rewrite <-Hr. destruct (decide (c = c')) as [<-|]; [|by rewrite lookup_insert_ne]. rewrite lookup_insert_eq, Hc. done.
    + intros c' id'. destruct (decide (c = c')) as [<-|Hne].
      * rewrite lookup_insert_eq. destruct (decide (id = id')) as [<-|]; [by rewrite lookup_insert_eq|].
        rewrite lookup_insert_ne by done. rewrite <-Hw, Hc. split; [congruence|done].
      * rewrite lookup_insert_ne by done. rewrite Hw. destruct (decide (id = id')) as [<-|]; [|by rewrite lookup_insert_ne].
        rewrite lookup_insert_eq, Hwait. split; congruence.
    + intros id'. destruct (decide (id = id')) as [<-|]; [done|]. rewrite lookup_insert_ne by done. apply Hp.
Qed.

Lemma netOk_snap n id runningEth s started n' : netOk n -> netStep n (snapConnect id runningEth s started) = Some n' -> netOk n'.
Proof.
  intros Hn. assert (mkNet (pset n) (conns n) = n) as Heta by (by destruct n). cbn [netStep]. unfold registerSnapExtension.
  destruct started; [|by intros [= <-]]. destruct runningEth; [|intros [= <-]; by rewrite Heta]. cbn [negb].
  destruct (peers (pset n) !! id) eqn:Hpeer; [intros [= <-]; by rewrite Heta|].
  destruct (snapPend (pset n) !! id) eqn:Hpend; [intros [= <-]; by rewrite Heta|].
  destruct (snapWait (pset n) !! id) as [c|] eqn:Hwait; intros [= <-].
  - destruct Hn as [Hr Hw Hp Hcnt]. pose proof (proj2 (Hw c id) Hwait) as Hc. split; simpl; [| | |done].
    + intros c' id'. rewrite <-Hr. destruct (decide (c = c')) as [<-|]; [|by rewrite lookup_insert_ne]. rewrite lookup_insert_eq, Hc. done.
    + intros c' id'. destruct (decide (id = id')) as [<-|Hid].
      * rewrite lookup_delete_eq. destruct (decide (c = c')) as [<-|]; [by rewrite lookup_insert_eq|]. rewrite lookup_insert_ne by done.
        rewrite Hw, Hwait. split; [congruence|done].
      * rewrite lookup_delete_ne by done. rewrite <-Hw. destruct (decide (c = c')) as [<-|]; [|by rewrite lookup_insert_ne].
        rewrite lookup_insert_eq, Hc. split; congruence.
    + intros id' [c' Hid]. apply lookup_delete_Some in Hid as [_ Hid]. apply Hp. by eexists.
  - apply netOk_pend; [done|]. intros id' Hid. rewrite lookup_insert_ne; [by apply Hn|]. intros <-. rewrite Hwait in Hid. by destruct Hid.
Qed.

Lemma netOk_register n c n' : netOk n -> netStep n (registerConn c) = Some n' -> netOk n'.
Proof.
  intros Hn. cbn [netStep]. destruct (conns n !! c) as [[id|id ext|id ext|id ext|id|]|] eqn:Hc; try done. unfold registerPeer.
  assert (forall ph, ownsNothing (Some ph) -> netOk (setPhase n (pset n) c ph)) as Hmove by (intros; apply netOk_move; [done|by rewrite Hc|done]).
  destruct (closed (pset n)); [intros [= <-]; by apply Hmove|].
  destruct (peers (pset n) !! id) eqn:Hpeer; intros [= <-]; [by apply Hmove|].
  destruct Hn as [Hr Hw Hp Hcnt]. split; simpl; [| |done|].
  - intros c' id'. destruct (decide (c = c')) as [<-|Hne].
    + rewrite lookup_insert_eq. destruct (decide (id = id')) as [<-|Hid].
      * rewrite lookup_insert_eq. split; [eauto|done].
      * rewrite lookup_insert_ne by done. rewrite <-Hr, Hc. split; congruence.
    + rewrite lookup_insert_ne by done. rewrite Hr. destruct (decide (id = id')) as [<-|Hid]; [|by rewrite lookup_insert_ne].
      rewrite lookup_insert_eq, Hpeer. split; [by intros []|intros [? [=]]; done].
  - intros c' id'. rewrite <-Hw. destruct (decide (c = c')) as [<-|]; [|by rewrite lookup_insert_ne]. rewrite lookup_insert_eq, Hc. done.
  - rewrite withSnap_insert, Hcnt by done. destruct ext; [by rewrite i64_step|by rewrite Z.add_0_r].
Qed.

Lemma netOk_done n c n' : netOk n -> netStep n (handlerDone c) = Some n' -> netOk n'.
Proof.
  intros [Hr Hw Hp Hcnt]. cbn [netStep]. destruct (conns n !! c) as [[id|id ext|id ext|id ext|id|]|] eqn:Hc; try done. intros [= <-].
  destruct (proj1 (Hr c id) Hc) as [ext Hpeer]. unfold peer, unregisterPeer. rewrite Hpeer. split; simpl; [| |done|].
  - intros c' id'. destruct (decide (id = id')) as [<-|Hid].
    + rewrite lookup_delete_eq. destruct (decide (c = c')) as [<-|]; [rewrite lookup_insert_eq; split; [done|by intros []]|].
      rewrite lookup_insert_ne by done. rewrite Hr, Hpeer. split; [intros [? [=]]; done|by intros []].
    + rewrite lookup_delete_ne by done. rewrite <-Hr. destruct (decide (c = c')) as [<-|]; [|by rewrite lookup_insert_ne].
      rewrite lookup_insert_eq, Hc. split; congruence.
  - intros c' id'. rewrite <-Hw. destruct (decide (c = c')) as [<-|]; [|by rewrite lookup_insert_ne]. rewrite lookup_insert_eq, Hc. done.
  - rewrite (withSnap_delete _ _ c ext) by done. rewrite Hcnt. destruct ext; [|by rewrite Z.sub_0_r]. apply (i64_step _ (-1)).
Qed.

Lemma netOk_step n e n' : netOk n -> netStep n e = Some n' -> netOk n'.
Proof.
  intros Hn. destruct e; [by apply netOk_connect|by apply netOk_snap| | |by apply netOk_register|by apply netOk_done|].
  - cbn [netStep]. destruct (conns n !! c) as [[]|] eqn:Hc; try done. intros [= <-]. apply netOk_move; [done|by rewrite Hc|by destruct fine].
  - cbn [netStep]. destruct (conns n !! c) as [[]|] eqn:Hc; try done. intros [= <-]. apply netOk_move; [done|by rewrite Hc|by case_match].
  - intros [= <-]. by destruct Hn as [Hr Hw Hp Hcnt].
Qed.

(** ** Properties *)

(** C26: however the connections interleave, the peer set holds exactly the peers
    whose handler is running, each under its id, and counts those with a
    [snap] extension; the channels are those of the connections that wait, and
    no connection waits for an extension that has arrived. *)
Theorem peerset_invariant n : netReachable n -> netOk n.
Proof.
  apply reachable_inv.
  - intros ? ->. split; simpl; [intros c id|intros c id|intros id|].
    + rewrite !lookup_empty. split; [done|by intros []].
    + by rewrite !lookup_empty.
    + rewrite lookup_empty. by intros [].
    + reflexivity.
  - intros s e s'. apply netOk_step.
Qed.

(** Runs. *)
Fixpoint netRun (n : net) (es : list netEvent) : option net :=
  match es with
  | [] => Some n
  | e :: es => match netStep n e with Some n => netRun n es | None => None end
  end.

Lemma netRun_reachable es : forall n n', netReachable n -> netRun n es = Some n' -> netReachable n'.
Proof.
  induction es as [|e es IH]; intros n n' Hn; cbn [netRun]; [by intros [= <-]|].
  destruct (netStep n e) as [n1|] eqn:He; [|done]. apply IH. by eapply reach_step.
Qed.

Lemma netInit_reachable : netReachable (mkNet newPeerSet ∅).
Proof. by apply reach_init. Qed.

(** The limit is checked before the peer is registered, in another step: two
    connections of untrusted peers that are checked first are both taken, also
    when only one peer is allowed. *)
Theorem maxPeers_exceeded : exists n, netReachable n /\ len (pset n) = 2 /\
  netRun (mkNet newPeerSet ∅)
    [ethConnect 0 (lit "a") false true; ethConnect 1 (lit "b") false true; handshakeDone 0 true; handshakeDone 1 true;
     checkLimits 0 false false 1; checkLimits 1 false false 1; registerConn 0; registerConn 1] = Some n.
Proof.
  assert (exists n, netRun (mkNet newPeerSet ∅)
    [ethConnect 0 (lit "a") false true; ethConnect 1 (lit "b") false true; handshakeDone 0 true; handshakeDone 1 true;
     checkLimits 0 false false 1; checkLimits 1 false false 1; registerConn 0; registerConn 1] = Some n /\ len (pset n) = 2) as (n & Hn & Hl).
  { eexists. split; vm_compute; reflexivity. }
  exists n. split; [|done]. eapply netRun_reachable; [exact netInit_reachable|exact Hn].
Qed.
End net.

Definition exampleRun : list (@netEvent nat) :=
  [snapConnect (lit "b") true 7%nat true; ethConnect 0 (lit "a") true true; snapConnect (lit "a") true 5%nat true; handshakeDone 0 true;
   checkLimits 0 false true 50; registerConn 0].

Definition exampleNet : net := default (mkNet newPeerSet ∅) (netRun (mkNet newPeerSet ∅) exampleRun).

Lemma peerset_invariant_witness : conns exampleNet !! 0%nat = Some (Running (lit "a")) /\ snapLen (pset exampleNet) = 1 /\ netOk exampleNet.
Proof.
  split; [vm_compute; reflexivity|]. split; [vm_compute; reflexivity|].
  apply (peerset_invariant exampleNet). apply (netRun_reachable exampleRun _ _ netInit_reachable). vm_compute. reflexivity.
Defined.
