(* ===== verification/Gossip.v ===== *)
(** * Sending records to peers

    The sending side of [eth/protocols/eth]: the cache of hashes a peer knows,
    [SendFileDatas] and the other senders of [peer.go], the two write loops of
    [broadcast.go], and [BroadcastFileData] and [GetFileDatasFileData] of
    [eth/handler.go], which use the peer set.

    A write loop is a state that its [select] waits in, a function for what it
    does before it waits and one for each event.  What the network answers, the
    element a set pops and the order of maps are arguments. *)

From stdpp Require Import sorting.
From S2P Require Import Prelude Bytes RlpRaw RlpEncode RlpDecode DAType FilePool Fetcher Intake RlpDA P2P PeerSet.

Local Open Scope Z_scope.

#[local] Abbreviation size := base.size (only parsing).

(** ** Known hashes *)

Record knownCache := mkKnown { khashes : gset Hash; kmax : Z }.

Definition maxKnownFds : Z := 32768.
Definition newKnownCache (max : Z) : knownCache := mkKnown ∅ max.
Definition Contains (k : knownCache) (hash : Hash) : bool := bool_decide (hash ∈ khashes k).
Definition Cardinality (k : knownCache) : Z := Z.of_nat (size (khashes k)).

Section known.
(** [mapset.Set.Pop] takes out any element. *)
Context (pop : gset Hash -> Hash).

(** [for k.hashes.Cardinality() > limit { k.hashes.Pop() }]; every round takes
    one element, so that the number of elements is enough fuel. *)
Fixpoint popLoop (fuel : nat) (limit : Z) (s : gset Hash) : gset Hash :=
  match fuel with
  | O => s
  | S fuel => if decide (Z.of_nat (size s) > limit) then popLoop fuel limit (s ∖ {[pop s]}) else s
  end.

Definition AddKnown (hashes : list Hash) (k : knownCache) : knownCache :=
  let limit := Z.max 0 (kmax k - Z.of_nat (length hashes)) in
  mkKnown (popLoop (size (khashes k)) limit (khashes k) ∪ list_to_set hashes) (kmax k).

Definition popsElements : Prop := forall s : gset Hash, s <> ∅ -> pop s ∈ s.

Lemma popLoop_spec fuel limit s : popsElements -> (size s <= fuel)%nat -> 0 <= limit ->
  popLoop fuel limit s ⊆ s /\ Z.of_nat (size (popLoop fuel limit s)) = Z.min (Z.of_nat (size s)) limit.
Proof.
  intros Hpop. revert s. induction fuel as [|fuel IH]; intros s Hs Hl; cbn [popLoop]; [split; [done|lia]|].
  case_decide as Hd; [|split; [done|lia]]. assert (s <> ∅) as Hne by (intros ->; rewrite size_empty in Hd; lia).
  apply Hpop in Hne. assert (size (s ∖ {[pop s]}) = size s - 1)%nat as Hsz by (rewrite size_difference, size_singleton; [done|set_solver]).
  destruct (IH (s ∖ {[pop s]})) as [Hsub Hsize]; [lia|done|]. split; [set_solver|]. lia.
Qed.

Lemma size_list_to_set_le (l : list Hash) : (size (list_to_set l : gset Hash) <= length l)%nat.
Proof.
  induction l as [|h l IH]; [done|]. cbn [list_to_set length]. rewrite size_union_alt, size_singleton.
  pose proof (subseteq_size (list_to_set l ∖ {[h]} : gset Hash) (list_to_set l) ltac:(set_solver)). lia.
Qed.

(** After hashes are added to the cache of known hashes it contains all of
    them, and otherwise only what it contained before; it forgets as little as
    the limit asks for, whatever elements the set pops, and exceeds the limit
    only when more hashes than that are added at once. *)
Theorem AddKnown_correct hashes k : popsElements ->
  let k' := AddKnown hashes k in
  kmax k' = kmax k /\ (forall h, h ∈ hashes -> Contains k' h = true) /\
  (forall h, Contains k' h = true -> h ∈ hashes \/ Contains k h = true) /\
  (Cardinality k + Z.of_nat (length hashes) <= kmax k -> forall h, Contains k h = true -> Contains k' h = true) /\
  Cardinality k' <= Z.max (kmax k) (Z.of_nat (length hashes)).
Proof.
  intros Hpop k'. unfold Contains, Cardinality, k', AddKnown. simpl.
  destruct (popLoop_spec (size (khashes k)) (Z.max 0 (kmax k - Z.of_nat (length hashes))) (khashes k) Hpop) as [Hsub Hsize]; [lia|lia|].
  set (s := popLoop _ _ _) in *. setoid_rewrite bool_decide_eq_true. setoid_rewrite elem_of_union. setoid_rewrite elem_of_list_to_set.
  split_and!; [done|tauto|set_solver| |].
  - intros Hfit h Hh. left. replace s with (khashes k); [done|]. symmetry. apply set_subseteq_size_eq; [done|lia].
  - rewrite size_union_alt. pose proof (size_list_to_set_le hashes).
    pose proof (subseteq_size (list_to_set hashes ∖ s : gset Hash) (list_to_set hashes) ltac:(set_solver)). lia.
Qed.
End known.

(** ** The protocol *)

Definition ETH67 : Z := 67.
Definition ETH68 : Z := 68.
Definition StatusMsg : Z := 0x00.
Definition FileDataMsg : Z := 0x0c.
Definition ReqFileDatasMsg : Z := 0x12.
Definition ResFileDatasMsg : Z := 0x11.
Definition PooledFileDatasMsg : Z := 0x0b.
Definition GetPooledFileDatasMsg : Z := 0x0d.
Definition NewPooledFileDataHashesMsg : Z := 0x0e.

(** [MakeProtocols] with [protocolLengths]. *)
Definition ethProtocols : list Protocol := [mkProtocol (lit "eth") ETH68 17; mkProtocol (lit "eth") ETH67 17].

Definition hashType : rtype := TByteArray 32.
Definition fileDataPacketType : rtype := TSlice (TPtr daType).
Definition hashesPacket67Type : rtype := TSlice hashType.
Definition hashesPacket68Type : rtype := TStruct [TSlice (TUint 32); TSlice hashType].
Definition requestPacketType : rtype := TStruct [TUint 64; TSlice hashType].
Definition pooledPacketType : rtype := TStruct [TUint 64; TSlice (TPtr daType)].
Definition pooledRLPPacketType : rtype := TStruct [TUint 64; TSlice TRaw].
Definition responsePacketType : rtype := TStruct [TUint 64; TBytes].
Definition batchType : rtype := TStruct [TByteArray 32; TUint 64; TUint 64; TSlice TBytes].

Inductive ethErr :=
| errDecode
| errDADataIllegal
| errMsgTooLarge
| errInvalidMsgCode
| errNoStatusMsg
| errNetworkIDMismatch
| errProtocolVersionMismatch
| errGenesisMismatch
| errForkIDRejected
| errEncode (e : rlpErr)
| errNetwork
| errSendFailed.

(** A message on its way: the code on the wire and the payload. *)
Abbreviation wireMsg := (Z * list Z)%type (only parsing).

(** [p2p.Send].  The reader it hands on gives the bytes of [EncodeToBytes], see
    [Read_correct]; [netOk] is whether the connection takes the message. *)
Definition p2pSend (rw : protoRW) (msgcode : Z) (t : rtype) (data : rval) (netOk : bool) : option wireMsg * option ethErr :=
  match EncodeToBytes newEncBuffer t data with
  | Done (inr payload) =>
      match WriteMsg rw msgcode with
      | None => (None, Some errInvalidMsgCode)
      | Some w => (Some (w, payload), if netOk then None else Some errNetwork)
      end
  | Done (inl e) => (None, Some (errEncode e))
  | _ => (None, Some errNetwork)
  end.

(** ** The write loops *)

(** The state a write loop waits in: [done] is whether a writer is running. *)
Record sendLoop := mkLoop { queue : list Hash; inFlight : bool; loopFailed : bool }.

Definition newLoop : sendLoop := mkLoop [] false false.

Definition maxQueuedFileData : Z := 4096.
Definition maxQueuedFdAnns : Z := 4096.
Definition maxTxPacketSize : Z := 100 * 1024.

Inductive writeEvent := EvHashes (hs : list Hash) | EvDone | EvFail.

(** [queue[:copy(queue, queue[len(queue)-cap:])]] *)
Definition keepLast (cap : Z) (q : list Hash) : list Hash := drop (length q - Z.to_nat cap) q.

Definition writeStep (cap : Z) (l : sendLoop) (ev : writeEvent) : sendLoop :=
  match ev with
  | EvHashes hs =>
      if loopFailed l then l
      else
        let q := queue l ++ hs in
        mkLoop (if decide (Z.of_nat (length q) > maxQueuedFileData) then keepLast cap q else q) (inFlight l) (loopFailed l)
  | EvDone => mkLoop (queue l) false (loopFailed l)
  | EvFail => mkLoop (queue l) (inFlight l) true
  end.

(** ** The peer *)

(** [eth.Peer], with the states of its two write loops. *)
Record EthPeer := mkEth {
  ethId : list Z;
  version : Z;
  ethRW : protoRW;
  headTD : Z;
  knownFds : knownCache;
  fdBroadcast : sendLoop;
  fdAnnounce : sendLoop
}.

Definition set_known (k : knownCache) (p : EthPeer) : EthPeer :=
  mkEth (ethId p) (version p) (ethRW p) (headTD p) k (fdBroadcast p) (fdAnnounce p).
Definition set_fdBroadcast (l : sendLoop) (p : EthPeer) : EthPeer :=
  mkEth (ethId p) (version p) (ethRW p) (headTD p) (knownFds p) l (fdAnnounce p).
Definition set_fdAnnounce (l : sendLoop) (p : EthPeer) : EthPeer :=
  mkEth (ethId p) (version p) (ethRW p) (headTD p) (knownFds p) (fdBroadcast p) l.

Definition KnownFileData (p : EthPeer) (hash : Hash) : bool := Contains (knownFds p) hash.

Section Gossip.
Context {kzg : KZG} {kw : KZGWords kzg} `{crypto : Crypto} `{sdk : SDK} `{sqlStore : !DAStore}.
Context (pop : gset Hash -> Hash).

Definition markFileData (hash : Hash) (p : EthPeer) : EthPeer := set_known (AddKnown pop [hash] (knownFds p)) p.
Definition markAll (hashes : list Hash) (p : EthPeer) : EthPeer := set_known (AddKnown pop hashes (knownFds p)) p.

(** The loop of [SendFileDatas]: [commitIsEmpty] is declared before it. *)
Fixpoint sendMark (fds : list DA) (isEmpty : bool) (p : EthPeer) : EthPeer * option ethErr :=
  match fds with
  | [] => (p, None)
  | fd :: fds =>
      let isEmpty := if commitIsEmpty fd then true else isEmpty in
      if bool_decide (Cmp (TxHash fd) zeroHash = 0) && isEmpty then (p, Some errDADataIllegal)
      else if bool_decide (Cmp (TxHash fd) zeroHash = 0) && negb isEmpty then sendMark fds isEmpty (markFileData (cmHash fd) p)
      else if bool_decide (Cmp (TxHash fd) zeroHash <> 0) && negb isEmpty then sendMark fds isEmpty (markFileData (TxHash fd) (markFileData (cmHash fd) p))
      else sendMark fds isEmpty (markFileData (TxHash fd) p)
  end.

Definition recordsVal (fds : list DA) : rval := VList ((fun d => VPtr (Some (daVal d))) <$> fds).
Definition hashesVal (hs : list Hash) : rval := VList (VBytes <$> hs).

Definition SendFileDatas (p : EthPeer) (fds : list DA) (netOk : bool) : EthPeer * option wireMsg * option ethErr :=
  let '(p, e) := sendMark fds false p in
  match e with
  | Some e => (p, None, Some e)
  | None => let '(m, e) := p2pSend (ethRW p) FileDataMsg fileDataPacketType (recordsVal fds) netOk in (p, m, e)
  end.

(** [taken]: the loop takes the hashes before the peer terminates. *)
Definition AsyncSendFileData (p : EthPeer) (hashes : list Hash) (taken : bool) : EthPeer :=
  if taken then markAll hashes (set_fdBroadcast (writeStep maxQueuedFileData (fdBroadcast p) (EvHashes hashes)) p) else p.

Definition AsyncSendPooledFileDataHashes (p : EthPeer) (hashes : list Hash) (taken : bool) : EthPeer :=
  if taken then markAll hashes (set_fdAnnounce (writeStep maxQueuedFdAnns (fdAnnounce p) (EvHashes hashes)) p) else p.

Definition sendPooledFileDataHashes66 (p : EthPeer) (hashes : list Hash) (netOk : bool) : outcome (EthPeer * option wireMsg * option ethErr) :=
  let p := markAll hashes p in
  _ ← index hashes 0;
  let '(m, e) := p2pSend (ethRW p) NewPooledFileDataHashesMsg hashesPacket67Type (hashesVal hashes) netOk in
  Done (p, m, e).

Definition sendPooledFileDataHashes68 (p : EthPeer) (hashes : list Hash) (sizes : list Z) (netOk : bool) : outcome (EthPeer * option wireMsg * option ethErr) :=
  let p := markAll hashes p in
  _ ← index hashes 0;
  let '(m, e) := p2pSend (ethRW p) NewPooledFileDataHashesMsg hashesPacket68Type (VList [VList (VUint <$> sizes); hashesVal hashes]) netOk in
  Done (p, m, e).

(** [id] is the random number of the request. *)
Definition RequestFileDatas (p : EthPeer) (id : Z) (hashes : list Hash) (netOk : bool) : outcome (option wireMsg * option ethErr) :=
  _ ← index hashes 0;
  Done (p2pSend (ethRW p) GetPooledFileDatasMsg requestPacketType (VList [VUint id; hashesVal hashes]) netOk).

Definition ReplyPooledFileDatasRLP (p : EthPeer) (id : Z) (hashes : list Hash) (fds : list (list Z)) (netOk : bool)
  : EthPeer * option wireMsg * option ethErr :=
  let p := markAll hashes p in
  let '(m, e) := p2pSend (ethRW p) PooledFileDatasMsg pooledRLPPacketType (VList [VUint id; VList (VBytes <$> fds)]) netOk in
  (p, m, e).

(** ** What the loops do before they wait *)

(** The records of the queued hashes the pool answers for. *)
Definition collectRecords (sql : nat -> sqlDB) (fp : FilePool) (hashes : list Hash) : outcome (FilePool * list DA) :=
  fold_outcome (fun '(fp, fds) hash =>
    '(fp, fd) ← Get sql fp hash;
    Done (fp, match fd with Some fd => fds ++ [fd] | None => fds end)) hashes (fp, []).

(** [broadcastFileData] until its [select]: the records of the writer it
    starts.  All of the queue is taken. *)
Definition broadcastStart (sql : nat -> sqlDB) (fp : FilePool) (l : sendLoop) : outcome (FilePool * sendLoop * option (list DA)) :=
  if negb (inFlight l) && bool_decide (queue l <> []) then
    '(fp, fds) ← collectRecords sql fp (queue l);
    Done (if decide (0 < length fds)%nat then (fp, mkLoop [] true (loopFailed l), Some fds) else (fp, mkLoop [] (inFlight l) (loopFailed l), None))
  else Done (fp, l, None).

(** The loop over the queue of [announceFileDatas]: what is announced, and the
    rest of the queue. *)
Fixpoint announceScan (sql : nat -> sqlDB) (fp : FilePool) (q : list Hash) (size : Z) : outcome (FilePool * list (Hash * Z) * list Hash) :=
  match q with
  | [] => Done (fp, [], [])
  | hash :: rest =>
      if decide (size < maxTxPacketSize) then
        '(fp, fd) ← Get sql fp hash;
        match fd with
        | Some fd =>
            '(fp, out, rest) ← announceScan sql fp rest (size + Z.of_nat HashLength);
            Done (fp, (hash, u32 (Size fd)) :: out, rest)
        | None => announceScan sql fp rest size
        end
      else Done (fp, [], q)
  end.

Definition announceStart (sql : nat -> sqlDB) (fp : FilePool) (l : sendLoop) : outcome (FilePool * sendLoop * option (list (Hash * Z))) :=
  if negb (inFlight l) && bool_decide (queue l <> []) then
    '(fp, out, rest) ← announceScan sql fp (queue l) 0;
    Done (if decide (0 < length out)%nat then (fp, mkLoop rest true (loopFailed l), Some out) else (fp, mkLoop rest (inFlight l) (loopFailed l), None))
  else Done (fp, l, None).

(** The writer [announceFileDatas] starts. *)
Definition announceSend (p : EthPeer) (out : list (Hash * Z)) (netOk : bool) : outcome (EthPeer * option wireMsg * option ethErr) :=
  if decide (version p >= ETH68) then sendPooledFileDataHashes68 p out.*1 out.*2 netOk else sendPooledFileDataHashes66 p out.*1 netOk.

(** ** [BroadcastFileData] *)

Abbreviation peerMap := (gmap peerId (ethPeer EthPeer unit)) (only parsing).

(** [for _, peer := range peers { fdset[peer] = append(fdset[peer], hash) }] *)
Definition addToAll (hash : Hash) (ps : list (peerId * ethPeer EthPeer unit)) (fdset : gmap peerId (list Hash)) : gmap peerId (list Hash) :=
  foldl (fun fdset x => <[x.1 := default [] (fdset !! x.1) ++ [hash]]> fdset) fdset ps.

(** The loop over the records; [None] when it returns. *)
Fixpoint broadcastSet (order : peerMap -> list (peerId * ethPeer EthPeer unit)) (ps : peerMap) (fds : list DA) (fdset : gmap peerId (list Hash))
  : option (gmap peerId (list Hash)) :=
  match fds with
  | [] => Some fdset
  | fd :: fds =>
      let noTx := bool_decide (Cmp (TxHash fd) zeroHash = 0) in
      if noTx && commitIsEmpty fd then None
      else if noTx && negb (commitIsEmpty fd) then
        broadcastSet order ps fds (addToAll (cmHash fd) (peerWithOutFileData (fun p => KnownFileData p (cmHash fd)) (order ps)) fdset)
      else if negb noTx && negb (commitIsEmpty fd) then
        broadcastSet order ps fds (addToAll (cmHash fd)
          (peerWithOutFileData2 (fun p => KnownFileData p (TxHash fd)) (fun p => KnownFileData p (cmHash fd)) (order ps)) fdset)
      else
        broadcastSet order ps fds (addToAll (TxHash fd) (peerWithOutFileData (fun p => KnownFileData p (TxHash fd)) (order ps)) fdset)
  end.

Definition updatePeer (f : EthPeer -> EthPeer) (id : peerId) (ps : peerMap) : peerMap :=
  alter (fun x => mkEthPeer (f (peerOf x)) (snapExt x)) id ps.

Definition BroadcastFileData (order : peerMap -> list (peerId * ethPeer EthPeer unit))
    (orderSet : gmap peerId (list Hash) -> list (peerId * list Hash)) (taken : peerId -> bool) (ps : peerMap) (fds : list DA) : peerMap :=
  match broadcastSet order ps fds ∅ with
  | None => ps
  | Some fdset => foldl (fun ps '(id, hashes) => updatePeer (fun p => AsyncSendFileData p hashes (taken id)) id ps) ps (orderSet fdset)
  end.

(** ** [GetFileDatasFileData] *)

Definition requestSet (order : peerMap -> list (peerId * ethPeer EthPeer unit)) (ps : peerMap) (hashes : list Hash) : gmap peerId (list Hash) :=
  foldl (fun annos hash => addToAll hash (peersToGetFileData (order ps)) annos) ∅ hashes.

(** The requests, with the random numbers [ids] and the answers [netOk] of the
    network. *)
Definition GetFileDatasFileData (order : peerMap -> list (peerId * ethPeer EthPeer unit))
    (orderSet : gmap peerId (list Hash) -> list (peerId * list Hash)) (ids : peerId -> Z) (netOk : peerId -> bool) (ps : peerMap) (hashes : list Hash)
  : outcome (list (peerId * option wireMsg)) :=
  fold_outcome (fun out '(id, hs) =>
    match ps !! id with
    | None => Done out
    | Some p => '(m, _) ← RequestFileDatas (peerOf p) (ids id) hs (netOk id); Done (out ++ [(id, m)])
    end) (orderSet (requestSet order ps hashes)) [].

(** ** What is broadcast *)

(** The hash a record is sent under, whether a peer is known to have it, and the
    records that end the broadcast. *)
Definition broadcastKey (fd : DA) : Hash := if commitIsEmpty fd then TxHash fd else cmHash fd.

Definition hasRecord (p : EthPeer) (fd : DA) : bool :=
  (bool_decide (Cmp (TxHash fd) zeroHash <> 0) && KnownFileData p (TxHash fd)) || (negb (commitIsEmpty fd) && KnownFileData p (cmHash fd)).

Definition illegalDA (fd : DA) : bool := bool_decide (Cmp (TxHash fd) zeroHash = 0) && commitIsEmpty fd.

Lemma addToAll_lookup hash ps fdset id : NoDup ps.*1 ->
  addToAll hash ps fdset !! id = if decide (id ∈ ps.*1) then Some (default [] (fdset !! id) ++ [hash]) else fdset !! id.
Proof.
  unfold addToAll. revert fdset. induction ps as [|x ps IH]; intros fdset Hnd; cbn [foldl fmap list_fmap].
  { rewrite decide_False by set_solver. done. }
  cbn [fmap list_fmap] in Hnd. apply NoDup_cons in Hnd as [Hx Hnd]. rewrite IH by done. destruct (decide (x.1 = id)) as [<-|Hne].
  - rewrite decide_False by done. rewrite decide_True by set_solver. by rewrite lookup_insert_eq.
  - rewrite lookup_insert_ne by done. destruct (decide (id ∈ ps.*1)); [rewrite decide_True by set_solver|rewrite decide_False by set_solver]; done.
Qed.

(** One record goes to the peers that do not have it. *)
Lemma broadcastSet_cons order ps fd fds fdset :
  broadcastSet order ps (fd :: fds) fdset =
  if illegalDA fd then None
  else broadcastSet order ps fds (addToAll (broadcastKey fd) (filter (fun x => hasRecord (peerOf x.2) fd = false) (order ps)) fdset).
Proof.
  cbn [broadcastSet]. unfold illegalDA, broadcastKey, hasRecord. rewrite peerWithOutFileData2_filter, !peerWithOutFileData_filter.
  destruct (decide (Cmp (TxHash fd) zeroHash = 0)) as [Ht|Ht].
  - rewrite (bool_decide_true (Cmp _ _ = 0)), (bool_decide_false (Cmp _ _ <> 0)) by tauto. by destruct (commitIsEmpty fd).
  - rewrite (bool_decide_false (Cmp _ _ = 0)), (bool_decide_true (Cmp _ _ <> 0)) by tauto. destruct (commitIsEmpty fd); simpl; [|done].
    do 2 f_equal. apply list_filter_iff. intros x. by rewrite orb_false_r.
Qed.

Lemma order_keys {V} (m : gmap peerId V) l : l ≡ₚ map_to_list m -> NoDup l.*1.
Proof. intros ->. apply NoDup_fst_map_to_list. Qed.

Lemma filter_keys (P : peerId * ethPeer EthPeer unit -> Prop) `{!forall x, Decision (P x)} (ps : peerMap) l id : l ≡ₚ map_to_list ps ->
  NoDup (filter P l).*1 /\ (id ∈ (filter P l).*1 <-> exists x, ps !! id = Some x /\ P (id, x)).
Proof.
  intros Hl. split.
  - pose proof (order_keys ps l Hl) as Hnd. clear Hl. induction l as [|x l IH]; [done|]. cbn [fmap list_fmap] in Hnd.
    apply NoDup_cons in Hnd as [Hx Hnd]. rewrite filter_cons. case_decide; [|by apply IH]. cbn [fmap list_fmap]. constructor; [|by apply IH].
    intros (y & Hy & [_ Hin]%list_elem_of_filter)%list_elem_of_fmap. apply Hx. rewrite Hy. by apply list_elem_of_fmap_2.
  - rewrite list_elem_of_fmap. split.
    + intros ([id' x] & -> & [HP Hx]%list_elem_of_filter). rewrite Hl in Hx. apply elem_of_map_to_list in Hx. by exists x.
    + intros (x & Hx & HP). exists (id, x). split; [done|]. apply list_elem_of_filter. split; [done|]. rewrite Hl. by apply elem_of_map_to_list.
Qed.

Definition missing (fds : list DA) (p : EthPeer) : list Hash := broadcastKey <$> filter (fun fd => hasRecord p fd = false) fds.

Lemma broadcastSet_spec order ps fds : order ps ≡ₚ map_to_list ps -> forall fdset,
  match broadcastSet order ps fds fdset with
  | None => existsb illegalDA fds = true
  | Some fdset' => existsb illegalDA fds = false /\ forall id, fdset' !! id =
      match ps !! id with
      | Some x => match missing fds (peerOf x) with [] => fdset !! id | hs => Some (default [] (fdset !! id) ++ hs) end
      | None => fdset !! id
      end
  end.
Proof.
  intros Ho. induction fds as [|fd fds IH]; intros fdset.
  { split; [done|]. intros id. by destruct (ps !! id). }
  rewrite broadcastSet_cons. cbn [existsb]. destruct (illegalDA fd); [done|]. simpl orb.
  set (fdset1 := addToAll _ _ _). specialize (IH fdset1). destruct (broadcastSet order ps fds fdset1) as [fdset'|]; [|done].
  destruct IH as [Hi IH]. split; [done|]. intros id. rewrite IH. unfold fdset1.
  destruct (filter_keys (fun x => hasRecord (peerOf x.2) fd = false) ps (order ps) id Ho) as [Hnd Hin]. rewrite !addToAll_lookup by done.
  destruct (ps !! id) as [x|] eqn:Hx.
  - unfold missing. rewrite filter_cons. destruct (hasRecord (peerOf x) fd) eqn:Hh.
    + rewrite !decide_False; [done|congruence|]. intros (y & [= <-] & Hy)%Hin. simpl in Hy. congruence.
    + rewrite !decide_True; [|done|apply Hin; by exists x]. cbn [fmap list_fmap]. simpl default. fold (missing fds (peerOf x)).
      change (broadcastKey <$> filter (fun fd => hasRecord (peerOf x) fd = false) fds) with (missing fds (peerOf x)).
      destruct (missing fds (peerOf x)); [done|]. by rewrite <-app_assoc.
  - rewrite decide_False; [done|]. intros (y & [=] & _)%Hin.
Qed.

Lemma updatePeers_lookup (f : peerId -> list Hash -> EthPeer -> EthPeer) l : NoDup l.*1 -> forall ps id,
  foldl (fun ps '(id, hashes) => updatePeer (f id hashes) id ps) ps l !! id =
  match list_to_map (M := gmap peerId (list Hash)) l !! id with
  | Some hs => (fun x => mkEthPeer (f id hs (peerOf x)) (snapExt x)) <$> ps !! id
  | None => ps !! id
  end.
Proof.
  induction l as [|[id' hs] l IH]; intros Hnd ps id; [done|]. cbn [fmap list_fmap] in Hnd. apply NoDup_cons in Hnd as [Hid Hnd].
  cbn [foldl list_to_map foldr]. rewrite IH by done. unfold updatePeer. simpl. destruct (decide (id' = id)) as [->|Hne].
  - rewrite lookup_insert_eq, lookup_alter_eq. by rewrite not_elem_of_list_to_map_1.
  - rewrite lookup_insert_ne, lookup_alter_ne by done. done.
Qed.

(** C33: a broadcast gives every peer exactly the hashes of the records it is not
    known to have, in the order of the records, and marks them as known when
    the peer's loop takes them, whatever the order of the maps; but one record
    with neither a hash nor a commitment ends it before anything is sent, also
    the legal records. *)
Theorem BroadcastFileData_correct order orderSet taken ps fds :
  order ps ≡ₚ map_to_list ps -> (forall m, orderSet m ≡ₚ map_to_list m) ->
  let ps' := BroadcastFileData order orderSet taken ps fds in
  if existsb illegalDA fds then ps' = ps
  else dom ps' = dom ps /\ forall id x, ps !! id = Some x ->
    ps' !! id = Some (mkEthPeer match missing fds (peerOf x) with [] => peerOf x | hs => AsyncSendFileData (peerOf x) hs (taken id) end (snapExt x)).
Proof.
  intros Ho Hs ps'. unfold ps', BroadcastFileData. pose proof (broadcastSet_spec order ps fds Ho ∅) as H.
  destruct (broadcastSet order ps fds ∅) as [fdset|]; [|by rewrite H]. destruct H as [-> Hset].
  set (f := fun id hashes p => AsyncSendFileData p hashes (taken id)).
  assert (forall id, foldl (fun ps '(id, hashes) => updatePeer (f id hashes) id ps) ps (orderSet fdset) !! id =
    match fdset !! id with Some hs => (fun x => mkEthPeer (f id hs (peerOf x)) (snapExt x)) <$> ps !! id | None => ps !! id end) as Hl.
  { intros id. rewrite updatePeers_lookup by (by eapply order_keys). replace (list_to_map (orderSet fdset)) with fdset; [done|].
    rewrite (list_to_map_proper _ _ (order_keys _ _ (Hs fdset)) (Hs fdset)). by rewrite list_to_map_to_list. }
  assert (forall id x, ps !! id = Some x -> foldl (fun ps '(id, hashes) => updatePeer (f id hashes) id ps) ps (orderSet fdset) !! id =
    Some (mkEthPeer match missing fds (peerOf x) with [] => peerOf x | hs => f id hs (peerOf x) end (snapExt x))) as Hl2.
  { intros id x Hx. rewrite Hl, Hset, Hx, lookup_empty. destruct (missing fds (peerOf x)); [by destruct x|done]. }
  split; [|done]. apply set_eq. intros id. rewrite !elem_of_dom. rewrite Hl, Hset. destruct (ps !! id) as [x|] eqn:Hx; [|by rewrite lookup_empty].
  destruct (missing fds (peerOf x)); by rewrite ?lookup_empty.
Qed.

(** ** What the loops send *)

Section loops.
(** The two queries of the database, which do not fail with a panic here. *)
Context (sql : nat -> sqlDB) (byTx byCommit : Hash -> option DA * bool).
Hypothesis HbyTx : forall h, GetCommitmentByTxHash (sql 0%nat) h = Done (byTx h).
Hypothesis HbyCommit : forall h, GetDAByCommitmentHash (sql 0%nat) h = Done (byCommit h).

(** The record of a hash: that of the pool, else of the database. *)
Definition recordOf (fp : FilePool) (h : Hash) : option DA :=
  match get fp h with Some d => Some d | None => match okDA (byTx h) with Some d => Some d | None => okDA (byCommit h) end end.

(** A pool that has asked for more. *)
Definition samePool (fp fp' : FilePool) : Prop := all fp' = all fp.

Lemma Get_recordOf fp h : exists fp', Get sql fp h = Done (fp', recordOf fp h) /\ samePool fp fp'.
Proof.
  unfold Get. rewrite Get_from_eq, HbyTx, HbyCommit. unfold recordOf. destruct (get fp h); [by eexists|]. cbn [mbind outcome_bind].
  destruct (okDA (byTx h)); [by eexists|]. destruct (okDA (byCommit h)); by eexists.
Qed.

Lemma recordOf_same fp fp' h : samePool fp fp' -> recordOf fp' h = recordOf fp h.
Proof. intros Hs. unfold recordOf, get. by rewrite Hs. Qed.

Lemma collectRecords_spec fp hs : exists fp', collectRecords sql fp hs = Done (fp', omap (recordOf fp) hs) /\ samePool fp fp'.
Proof.
  unfold collectRecords. set (f := fun '(fp, fds) hash => _).
  assert (forall hs fp1 ds, samePool fp fp1 -> exists fp', fold_outcome f hs (fp1, ds) = Done (fp', ds ++ omap (recordOf fp) hs) /\ samePool fp fp') as H.
  { clear hs. induction hs as [|h hs IH]; intros fp1 ds Hs; cbn [fold_outcome omap list_omap].
    - exists fp1. by rewrite app_nil_r.
    - unfold f at 1. destruct (Get_recordOf fp1 h) as (fp2 & -> & Hs2). cbn [mbind outcome_bind]. rewrite (recordOf_same _ _ _ Hs).
      assert (samePool fp fp2) as Hs' by (unfold samePool in *; congruence).
      destruct (IH fp2 (match recordOf fp h with Some fd => ds ++ [fd] | None => ds end) Hs') as (fp' & -> & Hs3).
      exists fp'. split; [|done]. destruct (recordOf fp h); [by rewrite <-app_assoc|done]. }
  by apply (H hs fp []).
Qed.

(** A broadcast loop that is not sending takes its whole queue and sends the
    records that the pool or the database has for the queued hashes, in their
    order; nothing is sent when there are none, and while a writer runs or has
    failed the queue waits. *)
Theorem broadcastStart_correct fp l : exists fp', samePool fp fp' /\
  broadcastStart sql fp l = Done
    (if inFlight l then (fp', l, None)
     else match omap (recordOf fp) (queue l) with
          | [] => (fp', mkLoop [] false (loopFailed l), None)
          | ds => (fp', mkLoop [] true (loopFailed l), Some ds)
          end).
Proof.
  unfold broadcastStart. destruct l as [q [|] failed]; simpl; [by exists fp|]. case_bool_decide as Hq.
  - destruct (collectRecords_spec fp q) as (fp' & -> & Hs). exists fp'. split; [done|]. cbn [mbind outcome_bind].
    by destruct (omap (recordOf fp) q).
  - exists fp. assert (q = []) as -> by (by destruct (decide (q = []))). done.
Qed.

Definition found (fp : FilePool) (q : list Hash) : list Hash := filter (fun h => is_Some (recordOf fp h)) q.

Lemma found_same fp fp' q : samePool fp fp' -> found fp' q = found fp q.
Proof. intros Hs. unfold found. apply list_filter_iff. intros h. by rewrite (recordOf_same _ _ _ Hs). Qed.

Lemma announceScan_spec q : forall fp size, 0 <= size -> exists fp' out rest, announceScan sql fp q size = Done (fp', out, rest) /\ samePool fp fp' /\
  found fp q = out.*1 ++ found fp rest /\ (exists pre, q = pre ++ rest) /\
  ((0 < length out)%nat -> size + 32 * Z.of_nat (length out) < maxTxPacketSize + 32) /\ (rest = [] \/ size + 32 * Z.of_nat (length out) >= maxTxPacketSize).
Proof.
  induction q as [|h q IH]; intros fp size Hsize; cbn [announceScan].
  { exists fp, [], []. split_and!; [done|done|done|by exists []|simpl; lia|by left]. }
  case_decide as Hlt.
  2:{ exists fp, [], (h :: q). split_and!; [done|done|done|by exists []|simpl; lia|right; simpl; lia]. }
  destruct (Get_recordOf fp h) as (fp1 & -> & Hs1). cbn [mbind outcome_bind].
  destruct (recordOf fp h) as [d|] eqn:Hr.
  - destruct (IH fp1 (size + 32) ltac:(lia)) as (fp2 & out & rest & Hsc & Hs2 & Hf & (pre & ->) & Hlen & Hend).
    change (size + Z.of_nat HashLength) with (size + 32). rewrite Hsc. cbn [mbind outcome_bind].
    exists fp2, ((h, u32 (Size d)) :: out), rest. rewrite (found_same fp fp1 (pre ++ rest) Hs1), (found_same fp fp1 rest Hs1) in Hf.
    split_and!; [done|unfold samePool in *; congruence| |by exists (h :: pre)| |].
    + unfold found in *. rewrite filter_cons_True by (by rewrite Hr). cbn [fmap list_fmap fst]. rewrite Hf. done.
    + intros _. cbn [length]. destruct out; [simpl; lia|]. specialize (Hlen ltac:(simpl; lia)). cbn [length] in *. lia.
    + destruct Hend as [->|Hend]; [by left|right]. cbn [length]. lia.
  - destruct (IH fp1 size Hsize) as (fp2 & out & rest & Hsc & Hs2 & Hf & (pre & ->) & Hlen & Hend). rewrite Hsc.
    exists fp2, out, rest. rewrite (found_same fp fp1 (pre ++ rest) Hs1), (found_same fp fp1 rest Hs1) in Hf.
    split_and!; [done|unfold samePool in *; congruence| |by exists (h :: pre)|done|done].
    unfold found in *. rewrite filter_cons_False by (rewrite Hr; by intros []). done.
Qed.

(** An announcement has at most 3200 hashes, those of the queue for which
    there is a record, in order, each with its size; what is left in the queue
    announces the rest, so that no hash with a record is skipped, and every
    round shortens the queue. *)
Theorem announceStart_correct fp l : inFlight l = false -> queue l <> [] ->
  exists fp' l' o, announceStart sql fp l = Done (fp', l', o) /\ samePool fp fp' /\
    (length (queue l') < length (queue l))%nat /\ loopFailed l' = loopFailed l /\ inFlight l' = bool_decide (is_Some o) /\
    found fp (queue l) = (default [] o).*1 ++ found fp (queue l') /\ (length (default [] o) <= 3200)%nat.
Proof.
  intros Hfl Hq. unfold announceStart. rewrite Hfl, bool_decide_true by done. cbn [negb andb].
  destruct (announceScan_spec (queue l) fp 0 ltac:(lia)) as (fp' & out & rest & Hsc & Hs & Hf & (pre & Hpre) & Hlen & Hend). rewrite Hsc. cbn [mbind outcome_bind].
  assert (length rest < length (queue l))%nat as Hshort.
  { rewrite Hpre, length_app. destruct pre as [|x pre]; [|simpl; lia]. exfalso. simpl in Hpre. rewrite Hpre in Hq, Hf.
    assert (length (found fp rest) = length out + length (found fp rest))%nat as Hl0 by (rewrite Hf at 1; by rewrite length_app, length_fmap).
    destruct Hend as [->|Hend]; [done|]. unfold maxTxPacketSize in Hend. lia. }
  assert (length out <= 3200)%nat by (destruct out; [simpl; lia|]; unfold maxTxPacketSize in Hlen; specialize (Hlen ltac:(simpl; lia)); lia).
  case_decide as Hout.
  - exists fp', (mkLoop rest true (loopFailed l)), (Some out). split_and!; try done.
  - exists fp', (mkLoop rest false (loopFailed l)), None. destruct out; [|simpl in Hout; lia]. split_and!; try done; simpl; lia.
Qed.
End loops.

(** ** What is refused *)

(** The flag for an empty commitment is not reset from record to record. *)
Fixpoint refusedFrom (fds : list DA) (isEmpty : bool) : bool :=
  match fds with
  | [] => false
  | fd :: fds => let isEmpty := commitIsEmpty fd || isEmpty in
      (bool_decide (Cmp (TxHash fd) zeroHash = 0) && isEmpty) || refusedFrom fds isEmpty
  end.

Lemma sendMark_refused fds : forall isEmpty p,
  (sendMark fds isEmpty p).2 = (if refusedFrom fds isEmpty then Some errDADataIllegal else None) /\ ethRW (sendMark fds isEmpty p).1 = ethRW p.
Proof.
  induction fds as [|fd fds IH]; intros isEmpty p; [done|]. cbn [sendMark refusedFrom].
  replace (if commitIsEmpty fd then true else isEmpty) with (commitIsEmpty fd || isEmpty) by (by destruct (commitIsEmpty fd)).
  destruct (decide (Cmp (TxHash fd) zeroHash = 0)) as [Ht|Ht].
  - rewrite (bool_decide_true (Cmp _ _ = 0)), (bool_decide_false (Cmp _ _ <> 0)) by tauto.
    destruct (commitIsEmpty fd || isEmpty); simpl; [done|]. destruct (IH false (markFileData (cmHash fd) p)) as [-> ->]. done.
  - rewrite (bool_decide_false (Cmp _ _ = 0)), (bool_decide_true (Cmp _ _ <> 0)) by tauto.
    destruct (commitIsEmpty fd || isEmpty) eqn:He; simpl.
    + destruct (IH true (markFileData (TxHash fd) p)) as [-> ->]. done.
    + destruct (IH false (markFileData (TxHash fd) (markFileData (cmHash fd) p))) as [-> ->]. done.
Qed.

(** Whether records are sent depends on their order: two legal records, one
    with a hash and no commitment and one with a commitment and no hash, are
    sent in one order, and in the other refused as illegal, because the flag
    for an empty commitment is kept from the first to the second.  The loop
    then takes the connection for broken and never sends to the peer again. *)
Theorem SendFileDatas_order p txOnly commitOnly :
  Cmp (TxHash txOnly) zeroHash <> 0 -> commitIsEmpty txOnly = true -> Cmp (TxHash commitOnly) zeroHash = 0 -> commitIsEmpty commitOnly = false ->
  illegalDA txOnly = false /\ illegalDA commitOnly = false /\
  (exists p', SendFileDatas p [txOnly; commitOnly] true = (p', None, Some errDADataIllegal)) /\
  (exists p', SendFileDatas p [commitOnly; txOnly] true =
     (p', (p2pSend (ethRW p) FileDataMsg fileDataPacketType (recordsVal [commitOnly; txOnly]) true).1,
          (p2pSend (ethRW p) FileDataMsg fileDataPacketType (recordsVal [commitOnly; txOnly]) true).2)) /\
  forall sql fp l evs, loopFailed l = true -> inFlight l = true -> Forall (fun ev => exists hs, ev = EvHashes hs) evs ->
    broadcastStart sql fp (foldl (writeStep maxQueuedFileData) l evs) = Done (fp, l, None).
Proof.
  intros Ht1 He1 Ht2 He2. unfold illegalDA. rewrite bool_decide_false, bool_decide_true, He1, He2 by done.
  split; [done|]. split; [done|]. split; [|split].
  - unfold SendFileDatas. destruct (sendMark_refused [txOnly; commitOnly] false p) as [Hr _]. cbn [refusedFrom] in Hr.
    rewrite He1, He2, (bool_decide_false (Cmp (TxHash txOnly) _ = 0)), (bool_decide_true (Cmp (TxHash commitOnly) _ = 0)) in Hr by done.
    destruct (sendMark [txOnly; commitOnly] false p) as [p' e]. cbn in Hr. subst e. by exists p'.
  - unfold SendFileDatas. destruct (sendMark_refused [commitOnly; txOnly] false p) as [Hr Hw]. cbn [refusedFrom] in Hr.
    rewrite He1, He2, (bool_decide_false (Cmp (TxHash txOnly) _ = 0)), (bool_decide_true (Cmp (TxHash commitOnly) _ = 0)) in Hr by done.
    destruct (sendMark [commitOnly; txOnly] false p) as [p' e]. cbn in Hr, Hw. subst e. exists p'. rewrite Hw. by destruct (p2pSend _ _ _ _ _).
  - intros sql fp l evs Hf Hi Hevs. assert (foldl (writeStep maxQueuedFileData) l evs = l) as ->.
    { induction Hevs as [|ev evs [hs ->] Hevs IH]; [done|]. cbn [foldl writeStep]. rewrite Hf. exact IH. }
    unfold broadcastStart. by rewrite Hi.
Qed.

(** The queue of a write loop stays within its limit. *)
Lemma writeStep_bound l ev : Z.of_nat (length (queue l)) <= maxQueuedFileData -> Z.of_nat (length (queue (writeStep maxQueuedFileData l ev))) <= maxQueuedFileData.
Proof.
  intros Hl. destruct ev; simpl; [|done|done]. destruct (loopFailed l); [done|]. simpl. case_decide; [|lia]. unfold keepLast. rewrite length_drop.
  unfold maxQueuedFileData in *. lia.
Qed.

(** The messages of the block file-data exchange have codes behind the end of
    the protocol's range: whatever version is negotiated with whatever peer,
    they are never put on the wire. *)
Theorem file_datas_messages_unsendable SortFunc caps name rw : sorts SortFunc -> Z.of_nat (length caps) < 2 ^ 30 ->
  matchProtocols SortFunc ethProtocols caps !! name = Some rw ->
  forall t v netOk, (p2pSend rw ReqFileDatasMsg t v netOk).1 = None /\ (p2pSend rw ResFileDatasMsg t v netOk).1 = None.
Proof.
  intros Hs Hn Hrw t v netOk. destruct (matchProtocols_layout SortFunc ethProtocols caps Hs) as (l & Hl & Hm & _); [|done|].
  { apply lengthsOk_check. reflexivity. }
  apply Hm in Hrw as [Hrw _]. apply (layout_common _ _ _ Hl) in Hrw as [Hp _].
  assert (pLength (rwProto rw) = 17) as Hlen by (repeat (apply elem_of_cons in Hp as [->|Hp]; [done|]); by apply not_elem_of_nil in Hp).
  unfold p2pSend, WriteMsg. rewrite Hlen. destruct (EncodeToBytes newEncBuffer t v) as [[]| |]; done.
Qed.
End Gossip.

(** ** On the small instance *)

Module GossipSample.
Import Sample PoolSample RlpSample.

Definition popFirst (s : gset Hash) : Hash := default [] (head (elements s)).

Lemma popFirst_pops : popsElements popFirst.
Proof.
  intros s Hs. unfold popFirst. destruct (elements s) as [|h l] eqn:He; [by apply elements_empty_inv, leibniz_equiv in He|].
  apply elem_of_elements. rewrite He. apply elem_of_cons. by left.
Qed.

Definition sampleRW : protoRW := mkRW (mkProtocol (lit "eth") ETH68 17) 16.
Definition samplePeer (known : gset Hash) : EthPeer := mkEth (lit "p") ETH68 sampleRW 0 (mkKnown known maxKnownFds) newLoop newLoop.
Definition samplePeers : gmap peerId (ethPeer EthPeer unit) :=
  <[lit "a" := mkEthPeer (samplePeer ∅) None]> (<[lit "b" := mkEthPeer (samplePeer {[cmHash badDA]}) None]> ∅).

(** A record with a transaction hash only. *)
Definition txDA : DA := mkDA (replicate 20 7) 0 3 99 [] (0, 0) [] [] zeroHash (replicate 32 1) 0 12 0 [] [] None zeroHash.
End GossipSample.

Section gossip_witnesses.
Import Sample PoolSample RlpSample GossipSample.

Lemma AddKnown_correct_witness :
  Cardinality (AddKnown popFirst [[1]; [2]] (mkKnown {[[3]; [4]; [5]]} 3)) <= 3 /\
  Contains (AddKnown popFirst [[1]; [2]] (mkKnown {[[3]; [4]; [5]]} 3)) [2] = true.
Proof.
  destruct (AddKnown_correct popFirst [[1]; [2]] (mkKnown {[[3]; [4]; [5]]} 3) popFirst_pops) as (_ & Hin & _ & _ & Hmax).
  split; [exact Hmax|]. apply Hin. apply elem_of_cons. right. by apply list_elem_of_singleton.
Defined.

Lemma BroadcastFileData_correct_witness :
  BroadcastFileData popFirst map_to_list map_to_list (fun _ => true) samplePeers [txDA; badDA] !! lit "b" =
  Some (mkEthPeer (AsyncSendFileData popFirst (samplePeer {[cmHash badDA]}) [TxHash txDA] true) None).
Proof.
  pose proof (BroadcastFileData_correct popFirst map_to_list map_to_list (fun _ => true) samplePeers [txDA; badDA] (reflexivity _) (fun m => reflexivity _)) as H.
  assert (existsb illegalDA [txDA; badDA] = false) as Hi by (vm_compute; reflexivity). cbv zeta in H. rewrite Hi in H.
  destruct H as [_ H]. rewrite (H (lit "b") (mkEthPeer (samplePeer {[cmHash badDA]}) None)); [|vm_compute; reflexivity].
  assert (missing [txDA; badDA] (samplePeer {[cmHash badDA]}) = [TxHash txDA]) as Hm by (vm_compute; reflexivity). cbn [peerOf snapExt]. rewrite Hm. reflexivity.
Defined.

(** The queries of the database that holds the record. *)
Definition byTxOf (h : Hash) : option DA * bool := (head (filter (fun d => TxHash d = h) [badDA]), false).
Definition byCommitOf (h : Hash) : option DA * bool := (head (filter (fun d => cmHash d = h) [badDA]), false).

Lemma broadcastStart_correct_witness : exists fp', samePool pool0 fp' /\
  broadcastStart fixedDB pool0 (mkLoop [cmHash badDA; TxHash txDA] false false) = Done (fp', mkLoop [] true false, Some [badDA]).
Proof.
  destruct (broadcastStart_correct fixedDB byTxOf byCommitOf (fun h => eq_refl) (fun h => eq_refl) pool0 (mkLoop [cmHash badDA; TxHash txDA] false false))
    as (fp' & Hs & Hb).
  exists fp'. split; [exact Hs|]. rewrite Hb. reflexivity.
Defined.

Lemma announceStart_correct_witness : exists fp' l' o,
  announceStart fixedDB pool0 (mkLoop [cmHash badDA; TxHash txDA] false false) = Done (fp', l', o) /\ (length (queue l') < 2)%nat.
Proof.
  destruct (announceStart_correct fixedDB byTxOf byCommitOf (fun h => eq_refl) (fun h => eq_refl) pool0 (mkLoop [cmHash badDA; TxHash txDA] false false)
    eq_refl ltac:(discriminate)) as (fp' & l' & o & Ha & _ & Hl & _).
  exists fp', l', o. split; [exact Ha|exact Hl].
Defined.

Lemma SendFileDatas_order_witness : exists p', SendFileDatas popFirst (samplePeer ∅) [txDA; badDA] true = (p', None, Some errDADataIllegal).
Proof.
  refine (proj1 (proj2 (proj2 (SendFileDatas_order popFirst (samplePeer ∅) txDA badDA _ _ _ _)))); [|reflexivity..].
  vm_compute. discriminate.
Defined.

Lemma file_datas_messages_unsendable_witness :
  (p2pSend sampleRW ReqFileDatasMsg requestPacketType (VList [VUint 1; VList []]) true).1 = None /\
  (p2pSend sampleRW ResFileDatasMsg requestPacketType (VList [VUint 1; VList []]) true).1 = None.
Proof.
  apply (file_datas_messages_unsendable (merge_sort capLe) [mkCap (lit "eth") 67; mkCap (lit "eth") 68] (lit "eth") sampleRW);
    [exact merge_sort_sorts|vm_compute; reflexivity|vm_compute; reflexivity].
Defined.
End gossip_witnesses.
