(* ===== verification/Dispatcher.v ===== *)
(** * Requests and responses

    [eth/protocols/eth/dispatcher.go]: the loop that tracks the requests sent to
    a peer, [dispatchRequest], [Request.Close] and [dispatchResponse].

    Requests are objects, known by a number; [rid] and [rwant] are their id and
    the code of the response they wait for.  Each case of the loop's [select] is
    a step together with what the caller does with its answer; delivering an
    accepted response is a step of its own, since the caller looks at the
    request's [cancel] channel only then. *)

From S2P Require Import Prelude.

Local Open Scope Z_scope.

Inductive dispatchErr := errDisconnected | errDanglingResponse | errMismatchingResponseType | errSend.

Section Dispatcher.
Context (rid rwant : nat -> Z).

Record response := mkResponse { resId : Z; resCode : Z; resBody : list Z }.

(** [pending] is the loop's map; [sentReqs] are the requests that were given to
    it, [cancelled] those whose [cancel] channel is closed; [accepted] are the
    responses on their way to the sink, [delivered] those that were put in. *)
Record dispatch := mkDispatch {
  pending : gmap Z nat;
  sentReqs : gset nat;
  cancelled : gset nat;
  accepted : list (nat * response);
  delivered : list (nat * response)
}.

Definition newDispatch : dispatch := mkDispatch ∅ ∅ ∅ [] [].

(** [dispatchRequest], with what the network answers. *)
Definition dispatchRequest (d : dispatch) (r : nat) (netOk : bool) : dispatch * option dispatchErr :=
  if netOk
  then (mkDispatch (<[rid r := r]> (pending d)) ({[r]} ∪ sentReqs d) (cancelled d) (accepted d) (delivered d), None)
  else (mkDispatch (pending d) ({[r]} ∪ sentReqs d) (cancelled d) (accepted d) (delivered d), Some errSend).

(** [Request.Close]: closing twice closes a closed channel. *)
Definition closeRequest (d : dispatch) (r : nat) : outcome dispatch :=
  let pending := match pending d !! rid r with None => pending d | Some _ => delete (rid r) (pending d) end in
  if decide (r ∈ cancelled d) then Panic
  else Done (mkDispatch pending (sentReqs d) ({[r]} ∪ cancelled d) (accepted d) (delivered d)).

(** The loop's case for a response. *)
Definition acceptResponse (d : dispatch) (res : response) : dispatch * (dispatchErr + nat) :=
  match pending d !! resId res with
  | None => (d, inl errDanglingResponse)
  | Some r =>
      if decide (rwant r <> resCode res) then (d, inl errMismatchingResponseType)
      else (mkDispatch (delete (resId res) (pending d)) (sentReqs d) (cancelled d) (accepted d ++ [(r, res)]) (delivered d), inr r)
  end.

(** [dispatchResponse] until it delivers: a refused response is no error. *)
Definition dispatchResponse (d : dispatch) (res : response) : dispatch * option dispatchErr := ((acceptResponse d res).1, None).

(** The two [select]s: a cancelled request is found first. *)
Definition deliver (d : dispatch) (r : nat) (res : response) (d' : dispatch) : Prop :=
  exists l1 l2, accepted d = l1 ++ (r, res) :: l2 /\
  d' = mkDispatch (pending d) (sentReqs d) (cancelled d) (l1 ++ l2) (if decide (r ∈ cancelled d) then delivered d else delivered d ++ [(r, res)]).

Inductive dispatchEvent :=
| EvRequest (r : nat) (netOk : bool)
| EvClose (r : nat)
| EvResponse (res : response)
| EvDeliver (r : nat) (res : response).

(** A request object is dispatched once, right after it was made. *)
Definition dispatchStep (d : dispatch) (e : dispatchEvent) (d' : dispatch) : Prop :=
  match e with
  | EvRequest r netOk => (r ∉ sentReqs d) /\ d' = (dispatchRequest d r netOk).1
  | EvClose r => (r ∈ sentReqs d) /\ closeRequest d r = Done d'
  | EvResponse res => d' = (dispatchResponse d res).1
  | EvDeliver r res => deliver d r res d'
  end.

Definition dispatchReachable : dispatch -> Prop := reachable (fun d => d = newDispatch) dispatchStep.

Record dispatchOk (d : dispatch) : Prop := {
  disp_pending id r : pending d !! id = Some r -> rid r = id /\ r ∈ sentReqs d /\ r ∉ (accepted d ++ delivered d).*1;
  disp_once : NoDup (accepted d ++ delivered d).*1;
  disp_match r res : (r, res) ∈ accepted d ++ delivered d -> r ∈ sentReqs d /\ rid r = resId res /\ rwant r = resCode res
}.

Lemma dispatchOk_step d e d' : dispatchOk d -> dispatchStep d e d' -> dispatchOk d'.
Proof.
  intros [Hp Hn Hm]. destruct e as [r netOk|r|res|r res]; cbn [dispatchStep].
  - intros [Hr ->]. unfold dispatchRequest. destruct netOk; split; simpl; try done.
    + intros id r'. destruct (decide (rid r = id)) as [<-|Hne].
      * rewrite lookup_insert_eq. intros [= <-]. split; [done|]. split; [set_solver|]. intros ([r' res'] & Heq & Hin)%list_elem_of_fmap. simpl in Heq. subst r'.
        by destruct (Hm r res' Hin).
      * rewrite lookup_insert_ne by done. intros (? & ? & ?)%Hp. set_solver.
    + intros r' res' (? & ? & ?)%Hm. set_solver.
    + intros id r' (? & ? & ?)%Hp. set_solver.
    + intros r' res' (? & ? & ?)%Hm. set_solver.
  - intros [Hr Hc]. unfold closeRequest in Hc. case_decide; [done|]. injection Hc as <-. split; simpl; [|done|done].
    intros id r'. destruct (pending d !! rid r); [|apply Hp]. intros [_ Hd]%lookup_delete_Some. by apply Hp.
  - intros ->. unfold dispatchResponse, acceptResponse. destruct (pending d !! resId res) as [r|] eqn:Hr; [|by split].
    case_decide as Hw; [by split|]. apply Hp in Hr as Hr'. destruct Hr' as (Hid & Hs & Hnew). split; simpl.
    + intros id r' [Hne Hl]%lookup_delete_Some. destruct (Hp id r' Hl) as (<- & ? & Hni). split_and!; [done|done|].
      rewrite !fmap_app in *. simpl. assert (r' <> r) by (intros ->; congruence). set_solver.
    + rewrite !fmap_app in *. simpl. rewrite <-app_assoc. simpl. apply (NoDup_Permutation_proper _ (r :: (accepted d).*1 ++ (delivered d).*1)).
      * by rewrite <-Permutation_middle.
      * by constructor.
    + intros r' res'. rewrite <-app_assoc. intros [Hin|[Heq|Hin]%elem_of_cons]%elem_of_app; [apply Hm; set_solver| |apply Hm; set_solver].
      injection Heq as -> ->. split_and!; [done|done|]. by destruct (decide (rwant r = resCode res)).
  - intros (l1 & l2 & Ha & ->). rewrite Ha in *.
    assert ((l1 ++ (r, res) :: l2) ++ delivered d ≡ₚ (l1 ++ l2) ++ (delivered d ++ [(r, res)])) as Hperm.
    { transitivity ((r, res) :: (l1 ++ l2) ++ delivered d).
      - rewrite <-!app_assoc. change (((r, res) :: l2) ++ delivered d) with ((r, res) :: (l2 ++ delivered d)). by rewrite <-Permutation_middle.
      - rewrite (app_assoc (l1 ++ l2)), (Permutation_app_comm ((l1 ++ l2) ++ delivered d)). done. }
    assert (forall x, x ∈ (l1 ++ l2) ++ (if decide (r ∈ cancelled d) then delivered d else delivered d ++ [(r, res)]) ->
      x ∈ (l1 ++ (r, res) :: l2) ++ delivered d) as Hsub by (intros x; case_decide; set_solver).
    split; simpl.
    + intros id r' (? & ? & Hni)%Hp. split_and!; [done|done|]. intros (x & -> & Hx%Hsub)%list_elem_of_fmap. apply Hni. by apply list_elem_of_fmap_2.
    + rewrite Hperm in Hn. case_decide; [|done]. rewrite app_assoc, fmap_app in Hn. by apply NoDup_app in Hn as (? & _).
    + intros r' res' Hx%Hsub. by apply Hm.
Qed.

(** C36: in every interleaving of requests, cancellations and responses, a request
    gets at most one response, which has its id and the code it asked for. *)
Theorem dispatcher_at_most_once d : dispatchReachable d ->
  NoDup (delivered d).*1 /\ forall r res, (r, res) ∈ delivered d -> r ∈ sentReqs d /\ rid r = resId res /\ rwant r = resCode res.
Proof.
  intros Hd. assert (dispatchOk d) as [_ Hn Hm].
  { revert Hd. apply reachable_inv; [|apply dispatchOk_step]. intros ? ->. split; simpl; [by intros ?? ?|constructor|set_solver]. }
  rewrite fmap_app in Hn. apply NoDup_app in Hn as (_ & _ & Hn). split; [done|]. intros r res Hin. apply Hm. set_solver.
Qed.

(** A request that is closed before its response is delivered gets none. *)
Lemma closed_gets_nothing d r res d' : r ∈ cancelled d -> deliver d r res d' -> delivered d' = delivered d.
Proof. intros Hc (l1 & l2 & _ & ->). simpl. by rewrite decide_True. Qed.
End Dispatcher.

Lemma dispatcher_at_most_once_witness : let d := mkDispatch ∅ {[0%nat]} ∅ [] [(0%nat, mkResponse 5 7 [])] in
  NoDup (delivered d).*1 /\ forall r res, (r, res) ∈ delivered d -> r ∈ sentReqs d /\ 5 = resId res /\ 7 = resCode res.
Proof.
  apply (dispatcher_at_most_once (fun _ => 5) (fun _ => 7)).
  eapply (reach_step _ _ (mkDispatch ∅ {[0%nat]} ∅ [(0%nat, mkResponse 5 7 [])] []) (EvDeliver 0 (mkResponse 5 7 []))).
  - eapply (reach_step _ _ (mkDispatch {[5 := 0%nat]} {[0%nat]} ∅ [] []) (EvResponse (mkResponse 5 7 []))).
    + eapply (reach_step _ _ newDispatch (EvRequest 0 true)); [by apply reach_init|]. split; [set_solver|]. vm_compute. reflexivity.
    + vm_compute. reflexivity.
  - exists [], []. split; [reflexivity|]. vm_compute. reflexivity.
Defined.
