(* ===== verification/Handlers.v ===== *)
(** * Messages from peers

    The receiving side of [eth/protocols/eth]: [msg.Decode] of [p2p/message.go],
    the handlers of [handlers.go], [handleMessage] of [handler.go] and
    [readStatus] of [handshake.go].  A handler gets the bytes of the payload; it
    calls the backend ([Intake.HandlePacket]) and with it the pool and the
    fetcher, asks the database, answers with the messages [Gossip.p2pSend] makes,
    and gives responses to the loop of [Dispatcher].

    The chain of the node ([core.BlockChain]) is two lookups, given with the
    other answers from outside in [env]. *)

From S2P Require Import Prelude Dispatcher Bytes RlpRaw RlpEncode RlpDecode DAType FilePool Fetcher Intake RlpDA P2P PeerSet Gossip.

Local Open Scope Z_scope.

(** [msg.Decode]: what is behind the value is not looked at. *)
Definition msgDecode (payload : list Z) (t : rtype) : res rval :=
  match streamDecode t (Reset payload (Z.of_nat (length payload))) with
  | Done (r, _) => Done r
  | Panic => Panic
  | Stuck => Stuck
  end.

Lemma msgDecode_cases payload t : wfType t -> goBytes payload ->
  (exists e, msgDecode payload t = err e) \/ exists v, msgDecode payload t = ok v /\ typed v t /\ unread v = false.
Proof.
  intros Hw [Hb Hl]. pose proof (streamDecode_limited payload t Hw Hb Hl) as H. unfold msgDecode.
  destruct (streamDecode t _) as [[[e|v] s]| |]; try done; [left; by eexists|right; exists v; split; [done|]; by destruct H as (? & ? & _)].
Qed.

Lemma msgDecode_stored v t rest : wfType t -> storable v t -> bytes_ok rest -> Z.of_nat (length (enc v t ++ rest)) <= maxAlloc ->
  msgDecode (enc v t ++ rest) t = ok (stored v).
Proof. intros Hw Hs Hr Hl. destruct (streamDecode_stored v t rest Hw Hs Hr Hl) as (s & Hd & _). unfold msgDecode. by rewrite Hd. Qed.

Definition hashesOf (v : rval) : list Hash := match v with VList l => bytesOf <$> l | _ => [] end.
Definition fieldOf (i : nat) (v : rval) : rval := match v with VList l => default (VList []) (l !! i) | _ => VList [] end.

Definition maxMessageSize : Z := 10 * 1024 * 1024 * 1024.
Definition maxFileDatasServe : Z := 60.
Definition fileDataSoftResponseLimit : Z := 30 * 1024 * 1024.

(** A batch of [ServiceGetFileDatasQuery]. *)
Record BantchFileData := mkBatch { HeaderHash : Hash; Cap_ : Z; BLength : Z; FileDatas : list (list Z) }.

Definition batchVal (b : BantchFileData) : rval :=
  VList [VBytes (HeaderHash b); VUint (Cap_ b); VUint (BLength b); VList (VBytes <$> FileDatas b)].

Section Handlers.
Context {kzg : KZG} {kw : KZGWords kzg} `{crypto : Crypto} `{sdk : SDK} `{sqlStore : !DAStore}.
Context (pop : gset Hash -> Hash).

Definition recordsOf (v : rval) : list (option DA) :=
  match v with
  | VList l => (fun x => match x with VPtr (Some x) => valDA x | _ => None end) <$> l
  | _ => []
  end.

(** What a handler works on: the node's pool, the peer, and the requests that
    wait for the peer's responses. *)
Record conn := mkConn { connPool : FilePool; connPeer : EthPeer; connRequests : dispatch }.

Definition set_peer (p : EthPeer) (c : conn) : conn := mkConn (connPool c) p (connRequests c).

(** What it asks for on its way: the database at every try, the files, the
    clock, the chain, whether the network takes what is sent, whether the peer
    is gone, the code each request waits for, and what [rlp.DecodeBytes] leaves
    in a batch and in a record when it fails. *)
Record env := mkEnv {
  envSql : nat -> sqlDB;
  envFs : fsAnswers;
  envNow : nat -> nat -> time;
  envRecords : Hash -> option (list DA);
  envBlock : Hash -> bool;
  envNet : bool;
  envTerm : bool;
  envWant : nat -> Z;
  leftBatch : list Z -> list (list Z);
  leftTxHash : list Z -> Hash
}.

(** What a handler ends with: an error, nothing, what the backend sent to the
    fetcher's loop, an answer, a response that is accepted for a request, with
    its metadata, or answers. *)
Inductive handled :=
| HError (e : ethErr)
| HNothing
| HHandled (ev : option event)
| HReply (m : option wireMsg) (e : option ethErr)
| HDisconnected
| HResponse (r : nat) (res : response) (meta : list Hash)
| HReplies (ms : list (option wireMsg)) (failed : bool).

(** [if err := msg.Decode(&v); err != nil { return errDecode }] *)
Definition decoding (payload : list Z) (t : rtype) (c : conn) (k : rval -> outcome (conn * handled)) : outcome (conn * handled) :=
  r ← msgDecode payload t;
  match r with inl _ => Done (c, HError errDecode) | inr v => k v end.

(** The encoded records of a batch. *)
Definition batchRecords (e : env) (data : list Z) : outcome (list (list Z)) :=
  r ← DecodeBytes data batchType;
  Done match r with
       | inr v => match fieldOf 3 v with VList l => bytesOf <$> l | _ => [] end
       | inl _ => leftBatch e data
       end.

(** [backend.Handle(peer, packet)] *)
Definition backendHandle (e : env) (c : conn) (packet : ethPacket) : outcome (conn * handled) :=
  '(fp, ev) ← HandlePacket (batchRecords e) (envFs e) (envNow e) (connPool c) (ethId (connPeer c)) packet;
  Done (mkConn fp (connPeer c) (connRequests c), HHandled ev).

(** The loop of [handleFileDatas]; the flag goes on from the check before it. *)
Fixpoint markRecords (fds : list (option DA)) (isEmpty : bool) (p : EthPeer) : EthPeer * option ethErr :=
  match fds with
  | [] => (p, None)
  | None :: _ => (p, Some errDecode)
  | Some fd :: fds =>
      let isEmpty := if commitIsEmpty fd then true else isEmpty in
      let noTx := bool_decide (Cmp (TxHash fd) zeroHash = 0) in
      if noTx && isEmpty then (p, Some errDADataIllegal)
      else if noTx && negb isEmpty then markRecords fds isEmpty (markFileData pop (cmHash fd) p)
      else if negb noTx && isEmpty then markRecords fds isEmpty (markFileData pop (TxHash fd) p)
      else markRecords fds isEmpty (markFileData pop (TxHash fd) (markFileData pop (cmHash fd) p))
  end.

(** [handleFileDatas] behind the decoding; the last case of the switch repeats
    the one before it. *)
Definition handleRecords (e : env) (c : conn) (fds : list (option DA)) : outcome (conn * handled) :=
  let p := connPeer c in
  first ← index fds 0;
  match first with
  | None => Panic
  | Some first =>
      let noTx := bool_decide (Cmp (TxHash first) zeroHash = 0) in
      let isEmpty := commitIsEmpty first in
      if noTx && isEmpty then Done (c, HError errDADataIllegal)
      else
        let flag :=
          if noTx && negb isEmpty then KnownFileData p (cmHash first)
          else if negb noTx && negb isEmpty then KnownFileData p (cmHash first) || KnownFileData p (TxHash first)
          else if negb noTx && negb isEmpty then KnownFileData p (TxHash first)
          else false in
        if flag then Done (c, HNothing)
        else
          let '(p, err) := markRecords fds isEmpty p in
          match err with
          | Some err => Done (set_peer p c, HError err)
          | None => backendHandle e (set_peer p c) (FileDataPacket fds)
          end
  end.

Definition handleFileDatas (e : env) (c : conn) (payload : list Z) : outcome (conn * handled) :=
  decoding payload fileDataPacketType c (fun v => handleRecords e c (recordsOf v)).

(** The loop of [answerGetPooledFileDatas]. *)
Fixpoint answerScan (sql : nat -> sqlDB) (fp : FilePool) (query : list Hash) (hashes : list Hash) (fds : list (list Z))
  : outcome (list Hash * list (list Z)) :=
  match query with
  | [] => Done (hashes, fds)
  | hash :: query =>
      if decide (Cmp hash zeroHash = 0) then Done ([], [])
      else
        '(fp, fd) ← GetDA sql fp hash;
        match fd with
        | None => answerScan sql fp query hashes fds
        | Some fd =>
            match encodeDA fd with
            | None => answerScan sql fp query hashes fds
            | Some encoded => answerScan sql fp query (hashes ++ [hash]) (fds ++ [encoded])
            end
        end
  end.

Definition answerGetPooledFileDatas (sql : nat -> sqlDB) (fp : FilePool) (query : list Hash) := answerScan sql fp query [] [].

Definition handleGetPooledFileDatas (e : env) (c : conn) (payload : list Z) : outcome (conn * handled) :=
  decoding payload requestPacketType c (fun v =>
    let query := hashesOf (fieldOf 1 v) in
    _ ← index query 0;
    '(hashes, fds) ← answerGetPooledFileDatas (envSql e) (connPool c) query;
    let '(p, m, err) := ReplyPooledFileDatasRLP pop (connPeer c) (uintOf (fieldOf 0 v)) hashes fds (envNet e) in
    Done (set_peer p c, HReply m err)).

(** The hashes of an announcement. *)
Definition markHashes (hashes : list Hash) (c : conn) : conn := set_peer (foldl (fun p hash => markFileData pop hash p) (connPeer c) hashes) c.

Definition handleNewPooledFileDataHashes67 (e : env) (c : conn) (payload : list Z) : outcome (conn * handled) :=
  decoding payload hashesPacket67Type c (fun v =>
    backendHandle e (markHashes (hashesOf v) c) (NewPooledFileDataHashesPacket67 (hashesOf v))).

Definition handleNewPooledFileDataHashes68 (e : env) (c : conn) (payload : list Z) : outcome (conn * handled) :=
  decoding payload hashesPacket68Type c (fun v =>
    let sizes := match fieldOf 0 v with VList l => uintOf <$> l | _ => [] end in
    let hashes := hashesOf (fieldOf 1 v) in
    if decide (length hashes <> length sizes) then Done (c, HError errDecode)
    else backendHandle e (markHashes hashes c) (NewPooledFileDataHashesPacket68 sizes hashes)).

(** The records of an answer are marked by transaction hash. *)
Fixpoint markPooled (fds : list (option DA)) (p : EthPeer) : EthPeer * option ethErr :=
  match fds with
  | [] => (p, None)
  | None :: _ => (p, Some errDecode)
  | Some fd :: fds => markPooled fds (markFileData pop (TxHash fd) p)
  end.

Definition handlePooledFileDatas (e : env) (c : conn) (payload : list Z) : outcome (conn * handled) :=
  decoding payload pooledPacketType c (fun v =>
    let fds := recordsOf (fieldOf 1 v) in
    let '(p, err) := markPooled fds (connPeer c) in
    match err with
    | Some err => Done (set_peer p c, HError err)
    | None => backendHandle e (set_peer p c) (PooledFileDataResponse fds)
    end).

(** The closure [metaData]: the transaction hash of every record of the batch. *)
Definition metaData (e : env) (res : list Z) : outcome (list Hash) :=
  fileDatas ← batchRecords e res;
  fold_outcome (fun hashes data =>
    r ← DA_Decode data;
    Done (hashes ++ [match r with inr fd => TxHash fd | inl _ => leftTxHash e data end])) fileDatas [].

(** [peer.dispatchResponse] up to the delivery, which is [Dispatcher.deliver]:
    the metadata is made when the loop has accepted the response. *)
Definition dispatching (e : env) (c : conn) (res : response) (metadata : outcome (list Hash)) : outcome (conn * handled) :=
  if envTerm e then Done (c, HDisconnected)
  else
    let '(d, r) := acceptResponse (envWant e) (connRequests c) res in
    match r with
    | inl _ => Done (mkConn (connPool c) (connPeer c) d, HNothing)
    | inr r => meta ← metadata; Done (mkConn (connPool c) (connPeer c) d, HResponse r res meta)
    end.

Definition handleResFileDatas (e : env) (c : conn) (payload : list Z) : outcome (conn * handled) :=
  decoding payload responsePacketType c (fun v =>
    let res := bytesOf (fieldOf 1 v) in
    dispatching e c (mkResponse (uintOf (fieldOf 0 v)) ResFileDatasMsg res) (metaData e res)).

(** ** Block file data *)

(** One record of a block: [batchFileDatas] is indexed with the number of the
    batch and with that of the record; a [nil] entry is [None]. *)
Definition serveRecord (st : Z * Z * list (option (list (list Z)))) (ifd : nat * DA) : outcome (Z * Z * list (option (list (list Z)))) :=
  let '(bytes, batch, batchFileDatas) := st in
  let '(i, fd) := ifd in
  match encodeDA fd with
  | None => Done st
  | Some encoded =>
      let bytes := i64 (bytes + Z.of_nat (length encoded)) in
      batch ← (if decide (bytes >= fileDataSoftResponseLimit) then Done (u64 (batch + 1))
               else l ← index batchFileDatas batch;
                    Done (if decide (Z.of_nat (length (default [] l)) >= maxFileDatasServe) then u64 (batch + 1) else batch));
      l ← index batchFileDatas (Z.of_nat i);
      batchFileDatas ← store batchFileDatas (Z.of_nat i) (Some match l with None => [] | Some l => l ++ [encoded] end);
      Done (bytes, batch, batchFileDatas)
  end.

Definition serveHash (GetFileDatasByHash : Hash -> option (list DA)) (hasBlock : Hash -> bool) (st : Z * Z * list BantchFileData) (hash : Hash)
  : outcome (Z * Z * list BantchFileData) :=
  let '(bytes, batch, resultList) := st in
  match GetFileDatasByHash hash, hasBlock hash with
  | None, false => Done st
  | results, _ =>
      let results := default [] results in
      '(bytes, batch, batchFileDatas) ← fold_outcome serveRecord (imap pair results) (bytes, batch, []);
      Done (bytes, batch, resultList ++ ((fun datas => mkBatch hash (Z.of_nat (length results)) (Z.of_nat (length (default [] datas))) (default [] datas)) <$> batchFileDatas))
  end.

Definition ServiceGetFileDatasQuery (GetFileDatasByHash : Hash -> option (list DA)) (hasBlock : Hash -> bool) (query : list Hash) : outcome (list BantchFileData) :=
  '(_, _, resultList) ← fold_outcome (serveHash GetFileDatasByHash hasBlock) query (0, 0, []);
  Done resultList.

(** One error, also [nil], for every batch. *)
Definition ReplyFileDatasMarshal (p : EthPeer) (id : Z) (fileDatas : list BantchFileData) (netOk : bool) : list (option wireMsg * option ethErr) :=
  (fun bfd =>
     let data := match EncodeToBytes newEncBuffer batchType (batchVal bfd) with Done (inr data) => data | _ => [] end in
     p2pSend (ethRW p) ResFileDatasMsg responsePacketType (VList [VUint id; VBytes data]) netOk) <$> fileDatas.

Definition handleReqFileDatas (e : env) (c : conn) (payload : list Z) : outcome (conn * handled) :=
  decoding payload requestPacketType c (fun v =>
    response ← ServiceGetFileDatasQuery (envRecords e) (envBlock e) (hashesOf (fieldOf 1 v));
    let errs := ReplyFileDatasMarshal (connPeer c) (uintOf (fieldOf 0 v)) response (envNet e) in
    Done (c, HReplies errs.*1 (bool_decide (length errs <> 0%nat)))).

(** ** [handleMessage] *)

(** The code and the payload of the message, [None] when it cannot be read; the
    maps [eth67] and [eth68] from codes to handlers. *)
Definition handleMessage (e : env) (c : conn) (msg : option (Z * list Z)) : outcome (conn * handled) :=
  match msg with
  | None => Done (c, HError errNetwork)
  | Some (code, payload) =>
      if decide (u32 (Z.of_nat (length payload)) > maxMessageSize) then Done (c, HError errMsgTooLarge)
      else if decide (code = FileDataMsg) then handleFileDatas e c payload
      else if decide (code = ReqFileDatasMsg) then handleReqFileDatas e c payload
      else if decide (code = ResFileDatasMsg) then handleResFileDatas e c payload
      else if decide (code = GetPooledFileDatasMsg) then handleGetPooledFileDatas e c payload
      else if decide (code = NewPooledFileDataHashesMsg) then
        if decide (version (connPeer c) >= ETH68) then handleNewPooledFileDataHashes68 e c payload else handleNewPooledFileDataHashes67 e c payload
      else if decide (code = PooledFileDatasMsg) then handlePooledFileDatas e c payload
      else Done (c, HError errInvalidMsgCode)
  end.

(** ** The handshake *)

Definition statusType : rtype := TStruct [TUint 32; TUint 64; TBigPtr; hashType; hashType; TStruct [TByteArray 4; TUint 64]].

(** [readStatus] on the first message, [None] when it cannot be read; the
    answer has the total difficulty and the head. *)
Definition readStatus (p : EthPeer) (network : Z) (genesis : Hash) (forkFilter : list Z -> Z -> bool) (msg : option (Z * list Z))
  : outcome (ethErr + (Z * Hash)) :=
  match msg with
  | None => Done (inl errNetwork)
  | Some (code, payload) =>
      if decide (code <> StatusMsg) then Done (inl errNoStatusMsg)
      else if decide (u32 (Z.of_nat (length payload)) > maxMessageSize) then Done (inl errMsgTooLarge)
      else
        r ← msgDecode payload (TPtr statusType);
        match r with
        | inr (VPtr (Some status)) =>
            if decide (uintOf (fieldOf 1 status) <> network) then Done (inl errNetworkIDMismatch)
            else if decide (uintOf (fieldOf 0 status) <> version p) then Done (inl errProtocolVersionMismatch)
            else if decide (bytesOf (fieldOf 4 status) <> genesis) then Done (inl errGenesisMismatch)
            else if negb (forkFilter (bytesOf (fieldOf 0 (fieldOf 5 status))) (uintOf (fieldOf 1 (fieldOf 5 status)))) then Done (inl errForkIDRejected)
            else Done (inr (match fieldOf 2 status with VBig (Some td) => td | _ => 0 end, bytesOf (fieldOf 3 status)))
        | _ => Done (inl errDecode)
        end
  end.

Definition statusVal (ver network td : Z) (head genesis forkHash : list Z) (forkNext : Z) : rval :=
  VList [VUint ver; VUint network; VBig (Some td); VBytes head; VBytes genesis; VList [VBytes forkHash; VUint forkNext]].

(** ** Records on the wire *)

Context {kl : KZGLaws kzg} {wl : KZGWordsLaws kzg kw kl}.

Lemma records_typed l : typedElems l (replicate (length l) (TPtr daType)) -> existsb unread l = false ->
  exists ds, (fun x => match x with VPtr (Some x) => valDA x | _ => None end) <$> l = Some <$> ds.
Proof.
  induction l as [|v l IH]; [intros; by exists []|]. intros [Hv Hl] [Hn Hns]%orb_false_iff. destruct (IH Hl Hns) as [ds Hds].
  destruct v as [| | | | |[v|]|]; try done. destruct (typed_daVal v Hv) as (d & Hd & _). exists (d :: ds). cbn [fmap list_fmap]. rewrite Hd. f_equal. exact Hds.
Qed.

(** No decoded packet has a nil record. *)
Lemma recordsOf_typed v : typed v fileDataPacketType -> unread v = false -> exists ds, recordsOf v = Some <$> ds.
Proof. destruct v as [| | | |l| |]; try done. apply records_typed. Qed.

Lemma fileDataPacketType_wf : wfType fileDataPacketType.
Proof. exact daType_wf. Qed.

Lemma requestPacketType_wf : wfType requestPacketType.
Proof. split; [by right; right; right|done]. Qed.

Lemma recordsVal_storable fds : Forall goDA fds -> Forall (fun d => 0 <= default 0 (NameSpaceID d)) fds -> storable (recordsVal fds) fileDataPacketType.
Proof.
  intros Hg Hn. unfold recordsVal. cbn [storable fileDataPacketType]. induction Hg as [|d fds Hd Hg IH]; [done|].
  apply Forall_cons_1 in Hn as [Hnd Hn]. split; [by apply daVal_storable|by apply IH].
Qed.

Lemma recordsOf_stored fds : recordsOf (stored (recordsVal fds)) = Some <$> (recordKept <$> fds).
Proof.
  unfold recordsVal. cbn [stored recordsOf]. induction fds as [|d fds IH]; [done|]. cbn [fmap list_fmap map]. f_equal; [|exact IH].
  change (stored (VPtr (Some (daVal d)))) with (VPtr (Some (stored (daVal d)))). apply valDA_stored.
Qed.

Lemma markRecords_refused fds : forall isEmpty p,
  (markRecords (Some <$> fds) isEmpty p).2 = if refusedFrom fds isEmpty then Some errDADataIllegal else None.
Proof.
  induction fds as [|fd fds IH]; intros isEmpty p; [done|]. cbn [fmap list_fmap markRecords refusedFrom].
  replace (if commitIsEmpty fd then true else isEmpty) with (commitIsEmpty fd || isEmpty) by (by destruct (commitIsEmpty fd)).
  destruct (bool_decide (Cmp (TxHash fd) zeroHash = 0)), (commitIsEmpty fd || isEmpty); cbn [andb negb orb]; try done; apply IH.
Qed.

Lemma refusedFrom_kept fds isEmpty : Forall (fun d => digest_ok (Commitment d)) fds -> refusedFrom (recordKept <$> fds) isEmpty = refusedFrom fds isEmpty.
Proof.
  intros Hd. revert isEmpty. induction Hd as [|d fds Hd _ IH]; intros isEmpty; [done|]. cbn [fmap list_fmap refusedFrom].
  assert (commitIsEmpty (recordKept d) = commitIsEmpty d) as -> by (unfold commitIsEmpty, recordKept; simpl; by rewrite digestOfWords_words).
  change (TxHash (recordKept d)) with (TxHash d). f_equal. apply IH.
Qed.

(** Whether the handler drops a packet for its first record: one with a
    commitment whose hash the peer is known to have. *)
Definition seen (p : EthPeer) (d : DA) : bool :=
  negb (commitIsEmpty d) && (KnownFileData p (cmHash d) || (bool_decide (Cmp (TxHash d) zeroHash <> 0) && KnownFileData p (TxHash d))).

Lemma markFileData_id h p : ethId (markFileData pop h p) = ethId p.
Proof. done. Qed.

Lemma markRecords_id fds : forall isEmpty p, ethId (markRecords fds isEmpty p).1 = ethId p.
Proof.
  induction fds as [|[fd|] fds IH]; intros isEmpty p; [done| |done]. cbn [markRecords].
  destruct (bool_decide _), (if commitIsEmpty fd then true else isEmpty); cbn [andb negb]; rewrite ?IH; done.
Qed.

(** What the handler does with records that are not nil. *)
Lemma handleRecords_cases e c ds :
  match ds with
  | [] => handleRecords e c (Some <$> ds) = Panic
  | d :: _ =>
      if refusedFrom ds false then isDone (handleRecords e c (Some <$> ds)) = true
      else if seen (connPeer c) d then handleRecords e c (Some <$> ds) = Done (c, HNothing)
      else exists p', ethId p' = ethId (connPeer c) /\ handleRecords e c (Some <$> ds) = backendHandle e (set_peer p' c) (FileDataPacket (Some <$> ds))
  end.
Proof.
  destruct ds as [|d ds]; [done|]. unfold handleRecords. change (index (Some <$> d :: ds) 0) with (Done (Some d)). cbn [mbind outcome_bind].
  pose proof (markRecords_refused (d :: ds) (commitIsEmpty d) (connPeer c)) as Hm. pose proof (markRecords_id (Some <$> d :: ds) (commitIsEmpty d) (connPeer c)) as Hid.
  assert (refusedFrom (d :: ds) (commitIsEmpty d) = refusedFrom (d :: ds) false) as Hf by (cbn [refusedFrom]; by destruct (commitIsEmpty d)).
  rewrite Hf in Hm. destruct (markRecords (Some <$> d :: ds) (commitIsEmpty d) (connPeer c)) as [p' err]. cbn [fst snd] in Hm, Hid. subst err. unfold seen.
  assert (bool_decide (Cmp (TxHash d) zeroHash = 0) && commitIsEmpty d = true -> refusedFrom (d :: ds) false = true) as Hr.
  { intros [H1 H2]%andb_true_iff. cbn [refusedFrom]. by rewrite H1, H2. }
  destruct (decide (Cmp (TxHash d) zeroHash = 0)) as [Ht|Ht].
  - rewrite (bool_decide_true (Cmp _ _ = 0)), (bool_decide_false (Cmp _ _ <> 0)) in * by tauto. destruct (commitIsEmpty d); cbn [andb negb] in *; [by rewrite Hr|].
    rewrite orb_false_r. destruct (refusedFrom (d :: ds) false), (KnownFileData (connPeer c) (cmHash d)); eauto.
  - rewrite (bool_decide_false (Cmp _ _ = 0)), (bool_decide_true (Cmp _ _ <> 0)) in * by tauto. destruct (commitIsEmpty d); cbn [andb negb].
    + destruct (refusedFrom (d :: ds) false); eauto.
    + destruct (refusedFrom (d :: ds) false), (KnownFileData (connPeer c) (cmHash d) || KnownFileData (connPeer c) (TxHash d)); eauto.
Qed.

(** ** What the backend does *)

(** The pool with the records added one after the other, each unless its hash is
    known or the slots are used up. *)
Definition admitted (fp : FilePool) (ds : list DA) : lookup := foldl (admit_ (GlobalSlots (fpConfig fp))) (all fp) ds.

(** What the fetcher's loop is told about records. *)
Definition deliveryOf (peer : Peer) (ds : list DA) : event := EvDelivery (mkDel peer (TxHash <$> ds) ((fun d => u32 (Size d)) <$> ds) true).

Lemma backendHandle_records e c ds packet : packet = FileDataPacket (Some <$> ds) \/ packet = PooledFileDataResponse (Some <$> ds) ->
  match backendHandle e c packet with
  | Done (c', h) => Forall valid ds /\ h = HHandled (Some (deliveryOf (ethId (connPeer c)) ds)) /\
      all (connPool c') = admitted (connPool c) ds /\ connPeer c' = connPeer c /\ connRequests c' = connRequests c
  | Panic => ~ Forall valid ds
  | Stuck => False
  end.
Proof.
  intros Hp. unfold backendHandle. pose proof (Enqueue_panics_iff_invalid (envFs e) (envNow e) (connPool c) (ethId (connPeer c)) ds true) as H.
  destruct Hp as [-> | ->]; cbn [HandlePacket]; destruct (Enqueue _ _ _ _ _ _) as [[fp' d]| |]; cbn [mbind outcome_bind]; try done;
    destruct H as (Hv & -> & _ & Hall); by split_and!.
Qed.

Lemma backendHandle_sizes e c sizes hs : length hs = length sizes -> isDone (backendHandle e c (NewPooledFileDataHashesPacket68 sizes hs)) = true.
Proof.
  intros Hl. unfold backendHandle. cbn [HandlePacket]. by destruct (Notify_correct (connPool c) (ethId (connPeer c)) sizes hs) as (a & -> & _).
Qed.

(** Every record that is sent can be filed. *)
Lemma refusedFrom_hasKey ds : forall isEmpty, refusedFrom ds isEmpty = false -> Forall hasKey ds.
Proof.
  induction ds as [|d ds IH]; intros isEmpty; [constructor|]. cbn [refusedFrom]. intros [H1 H2]%orb_false_iff. constructor; [|by eapply IH].
  unfold hasKey. destruct (decide (Cmp (TxHash d) zeroHash = 0)) as [Ht|]; [|by left]. right. rewrite bool_decide_true in H1 by done. by destruct (commitIsEmpty d).
Qed.

Lemma handleMessage_records e c payload : handleMessage e c (Some (FileDataMsg, payload)) = handleFileDatas e c payload.
Proof.
  unfold handleMessage. rewrite decide_False by (pose proof (wrap_bound 32 (Z.of_nat (length payload))); unfold u32, maxMessageSize; lia).
  by rewrite decide_True.
Qed.

Lemma seen_kept p d : digest_ok (Commitment d) -> seen p (recordKept d) = seen p d.
Proof. intros Hd. unfold seen, commitIsEmpty, cmHash, recordKept. simpl. by rewrite digestOfWords_words. Qed.

(** What is sent is read as records without times and with a namespace. *)
Lemma sent_records_read e p c fds p' w payload netOk :
  Forall goDA fds -> Forall (fun d => digest_ok (Commitment d)) fds -> Forall (fun d => 0 <= default 0 (NameSpaceID d)) fds ->
  Z.of_nat (length (enc (recordsVal fds) fileDataPacketType)) <= 2 ^ 48 ->
  SendFileDatas pop p fds netOk = (p', Some (w, payload), None) ->
  WriteMsg (ethRW p) FileDataMsg = Some w /\ refusedFrom (recordKept <$> fds) false = false /\
  handleMessage e c (Some (FileDataMsg, payload)) = handleRecords e c (Some <$> (recordKept <$> fds)).
Proof.
  intros Hg Hd Hns Hlen. rewrite handleMessage_records. unfold SendFileDatas. destruct (sendMark_refused pop fds false p) as [Hr Hw].
  destruct (sendMark pop fds false p) as [p1 err]. cbn [fst snd] in Hr, Hw. subst err. destruct (refusedFrom fds false) eqn:Href; [done|].
  pose proof (recordsVal_storable fds Hg Hns) as Hst. destruct (storable_typed _ _ Hst) as [Ht Hneg].
  unfold p2pSend. rewrite EncodeToBytes_enc, Hneg, Hw by (done || lia). cbn [ok]. destruct (WriteMsg (ethRW p) FileDataMsg) as [w'|]; [|done].
  pose proof (msgDecode_stored (recordsVal fds) fileDataPacketType [] fileDataPacketType_wf Hst ltac:(constructor) ltac:(by rewrite app_nil_r)) as Hdec.
  rewrite app_nil_r in Hdec. generalize dependent (enc (recordsVal fds) fileDataPacketType). intros bs _ Hdec.
  destruct netOk; [|done]. intros [= -> <- <-]. split; [done|]. unfold handleFileDatas, decoding. rewrite Hdec. cbn [ok mbind outcome_bind].
  by rewrite recordsOf_stored, refusedFrom_kept.
Qed.

(** C25: what a node sends with [SendFileDatas] gets into the pool of the node
    that handles the message.  The records arrive without their times and with
    the namespace 0 for none ([recordKept]).  If the receiver knows that the
    peer has the first of them, the message changes nothing (a first record
    without a commitment is never recognised).  Otherwise, if all the records
    pass the pool's validation, they are added in order, each unless its hash
    is known or the slots are used up, so that every one is there when there is
    a slot for each; and the fetcher is told their transaction hashes and
    sizes.  A record that does not pass the validation panics the receiver,
    and so does an empty list, which can be sent. *)
Theorem sent_records_arrive e p c fds p' w payload netOk :
  Forall goDA fds -> Forall (fun d => digest_ok (Commitment d)) fds -> Forall (fun d => 0 <= default 0 (NameSpaceID d)) fds ->
  Z.of_nat (length (enc (recordsVal fds) fileDataPacketType)) <= 2 ^ 48 ->
  SendFileDatas pop p fds netOk = (p', Some (w, payload), None) ->
  let result := handleMessage e c (Some (FileDataMsg, payload)) in
  let ds := recordKept <$> fds in
  WriteMsg (ethRW p) FileDataMsg = Some w /\
  match fds with
  | [] => result = Panic
  | first :: _ =>
      if seen (connPeer c) first then result = Done (c, HNothing)
      else (~ Forall valid ds -> result = Panic) /\
        (Forall valid ds -> exists c', result = Done (c', HHandled (Some (deliveryOf (ethId (connPeer c)) ds))) /\
          all (connPool c') = admitted (connPool c) ds /\
          (0 <= slots (all (connPool c)) -> slots (all (connPool c)) + Z.of_nat (length fds) <= GlobalSlots (fpConfig (connPool c)) < 2 ^ 63 ->
           forall d, d ∈ ds -> is_Some (get (connPool c') (poolHash d))))
  end.
Proof.
  intros Hg Hd Hns Hlen Hsend result ds. destruct (sent_records_read e p c fds p' w payload netOk Hg Hd Hns Hlen Hsend) as (Hw & Href & Hres).
  split; [done|]. unfold result. rewrite Hres. fold ds in Href |- *. pose proof (handleRecords_cases e c ds) as Hh. pose proof (refusedFrom_hasKey ds false Href) as Hk.
  assert (length ds = length fds) as Hlf by apply length_fmap. destruct fds as [|fd fds]; [done|]. rewrite Href in Hh. cbn [ds fmap list_fmap] in Hh. apply Forall_cons_1 in Hd as [Hd _].
  rewrite seen_kept in Hh by done. destruct (seen (connPeer c) fd); [done|]. destruct Hh as (q' & Hq & Hh). change (handleRecords e c (Some <$> ds) = backendHandle e (set_peer q' c) (FileDataPacket (Some <$> ds))) in Hh.
  rewrite Hh. pose proof (backendHandle_records e (set_peer q' c) ds _ (or_introl eq_refl)) as Hb. destruct (backendHandle _ _ _) as [[c' h]| |]; [|by split|done].
  destruct Hb as (Hv & -> & Hall & _). split; [done|]. intros _. exists c'. cbn [set_peer connPeer connPool] in Hall |- *. rewrite Hq. split_and!; [done|done|].
  intros H0 [H1 H2] d Hin. unfold get. rewrite Hall. apply admit_all; [done|by rewrite Hlf|done|done|]. by apply (proj1 (Forall_forall _ _) Hk).
Qed.

(** ** Answers *)

Section answers.
Context (sql : nat -> sqlDB) (byTx byCommit : Hash -> option DA * bool).
Hypothesis HbyTx : forall h, GetCommitmentByTxHash (sql 0%nat) h = Done (byTx h).
Hypothesis HbyCommit : forall h, GetDAByCommitmentHash (sql 0%nat) h = Done (byCommit h).

Lemma GetDA_recordOf fp h : GetDA sql fp h = Done (fp, recordOf byTx byCommit fp h).
Proof.
  unfold GetDA. rewrite Get_from_eq, HbyTx, HbyCommit. unfold recordOf. destruct (get fp h); [done|]. cbn [mbind outcome_bind].
  destruct (okDA (byTx h)); [done|]. by destruct (okDA (byCommit h)).
Qed.

(** The hash with the bytes of its record. *)
Definition served (fp : FilePool) (h : Hash) : option (Hash * list Z) :=
  d ← recordOf byTx byCommit fp h; bs ← encodeDA d; Some (h, bs).

Lemma answerScan_spec fp query : forall hashes fds,
  answerScan sql fp query hashes fds = Done (if decide (zeroHash ∈ query) then ([], [])
    else (hashes ++ (omap (served fp) query).*1, fds ++ (omap (served fp) query).*2)).
Proof.
  induction query as [|h query IH]; intros hashes fds; cbn [answerScan].
  { rewrite decide_False by set_solver. by rewrite !app_nil_r. }
  destruct (decide (Cmp h zeroHash = 0)) as [Hz|Hz].
  { apply Compare_eq in Hz as ->. rewrite decide_True by set_solver. done. }
  assert (h <> zeroHash) by (intros ->; apply Hz; by apply Compare_eq). rewrite GetDA_recordOf. cbn [mbind outcome_bind omap list_omap].
  rewrite (decide_ext (zeroHash ∈ h :: query) (zeroHash ∈ query)) by set_solver. 
  destruct (recordOf byTx byCommit fp h) as [d|] eqn:Hr; [destruct (encodeDA d) as [bs|] eqn:He|].
  - assert (served fp h = Some (h, bs)) as -> by (unfold served; rewrite Hr; cbn [mbind option_bind]; by rewrite He).
    rewrite IH. cbn [fmap list_fmap fst snd]. case_decide; [done|]. by rewrite <-!app_assoc.
  - assert (served fp h = None) as -> by (unfold served; rewrite Hr; cbn [mbind option_bind]; by rewrite He). apply IH.
  - assert (served fp h = None) as -> by (unfold served; by rewrite Hr). apply IH.
Qed.

(** A request for pooled records is answered with the bytes of the records the
    node has, each under its hash and in the order of the request, but with
    nothing at all when one of the hashes asked for is zero. *)
Theorem answerGetPooledFileDatas_correct fp query :
  answerGetPooledFileDatas sql fp query = Done (if decide (zeroHash ∈ query) then ([], [])
    else ((omap (served fp) query).*1, (omap (served fp) query).*2)).
Proof. apply answerScan_spec. Qed.

End answers.

(** ** Block file data *)

Section service.
Context (GetFileDatasByHash : Hash -> option (list DA)) (hasBlock : Hash -> bool).

(** Whether a record of a block can be encoded. *)
Definition servable (h : Hash) : bool := existsb (fun d => bool_decide (is_Some (encodeDA d))) (default [] (GetFileDatasByHash h)).

Lemma serveRecords_empty results : forall k bytes,
  fold_outcome serveRecord (imap (fun i d => ((k + i)%nat, d)) results) (bytes, 0, []) =
  if existsb (fun d => bool_decide (is_Some (encodeDA d))) results then Panic else Done (bytes, 0, []).
Proof.
  induction results as [|d results IH]; intros k bytes; [done|]. rewrite imap_cons. cbn [fold_outcome existsb]. unfold serveRecord at 1.
  destruct (encodeDA d) as [bs|].
  - rewrite bool_decide_true by (by eexists). cbn [orb].
    assert (forall i, index (@nil (option (list (list Z)))) i = Panic) as Hi.
    { intros i. unfold index. case_decide; [|done]. by rewrite lookup_nil. }
    case_decide; cbn [mbind outcome_bind]; rewrite ?Hi; cbn [mbind outcome_bind]; by rewrite ?Hi.
  - rewrite bool_decide_false by (by intros []). cbn [orb].
    replace (imap _ results) with (imap (fun i d => ((S k + i)%nat, d)) results) by (apply imap_ext; intros; simpl; f_equal; lia). apply IH.
Qed.

(** The service: [serveHash] never changes its state. *)
Lemma service_panics query : ServiceGetFileDatasQuery GetFileDatasByHash hasBlock query = if existsb servable query then Panic else Done [].
Proof.
  unfold ServiceGetFileDatasQuery.
  assert (forall bytes, fold_outcome (serveHash GetFileDatasByHash hasBlock) query (bytes, 0, []) = if existsb servable query then Panic else Done (bytes, 0, [])) as H.
  { induction query as [|h query IH]; intros bytes; [done|]. cbn [fold_outcome existsb]. unfold serveHash at 1, servable at 1.
    assert (forall results, ('(bytes, batch, batchFileDatas) ← fold_outcome serveRecord (imap pair results) (bytes, 0, []);
      Done (bytes, batch, [] ++ ((fun datas => mkBatch h (Z.of_nat (length results)) (Z.of_nat (length (default [] datas))) (default [] datas)) <$> batchFileDatas))) =
      if existsb (fun d => bool_decide (is_Some (encodeDA d))) results then Panic else Done (bytes, 0, [])) as Hr.
    { intros results. change (imap pair results) with (imap (fun i d => ((0 + i)%nat, d)) results). rewrite serveRecords_empty. by destruct (existsb _ results). }
    destruct (GetFileDatasByHash h) as [results|], (hasBlock h); cbn [default from_option id] in *; rewrite ?Hr; cbn [existsb orb];
      try (destruct (existsb _ results); [done|]); apply IH. }
  rewrite H. by destruct (existsb servable query).
Qed.

(** The service for block file data panics on the first requested block that
    has a record which can be encoded, because it indexes a list of batches
    that is empty; for requests without one it answers nothing, so that it
    never serves a record. *)
Theorem ServiceGetFileDatasQuery_panics query :
  ServiceGetFileDatasQuery GetFileDatasByHash hasBlock query = if existsb servable query then Panic else Done [].
Proof. apply service_panics. Qed.

End service.

(** ** What makes a handler panic *)

(** A result that is a panic exactly when [C] holds. *)
Definition panicsWhen {A} (o : outcome A) (C : Prop) : Prop :=
  match o with Panic => C | Stuck => False | Done _ => ~ C end.

Lemma panicsWhen_iff {A} (o : outcome A) (C D : Prop) : (C <-> D) -> panicsWhen o C -> panicsWhen o D.
Proof. intros H. destruct o; simpl; tauto. Qed.

Lemma panicsWhen_never {A} (o : outcome A) (C : Prop) : isDone o = true -> ~ C -> panicsWhen o C.
Proof. by destruct o. Qed.

(** The database cannot be asked for a record that the pool does not have: one of
    the two lookups panics. *)
Definition lookupPanics (sql : nat -> sqlDB) (fp : FilePool) (h : Hash) : Prop :=
  get fp h = None /\
  (GetCommitmentByTxHash (sql 0%nat) h = Panic \/
   exists r, GetCommitmentByTxHash (sql 0%nat) h = Done r /\ okDA r = None /\ GetDAByCommitmentHash (sql 0%nat) h = Panic).

(** A lookup before the first zero hash panics. *)
Fixpoint someLookupPanics (sql : nat -> sqlDB) (fp : FilePool) (query : list Hash) : Prop :=
  match query with
  | [] => False
  | h :: query => h <> zeroHash /\ (lookupPanics sql fp h \/ someLookupPanics sql fp query)
  end.

(** The packet has no record, or it is neither refused nor known and has a record
    that does not pass the pool's validation. *)
Definition recordsPanic (p : EthPeer) (ds : list DA) : Prop :=
  match ds with
  | [] => True
  | d :: _ => refusedFrom ds false = false /\ seen p d = false /\ ~ Forall valid ds
  end.

(** The messages that make the handler panic. *)
Definition crashes (e : env) (c : conn) (code : Z) (payload : list Z) : Prop :=
  (code = FileDataMsg /\ exists v ds, msgDecode payload fileDataPacketType = ok v /\ recordsOf v = Some <$> ds /\ recordsPanic (connPeer c) ds) \/
  (code = GetPooledFileDatasMsg /\ exists v, msgDecode payload requestPacketType = ok v /\
     (hashesOf (fieldOf 1 v) = [] \/ someLookupPanics (envSql e) (connPool c) (hashesOf (fieldOf 1 v)))) \/
  (code = ReqFileDatasMsg /\ exists v, msgDecode payload requestPacketType = ok v /\ existsb (servable (envRecords e)) (hashesOf (fieldOf 1 v)) = true) \/
  (code = NewPooledFileDataHashesMsg /\ version (connPeer c) < ETH68 /\ exists v, msgDecode payload hashesPacket67Type = ok v /\
     exists h, h ∈ hashesOf v /\ Has (connPool c) h = false) \/
  (code = PooledFileDatasMsg /\ exists v ds, msgDecode payload pooledPacketType = ok v /\ recordsOf (fieldOf 1 v) = Some <$> ds /\ ~ Forall valid ds).

(** A handler panics when what it does with the decoded value does. *)
Lemma decoding_panics payload ty c k (C : rval -> Prop) : wfType ty -> goBytes payload ->
  (forall v, msgDecode payload ty = ok v -> typed v ty -> unread v = false -> panicsWhen (k v) (C v)) ->
  panicsWhen (decoding payload ty c k) (exists v, msgDecode payload ty = ok v /\ C v).
Proof.
  intros Hw Hg Hk. unfold decoding. destruct (msgDecode_cases payload ty Hw Hg) as [[err ->]|(v & Hv & Ht & Hn)]; [by intros (? & [=] & _)|].
  specialize (Hk v Hv Ht Hn). rewrite Hv. cbn [ok mbind outcome_bind]. eapply panicsWhen_iff; [|exact Hk].
  split; [by eauto|]. by intros (v' & [= <-] & ?).
Qed.

Lemma handleFileDatas_panics e c payload : goBytes payload ->
  panicsWhen (handleFileDatas e c payload)
    (exists v, msgDecode payload fileDataPacketType = ok v /\ exists ds, recordsOf v = Some <$> ds /\ recordsPanic (connPeer c) ds).
Proof.
  intros Hg. apply decoding_panics; [exact fileDataPacketType_wf|done|]. intros v _ Ht Hn. destruct (recordsOf_typed v Ht Hn) as [ds Hds]. rewrite Hds.
  apply (panicsWhen_iff _ (recordsPanic (connPeer c) ds)); [split; [by eauto|intros (ds' & Heq & ?); apply (inj (fmap Some)) in Heq; by subst]|].
  pose proof (handleRecords_cases e c ds) as H. destruct ds as [|d ds]; [by rewrite H|]. unfold recordsPanic.
  destruct (refusedFrom (d :: ds) false); [apply panicsWhen_never; [done|by intros [? _]]|].
  destruct (seen (connPeer c) d); [rewrite H; by intros (_ & ? & _)|]. destruct H as (p' & _ & ->).
  pose proof (backendHandle_records e (set_peer p' c) (d :: ds) _ (or_introl eq_refl)) as Hb. destruct (backendHandle _ _ _) as [[c' h]| |]; simpl; tauto.
Qed.

Section lookups.
Context (sql : nat -> sqlDB).
Hypothesis Htx : forall h, GetCommitmentByTxHash (sql 0%nat) h <> Stuck.
Hypothesis Hcm : forall h, GetDAByCommitmentHash (sql 0%nat) h <> Stuck.

Lemma GetDA_panics fp h : match GetDA sql fp h with Done (fp', _) => fp' = fp /\ ~ lookupPanics sql fp h | Panic => lookupPanics sql fp h | Stuck => False end.
Proof.
  unfold GetDA. rewrite Get_from_eq. unfold lookupPanics. specialize (Htx h). specialize (Hcm h). destruct (get fp h); [split; [done|by intros [? _]]|].
  destruct (GetCommitmentByTxHash (sql 0%nat) h) as [r1| |]; cbn [mbind outcome_bind]; [|by auto|done].
  destruct (okDA r1) eqn:Hr; [split; [done|]; intros [_ [?|(r & [= <-] & ? & _)]]; congruence|].
  destruct (GetDAByCommitmentHash (sql 0%nat) h) as [r2| |]; cbn [mbind outcome_bind]; [|by eauto 10|done].
  destruct (okDA r2); (split; [done|]); intros [_ [?|(r & _ & _ & ?)]]; congruence.
Qed.

Lemma answerScan_panics fp query : forall hashes fds, panicsWhen (answerScan sql fp query hashes fds) (someLookupPanics sql fp query).
Proof.
  induction query as [|h query IH]; intros hashes fds; cbn [answerScan someLookupPanics]; [by intros []|].
  destruct (decide (Cmp h zeroHash = 0)) as [Hz|Hz]; [apply Compare_eq in Hz; by intros [? _]|].
  assert (h <> zeroHash) by (intros ->; apply Hz; by apply Compare_eq). pose proof (GetDA_panics fp h) as HG.
  destruct (GetDA sql fp h) as [[fp' fd]| |]; cbn [mbind outcome_bind]; [|split; [done|by left]|done]. destruct HG as [-> Hn].
  assert (forall hashes fds, panicsWhen (answerScan sql fp query hashes fds) (h <> zeroHash /\ (lookupPanics sql fp h \/ someLookupPanics sql fp query))) as Hrest.
  { intros hashes' fds'. eapply panicsWhen_iff; [|apply IH]. tauto. }
  destruct fd as [fd|]; [destruct (encodeDA fd)|]; apply Hrest.
Qed.
End lookups.

Lemma requestPacket_typed v : typed v requestPacketType -> exists id l, v = VList [VUint id; VList l].
Proof.
  intros Ht. destruct v as [| | | |l| |]; try done. unfold requestPacketType in Ht. rewrite typed_struct in Ht. typed_fields Ht.
  repeat match goal with H : typed ?v _ |- _ => is_var v; destruct v; try (exfalso; exact H) end. eauto.
Qed.

Lemma handleReqFileDatas_panics e c payload : goBytes payload ->
  panicsWhen (handleReqFileDatas e c payload)
    (exists v, msgDecode payload requestPacketType = ok v /\ existsb (servable (envRecords e)) (hashesOf (fieldOf 1 v)) = true).
Proof.
  intros Hg. apply decoding_panics; [exact requestPacketType_wf|done|]. intros v _ _ _. rewrite service_panics.
  destruct (existsb _ (hashesOf (fieldOf 1 v))); [done|]. by cbn [mbind outcome_bind panicsWhen].
Qed.

Lemma handleNewPooledFileDataHashes67_panics e c payload : goBytes payload ->
  panicsWhen (handleNewPooledFileDataHashes67 e c payload)
    (exists v, msgDecode payload hashesPacket67Type = ok v /\ exists h, h ∈ hashesOf v /\ Has (connPool c) h = false).
Proof.
  intros Hg. apply decoding_panics; [done|done|]. intros v _ _ _. unfold backendHandle. cbn [HandlePacket].
  change (connPool (markHashes (hashesOf v) c)) with (connPool c).
  destruct (filter (fun h => Has (connPool c) h = false) (hashesOf v)) as [|h l] eqn:Hf.
  - rewrite Notify_known by done. cbn [mbind outcome_bind]. intros (h & Hin & Hh). by apply (filter_nil_not_elem_of _ _ h Hf).
  - rewrite Notify_unknown by (by rewrite Hf). cbn [mbind outcome_bind]. assert (h ∈ h :: l) as Hin by set_solver. rewrite <-Hf in Hin.
    apply list_elem_of_filter in Hin as []. by exists h.
Qed.

Lemma handleNewPooledFileDataHashes68_done e c payload : goBytes payload -> panicsWhen (handleNewPooledFileDataHashes68 e c payload) False.
Proof.
  intros Hg. eapply panicsWhen_iff; [|apply (decoding_panics _ _ _ _ (fun _ => False))]; [split; [by intros (? & _ & [])|done]|split; [by right; right; left|done]|done|].
  intros v _ _ _. cbv zeta. case_decide as Hl; [by intros []|]. apply panicsWhen_never; [|by intros []]. apply backendHandle_sizes. lia.
Qed.

Lemma markPooled_some ds : forall p, (markPooled (Some <$> ds) p).2 = None.
Proof. induction ds as [|d ds IH]; intros p; [done|]. cbn [fmap list_fmap markPooled]. apply IH. Qed.

Lemma pooledPacket_typed v : typed v pooledPacketType -> unread v = false -> exists ds, recordsOf (fieldOf 1 v) = Some <$> ds.
Proof.
  intros Ht Hn. destruct v as [| | | |l| |]; try done. unfold pooledPacketType in Ht. rewrite typed_struct in Ht. typed_fields Ht.
  cbn [unread existsb] in Hn. apply orb_false_iff in Hn as [_ Hn]. apply orb_false_iff in Hn as [Hn _]. by apply recordsOf_typed.
Qed.

Lemma handlePooledFileDatas_panics e c payload : goBytes payload ->
  panicsWhen (handlePooledFileDatas e c payload)
    (exists v, msgDecode payload pooledPacketType = ok v /\ exists ds, recordsOf (fieldOf 1 v) = Some <$> ds /\ ~ Forall valid ds).
Proof.
  intros Hg. apply decoding_panics; [split; [by right; right; right|exact (conj fileDataPacketType_wf I)]|done|]. intros v _ Ht Hn.
  destruct (pooledPacket_typed v Ht Hn) as [ds Hds]. cbv zeta. rewrite Hds. pose proof (markPooled_some ds (connPeer c)) as Hm.
  destruct (markPooled (Some <$> ds) (connPeer c)) as [p' err]. cbn [snd] in Hm. subst err.
  apply (panicsWhen_iff _ (~ Forall valid ds)); [split; [by eauto|intros (ds' & Heq & ?); apply (inj (fmap Some)) in Heq; by subst]|].
  pose proof (backendHandle_records e (set_peer p' c) ds _ (or_intror eq_refl)) as Hb. destruct (backendHandle _ _ _) as [[c' h]| |]; simpl; tauto.
Qed.

(** ** The metadata of a response *)

Lemma msgDecode_enc payload t v : wfType t -> goBytes payload -> msgDecode payload t = ok v -> exists rest, payload = enc v t ++ rest.
Proof.
  intros Hw [Hb Hl] Hd. pose proof (streamDecode_limited payload t Hw Hb Hl) as H. unfold msgDecode in Hd.
  destruct (streamDecode t _) as [[[err|v'] s]| |]; try done. injection Hd as <-. destruct H as (_ & _ & H). by exists (input s).
Qed.

Lemma encStr_length b : (length b <= length (encStr b))%nat.
Proof. destruct b as [|x [|y b]]; unfold encStr; [simpl; lia| |rewrite length_app; lia]. case_decide; simpl; lia. Qed.

(** An element is not longer than the list. *)
Lemma encElems_length v l t ts i : l !! i = Some v -> ts !! i = Some t -> (length (enc v t) <= length (encElems l ts))%nat.
Proof.
  revert ts i. induction l as [|x l IH]; intros [|y ts] [|i]; try done; cbn; rewrite length_app; [intros [= <-] [= <-]; lia|].
  intros H1 H2. specialize (IH ts i H1 H2). lia.
Qed.

Lemma encList_length l : (length l <= length (encList l))%nat.
Proof. unfold encList. rewrite length_app. lia. Qed.

(** The records of a batch are byte strings, like those a failed decoding leaves. *)
Lemma batchRecords_done e data : goBytes data -> Forall goBytes (leftBatch e data) -> exists l, batchRecords e data = Done l /\ Forall goBytes l.
Proof.
  intros [Hb Hl] He. unfold batchRecords. destruct (DecodeBytes_sound data batchType) as [Hd Hs]; [split; [done|split; [by right; right; right|split; [by right; right; right|done]]]|done|done|].
  destruct (DecodeBytes data batchType) as [[err|v]| |]; try done; cbn [mbind outcome_bind]; [by eauto|]. eexists. split; [done|].
  destruct (Hs v eq_refl) as (Ht & _ & Hv). clear Hd Hs. destruct v as [| | | |l| |]; try done. unfold batchType in Ht. rewrite typed_struct in Ht. typed_fields Ht.
  match goal with H : typed ?v (TSlice TBytes) |- _ => change (fieldOf 3 _) with v; destruct v as [| | | |l| |]; try done; rename H into Hf end.
  rewrite typed_slice in Hf. destruct (typed_bytes TBytes l (or_introl eq_refl) Hf) as [Hbl Hok]. rewrite Forall_forall in Hok. apply Forall_forall. intros b Hin. split; [by apply Hok|].
  apply list_elem_of_lookup in Hin as [i Hi]. assert (l !! i = Some (VBytes b)) as Hli by (rewrite <-Hbl, list_lookup_fmap, Hi; done).
  pose proof (encElems_length (VBytes b) l TBytes (replicate (length l) TBytes) i Hli (proj2 (lookup_replicate _ _ _ _) (conj eq_refl (lookup_lt_Some _ _ _ Hli)))) as H1.
  pose proof (encStr_length b) as H2. pose proof (encList_length (encElems l (replicate (length l) TBytes))) as H3.
  assert (length (enc (VList l) (TSlice TBytes)) <= length data)%nat; [|cbn [enc] in H1; rewrite enc_slice in *; lia].
  rewrite Hv. unfold batchType. rewrite enc_struct. etransitivity; [|apply encList_length]. by apply (encElems_length _ _ _ _ 3%nat).
Qed.

(** The closure that makes the metadata never panics. *)
Lemma metaData_done e res : goBytes res -> Forall goBytes (leftBatch e res) -> isDone (metaData e res) = true.
Proof.
  intros Hg He. unfold metaData. destruct (batchRecords_done e res Hg He) as (l & -> & Hl). cbn [mbind outcome_bind].
  match goal with |- isDone (fold_outcome ?f _ _) = true => set (step := f) end.
  generalize (@nil Hash). induction Hl as [|data l [Hb Hd] _ IH]; intros hashes; [done|]. cbn [fold_outcome]. unfold step at 1, DA_Decode.
  destruct (DecodeBytes_sound data daType daType_wf Hb Hd) as [Hdone _]. destruct (DecodeBytes data daType) as [[err|v]| |]; try done; cbn [rbind mbind outcome_bind]; [apply IH|].
  destruct (valDA v); apply IH.
Qed.

Lemma handleResFileDatas_done e c payload : goBytes payload -> (forall data, Forall goBytes (leftBatch e data)) -> panicsWhen (handleResFileDatas e c payload) False.
Proof.
  intros Hg He. assert (wfType responsePacketType) as Hw by (split; [by right; right; right|done]).
  eapply panicsWhen_iff; [|apply (decoding_panics _ _ _ _ (fun _ => False) Hw Hg)]; [split; [by intros (? & _ & [])|done]|].
  intros v Hv Ht _. cbv zeta. unfold dispatching. destruct (envTerm e); [by intros []|].
  destruct (acceptResponse _ _ _) as [d [err|r]]; [by intros []|]. destruct (msgDecode_enc payload _ v Hw Hg Hv) as [rest Hp].
  destruct v as [| | | |l| |]; try done. unfold responsePacketType in Ht, Hp. rewrite typed_struct in Ht. typed_fields Ht.
  match goal with H : typed ?v TBytes |- _ => destruct v as [| |b| | | |]; try done; change (bytesOf (fieldOf 1 _)) with b; rename H into Hb end.
  assert (goBytes b) as Hgb.
  { split; [exact Hb|]. destruct Hg as [_ Hl]. rewrite Hp, length_app, enc_struct in Hl. cbn [encElems] in Hl.
    match type of Hl with context [encList ?x] => pose proof (encList_length x) as H1 end. rewrite !length_app in H1. cbn [enc] in H1, Hl. pose proof (encStr_length b). lia. }
  destruct (isDone_true _ (metaData_done e b Hgb (He b))) as [meta ->]. by intros [].
Qed.

Lemma handleGetPooledFileDatas_panics e c payload : goBytes payload ->
  (forall h, GetCommitmentByTxHash (envSql e 0%nat) h <> Stuck) -> (forall h, GetDAByCommitmentHash (envSql e 0%nat) h <> Stuck) ->
  panicsWhen (handleGetPooledFileDatas e c payload) (exists v, msgDecode payload requestPacketType = ok v /\
    (hashesOf (fieldOf 1 v) = [] \/ someLookupPanics (envSql e) (connPool c) (hashesOf (fieldOf 1 v)))).
Proof.
  intros Hg Htx Hcm. apply decoding_panics; [exact requestPacketType_wf|done|]. intros v _ _ _. cbv zeta.
  destruct (hashesOf (fieldOf 1 v)) as [|h query] eqn:Hq; [by left|]. change (index (h :: query) 0) with (Done h). cbn [mbind outcome_bind].
  pose proof (answerScan_panics (envSql e) Htx Hcm (connPool c) (h :: query) [] []) as H. unfold answerGetPooledFileDatas.
  destruct (answerScan _ _ _ _ _) as [[hashes fds]| |]; cbn [mbind outcome_bind]; [|by right|done].
  destruct (ReplyPooledFileDatasRLP _ _ _ _ _ _) as [[p' m] err]. by intros [|].
Qed.

(** C34: every message is handled to its end or panics, and it panics exactly in
    these cases ([crashes]): a packet without records; a packet, new to the
    receiver, or an answer with a record that does not pass the validation; a
    request without hashes, or for a hash whose lookup in the database panics;
    an announcement of a hash the pool does not have, on eth/67; and, with a
    code behind the range of the protocol, a request for the file data of a
    block that has some.  It is assumed that the lookups in the database end,
    and that what a failed decoding leaves is byte strings. *)
Theorem handleMessage_panics e c code payload : goBytes payload ->
  (forall h, GetCommitmentByTxHash (envSql e 0%nat) h <> Stuck) -> (forall h, GetDAByCommitmentHash (envSql e 0%nat) h <> Stuck) ->
  (forall data, Forall goBytes (leftBatch e data)) ->
  panicsWhen (handleMessage e c (Some (code, payload))) (crashes e c code payload).
Proof.
  intros Hg Htx Hcm He. unfold handleMessage, crashes. rewrite decide_False by (pose proof (wrap_bound 32 (Z.of_nat (length payload))); unfold u32, maxMessageSize; lia).
  destruct (decide (code = FileDataMsg)) as [->|H1]; [eapply panicsWhen_iff; [|by apply handleFileDatas_panics]; naive_solver|].
  destruct (decide (code = ReqFileDatasMsg)) as [->|H2]; [eapply panicsWhen_iff; [|by apply handleReqFileDatas_panics]; naive_solver|].
  destruct (decide (code = ResFileDatasMsg)) as [->|H3]; [eapply panicsWhen_iff; [|by apply handleResFileDatas_done]; naive_solver|].
  destruct (decide (code = GetPooledFileDatasMsg)) as [->|H4]; [eapply panicsWhen_iff; [|by apply handleGetPooledFileDatas_panics]; naive_solver|].
  destruct (decide (code = NewPooledFileDataHashesMsg)) as [->|H5].
  { destruct (decide (version (connPeer c) >= ETH68)) as [Hv|Hv]; (eapply panicsWhen_iff; [|by first [apply handleNewPooledFileDataHashes68_done|apply handleNewPooledFileDataHashes67_panics]]); naive_solver lia. }
  destruct (decide (code = PooledFileDatasMsg)) as [->|H6]; [eapply panicsWhen_iff; [|by apply handlePooledFileDatas_panics]; naive_solver|].
  intros Hc. naive_solver.
Qed.
(** ** The handshake *)

Lemma statusVal_ok ver net td head gen forkHash forkNext :
  0 <= ver < 2 ^ 32 -> in_u64 net -> 0 <= td < 2 ^ 1024 -> hash_ok head -> hash_ok gen -> length forkHash = 4%nat -> bytes_ok forkHash -> in_u64 forkNext ->
  let v := statusVal ver net td head gen forkHash forkNext in storable v statusType /\ Z.of_nat (length (enc v statusType)) <= 10000.
Proof.
  intros Hver Hnet Htd [Hh1 Hh2] [Hg1 Hg2] Hf1 Hf2 Hfn v. assert (storable v statusType) as Hst.
  { unfold v, statusVal, statusType, hashType. assert (uintBits 64) by (by right; right; right). assert (uintBits 32) by (by right; right; left).
    destruct Hnet, Hfn.
    split; [split; [assumption|lia]|]. split; [split; [assumption|lia]|]. split; [exact (proj1 Htd)|]. split; [by split|]. split; [by split|].
    split; [|done]. split; [by split|]. split; [split; [assumption|lia]|done]. }
  split; [done|]. assert (weight v <= 1000) as Hw.
  { unfold v, statusVal. cbn [weight foldr]. rewrite Hh1, Hg1, Hf1. unfold HashLength.
    assert (Z.log2 (Z.abs td) `div` 8 < 128); [|lia]. apply Z.div_lt_upper_bound; [lia|]. rewrite Z.abs_eq by lia.
    destruct (decide (td = 0)) as [->|]; [done|]. apply Z.log2_lt_pow2; lia. }
  pose proof (length_enc v statusType (proj1 (storable_typed _ _ Hst)) ltac:(lia)) as Hlen. lia.
Qed.

(** The status message of a peer is read back as it was sent, and accepted
    exactly when network, version and genesis block agree and the fork
    identifier passes the filter, checked in this order. *)
Theorem readStatus_correct p network genesis forkFilter ver net td head gen forkHash forkNext :
  0 <= ver < 2 ^ 32 -> in_u64 net -> 0 <= td < 2 ^ 1024 -> hash_ok head -> hash_ok gen -> length forkHash = 4%nat -> bytes_ok forkHash -> in_u64 forkNext ->
  readStatus p network genesis forkFilter (Some (StatusMsg, enc (statusVal ver net td head gen forkHash forkNext) statusType)) =
  Done (if decide (net <> network) then inl errNetworkIDMismatch
        else if decide (ver <> version p) then inl errProtocolVersionMismatch
        else if decide (gen <> genesis) then inl errGenesisMismatch
        else if negb (forkFilter forkHash forkNext) then inl errForkIDRejected
        else inr (td, head)).
Proof.
  intros Hver Hnet Htd Hh Hg Hf1 Hf2 Hfn. destruct (statusVal_ok ver net td head gen forkHash forkNext Hver Hnet Htd Hh Hg Hf1 Hf2 Hfn) as [Hst Hlen].
  set (v := statusVal ver net td head gen forkHash forkNext) in *. assert (msgDecode (enc v statusType) (TPtr statusType) = ok (VPtr (Some v))) as Hdec.
  { pose proof (msgDecode_stored (VPtr (Some v)) (TPtr statusType) [] ltac:(repeat split; try done; first [by right; right; left|by right; right; right]) Hst
      ltac:(constructor)) as H. rewrite app_nil_r in H. apply H. change (enc (VPtr (Some v)) (TPtr statusType)) with (enc v statusType). unfold maxAlloc. lia. }
  unfold readStatus. rewrite decide_False by (by intros ?). rewrite decide_False by (pose proof (wrap_bound 32 (Z.of_nat (length (enc v statusType)))); unfold u32, maxMessageSize; lia).
  rewrite Hdec. cbn [ok mbind outcome_bind]. unfold v, statusVal. cbn.
  repeat (case_decide; [done|]). by destruct (forkFilter forkHash forkNext).
Qed.
End Handlers.

(** ** On the small instance *)

Module HandlersSample.
Import Sample PoolSample RlpSample GossipSample.

(** A library that accepts every proof. *)
#[export] Instance trustingSDK : SDK := {| sdkInit := true; VerifyCommitWithProof _ _ _ := Some true |}.

Definition signedDA : DA := mkDA (replicate 20 7) 0 3 2 [8; 9] (5, 6) [[1]] [] zeroHash zeroHash 0 12 0 [1] [2] None zeroHash.
Definition sampleEnv : env := mkEnv fixedDB fsFine (fun _ _ => 0) (fun _ => None) (fun _ => false) true false (fun _ => ResFileDatasMsg) (fun _ => []) (fun _ => zeroHash).
Definition sampleConn (ver : Z) : conn := mkConn pool0 (mkEth (lit "p") ver sampleRW 0 (mkKnown ∅ maxKnownFds) newLoop newLoop) newDispatch.
End HandlersSample.

Section handlers_witnesses.
Import Sample PoolSample RlpSample GossipSample HandlersSample.

Lemma sent_records_arrive_witness : let ds := [recordKept signedDA] in exists c',
  handleMessage popFirst sampleEnv (sampleConn ETH68) (Some (FileDataMsg, enc (recordsVal [signedDA]) fileDataPacketType)) =
    Done (c', HHandled (Some (deliveryOf (lit "p") ds))) /\ is_Some (get (connPool c') (cmHash signedDA)).
Proof.
  destruct (sent_records_arrive popFirst sampleEnv (samplePeer ∅) (sampleConn ETH68) [signedDA] (sendMark popFirst [signedDA] false (samplePeer ∅)).1 28
    (enc (recordsVal [signedDA]) fileDataPacketType) true) as [_ H].
  - repeat constructor; done.
  - repeat constructor; done.
  - repeat constructor; done.
  - vm_compute. discriminate.
  - vm_compute. reflexivity.
  - assert (seen (connPeer (sampleConn ETH68)) signedDA = false) as Hs by (vm_compute; reflexivity). rewrite Hs in H.
    destruct (proj2 H) as (c' & Hc & _ & Hin); [by repeat constructor|]. exists c'. split; [exact Hc|].
    assert (cmHash signedDA = poolHash (recordKept signedDA)) as -> by (vm_compute; reflexivity).
    refine (Hin _ _ (recordKept signedDA) (proj2 (list_elem_of_singleton _ _) eq_refl)); [vm_compute; discriminate|]. split; [vm_compute; discriminate|vm_compute; reflexivity].
Defined.

Lemma answerGetPooledFileDatas_correct_witness :
  answerGetPooledFileDatas fixedDB pool0 [cmHash badDA; TxHash txDA] = Done ([cmHash badDA], [enc (daVal badDA) daType]).
Proof.
  rewrite (answerGetPooledFileDatas_correct fixedDB byTxOf byCommitOf (fun h => eq_refl) (fun h => eq_refl) pool0 [cmHash badDA; TxHash txDA]).
  vm_compute. reflexivity.
Defined.

(** An empty packet, an announcement on eth/67, and the same on eth/68, which
    does not even decode. *)
Lemma handleMessage_panics_witness : let announcement := 0xE1 :: 0xA0 :: replicate 32 7 in
  handleMessage popFirst sampleEnv (sampleConn ETH68) (Some (FileDataMsg, [0xC0])) = Panic /\
  handleMessage popFirst sampleEnv (sampleConn ETH67) (Some (NewPooledFileDataHashesMsg, announcement)) = Panic /\
  ~ crashes sampleEnv (sampleConn ETH68) NewPooledFileDataHashesMsg announcement.
Proof.
  assert (forall ver code payload, goBytes payload -> panicsWhen (handleMessage popFirst sampleEnv (sampleConn ver) (Some (code, payload))) (crashes sampleEnv (sampleConn ver) code payload)) as H.
  { intros ver code payload Hg. apply (handleMessage_panics popFirst sampleEnv (sampleConn ver) code payload Hg); [discriminate|discriminate|constructor]. }
  cbv zeta. split_and!.
  - specialize (H ETH68 FileDataMsg [0xC0] ltac:(split; [apply bytes_ok_check; reflexivity|vm_compute; discriminate])).
    assert (crashes sampleEnv (sampleConn ETH68) FileDataMsg [0xC0]) as Hc by (left; split; [reflexivity|]; exists (VList []), []; split_and!; [vm_compute; reflexivity|reflexivity|exact I]).
    destruct (handleMessage _ _ _ _) as [r| |]; [destruct (H Hc)|reflexivity|destruct H].
  - specialize (H ETH67 NewPooledFileDataHashesMsg (0xE1 :: 0xA0 :: replicate 32 7) ltac:(split; [apply bytes_ok_check; reflexivity|vm_compute; discriminate])).
    assert (crashes sampleEnv (sampleConn ETH67) NewPooledFileDataHashesMsg (0xE1 :: 0xA0 :: replicate 32 7)) as Hc.
    { right; right; right; left. split; [reflexivity|]. split; [reflexivity|]. exists (VList [VBytes (replicate 32 7)]). split; [vm_compute; reflexivity|].
      exists (replicate 32 7). split; [by apply list_elem_of_singleton|reflexivity]. }
    destruct (handleMessage _ _ _ _) as [r| |]; [destruct (H Hc)|reflexivity|destruct H].
  - specialize (H ETH68 NewPooledFileDataHashesMsg (0xE1 :: 0xA0 :: replicate 32 7) ltac:(split; [apply bytes_ok_check; reflexivity|vm_compute; discriminate])).
    assert (isDone (handleMessage popFirst sampleEnv (sampleConn ETH68) (Some (NewPooledFileDataHashesMsg, 0xE1 :: 0xA0 :: replicate 32 7))) = true) as Hd by (vm_compute; reflexivity).
    destruct (handleMessage _ _ _ _) as [r| |]; [exact H|discriminate|discriminate].
Defined.

Lemma readStatus_correct_witness :
  readStatus (samplePeer ∅) 7 zeroHash (fun _ _ => true)
    (Some (StatusMsg, enc (statusVal 68 7 1000 zeroHash zeroHash [1; 2; 3; 4] 0) statusType)) = Done (inr (1000, zeroHash)).
Proof.
  rewrite (readStatus_correct (samplePeer ∅) 7 zeroHash (fun _ _ => true) 68 7 1000 zeroHash zeroHash [1; 2; 3; 4] 0);
    [reflexivity|lia|split; lia|split; [lia|vm_compute; reflexivity]|..].
  - split; [reflexivity|apply bytes_ok_check; reflexivity].
  - split; [reflexivity|apply bytes_ok_check; reflexivity].
  - reflexivity.
  - apply bytes_ok_check. reflexivity.
  - split; lia.
Defined.
End handlers_witnesses.
