(* ===== verification/ForkID.v ===== *)
(** * Fork identifiers

    [core/forkid/forkid.go]: the checksum of the genesis block and the forks a
    node has passed, and the filter that decides by it whether two nodes can be
    on one chain.  [hash/crc32] of the standard library is written out; the
    sorting of [golang.org/x/exp/slices] is a parameter. *)

From S2P Require Import Prelude Bytes.

Local Open Scope Z_scope.

(** ** CRC-32 *)

(** A bit of the IEEE polynomial in its reversed form. *)
Definition crcBit (c : Z) : Z := if Z.odd c then Z.lxor (Z.shiftr c 1) 0xEDB88320 else Z.shiftr c 1.

Definition crcByte (c b : Z) : Z := Nat.iter 8 crcBit (Z.lxor c b).

(** [crc32.Update] with [IEEETable]; the checksum is inverted before and after. *)
Definition crcUpdate (crc : Z) (p : list Z) : Z := Z.lxor (foldl crcByte (Z.lxor crc 0xFFFFFFFF) p) 0xFFFFFFFF.

Definition ChecksumIEEE (data : list Z) : Z := crcUpdate 0 data.

(** ** Identifiers *)

Definition timestampThreshold : Z := 1438269973.
Definition MaxUint64 : Z := 2 ^ 64 - 1.

(** The fields of [params.ChainConfig] whose names end in [Block] or [Time]. *)
Record ChainConfig := mkChainConfig {
  HomesteadBlock : option Z; DAOForkBlock : option Z; EIP150Block : option Z; EIP155Block : option Z; EIP158Block : option Z; ByzantiumBlock : option Z;
  ConstantinopleBlock : option Z; PetersburgBlock : option Z; IstanbulBlock : option Z; MuirGlacierBlock : option Z; BerlinBlock : option Z; LondonBlock : option Z;
  ArrowGlacierBlock : option Z; GrayGlacierBlock : option Z; MergeNetsplitBlock : option Z; BedrockBlock : option Z;
  ShanghaiTime : option Z; CancunTime : option Z; PragueTime : option Z; VerkleTime : option Z; RegolithTime : option Z; CanyonTime : option Z
}.

Definition blockRules (c : ChainConfig) : list Z := (fun x => u64 (Z.abs x)) <$> omap id
  [HomesteadBlock c; DAOForkBlock c; EIP150Block c; EIP155Block c; EIP158Block c; ByzantiumBlock c; ConstantinopleBlock c; PetersburgBlock c; IstanbulBlock c;
   MuirGlacierBlock c; BerlinBlock c; LondonBlock c; ArrowGlacierBlock c; GrayGlacierBlock c; MergeNetsplitBlock c; BedrockBlock c].

Definition timeRules (c : ChainConfig) : list Z := omap id [ShanghaiTime c; CancunTime c; PragueTime c; VerkleTime c; RegolithTime c; CanyonTime c].

(** A fork that equals the one before is removed. *)
Fixpoint dedup (prev : Z) (l : list Z) : list Z :=
  match l with
  | [] => []
  | x :: l => if decide (x = prev) then dedup prev l else x :: dedup x l
  end.

Definition dedupForks (l : list Z) : list Z := match l with [] => [] | x :: l => x :: dedup x l end.

Fixpoint skipUntil (genesis : Z) (l : list Z) : list Z :=
  match l with
  | [] => []
  | x :: l' => if decide (x <= genesis) then skipUntil genesis l' else l
  end.

Section Forks.
Context (sort : list Z -> list Z).

Definition gatherForks (config : ChainConfig) (genesis : Z) : list Z * list Z :=
  let forksByBlock := dedupForks (sort (blockRules config)) in
  let forksByTime := dedupForks (sort (timeRules config)) in
  (match forksByBlock with 0 :: l => l | l => l end, skipUntil genesis forksByTime).

Definition checksumUpdate (hash fork : Z) : Z := crcUpdate hash (be_of_Z 8 fork).

Definition checksumToBytes (hash : Z) : list Z := be_of_Z 4 hash.

Record ID := mkID { idHash : list Z; idNext : Z }.

(** The forks passed at a head go into the checksum; the first other one is next. *)
Fixpoint passForks (hash head : Z) (forks : list Z) {struct forks} : Z * option Z :=
  match forks with
  | [] => (hash, None)
  | fork :: forks => if decide (fork <= head) then passForks (checksumUpdate hash fork) head forks else (hash, Some fork)
  end.

Definition NewID (config : ChainConfig) (genesisHash : Hash) (genesisTime head time : Z) : ID :=
  let hash := ChecksumIEEE genesisHash in
  let '(forksByBlock, forksByTime) := gatherForks config genesisTime in
  match passForks hash head forksByBlock with
  | (hash, Some fork) => mkID (checksumToBytes hash) fork
  | (hash, None) =>
      match passForks hash time forksByTime with
      | (hash, Some fork) => mkID (checksumToBytes hash) fork
      | (hash, None) => mkID (checksumToBytes hash) 0
      end
  end.

(** ** The filter *)

Inductive forkErr := ErrRemoteStale | ErrLocalIncompatibleOrStale.

(** The checksums before the first fork, between the forks and behind the last. *)
Fixpoint forkSums (hash : Z) (forks : list Z) {struct forks} : list (list Z) :=
  checksumToBytes hash :: match forks with [] => [] | fork :: forks => forkSums (checksumUpdate hash fork) forks end.

Section Filter.
Context (forks : list Z) (sums : list (list Z)) (blocks : nat) (block time : Z) (id : ID).

(** The rules, at the first fork that the head has not passed. *)
Definition forkRules (i : nat) (head : Z) : option forkErr :=
  if decide (sums !! i = Some (idHash id)) then
    if decide (idNext id > 0 /\ (head >= idNext id \/ (idNext id > timestampThreshold /\ time >= idNext id))) then Some ErrLocalIncompatibleOrStale else None
  else
    match list_find (fun s => s = idHash id) (take i sums) with
    | Some (j, _) => if decide (forks !! j <> Some (idNext id)) then Some ErrRemoteStale else None
    | None => if decide (idHash id ∈ drop (S i) sums) then None else Some ErrLocalIncompatibleOrStale
    end.

Fixpoint filterLoop (i : nat) (rest : list Z) : option forkErr :=
  match rest with
  | [] => None
  | fork :: rest =>
      let head := if decide (blocks <= i)%nat then time else block in
      if decide (head >= fork) then filterLoop (S i) rest else forkRules i head
  end.
End Filter.

Definition newFilter (config : ChainConfig) (genesisHash : Hash) (genesisTime block time : Z) (id : ID) : option forkErr :=
  let '(forksByBlock, forksByTime) := gatherForks config genesisTime in
  let forks := forksByBlock ++ forksByTime in
  let sums := forkSums (ChecksumIEEE genesisHash) forks in
  let blocks := if decide (length forksByTime = 0%nat) then S (length forksByBlock) else length forksByBlock in
  filterLoop (forks ++ [MaxUint64]) sums blocks block time id 0 (forks ++ [MaxUint64]).
End Forks.

#[local] Opaque checksumUpdate checksumToBytes ChecksumIEEE.

(** ** Positions

    The number of forks a head has passed, of which the first ones go by block
    numbers and the others by time. *)

Definition headAt (blocks : nat) (block time : Z) (i : nat) : Z := if decide (blocks <= i)%nat then time else block.

Fixpoint unpassed (blocks : nat) (block time : Z) (i : nat) (rest : list Z) : nat :=
  match rest with
  | [] => i
  | fork :: rest => if decide (headAt blocks block time i >= fork) then unpassed blocks block time (S i) rest else i
  end.

Lemma unpassed_bounds blocks block time rest : forall i, (i <= unpassed blocks block time i rest <= i + length rest)%nat.
Proof. induction rest as [|fork rest IH]; intros i; cbn [unpassed length]; [lia|]. case_decide; [specialize (IH (S i)); lia|lia]. Qed.

Lemma unpassed_head blocks block time rest : forall i fork, rest !! (unpassed blocks block time i rest - i)%nat = Some fork -> headAt blocks block time (unpassed blocks block time i rest) < fork.
Proof.
  induction rest as [|x rest IH]; intros i fork; cbn [unpassed]; [by rewrite lookup_nil|]. case_decide as Hx; [|rewrite Nat.sub_diag; intros [= ->]; lia].
  pose proof (unpassed_bounds blocks block time rest (S i)). replace (unpassed blocks block time (S i) rest - i)%nat with (S (unpassed blocks block time (S i) rest - S i)) by lia. apply IH.
Qed.

(** The fork behind the last is never passed. *)
Lemma filterLoop_rules all sums blocks blocks' block time id forks : block < MaxUint64 -> time < MaxUint64 -> forall i, (forall j, (j < i + length forks)%nat -> headAt blocks' block time j = headAt blocks block time j) ->
  filterLoop all sums blocks' block time id i (forks ++ [MaxUint64]) = forkRules all sums time id (unpassed blocks block time i forks) (headAt blocks' block time (unpassed blocks block time i forks)).
Proof.
  intros Hb Ht. induction forks as [|fork forks IH]; intros i Hh; cbn [app filterLoop unpassed].
  - fold (headAt blocks' block time i). rewrite decide_False; [done|]. unfold headAt. destruct (decide (blocks' <= i)%nat); lia.
  - fold (headAt blocks' block time i). rewrite (Hh i) by (cbn [length]; lia). case_decide as Hf; [|by rewrite (Hh i) by (cbn [length]; lia)]. apply IH. intros j Hj. apply Hh. cbn [length]. lia.
Qed.

Lemma forkSums_lookup hash forks : forall i, (i <= length forks)%nat -> forkSums hash forks !! i = Some (checksumToBytes (foldl checksumUpdate hash (take i forks))).
Proof. revert hash. induction forks as [|fork forks IH]; intros hash [|i] Hi; cbn [forkSums length] in *; [done|lia|done|]. cbn [lookup list_lookup take foldl]. apply IH. lia. Qed.

Lemma length_forkSums hash forks : length (forkSums hash forks) = S (length forks).
Proof. revert hash. induction forks as [|fork forks IH]; intros hash; cbn [forkSums length]; [done|by rewrite IH]. Qed.

(** The two loops of [NewID] are one loop over all forks. *)
Lemma passForks_unpassed hash head forks blocks block time i : (forall j, (i <= j < i + length forks)%nat -> headAt blocks block time j = head) ->
  let k := (unpassed blocks block time i forks - i)%nat in passForks hash head forks = (foldl checksumUpdate hash (take k forks), forks !! k).
Proof.
  revert hash i. induction forks as [|fork forks IH]; intros hash i Hh; cbn [passForks unpassed]; [by rewrite Nat.sub_diag|]. rewrite (Hh i) by (cbn [length]; lia).
  destruct (decide (fork <= head)) as [Hf|Hf]; [rewrite decide_True by lia|rewrite decide_False by lia; by rewrite Nat.sub_diag].
  rewrite (IH _ (S i)) by (intros j Hj; apply Hh; cbn [length]; lia). pose proof (unpassed_bounds blocks block time forks (S i)).
  replace (unpassed blocks block time (S i) forks - i)%nat with (S (unpassed blocks block time (S i) forks - S i)) by lia. done.
Qed.

Lemma unpassed_app blocks block time l1 l2 : forall i, unpassed blocks block time i (l1 ++ l2) =
  if decide (unpassed blocks block time i l1 = i + length l1)%nat then unpassed blocks block time (i + length l1) l2 else unpassed blocks block time i l1.
Proof.
  induction l1 as [|x l1 IH]; intros i; cbn [app unpassed length]; [by rewrite decide_True, Nat.add_0_r by lia|].
  case_decide as Hx; [|by rewrite decide_False by lia]. rewrite IH. replace (S i + length l1)%nat with (i + S (length l1))%nat by lia. done.
Qed.

Section Laws.
Context (sort : list Z -> list Z) (config : ChainConfig) (genesisHash : Hash) (genesisTime : Z).

Definition byBlock : list Z := (gatherForks sort config genesisTime).1.
Definition byTime : list Z := (gatherForks sort config genesisTime).2.
Definition allForks : list Z := byBlock ++ byTime.
Definition allSums : list (list Z) := forkSums (ChecksumIEEE genesisHash) allForks.

(** The number of forks passed. *)
Definition position (block time : Z) : nat := unpassed (length byBlock) block time 0 allForks.

Lemma position_le block time : (position block time <= length allForks)%nat.
Proof. pose proof (unpassed_bounds (length byBlock) block time allForks 0). unfold position. lia. Qed.

Lemma NewID_position block time : let id := NewID sort config genesisHash genesisTime block time in
  allSums !! position block time = Some (idHash id) /\ idNext id = default 0 (allForks !! position block time).
Proof.
  cbn zeta. pose proof (position_le block time) as Hle. unfold allSums. rewrite forkSums_lookup by done. unfold NewID, position, allForks, byBlock, byTime in *.
  destruct (gatherForks sort config genesisTime) as [fb ft]. cbn [fst snd] in *. rewrite unpassed_app in *. rewrite Nat.add_0_l in *.
  pose proof (unpassed_bounds (length fb) block time fb 0) as Hb.
  rewrite (passForks_unpassed _ block fb (length fb) block time 0) by (intros j Hj; unfold headAt; by rewrite decide_False by lia). rewrite Nat.sub_0_r.
  destruct (decide (unpassed (length fb) block time 0 fb = length fb)) as [He|He].
  - rewrite He. rewrite (take_ge fb) by done. rewrite (lookup_ge_None_2 fb) by done. rewrite (passForks_unpassed _ time ft (length fb) block time (length fb)) by (intros j Hj; unfold headAt; by rewrite decide_True by lia).
    pose proof (unpassed_bounds (length fb) block time ft (length fb)) as Hb2. set (k := unpassed (length fb) block time (length fb) ft) in *.
    rewrite take_app, foldl_app. rewrite (lookup_app_r fb) by lia. rewrite (take_ge fb k) by lia. destruct (ft !! (k - length fb)%nat); done.
  - destruct (lookup_lt_is_Some_2 fb (unpassed (length fb) block time 0 fb)) as [f Hf]; [lia|]. rewrite Hf. rewrite take_app_le by lia. rewrite lookup_app_l by lia. by rewrite Hf.
Qed.

(** The head that is compared with the next fork: a block number, or a time once
    all forks by block are passed and there are others. *)
Definition currentHead (block time : Z) : Z := headAt (if decide (length byTime = 0%nat) then S (length byBlock) else length byBlock) block time (position block time).

Lemma newFilter_rules block time id : block < MaxUint64 -> time < MaxUint64 ->
  newFilter sort config genesisHash genesisTime block time id = forkRules (allForks ++ [MaxUint64]) allSums time id (position block time) (currentHead block time).
Proof.
  intros Hb Ht. unfold newFilter, position, currentHead, position, allSums, allForks, byBlock, byTime. destruct (gatherForks sort config genesisTime) as [fb ft]. cbn [fst snd].
  apply filterLoop_rules; [done|done|]. intros j Hj. rewrite Nat.add_0_l, length_app in Hj. case_decide; [|done]. unfold headAt. by rewrite !decide_False by lia.
Qed.

(** What EIP-2124 asks for, by the place of the remote checksum among the local
    ones. *)
Definition forkSpec (k : nat) (head time : Z) (id : ID) : option forkErr :=
  match list_find (fun s => s = idHash id) allSums with
  | None => Some ErrLocalIncompatibleOrStale
  | Some (j, _) =>
      if decide (j = k) then
        if decide (idNext id > 0 /\ (head >= idNext id \/ (idNext id > timestampThreshold /\ time >= idNext id))) then Some ErrLocalIncompatibleOrStale else None
      else if decide (j < k)%nat then if decide (allForks !! j = Some (idNext id)) then None else Some ErrRemoteStale
      else None
  end.

Lemma list_find_eq (l : list (list Z)) s : match list_find (fun x => x = s) l with Some (j, y) => y = s /\ l !! j = Some s | None => s ∉ l end.
Proof.
  destruct (list_find _ l) as [[j y]|] eqn:H; [apply list_find_Some in H as (Hj & -> & _); done|]. apply list_find_None in H. rewrite Forall_forall in H. intros Hin. by apply (H s).
Qed.

Lemma forkRules_spec time id k head : NoDup allSums -> (k <= length allForks)%nat -> forkRules (allForks ++ [MaxUint64]) allSums time id k head = forkSpec k head time id.
Proof.
  intros HN Hk. unfold forkRules, forkSpec. pose proof (list_find_eq allSums (idHash id)) as HF. destruct (list_find (fun x => x = idHash id) allSums) as [[j y]|].
  - destruct HF as [-> Hj]. pose proof (list_find_eq (take k allSums) (idHash id)) as HT. destruct (decide (j = k)) as [->|Hne]; [by rewrite decide_True by done|].
    rewrite decide_False by (intros Hs; apply Hne; by eapply NoDup_lookup). destruct (list_find (fun x => x = idHash id) (take k allSums)) as [[j' y']|].
    + destruct HT as [-> Hj']. apply lookup_take_Some in Hj' as [Hj' Hlt]. assert (j' = j) as -> by (by eapply NoDup_lookup). rewrite (decide_True (P := (j < k)%nat)) by done.
      rewrite lookup_app_l by lia. destruct (decide (allForks !! j = Some (idNext id))); [by rewrite decide_False by (intros []; done)|by rewrite decide_True].
    + destruct (decide (j < k)%nat) as [Hlt|Hge]; [exfalso; apply HT, list_elem_of_lookup; exists j; by rewrite lookup_take_lt|]. rewrite decide_True; [done|].
      apply list_elem_of_lookup. exists (j - S k)%nat. rewrite lookup_drop. replace (S k + (j - S k))%nat with j by lia. done.
  - rewrite decide_False by (intros Hs; apply HF; by eapply list_elem_of_lookup_2). pose proof (list_find_eq (take k allSums) (idHash id)) as HT.
    destruct (list_find (fun x => x = idHash id) (take k allSums)) as [[j' y']|].
    + destruct HT as [_ Hj']. apply lookup_take_Some in Hj' as [Hj' _]. exfalso. apply HF. by eapply list_elem_of_lookup_2.
    + rewrite decide_False; [done|]. intros Hin. apply HF. rewrite <-(take_drop (S k) allSums). apply elem_of_app. by right.
Qed.

(** Two nodes of one chain accept each other. *)
Lemma own_chain_accepted block time block' time' : NoDup allSums -> Forall (fun fork => fork <= timestampThreshold) byBlock -> block < MaxUint64 -> time < MaxUint64 ->
  newFilter sort config genesisHash genesisTime block time (NewID sort config genesisHash genesisTime block' time') = None.
Proof.
  intros HN HB Hb Ht. rewrite newFilter_rules, (forkRules_spec _ _ _ _ HN (position_le block time)) by done. unfold forkSpec.
  destruct (NewID_position block' time') as [Hsum Hnext]. set (id := NewID sort config genesisHash genesisTime block' time') in *. set (k := position block time). set (k' := position block' time') in *.
  pose proof (list_find_eq allSums (idHash id)) as HF. destruct (list_find _ allSums) as [[j y]|]; [|exfalso; apply HF; by eapply list_elem_of_lookup_2].
  destruct HF as [-> Hj]. assert (j = k') as -> by (by eapply NoDup_lookup). destruct (decide (k' = k)) as [He|Hne].
  - rewrite decide_False; [done|]. intros (Hpos & Hc). rewrite Hnext in Hpos, Hc. destruct (allForks !! k') as [fork|] eqn:Hf; [|simpl in Hpos; lia]. cbn [default] in *.
    pose proof (unpassed_head (length byBlock) block time allForks 0 fork) as HH. fold (position block time) in HH. rewrite Nat.sub_0_r in HH. fold k in HH. rewrite He in Hf. specialize (HH Hf).
    pose proof (lookup_lt_Some _ _ _ Hf) as Hlt. unfold currentHead in Hc. fold k in Hc. unfold allForks in Hf, Hlt. rewrite length_app in Hlt.
    unfold headAt in *. destruct (decide (length byBlock <= k)%nat) as [Hge|Hlt'].
    + assert (length byTime <> 0%nat) by lia. rewrite (decide_False (P := length byTime = 0%nat)) in Hc by done. rewrite decide_True in Hc by done. unfold Datatypes.id in Hc. lia.
    + rewrite lookup_app_l in Hf by lia. rewrite Forall_forall in HB. pose proof (HB fork ltac:(by eapply list_elem_of_lookup_2)). destruct (decide (length byTime = 0%nat)); rewrite decide_False in Hc by lia; unfold Datatypes.id in Hc; lia.
  - destruct (decide (k' < k)%nat) as [Hlt|Hge]; [|done]. rewrite decide_True; [done|]. pose proof (position_le block time). fold k in H. rewrite Hnext.
    destruct (lookup_lt_is_Some_2 allForks k') as [fork ->]; [lia|done].
Qed.
End Laws.

(** C38: the filter decides as EIP-2124 asks, when the checksums of the forks are
    different: a node in the same state is refused only if it announces a fork
    that is already passed here; one behind is accepted if its next fork is the
    local one; one ahead is accepted; any other checksum is refused. *)
Theorem fork_filter_correct sort config genesisHash genesisTime block time id : block < MaxUint64 -> time < MaxUint64 -> NoDup (allSums sort config genesisHash genesisTime) ->
  newFilter sort config genesisHash genesisTime block time id =
  forkSpec sort config genesisHash genesisTime (position sort config genesisTime block time) (currentHead sort config genesisTime block time) time id.
Proof. intros Hb Ht HN. rewrite newFilter_rules by done. apply forkRules_spec; [done|apply position_le]. Qed.

(** ** Example: the main network *)

Module SampleForks.
Fixpoint insertZ (x : Z) (l : list Z) : list Z := match l with [] => [x] | y :: l' => if decide (x <= y) then x :: l else y :: insertZ x l' end.
Definition sortZ (l : list Z) : list Z := foldr insertZ [] l.

(** [params.MainnetChainConfig] and the hash of its genesis block. *)
Definition mainnet : ChainConfig := mkChainConfig (Some 1150000) (Some 1920000) (Some 2463000) (Some 2675000) (Some 2675000) (Some 4370000) (Some 7280000) (Some 7280000)
  (Some 9069000) (Some 9200000) (Some 12244000) (Some 12965000) (Some 13773000) (Some 15050000) None None (Some 1681338455) None None None None None.

Definition mainnetGenesis : Hash := be_of_Z 32 0xd4e56740f876aef8c010b86a40d5f56745a118d0906a34e69aec8c0db1cb8fa3.

Lemma mainnet_sums : NoDup (allSums sortZ mainnet mainnetGenesis 0).
Proof. apply (bool_decide_unpack _). vm_compute. exact I. Qed.

(** The identifiers that EIP-2124 lists for the first and the last fork by block. *)
Lemma mainnet_ids : NewID sortZ mainnet mainnetGenesis 0 0 0 = mkID [0xfc; 0x64; 0xec; 0x04] 1150000 /\
  NewID sortZ mainnet mainnetGenesis 0 15050000 0 = mkID [0xf0; 0xaf; 0xd0; 0xe3] 1681338455.
Proof. split; vm_compute; reflexivity. Qed.
End SampleForks.

Import SampleForks.

Lemma fork_filter_correct_witness : newFilter sortZ mainnet mainnetGenesis 0 13000000 1630000000 (mkID [0xfc; 0x64; 0xec; 0x04] 1150001) = Some ErrRemoteStale.
Proof. rewrite (fork_filter_correct sortZ mainnet mainnetGenesis 0 13000000 1630000000); [vm_compute; reflexivity|reflexivity|reflexivity|exact mainnet_sums]. Defined.
