(* ===== verification/Handshake.v ===== *)
(** * The handshake

    [Handshake] of [eth/protocols/eth/handshake.go] as [runEthPeer] of
    [eth/handler.go] calls it, with the fork identifier and the filter of the
    node's chain. *)

From S2P Require Import Prelude Bytes RlpRaw RlpEncode RlpDecode DAType FilePool Fetcher Intake RlpDA P2P PeerSet Gossip Handlers ForkID.

Local Open Scope Z_scope.

(** What the node knows of its chain. *)
Record chainView := mkChainView {
  chainConfig : ChainConfig; genesisHash : Hash; genesisTime : Z;
  headNumber : Z; headTime : Z; headHash : Hash; totalDifficulty : Z
}.

(** A result that comes in, or the end of the time limit. *)
Inductive hsArrival := SendDone | ReadDone | TimeUp.

Inductive hsErr := hsFailed (e : ethErr) | DiscReadTimeout.

(** The two rounds of the [select]; [None] while it still waits. *)
Fixpoint hsLoop (n : nat) (sendErr readErr : option ethErr) (arrivals : list hsArrival) : option (option hsErr) :=
  match n with
  | O => Some None
  | S n =>
      match arrivals with
      | [] => None
      | SendDone :: arrivals => match sendErr with Some e => Some (Some (hsFailed e)) | None => hsLoop n sendErr readErr arrivals end
      | ReadDone :: arrivals => match readErr with Some e => Some (Some (hsFailed e)) | None => hsLoop n sendErr readErr arrivals end
      | TimeUp :: _ => Some (Some DiscReadTimeout)
      end
  end.

(** What goes out, and the total difficulty and the head of the other node. *)
Definition Handshake (p : EthPeer) (network td : Z) (head genesis : Hash) (forkID : ID) (forkFilter : ID -> option forkErr) (netOk : bool)
    (msg : option (Z * list Z)) (arrivals : list hsArrival) : outcome (option wireMsg * option (hsErr + Z * Hash)) :=
  let status := statusVal (u32 (version p)) network td head genesis (idHash forkID) (idNext forkID) in
  let '(sent, sendErr) := p2pSend (ethRW p) StatusMsg (TPtr statusType) (VPtr (Some status)) netOk in
  read ← readStatus p network genesis (fun hash next => bool_decide (forkFilter (mkID hash next) = None)) msg;
  let readErr := match read with inl e => Some e | inr _ => None end in
  Done (sent, match hsLoop 2 sendErr readErr arrivals with
              | None => None
              | Some (Some e) => Some (inl e)
              | Some None => match read with inr r => Some (inr r) | inl _ => None end
              end).

(** The handshake in [runEthPeer]; the filter is that of [forkid.NewFilter]. *)
Definition runHandshake (sort : list Z -> list Z) (network : Z) (chain : chainView) (p : EthPeer) (netOk : bool) (msg : option (Z * list Z)) (arrivals : list hsArrival) :=
  let forkID := NewID sort (chainConfig chain) (genesisHash chain) (genesisTime chain) (headNumber chain) (headTime chain) in
  Handshake p network (totalDifficulty chain) (headHash chain) (genesisHash chain) forkID
    (newFilter sort (chainConfig chain) (genesisHash chain) (genesisTime chain) (headNumber chain) (headTime chain)) netOk msg arrivals.

Definition chainOk (sort : list Z -> list Z) (chain : chainView) : Prop :=
  NoDup (allSums sort (chainConfig chain) (genesisHash chain) (genesisTime chain)) /\ Forall (fun fork => fork <= timestampThreshold) (byBlock sort (chainConfig chain) (genesisTime chain)) /\
  Forall in_u64 (allForks sort (chainConfig chain) (genesisTime chain)) /\ hash_ok (genesisHash chain).

Definition headOk (chain : chainView) : Prop :=
  headNumber chain < MaxUint64 /\ headTime chain < MaxUint64 /\ hash_ok (headHash chain) /\ 0 <= totalDifficulty chain < 2 ^ 1024.

Lemma NewID_ok sort config genesis time block t : Forall in_u64 (allForks sort config time) ->
  let id := NewID sort config genesis time block t in length (idHash id) = 4%nat /\ bytes_ok (idHash id) /\ in_u64 (idNext id).
Proof.
  intros HF. cbn zeta. destruct (NewID_position sort config genesis time block t) as [Hs ->]. unfold allSums in Hs.
  rewrite forkSums_lookup in Hs by apply position_le. injection Hs as <-. unfold checksumToBytes. split; [apply length_be_of_Z|]. split; [apply be_of_Z_ok|].
  destruct (allForks _ _ _ !! _) as [fork|] eqn:Hf; [|by split]. rewrite Forall_forall in HF. apply (HF fork). by eapply list_elem_of_lookup_2.
Qed.

(** The message of a node. *)
Definition statusOf (sort : list Z -> list Z) (network : Z) (chain : chainView) (p : EthPeer) : rval :=
  let id := NewID sort (chainConfig chain) (genesisHash chain) (genesisTime chain) (headNumber chain) (headTime chain) in
  statusVal (version p) network (totalDifficulty chain) (headHash chain) (genesisHash chain) (idHash id) (idNext id).

Lemma handshake_sends sort network chain p netOk w : chainOk sort chain -> headOk chain -> 0 <= version p < 2 ^ 32 -> in_u64 network -> WriteMsg (ethRW p) StatusMsg = Some w ->
  p2pSend (ethRW p) StatusMsg (TPtr statusType) (VPtr (Some (statusOf sort network chain p))) netOk =
  (Some (w, enc (statusOf sort network chain p) statusType), if netOk then None else Some errNetwork).
Proof.
  intros (_ & _ & HF & Hg) (_ & _ & Hh & Htd) Hv Hn Hw. unfold statusOf.
  destruct (NewID_ok sort (chainConfig chain) (genesisHash chain) (genesisTime chain) (headNumber chain) (headTime chain) HF) as (H1 & H2 & H3).
  set (id := NewID sort _ _ _ _ _) in *. destruct (statusVal_ok (version p) network _ _ _ (idHash id) (idNext id) Hv Hn Htd Hh Hg H1 H2 H3) as [Hst Hlen].
  destruct (storable_typed _ _ Hst) as [Ht Hneg]. unfold p2pSend. rewrite EncodeToBytes_enc; [|done|exact Ht|cbn [enc]; lia].
  cbn [negative enc]. rewrite Hneg. cbn [ok]. by rewrite Hw.
Qed.

(** When both results come in without an error, in any order, the handshake
    succeeds. *)
Lemma hsLoop_fine arrivals : arrivals ≡ₚ [SendDone; ReadDone] -> hsLoop 2 None None arrivals = Some None.
Proof.
  intros HP. pose proof (Permutation_length HP) as Hl. destruct arrivals as [|x [|y [|]]]; try done. clear Hl.
  assert (x <> TimeUp /\ y <> TimeUp) as [Hx Hy].
  { split; intros ->; apply (not_elem_of_nil TimeUp); [assert (TimeUp ∈ [SendDone; ReadDone]) as H by (rewrite <-HP; by left)|assert (TimeUp ∈ [SendDone; ReadDone]) as H by (rewrite <-HP; by right; left)];
      repeat (apply elem_of_cons in H as [H|H]; [done|]); done. }
  by destruct x, y.
Qed.

Lemma handshake_reads sort network chain p msg arrivals chain' p' w : chainOk sort chain -> headOk chain -> headOk chain' -> 0 <= version p < 2 ^ 32 -> in_u64 network ->
  chainConfig chain' = chainConfig chain -> genesisHash chain' = genesisHash chain -> genesisTime chain' = genesisTime chain -> version p' = version p ->
  WriteMsg (ethRW p) StatusMsg = Some w -> msg = Some (StatusMsg, enc (statusOf sort network chain' p') statusType) -> arrivals ≡ₚ [SendDone; ReadDone] ->
  runHandshake sort network chain p true msg arrivals = Done (Some (w, enc (statusOf sort network chain p) statusType), Some (inr (totalDifficulty chain', headHash chain'))).
Proof.
  intros Hc Hh Hh' Hv Hn E1 E2 E3 Ev Hw -> HA. pose proof (handshake_sends sort network chain p true w Hc Hh Hv Hn Hw) as HS. pose proof Hc as (HN & HB & HF & Hg). destruct Hh as (Hb & Ht & _), Hh' as (_ & _ & Hhh & Htd).
  unfold runHandshake, Handshake. cbn zeta. replace (u32 (version p)) with (version p) by (unfold u32; by rewrite wrap_small by lia).
  fold (statusOf sort network chain p). rewrite HS. clear HS.
  destruct (NewID_ok sort (chainConfig chain) (genesisHash chain) (genesisTime chain) (headNumber chain') (headTime chain') HF) as (H1 & H2 & H3).
  set (id := NewID sort _ _ _ (headNumber chain') _) in *.
  assert (statusOf sort network chain' p' = statusVal (version p') network (totalDifficulty chain') (headHash chain') (genesisHash chain) (idHash id) (idNext id)) as -> by (unfold statusOf; cbn zeta; by rewrite E1, E2, E3).
  rewrite readStatus_correct; [|by rewrite Ev|done|done|done|done|done|done|done].
  rewrite !decide_False by (intros Hx; by apply Hx). rewrite bool_decide_eq_true_2; [|destruct id as [ih inx] eqn:Hid; cbn [idHash idNext]; rewrite <-Hid; by apply own_chain_accepted]. cbn [negb mbind outcome_bind]. by rewrite (hsLoop_fine arrivals HA).
Qed.

(** C35: two nodes with the same network, genesis block, fork schedule and protocol
    version shake hands wherever they are on the chain: each takes the status
    message of the other and learns its head and total difficulty, in whatever
    order the results come in before the time is up. *)
Theorem handshake_connects sort network chain chain' p p' w w' arrivals arrivals' :
  chainOk sort chain -> headOk chain -> headOk chain' -> chainConfig chain' = chainConfig chain -> genesisHash chain' = genesisHash chain -> genesisTime chain' = genesisTime chain ->
  0 <= version p < 2 ^ 32 -> version p' = version p -> in_u64 network -> WriteMsg (ethRW p) StatusMsg = Some w -> WriteMsg (ethRW p') StatusMsg = Some w' ->
  arrivals ≡ₚ [SendDone; ReadDone] -> arrivals' ≡ₚ [SendDone; ReadDone] ->
  exists payload payload',
    runHandshake sort network chain p true (Some (StatusMsg, payload')) arrivals = Done (Some (w, payload), Some (inr (totalDifficulty chain', headHash chain'))) /\
    runHandshake sort network chain' p' true (Some (StatusMsg, payload)) arrivals' = Done (Some (w', payload'), Some (inr (totalDifficulty chain, headHash chain))).
Proof.
  intros Hc Hh Hh' E1 E2 E3 Hv Ev Hn Hw Hw' HA HA'. exists (enc (statusOf sort network chain p) statusType), (enc (statusOf sort network chain' p') statusType). split.
  - by eapply handshake_reads.
  - assert (chainOk sort chain') as Hc' by (unfold chainOk; by rewrite E1, E2, E3). eapply handshake_reads; [done|done|done|by rewrite Ev|done|done|done|done|done|done|done|done].
Qed.

(** ** Example *)

Module SampleHandshake.
Import SampleForks.

Definition chainAt (number time td : Z) : chainView := mkChainView mainnet mainnetGenesis 0 number time mainnetGenesis td.

Lemma chainAt_ok number time td : chainOk sortZ (chainAt number time td).
Proof.
  split; [exact mainnet_sums|]. split; [apply (bool_decide_unpack _); vm_compute; exact I|]. split; [repeat constructor; vm_compute; done|].
  split; [reflexivity|]. apply bytes_ok_check. vm_compute. reflexivity.
Qed.
End SampleHandshake.

Import SampleForks SampleHandshake GossipSample.

(** A new node and one far ahead. *)
Lemma handshake_connects_witness : exists payload payload',
  runHandshake sortZ 1 (chainAt 0 0 17) (samplePeer ∅) true (Some (StatusMsg, payload')) [ReadDone; SendDone] = Done (Some (16, payload), Some (inr (99, mainnetGenesis))) /\
  runHandshake sortZ 1 (chainAt 18000000 1693000000 99) (samplePeer ∅) true (Some (StatusMsg, payload)) [SendDone; ReadDone] = Done (Some (16, payload'), Some (inr (17, mainnetGenesis))).
Proof.
  apply (handshake_connects sortZ 1 (chainAt 0 0 17) (chainAt 18000000 1693000000 99) (samplePeer ∅) (samplePeer ∅) 16 16 [ReadDone; SendDone] [SendDone; ReadDone]);
    [apply chainAt_ok| | |reflexivity|reflexivity|reflexivity|split; [discriminate|reflexivity]|reflexivity|split; [discriminate|reflexivity]|reflexivity|reflexivity|apply Permutation_swap|reflexivity].
  - split; [reflexivity|]. split; [reflexivity|]. split; [split; [reflexivity|apply bytes_ok_check; vm_compute; reflexivity]|]. split; [discriminate|vm_compute; reflexivity].
  - split; [reflexivity|]. split; [reflexivity|]. split; [split; [reflexivity|apply bytes_ok_check; vm_compute; reflexivity]|]. split; [discriminate|vm_compute; reflexivity].
Defined.
