(* ===== verification/OrderedMap.v ===== *)
(** * The ordered map of commitments

    [ethdb/db/sortmap.go]: a map from transaction hashes to commitment details
    that keeps its keys in insertion order.  [Keys] hands out the slice itself
    and [Del] moves its elements in place, so the slice is modelled as its
    backing array [arr] and its length [klen]; the stored pointers are values
    of any type [A]. *)

From S2P Require Import Prelude.

Local Open Scope Z_scope.

Section OrderedMap.
Context {A : Type}.

Record OrderedMap := mkOM { arr : list (list Z); klen : nat; values : gmap (list Z) A }.

Definition NewOrderedMap : OrderedMap := mkOM [] 0 ∅.

(** [append] writes behind the last element of the backing array. *)
Definition OMSet (om : OrderedMap) (key : list Z) (cbn : A) : OrderedMap :=
  match values om !! key with
  | Some _ => mkOM (arr om) (klen om) (<[key := cbn]> (values om))
  | None => mkOM (take (klen om) (arr om) ++ key :: drop (S (klen om)) (arr om)) (S (klen om)) (<[key := cbn]> (values om))
  end.

Definition OMGet (om : OrderedMap) (key : list Z) : option A := values om !! key.

Definition OMKeys (om : OrderedMap) : list (list Z) := take (klen om) (arr om).

(** [Values]: [None] stands for the nil of a key without a value. *)
Definition OMValues (om : OrderedMap) : list (option A) := (fun key => values om !! key) <$> OMKeys om.

(** [append(om.keys[:i], om.keys[i+1:]...)] *)
Definition cutKey (om : OrderedMap) (i : nat) : outcome OrderedMap :=
  if decide (S i <= klen om)%nat
  then Done (mkOM (take i (arr om) ++ take (klen om - S i) (drop (S i) (arr om)) ++ drop (klen om - 1) (arr om))
               (klen om - 1) (values om))
  else Panic.

(** The loop of [Del]: it runs over the slice as it was at the start, and reads
    the array as it is. *)
Fixpoint delLoop (key : list Z) (todo i : nat) (om : OrderedMap) : outcome OrderedMap :=
  match todo with
  | O => Done om
  | S todo =>
      match arr om !! i with
      | None => Panic
      | Some k => om ← (if decide (k = key) then cutKey om i else Done om); delLoop key todo (S i) om
      end
  end.

Definition OMDel (om : OrderedMap) (key : list Z) : outcome OrderedMap :=
  delLoop key (klen om) 0 (mkOM (arr om) (klen om) (delete key (values om))).

(** ** Correctness *)

Definition om_wf (om : OrderedMap) : Prop :=
  (klen om <= length (arr om))%nat /\ NoDup (OMKeys om) /\ forall k, k ∈ OMKeys om <-> is_Some (values om !! k).

Lemma om_wf_new : om_wf NewOrderedMap.
Proof. split_and!; [done|apply NoDup_nil_2|]. intros k. simpl. rewrite lookup_empty. split; [set_solver|by intros [? ?]]. Qed.

Lemma OMSet_wf om key v :
  om_wf om ->
  om_wf (OMSet om key v)
  /\ OMKeys (OMSet om key v) = (if decide (is_Some (values om !! key)) then OMKeys om else OMKeys om ++ [key])
  /\ values (OMSet om key v) = <[key := v]> (values om).
Proof.
  intros (Hl & Hnd & Hk). unfold OMSet. destruct (values om !! key) as [v0|] eqn:Hv.
  - rewrite decide_True by eauto. split_and!; [|done|done]. split_and!; [done|done|].
    intros k. simpl. rewrite lookup_insert_is_Some'. rewrite <-Hk. unfold OMKeys. simpl. split; [auto|].
    intros [<-|?]; [|done]. by apply Hk; eauto.
  - rewrite decide_False by (by intros [? ?]).
    assert (HK : OMKeys (mkOM (take (klen om) (arr om) ++ key :: drop (S (klen om)) (arr om)) (S (klen om)) (<[key := v]> (values om)))
                 = OMKeys om ++ [key]).
    { unfold OMKeys. simpl. rewrite take_app, length_take_le by done.
      rewrite (take_ge (take _ _)) by (rewrite length_take; lia). by replace (S (klen om) - klen om)%nat with 1%nat by lia. }
    assert (Hn : key ∉ OMKeys om) by (rewrite Hk, Hv; by intros [? ?]).
    split_and!; [|done|done]. split_and!.
    + simpl. rewrite length_app, length_take_le by done. simpl. lia.
    + rewrite HK. apply NoDup_app. split_and!; [done|set_solver|apply NoDup_singleton].
    + intros k. rewrite HK. simpl. rewrite lookup_insert_is_Some', <-Hk. set_solver.
Qed.

(** Past the key there is nothing to delete. *)
Lemma delLoop_none key todo : forall i om,
  (i + todo <= length (arr om))%nat -> (forall j, (i <= j < i + todo)%nat -> arr om !! j <> Some key) ->
  delLoop key todo i om = Done om.
Proof.
  induction todo as [|todo IH]; intros i om Hl Hn; [done|]. cbn [delLoop].
  destruct (lookup_lt_is_Some_2 (arr om) i) as [k Hk]; [lia|]. rewrite Hk, decide_False.
  - cbn [mbind outcome_bind]. apply IH; [lia|]. intros j Hj. apply Hn. lia.
  - intros ->. by apply (Hn i); [lia|].
Qed.

Lemma delLoop_one key pre post rest om todo :
  arr om = pre ++ key :: post ++ rest -> klen om = S (length pre + length post) -> key ∉ post ->
  todo = S (length post) ->
  exists om', delLoop key todo (length pre) om = Done om'
    /\ OMKeys om' = pre ++ post /\ values om' = values om /\ (klen om' <= length (arr om'))%nat.
Proof.
  intros Harr Hlen Hn ->. cbn [delLoop].
  assert (Hi : arr om !! length pre = Some key) by (rewrite Harr, lookup_app_r, Nat.sub_diag by lia; done).
  rewrite Hi, decide_True by done. unfold cutKey. rewrite decide_True by lia. cbn [mbind outcome_bind].
  set (om1 := mkOM _ _ _).
  assert (H1 : arr om1 = pre ++ post ++ drop (length pre + length post) (pre ++ key :: post ++ rest)).
  { subst om1. simpl. rewrite Hlen, Harr. rewrite take_app_length.
    replace (S (length pre)) with (length (pre ++ [key])) by (rewrite length_app; simpl; lia).
    replace (pre ++ key :: post ++ rest) with ((pre ++ [key]) ++ post ++ rest) at 1 by (by rewrite <-(assoc_L (++))).
    rewrite drop_app_length.
    replace (S (length pre + length post) - length (pre ++ [key]))%nat with (length post) by (rewrite length_app; simpl; lia).
    rewrite take_app_length. by replace (S (length pre + length post) - 1)%nat with (length pre + length post)%nat by lia. }
  assert (Hk1 : klen om1 = (length pre + length post)%nat) by (subst om1; simpl; lia).
  exists om1. split; [|split_and!; [|done|rewrite H1, Hk1, !length_app; lia]].
  - apply delLoop_none.
    + rewrite H1, !length_app, length_drop, length_app. simpl. rewrite length_app. lia.
    + intros j Hj. rewrite H1. rewrite lookup_app_r by lia.
      destruct (decide (j - length pre < length post)%nat).
      * rewrite lookup_app_l by done. intros Hp. apply Hn. by eapply list_elem_of_lookup_2.
      * rewrite lookup_app_r by lia. rewrite lookup_drop.
        replace (length pre + length post + (j - length pre - length post))%nat with j by lia.
        rewrite lookup_app_r by lia. replace (j - length pre)%nat with (S (length post - 1)) by lia. simpl.
        rewrite lookup_app_l by lia. intros Hp. apply Hn. by eapply list_elem_of_lookup_2.
  - unfold OMKeys. rewrite H1, Hk1, (assoc_L (++)). by rewrite take_app_length' by (by rewrite length_app).
Qed.

Lemma OMDel_ok om key :
  om_wf om ->
  exists om', OMDel om key = Done om' /\ om_wf om'
    /\ OMKeys om' = filter (fun k => k <> key) (OMKeys om) /\ values om' = delete key (values om).
Proof.
  intros (Hl & Hnd & Hk). unfold OMDel.
  assert (Hwf : forall om', OMKeys om' = filter (fun k => k <> key) (OMKeys om) -> values om' = delete key (values om) ->
    (klen om' <= length (arr om'))%nat -> om_wf om').
  { intros om' HK HV HL. split_and!; [done|rewrite HK; by apply NoDup_filter|]. intros k. rewrite HK, HV, list_elem_of_filter, Hk.
    rewrite lookup_delete_is_Some. naive_solver. }
  destruct (decide (key ∈ OMKeys om)) as [Hin|Hnin].
  - pose proof (list_elem_of_split _ _ Hin) as (pre & post & Hsplit).
    assert (Hnpost : (key ∉ post) /\ (key ∉ pre)).
    { rewrite Hsplit in Hnd. apply NoDup_app in Hnd as (_ & Hd & Hnd). apply NoDup_cons in Hnd as [? _]. set_solver. }
    assert (Hlen : klen om = S (length pre + length post)).
    { apply (f_equal length) in Hsplit. unfold OMKeys in Hsplit. rewrite length_take_le, length_app in Hsplit by done. simpl in Hsplit. lia. }
    assert (Harr : arr om = pre ++ key :: post ++ drop (klen om) (arr om)).
    { rewrite <-(take_drop (klen om) (arr om)) at 1. unfold OMKeys in Hsplit. rewrite Hsplit. by rewrite <-(assoc_L (++)). }
    rewrite Hlen. set (om1 := mkOM _ _ _).
    assert (Hskip : forall todo i, (i <= length pre)%nat -> todo = (S (length post) + (length pre - i))%nat ->
      delLoop key todo i om1 = delLoop key (S (length post)) (length pre) om1).
    { intros todo i. remember (length pre - i)%nat as n eqn:Hn. revert i todo Hn.
      induction n as [|n IHn]; intros i todo Hn Hi ->; [replace i with (length pre) by lia; by rewrite Nat.add_0_r|].
      replace (S (length post) + S n)%nat with (S (S (length post) + n)) by lia. cbn [delLoop].
      destruct (lookup_lt_is_Some_2 pre i) as [k Hki]; [lia|]. 
      assert (Hi' : arr om1 !! i = Some k) by (simpl; rewrite Harr, lookup_app_l by lia; done).
      rewrite Hi', decide_False by (intros ->; apply Hnpost; by eapply list_elem_of_lookup_2). cbn [mbind outcome_bind].
      apply IHn; lia. }
    rewrite (Hskip _ 0%nat) by lia.
    destruct (delLoop_one key pre post (drop (klen om) (arr om)) om1 (S (length post))) as (om' & -> & HK & HV & HL);
      [done|done|apply Hnpost|done|].
    exists om'. split; [done|].
    assert (Hf : OMKeys om' = filter (fun k => k <> key) (OMKeys om)).
    { rewrite HK, Hsplit, filter_app, filter_cons_False by auto.
      destruct Hnpost. rewrite (filter_all _ pre), (filter_all _ post); [done|..]; intros k Hkin ->; done. }
    split_and!; [by apply Hwf|done|done].
  - rewrite delLoop_none.
    + eexists. split; [done|].
      assert (Hf : OMKeys om = filter (fun k => k <> key) (OMKeys om)) by (symmetry; apply filter_all; intros k Hkin ->; done).
      split_and!; [apply Hwf; done|done|done].
    + simpl. lia.
    + simpl. intros j Hj Hjk. apply Hnin. unfold OMKeys. apply list_elem_of_lookup. exists j. rewrite lookup_take_lt by lia. done.
Qed.

(** The ordered map behaves as an insertion-ordered map.  Starting from the
    empty map, [Set] appends a new key and keeps the place of an old one, [Del]
    takes exactly its key out without a panic although it edits the slice it
    ranges over, [Get] sees the last value set, and [Values] lists the values
    in key order; the keys stay distinct and are exactly those with a value. *)
Theorem OrderedMap_correct om key v :
  om_wf om ->
  om_wf NewOrderedMap
  /\ (om_wf (OMSet om key v)
      /\ OMKeys (OMSet om key v) = (if decide (key ∈ OMKeys om) then OMKeys om else OMKeys om ++ [key])
      /\ forall k, OMGet (OMSet om key v) k = if decide (key = k) then Some v else OMGet om k)
  /\ (exists om', OMDel om key = Done om' /\ om_wf om' /\ OMKeys om' = filter (fun k => k <> key) (OMKeys om)
      /\ forall k, OMGet om' k = if decide (key = k) then None else OMGet om k)
  /\ Forall is_Some (OMValues om).
Proof.
  intros Hwf. split; [apply om_wf_new|]. split; [|split].
  - destruct (OMSet_wf om key v Hwf) as (H1 & H2 & H3). split_and!; [done| |].
    + rewrite H2. destruct Hwf as (_ & _ & Hk). repeat case_decide; try done; by rewrite Hk in *.
    + intros k. unfold OMGet. rewrite H3, lookup_insert. done.
  - destruct (OMDel_ok om key Hwf) as (om' & H1 & H2 & H3 & H4). exists om'. split_and!; [done|done|done|].
    intros k. unfold OMGet. rewrite H4, lookup_delete. done.
  - unfold OMValues. apply Forall_fmap, Forall_forall. intros k Hk. by apply Hwf.
Qed.

End OrderedMap.

Lemma OrderedMap_correct_witness :
  exists om' : @OrderedMap nat, OMDel (OMSet (OMSet NewOrderedMap [1] 7%nat) [2] 8%nat) [1] = Done om' /\ OMKeys om' = [[2]].
Proof.
  assert (Hwf : om_wf (OMSet (OMSet NewOrderedMap [1] 7%nat) [2] 8%nat)) by (apply OMSet_wf, OMSet_wf, om_wf_new).
  destruct (OrderedMap_correct _ [1] 0%nat Hwf) as (_ & _ & (om' & Hd & _ & HK & _) & _).
  exists om'. split; [exact Hd|exact HK].
Defined.
