(* ===== verification/TimeText.v ===== *)
(** * Times as RFC 3339 text

    What [ethdb/db/dadata.go] uses of Go's [time] package: [t.Format(time.RFC3339)]
    and [time.Parse(time.RFC3339, s)].  A [time.Time] is the number of
    nanoseconds since year 1 (UTC), and the zone it is printed in is an offset
    in minutes, given apart.  [parseRFC3339] is the parser the package tries
    first for this layout; it takes everything [Format] writes for the years 0
    to 9999, and no empty string. *)

From S2P Require Import Prelude Bytes.

Local Open Scope Z_scope.

(** ** Calendar *)

Definition isLeap (y : Z) : bool := (y mod 4 =? 0) && (negb (y mod 100 =? 0) || (y mod 400 =? 0)).

(** Year and day of the year (from 0) of a day counted from 0001-01-01, by
    cycles of 400, 100, 4 and 1 years; the last cycle may be a day longer. *)
Definition yearDay (days : Z) : Z * Z :=
  let n400 := days / 146097 in
  let d := days mod 146097 in
  let n100 := d / 36524 - d / 36524 / 4 in
  let d := d - 36524 * n100 in
  let n4 := d / 1461 in
  let d := d - 1461 * n4 in
  let n1 := d / 365 - d / 365 / 4 in
  (1 + 400 * n400 + 100 * n100 + 4 * n4 + n1, d - 365 * n1).

(** Days before month [m] (from 0) in a year that is not a leap year. *)
Definition daysBefore (m : Z) : Z :=
  nth (Z.to_nat m) [0; 31; 59; 90; 120; 151; 181; 212; 243; 273; 304; 334; 365] 0.

(** Month and day of a day of the year. *)
Definition monthDay (leap : bool) (yday : Z) : Z * Z :=
  if leap && (yday =? 59) then (2, 29)
  else
    let day := if leap && (59 <? yday) then yday - 1 else yday in
    let month := day / 31 in
    let stop := daysBefore (month + 1) in
    if stop <=? day then (month + 2, day - stop + 1) else (month + 1, day - daysBefore month + 1).

Definition civil (days : Z) : Z * Z * Z :=
  let '(y, yday) := yearDay days in
  let '(m, d) := monthDay (isLeap y) yday in
  (y, m, d).

(** Day of the year of a month and day. *)
Definition ydayOf (leap : bool) (m d : Z) : Z :=
  daysBefore (m - 1) + (if leap && (3 <=? m) then 1 else 0) + d - 1.

Definition daysSinceEpoch (y : Z) : Z := let n := y - 1 in 365 * n + n / 4 - n / 100 + n / 400.

Definition daysOf (y m d : Z) : Z := daysSinceEpoch y + ydayOf (isLeap y) m d.

Definition daysIn (m y : Z) : Z :=
  if m =? 2 then (if isLeap y then 29 else 28) else daysBefore m - daysBefore (m - 1).

(** ** Text *)

Definition second : Z := 10 ^ 9.

(** The [n] lowest decimal digits of [z]. *)
Fixpoint digits (n : nat) (z : Z) : list Z :=
  match n with O => [] | S n => digits n (z / 10) ++ [48 + z mod 10] end.

(** [t.Format(time.RFC3339)] in a zone [zone] minutes east of UTC. *)
Definition formatRFC3339 (zone : Z) (t : Z) : list Z :=
  let secs := t / second + zone * 60 in
  let '(y, m, d) := civil (secs / 86400) in
  let s := secs mod 86400 in
  digits 4 y ++ lit "-" ++ digits 2 m ++ lit "-" ++ digits 2 d ++ lit "T"
  ++ digits 2 (s / 3600) ++ lit ":" ++ digits 2 (s / 60 mod 60) ++ lit ":" ++ digits 2 (s mod 60)
  ++ (if decide (zone = 0) then lit "Z"
      else (if decide (zone < 0) then lit "-" else lit "+") ++ digits 2 (Z.abs zone / 60) ++ lit ":" ++ digits 2 (Z.abs zone mod 60)).

(** A number of decimal digits between [lo] and [hi]. *)
Definition parseUint (s : list Z) (lo hi : Z) : option Z :=
  match foldl (fun acc c => match acc with
                            | None => None
                            | Some x => if decide (48 <= c <= 57) then Some (x * 10 + (c - 48)) else None
                            end) (Some 0) s with
  | Some x => if decide (lo <= x <= hi) then Some x else None
  | None => None
  end.

(** The fraction of a second, when there is one: the nanoseconds and the rest.
    Digits past the ninth are dropped. *)
Fixpoint takeDigits (s : list Z) : list Z * list Z :=
  match s with
  | c :: s' => if decide (48 <= c <= 57) then let '(d, r) := takeDigits s' in (c :: d, r) else ([], s)
  | [] => ([], [])
  end.

Definition fraction (s : list Z) : Z * list Z :=
  match s with
  | 46 :: s' =>
      let '(d, r) := takeDigits s' in
      if decide (d = []) then (0, s)
      else (default 0 (parseUint (take 9 (d ++ replicate 9 48)) 0 (10 ^ 9 - 1)), r)
  | _ => (0, s)
  end.

Definition parseZone (s : list Z) : option Z :=
  if decide (s = lit "Z") then Some 0
  else
    match s with
    | [sg; h1; h2; c; m1; m2] =>
        match parseUint [h1; h2] 0 23, parseUint [m1; m2] 0 59 with
        | Some hr, Some mm =>
            if decide ((sg = 45 \/ sg = 43) /\ c = 58)
            then Some (if decide (sg = 45) then - (hr * 60 + mm) else hr * 60 + mm)
            else None
        | _, _ => None
        end
    | _ => None
    end.

(** [parseRFC3339] *)
Definition parseRFC3339 (s : list Z) : option Z :=
  match s with
  | y1 :: y2 :: y3 :: y4 :: c1 :: m1 :: m2 :: c2 :: d1 :: d2 :: c3 :: h1 :: h2 :: c4 :: i1 :: i2 :: c5 :: s1 :: s2 :: rest =>
      match parseUint [y1; y2; y3; y4] 0 9999, parseUint [m1; m2] 1 12, parseUint [h1; h2] 0 23,
            parseUint [i1; i2] 0 59, parseUint [s1; s2] 0 59 with
      | Some y, Some mo, Some h, Some mi, Some sec =>
          match parseUint [d1; d2] 1 (daysIn mo y) with
          | Some d =>
              if decide (c1 = 45 /\ c2 = 45 /\ c3 = 84 /\ c4 = 58 /\ c5 = 58)
              then
                let '(ns, rest) := fraction rest in
                match parseZone rest with
                | Some zone =>
                    Some ((daysOf y mo d * 86400 + h * 3600 + mi * 60 + sec - zone * 60) * second + ns)
                | None => None
                end
              else None
          | None => None
          end
      | _, _, _, _, _ => None
      end
  | _ => None
  end.

(** ** The calendar *)

Lemma yearDay_spec days :
  let '(y, yday) := yearDay days in
  daysSinceEpoch y + yday = days /\ 0 <= yday <= (if isLeap y then 365 else 364).
Proof.
  unfold yearDay. cbn zeta. set (a := days / 146097). set (d1 := days mod 146097).
  assert (Hd1 : 0 <= d1 < 146097) by (apply Z.mod_pos_bound; lia).
  assert (Hdays : days = 146097 * a + d1) by (apply Z.div_mod; lia).
  set (b := d1 / 36524 - d1 / 36524 / 4). assert (Hb : 0 <= b <= 3 /\ 0 <= d1 - 36524 * b <= 36524 /\ (b < 3 -> d1 - 36524 * b < 36524)).
  { subst b. Z.to_euclidean_division_equations. lia. }
  clearbody b. set (d2 := d1 - 36524 * b) in *.
  set (c := d2 / 1461). assert (Hc : 0 <= c <= 24 /\ 0 <= d2 - 1461 * c <= 1460).
  { subst c. Z.to_euclidean_division_equations. lia. }
  clearbody c. set (d3 := d2 - 1461 * c) in *.
  set (e := d3 / 365 - d3 / 365 / 4). assert (He : 0 <= e <= 3 /\ 0 <= d3 - 365 * e <= 365 /\ (e < 3 -> d3 - 365 * e < 365)).
  { subst e. Z.to_euclidean_division_equations. lia. }
  clearbody e. split.
  - unfold daysSinceEpoch. replace (1 + 400 * a + 100 * b + 4 * c + e - 1) with (400 * a + 100 * b + 4 * c + e) by lia.
    assert ((400 * a + 100 * b + 4 * c + e) / 4 = 100 * a + 25 * b + c) by (Z.to_euclidean_division_equations; lia).
    assert ((400 * a + 100 * b + 4 * c + e) / 100 = 4 * a + b) by (Z.to_euclidean_division_equations; lia).
    assert ((400 * a + 100 * b + 4 * c + e) / 400 = a) by (Z.to_euclidean_division_equations; lia).
    subst d3 d2. lia.
  - split; [lia|]. destruct (isLeap _) eqn:Hl; [lia|].
    destruct (decide (e = 3)) as [->|]; [|lia]. unfold isLeap in Hl.
    assert ((1 + 400 * a + 100 * b + 4 * c + 3) mod 4 = 0) as H4 by (Z.to_euclidean_division_equations; lia).
    rewrite H4 in Hl. cbn in Hl. apply orb_false_iff in Hl as [H100 H400].
    apply negb_false_iff, Z.eqb_eq in H100. apply Z.eqb_neq in H400.
    assert (c = 24) as -> by (Z.to_euclidean_division_equations; lia).
    assert (b <> 3) by (intros ->; apply H400; Z.to_euclidean_division_equations; lia).
    subst d3 d2. lia.
Qed.

(** Every day of a year, leap or not. *)
Definition yday_ok (leap : bool) (yday : Z) : bool :=
  let '(m, d) := monthDay leap yday in
  (1 <=? m) && (m <=? 12) && (1 <=? d)
  && (d <=? (if m =? 2 then (if leap then 29 else 28) else daysBefore m - daysBefore (m - 1)))
  && (ydayOf leap m d =? yday).

Lemma ydays_ok : forallb (yday_ok false) (seqZ 0 365) && forallb (yday_ok true) (seqZ 0 366) = true.
Proof. vm_compute. reflexivity. Qed.

Lemma civil_spec days :
  let '(y, m, d) := civil days in
  daysOf y m d = days /\ 1 <= m <= 12 /\ 1 <= d <= daysIn m y.
Proof.
  unfold civil. pose proof (yearDay_spec days) as Hy. destruct (yearDay days) as [y yday]. destruct Hy as [Hsum Hb].
  assert (Hok : yday_ok (isLeap y) yday = true).
  { pose proof ydays_ok as [Hf Ht]%andb_true_iff. rewrite forallb_forall in Hf, Ht.
    destruct (isLeap y); [apply Ht|apply Hf]; apply list_elem_of_In, elem_of_seqZ; lia. }
  unfold yday_ok in Hok. destruct (monthDay (isLeap y) yday) as [m d].
  repeat (apply andb_true_iff in Hok as [Hok ?]).
  repeat match goal with H : (_ <=? _) = true |- _ => apply Z.leb_le in H | H : (_ =? _) = true |- _ => apply Z.eqb_eq in H end.
  unfold daysOf, daysIn. split; [lia|]. done.
Qed.

(** ** Round trip *)

Lemma parseDigits n : forall z acc,
  foldl (fun acc c => match acc with
                      | None => None
                      | Some x => if decide (48 <= c <= 57) then Some (x * 10 + (c - 48)) else None
                      end) (Some acc) (digits n z) = Some (acc * 10 ^ Z.of_nat n + z mod 10 ^ Z.of_nat n).
Proof.
  induction n as [|n IH]; intros z acc; cbn [digits foldl].
  { rewrite Z.mod_1_r. f_equal. lia. }
  rewrite foldl_app, IH. cbn [foldl]. pose proof (Z.mod_pos_bound z 10 ltac:(lia)).
  rewrite decide_True by lia. f_equal. rewrite Nat2Z.inj_succ, Z.pow_succ_r by lia.
  pose proof (Z.pow_pos_nonneg 10 (Z.of_nat n) ltac:(lia) ltac:(lia)).
  rewrite (Z.rem_mul_r z 10 (10 ^ Z.of_nat n)) by lia. lia.
Qed.

Lemma parseUint_digits n z lo hi :
  0 <= z < 10 ^ Z.of_nat n -> lo <= z <= hi -> parseUint (digits n z) lo hi = Some z.
Proof.
  intros Hz Hb. unfold parseUint. rewrite parseDigits, Z.mod_small by done.
  rewrite Z.mul_0_l, Z.add_0_l. by rewrite decide_True.
Qed.

Lemma digits_2 z : digits 2 z = [48 + z / 10 mod 10; 48 + z mod 10].
Proof. reflexivity. Qed.

Lemma digits_4 z : digits 4 z = [48 + z / 10 / 10 / 10 mod 10; 48 + z / 10 / 10 mod 10; 48 + z / 10 mod 10; 48 + z mod 10].
Proof. reflexivity. Qed.

(** How [Format] writes the zone. *)
Definition zoneText (zone : Z) : list Z :=
  if decide (zone = 0) then lit "Z"
  else (if decide (zone < 0) then lit "-" else lit "+") ++ digits 2 (Z.abs zone / 60) ++ lit ":" ++ digits 2 (Z.abs zone mod 60).

Lemma parseZone_text zone : -1440 < zone < 1440 -> parseZone (zoneText zone) = Some zone.
Proof.
  intros Hz. unfold zoneText. case_decide as Hz0; [by subst|].
  assert (Hh : parseUint (digits 2 (Z.abs zone / 60)) 0 23 = Some (Z.abs zone / 60)).
  { apply parseUint_digits; change (10 ^ Z.of_nat 2) with 100; Z.to_euclidean_division_equations; lia. }
  assert (Hm : parseUint (digits 2 (Z.abs zone mod 60)) 0 59 = Some (Z.abs zone mod 60)).
  { apply parseUint_digits; change (10 ^ Z.of_nat 2) with 100; Z.to_euclidean_division_equations; lia. }
  rewrite !digits_2 in *. pose proof (Z.div_mod (Z.abs zone) 60 ltac:(lia)).
  change (lit "-") with [45]. change (lit "+") with [43]. change (lit ":") with [58].
  case_decide; unfold parseZone; rewrite decide_False by done; cbn [app]; rewrite Hh, Hm, decide_True by lia;
    [rewrite decide_True by done|rewrite decide_False by done]; f_equal; lia.
Qed.

Lemma zoneText_fraction zone : fraction (zoneText zone) = (0, zoneText zone).
Proof. unfold zoneText. repeat case_decide; done. Qed.

(** A time survives being written and read back, to the second, in any zone
    of less than a day and for the years the layout has digits for. *)
Lemma parse_format zone t :
  -1440 < zone < 1440 -> (let '(y, _, _) := civil ((t / second + zone * 60) / 86400) in 0 <= y <= 9999) ->
  parseRFC3339 (formatRFC3339 zone t) = Some (t / second * second).
Proof.
  intros Hz Hy. unfold formatRFC3339. cbn zeta. fold (zoneText zone).
  set (secs := t / second + zone * 60) in *. pose proof (civil_spec (secs / 86400)) as Hc.
  destruct (civil (secs / 86400)) as [[y m] d]. destruct Hc as (Hdays & Hm & Hd).
  assert (Hdi : daysIn m y <= 31).
  { unfold daysIn. destruct (m =? 2); [destruct (isLeap y); lia|].
    assert (Hall : forallb (fun m => daysBefore m - daysBefore (m - 1) <=? 31) (seqZ 1 12) = true) by (vm_compute; reflexivity).
    rewrite forallb_forall in Hall. apply Z.leb_le, Hall, list_elem_of_In, elem_of_seqZ. lia. }
  set (s := secs mod 86400). assert (Hs : 0 <= s < 86400) by (apply Z.mod_pos_bound; lia).
  pose proof (parseUint_digits 4 y 0 9999 ltac:(lia) ltac:(lia)) as Py.
  pose proof (parseUint_digits 2 m 1 12 ltac:(lia) ltac:(lia)) as Pm.
  pose proof (parseUint_digits 2 d 1 (daysIn m y) ltac:(lia) ltac:(lia)) as Pd.
  assert (Hh : 0 <= s / 3600 <= 23) by (Z.to_euclidean_division_equations; lia).
  assert (Hi : 0 <= s / 60 mod 60 <= 59) by (Z.to_euclidean_division_equations; lia).
  assert (Hsec : 0 <= s mod 60 <= 59) by (Z.to_euclidean_division_equations; lia).
  pose proof (parseUint_digits 2 (s / 3600) 0 23 ltac:(lia) ltac:(lia)) as Ph.
  pose proof (parseUint_digits 2 (s / 60 mod 60) 0 59 ltac:(lia) ltac:(lia)) as Pi.
  pose proof (parseUint_digits 2 (s mod 60) 0 59 ltac:(lia) ltac:(lia)) as Ps.
  rewrite digits_4 in *. rewrite !digits_2 in *.
  change (lit "-") with [45]. change (lit ":") with [58]. change (lit "T") with [84].
  unfold parseRFC3339. cbn [app]. rewrite Py, Pm, Ph, Pi, Ps, Pd.
  rewrite decide_True by done. rewrite zoneText_fraction, parseZone_text by done.
  f_equal. rewrite Hdays, Z.add_0_r. f_equal.
  assert (secs = 86400 * (secs / 86400) + s) by (apply Z.div_mod; lia).
  assert (s = s / 3600 * 3600 + s / 60 mod 60 * 60 + s mod 60) by (Z.to_euclidean_division_equations; lia).
  lia.
Qed.

Lemma parse_empty : parseRFC3339 [] = None.
Proof. reflexivity. Qed.
