(* ===== verification/Store.v ===== *)
(** * The SQL store of records

    [ethdb/db/dadata.go], with [receipt.go] and [log.go]: how a record becomes
    a row of the table [t_das] and a row a record, the queries of the pool and
    of the synchroniser, and the batch insertions with their state hash.

    gorm and SQLite are code outside this repository: the class [Gorm] is what
    is called of them, on an abstract database state, and [GormLaws] what the
    code relies on.  [zone] is the zone, in minutes, times are printed in. *)

From S2P Require Import Prelude Bytes DAType TimeText FilePool.

Local Open Scope Z_scope.

(** ** Strings *)

Definition JoinString : Z := 44.

(** [strings.Join(parts, ",")] *)
Fixpoint join (parts : list (list Z)) : list Z :=
  match parts with
  | [] => []
  | [p] => p
  | p :: parts => p ++ JoinString :: join parts
  end.

(** [strings.Split(s, ",")]: one part more than there are commas. *)
Fixpoint split (s : list Z) : list (list Z) :=
  match s with
  | [] => [[]]
  | c :: s =>
      if decide (c = JoinString) then [] :: split s
      else match split s with p :: ps => (c :: p) :: ps | [] => [[c]] end
  end.

(** ** Rows *)

(** The columns that are written or read; no code sets or reads the column
    [f_d_as_key] of the key, or that of the time of creation. *)
Record daRow := mkRow {
  rNonce : Z;
  rSender : list Z;
  rIndex : Z;
  rLength : Z;
  rTxHash : list Z;
  rCommitment : list Z;
  rCommitmentHash : list Z;
  rData : list Z;
  rProof : list Z;
  rSignData : list Z;
  rSignAddr : list Z;
  rParentStateHash : list Z;
  rStateHash : list Z;
  rBlockNum : Z;
  rReceiveAt : list Z;
  rOutOfTime : list Z;
  rNameSpaceID : Z
}.

Definition zeroRow : daRow := mkRow 0 [] 0 0 [] [] [] [] [] [] [] [] [] 0 [] [] 0.

(** The columns of the struct tags that queries name. *)
Definition daColumns : list (list Z) :=
  [lit "f_id"; lit "f_nonce"; lit "f_sender"; lit "f_index"; lit "f_length"; lit "f_tx_hash"; lit "f_commitment";
   lit "f_commitment_hash"; lit "f_data"; lit "f_proof"; lit "f_d_as_key"; lit "f_sign_data"; lit "f_sign_address";
   lit "f_parent_state_hash"; lit "f_state_hash"; lit "f_block_num"; lit "f_receive_at"; lit "f_out_time";
   lit "f_create_at"; lit "f_name_space_id"].

(** A value bound to a query: text, or the bytes a [common.Hash] is sent as. *)
Inductive sqlVal := VText (s : list Z) | VBlob (b : list Z).

(** The calls made of gorm on the table: [Count], [Limit(1).Find] on one
    column (the zero row when there is none), [Select(...).Find], [Create] of
    rows, [Where(...).Delete], [Order("f_nonce DESC").Limit(1).Find].  [None]
    and [true] stand for an error. *)
Class Gorm := {
  sqlState : Type;
  gCount : sqlState -> option Z;
  gFind : sqlState -> list Z -> sqlVal -> option daRow;
  gSelect : sqlState -> list (list Z) -> option (list daRow);
  gCreate : sqlState -> list daRow -> sqlState * bool;
  gDelete : sqlState -> list Z -> sqlVal -> sqlState * bool;
  gMaxNonce : sqlState -> option daRow
}.

(** A query on a column the table does not have is an error; a column that is
    not selected keeps its zero value; text and bytes never compare equal; the
    rows created are added.  [daRows] is the contents of the table. *)
Class GormLaws (g : Gorm) := {
  daRows : sqlState -> list daRow;
  gFind_unknown s col v : col ∉ daColumns -> gFind s col v = None;
  gFind_tx s h r : gFind s (lit "f_tx_hash") (VText h) = Some r ->
    (r ∈ daRows s /\ rTxHash r = h) \/ (r = zeroRow /\ forall r', r' ∈ daRows s -> rTxHash r' <> h);
  gCount_rows s n : gCount s = Some n -> n = Z.of_nat (length (daRows s));
  gSelect_zero s cols rs r : gSelect s cols = Some rs -> r ∈ rs -> lit "f_receive_at" ∉ cols -> rReceiveAt r = [];
  gDelete_blob s col b : daRows (gDelete s col (VBlob b)).1 = daRows s;
  gCreate_rows s rs s' : gCreate s rs = (s', false) -> daRows s' = daRows s ++ rs
}.

Section Store.
Context `{kzg : KZG} `{crypto : Crypto} `{gorm : Gorm} (zone : Z).

(** The two joined columns. *)
Definition signText (da : DA) : list Z := join (Bytes2Hex <$> SignData da).
Definition addrText (da : DA) : list Z := join (SignerAddr da).

(** The row [SaveDACommit] writes; a nil [NameSpaceID] panics.  [Int64] of a
    big integer is its low 64 bits. *)
Definition saveRow (da : DA) : outcome daRow :=
  match NameSpaceID da with
  | None => Panic
  | Some ns => Done {|
      rNonce := i64 (Nonce da);
      rSender := AddressHex Keccak256 (Sender da);
      rIndex := i64 (Index da);
      rLength := i64 (Length da);
      rTxHash := HashHex (TxHash da);
      rCommitment := Bytes2Hex (Marshal (Commitment da));
      rCommitmentHash := HashHex (cmHash da);
      rData := Bytes2Hex (Data da);
      rProof := Bytes2Hex (Proof da);
      rSignData := signText da;
      rSignAddr := addrText da;
      rParentStateHash := [];
      rStateHash := [];
      rBlockNum := i64 (BlockNum da);
      rReceiveAt := formatRFC3339 zone (ReceiveAt da);
      rOutOfTime := formatRFC3339 zone (OutOfTime da);
      rNameSpaceID := i64 ns
    |}
  end.

Definition SaveDACommit (s : sqlState) (da : DA) (shouldSave : bool) : outcome (sqlState * bool) :=
  if shouldSave then wd ← saveRow da; Done (gCreate s [wd]) else Done (s, false).

(** ** Batches *)

(** The row of a batch: the two state hashes, and the proof and name space
    columns, which only one of the two functions fills. *)
Definition batchRow (da : DA) (parent state : Hash) (proof : list Z) (ns : Z) : daRow := {|
  rNonce := i64 (Nonce da);
  rSender := AddressHex Keccak256 (Sender da);
  rIndex := i64 (Index da);
  rLength := i64 (Length da);
  rTxHash := HashHex (TxHash da);
  rCommitment := Bytes2Hex (Marshal (Commitment da));
  rCommitmentHash := HashHex (cmHash da);
  rData := Bytes2Hex (Data da);
  rProof := proof;
  rSignData := signText da;
  rSignAddr := addrText da;
  rParentStateHash := HashHex parent;
  rStateHash := HashHex state;
  rBlockNum := i64 (BlockNum da);
  rReceiveAt := formatRFC3339 zone (ReceiveAt da);
  rOutOfTime := [];
  rNameSpaceID := ns
|}.

(** What a round of the loop appends to [dataCollect]. *)
Definition collect (da : DA) (parent : Hash) (dataCollect : list Z) : list Z :=
  dataCollect ++ XBytes (Commitment da) ++ YBytes (Commitment da) ++ Sender da ++ parent.

(** [SaveBatchCommitment]: a nil pointer panics; one insertion of all rows. *)
Fixpoint batchRows (das : list (option DA)) (dataCollect : list Z) (parent : Hash) : outcome (list daRow) :=
  match das with
  | [] => Done []
  | None :: _ => Panic
  | Some da :: das =>
      let dataCollect := collect da parent dataCollect in
      let stateHash := BytesToHash dataCollect in
      rows ← batchRows das dataCollect stateHash;
      Done (batchRow da parent stateHash (Bytes2Hex (Proof da)) 0 :: rows)
  end.

Definition SaveBatchCommitment (s : sqlState) (das : list (option DA)) (parentHash : Hash) : outcome (sqlState * bool) :=
  wdas ← batchRows das [] parentHash; Done (gCreate s wdas).

(** [AddBatchCommitment]: one insertion per record, stopping at an error; the
    roll-back it then asks for acts on the transaction of the caller. *)
Fixpoint addBatch (s : sqlState) (das : list (option DA)) (dataCollect : list Z) (parent : Hash) : outcome (sqlState * bool) :=
  match das with
  | [] => Done (s, false)
  | None :: _ => Panic
  | Some da :: das =>
      let dataCollect := collect da parent dataCollect in
      let stateHash := BytesToHash dataCollect in
      match NameSpaceID da with
      | None => Panic
      | Some ns =>
          let '(s, err) := gCreate s [batchRow da parent stateHash [] (i64 ns)] in
          if (err : bool) then Done (s, true) else addBatch s das dataCollect stateHash
      end
  end.

Definition AddBatchCommitment (s : sqlState) (das : list (option DA)) (parentHash : Hash) := addBatch s das [] parentHash.

(** ** Reading *)

(** [list := make([]T, n); for i, p := range parts { list[i] = p }] *)
Definition fillParts (n : nat) (parts : list (list Z)) : outcome (list (list Z)) :=
  fold_outcome (fun acc '(i, p) => Prelude.store acc (Z.of_nat i) p) (imap pair parts) (replicate n []).

(** The record of a row, as the three queries build it into the digest [d0]:
    record and error. *)
Definition rowDA (d0 : Digest) (da : daRow) : outcome (option DA * bool) :=
  match DecodeString (rCommitment da) with
  | (_, Some _) => Done (None, true)
  | (str, None) =>
      let '(digest, err) := DigestSetBytes d0 str in
      if (err : bool) then Done (None, true)
      else
        match parseRFC3339 (rReceiveAt da) with
        | None => Done (None, true)
        | Some parsedTime =>
            signData ← fillParts (length (rSignData da)) (Hex2Bytes <$> split (rSignData da));
            signAdd ← fillParts (length (rSignAddr da)) (split (rSignAddr da));
            Done (Some (mkDA (HexToAddress (rSender da)) (u64 (rNonce da)) (u64 (rIndex da)) (u64 (rLength da))
                          (Hex2Bytes (rData da)) digest signData signAdd (replicate 32 0) (HexToHash (rTxHash da))
                          (u64 (rBlockNum da)) parsedTime 0 (Hex2Bytes (rProof da)) [] (Some (rNameSpaceID da)) zeroHash), false)
        end
  end.

(** A query: the table must not be empty, then one row is looked for. *)
Definition queryDA (d0 : Digest) (s : sqlState) (col : list Z) (v : sqlVal) : outcome (option DA * bool) :=
  match gCount s with
  | None => Done (None, true)
  | Some count =>
      if decide (count = 0) then Done (None, true)
      else match gFind s col v with
           | None => Done (None, true)
           | Some da => rowDA d0 da
           end
  end.

Definition GetDAByCommitment_ (s : sqlState) (commitment : list Z) : outcome (option DA * bool) :=
  let digest := (DigestSetBytes zeroDigest commitment).1 in
  queryDA digest s (lit "commitment") (VText (Bytes2Hex (Marshal digest))).

Definition GetDAByCommitmentHash_ (s : sqlState) (h : Hash) : outcome (option DA * bool) :=
  queryDA zeroDigest s (lit "commitment_hash") (VText (HashHex h)).

Definition GetCommitmentByTxHash_ (s : sqlState) (txHash : Hash) : outcome (option DA * bool) :=
  queryDA zeroDigest s (lit "f_tx_hash") (VText (HashHex txHash)).

Definition GetMaxIDDAStateHash (s : sqlState) : option (list Z) := rStateHash <$> gMaxNonce s.
Definition GetMaxIDDANonce (s : sqlState) : option Z := (fun r => u64 (rNonce r)) <$> gMaxNonce s.

(** [DeleteDAByHash]: [Where] reports no error, so only the transaction hash
    is matched, and the hash is bound as bytes. *)
Definition DeleteDAByHash_ (s : sqlState) (hash : Hash) : sqlState * bool := gDelete s (lit "f_tx_hash") (VBlob hash).

(** [GetAllDARecords]: errors of the row are ignored, and a time that does not
    parse is the zero time. *)
Definition selectedDA (da : daRow) : DA :=
  let digest := (DigestSetBytes zeroDigest (DecodeString (rCommitment da)).1).1 in
  mkDA (replicate AddressLength 0) 0 0 0 [] digest [] [] (replicate 32 0) (HexToHash (rTxHash da)) 0
    (default 0 (parseRFC3339 (rReceiveAt da))) 0 [] [] None zeroHash.

Definition GetAllDARecords_ (s : sqlState) : option (list DA) :=
  match gSelect s [lit "f_tx_hash"; lit "f_commitment"] with
  | None => None
  | Some rows => Some (selectedDA <$> rows)
  end.

(** The store the pool uses. *)
#[export] Instance sqlDAStore : DAStore := {|
  sqlDB := sqlState;
  GetCommitmentByTxHash := GetCommitmentByTxHash_;
  GetDAByCommitmentHash := GetDAByCommitmentHash_;
  GetDAByCommitment := GetDAByCommitment_;
  GetAllDARecords := GetAllDARecords_;
  DeleteDAByHash s h := (DeleteDAByHash_ s h).1
|}.

(** ** Joining and splitting *)

Lemma split_cons_eq s : exists p ps, split s = p :: ps.
Proof. destruct s as [|c s]; simpl; [eauto|]. case_decide; [eauto|]. destruct (split s); eauto. Qed.

Lemma split_app p s : JoinString ∉ p -> split (p ++ JoinString :: s) = p :: split s.
Proof.
  induction p as [|c p IH]; intros Hp; cbn [app split]; [by rewrite decide_True|].
  rewrite decide_False by (intros ->; set_solver). rewrite IH by set_solver. done.
Qed.

Lemma split_single p : JoinString ∉ p -> split p = [p].
Proof.
  induction p as [|c p IH]; intros Hp; cbn [split]; [done|].
  rewrite decide_False by (intros ->; set_solver). by rewrite IH by set_solver.
Qed.

Lemma split_join parts : parts <> [] -> Forall (fun p => JoinString ∉ p) parts -> split (join parts) = parts.
Proof.
  induction parts as [|p parts IH]; intros Hne Hp; [done|]. apply Forall_cons in Hp as [Hp Hps].
  destruct parts as [|q parts]; [by apply split_single|]. cbn [join].
  rewrite split_app by done. f_equal. by apply IH.
Qed.

Lemma length_join parts : (length parts <= S (length (join parts)))%nat /\
  (Exists (fun p => p <> []) parts -> (length parts <= length (join parts))%nat).
Proof.
  induction parts as [|p parts [IH1 IH2]]; [split; [simpl; lia|by intros ?%Exists_nil]|].
  destruct parts as [|q parts].
  - simpl. split; [lia|]. intros [Hp|?%Exists_nil]%Exists_cons; [|done]. destruct p; [done|simpl; lia].
  - cbn [join] in *. rewrite length_app. cbn [length]. split; [simpl in *; lia|].
    intros [Hp|Hex]%Exists_cons; [destruct p; [done|simpl in *; lia]|]. specialize (IH2 Hex). simpl in *. lia.
Qed.

Lemma hexchar_no_comma n : 0 <= n < 16 -> hexchar n <> JoinString.
Proof. intros Hn. unfold hexchar, JoinString. case_decide; lia. Qed.

Lemma Bytes2Hex_no_comma l : bytes_ok l -> JoinString ∉ Bytes2Hex l.
Proof.
  unfold Bytes2Hex. induction l as [|b l IH]; intros Hl; [apply not_elem_of_nil|]. apply Forall_cons in Hl as [Hb Hl].
  cbn [EncodeToString]. destruct (byte_split b Hb) as [H1 H2].
  pose proof (hexchar_no_comma _ H1). pose proof (hexchar_no_comma _ H2). specialize (IH Hl). set_solver.
Qed.

(** *** Filling a slice *)

Lemma fillParts_fold parts : forall (pre post : list (list Z)),
  (length parts <= length post)%nat ->
  fold_outcome (fun acc '(i, p) => Prelude.store acc (Z.of_nat i) p) (imap (fun i p => ((length pre + i)%nat, p)) parts) (pre ++ post)
  = Done (pre ++ parts ++ drop (length parts) post).
Proof.
  induction parts as [|p parts IH]; intros pre post Hl; [done|]. destruct post as [|q post]; [simpl in Hl; lia|].
  rewrite imap_cons. cbn [fold_outcome]. rewrite Nat.add_0_r, store_Done by (rewrite length_app; simpl; lia).
  rewrite Nat2Z.id, insert_app_r_alt, Nat.sub_diag by lia. cbn [insert list_insert].
  specialize (IH (pre ++ [p]) post). rewrite <-!(assoc_L (++)), length_app in IH. cbn [app length] in IH.
  cbn [length drop app]. rewrite <-IH by (simpl in Hl; lia). f_equal. apply imap_ext. intros i x _. simpl. f_equal. lia.
Qed.

Lemma fillParts_enough n parts :
  (length parts <= n)%nat -> fillParts n parts = Done (parts ++ replicate (n - length parts) []).
Proof.
  intros Hn. unfold fillParts. change (replicate n []) with ([] ++ replicate n ([] : list Z)).
  change (imap pair parts) with (imap (fun i p => ((@length (list Z) [] + i)%nat, p)) parts).
  rewrite fillParts_fold by (by rewrite length_replicate). rewrite drop_replicate. done.
Qed.

Lemma fillParts_none parts : parts <> [] -> fillParts 0 parts = Panic.
Proof. destruct parts as [|p parts]; [done|]. intros _. unfold fillParts. rewrite imap_cons. done. Qed.

(** ** A row and its record *)

(** A record with the widths of Go's types, on the curve, with a name space
    that fits the column, and signed: at least one signature and one signer
    that are not empty. *)
Record storable `{!KZGLaws kzg} (da : DA) (ns : Z) : Prop := {
  st_sender : address_ok (Sender da);
  st_u64 : in_u64 (Nonce da) /\ in_u64 (Index da) /\ in_u64 (Length da) /\ in_u64 (BlockNum da);
  st_tx : hash_ok (TxHash da);
  st_digest : digest_ok (Commitment da);
  st_bytes : bytes_ok (Data da) /\ bytes_ok (Proof da);
  st_signs : Forall bytes_ok (SignData da) /\ Exists (fun p => p <> []) (SignData da);
  st_addrs : Forall (fun a => JoinString ∉ a) (SignerAddr da) /\ Exists (fun a => a <> []) (SignerAddr da);
  st_ns : NameSpaceID da = Some ns /\ in_i64 ns;
  st_time : let '(y, _, _) := civil ((ReceiveAt da / second + zone * 60) / 86400) in 0 <= y <= 9999
}.

(** What a stored record reads back as. *)
Definition loaded (da : DA) : DA :=
  mkDA (Sender da) (Nonce da) (Index da) (Length da) (Data da) (Commitment da)
    (SignData da ++ replicate (length (signText da) - length (SignData da)) [])
    (SignerAddr da ++ replicate (length (addrText da) - length (SignerAddr da)) [])
    (replicate 32 0) (TxHash da) (BlockNum da) (ReceiveAt da / second * second) 0 (Proof da) [] (NameSpaceID da) zeroHash.

Lemma Exists_fmap_ne (l : list (list Z)) :
  Exists (fun p => p <> []) l -> Exists (fun p => p <> []) (Bytes2Hex <$> l).
Proof.
  intros (p & Hp & Hne)%Exists_exists. apply Exists_exists. exists (Bytes2Hex p). split; [by apply list_elem_of_fmap_2|].
  destruct p; [done|]. unfold Bytes2Hex. simpl. done.
Qed.

Lemma Marshal_ok `{!KZGLaws kzg} d : bytes_ok (Marshal d).
Proof. rewrite Marshal_coords. apply Forall_app. split; [apply XBytes_ok|apply YBytes_ok]. Qed.

Lemma split_signs da :
  Forall bytes_ok (SignData da) -> SignData da <> [] -> Hex2Bytes <$> split (signText da) = SignData da.
Proof.
  intros Hb Hne. unfold signText. rewrite split_join.
  - rewrite <-list_fmap_compose. rewrite <-(list_fmap_id (SignData da)) at 2. apply list_fmap_ext.
    intros i x Hx. simpl. apply Hex2Bytes_Bytes2Hex. by eapply Forall_lookup_1.
  - by destruct (SignData da).
  - apply Forall_fmap. eapply Forall_impl; [exact Hb|]. intros x. apply Bytes2Hex_no_comma.
Qed.

(** The text columns decode, whatever is signed. *)
Lemma rowDA_eq `{!KZGLaws kzg} d0 da ns row :
  -1440 < zone < 1440 -> address_ok (Sender da) -> hash_ok (TxHash da) -> digest_ok (Commitment da) ->
  in_u64 (Nonce da) /\ in_u64 (Index da) /\ in_u64 (Length da) /\ in_u64 (BlockNum da) ->
  bytes_ok (Data da) /\ bytes_ok (Proof da) -> NameSpaceID da = Some ns -> in_i64 ns ->
  (let '(y, _, _) := civil ((ReceiveAt da / second + zone * 60) / 86400) in 0 <= y <= 9999) ->
  saveRow da = Done row ->
  rowDA d0 row =
  (signData ← fillParts (length (signText da)) (Hex2Bytes <$> split (signText da));
   signAdd ← fillParts (length (addrText da)) (split (addrText da));
   Done (Some (mkDA (Sender da) (Nonce da) (Index da) (Length da) (Data da) (Commitment da) signData signAdd (replicate 32 0)
     (TxHash da) (BlockNum da) (ReceiveAt da / second * second) 0 (Proof da) [] (Some ns) zeroHash), false)).
Proof.
  intros Hz Hs Ht Hd (Hn & Hi & Hl & Hb) [Hdata Hproof] Hns Hns64 Hy. unfold saveRow. rewrite Hns. intros [= <-].
  unfold rowDA. cbn [rCommitment rReceiveAt rSignData rSignAddr rSender rNonce rIndex rLength rData rTxHash rBlockNum rProof rNameSpaceID].
  unfold Bytes2Hex at 1. rewrite DecodeString_Encode by apply Marshal_ok.
  rewrite DigestSetBytes_Marshal by done. rewrite parse_format by done.
  rewrite HexToAddress_AddressHex, HexToHash_HashHex by done. rewrite !u64_i64 by done.
  rewrite !Hex2Bytes_Bytes2Hex by done. by rewrite i64_small.
Qed.

Lemma saveRow_rowDA `{!KZGLaws kzg} d0 da ns :
  -1440 < zone < 1440 -> storable da ns ->
  exists row, saveRow da = Done row /\ rowDA d0 row = Done (Some (loaded da), false).
Proof.
  intros Hz [H1 H2 H3 H4 H5 [H6 H6'] [H7 H7'] [H8 H8'] H9].
  destruct (saveRow da) as [row| |] eqn:Hrow; [|by unfold saveRow in Hrow; rewrite H8 in Hrow..].
  exists row. split; [done|]. rewrite (rowDA_eq d0 da ns row) by done. unfold loaded. rewrite H8.
  rewrite split_signs by (done || intros Hnil; rewrite Hnil in H6'; by apply Exists_nil in H6').
  unfold addrText at 2. rewrite split_join by (done || intros Hnil; rewrite Hnil in H7'; by apply Exists_nil in H7').
  rewrite !fillParts_enough; [done| |].
  - unfold signText. rewrite <-(length_fmap Bytes2Hex). by apply length_join, Exists_fmap_ne.
  - unfold addrText. by apply length_join.
Qed.

(** C30: a signed record that is saved reads back with the sender, nonce, index,
    length, data, commitment, transaction hash, block number, proof and name
    space it had.  The receive time comes back cut to the second.  The
    signatures and signers come back followed by empty entries, as many as the
    joined text is longer than the list.  The expiry is written to its column and not
    read from it: it comes back as the zero time.  The key has a column that is
    not written, the claimed value and the root have none: they come back empty. *)
Theorem saved_record_reads_back `{!KZGLaws kzg} d0 da ns :
  -1440 < zone < 1440 -> storable da ns ->
  exists row d, saveRow da = Done row /\ rowDA d0 row = Done (Some d, false)
    /\ (Sender d, Nonce d, Index d, Length d, Data d) = (Sender da, Nonce da, Index da, Length da, Data da)
    /\ (Commitment d, TxHash d, BlockNum d, Proof d, NameSpaceID d) = (Commitment da, TxHash da, BlockNum da, Proof da, NameSpaceID da)
    /\ ReceiveAt d = ReceiveAt da / second * second
    /\ SignData d = SignData da ++ replicate (length (signText da) - length (SignData da)) []
    /\ SignerAddr d = SignerAddr da ++ replicate (length (addrText da) - length (SignerAddr da)) []
    /\ rOutOfTime row = formatRFC3339 zone (OutOfTime da) /\ OutOfTime d = 0
    /\ DasKey d = replicate 32 0 /\ ClaimedValue d = [] /\ Root d = zeroHash.
Proof.
  intros Hz Hs. destruct (saveRow_rowDA d0 da ns Hz Hs) as (row & Hr & Hd). exists row, (loaded da). split; [exact Hr|]. split; [exact Hd|].
  do 5 (split; [reflexivity|]). split; [|by repeat split]. unfold saveRow in Hr. destruct (NameSpaceID da); [|done]. by injection Hr as <-.
Qed.

(** A saved record without signatures, or without signers, makes the query
    that finds its row panic: the list is made as long as the empty text, and
    splitting the empty text gives one part. *)
Theorem unsigned_row_panics `{!KZGLaws kzg} d0 da ns row :
  -1440 < zone < 1440 -> address_ok (Sender da) -> hash_ok (TxHash da) -> digest_ok (Commitment da) ->
  in_u64 (Nonce da) /\ in_u64 (Index da) /\ in_u64 (Length da) /\ in_u64 (BlockNum da) ->
  bytes_ok (Data da) /\ bytes_ok (Proof da) -> NameSpaceID da = Some ns -> in_i64 ns ->
  (let '(y, _, _) := civil ((ReceiveAt da / second + zone * 60) / 86400) in 0 <= y <= 9999) ->
  saveRow da = Done row -> SignData da = [] \/ SignerAddr da = [] -> rowDA d0 row = Panic.
Proof.
  intros H1 H2 H3 H4 H5 H6 H7 H8 H9 H10 Hempty. rewrite (rowDA_eq d0 da ns row) by done.
  destruct Hempty as [He|He].
  - unfold signText. rewrite He. cbn [fmap list_fmap join length split]. by rewrite fillParts_none.
  - destruct (fillParts (length (signText da)) _) as [sd| |] eqn:Hf; [|done|].
    + unfold addrText. rewrite He. cbn [join length split mbind outcome_bind]. by rewrite fillParts_none.
    + exfalso. revert Hf. unfold fillParts. generalize (replicate (length (signText da)) ([] : list Z)).
      generalize (imap pair (Hex2Bytes <$> split (signText da))). intros l. induction l as [|[i p] l IH]; intros acc; [done|].
      cbn [fold_outcome]. unfold Prelude.store. case_decide; [apply IH|done].
Qed.

Lemma collect_hash da parent dc : length parent = HashLength -> BytesToHash (collect da parent dc) = parent.
Proof. intros Hl. unfold collect. rewrite !(assoc_L (++)). by apply BytesToHash_app. Qed.

(** The state hash of a batch does not depend on its records: only the last
    32 of the collected bytes count, and these are the parent hash, so every
    row of every batch carries the parent hash it started from, twice. *)
Theorem state_hash_is_parent das parent dataCollect :
  length parent = HashLength ->
  exists rows, batchRows (Some <$> das) dataCollect parent = Done rows /\ length rows = length das
    /\ Forall (fun r => rStateHash r = HashHex parent /\ rParentStateHash r = HashHex parent) rows.
Proof.
  intros Hl. revert dataCollect. induction das as [|da das IH]; intros dc; [by exists []|].
  rewrite fmap_cons. cbn [batchRows]. rewrite collect_hash by done.
  destruct (IH (collect da parent dc)) as (rows & -> & Hlen & Hall). cbn [mbind outcome_bind].
  eexists. split; [done|]. split; [simpl; by rewrite Hlen|]. by apply Forall_cons.
Qed.

Section laws.
Context `{!GormLaws gorm}.

Lemma queryDA_unknown d0 s col v : col ∉ daColumns -> queryDA d0 s col v = Done (None, true).
Proof. intros Hc. unfold queryDA. rewrite gFind_unknown by done. by repeat case_match. Qed.

Lemma no_column_commitment : (lit "commitment" ∉ daColumns) /\ (lit "commitment_hash" ∉ daColumns).
Proof. split; apply (bool_decide_unpack _); vm_compute; exact I. Qed.

(** Looking a record up by commitment, or by commitment hash, always ends in
    an error: the queries name columns the table does not have.  So the pool's
    [GetDAByCommit] finds nothing but what is in memory, and never gets to
    asking the network. *)
Theorem commitment_lookup_fails `{sdk : SDK} s sqls fp c h :
  GetDAByCommitment_ s c = Done (None, true) /\ GetDAByCommitmentHash_ s h = Done (None, true)
  /\ FilePool.GetDAByCommit sqls fp c
     = Done (match get fp (BytesToHash (Marshal (DigestSetBytes zeroDigest c).1)) with
             | Some d => (fp, Some d, false)
             | None => (fp, None, true)
             end).
Proof.
  destruct no_column_commitment as [H1 H2].
  assert (HA : forall s c, GetDAByCommitment_ s c = Done (None, true)) by (intros; by apply queryDA_unknown).
  split_and!; [apply HA|by apply queryDA_unknown|]. rewrite GetDAByCommit_eq. cbn zeta.
  destruct (get fp _); [done|].
  change (GetDAByCommitment (sqls 0%nat) c) with (GetDAByCommitment_ (sqls 0%nat) c). by rewrite (HA (sqls 0%nat) c).
Qed.

(** At start a storage node gives every stored record the zero receive
    time, because that column is not selected; so the first removal tick after
    day 14 of year 1 expires them all, and yet no row is deleted, because the
    hash is bound as bytes and compared with text. *)
Theorem stored_records_expire_but_stay s das h :
  GetAllDARecords_ s = Some das ->
  Forall (fun da => ReceiveAt da = 0) das /\ daRows (DeleteDAByHash_ s h).1 = daRows s.
Proof.
  unfold GetAllDARecords_, DeleteDAByHash_. destruct (gSelect s _) as [rows|] eqn:Hs; [|done]. intros [= <-].
  split; [|apply gDelete_blob]. apply Forall_fmap, Forall_forall. intros r Hr. simpl.
  rewrite (gSelect_zero s _ rows r Hs Hr); [done|]. apply (bool_decide_unpack _). vm_compute. exact I.
Qed.

(** A query by transaction hash answers the record of a row that has this
    hash, or an error, never another record (and it panics only as the row's
    decoding does). *)
Theorem tx_lookup_sound s h da :
  (DigestSetBytes zeroDigest []).2 = true ->
  GetCommitmentByTxHash_ s h = Done (Some da, false) ->
  exists row, row ∈ daRows s /\ rTxHash row = HashHex h /\ rowDA zeroDigest row = Done (Some da, false).
Proof.
  intros Hempty. unfold GetCommitmentByTxHash_, queryDA.
  destruct (gCount s) as [n|]; [|done]. case_decide; [done|].
  destruct (gFind s (lit "f_tx_hash") (VText (HashHex h))) as [row|] eqn:Hf; [|done]. intros Hrow.
  apply gFind_tx in Hf as [[Hin Htx]|[-> _]]; [by exists row|]. exfalso. revert Hrow.
  unfold rowDA. cbn [rCommitment zeroRow DecodeString].
  destruct (DigestSetBytes zeroDigest []) as [dg err]. simpl in Hempty. by subst err.
Qed.

End laws.

End Store.

(** ** A small database, and the properties on it *)

Module StoreSample.
Import Sample PoolSample.

Definition pickTx (t : list Z) (s : list daRow) : list daRow := filter (fun r => rTxHash r = t) s.

Definition onlySelected (r : daRow) : daRow :=
  mkRow 0 [] 0 0 (rTxHash r) (rCommitment r) [] [] [] [] [] [] [] 0 [] [] 0.

#[export] Instance sampleGorm : Gorm := {|
  sqlState := list daRow;
  gCount s := Some (Z.of_nat (length s));
  gFind s col v :=
    if decide (col ∈ daColumns)
    then Some (match v with VText t => default zeroRow (head (pickTx t s)) | VBlob _ => zeroRow end)
    else None;
  gSelect s _ := Some (onlySelected <$> s);
  gCreate s rs := (s ++ rs, false);
  gDelete s _ v := (match v with VText t => filter (fun r => rTxHash r <> t) s | VBlob _ => s end, false);
  gMaxNonce s := head s
|}.

#[export] Instance sampleGormLaws : GormLaws sampleGorm.
Proof.
  refine {| daRows := fun s : @sqlState sampleGorm => s |}.
  - intros s col v Hc. cbn [gFind sampleGorm]. by rewrite decide_False.
  - intros s h r. cbn [gFind sampleGorm]. rewrite decide_True by (apply (bool_decide_unpack _); vm_compute; exact I).
    intros <-%(inj Some). unfold pickTx. destruct (filter (fun r => rTxHash r = h) (s : list daRow)) as [|r0 l] eqn:Hf; simpl.
    + right. split; [done|]. intros r' Hr' Htx. assert (r' ∈ filter (fun r => rTxHash r = h) (s : list daRow)) as Hin by (by apply list_elem_of_filter).
      rewrite Hf in Hin. by apply not_elem_of_nil in Hin.
    + left. assert (r0 ∈ filter (fun r => rTxHash r = h) (s : list daRow)) as Hin by (rewrite Hf; apply list_elem_of_here).
      apply list_elem_of_filter in Hin as [Htx Hin]. split; [exact Hin|exact Htx].
  - by intros s n <-%(inj Some).
  - intros s cols rs r <-%(inj Some) Hr _. by apply list_elem_of_fmap in Hr as (r' & -> & _).
  - done.
  - by intros s rs s' [= <-].
Defined.

Definition signedDA : DA :=
  mkDA (replicate 20 7) 1 2 4 [1; 2; 3; 4] (5, 6) [[9; 9]; [8]] [lit "0x07"; lit "0x08"] [] (replicate 32 3) 77
    (63838920000 * second + 5) 0 [1] [2] (Some 4) zeroHash.

Definition unsignedDA : DA :=
  mkDA (replicate 20 7) 1 2 4 [1; 2; 3; 4] (5, 6) [] [] [] (replicate 32 3) 77 (63838920000 * second) 0 [1] [2] (Some 4) zeroHash.

Lemma sampleBytes_ok (l : list Z) : forallb (fun b => (0 <=? b) && (b <? 256)) l = true -> bytes_ok l.
Proof.
  intros Hl. apply Forall_forall. intros b Hb. rewrite forallb_forall in Hl.
  apply list_elem_of_In, Hl, andb_true_iff in Hb as [?%Z.leb_le ?%Z.ltb_lt]. by split.
Qed.

Lemma noComma_ok (l : list (list Z)) :
  forallb (forallb (fun c => negb (c =? 44))) l = true -> Forall (fun a => JoinString ∉ a) l.
Proof.
  intros Hl. apply Forall_forall. intros a Ha Hin. rewrite forallb_forall in Hl. apply list_elem_of_In, Hl in Ha.
  rewrite forallb_forall in Ha. apply list_elem_of_In, Ha in Hin. done.
Qed.

Lemma sampleDigest_ok : @digest_ok sampleKZG _ (5, 6).
Proof. split; split; [discriminate|reflexivity|discriminate|reflexivity]. Qed.

Lemma signedDA_storable : storable 480 signedDA 4.
Proof.
  split.
  - split; [reflexivity|by apply sampleBytes_ok].
  - split_and!; split; (discriminate || reflexivity).
  - split; [reflexivity|by apply sampleBytes_ok].
  - apply sampleDigest_ok.
  - split; by apply sampleBytes_ok.
  - split; [apply Forall_cons_2; [by apply sampleBytes_ok|]; apply Forall_cons_2; [by apply sampleBytes_ok|apply Forall_nil_2]|by apply Exists_cons_hd].
  - split; [apply noComma_ok; reflexivity|apply Exists_cons_hd; discriminate].
  - split; [reflexivity|]. split; (discriminate || reflexivity).
  - vm_compute. split; discriminate.
Qed.

End StoreSample.

Section store_witnesses.
Import Sample PoolSample StoreSample.

Lemma saved_record_reads_back_witness :
  exists row d, saveRow 480 signedDA = Done row /\ rowDA zeroDigest row = Done (Some d, false) /\ TxHash d = TxHash signedDA /\ OutOfTime d = 0.
Proof.
  destruct (saved_record_reads_back 480 zeroDigest signedDA 4) as (row & d & H1 & H2 & _ & H3 & _ & _ & _ & _ & H4 & _); [lia|apply signedDA_storable|].
  exists row, d. split; [exact H1|]. split; [exact H2|]. split; [by injection H3|exact H4].
Defined.

Lemma unsigned_row_panics_witness :
  exists row, saveRow 0 unsignedDA = Done row /\ rowDA zeroDigest row = Panic.
Proof.
  eexists. split; [reflexivity|]. apply (unsigned_row_panics 0 zeroDigest unsignedDA 4).
  - lia.
  - split; [reflexivity|by apply sampleBytes_ok].
  - split; [reflexivity|by apply sampleBytes_ok].
  - apply sampleDigest_ok.
  - split_and!; split; (discriminate || reflexivity).
  - split; by apply sampleBytes_ok.
  - reflexivity.
  - split; (discriminate || reflexivity).
  - vm_compute. split; discriminate.
  - reflexivity.
  - left. reflexivity.
Defined.

Lemma state_hash_is_parent_witness :
  exists rows, batchRows 0 (Some <$> [signedDA; unsignedDA]) [] zeroHash = Done rows /\ length rows = 2%nat
    /\ Forall (fun r => rStateHash r = HashHex zeroHash /\ rParentStateHash r = HashHex zeroHash) rows.
Proof. apply (state_hash_is_parent 0 [signedDA; unsignedDA] zeroHash []). reflexivity. Defined.

Lemma commitment_lookup_fails_witness :
  GetDAByCommitmentHash_ ([] : @sqlState sampleGorm) zeroHash = Done (None, true).
Proof.
  apply (commitment_lookup_fails ([] : @sqlState sampleGorm) (fun _ => ([] : @sqlState sampleGorm)) pool0 [] zeroHash).
Defined.

Lemma stored_records_expire_but_stay_witness :
  exists das, GetAllDARecords_ ([zeroRow] : @sqlState sampleGorm) = Some das /\ Forall (fun da => ReceiveAt da = 0) das.
Proof.
  eexists. split; [reflexivity|].
  apply (stored_records_expire_but_stay ([zeroRow] : @sqlState sampleGorm) _ zeroHash). reflexivity.
Defined.

Lemma tx_lookup_sound_witness :
  exists row da, GetCommitmentByTxHash_ ([row] : @sqlState sampleGorm) (replicate 32 3) = Done (Some da, false)
    /\ exists row', row' ∈ daRows ([row] : @sqlState sampleGorm) /\ rTxHash row' = HashHex (replicate 32 3).
Proof.
  destruct (saveRow_rowDA 480 zeroDigest signedDA 4 ltac:(lia) signedDA_storable) as (row & Hs & Hr).
  assert (Hq : GetCommitmentByTxHash_ ([row] : @sqlState sampleGorm) (replicate 32 3) = Done (Some (loaded signedDA), false)).
  { unfold GetCommitmentByTxHash_, queryDA. cbn [gCount gFind sampleGorm length].
    rewrite decide_False by done. rewrite decide_True by (apply (bool_decide_unpack _); vm_compute; exact I).
    injection Hs as <-. exact Hr. }
  exists row, (loaded signedDA). split; [exact Hq|].
  destruct (tx_lookup_sound ([row] : @sqlState sampleGorm) (replicate 32 3) (loaded signedDA)) as (row' & H1 & H2 & _);
    [reflexivity|exact Hq|]. exists row'. split; [exact H1|exact H2].
Defined.

End store_witnesses.
