(* ===== verification/Ledger.v ===== *)
(** * The tables of blocks, transactions, receipts and logs

    [ethdb/db/block.go], [transaction.go], [receipt.go], [log.go],
    [syncInfo.go], [namespace.go] and the transaction handling of [db.go]: what
    the synchroniser writes about the layer-one chain.  gorm is the class
    [Tables]: handles of open transactions, insertions that may fail, queries
    of one row, deletions by a condition.

    The types of [core/types] that come from the layer-one node are records of
    the fields this code reads; the hash of a block or transaction, which
    geth caches, is one of them. *)

From stdpp Require Import pretty.
From S2P Require Import Prelude Bytes DAType FilePool Store.

Local Open Scope Z_scope.

(** ** What the node answers *)

Record l1Tx := mkTx { txTo : option Address; txData : list Z; txHash : Hash; txBinary : list Z }.

Record l1Block := mkBlock {
  bkNumber : Z;
  bkHash : Hash;
  bkParentHash : Hash;
  bkTime : Z;
  bkTransactions : list l1Tx
}.

Record l1Log := mkLog {
  lgAddress : Address;
  lgTopics : list Hash;
  lgData : list Z;
  lgBlockNumber : Z;
  lgTxHash : Hash;
  lgIndex : Z;
  lgBlockHash : Hash;
  lgRemoved : bool
}.

(** [BlockNumber] is a pointer that a node may leave out. *)
Record l1Receipt := mkReceipt {
  rcType : Z;
  rcStatus : Z;
  rcCumulativeGasUsed : Z;
  rcGasUsed : Z;
  rcTxHash : Hash;
  rcContractAddress : Address;
  rcBlockNumber : option Z;
  rcLogs : list l1Log
}.

(** ** Rows *)

Record blockRow := mkBlockRow { bBlockNum : Z; bBlockHash : list Z; bParentHash : list Z; bEncodeData : list Z; bReceivedAt : list Z }.
Record txRow := mkTxRow { tHash : list Z; tEncoded : list Z; tBlockNum : Z }.
Record receiptRow := mkReceiptRow {
  cTxHash : list Z; cTxType : Z; cStatus : Z; cCumulativeGasUsed : Z; cGasUsed : Z; cBlockNum : Z; cContractAddress : list Z
}.
Record logRow := mkLogRow {
  lTxHash : list Z; lLogIndex : Z; lAddress : list Z; lBlockNum : Z; lBlockHash : list Z; lRemoved : bool; lData : list Z;
  lTopic0 : list Z; lTopic1 : list Z; lTopic2 : list Z; lTopic3 : list Z
}.
Record nsRow := mkNsRow { nID : Z; nNameSpaceID : Z; nCreater : list Z; nStorageList : list Z }.

Inductive row :=
| RBlock (r : blockRow)
| RTx (r : txRow)
| RReceipt (r : receiptRow)
| RLog (r : logRow)
| RNameSpace (r : nsRow)
| RSync (num : Z).

Inductive table := TBlock | TTx | TReceipt | TLog | TDA.

(** A [Where] condition on one column. *)
Inductive cond := CText (col s : list Z) | CBytes (col b : list Z) | CNum (col : list Z) (n : Z) | CAbove (col : list Z) (n : Z).

(** ** gorm *)

(** [txState] is the handle [Begin] makes; [tCreate] says whether the insertion
    failed; [tDelete] likewise.  The queries are [First] on the block number,
    on the block hash, [Order("id DESC").First], and on the one-column table
    [SyncInfo] its [Count], its [Last] and its [Updates]. *)
Class Tables (g : Gorm) := {
  txState : Type;
  tBegin : sqlState -> txState;
  tCreate : txState -> row -> txState * bool;
  tSyncUpdate : txState -> Z -> Z -> txState * bool;
  tRollback : txState -> txState;
  tCommit : txState -> sqlState * bool;
  tInsert : sqlState -> row -> sqlState * bool;
  tDelete : sqlState -> table -> cond -> sqlState * bool;
  tBlockCount : sqlState -> option Z;
  tBlockByNum : sqlState -> Z -> option blockRow;
  tBlockByHash : sqlState -> list Z -> option blockRow;
  tLastBlock : sqlState -> option blockRow;
  tSyncCount : sqlState -> option Z;
  tSyncLast : sqlState -> option Z;
  tNameSpace : sqlState -> Z -> option nsRow
}.

(** A transaction sees the rows it began with and those it created; a rolled
    back one refuses insertions, and commits to what it began with. *)
Class TablesLaws (g : Gorm) (t : Tables g) := {
  stRows : sqlState -> list row;
  txRows : txState -> list row;
  txBase : txState -> list row;
  txOpen : txState -> bool;
  tBegin_rows s : txRows (tBegin s) = stRows s /\ txBase (tBegin s) = stRows s /\ txOpen (tBegin s) = true;
  tCreate_ok t r t' : tCreate t r = (t', false) ->
    txOpen t = true /\ txOpen t' = true /\ txRows t' = txRows t ++ [r] /\ txBase t' = txBase t;
  tCreate_err t r t' : tCreate t r = (t', true) -> txOpen t' = txOpen t /\ txBase t' = txBase t;
  tRollback_closes t : txOpen (tRollback t) = false /\ txBase (tRollback t) = txBase t;
  tCommit_ok t s : tCommit t = (s, false) -> txOpen t = true /\ stRows s = txRows t;
  tCommit_err t s : tCommit t = (s, true) -> stRows s = txBase t;
  tCommit_closed t : txOpen t = false -> (tCommit t).2 = true
}.

Section Ledger.
Context `{crypto : Crypto} `{gorm : Gorm} `{tables : !Tables gorm}.

(** [rlp.EncodeToBytes] of a block, empty on an error, and [DecodeBytes]. *)
Context (encodeBlock : l1Block -> list Z) (decodeBlock : list Z -> option l1Block).

(** [strconv.FormatUint(n, 10)] *)
Definition FormatUint (n : Z) : list Z := lit (pretty (Z.to_N n)).

(** ** Insertions *)

(** The loop of the four [AddBatch] functions: [mk] makes the row of an
    element, [None] to skip it; a failed insertion rolls back and ends the
    loop. *)
Fixpoint insertAll {A : Type} (mk : A -> outcome (option row)) (tx : txState) (l : list A) : outcome (txState * bool) :=
  match l with
  | [] => Done (tx, false)
  | a :: l =>
      r ← mk a;
      match r with
      | None => insertAll mk tx l
      | Some r =>
          let '(tx, err) := tCreate tx r in
          if (err : bool) then Done (tRollback tx, true) else insertAll mk tx l
      end
  end.

Definition blockRowOf (block : option l1Block) : outcome (option row) :=
  Done ((fun b => RBlock (mkBlockRow (i64 (bkNumber b)) (HashHex (bkHash b)) (HashHex (bkParentHash b))
                            (Bytes2Hex (encodeBlock b)) (FormatUint (bkTime b)))) <$> block).

Definition AddBatchBlocks (tx : txState) (blocks : list (option l1Block)) := insertAll blockRowOf tx blocks.

Definition txRowOf (num : Z) (t : l1Tx) : outcome (option row) :=
  Done (Some (RTx (mkTxRow (HashHex (txHash t)) (Bytes2Hex (txBinary t)) num))).

Definition AddBatchTransactions (tx : txState) (txs : list l1Tx) (num : Z) := insertAll (txRowOf num) tx txs.

Definition receiptRowOf (rec : option l1Receipt) : outcome (option row) :=
  match rec with
  | None => Panic
  | Some rec =>
      match rcBlockNumber rec with
      | None => Panic
      | Some n =>
          Done (Some (RReceipt (mkReceiptRow (HashHex (rcTxHash rec)) (rcType rec) (i64 (rcStatus rec)) (i64 (rcCumulativeGasUsed rec))
                                  (i64 (rcGasUsed rec)) (i64 n) (AddressHex Keccak256 (rcContractAddress rec)))))
      end
  end.

Definition AddBatchReceipts (tx : txState) (receipts : list (option l1Receipt)) := insertAll receiptRowOf tx receipts.

(** The four topic columns. *)
Definition logTopics (topics : list Hash) : outcome (list Z * list Z * list Z * list Z) :=
  match length topics with
  | 0%nat => t ← index topics 0; Done (HashHex t, [], [], [])
  | 1%nat => t ← index topics 0; Done ([], HashHex t, [], [])
  | 2%nat => t ← index topics 0; Done ([], [], HashHex t, [])
  | 3%nat => t ← index topics 0; Done ([], [], [], HashHex t)
  | _ => Done ([], [], [], [])
  end.

Definition logRowOf (l : l1Log) : outcome (option row) :=
  '(t0, t1, t2, t3) ← logTopics (lgTopics l);
  Done (Some (RLog (mkLogRow (HashHex (lgTxHash l)) (i64 (lgIndex l)) (AddressHex Keccak256 (lgAddress l)) (i64 (lgBlockNumber l))
                      (HashHex (lgBlockHash l)) (lgRemoved l) (Bytes2Hex (lgData l)) t0 t1 t2 t3))).

Definition AddBatchLogs (tx : txState) (logs : list l1Log) := insertAll logRowOf tx logs.

(** [AddTransaction], [AddReceipt], [AddLog] and [AddLastBlockNum]: one row. *)
Definition addRow (tx : txState) (r : row) : txState * bool :=
  let '(tx, err) := tCreate tx r in
  if (err : bool) then (tRollback tx, true) else (tx, false).

Definition AddLastBlockNum (tx : txState) (num : Z) := addRow tx (RSync num).

Definition UpDataLastBlocNum (tx : txState) (orgNum blockNum : Z) : txState * bool :=
  let '(tx, err) := tSyncUpdate tx orgNum blockNum in
  if (err : bool) then (tRollback tx, true) else (tx, false).

(** ** Name spaces *)

Record NameSpace := mkNameSpace { nsID : Z; nsCreater : Address; nsStorageList : list Address }.

(** The insertion is not part of a transaction. *)
Definition AddNameSpace (s : sqlState) (ns : NameSpace) (nsId : Z) : sqlState * bool :=
  tInsert s (RNameSpace (mkNsRow 0 (i64 nsId) (AddressHex Keccak256 (nsCreater ns))
                           (join (AddressHex Keccak256 <$> nsStorageList ns)))).

Definition GetNameSpace (s : sqlState) (nsId : Z) : outcome (option NameSpace) :=
  match tNameSpace s (i64 nsId) with
  | None => Done None
  | Some ns =>
      addrList ← fold_outcome (fun acc '(i, addr) => Prelude.store acc (Z.of_nat i) (HexToAddress addr))
                   (imap pair (split (nStorageList ns))) (replicate (length (nStorageList ns)) (replicate AddressLength 0));
      Done (Some (mkNameSpace (u64 (nID ns)) (HexToAddress (nCreater ns)) addrList))
  end.

(** ** Queries on blocks *)

(** A [*types.Block]: nil, one whose header was never set, or a block. *)
Inductive blockPtr := NilBlock | NoHeader | Blk (b : l1Block).

Definition NumberU64 (p : blockPtr) : outcome Z :=
  match p with Blk b => Done (u64 (bkNumber b)) | _ => Panic end.

Definition BlockHash (p : blockPtr) : outcome Hash :=
  match p with Blk b => Done (bkHash b) | _ => Panic end.

(** [GetBlockByHash]: [DecodeBytes] is handed a [Block], not a pointer to one,
    which it refuses ([rlp/decode.go], [errNoPointer]). *)
Definition GetBlockByHash (s : sqlState) (blockHash : Hash) : blockPtr * bool :=
  match tBlockByHash s (HashHex blockHash) with
  | None => (NilBlock, true)
  | Some _ => (NoHeader, true)
  end.

Definition GetMaxIDBlockNum (s : sqlState) : Z * bool :=
  match tLastBlock s with None => (0, true) | Some r => (bBlockNum r, false) end.

Definition GetBlockByNum (s : sqlState) (blockNum : Z) : blockPtr * bool :=
  match tBlockCount s with
  | None => (NilBlock, true)
  | Some count =>
      if decide (count = 0) then (NilBlock, true)
      else match tBlockByNum s blockNum with
           | None => (NilBlock, true)
           | Some r => match decodeBlock (Hex2Bytes (bEncodeData r)) with
                       | None => (NilBlock, true)
                       | Some b => (Blk b, false)
                       end
           end
  end.

Definition GetLastBlockNum (s : sqlState) : Z * bool :=
  match tSyncCount s with
  | None => (0, true)
  | Some count =>
      if decide (count = 0) then (0, false)
      else match tSyncLast s with None => (0, true) | Some n => (n, false) end
  end.

(** ** Deletions *)

Definition DeleteBlockByHash (s : sqlState) (blockHash : Hash) := tDelete s TBlock (CText (lit "block_num") (HashHex blockHash)).
Definition DeleteBlockByNum (s : sqlState) (blockNum : Z) := tDelete s TBlock (CNum (lit "block_num") blockNum).
Definition DeleteTransactionByHash (s : sqlState) (txHash : Hash) := tDelete s TTx (CBytes (lit "hash") txHash).
Definition DeleteTransactionByNum (s : sqlState) (num : Z) := tDelete s TTx (CNum (lit "block_num") num).
Definition DeleteReceiptByHash (s : sqlState) (txHash : Hash) := tDelete s TReceipt (CText (lit "tx_hash") (HashHex txHash)).
Definition DeleteReceiptByNum (s : sqlState) (num : Z) := tDelete s TReceipt (CNum (lit "block_num") num).
Definition DeleteLogWithTxHash (s : sqlState) (txHash : Hash) := tDelete s TLog (CText (lit "tx_hash") (HashHex txHash)).

(** [CleanUpDB]: errors are dropped, and the log table is left alone. *)
Definition CleanUpDB (s : sqlState) (num : Z) : sqlState :=
  let s := (tDelete s TBlock (CAbove (lit "block_num") num)).1 in
  let s := (tDelete s TTx (CAbove (lit "block_num") num)).1 in
  let s := (tDelete s TReceipt (CAbove (lit "block_num") num)).1 in
  (tDelete s TDA (CAbove (lit "f_block_num") num)).1.


(** ** What the loops insert *)

(** The rows of the elements that have one. *)
Definition madeRows {A : Type} (mk : A -> outcome (option row)) (l : list A) : list row :=
  omap (fun a => match mk a with Done r => r | _ => None end) l.

Lemma insertAll_not_stuck {A : Type} (mk : A -> outcome (option row)) tx l :
  (forall a, mk a <> Stuck) -> insertAll mk tx l <> Stuck.
Proof.
  intros Hmk. revert tx. induction l as [|a l IH]; intros tx; [done|]. cbn [insertAll].
  specialize (Hmk a). destruct (mk a) as [[r|]| |]; [|apply IH|done|done].
  cbn [mbind outcome_bind]. destruct (tCreate tx r) as [tx' []]; [done|apply IH].
Qed.

Lemma insertAll_total {A : Type} (mk : A -> outcome (option row)) tx l :
  (forall a, a ∈ l -> exists r, mk a = Done r) -> exists tx' err, insertAll mk tx l = Done (tx', err).
Proof.
  revert tx. induction l as [|a l IH]; intros tx Hmk; [cbn [insertAll]; eauto|]. cbn [insertAll].
  assert (HIH : forall tx, exists tx' err, insertAll mk tx l = Done (tx', err)) by (intros; apply IH; set_solver).
  destruct (Hmk a) as [r ->]; [set_solver|]. cbn [mbind outcome_bind]. destruct r as [r|]; [|apply HIH].
  destruct (tCreate tx r) as [tx' []]; [eauto|apply HIH].
Qed.

Section laws.
Context `{!TablesLaws gorm tables}.

(** A loop that reports no error added the rows of all elements; one that does
    leaves a rolled back transaction. *)
Lemma insertAll_rows {A : Type} (mk : A -> outcome (option row)) tx l tx' err :
  insertAll mk tx l = Done (tx', err) ->
  txBase tx' = txBase tx
  /\ (if (err : bool) then txOpen tx' = false else txOpen tx' = txOpen tx /\ txRows tx' = txRows tx ++ madeRows mk l).
Proof.
  revert tx. induction l as [|a l IH]; intros tx; cbn [insertAll].
  - intros [= <- <-]. by rewrite app_nil_r.
  - unfold madeRows. cbn [omap list_omap]. destruct (mk a) as [[r|]| |]; cbn [mbind outcome_bind]; [|apply IH|done|done].
    destruct (tCreate tx r) as [tx1 []] eqn:Hc.
    + intros [= <- <-]. apply tCreate_err in Hc as [_ Hb]. destruct (tRollback_closes tx1) as [-> ->]. done.
    + intros HI. apply IH in HI as [-> HI]. apply tCreate_ok in Hc as (Ho & Ho' & Hr & ->). split; [done|].
      destruct err; [done|]. destruct HI as [-> ->]. rewrite Hr, <-(assoc_L (++)). split; [congruence|done].
Qed.

(** From [tx] to [tx'] the rows were added, or the transaction was given up. *)
Definition wrote (tx tx' : txState) (rows : list row) : Prop :=
  txBase tx' = txBase tx /\ (txOpen tx' = false \/ (txOpen tx' = txOpen tx /\ txRows tx' = txRows tx ++ rows)).

Lemma insertAll_wrote {A : Type} (mk : A -> outcome (option row)) tx l tx' err :
  insertAll mk tx l = Done (tx', err) -> wrote tx tx' (madeRows mk l).
Proof. intros HI. apply insertAll_rows in HI as [Hb HI]. split; [done|]. destruct err; [by left|by right]. Qed.

Lemma wrote_nil tx : wrote tx tx [].
Proof. split; [done|]. right. by rewrite app_nil_r. Qed.

Lemma wrote_trans tx tx1 tx2 r1 r2 : wrote tx tx1 r1 -> wrote tx1 tx2 r2 -> wrote tx tx2 (r1 ++ r2).
Proof.
  intros [Hb1 H1] [Hb2 H2]. split; [congruence|]. destruct H2 as [H2|[Ho2 Hr2]]; [by left|]. rewrite Ho2, Hr2.
  destruct H1 as [H1|[Ho1 Hr1]]; [by left|]. right. by rewrite Hr1, <-(assoc_L (++)).
Qed.

(** A committed transaction leaves what it began with, or that and its rows. *)
Lemma wrote_commit s tx rows :
  wrote (tBegin s) tx rows -> stRows (tCommit tx).1 = stRows s \/ stRows (tCommit tx).1 = stRows s ++ rows.
Proof.
  intros [Hb H1]. destruct (tBegin_rows s) as (Hr & Hbs & _). destruct (tCommit tx) as [s' []] eqn:Hc; simpl.
  - left. apply tCommit_err in Hc. congruence.
  - apply tCommit_ok in Hc as [Ho Hs]. right. destruct H1 as [H1|[_ H1]]; congruence.
Qed.

End laws.

(** The row of a log never has its first topic in the first topic column:
    a log without topics panics, and otherwise the first topic goes to the
    column of the number of topics, or nowhere when there are four; the other
    topics are not stored. *)
Theorem log_row_topics l :
  match lgTopics l with
  | [] => logRowOf l = Panic
  | t :: ts => exists r, logRowOf l = Done (Some (RLog r)) /\ lTopic0 r = []
      /\ [lTopic1 r; lTopic2 r; lTopic3 r] = <[length ts := HashHex t]> [[]; []; []]
  end.
Proof.
  unfold logRowOf, logTopics. destruct (lgTopics l) as [|t [|t1 [|t2 [|t3 ts]]]]; [done|..];
    (eexists; split; [done|]; by split).
Qed.

End Ledger.
