(* ===== verification/AbiType.v ===== *)
(** * ABI types

    The types of contract arguments, [accounts/abi/type.go], with the Go types
    they are read into, the names of struct fields and the parser of type
    expressions.  [TupleRawName] and [internalType], which only the generator of
    bindings reads, are left out. *)

From stdpp Require Import pretty.
From S2P Require Import Prelude Bytes.

Local Open Scope Z_scope.

(** ** Errors

    The texts of the errors are left out. *)

Inductive abiErr :=
| errBadBool | errBadUint8 | errBadUint16 | errBadUint32 | errBadUint64
| errBadInt8 | errBadInt16 | errBadInt32 | errBadInt64
| errArgType | errArrayFormat | errSyntax | errInvalidType | errUnsupported | errAnonymousField | errFieldName
| errTypeCheck | errNotBytes | errUnknownType | errArgCount | errNoField
| errTagEmpty | errTagTwice | errTagUnknown | errUnderscored | errTwoFields | errTwoOutputs
| errNegativeSize | errBoundary | errFunction | errTooShort | errOffset | errLength
| errEmptyData | errNoValues | errCannotSet
| errNoMethod | errOutputFormat | errNoName | errTopicCount | errNotIndexed | errTupleTopic
| errNoEventSignature | errEventSignatureMismatch | errCall | errNoCode
| errFallback | errReceive | errMutability | errFieldType.

#[export] Instance abiErr_eq_dec : EqDecision abiErr.
Proof. solve_decision. Defined.

Abbreviation abi A := (outcome (abiErr + A)) (only parsing).
Definition aok {A : Type} (a : A) : abi A := Done (inr a).
Definition aerr {A : Type} (e : abiErr) : abi A := Done (inl e).
Definition abind {A B : Type} (m : abi A) (f : A -> abi B) : abi B :=
  match m with
  | Done (inr a) => f a
  | Done (inl e) => Done (inl e)
  | Panic => Panic
  | Stuck => Stuck
  end.

Declare Scope abi_scope.
Delimit Scope abi_scope with abi.
Notation "x <-- m ; k" := (abind m (fun x => k)) (at level 20, m at level 100, k at level 200, only parsing) : abi_scope.
Notation "' p <-- m ; k" := (abind m (fun p => k)) (at level 20, p pattern, m at level 100, k at level 200, only parsing) : abi_scope.
Local Open Scope abi_scope.

(** ** Go types

    The types that package [reflect] sees.  A struct field has its name, its tags
    and its type; [GBig] is [big.Int].  Types with a name are their underlying
    types. *)

Inductive goType :=
| GUint (bits : Z)
| GInt (bits : Z)
| GBool
| GString
| GBig
| GPtr (t : goType)
| GSlice (t : goType)
| GArray (n : Z) (t : goType)
| GStruct (fields : list (list Z * list (list Z * list Z) * goType)).

Inductive goKind := kUint (bits : Z) | kInt (bits : Z) | kBool | kString | kPtr | kSlice | kArray | kStruct.

#[export] Instance goKind_eq_dec : EqDecision goKind.
Proof. solve_decision. Defined.

Definition Kind_ (t : goType) : goKind :=
  match t with
  | GUint b => kUint b | GInt b => kInt b | GBool => kBool | GString => kString
  | GBig | GStruct _ => kStruct
  | GPtr _ => kPtr | GSlice _ => kSlice | GArray _ _ => kArray
  end.

(** ** Types of arguments *)

(** The fields of a tuple have the name in the contract, the name in the Go
    struct and the type. *)
Inductive abiType :=
| IntTy (size : Z)
| UintTy (size : Z)
| BoolTy
| StringTy
| SliceTy (elem : abiType)
| ArrayTy (elem : abiType) (size : Z)
| TupleTy (elems : list (list Z * list Z * abiType))
| AddressTy
| FixedBytesTy (size : Z)
| BytesTy
| HashTy
| FixedPointTy
| FunctionTy.

Section AbiInd.
Variable P : abiType -> Prop.
Hypothesis HInt : forall n, P (IntTy n).
Hypothesis HUint : forall n, P (UintTy n).
Hypothesis HBool : P BoolTy.
Hypothesis HString : P StringTy.
Hypothesis HSlice : forall t, P t -> P (SliceTy t).
Hypothesis HArray : forall t n, P t -> P (ArrayTy t n).
Hypothesis HTuple : forall l, Forall P (map snd l) -> P (TupleTy l).
Hypothesis HAddress : P AddressTy.
Hypothesis HFixed : forall n, P (FixedBytesTy n).
Hypothesis HBytes : P BytesTy.
Hypothesis HHash : P HashTy.
Hypothesis HPoint : P FixedPointTy.
Hypothesis HFunction : P FunctionTy.

Fixpoint abiType_ind' (t : abiType) : P t :=
  match t with
  | IntTy n => HInt n
  | UintTy n => HUint n
  | BoolTy => HBool
  | StringTy => HString
  | SliceTy t => HSlice t (abiType_ind' t)
  | ArrayTy t n => HArray t n (abiType_ind' t)
  | TupleTy l => HTuple l ((fix go (l : list (list Z * list Z * abiType)) : Forall P (map snd l) :=
                              match l with [] => Forall_nil_2 _ | f :: l => Forall_cons_2 _ _ _ (abiType_ind' f.2) (go l) end) l)
  | AddressTy => HAddress
  | FixedBytesTy n => HFixed n
  | BytesTy => HBytes
  | HashTy => HHash
  | FixedPointTy => HPoint
  | FunctionTy => HFunction
  end.
End AbiInd.

Definition reflectIntType (unsigned : bool) (size : Z) : goType :=
  if unsigned && bool_decide (size ∈ [8; 16; 32; 64]) then GUint size
  else if bool_decide (size ∈ [8; 16; 32; 64]) then GInt size
  else GPtr GBig.

Definition byteType : goType := GUint 8.

(** The struct of a tuple has the names of the contract as JSON tags. *)
Fixpoint GetType (t : abiType) : goType :=
  match t with
  | IntTy n => reflectIntType false n
  | UintTy n => reflectIntType true n
  | BoolTy => GBool
  | StringTy => GString
  | SliceTy t => GSlice (GetType t)
  | ArrayTy t n => GArray n (GetType t)
  | TupleTy l => GStruct (map (fun f => (f.1.2, [(lit "json", f.1.1)], GetType f.2)) l)
  | AddressTy => GArray 20 byteType
  | FixedBytesTy n => GArray n byteType
  | BytesTy => GSlice byteType
  | HashTy | FixedPointTy => GArray 32 byteType
  | FunctionTy => GArray 24 byteType
  end.

Definition requiresLengthPrefix (t : abiType) : bool := match t with StringTy | BytesTy | SliceTy _ => true | _ => false end.

Fixpoint isDynamicType (t : abiType) : bool :=
  match t with
  | TupleTy l => existsb (fun f => isDynamicType f.2) l
  | StringTy | BytesTy | SliceTy _ => true
  | ArrayTy t _ => isDynamicType t
  | _ => false
  end.

Fixpoint getTypeSize (t : abiType) : Z :=
  match t with
  | ArrayTy e n =>
      if isDynamicType e then 32
      else match e with
           | ArrayTy _ _ | TupleTy _ => i64 (n * getTypeSize e)
           | _ => i64 (n * 32)
           end
  | TupleTy l => if isDynamicType t then 32 else foldl (fun total f => i64 (total + f)) 0 (map (fun f => getTypeSize f.2) l)
  | _ => 32
  end.

(** ** Names *)

(** [strings.Split] at one byte, [strings.Join]. *)
Fixpoint splitOn (c : Z) (l : list Z) : list (list Z) :=
  match l with
  | [] => [[]]
  | x :: l =>
      if decide (x = c) then [] :: splitOn c l
      else match splitOn c l with [] => [[x]] | w :: ws => (x :: w) :: ws end
  end.

Fixpoint joinWith (sep : list Z) (ws : list (list Z)) : list Z :=
  match ws with [] => [] | [w] => w | w :: ws => w ++ sep ++ joinWith sep ws end.

(** [strings.ToUpper] of a string of one byte; a byte that is no character
    becomes the replacement character. *)
Definition ToUpper1 (c : Z) : list Z :=
  if decide (97 <= c <= 122) then [c - 32] else if decide (c < 128) then [c] else [0xEF; 0xBF; 0xBD].

Definition ToCamelCase (input : list Z) : list Z :=
  concat (map (fun s => match s with [] => [] | c :: s => ToUpper1 c ++ s end) (splitOn 95 input)).

(** [%d] of a natural number. *)
Definition itoa (n : nat) : list Z := lit (pretty (N.of_nat n)).

(** [fmt.Sprintf] with [%s%d] for [idx] from 0 on. *)
Fixpoint resolveLoop (fuel idx : nat) (rawName : list Z) (used : list Z -> bool) (name : list Z) : outcome (list Z) :=
  if used name then match fuel with
                    | O => Stuck
                    | S fuel => resolveLoop fuel (S idx) rawName used (rawName ++ itoa idx)
                    end
  else Done name.

(** [n] is the number of names in use. *)
Definition ResolveNameConflict (n : nat) (rawName : list Z) (used : list Z -> bool) : outcome (list Z) := resolveLoop (S n) 0 rawName used rawName.

(** The characters of a string as [range] gives them. *)
Definition cont (b : Z) : bool := bool_decide (0x80 <= b <= 0xBF).

Fixpoint runes (l : list Z) : list Z :=
  match l with
  | [] => []
  | b0 :: r0 =>
      if decide (b0 < 0x80) then b0 :: runes r0
      else match r0 with
      | b1 :: r1 =>
          if decide (0xC2 <= b0 <= 0xDF /\ 0x80 <= b1 <= 0xBF) then Z.land b0 31 * 64 + Z.land b1 63 :: runes r1
          else match r1 with
          | b2 :: r2 =>
              if bool_decide (0xE0 <= b0 <= 0xEF /\ (if decide (b0 = 0xE0) then 0xA0 else 0x80) <= b1 <= (if decide (b0 = 0xED) then 0x9F else 0xBF)) && cont b2
              then Z.land b0 15 * 4096 + Z.land b1 63 * 64 + Z.land b2 63 :: runes r2
              else match r2 with
              | b3 :: r3 =>
                  if bool_decide (0xF0 <= b0 <= 0xF4 /\ (if decide (b0 = 0xF0) then 0x90 else 0x80) <= b1 <= (if decide (b0 = 0xF4) then 0x8F else 0xBF)) && cont b2 && cont b3
                  then Z.land b0 7 * 262144 + Z.land b1 63 * 4096 + Z.land b2 63 * 64 + Z.land b3 63 :: runes r3
                  else 0xFFFD :: runes r0
              | [] => 0xFFFD :: runes r0
              end
          | [] => 0xFFFD :: runes r0
          end
      | [] => [0xFFFD]
      end
  end.

(** The tables of package [unicode]: the letters from 128 and the digits from
    256 on. *)
Class Unicode := { tableLetter : Z -> bool; tableDigit : Z -> bool }.

Section Names.
Context {U : Unicode}.

Definition isLetter (ch : Z) : bool :=
  bool_decide (97 <= ch <= 122) || bool_decide (65 <= ch <= 90) || bool_decide (ch = 95) || (bool_decide (128 <= ch) && tableLetter ch).

Definition IsDigit (ch : Z) : bool := if decide (ch < 256) then bool_decide (48 <= ch <= 57) else tableDigit ch.

Definition isValidFieldName (fieldName : list Z) : bool :=
  let l := runes fieldName in
  match l with [] => true | c :: _ => isLetter c end && forallb (fun c => isLetter c || IsDigit c) l && bool_decide (fieldName <> []).

(** ** Type expressions *)

Fixpoint span (f : Z -> bool) (l : list Z) : list Z * list Z :=
  match l with
  | [] => ([], [])
  | x :: r => if f x then let '(a, b) := span f r in (x :: a, b) else ([], l)
  end.

Definition alpha (c : Z) : bool := bool_decide (97 <= c <= 122) || bool_decide (65 <= c <= 90).
Definition digit (c : Z) : bool := bool_decide (48 <= c <= 57).

(** The first match of [typeRegex] with its groups 1, 2 and 3. *)
Definition typeRegex (t : list Z) : option (list Z * list Z * list Z * list Z) :=
  let '(_, l) := span (fun c => negb (alpha c)) t in
  let '(letters, l) := span alpha l in
  let '(ds, rest) := span digit l in
  if decide (letters = []) then None
  else if decide (ds = []) then Some (letters, letters, [], [])
  else let plain := Some (letters ++ ds, letters, ds, ds) in
       match rest with
       | 120 :: r => let '(ds2, _) := span digit r in
                     if decide (ds2 = []) then plain else Some (letters ++ ds ++ 120 :: ds2, letters, ds ++ 120 :: ds2, ds)
       | _ => plain
       end.

(** All matches of [[0-9]+]: [cur] is the run before the rest. *)
Fixpoint digitRuns (cur : list Z) (l : list Z) : list (list Z) :=
  match l with
  | [] => if decide (cur = []) then [] else [cur]
  | c :: l =>
      if digit c then digitRuns (cur ++ [c]) l
      else (if decide (cur = []) then [] else [cur]) ++ digitRuns [] l
  end.

(** [strconv.Atoi] on a non-empty string without a sign. *)
Definition Atoi (s : list Z) : abi Z :=
  if forallb digit s then
    let n := foldl (fun a c => a * 10 + (c - 48)) 0 s in
    if decide (n < 2 ^ 63) then aok n else aerr errSyntax
  else aerr errSyntax.

Definition count (c : Z) (l : list Z) : nat := length (filter (fun x => x = c) l).

(** [strings.LastIndex] of one byte, with the string cut there. *)
Fixpoint cutLast (c : Z) (l : list Z) : option (list Z * list Z) :=
  match l with
  | [] => None
  | x :: r => match cutLast c r with
              | Some (a, b) => Some (x :: a, b)
              | None => if decide (x = c) then Some ([], l) else None
              end
  end.

(** The type with its canonical text. *)
Record Type_ := mkType { typ : abiType; stringKind : list Z }.

(** The fields of a tuple and their text. *)
Definition tupleFields := list (list Z * list Z * abiType).

(** The part of [NewType] for types without brackets. *)
Definition baseType (t : list Z) (components : abi (tupleFields * list Z)) : abi Type_ :=
  match typeRegex t with
  | None => aerr errInvalidType
  | Some (whole, varType, group2, group3) =>
      varSize <-- (if decide (group3 <> []) then Atoi group2
                   else if decide (whole = lit "uint" \/ whole = lit "int") then aerr errUnsupported else aok 0);
      if decide (varType = lit "int") then aok (mkType (IntTy varSize) t)
      else if decide (varType = lit "uint") then aok (mkType (UintTy varSize) t)
      else if decide (varType = lit "bool") then aok (mkType BoolTy t)
      else if decide (varType = lit "address") then aok (mkType AddressTy t)
      else if decide (varType = lit "string") then aok (mkType StringTy t)
      else if decide (varType = lit "bytes") then
        if decide (varSize = 0) then aok (mkType BytesTy t)
        else if decide (varSize > 32) then aerr errUnsupported
        else aok (mkType (FixedBytesTy varSize) t)
      else if decide (varType = lit "tuple") then
        '(elems, expression) <-- components;
        aok (mkType (TupleTy elems) expression)
      else if decide (varType = lit "function") then aok (mkType FunctionTy t)
      else aerr errUnsupported
  end.

(** [NewType] with the brackets; every pair makes the text shorter. *)
Fixpoint bracketLoop (fuel : nat) (t : list Z) (components : abi (tupleFields * list Z)) : abi Type_ :=
  match fuel with
  | O => Stuck
  | S fuel =>
      if decide (count 91 t <> count 93 t) then aerr errArgType
      else match cutLast 91 t with
           | None => baseType t components
           | Some (before, sliced) =>
               embedded <-- bracketLoop fuel before components;
               match digitRuns [] sliced with
               | [] => aok (mkType (SliceTy (typ embedded)) (stringKind embedded ++ sliced))
               | [intz] => size <-- Atoi intz; aok (mkType (ArrayTy (typ embedded) size) (stringKind embedded ++ sliced))
               | _ => aerr errArrayFormat
               end
           end
  end.

(** The loop over the components: [rest] has their names and what [NewType]
    answers for them. *)
Fixpoint tupleLoop (rest : list (list Z * abi Type_)) (used : list (list Z)) (elems : tupleFields) (expression : list Z) : abi (tupleFields * list Z) :=
  match rest with
  | [] => aok (elems, expression ++ [41])
  | (rawName, result) :: rest =>
      cType <-- result;
      let name := ToCamelCase rawName in
      if decide (name = []) then aerr errAnonymousField
      else
        fieldName ← ResolveNameConflict (length used) name (fun s => bool_decide (s ∈ used));
        if isValidFieldName fieldName
        then tupleLoop rest (used ++ [fieldName]) (elems ++ [(rawName, fieldName, typ cType)])
               (expression ++ stringKind cType ++ if decide (rest = []) then [] else [44])
        else aerr errFieldName
  end.

Inductive ArgumentMarshaling := mkArgM { amName : list Z; amType : list Z; amComponents : list ArgumentMarshaling; amIndexed : bool }.

Fixpoint NewTypeOf (c : ArgumentMarshaling) : abi Type_ :=
  match c with
  | mkArgM _ t components _ => bracketLoop (S (length t)) t (tupleLoop (map (fun c => (amName c, NewTypeOf c)) components) [] [] [40])
  end.

Definition NewType (t : list Z) (components : list ArgumentMarshaling) : abi Type_ := NewTypeOf (mkArgM [] t components false).

Record Argument := mkArg { argName : list Z; argType : Type_; argIndexed : bool }.

Definition UnmarshalArgument (c : ArgumentMarshaling) : abi Argument :=
  t <-- NewTypeOf c; aok (mkArg (amName c) t (amIndexed c)).
End Names.
