(* ===== verification/AbiNames.v ===== *)
(** * Names and type expressions

    Proofs about [AbiType.v]: the search for an unused name ends, the parser of
    type expressions always answers, and it reads every type a contract can
    have back from its description, the text with the components of tuples. *)

From stdpp Require Import pretty.
From S2P Require Import Prelude Bytes AbiType.

Local Open Scope Z_scope.
Local Open Scope abi_scope.

(** ** Decimal numbers *)

Definition decimal (acc : Z) (s : list Z) : Z := foldl (fun a c => a * 10 + (c - 48)) acc s.

Lemma pretty_char x : (x < 10)%N -> Z.of_N (Ascii.N_of_ascii (pretty_N_char x)) = 48 + Z.of_N x.
Proof. intros H. destruct x as [|p]; [done|]. repeat (destruct p as [p|p|]; try done; try lia). Qed.

Lemma pretty_go x s : decimal 0 (lit (pretty_N_go x s)) = decimal (Z.of_N x) (lit s) /\ (Forall (fun c => digit c = true) (lit s) -> Forall (fun c => digit c = true) (lit (pretty_N_go x s))).
Proof.
  revert s. induction (N.lt_wf_0 x) as [x _ IH]; intros s. destruct (decide (x = 0)%N) as [->|Hx]; [by rewrite pretty_N_go_0|]. rewrite pretty_N_go_step by lia.
  pose proof (N.mod_lt x 10 ltac:(lia)) as Hm. destruct (IH (x `div` 10)%N ltac:(apply N.div_lt; lia) (String (pretty_N_char (x `mod` 10)) s)) as [H1 H2]. split.
  - rewrite H1. cbn [lit]. unfold decimal. cbn [foldl]. rewrite pretty_char by done. f_equal. pose proof (N.div_mod x 10 ltac:(lia)). lia.
  - intros Hs. apply H2. cbn [lit]. constructor; [|done]. rewrite pretty_char by done. unfold digit. apply bool_decide_eq_true. generalize dependent (x mod 10)%N. clear. intros y Hy. lia.
Qed.

Lemma itoa_spec n : decimal 0 (itoa n) = Z.of_nat n /\ Forall (fun c => digit c = true) (itoa n) /\ itoa n <> [].
Proof.
  unfold itoa, pretty, pretty_N. case_decide as Hn; [assert (n = 0)%nat as -> by lia; repeat split; try done; by repeat constructor|].
  destruct (pretty_go (N.of_nat n) "") as [H1 H2]. change (decimal (Z.of_N (N.of_nat n)) (lit "")) with (Z.of_N (N.of_nat n)) in H1. split; [lia|]. split; [apply H2; constructor|].
  intros He. rewrite He in H1. unfold decimal in H1. cbn in H1. lia.
Qed.

#[export] Instance itoa_inj : Inj (=) (=) itoa.
Proof. intros m n H. destruct (itoa_spec m) as [H1 _], (itoa_spec n) as [H2 _]. rewrite H in H1. lia. Qed.

(** ** Unused names *)

Lemma resolveLoop_done fuel idx rawName used name : (exists i, (idx <= i < idx + fuel)%nat /\ used (rawName ++ itoa i) = false) -> exists r, resolveLoop fuel idx rawName used name = Done r /\ used r = false.
Proof.
  revert idx name. induction fuel as [|fuel IH]; intros idx name (i & Hi & Hu); [lia|]. cbn [resolveLoop]. destruct (used name) eqn:E; [|by exists name].
  destruct (decide (i = idx)) as [->|Hn]; [|apply IH; exists i; split; [lia|done]]. destruct fuel; cbn [resolveLoop]; rewrite Hu; by eexists.
Qed.

(** As many tries as names are in use are enough. *)
Lemma ResolveNameConflict_done n rawName used (names : list (list Z)) : (forall s, used s = true -> s ∈ names) -> (length names <= n)%nat ->
  exists r, ResolveNameConflict n rawName used = Done r /\ used r = false.
Proof.
  intros Hu Hn. apply resolveLoop_done. destruct (decide (Exists (fun i => used (rawName ++ itoa i) = false) (seq 0 (S n)))) as [H|H].
  - apply Exists_exists in H as (i & Hi & H). exists i. apply elem_of_seq in Hi. split; [lia|done].
  - exfalso. apply not_Exists_Forall in H; [|intros i; apply _]. assert (length ((fun i => rawName ++ itoa i) <$> seq 0 (S n)) <= length names)%nat as Hl.
    + assert (Inj (=) (=) (fun i => rawName ++ itoa i)) by (intros i j Hij; by apply app_inv_head, itoa_inj in Hij). apply submseteq_length, NoDup_submseteq; [apply NoDup_fmap_2; [done|apply NoDup_seq]|]. intros s Hs. apply list_elem_of_fmap in Hs as (i & -> & Hi).
      apply Hu. rewrite Forall_forall in H. specialize (H i Hi). by apply not_false_iff_true in H.
    + rewrite length_fmap, length_seq in Hl. lia.
Qed.

Lemma ResolveNameConflict_free n rawName used : used rawName = false -> ResolveNameConflict n rawName used = Done rawName.
Proof. intros H. unfold ResolveNameConflict. cbn [resolveLoop]. by rewrite H. Qed.

(** ** Descriptions *)

(** The text of a type in a description, and the components that go with it. *)
Fixpoint typeText (t : abiType) : list Z :=
  match t with
  | IntTy n => lit "int" ++ itoa (Z.to_nat n)
  | UintTy n => lit "uint" ++ itoa (Z.to_nat n)
  | BoolTy => lit "bool"
  | StringTy => lit "string"
  | SliceTy e => typeText e ++ [91; 93]
  | ArrayTy e n => typeText e ++ [91] ++ itoa (Z.to_nat n) ++ [93]
  | TupleTy _ => lit "tuple"
  | AddressTy => lit "address"
  | FixedBytesTy n => lit "bytes" ++ itoa (Z.to_nat n)
  | BytesTy => lit "bytes"
  | FunctionTy => lit "function"
  | HashTy | FixedPointTy => []
  end.

Fixpoint typeComponents (t : abiType) : list ArgumentMarshaling :=
  match t with
  | SliceTy e | ArrayTy e _ => typeComponents e
  | TupleTy l => map (fun f => mkArgM f.1.1 (typeText f.2) (typeComponents f.2) false) l
  | _ => []
  end.

(** The canonical text, with the components of a tuple written out. *)
Fixpoint typeString (t : abiType) : list Z :=
  match t with
  | SliceTy e => typeString e ++ [91; 93]
  | ArrayTy e n => typeString e ++ [91] ++ itoa (Z.to_nat n) ++ [93]
  | TupleTy l => [40] ++ joinWith [44] (map (fun f => typeString f.2) l) ++ [41]
  | _ => typeText t
  end.

Section Describe.
Context {U : Unicode}.

(** The types that a contract can have. *)
Fixpoint describable (t : abiType) : Prop :=
  match t with
  | IntTy n | UintTy n => 0 <= n < 2 ^ 63
  | FixedBytesTy n => 1 <= n <= 32
  | SliceTy e => describable e
  | ArrayTy e n => 0 <= n < 2 ^ 63 /\ describable e
  | TupleTy l =>
      foldr and True (map (fun f => describable f.2) l) /\ NoDup (map (fun f => f.1.2) l) /\
      Forall (fun f => ToCamelCase f.1.1 = f.1.2 /\ f.1.2 <> [] /\ isValidFieldName f.1.2 = true) l
  | HashTy | FixedPointTy => False
  | _ => True
  end.

Lemma span_all f l1 l2 : Forall (fun c => f c = true) l1 -> (match l2 with [] => True | c :: _ => f c = false end) -> span f (l1 ++ l2) = (l1, l2).
Proof. induction 1 as [|c l1 Hc _ IH]; intros H2; [destruct l2 as [|c l2]; [done|]; cbn; by rewrite H2|]. cbn. rewrite Hc, IH by done. done. Qed.

Lemma digit_alpha c : digit c = true -> alpha c = false.
Proof. unfold digit, alpha. intros H%bool_decide_eq_true. rewrite !bool_decide_false by lia. done. Qed.

Lemma Atoi_itoa n : Z.of_nat n < 2 ^ 63 -> Atoi (itoa n) = aok (Z.of_nat n).
Proof.
  intros Hn. destruct (itoa_spec n) as (H1 & H2 & _). unfold Atoi. assert (forallb digit (itoa n) = true) as ->. { apply forallb_forall. rewrite Forall_forall in H2. intros c Hc. apply H2. by apply list_elem_of_In. }
  fold (decimal 0 (itoa n)). rewrite H1. by rewrite decide_True.
Qed.

(** A word followed by a number. *)
Lemma typeRegex_number w n : Forall (fun c => alpha c = true) w -> w <> [] -> typeRegex (w ++ itoa n) = Some (w ++ itoa n, w, itoa n, itoa n).
Proof.
  intros Hw Hn. destruct (itoa_spec n) as (_ & Hd & H0). unfold typeRegex.
  assert (span (fun c => negb (alpha c)) (w ++ itoa n) = ([], w ++ itoa n)) as -> by (apply (span_all _ []); [by constructor|]; destruct Hw as [|c w Hc]; [done|]; cbn; by rewrite Hc).
  rewrite span_all by first [done | destruct Hd as [|c l Hc]; [done|by apply digit_alpha]]. rewrite <-(app_nil_r (itoa n)) at 1. rewrite span_all by done. rewrite !decide_False by done. done.
Qed.

Lemma typeRegex_plain w : Forall (fun c => alpha c = true) w -> w <> [] -> typeRegex w = Some (w, w, [], []).
Proof.
  intros Hw Hn. unfold typeRegex. assert (span (fun c => negb (alpha c)) w = ([], w)) as -> by (apply (span_all _ []); [by constructor|]; destruct Hw as [|c w Hc]; [done|]; cbn; by rewrite Hc).
  rewrite <-(app_nil_r w) at 1. rewrite span_all by done. cbn [span]. by rewrite decide_False.
Qed.

Lemma digitRuns_all cur l : Forall (fun c => digit c = true) l -> digitRuns cur (l ++ [93]) = if decide (cur ++ l = []) then [] else [cur ++ l].
Proof.
  intros H. revert cur. induction H as [|c l Hc _ IH]; intros cur; [cbn; by rewrite !app_nil_r|]. cbn [app digitRuns]. rewrite Hc, IH. by rewrite <-app_assoc.
Qed.

Lemma cutLast_app c l r : c ∉ r -> cutLast c (l ++ c :: r) = Some (l, c :: r).
Proof.
  intros Hr. induction l as [|x l IH]; [|cbn [app cutLast]; by rewrite IH]. cbn [app cutLast]. assert (cutLast c r = None) as ->; [|by rewrite decide_True].
  induction r as [|y r IH]; [done|]. apply not_elem_of_cons in Hr as [H1 H2]. cbn. rewrite IH by done. by rewrite decide_False.
Qed.

Lemma cutLast_none c r : c ∉ r -> cutLast c r = None.
Proof. induction r as [|y r IH]; [done|]. intros [H1 H2]%not_elem_of_cons. cbn. rewrite IH by done. by rewrite decide_False. Qed.

Lemma count_app c l1 l2 : count c (l1 ++ l2) = (count c l1 + count c l2)%nat.
Proof. unfold count. by rewrite filter_app, length_app. Qed.

Lemma count_none c l : c ∉ l -> count c l = 0%nat.
Proof. intros H. unfold count. induction l as [|x l IH]; [done|]. apply not_elem_of_cons in H as [H1 H2]. rewrite filter_cons_False by done. by apply IH. Qed.

Lemma itoa_no_bracket n c : c = 91 \/ c = 93 -> c ∉ itoa n.
Proof. intros Hc Hin. destruct (itoa_spec n) as (_ & H & _). rewrite Forall_forall in H. specialize (H c Hin). unfold digit in H. apply bool_decide_eq_true in H. lia. Qed.

(** ** Parsing ends *)

Section Induction.
Context (P : ArgumentMarshaling -> Prop) (H : forall name t cs ix, Forall P cs -> P (mkArgM name t cs ix)).

Fixpoint ArgumentMarshaling_ind' (c : ArgumentMarshaling) : P c :=
  match c with
  | mkArgM name t cs ix =>
      H name t cs ix ((fix go (l : list ArgumentMarshaling) : Forall P l :=
                         match l with [] => Forall_nil_2 _ | c :: l => Forall_cons_2 _ _ _ (ArgumentMarshaling_ind' c) (go l) end) cs)
  end.
End Induction.

Lemma abind_done {A B} (m : abi A) (f : A -> abi B) : (exists r, m = Done r) -> (forall a, exists r, f a = Done r) -> exists r, abind m f = Done r.
Proof. intros [[e|a] ->] Hf; [by eexists|apply Hf]. Qed.

Lemma Atoi_done s : exists r, Atoi s = Done r.
Proof. unfold Atoi. destruct (forallb digit s); [|by eexists]. destruct (decide _); by eexists. Qed.

Lemma baseType_done t components : (exists r, components = Done r) -> exists r, baseType t components = Done r.
Proof.
  intros Hc. unfold baseType. destruct (typeRegex t) as [[[[whole varType] group2] group3]|]; [|by eexists]. apply abind_done.
  - destruct (decide _); [apply Atoi_done|]. destruct (decide _); by eexists.
  - intros varSize. repeat first [apply abind_done; [done|intros [? ?]] | match goal with |- context [decide ?Q] => destruct (decide Q) end]; by eexists.
Qed.

Lemma cutLast_shorter c l a b : cutLast c l = Some (a, b) -> (length a < length l)%nat.
Proof.
  revert a. induction l as [|x l IH]; intros a Hc; [done|]. cbn in Hc. destruct (cutLast c l) as [[a' b']|]; [|destruct (decide (x = c)); simplify_eq; cbn; lia].
  simplify_eq. cbn. specialize (IH a' eq_refl). lia.
Qed.

Lemma bracketLoop_done fuel t components : (length t < fuel)%nat -> (exists r, components = Done r) -> exists r, bracketLoop fuel t components = Done r.
Proof.
  intros Hf Hc. revert t Hf. induction fuel as [|fuel IH]; intros t Hf; [lia|]. cbn [bracketLoop]. destruct (decide _); [by eexists|].
  destruct (cutLast 91 t) as [[before sliced]|] eqn:E; [|by apply baseType_done]. apply cutLast_shorter in E. apply abind_done; [apply IH; lia|].
  intros e. destruct (digitRuns [] sliced) as [|i [|]]; [by eexists| |by eexists]. apply abind_done; [apply Atoi_done|by eexists].
Qed.

Lemma tupleLoop_done rest used elems expression : Forall (fun c => exists r, c.2 = Done r) rest -> exists r, tupleLoop rest used elems expression = Done r.
Proof.
  intros H. revert used elems expression. induction H as [|[rawName result] rest Hr _ IH]; intros used elems expression; [by eexists|]. cbn [tupleLoop]. apply abind_done; [done|]. intros cType.
  destruct (decide _); [by eexists|]. destruct (ResolveNameConflict_done (length used) (ToCamelCase rawName) (fun s => bool_decide (s ∈ used)) used) as (r & -> & _); [|done|].
  - intros s. apply bool_decide_eq_true.
  - cbn [mbind outcome_bind]. destruct (isValidFieldName r); [apply IH|by eexists].
Qed.

(** The parser of type expressions always answers, with a type or an error. *)
Lemma NewTypeOf_done c : exists r, NewTypeOf c = Done r.
Proof.
  induction c as [name t cs ix IH] using ArgumentMarshaling_ind'. cbn [NewTypeOf]. apply bracketLoop_done; [lia|]. apply tupleLoop_done, Forall_map. exact IH.
Qed.

(** ** A described type is read back *)

Definition read (fuel : nat) (t : abiType) : abi Type_ :=
  bracketLoop fuel (typeText t) (tupleLoop (map (fun c => (amName c, NewTypeOf c)) (typeComponents t)) [] [] [40]).

Definition readable (t : abiType) : Prop := describable t -> forall fuel, (length (typeText t) < fuel)%nat -> read fuel t = aok (mkType t (typeString t)).

Lemma typeText_balanced t : count 91 (typeText t) = count 93 (typeText t).
Proof.
  assert (forall w n, count 91 w = count 93 w -> count 91 (w ++ itoa n) = count 93 (w ++ itoa n)) as Hw by (intros w n H; by rewrite !count_app, !(count_none _ (itoa n)), H by (apply itoa_no_bracket; tauto)).
  induction t using abiType_ind'; cbn [typeText]; try reflexivity; try (by apply Hw).
  - by rewrite !count_app, IHt.
  - by rewrite !count_app, IHt, !(count_none _ (itoa _)) by (apply itoa_no_bracket; tauto).
Qed.

Lemma read_base fuel t : 91 ∉ typeText t -> read (S fuel) t = baseType (typeText t) (tupleLoop (map (fun c => (amName c, NewTypeOf c)) (typeComponents t)) [] [] [40]).
Proof. intros H. unfold read. cbn [bracketLoop]. rewrite decide_False by (intros Hn; apply Hn, typeText_balanced). by rewrite cutLast_none. Qed.

Lemma baseType_number w n components : Forall (fun c => alpha c = true) w -> w <> [] -> Z.of_nat n < 2 ^ 63 ->
  baseType (w ++ itoa n) components =
    if decide (w = lit "int") then aok (mkType (IntTy (Z.of_nat n)) (w ++ itoa n))
    else if decide (w = lit "uint") then aok (mkType (UintTy (Z.of_nat n)) (w ++ itoa n))
    else if decide (w = lit "bool") then aok (mkType BoolTy (w ++ itoa n))
    else if decide (w = lit "address") then aok (mkType AddressTy (w ++ itoa n))
    else if decide (w = lit "string") then aok (mkType StringTy (w ++ itoa n))
    else if decide (w = lit "bytes") then
      if decide (Z.of_nat n = 0) then aok (mkType BytesTy (w ++ itoa n))
      else if decide (Z.of_nat n > 32) then aerr errUnsupported
      else aok (mkType (FixedBytesTy (Z.of_nat n)) (w ++ itoa n))
    else if decide (w = lit "tuple") then '(elems, expression) <-- components; aok (mkType (TupleTy elems) expression)
    else if decide (w = lit "function") then aok (mkType FunctionTy (w ++ itoa n))
    else aerr errUnsupported.
Proof.
  intros Hw H0 Hn. destruct (itoa_spec n) as (_ & _ & Hi). unfold baseType. rewrite typeRegex_number by done. rewrite (decide_True _ _ Hi), Atoi_itoa by done. reflexivity.
Qed.

Lemma read_number w n fuel t : typeText t = lit w ++ itoa n -> Forall (fun c => alpha c = true) (lit w) -> lit w <> [] -> Z.of_nat n < 2 ^ 63 ->
  read (S fuel) t = baseType (lit w ++ itoa n) (tupleLoop (map (fun c => (amName c, NewTypeOf c)) (typeComponents t)) [] [] [40]).
Proof.
  intros Ht Hw H0 Hn. rewrite read_base; [by rewrite Ht|]. rewrite Ht, elem_of_app. intros [Hin|Hin]; [|by apply (itoa_no_bracket n 91); [left|]].
  rewrite Forall_forall in Hw. by specialize (Hw _ Hin).
Qed.

Lemma readable_slice e : readable e -> readable (SliceTy e).
Proof.
  intros IH Hd [|fuel] Hf; [lia|]. cbn [describable typeText] in *. rewrite length_app in Hf. cbn [length] in Hf. unfold read. cbn [bracketLoop].
  rewrite decide_False by (intros Hn; apply Hn, (typeText_balanced (SliceTy e))). cbn [typeText typeComponents]. rewrite (cutLast_app 91 (typeText e) [93]) by (intros Hin; by apply list_elem_of_singleton in Hin).
  fold (read fuel e). rewrite IH by (done || lia). reflexivity.
Qed.

Lemma readable_array e n : readable e -> readable (ArrayTy e n).
Proof.
  intros IH [Hn Hd] [|fuel] Hf; [lia|]. cbn [typeText] in *. rewrite !length_app in Hf. cbn [length] in Hf. unfold read. cbn [bracketLoop].
  rewrite decide_False by (intros Hx; apply Hx, (typeText_balanced (ArrayTy e n))). cbn [typeText typeComponents]. change ([91] ++ ?l) with (91 :: l).
  rewrite cutLast_app by (rewrite not_elem_of_app; split; [apply itoa_no_bracket; by left|intros Hin; by apply list_elem_of_singleton in Hin]).
  fold (read fuel e). rewrite IH by (done || lia). cbn [abind aok]. destruct (itoa_spec (Z.to_nat n)) as (_ & Hi & H0).
  assert (digitRuns [] (91 :: itoa (Z.to_nat n) ++ [93]) = [itoa (Z.to_nat n)]) as ->.
  - cbn [digitRuns]. change (digit 91) with false. cbn [app]. rewrite digitRuns_all by done. rewrite (decide_False (P := [] ++ itoa (Z.to_nat n) = [])) by done. reflexivity.
  - rewrite Atoi_itoa by lia. rewrite Z2Nat.id by lia. reflexivity.
Qed.

Lemma tupleLoop_fields (l : tupleFields) used elems expression :
  Forall (fun f => NewTypeOf (mkArgM f.1.1 (typeText f.2) (typeComponents f.2) false) = aok (mkType f.2 (typeString f.2))) l ->
  NoDup (used ++ map (fun f => f.1.2) l) ->
  Forall (fun f => ToCamelCase f.1.1 = f.1.2 /\ f.1.2 <> [] /\ isValidFieldName f.1.2 = true) l ->
  tupleLoop (map (fun c => (amName c, NewTypeOf c)) (typeComponents (TupleTy l))) used elems expression =
    aok (elems ++ l, expression ++ joinWith [44] (map (fun f => typeString f.2) l) ++ [41]).
Proof.
  intros H. revert used elems expression. induction H as [|[[raw name] t] l Ht _ IH]; intros used elems expression Hd Hv; [by rewrite app_nil_r|].
  apply Forall_cons in Hv as [(Hc & H0 & Hv) Hl]. cbn [fst snd] in *. cbn [typeComponents map tupleLoop amName fst snd]. rewrite Ht. cbn [abind aok]. rewrite Hc, decide_False by done.
  rewrite ResolveNameConflict_free by (apply bool_decide_eq_false; intros Hin; apply NoDup_app in Hd as (_ & Hd & _); apply (Hd name Hin); by left).
  cbn [mbind outcome_bind]. rewrite Hv. cbn [map fst snd] in Hd. fold (typeComponents (TupleTy l)). rewrite IH by (done || by rewrite <-app_assoc). cbn [typ stringKind]. rewrite <-app_assoc. do 2 f_equal.
  destruct l as [|f l]; [cbn; by rewrite app_nil_r, <-app_assoc|]. cbn [typeComponents map joinWith]. rewrite decide_False by done. by rewrite <-!app_assoc.
Qed.

Lemma readable_tuple l : Forall readable (map snd l) -> readable (TupleTy l).
Proof.
  intros IH (Hd & Hn & Hv) [|fuel] Hf; [lia|]. rewrite read_base by (cbn [typeText]; apply (bool_decide_unpack _); reflexivity).
  rewrite tupleLoop_fields; [reflexivity| |done|done].
  clear Hn Hv Hf. induction l as [|f l IHl]; [constructor|]. apply Forall_cons in IH as [H1 H2]. destruct Hd as [Hd1 Hd2]. constructor; [|by apply IHl]. exact (H1 Hd1 (S (length (typeText f.2))) (Nat.lt_succ_diag_r _)).
Qed.

(** Every type of a contract is read back from its description. *)
Lemma readable_all t : readable t.
Proof.
  induction t using abiType_ind'; try (by apply readable_slice || by apply readable_array || by apply readable_tuple).
  all: intros Hd [|fuel] Hf; [lia|]; try (destruct Hd; fail); try reflexivity.
  - rewrite (read_number "int" (Z.to_nat n)), baseType_number by first [reflexivity | done | cbn in Hd; lia | by repeat constructor]. cbn [describable] in Hd. rewrite Z2Nat.id by lia. reflexivity.
  - rewrite (read_number "uint" (Z.to_nat n)), baseType_number by first [reflexivity | done | cbn in Hd; lia | by repeat constructor]. cbn [describable] in Hd. rewrite Z2Nat.id by lia. reflexivity.
  - rewrite (read_number "bytes" (Z.to_nat n)), baseType_number by first [reflexivity | done | cbn in Hd; lia | by repeat constructor]. cbn [describable] in Hd. rewrite Z2Nat.id by lia.
    rewrite !(decide_False (P := lit "bytes" = _)), (decide_True (P := lit "bytes" = _)) by (reflexivity || discriminate). by rewrite !decide_False by lia.
Qed.

Lemma NewType_describe t : describable t -> NewType (typeText t) (typeComponents t) = aok (mkType t (typeString t)).
Proof. intros Hd. exact (readable_all t Hd (S (length (typeText t))) (Nat.lt_succ_diag_r _)). Qed.
End Describe.
