(* ===== verification/AbiCodec.v ===== *)
(** * ABI encoding and decoding

    [accounts/abi/pack.go], [unpack.go], [argument.go], the type checks of
    [error_handling.go], [reflect.go], and the numbers of [common/math/big.go].
    A reflected value is a [goType] with a [goVal]; a value that does not have its
    type does not occur in Go, and the functions panic on it.  The memory that a
    large array takes is not modelled. *)

From S2P Require Import Prelude Bytes RlpEncode AbiType.

Local Open Scope Z_scope.
Local Open Scope abi_scope.

(** ** Values *)

(** Numbers, also the [big.Int] behind a pointer; elements of slices and arrays and
    fields of structs are [GoSeq]. *)
Inductive goVal :=
| GoNum (z : Z)
| GoBool (b : bool)
| GoStr (s : list Z)
| GoSeq (vs : list goVal)
| GoNil
| GoPtr (v : goVal).

Definition goBytes (l : list Z) : goVal := GoSeq (map GoNum l).

(** The bytes of a slice or an array of bytes. *)
Fixpoint numsOf (vs : list goVal) : option (list Z) :=
  match vs with
  | [] => Some []
  | GoNum z :: vs => l ← numsOf vs; Some (z :: l)
  | _ => None
  end.

Definition bytesOf (t : goType) (v : goVal) : outcome (list Z) :=
  match t, v with
  | GSlice (GUint 8), GoSeq vs | GArray _ (GUint 8), GoSeq vs => match numsOf vs with Some l => Done l | None => Panic end
  | _, _ => Panic
  end.

Fixpoint fold_abi {A S : Type} (f : S -> A -> abi S) (l : list A) (s : S) : abi S :=
  match l with
  | [] => aok s
  | a :: l => s <-- f s a; fold_abi f l s
  end.

(** ** Numbers *)

Definition tt256m1 : Z := 2 ^ 256 - 1.
Definition U256 (x : Z) : Z := Z.land x tt256m1.

Definition ReadBits (bigint : Z) (buf : list Z) : outcome (list Z) :=
  '(_, buf) ← fold_outcome (fun st d => putWord 8 d st.1 st.2) (Bits bigint) (Z.of_nat (length buf), buf);
  Done buf.

Definition PaddedBigBytes (bigint : Z) (n : nat) : outcome (list Z) :=
  if decide (Z.of_nat n <= BitLen bigint `quot` 8) then Done (bigBytes (Z.abs bigint))
  else ReadBits bigint (replicate n 0).

Definition U256Bytes (n : Z) : outcome (list Z) := PaddedBigBytes (U256 n) 32.

(** ** Checks *)

(** The value behind the pointers; a nil pointer panics. *)
Fixpoint indirect (t : goType) (v : goVal) : outcome (goType * goVal) :=
  match t, v with
  | GPtr GBig, GoPtr _ => Done (t, v)
  | GPtr t, GoPtr v => indirect t v
  | GPtr _, _ => Panic
  | _, _ => Done (t, v)
  end.

Fixpoint sliceTypeCheck (t : abiType) (gt : goType) (v : goVal) : abi () :=
  let check (e : abiType) (size : option Z) (inner : goType -> goVal -> abi ()) : abi () :=
    match gt, v with
    | GSlice ge, GoSeq vs | GArray _ ge, GoSeq vs =>
        if match size with Some n => bool_decide (Z.of_nat (length vs) <> n) | None => false end then aerr errTypeCheck
        else match e, vs with
             | SliceTy _, v0 :: _ | ArrayTy _ _, v0 :: _ => inner ge v0
             | _, _ => if decide (Kind_ ge <> Kind_ (GetType e)) then aerr errTypeCheck else aok ()
             end
    | GSlice _, _ | GArray _ _, _ => Panic
    | _, _ => aerr errTypeCheck
    end in
  match t with
  | SliceTy e => check e None (sliceTypeCheck e)
  | ArrayTy e n => check e (Some n) (sliceTypeCheck e)
  | _ => Panic
  end.

Definition typeCheck (t : abiType) (gt : goType) (v : goVal) : abi () :=
  match t with
  | SliceTy _ | ArrayTy _ _ => sliceTypeCheck t gt v
  | _ =>
      if decide (Kind_ (GetType t) <> Kind_ gt) then aerr errTypeCheck
      else match t, v with
           | FixedBytesTy n, GoSeq vs => if decide (n <> Z.of_nat (length vs)) then aerr errTypeCheck else aok ()
           | FixedBytesTy _, _ => Panic
           | _, _ => aok ()
           end
  end.

(** ** Fields of structs *)

Abbreviation structFields := (list (list Z * list (list Z * list Z) * goType)) (only parsing).

(** [Tag.Lookup]. *)
Definition tagLookup (tags : list (list Z * list Z)) (key : list Z) : option (list Z) := (fun x => x.2.2) <$> list_find (fun kv => kv.1 = key) tags.

(** [FieldByName]: the index and the type. *)
Definition FieldByName (fields : structFields) (name : list Z) : option (nat * goType) := (fun x => (x.1, x.2.2)) <$> list_find (fun f => f.1.1 = name) fields.

(** The two maps of [mapArgNamesToStructFields]; a missing name is empty. *)
Record fieldMaps := mkMaps { abi2struct : gmap (list Z) (list Z); struct2abi : gmap (list Z) (list Z) }.
Definition fieldOf (m : gmap (list Z) (list Z)) (k : list Z) : list Z := default [] (m !! k).
Definition pair_ (arg field : list Z) (m : fieldMaps) : fieldMaps := mkMaps (<[arg := field]> (abi2struct m)) (<[field := arg]> (struct2abi m)).

(** First round: fields with a tag. *)
Definition tagRound (argNames : list (list Z)) (m : fieldMaps) (f : list Z * list (list Z * list Z) * goType) : abi fieldMaps :=
  let '(name, tags, _) := f in
  match name with
  | [] => Panic
  | c :: _ =>
      if decide (ToUpper1 c <> [c]) then aok m
      else match tagLookup tags (lit "abi") with
           | None => aok m
           | Some [] => aerr errTagEmpty
           | Some tagName =>
               '(m, found) <-- fold_abi (fun '(m, found) arg =>
                   if decide (arg = tagName) then
                     if decide (fieldOf (abi2struct m) arg <> []) then aerr errTagTwice else aok (pair_ arg name m, true)
                   else aok (m, found)) argNames (m, false);
               if (found : bool) then aok m else aerr errTagUnknown
           end
  end.

(** Second round: fields with the name of the argument. *)
Definition nameRound (fields : structFields) (m : fieldMaps) (argName : list Z) : abi fieldMaps :=
  let structFieldName := ToCamelCase argName in
  let valid := bool_decide (is_Some (FieldByName fields structFieldName)) in
  if decide (structFieldName = []) then aerr errUnderscored
  else if decide (fieldOf (abi2struct m) argName <> []) then
    if bool_decide (fieldOf (abi2struct m) argName <> structFieldName) && bool_decide (fieldOf (struct2abi m) structFieldName = []) && valid
    then aerr errTwoFields else aok m
  else if decide (fieldOf (struct2abi m) structFieldName <> []) then aerr errTwoOutputs
  else if valid then aok (pair_ argName structFieldName m)
  else aok (mkMaps (abi2struct m) (<[structFieldName := argName]> (struct2abi m))).

Definition mapArgNamesToStructFields (argNames : list (list Z)) (fields : structFields) : abi (gmap (list Z) (list Z)) :=
  m <-- fold_abi (tagRound argNames) fields (mkMaps ∅ ∅);
  m <-- fold_abi (nameRound fields) argNames m;
  aok (abi2struct m).

(** ** Packing *)

Definition packNum (gt : goType) (v : goVal) : outcome (list Z) :=
  match gt, v with
  | GUint _, GoNum z | GInt _, GoNum z | GPtr GBig, GoPtr (GoNum z) => U256Bytes z
  | _, _ => Panic
  end.

(** [packNum] of an [int]. *)
Definition packInt (l : Z) : outcome (list Z) := packNum (GInt 64) (GoNum l).

Definition packBytesSlice (bytes : list Z) (l : Z) : outcome (list Z) :=
  len ← packInt l;
  Done (len ++ RightPadBytes bytes (Z.to_nat ((l + 31) `quot` 32 * 32))).

Definition packElement (t : abiType) (gt : goType) (v : goVal) : abi (list Z) :=
  match t with
  | IntTy _ | UintTy _ => b ← packNum gt v; aok b
  | StringTy => match v with GoStr s => b ← packBytesSlice s (Z.of_nat (length s)); aok b | _ => Panic end
  | AddressTy => b ← bytesOf gt v; aok (LeftPadBytes b 32)
  | BoolTy => match v with GoBool b => b ← PaddedBigBytes (if b then 1 else 0) 32; aok b | _ => Panic end
  | BytesTy =>
      match gt with
      | GSlice (GUint 8) => b ← bytesOf gt v; b ← packBytesSlice b (Z.of_nat (length b)); aok b
      | _ => aerr errNotBytes
      end
  | FixedBytesTy _ | FunctionTy => b ← bytesOf gt v; aok (RightPadBytes b 32)
  | _ => aerr errUnknownType
  end.

(** The loop over the elements, which [f] packs; with [offsetReq] they go
    to the tail. *)
Fixpoint packSeq (f : goVal -> abi (list Z)) (offsetReq : bool) (vs : list goVal) (offset : Z) (ret tail : list Z) : abi (list Z) :=
  match vs with
  | [] => aok (ret ++ tail)
  | v :: vs =>
      val <-- f v;
      if offsetReq then
        num ← packInt offset;
        packSeq f offsetReq vs (i64 (offset + Z.of_nat (length val))) (ret ++ num) (tail ++ val)
      else packSeq f offsetReq vs offset (ret ++ val) tail
  end.

(** The loop over fields or arguments: each is dynamic or not, and packs to
    a result. *)
Fixpoint packHeads (items : list (bool * abi (list Z))) (offset : Z) (ret tail : list Z) : abi (list Z) :=
  match items with
  | [] => aok (ret ++ tail)
  | (dynamic, packed) :: items =>
      val <-- packed;
      if (dynamic : bool) then
        num ← packInt offset;
        packHeads items (i64 (offset + Z.of_nat (length val))) (ret ++ num) (tail ++ val)
      else packHeads items offset (ret ++ val) tail
  end.

Definition headSize (ts : list abiType) : Z := foldl (fun offset t => i64 (offset + getTypeSize t)) 0 ts.

Fixpoint pack (t : abiType) (gt : goType) (v : goVal) : abi (list Z) :=
  '(gt, v) ← indirect gt v;
  _ <-- typeCheck t gt v;
  match t with
  | SliceTy e | ArrayTy e _ =>
      match gt, v with
      | GSlice ge, GoSeq vs | GArray _ ge, GoSeq vs =>
          ret ← (if requiresLengthPrefix t then packInt (Z.of_nat (length vs)) else Done []);
          let offsetReq := isDynamicType e in
          packSeq (pack e ge) offsetReq vs (if offsetReq then i64 (getTypeSize e * Z.of_nat (length vs)) else 0) ret []
      | _, _ => Panic
      end
  | TupleTy l =>
      match gt, v with
      | GStruct fields, GoSeq vs =>
          fieldmap <-- mapArgNamesToStructFields (map (fun f => f.1.1) l) fields;
          packHeads (map (fun f => (isDynamicType f.2,
              match FieldByName fields (fieldOf fieldmap f.1.1) with
              | None => aerr errNoField
              | Some (i, ft) => match vs !! i with Some fv => pack f.2 ft fv | None => Panic end
              end)) l) (headSize (map snd l)) [] []
      | _, _ => Panic
      end
  | _ => packElement t gt v
  end.

(** [Arguments.Pack]. *)
Definition Pack (arguments : list Argument) (args : list (goType * goVal)) : abi (list Z) :=
  if decide (length args <> length arguments) then aerr errArgCount
  else packHeads (zip_with (fun a x => (isDynamicType (typ (argType a)), pack (typ (argType a)) x.1 x.2)) arguments args)
         (headSize (map (fun a => typ (argType a)) arguments)) [] [].

(** ** Unpacking *)

Definition uintErr (size : Z) : abiErr :=
  if decide (size = 8) then errBadUint8 else if decide (size = 16) then errBadUint16 else if decide (size = 32) then errBadUint32 else errBadUint64.
Definition intErr (size : Z) : abiErr :=
  if decide (size = 8) then errBadInt8 else if decide (size = 16) then errBadInt16 else if decide (size = 32) then errBadInt32 else errBadInt64.

Definition MaxUint256 : Z := 2 ^ 256 - 1.

(** [IsUint64] and [IsInt64] with the bounds of the sizes are one comparison. *)
Definition ReadInteger (unsigned : bool) (size : Z) (b : list Z) : abi goVal :=
  let ret := be_to_Z b in
  if unsigned then
    if decide (size ∈ [8; 16; 32; 64]) then if decide (2 ^ size - 1 < ret) then aerr (uintErr size) else aok (GoNum ret)
    else aok (GoPtr (GoNum ret))
  else
    let ret := if Z.testbit ret 255 then - (MaxUint256 + - ret + 1) else ret in
    if decide (size ∈ [8; 16; 32; 64]) then
      if decide (ret < - 2 ^ (size - 1) \/ 2 ^ (size - 1) - 1 < ret) then aerr (intErr size) else aok (GoNum ret)
    else aok (GoPtr (GoNum ret)).

Definition readBool (word : list Z) : abi bool :=
  front ← subslice word 0 31;
  if existsb (fun b => bool_decide (b <> 0)) front then aerr errBadBool
  else
    b ← index word 31;
    if decide (b = 0) then aok false else if decide (b = 1) then aok true else aerr errBadBool.

Definition readFunctionType (word : list Z) : abi (list Z) :=
  garbage ← subslice word 24 32;
  if decide (be_to_Z garbage <> 0) then aerr errFunction
  else l ← subslice word 0 24; aok l.

Definition ReadFixedBytes (size : Z) (word : list Z) : abi (list Z) := l ← subslice word 0 size; aok l.

Definition lengthPrefixPointsTo (index : Z) (output : list Z) : abi (Z * Z) :=
  let outputLength := Z.of_nat (length output) in
  w ← subslice output index (index + 32);
  let bigOffsetEnd := be_to_Z w + 32 in
  if decide (outputLength < bigOffsetEnd) then aerr errBoundary
  else if decide (63 < BitLen bigOffsetEnd) then aerr errOffset
  else
    w ← subslice output (bigOffsetEnd - 32) bigOffsetEnd;
    let lengthBig := be_to_Z w in
    let totalSize := bigOffsetEnd + lengthBig in
    if decide (63 < BitLen totalSize) then aerr errLength
    else if decide (outputLength < totalSize) then aerr errTooShort
    else aok (bigOffsetEnd, lengthBig).

Definition tuplePointsTo (index : Z) (output : list Z) : abi Z :=
  w ← subslice output index (index + 32);
  let offset := be_to_Z w in
  if decide (Z.of_nat (length output) < offset) then aerr errBoundary
  else if decide (63 < BitLen offset) then aerr errOffset
  else aok offset.

(** [size] elements from [i] on, [elemSize] apart; [f] reads the one at an
    index. *)
Fixpoint eachLoop (f : Z -> abi goVal) (elemSize : Z) (size : nat) (i : Z) (acc : list goVal) : abi goVal :=
  match size with
  | O => aok (GoSeq acc)
  | S size => v <-- f i; eachLoop f elemSize size (i64 (i + elemSize)) (acc ++ [v])
  end.

Definition forEachUnpack (f : Z -> abi goVal) (elemSize : Z) (output : list Z) (start size : Z) : abi goVal :=
  if decide (size < 0) then aerr errNegativeSize
  else if decide (Z.of_nat (length output) < i64 (start + 32 * size)) then aerr errBoundary
  else eachLoop f elemSize (Z.to_nat size) start [].

(** The words that a static array or tuple takes beyond the first. *)
Definition virtualWords (t : abiType) : Z :=
  match t with
  | ArrayTy _ _ | TupleTy _ => if isDynamicType t then 0 else getTypeSize t `quot` 32 - 1
  | _ => 0
  end.

(** The loop over fields or arguments; [items] has their virtual words and how
    they are read. *)
Fixpoint unpackLoop (items : list (Z * (Z -> abi goVal))) (index virtualArgs : Z) (acc : list goVal) : abi (list goVal) :=
  match items with
  | [] => aok acc
  | (extra, f) :: items =>
      v <-- f (i64 ((index + virtualArgs) * 32));
      unpackLoop items (index + 1) (virtualArgs + extra) (acc ++ [v])
  end.

Fixpoint toGoType (t : abiType) (index : Z) (output : list Z) : abi goVal :=
  let outputLength := Z.of_nat (length output) in
  if decide (outputLength < i64 (index + 32)) then aerr errTooShort
  else
    '(begin, len, returnOutput) <-- (if requiresLengthPrefix t
                                     then '(begin, len) <-- lengthPrefixPointsTo index output; aok (begin, len, [])
                                     else w ← subslice output index (index + 32); aok (0, 0, w));
    match t with
    | TupleTy l =>
        begin <-- (if isDynamicType t then tuplePointsTo index output else aok index);
        rest ← subslice output begin outputLength;
        vs <-- unpackLoop (map (fun f => (virtualWords f.2, fun i => toGoType f.2 i rest)) l) 0 0 [];
        aok (GoSeq vs)
    | SliceTy e =>
        rest ← subslice output begin outputLength;
        forEachUnpack (fun i => toGoType e i rest) (getTypeSize e) rest 0 len
    | ArrayTy e n =>
        begin <-- (if isDynamicType e then
                     w ← subslice returnOutput 24 32;
                     let offset := be_to_Z w in
                     if decide (outputLength < offset) then aerr errOffset else aok offset
                   else aok index);
        rest ← subslice output begin outputLength;
        forEachUnpack (fun i => toGoType e i rest) (getTypeSize e) rest 0 n
    | StringTy => s ← subslice output begin (begin + len); aok (GoStr s)
    | IntTy n => ReadInteger false n returnOutput
    | UintTy n => ReadInteger true n returnOutput
    | BoolTy => b <-- readBool returnOutput; aok (GoBool b)
    | AddressTy => aok (goBytes (BytesToAddress returnOutput))
    | HashTy => aok (goBytes (BytesToHash returnOutput))
    | BytesTy => s ← subslice output begin (begin + len); aok (goBytes s)
    | FixedBytesTy n => l <-- ReadFixedBytes n returnOutput; aok (goBytes l)
    | FunctionTy => l <-- readFunctionType returnOutput; aok (goBytes l)
    | FixedPointTy => aerr errUnknownType
    end.

(** ** Arguments *)

Definition NonIndexed (arguments : list Argument) : list Argument := filter (fun a => argIndexed a = false) arguments.

Definition UnpackValues (arguments : list Argument) (data : list Z) : abi (list goVal) :=
  unpackLoop (map (fun a => (virtualWords (typ (argType a)), fun i => toGoType (typ (argType a)) i data)) (NonIndexed arguments)) 0 0 [].

Definition Unpack (arguments : list Argument) (data : list Z) : abi (list goVal) :=
  if decide (data = []) then
    if decide (NonIndexed arguments <> []) then aerr errEmptyData else aok []
  else UnpackValues arguments data.
