(* ===== verification/AbiSpec.v ===== *)
(** * The ABI encoding

    The documented encoding as a definition of its own, [enc], and the proofs that
    [pack] writes it, that the decoder reads it back, and that the decoder ends
    with a value of the type or an error on all data. *)

From S2P Require Import Prelude Bytes RlpEncode AbiType AbiCodec.

Local Open Scope Z_scope.
Local Open Scope abi_scope.

(** ** Words *)

Definition word (z : Z) : list Z := be_of_Z 32 z.

Lemma be_eq l1 l2 : bytes_ok l1 -> bytes_ok l2 -> length l1 = length l2 -> be_to_Z l1 = be_to_Z l2 -> l1 = l2.
Proof. intros H1 H2 Hl He. rewrite <-(be_of_to_Z l1), <-(be_of_to_Z l2) by done. by rewrite Hl, He. Qed.

Lemma zeros_ok j : bytes_ok (replicate j 0).
Proof. apply Forall_replicate. by unfold byte_ok. Qed.
#[export] Hint Resolve zeros_ok : go.

Lemma be_of_Z_pad j k z : 0 <= z < 256 ^ Z.of_nat k -> be_of_Z (j + k) z = replicate j 0 ++ be_of_Z k z.
Proof.
  intros Hz. apply be_eq; [apply be_of_Z_ok|apply Forall_app_2; [apply zeros_ok|apply be_of_Z_ok]|by rewrite length_app, length_replicate, !length_be_of_Z|].
  rewrite be_to_Z_zeros, !be_to_of_Z, !Z.mod_small; [done|done|]. split; [lia|]. eapply Z.lt_le_trans; [apply Hz|]. apply Z.pow_le_mono_r; lia.
Qed.

Lemma be_of_Z_mod n z : be_of_Z n (z `mod` 256 ^ Z.of_nat n) = be_of_Z n z.
Proof. apply be_eq; [apply be_of_Z_ok..|by rewrite !length_be_of_Z|]. rewrite !be_to_of_Z. apply Z.mod_mod. lia. Qed.

Lemma ReadBits_word z : 0 <= z < 2 ^ 256 -> ReadBits z (replicate 32 0) = Done (word z).
Proof.
  intros Hz. unfold ReadBits, Bits. rewrite length_replicate. set (n := Z.to_nat _). pose proof (putWords_spec n (Z.abs z) 0 32 z ltac:(lia)) as HP.
  change (be_of_Z 0 z) with (@nil Z) in HP. rewrite app_nil_r in HP. rewrite HP by (right; rewrite Z.abs_eq by lia; cbn; by rewrite Z.div_1_r). cbn [mbind outcome_bind]. f_equal.
  assert (0 <= BitLen z <= 256) as HB.
  { unfold BitLen. case_decide; [lia|]. rewrite Z.abs_eq by lia. pose proof (Z.log2_nonneg z). pose proof (Z.log2_lt_pow2 z 256 ltac:(lia)) as [Hl _]. lia. }
  rewrite Nat.add_0_l. assert (n <= 4)%nat as Hn by (unfold n; pose proof (Z.div_lt_upper_bound (BitLen z + 63) 64 5 ltac:(lia) ltac:(lia)); lia).
  rewrite Nat.min_l by lia. unfold word. rewrite <-be_of_Z_pad; [f_equal; lia|]. split; [lia|].
  unfold n, BitLen in *. case_decide; [subst; cbn; lia|]. rewrite Z.abs_eq in * by lia. pose proof (Z.log2_spec z ltac:(lia)) as [_ Hs]. eapply Z.lt_le_trans; [exact Hs|].
  change 256 with (2 ^ 8). rewrite <-Z.pow_mul_r by lia. apply Z.pow_le_mono_r; [lia|]. pose proof (Z.log2_nonneg z).
  pose proof (Z.mul_succ_div_gt (Z.log2 z + 1 + 63) 64 ltac:(lia)). pose proof (Z.div_pos (Z.log2 z + 1 + 63) 64 ltac:(lia) ltac:(lia)). lia.
Qed.

Lemma PaddedBigBytes_word z : 0 <= z < 2 ^ 256 -> PaddedBigBytes z 32 = Done (word z).
Proof.
  intros Hz. unfold PaddedBigBytes. case_decide as Hb; [|by apply ReadBits_word].
  assert (255 <= Z.log2 z) as Hl.
  { unfold BitLen in Hb. case_decide; [done|]. rewrite Z.abs_eq in Hb by lia. pose proof (Z.log2_nonneg z). rewrite Z.quot_div_nonneg in Hb by lia.
    pose proof (Z.mul_div_le (Z.log2 z + 1) 8). lia. }
  rewrite Z.abs_eq by lia. do 2 f_equal. unfold bigBytes, word. f_equal. unfold nbytes. rewrite decide_False by (intros ?; rewrite Z.log2_nonpos in Hl by lia; lia).
  assert (Z.log2 z < 256) by (apply Z.log2_lt_pow2; [destruct (decide (z = 0)) as [->|]; [done|lia]|lia]). assert (Z.log2 z = 255) as -> by lia. done.
Qed.

Lemma U256Bytes_word z : U256Bytes z = Done (word z).
Proof.
  unfold U256Bytes, U256, tt256m1. change (2 ^ 256 - 1) with (Z.ones 256). rewrite Z.land_ones by lia. rewrite PaddedBigBytes_word by (apply Z.mod_pos_bound; lia).
  f_equal. unfold word. change (2 ^ 256) with (256 ^ Z.of_nat 32). apply be_of_Z_mod.
Qed.

Lemma packInt_word z : packInt z = Done (word z).
Proof. apply U256Bytes_word. Qed.

Lemma length_word z : length (word z) = 32%nat.
Proof. apply length_be_of_Z. Qed.

Lemma word_ok z : bytes_ok (word z).
Proof. apply be_of_Z_ok. Qed.

Lemma be_to_Z_word z : 0 <= z < 2 ^ 256 -> be_to_Z (word z) = z.
Proof. intros Hz. unfold word. rewrite be_to_of_Z. by apply Z.mod_small. Qed.

#[export] Hint Resolve word_ok : go.

(** ** Sizes *)

(** The bytes a value of the type takes in place. *)
Fixpoint headLen (t : abiType) : Z :=
  match t with
  | ArrayTy e n => if isDynamicType e then 32 else n * headLen e
  | TupleTy l => if isDynamicType t then 32 else foldr Z.add 0 (map (fun f => headLen f.2) l)
  | _ => 32
  end.

Definition headLens (ts : list abiType) : Z := foldr Z.add 0 (map headLen ts).

(** The sizes in the type can be computed with. *)
Fixpoint sizesOk (t : abiType) : Prop :=
  match t with
  | SliceTy e => sizesOk e
  | ArrayTy e n => 0 <= n < 2 ^ 56 /\ sizesOk e /\ headLen t < 2 ^ 61
  | TupleTy l => foldr and True (map (fun f => sizesOk f.2) l) /\ headLens (map snd l) < 2 ^ 61
  | FixedBytesTy n => 0 <= n <= 32
  | _ => True
  end.

Lemma Forall_foldr_and {A} (P : A -> Prop) l : foldr and True (map P l) <-> Forall P l.
Proof. induction l as [|a l IH]; simpl; [split; [constructor|done]|]. rewrite Forall_cons. tauto. Qed.

Lemma sizesOk_tuple l : sizesOk (TupleTy l) <-> Forall sizesOk (map snd l) /\ headLens (map snd l) < 2 ^ 61.
Proof. cbn [sizesOk]. by rewrite Forall_foldr_and, Forall_map. Qed.

Lemma headLens_tuple l : isDynamicType (TupleTy l) = false -> headLen (TupleTy l) = headLens (map snd l).
Proof. intros H. cbn [headLen]. rewrite H. unfold headLens. by rewrite map_map. Qed.

Lemma headLen_words t : sizesOk t -> 0 <= headLen t < 2 ^ 61 /\ (32 | headLen t).
Proof.
  induction t as [| | | |t IH|t n IH|l IH| | | | | | ] using abiType_ind'; intros H; try (split; [cbn; lia|by exists 1]).
  - destruct H as (Hn & Ht & Hs). destruct (IH Ht) as [Hl Hd]. split; [split; [|done]|]; cbn [headLen]; case_match; try lia; [by exists 1|]. by apply Z.divide_mul_r.
  - apply sizesOk_tuple in H as [H Hs]. destruct (isDynamicType (TupleTy l)) eqn:E; [cbn [headLen]; rewrite E; split; [lia|by exists 1]|]. rewrite headLens_tuple by done.
    assert (0 <= headLens (map snd l) /\ (32 | headLens (map snd l))); [|naive_solver]. clear Hs E. unfold headLens.
    induction l as [|f l IHl]; simpl in *; [split; [lia|by exists 0]|]. apply Forall_cons in IH as [IH IH2]. apply Forall_cons in H as [H H2]. destruct (IH H) as [? ?]. destruct (IHl IH2 H2) as [? ?].
    split; [lia|by apply Z.divide_add_r].
Qed.

Lemma foldl_sizes l acc : Forall (fun t => 0 <= headLen t) l -> 0 <= acc -> acc + headLens l < 2 ^ 63 ->
  foldl (fun total t => i64 (total + headLen t)) acc l = acc + headLens l.
Proof.
  unfold headLens. revert acc. induction l as [|t l IH]; intros acc Hl Ha Hs; simpl in *; [lia|]. apply Forall_cons in Hl as [Ht Hl].
  assert (0 <= foldr Z.add 0 (map headLen l)) by (clear - Hl; induction Hl; simpl; lia). rewrite i64_small by (unfold in_i64; lia). rewrite IH by (done || lia). lia.
Qed.

Lemma getTypeSize_headLen t : sizesOk t -> getTypeSize t = headLen t.
Proof.
  induction t as [| | | |t IH|t n IH|l IH| | | | | | ] using abiType_ind'; intros H; try done.
  - destruct H as (Hn & Ht & Hs). pose proof (headLen_words t Ht) as [Hl _]. cbn [getTypeSize headLen] in *. destruct (isDynamicType t) eqn:E; [done|].
    assert (i64 (n * headLen t) = n * headLen t) as Hi by (apply i64_small; unfold in_i64; split; [nia|lia]).
    destruct t; try exact Hi; by rewrite IH.
  - pose proof H as H0. apply sizesOk_tuple in H as [H Hs]. cbn [getTypeSize]. destruct (isDynamicType (TupleTy l)) eqn:E; [cbn [headLen]; by rewrite E|]. rewrite headLens_tuple by done.
    transitivity (foldl (fun total t => i64 (total + headLen t)) 0 (map snd l)).
    + clear Hs E H0. generalize 0 as acc. induction l as [|f l IHl]; intros acc; [done|]. simpl in *. apply Forall_cons in IH as [IH IH2]. apply Forall_cons in H as [H H2]. rewrite IH by done. by apply IHl.
    + rewrite foldl_sizes; [lia| |lia|lia]. eapply Forall_impl; [exact H|]. intros t Ht. apply (headLen_words t Ht).
Qed.

Lemma headLens_nonneg ts : Forall sizesOk ts -> 0 <= headLens ts.
Proof. unfold headLens. induction 1 as [|t l Ht _ IH]; simpl; [lia|]. pose proof (headLen_words t Ht). lia. Qed.

Lemma headSize_headLens ts : Forall sizesOk ts -> headLens ts < 2 ^ 61 -> headSize ts = headLens ts.
Proof.
  intros H Hs. unfold headSize. transitivity (foldl (fun total t => i64 (total + headLen t)) 0 ts).
  - generalize 0 as acc. clear Hs. induction H as [|t l Ht _ IH]; intros acc; [done|]. simpl. by rewrite getTypeSize_headLen.
  - rewrite foldl_sizes; [lia| |lia|lia]. eapply Forall_impl; [exact H|]. intros t Ht. apply (headLen_words t Ht).
Qed.

Lemma headLen_dynamic t : isDynamicType t = true -> headLen t = 32.
Proof. destruct t; try done; intros H; cbn [headLen]; [by cbn in H; rewrite H|by rewrite H]. Qed.

(** ** The encoding *)

(** A value goes to the tail if its type is dynamic, and the head has its
    offset. *)
Fixpoint heads (items : list (bool * list Z)) (offset : Z) : list Z :=
  match items with
  | [] => []
  | (true, d) :: items => word offset ++ heads items (offset + Z.of_nat (length d))
  | (false, d) :: items => d ++ heads items offset
  end.

Definition tails (items : list (bool * list Z)) : list Z := concat (map (fun i => if (i.1 : bool) then i.2 else []) items).
Definition itemLen (i : bool * list Z) : Z := if (i.1 : bool) then 32 else Z.of_nat (length i.2).
Definition itemLens (items : list (bool * list Z)) : Z := foldr Z.add 0 (map itemLen items).
Definition encTuple (items : list (bool * list Z)) : list Z := heads items (itemLens items) ++ tails items.

(** Zeros up to a multiple of 32. *)
Definition padded (b : list Z) : list Z := b ++ replicate ((length b + 31) / 32 * 32 - length b) 0.

(** The elements of a slice or an array, their numbers and bytes. *)
Definition seqOf (v : goVal) : list goVal := match v with GoSeq vs => vs | _ => [] end.
Definition numOf (v : goVal) : Z := match v with GoNum z | GoPtr (GoNum z) => z | _ => 0 end.
Definition rawOf (v : goVal) : list Z := match v with GoStr s => s | GoSeq vs => map numOf vs | _ => [] end.

Fixpoint enc (t : abiType) (v : goVal) : list Z :=
  match t with
  | IntTy _ | UintTy _ => word (numOf v)
  | BoolTy => word (match v with GoBool true => 1 | _ => 0 end)
  | StringTy | BytesTy => word (Z.of_nat (length (rawOf v))) ++ padded (rawOf v)
  | AddressTy => replicate (32 - length (rawOf v)) 0 ++ rawOf v
  | FixedBytesTy _ | FunctionTy => rawOf v ++ replicate (32 - length (rawOf v)) 0
  | SliceTy e => word (Z.of_nat (length (seqOf v))) ++ encTuple (map (fun v => (isDynamicType e, enc e v)) (seqOf v))
  | ArrayTy e _ => encTuple (map (fun v => (isDynamicType e, enc e v)) (seqOf v))
  | TupleTy l =>
      encTuple ((fix go (l : list (list Z * list Z * abiType)) (vs : list goVal) :=
                   match l, vs with f :: l, v :: vs => (isDynamicType f.2, enc f.2 v) :: go l vs | _, _ => [] end) l (seqOf v))
  | HashTy | FixedPointTy => []
  end.

Definition encItems (ts : list abiType) (vs : list goVal) : list (bool * list Z) := zip_with (fun t v => (isDynamicType t, enc t v)) ts vs.

Lemma enc_tuple l v : enc (TupleTy l) v = encTuple (encItems (map snd l) (seqOf v)).
Proof. cbn [enc]. f_equal. generalize (seqOf v) as vs. induction l as [|f l IH]; intros [|w vs]; try done. cbn [encItems map zip_with]. f_equal. apply IH. Qed.

(** ** Values of a type *)

(** The values of the Go type that stands for the type.  Integers of 8, 16, 32 and
    64 bits have Go types of their size; those of all other sizes are a
    [*big.Int], of which a word only says that it has 256 bits, whatever the size
    the type has.  [inRange] asks for that size. *)
Fixpoint valOk (t : abiType) (v : goVal) : Prop :=
  match t with
  | IntTy n =>
      if decide (n ∈ [8; 16; 32; 64]) then exists z, v = GoNum z /\ - 2 ^ (n - 1) <= z < 2 ^ (n - 1)
      else exists z, v = GoPtr (GoNum z) /\ - 2 ^ 255 <= z < 2 ^ 255
  | UintTy n =>
      if decide (n ∈ [8; 16; 32; 64]) then exists z, v = GoNum z /\ 0 <= z < 2 ^ n
      else exists z, v = GoPtr (GoNum z) /\ 0 <= z < 2 ^ 256
  | BoolTy => exists b, v = GoBool b
  | StringTy => exists s, v = GoStr s /\ bytes_ok s
  | BytesTy => exists l, v = goBytes l /\ bytes_ok l
  | AddressTy => exists l, v = goBytes l /\ bytes_ok l /\ length l = 20%nat
  | FixedBytesTy n => exists l, v = goBytes l /\ bytes_ok l /\ Z.of_nat (length l) = n
  | HashTy => exists l, v = goBytes l /\ bytes_ok l /\ length l = 32%nat
  | FunctionTy => exists l, v = goBytes l /\ bytes_ok l /\ length l = 24%nat
  | SliceTy e => exists vs, v = GoSeq vs /\ Forall (valOk e) vs
  | ArrayTy e n => exists vs, v = GoSeq vs /\ Forall (valOk e) vs /\ Z.of_nat (length vs) = n
  | TupleTy l =>
      exists vs, v = GoSeq vs /\
        (fix go (l : list (list Z * list Z * abiType)) (vs : list goVal) :=
           match l, vs with [], [] => True | f :: l, v :: vs => valOk f.2 v /\ go l vs | _, _ => False end) l vs
  | FixedPointTy => False
  end.

Lemma valOk_tuple l v : valOk (TupleTy l) v <-> exists vs, v = GoSeq vs /\ Forall2 valOk (map snd l) vs.
Proof.
  cbn [valOk]. apply exist_proper. intros vs. apply and_iff_compat_l. revert vs. induction l as [|f l IH]; intros [|w vs]; simpl.
  - split; [constructor|done].
  - split; [done|]. intros H. inversion H.
  - split; [done|]. intros H. inversion H.
  - rewrite Forall2_cons, <-IH. done.
Qed.

(** The numbers in the value are within the ranges of their own types. *)
Fixpoint inRange (t : abiType) (v : goVal) : Prop :=
  match t with
  | IntTy n => - 2 ^ (n - 1) <= numOf v < 2 ^ (n - 1)
  | UintTy n => 0 <= numOf v < 2 ^ n
  | SliceTy e | ArrayTy e _ => Forall (inRange e) (seqOf v)
  | TupleTy l =>
      (fix go (l : list (list Z * list Z * abiType)) (vs : list goVal) :=
         match l, vs with [], [] => True | f :: l, v :: vs => inRange f.2 v /\ go l vs | _, _ => False end) l (seqOf v)
  | _ => True
  end.

(** The sizes of integers for which reading checks the range. *)
Fixpoint checkedSizes (t : abiType) : Prop :=
  match t with
  | IntTy n | UintTy n => n ∈ [8; 16; 32; 64; 256]
  | SliceTy e | ArrayTy e _ => checkedSizes e
  | TupleTy l => foldr and True (map (fun f => checkedSizes f.2) l)
  | _ => True
  end.

Lemma checked_cases n : n ∈ [8; 16; 32; 64; 256] -> n ∉ [8; 16; 32; 64] -> n = 256.
Proof. rewrite !elem_of_cons, elem_of_nil. lia. Qed.

Lemma valOk_inRange t v : checkedSizes t -> valOk t v -> inRange t v.
Proof.
  revert v. induction t as [n|n| | |e IH|e n IH|l IH| |n| | | | ] using abiType_ind'; intros v Hc Hv; try exact I; cbn [checkedSizes valOk inRange] in *.
  - case_decide as Hn; [by destruct Hv as (z & -> & Hz)|]. apply checked_cases in Hc as ->; [|done]. by destruct Hv as (z & -> & Hz).
  - case_decide as Hn; [by destruct Hv as (z & -> & Hz)|]. apply checked_cases in Hc as ->; [|done]. by destruct Hv as (z & -> & Hz).
  - destruct Hv as (vs & -> & Hvs). cbn [seqOf]. eapply Forall_impl; [exact Hvs|]. intros w. by apply IH.
  - destruct Hv as (vs & -> & Hvs & _). cbn [seqOf]. eapply Forall_impl; [exact Hvs|]. intros w. by apply IH.
  - destruct Hv as (vs & -> & Hvs). cbn [seqOf]. revert vs Hvs. induction l as [|f l IHl]; intros [|w vs] Hvs; try done.
    destruct Hc as [Hc1 Hc2], Hvs as [H1 H2]. apply Forall_cons in IH as [IH1 IH2]. split; [by apply IH1|by apply IHl].
Qed.

(** The types that can be packed and read back: no place is empty, and the fields
    of a tuple are found by their names. *)
Fixpoint wfType (t : abiType) : Prop :=
  match t with
  | SliceTy e | ArrayTy e _ => wfType e /\ 0 < headLen e
  | TupleTy l =>
      foldr and True (map (fun f => wfType f.2 /\ 0 < headLen f.2 /\ ToCamelCase f.1.1 = f.1.2 /\ f.1.2 <> []) l) /\ NoDup (map (fun f => f.1.2) l)
  | HashTy | FixedPointTy => False
  | _ => True
  end.

Lemma wfType_tuple l : wfType (TupleTy l) <->
  Forall (fun f => wfType f.2 /\ 0 < headLen f.2 /\ ToCamelCase f.1.1 = f.1.2 /\ f.1.2 <> []) l /\ NoDup (map (fun f => f.1.2) l).
Proof. cbn [wfType]. by rewrite Forall_foldr_and. Qed.

Lemma wfType_elems l : wfType (TupleTy l) -> Forall wfType (map snd l) /\ Forall (fun t => 0 < headLen t) (map snd l).
Proof. intros [H _]%wfType_tuple. rewrite !Forall_map. split; (eapply Forall_impl; [exact H|]); by intros f (? & ? & _). Qed.

(** ** Lengths *)

Lemma map_numOf l : map numOf (map GoNum l) = l.
Proof. induction l as [|x l IH]; [done|]. cbn. by rewrite IH. Qed.

Lemma rawOf_goBytes l : rawOf (goBytes l) = l.
Proof. apply map_numOf. Qed.

Lemma length_heads items offset : Z.of_nat (length (heads items offset)) = itemLens items.
Proof.
  unfold itemLens. revert offset. induction items as [|[[] d] items IH]; intros offset; [done|..]; cbn [heads map foldr itemLen fst snd]; rewrite length_app, Nat2Z.inj_add, IH; [|done]. by rewrite length_word.
Qed.

Lemma length_encTuple items : Z.of_nat (length (encTuple items)) = itemLens items + Z.of_nat (length (tails items)).
Proof. unfold encTuple. by rewrite length_app, Nat2Z.inj_add, length_heads. Qed.

Lemma itemLens_nonneg items : 0 <= itemLens items.
Proof. rewrite <-(length_heads items 0). lia. Qed.

Lemma tails_cons i items : tails (i :: items) = (if (i.1 : bool) then i.2 else []) ++ tails items.
Proof. done. Qed.

Lemma encTuple_item items i : i ∈ items -> (length i.2 <= length (encTuple items))%nat.
Proof.
  intros Hi. apply Nat2Z.inj_le. rewrite length_encTuple. induction items as [|j items IH]; [by apply not_elem_of_nil in Hi|]. rewrite tails_cons, length_app.
  unfold itemLens. cbn [map foldr]. fold (itemLens items). pose proof (itemLens_nonneg items). apply elem_of_cons in Hi as [->|Hi].
  - destruct j as [[] d]; cbn [itemLen fst snd]; lia.
  - specialize (IH Hi). destruct j as [[] d]; cbn [itemLen fst snd]; lia.
Qed.

Lemma encItems_lens ts vs : Forall2 (fun t v => isDynamicType t = false -> Z.of_nat (length (enc t v)) = headLen t) ts vs -> itemLens (encItems ts vs) = headLens ts.
Proof.
  unfold itemLens, headLens. induction 1 as [|t v ts vs Ht _ IH]; [done|]. cbn [encItems zip_with map foldr]. f_equal; [|exact IH].
  unfold itemLen. cbn [fst snd]. destruct (isDynamicType t) eqn:E; [by rewrite headLen_dynamic|by apply Ht].
Qed.

Lemma tails_static items : Forall (fun i => i.1 = false) items -> tails items = [].
Proof. induction 1 as [|i items Hi _ IH]; [done|]. by rewrite tails_cons, Hi, IH. Qed.

Lemma heads_static items o : Forall (fun i => i.1 = false) items -> heads items o = concat (map snd items).
Proof. induction 1 as [|[b d] items Hi _ IH]; [done|]. cbn in Hi. subst b. cbn [heads map concat snd]. by rewrite IH. Qed.

(** The elements of a slice or an array are the items of a tuple. *)
Lemma encItems_seq e vs : map (fun v => (isDynamicType e, enc e v)) vs = encItems (replicate (length vs) e) vs.
Proof. induction vs as [|v vs IH]; [done|]. cbn. by rewrite IH. Qed.

Lemma headLens_replicate n e : headLens (replicate n e) = Z.of_nat n * headLen e.
Proof. unfold headLens. induction n as [|n IH]; [done|]. cbn [replicate map foldr]. rewrite IH. lia. Qed.

Lemma tuple_static l : isDynamicType (TupleTy l) = false -> Forall (fun t => isDynamicType t = false) (map snd l).
Proof. cbn [isDynamicType]. induction l as [|f l IH]; [constructor|]. cbn [existsb map]. intros [H1 H2]%orb_false_iff. constructor; [done|by apply IH]. Qed.

Lemma encItems_static ts vs : Forall (fun t => isDynamicType t = false) ts -> Forall (fun i : bool * list Z => i.1 = false) (encItems ts vs).
Proof. intros H. revert vs. induction H as [|t ts Ht _ IH]; intros [|v vs]; try constructor; [done|apply IH]. Qed.

Lemma static_items_length ts vs : Forall (fun t => isDynamicType t = false) ts ->
  Forall2 (fun t v => isDynamicType t = false -> Z.of_nat (length (enc t v)) = headLen t) ts vs -> Z.of_nat (length (encTuple (encItems ts vs))) = headLens ts.
Proof. intros Hs H. rewrite length_encTuple, tails_static by (by apply encItems_static). rewrite encItems_lens by done. cbn. lia. Qed.

Lemma enc_static t v : wfType t -> sizesOk t -> valOk t v -> isDynamicType t = false -> Z.of_nat (length (enc t v)) = headLen t.
Proof.
  revert v. induction t as [n|n| | |t IH|t n IH|l IH| |n| | | | ] using abiType_ind'; intros v Hw Hs Hv Hd; try done; cbn [enc headLen].
  - destruct Hv as (vs & -> & Hvs & Hn), Hw as [Hw _], Hs as (_ & Hs & _). cbn in Hd. cbn [seqOf]. rewrite encItems_seq, Hd, <-Hn, <-headLens_replicate.
    apply static_items_length; [by apply Forall_replicate|]. clear Hn. induction Hvs as [|w vs Hx _ IHv]; constructor; [|done]. intros _. by apply IH.
  - apply valOk_tuple in Hv as (vs & -> & Hvs). pose proof (tuple_static l Hd) as HT. pose proof (wfType_elems l Hw) as [HW _]. pose proof Hs as [HS _]%sizesOk_tuple.
    change (Z.of_nat (length (enc (TupleTy l) (GoSeq vs))) = headLen (TupleTy l)). rewrite enc_tuple, headLens_tuple by done. cbn [seqOf]. apply static_items_length; [done|].
    clear Hd HT Hw Hs. induction Hvs as [|t w ts vs Hx _ IHv]; constructor; [|].
    + apply Forall_cons in IH as [IH _], HW as [HW _], HS as [HS _]. by apply IH.
    + apply Forall_cons in IH as [_ IH], HW as [_ HW], HS as [_ HS]. by apply IHv.
  - destruct Hv as (b & -> & _ & Hb). rewrite rawOf_goBytes, length_app, length_replicate. lia.
  - destruct Hv as (b & -> & _ & Hb). rewrite rawOf_goBytes, length_app, length_replicate. cbn in Hs. lia.
  - destruct Hv as (b & -> & _ & Hb). rewrite rawOf_goBytes, length_app, length_replicate. lia.
Qed.

(** ** Packing *)

Lemma packHeads_spec rs items offset ret tail : Forall2 (fun r i => r = (i.1, aok i.2)) rs items -> 0 <= offset -> offset + Z.of_nat (length (tails items)) < 2 ^ 63 ->
  packHeads rs offset ret tail = aok (ret ++ heads items offset ++ tail ++ tails items).
Proof.
  intros H. revert offset ret tail. induction H as [|r [b d] rs items -> _ IH]; intros offset ret tail Ho Hl; [cbn; by rewrite app_nil_r|].
  rewrite tails_cons, length_app in Hl. rewrite tails_cons. cbn [packHeads abind aok fst snd] in *. destruct b.
  - rewrite packInt_word. cbn [mbind outcome_bind heads]. rewrite i64_small by (unfold in_i64; lia). rewrite IH by lia. by rewrite <-!app_assoc.
  - cbn [heads app]. rewrite IH by (simpl in Hl; lia). by rewrite <-!app_assoc.
Qed.

Lemma packSeq_heads f b vs offset ret tail : packSeq f b vs offset ret tail = packHeads (map (fun v => (b, f v)) vs) offset ret tail.
Proof. revert offset ret tail. induction vs as [|v vs IH]; intros offset ret tail; [done|]. cbn. destruct (f v) as [[|val]| |]; try done. cbn. destruct b; [|apply IH]. rewrite packInt_word. apply IH. Qed.

(** The items of a whole tuple. *)
Lemma packHeads_tuple rs items offset ret : Forall2 (fun r i => r = (i.1, aok i.2)) rs items -> Z.of_nat (length (encTuple items)) < 2 ^ 63 ->
  offset = itemLens items \/ Forall (fun i => i.1 = false) items /\ offset = 0 -> packHeads rs offset ret [] = aok (ret ++ encTuple items).
Proof.
  intros H Hl Ho. rewrite length_encTuple in Hl. pose proof (itemLens_nonneg items). rewrite (packHeads_spec rs items) by (done || destruct Ho as [->|[_ ->]]; lia).
  unfold encTuple. destruct Ho as [->|[Hs _]]; [done|]. by rewrite !heads_static by done.
Qed.

Lemma indirect_id t v : valOk t v -> indirect (GetType t) v = Done (GetType t, v).
Proof.
  destruct t; try done; cbn [valOk GetType]; unfold reflectIntType; intros H; case_decide as Hd; destruct H as (z & -> & _); cbn [andb].
  - by rewrite bool_decide_true by done.
  - by rewrite bool_decide_false by done.
  - by rewrite bool_decide_true by done.
  - by rewrite bool_decide_false by done.
Qed.

Lemma sliceTypeCheck_ok t v : match t with SliceTy _ | ArrayTy _ _ => True | _ => False end -> valOk t v -> sliceTypeCheck t (GetType t) v = aok ().
Proof.
  revert v. induction t as [| | | |e IH|e n IH| | | | | | | ] using abiType_ind'; intros v Ht Hv; try done.
  - destruct Hv as (vs & -> & Hvs). cbn [sliceTypeCheck GetType]. destruct e; try (by rewrite decide_False by (intros []; done)).
    all: destruct Hvs as [|w vs Hw Hvs]; [by rewrite decide_False by (intros []; done)|by apply IH].
  - destruct Hv as (vs & -> & Hvs & Hn). cbn [sliceTypeCheck GetType]. rewrite bool_decide_false by (by intros []). destruct e; try (by rewrite decide_False by (intros []; done)).
    all: destruct Hvs as [|w vs Hw Hvs]; [by rewrite decide_False by (intros []; done)|by apply IH].
Qed.

Lemma typeCheck_ok t v : valOk t v -> typeCheck t (GetType t) v = aok ().
Proof.
  intros Hv. destruct t; cbn [typeCheck]; try (by rewrite decide_False by (by intros [])); try (by apply sliceTypeCheck_ok).
  rewrite decide_False by (by intros []). destruct Hv as (l & -> & _ & Hl). cbn [goBytes]. by rewrite decide_False by (rewrite length_map; intros []; done).
Qed.

Lemma numsOf_map l : numsOf (map GoNum l) = Some l.
Proof. induction l as [|x l IH]; [done|]. cbn. by rewrite IH. Qed.

Lemma packBytesSlice_spec b : packBytesSlice b (Z.of_nat (length b)) = Done (word (Z.of_nat (length b)) ++ padded b).
Proof.
  unfold packBytesSlice. rewrite packInt_word. cbn [mbind outcome_bind]. do 2 f_equal. unfold RightPadBytes, padded.
  assert (Z.to_nat ((Z.of_nat (length b) + 31) `quot` 32 * 32) = ((length b + 31) / 32 * 32)%nat) as ->.
  { rewrite Z.quot_div_nonneg by lia. rewrite Z2Nat.inj_mul by (try apply Z.div_pos; lia). rewrite Z2Nat.inj_div by lia. rewrite Z2Nat.inj_add by lia. by rewrite Nat2Z.id. }
  case_decide; [|done]. replace (_ - _)%nat with 0%nat by lia. by rewrite app_nil_r.
Qed.

(** ** Fields of a tuple *)

Definition structOf (l : list (list Z * list Z * abiType)) : list (list Z * list (list Z * list Z) * goType) := map (fun f => (f.1.2, [(lit "json", f.1.1)], GetType f.2)) l.

Lemma FieldByName_nth l i f : NoDup (map (fun f => f.1.2) l) -> l !! i = Some f -> FieldByName (structOf l) f.1.2 = Some (i, GetType f.2).
Proof.
  intros Hn Hi. unfold FieldByName. assert (list_find (fun g => g.1.1 = f.1.2) (structOf l) = Some (i, (f.1.2, [(lit "json", f.1.1)], GetType f.2))) as ->; [|done].
  apply list_find_Some. unfold structOf. rewrite list_lookup_fmap, Hi. split; [done|]. split; [done|]. intros j g Hj Hlt. rewrite list_lookup_fmap in Hj. destruct (l !! j) as [g0|] eqn:E; [|done].
  injection Hj as <-. cbn. intros He. assert (j = i) as ->; [|lia]. eapply NoDup_lookup; [exact Hn| |]; rewrite list_lookup_fmap; [by rewrite E|]. rewrite Hi. cbn. by rewrite He.
Qed.

Lemma tagRounds_id names l m : Forall (fun f => f.1.2 <> []) l -> fold_abi (tagRound names) (structOf l) m = aok m.
Proof.
  induction 1 as [|[[raw name] t] l Hf _ IH]; [done|]. cbn [structOf map fold_abi fst snd] in *. unfold tagRound at 1. destruct name as [|c name]; [done|].
  assert (tagLookup [(lit "json", raw)] (lit "abi") = None) as -> by done. by case_decide; cbn [abind aok].
Qed.

(** The fields [l1] have been paired. *)
Record paired (l1 : list (list Z * list Z * abiType)) (m : fieldMaps) : Prop := {
  pd_field : forall f, f ∈ l1 -> abi2struct m !! f.1.1 = Some f.1.2;
  pd_arg : forall a x, abi2struct m !! a = Some x -> exists f, f ∈ l1 /\ f.1.1 = a;
  pd_name : forall n x, struct2abi m !! n = Some x -> exists f, f ∈ l1 /\ f.1.2 = n
}.

Lemma nameRounds_paired l l1 l2 m : l = l1 ++ l2 -> Forall (fun f => ToCamelCase f.1.1 = f.1.2 /\ f.1.2 <> []) l -> NoDup (map (fun f => f.1.2) l) -> paired l1 m ->
  exists m', fold_abi (nameRound (structOf l)) (map (fun f => f.1.1) l2) m = aok m' /\ paired l m'.
Proof.
  intros Hl Hf Hn. revert l1 m Hl. induction l2 as [|f l2 IH]; intros l1 m Hl HP; [exists m; rewrite Hl, app_nil_r; split; [done|by rewrite Hl, app_nil_r in *]|].
  assert (l !! length l1 = Some f) as Hi by (by rewrite Hl, lookup_app_r, Nat.sub_diag by lia).
  assert (forall g, g ∈ l1 -> g.1.2 <> f.1.2) as Hd.
  { intros g Hg He. rewrite Hl, map_app in Hn. apply NoDup_app in Hn as (_ & Hn & _). apply (Hn g.1.2); [by apply (list_elem_of_fmap_2 (fun f => f.1.2))|]. rewrite He. by left. }
  destruct (proj1 (Forall_lookup _ l) Hf _ f Hi) as [Hc H0].
  assert (abi2struct m !! f.1.1 = None) as H1.
  { apply eq_None_not_Some. intros [x Hx]. destruct (pd_arg _ _ HP _ _ Hx) as (g & Hg & He). apply (Hd g Hg). assert (g ∈ l) as Hgl by (rewrite Hl; apply elem_of_app; by left).
    rewrite Forall_forall in Hf. destruct (Hf g Hgl) as [<- _]. by rewrite He. }
  assert (struct2abi m !! f.1.2 = None) as H2 by (apply eq_None_not_Some; intros [x Hx]; destruct (pd_name _ _ HP _ _ Hx) as (g & Hg & He); by apply (Hd g Hg)).
  cbn [map fold_abi]. unfold nameRound at 1. rewrite Hc, (FieldByName_nth l (length l1)) by done. rewrite decide_False by done. unfold fieldOf. rewrite H1, H2. cbn [default from_option].
  rewrite (decide_False (P := [] <> [])) by (intros []; done). rewrite (decide_False (P := [] <> [])) by (intros []; done). rewrite bool_decide_true by (by eexists). cbn [abind aok].
  apply (IH (l1 ++ [f])); [by rewrite <-app_assoc|]. unfold pair_. split; cbn [abi2struct struct2abi].
  - intros g [Hg| ->%list_elem_of_singleton]%elem_of_app; [|apply lookup_insert_eq]. rewrite lookup_insert_ne; [by apply (pd_field _ _ HP)|]. intros He. pose proof (pd_field _ _ HP g Hg) as Hx. by rewrite <-He, H1 in Hx.
  - intros a x [[<- _]|[_ Hx]]%lookup_insert_Some; [exists f; split; [apply elem_of_app; right; by left|done]|]. destruct (pd_arg _ _ HP _ _ Hx) as (g & Hg & He). exists g. split; [apply elem_of_app; by left|done].
  - intros a x [[<- _]|[_ Hx]]%lookup_insert_Some; [exists f; split; [apply elem_of_app; right; by left|done]|]. destruct (pd_name _ _ HP _ _ Hx) as (g & Hg & He). exists g. split; [apply elem_of_app; by left|done].
Qed.

Lemma fields_found l : Forall (fun f => ToCamelCase f.1.1 = f.1.2 /\ f.1.2 <> []) l -> NoDup (map (fun f => f.1.2) l) ->
  exists m, mapArgNamesToStructFields (map (fun f => f.1.1) l) (structOf l) = aok m /\ forall f, f ∈ l -> fieldOf m f.1.1 = f.1.2.
Proof.
  intros Hf Hn. unfold mapArgNamesToStructFields. rewrite tagRounds_id by (eapply Forall_impl; [exact Hf|]; by intros f [_ ?]). cbn [abind aok].
  destruct (nameRounds_paired l [] l (mkMaps ∅ ∅) eq_refl Hf Hn) as (m & -> & HP); [split; [by intros f ?%not_elem_of_nil|by intros a x; cbn; rewrite lookup_empty..]|].
  cbn [abind aok]. exists (abi2struct m). split; [done|]. intros f Hi. unfold fieldOf. by rewrite (pd_field _ _ HP f Hi).
Qed.

(** ** [pack] writes the encoding *)

Lemma packElement_enc t v : wfType t -> sizesOk t -> valOk t v -> match t with SliceTy _ | ArrayTy _ _ | TupleTy _ => False | _ => True end ->
  packElement t (GetType t) v = aok (enc t v).
Proof.
  intros Hw Hs Hv Ht. destruct t as [n|n| | | | | | |n| | | | ]; try done; cbn [packElement enc valOk GetType] in *; unfold bytesOf, byteType.
  - unfold reflectIntType. cbn [andb]. case_decide as Hn; destruct Hv as (z & -> & _); [rewrite bool_decide_true by done|rewrite bool_decide_false by done]; cbn [packNum]; by rewrite U256Bytes_word.
  - unfold reflectIntType. cbn [andb]. case_decide as Hn; destruct Hv as (z & -> & _); [rewrite bool_decide_true by done|rewrite bool_decide_false by done]; cbn [packNum]; by rewrite U256Bytes_word.
  - destruct Hv as [b ->]. rewrite PaddedBigBytes_word by (destruct b; lia). by destruct b.
  - destruct Hv as (s & -> & _). by rewrite packBytesSlice_spec.
  - destruct Hv as (l & -> & _ & Hl). cbn [goBytes]. rewrite numsOf_map. cbn [mbind outcome_bind]. unfold LeftPadBytes. rewrite decide_False by lia. by rewrite rawOf_goBytes.
  - destruct Hv as (l & -> & _ & Hl). cbn [goBytes]. rewrite numsOf_map. cbn [mbind outcome_bind]. unfold RightPadBytes. rewrite rawOf_goBytes. case_decide; [|done].
    replace (32 - length l)%nat with 0%nat by lia. by rewrite app_nil_r.
  - destruct Hv as (l & -> & _). cbn [goBytes]. rewrite numsOf_map. cbn [mbind outcome_bind]. by rewrite packBytesSlice_spec, rawOf_goBytes.
  - destruct Hv as (l & -> & _ & Hl). cbn [goBytes]. rewrite numsOf_map. cbn [mbind outcome_bind]. unfold RightPadBytes. rewrite decide_False by lia. by rewrite rawOf_goBytes.
Qed.

Lemma enc_elem e vs v : v ∈ vs -> (length (enc e v) <= length (encTuple (encItems (replicate (length vs) e) vs)))%nat.
Proof. intros Hv. rewrite <-encItems_seq. apply (encTuple_item _ (isDynamicType e, enc e v)). by apply (list_elem_of_fmap_2 (fun v => (isDynamicType e, enc e v))). Qed.

(** The elements of a slice or an array behind [ret]. *)
Lemma packSeq_enc e ge vs ret : wfType e -> sizesOk e -> Forall (valOk e) vs -> (forall v, v ∈ vs -> pack e ge v = aok (enc e v)) ->
  Z.of_nat (length (encTuple (encItems (replicate (length vs) e) vs))) < 2 ^ 62 ->
  packSeq (pack e ge) (isDynamicType e) vs (if isDynamicType e then i64 (getTypeSize e * Z.of_nat (length vs)) else 0) ret [] = aok (ret ++ encTuple (encItems (replicate (length vs) e) vs)).
Proof.
  intros Hw Hs Hv Hp Hl. rewrite packSeq_heads. apply packHeads_tuple; [|lia|].
  - rewrite <-encItems_seq. clear Hl Hv. induction vs as [|v vs IH]; constructor; [cbn; by rewrite Hp by (by left)|]. apply IH. intros w Hw'. apply Hp. by right.
  - destruct (isDynamicType e) eqn:E; [left|right; split; [|done]; apply encItems_static; by apply Forall_replicate].
    assert (itemLens (encItems (replicate (length vs) e) vs) = Z.of_nat (length vs) * 32) as Hi.
    { rewrite encItems_lens, headLens_replicate, headLen_dynamic; [done|done|]. clear - E. induction vs; constructor; [|done]. by rewrite E. }
    rewrite length_encTuple, Hi in Hl. rewrite getTypeSize_headLen, headLen_dynamic, Hi by done. rewrite i64_small by (unfold in_i64; lia). lia.
Qed.

Lemma pack_eq t v : valOk t v -> pack t (GetType t) v =
  match t with
  | SliceTy e | ArrayTy e _ =>
      ret ← (if requiresLengthPrefix t then packInt (Z.of_nat (length (seqOf v))) else Done []);
      packSeq (pack e (GetType e)) (isDynamicType e) (seqOf v) (if isDynamicType e then i64 (getTypeSize e * Z.of_nat (length (seqOf v))) else 0) ret []
  | TupleTy l =>
      fieldmap <-- mapArgNamesToStructFields (map (fun f => f.1.1) l) (structOf l);
      packHeads (map (fun f => (isDynamicType f.2,
          match FieldByName (structOf l) (fieldOf fieldmap f.1.1) with
          | None => aerr errNoField
          | Some (i, ft) => match seqOf v !! i with Some fv => pack f.2 ft fv | None => Panic end
          end)) l) (headSize (map snd l)) [] []
  | _ => packElement t (GetType t) v
  end.
Proof.
  intros Hv. pose proof (indirect_id t v Hv) as Hi. pose proof (typeCheck_ok t v Hv) as Hc. destruct t; cbn [pack]; rewrite Hi; cbn [mbind outcome_bind]; rewrite Hc; cbn [abind aok]; try done; cbn [valOk] in Hv.
  - by destruct Hv as (vs & -> & _).
  - by destruct Hv as (vs & -> & _).
  - by destruct Hv as (vs & -> & _).
Qed.

Lemma pack_enc t v : wfType t -> sizesOk t -> valOk t v -> Z.of_nat (length (enc t v)) < 2 ^ 62 -> pack t (GetType t) v = aok (enc t v).
Proof.
  revert v. induction t as [n|n| | |e IH|e n IH|l IH| |n| | | | ] using abiType_ind'; intros v Hw Hs Hv Hl; rewrite (pack_eq _ v Hv); try (by apply packElement_enc).
  - destruct Hv as (vs & -> & Hvs), Hw as [Hw _]. cbn [requiresLengthPrefix seqOf enc] in *. rewrite packInt_word. cbn [mbind outcome_bind]. rewrite encItems_seq in *. rewrite length_app, length_word in Hl.
    apply packSeq_enc; try done; [|lia]. intros v Hv. apply IH; [done|done|by eapply Forall_forall|]. pose proof (enc_elem e vs v Hv). lia.
  - destruct Hv as (vs & -> & Hvs & _), Hw as [Hw _], Hs as (_ & Hs & _). cbn [requiresLengthPrefix seqOf enc] in *. cbn [mbind outcome_bind]. rewrite encItems_seq in *.
    change (encTuple ?x) with ([] ++ encTuple x). apply packSeq_enc; try done. intros v Hv. apply IH; [done|done|by eapply Forall_forall|]. pose proof (enc_elem e vs v Hv). lia.
  - pose proof Hv as (vs & -> & Hvs)%valOk_tuple. pose proof (wfType_elems l Hw) as [HW _]. pose proof Hs as [HS HL]%sizesOk_tuple. apply wfType_tuple in Hw as [Hf Hn].
    destruct (fields_found l) as (m & -> & Hm); [eapply Forall_impl; [exact Hf|]; naive_solver|done|]. cbn [abind aok seqOf]. rewrite enc_tuple in *. cbn [seqOf] in *.
    change (encTuple ?x) with ([] ++ encTuple x). apply packHeads_tuple; [|lia|left].
    + apply Forall2_same_length_lookup. pose proof (Forall2_length _ _ _ Hvs) as Hlen. rewrite length_map in Hlen. unfold encItems. rewrite length_zip_with, !length_map. split; [lia|].
      intros i r [b d] Hr Hd. rewrite list_lookup_fmap in Hr. destruct (l !! i) as [f|] eqn:Ef; [|done]. injection Hr as <-.
      destruct (vs !! i) as [w|] eqn:Ew; [|apply lookup_ge_None in Ew; apply lookup_lt_Some in Ef; lia]. assert ((map snd l) !! i = Some f.2) as Em by (by rewrite list_lookup_fmap, Ef).
      pose proof Hd as Hin. rewrite lookup_zip_with, Em, Ew in Hd. injection Hd as <- <-. cbn [fst snd]. f_equal.
      rewrite Hm by (by eapply list_elem_of_lookup_2). rewrite (FieldByName_nth l i) by done. rewrite Ew. apply (proj1 (Forall_lookup _ _) IH i _ Em).
      * by eapply Forall_lookup in HW. * by eapply Forall_lookup in HS. * by eapply Forall2_lookup_lr in Hvs.
      * pose proof (encTuple_item _ _ (list_elem_of_lookup_2 _ _ _ Hin)) as Hi. fold (encItems (map snd l) vs) in Hi. cbn [snd] in Hi. lia.
    + rewrite headSize_headLens by done. symmetry. apply encItems_lens. clear IH Hf Hn Hm Hl HL Hs Hv m. induction Hvs as [|t w ts vs Hx _ IHv]; constructor.
      * apply Forall_cons in HW as [HW _], HS as [HS _]. by apply enc_static.
      * apply Forall_cons in HW as [_ HW], HS as [_ HS]. by apply IHv.
Qed.

(** ** Whole words *)

Lemma encTuple_divide items : Forall (fun i => (32 | Z.of_nat (length i.2))) items -> (32 | Z.of_nat (length (encTuple items))).
Proof.
  intros H. rewrite length_encTuple. induction H as [|[b d] items Hd _ IH]; [by exists 0|]. rewrite tails_cons, length_app. unfold itemLens. cbn [map foldr itemLen fst snd] in *. fold (itemLens items). destruct b.
  - change (itemLen (true, d)) with 32. replace (32 + itemLens items + Z.of_nat (length d + length (tails items))) with (32 + (Z.of_nat (length d) + (itemLens items + Z.of_nat (length (tails items))))) by lia. apply Z.divide_add_r; [by exists 1|]. by apply Z.divide_add_r.
  - change (itemLen (false, d)) with (Z.of_nat (length d)). cbn [length Nat.add]. replace (Z.of_nat (length d) + itemLens items + Z.of_nat (length (tails items))) with (Z.of_nat (length d) + (itemLens items + Z.of_nat (length (tails items)))) by lia. by apply Z.divide_add_r.
Qed.

Lemma padded_divide b : (32 | Z.of_nat (length (padded b))).
Proof.
  unfold padded. rewrite length_app, length_replicate. exists (Z.of_nat ((length b + 31) / 32)). pose proof (Nat.div_mod (length b + 31) 32 ltac:(lia)). pose proof (Nat.mod_upper_bound (length b + 31) 32 ltac:(lia)). lia.
Qed.

Lemma encItems_divide ts vs : Forall2 (fun t v => (32 | Z.of_nat (length (enc t v)))) ts vs -> (32 | Z.of_nat (length (encTuple (encItems ts vs)))).
Proof. intros H. apply encTuple_divide. induction H as [|t v ts vs Ht _ IH]; [constructor|]. by constructor. Qed.

Lemma enc_divide t v : wfType t -> sizesOk t -> valOk t v -> (32 | Z.of_nat (length (enc t v))).
Proof.
  revert v. induction t as [n|n| | |e IH|e n IH|l IH| |n| | | | ] using abiType_ind'; intros v Hw Hs Hv; try done.
  all: try (rewrite enc_static by done; by exists 1).
  - cbn [enc]. rewrite length_app, length_word, Nat2Z.inj_add. apply Z.divide_add_r; [by exists 1|apply padded_divide].
  - destruct Hv as (vs & -> & Hvs), Hw as [Hw _]. cbn [enc seqOf]. rewrite length_app, length_word, Nat2Z.inj_add, encItems_seq. apply Z.divide_add_r; [by exists 1|]. apply encItems_divide. induction Hvs; constructor; auto.
  - destruct Hv as (vs & -> & Hvs & _), Hw as [Hw _], Hs as (_ & Hs & _). cbn [enc seqOf]. rewrite encItems_seq. apply encItems_divide. induction Hvs; constructor; auto.
  - apply valOk_tuple in Hv as (vs & -> & Hvs). pose proof (wfType_elems l Hw) as [HW _]. pose proof Hs as [HS _]%sizesOk_tuple. rewrite enc_tuple. cbn [seqOf]. apply encItems_divide. clear Hw Hs.
    induction Hvs as [|t w ts vs Hx _ IHv]; constructor; apply Forall_cons in IH as [IH ?], HW as [HW ?], HS as [HS ?]; [by apply IH|by apply IHv].
  - cbn [enc]. rewrite length_app, length_word, Nat2Z.inj_add. apply Z.divide_add_r; [by exists 1|apply padded_divide].
Qed.
