(* ===== verification/AbiRead.v ===== *)
(** * Reading the ABI encoding

    The decoder of [accounts/abi/unpack.go] reads the encoding of [AbiSpec]
    back, wherever it stands in the data; on any data it ends with a value of the type
    or an error. *)

From S2P Require Import Prelude Bytes RlpEncode AbiType AbiCodec AbiSpec.

Local Open Scope Z_scope.
Local Open Scope abi_scope.

(** ** Places *)

(** [d] stands at [i]. *)
Definition standsAt (output : list Z) (i : Z) (d : list Z) : Prop := exists p q, output = p ++ d ++ q /\ Z.of_nat (length p) = i.

(** The encoding of a value is found from [i]: it is there, or its offset is. *)
Definition placed (dynamic : bool) (d output : list Z) (i : Z) : Prop :=
  if dynamic then exists off, 0 <= off /\ standsAt output i (word off) /\ standsAt output off d else standsAt output i d.

Fixpoint placements (ts : list abiType) (vs : list goVal) (output : list Z) (pos : Z) : Prop :=
  match ts, vs with
  | [], [] => True
  | t :: ts, v :: vs => placed (isDynamicType t) (enc t v) output pos /\ placements ts vs output (pos + headLen t)
  | _, _ => False
  end.

Lemma stands_slice output i d : standsAt output i d -> subslice output i (i + Z.of_nat (length d)) = Done d.
Proof.
  intros (p & q & -> & Hp). unfold subslice. rewrite decide_True by (rewrite !length_app; lia). f_equal. rewrite <-Hp, Nat2Z.id, drop_app_length.
  replace (Z.to_nat _) with (length d) by lia. apply take_app_length.
Qed.

Lemma stands_word output i z : standsAt output i (word z) -> subslice output i (i + 32) = Done (word z).
Proof. intros H. apply stands_slice in H. by rewrite length_word in H. Qed.

Lemma stands_rest output i d : standsAt output i d -> exists q, subslice output i (Z.of_nat (length output)) = Done (d ++ q) /\ (length (d ++ q) <= length output)%nat.
Proof.
  intros (p & q & -> & Hp). exists q. split; [|rewrite !length_app; lia]. unfold subslice. rewrite decide_True by (rewrite !length_app; lia). f_equal. rewrite <-Hp, Nat2Z.id, drop_app_length.
  apply take_ge. rewrite !length_app. lia.
Qed.

Lemma stands_bound output i d : standsAt output i d -> 0 <= i /\ i + Z.of_nat (length d) <= Z.of_nat (length output).
Proof. intros (p & q & -> & Hp). rewrite !length_app. lia. Qed.

Lemma stands_app output i d1 d2 : standsAt output i (d1 ++ d2) -> standsAt output i d1 /\ standsAt output (i + Z.of_nat (length d1)) d2.
Proof.
  intros (p & q & -> & Hp). split; [exists p, (d2 ++ q); by rewrite <-app_assoc|]. exists (p ++ d1), q. rewrite <-!app_assoc. split; [done|]. rewrite length_app. lia.
Qed.

Lemma layout_placements ts vs pre mid post offset :
  Forall2 (fun t v => isDynamicType t = false -> Z.of_nat (length (enc t v)) = headLen t) ts vs ->
  let items := encItems ts vs in
  offset = Z.of_nat (length (pre ++ heads items offset ++ mid)) ->
  placements ts vs (pre ++ heads items offset ++ mid ++ tails items ++ post) (Z.of_nat (length pre)).
Proof.
  intros H. revert pre mid offset. induction H as [|t v ts vs Ht _ IH]; intros pre mid offset items Ho; [done|]. subst items. cbn [placements]. change (encItems (t :: ts) (v :: vs)) with ((isDynamicType t, enc t v) :: encItems ts vs) in *.
  rewrite tails_cons in *. cbn [fst snd heads] in *. destruct (isDynamicType t) eqn:E.
  - split.
    + exists offset. split; [lia|]. split; [exists pre; eexists; rewrite <-!app_assoc; done|]. exists (pre ++ (word offset ++ heads (encItems ts vs) (offset + Z.of_nat (length (enc t v)))) ++ mid), (tails (encItems ts vs) ++ post).
      split; [by rewrite <-!app_assoc|done].
    + specialize (IH (pre ++ word offset) (mid ++ enc t v) (offset + Z.of_nat (length (enc t v)))). cbn zeta in IH. rewrite <-!app_assoc in *. rewrite headLen_dynamic by done. rewrite (length_app pre (word offset)), length_word in IH.
      replace (Z.of_nat (length pre) + 32) with (Z.of_nat (length pre + 32)) by lia. apply IH. rewrite !length_app in *. lia.
  - split; [exists pre; eexists; rewrite <-!app_assoc; done|].
    specialize (IH (pre ++ enc t v) mid offset). cbn zeta in IH. rewrite <-!app_assoc in *. cbn [app]. rewrite <-Ht by done. rewrite (length_app pre (enc t v)), Nat2Z.inj_add in IH. apply IH. done.
Qed.

(** The items of a tuple are found from its start. *)
Lemma encTuple_placements ts vs q :
  Forall2 (fun t v => isDynamicType t = false -> Z.of_nat (length (enc t v)) = headLen t) ts vs -> placements ts vs (encTuple (encItems ts vs) ++ q) 0.
Proof.
  intros H. unfold encTuple. rewrite <-app_assoc. apply (layout_placements ts vs [] [] q); [done|]. cbn [app]. rewrite app_nil_r. by rewrite length_heads.
Qed.

(** ** Words *)

Lemma BitLen_small z : 0 <= z < 2 ^ 63 -> BitLen z <= 63.
Proof. intros Hz. unfold BitLen. case_decide; [lia|]. rewrite Z.abs_eq by lia. pose proof (Z.log2_lt_pow2 z 63 ltac:(lia)). lia. Qed.

Lemma word_tail off : 0 <= off < 2 ^ 64 -> subslice (word off) 24 32 = Done (be_of_Z 8 off).
Proof. intros H. unfold word. change 32%nat with (24 + 8)%nat. rewrite be_of_Z_pad by done. unfold subslice. rewrite decide_True by (rewrite length_app, length_replicate, length_be_of_Z; lia). f_equal. Qed.

Lemma ReadInteger_unsigned n z : valOk (UintTy n) z -> ReadInteger true n (word (numOf z)) = aok z.
Proof.
  cbn [valOk]. unfold ReadInteger. intros H. case_decide as Hn; destruct H as (x & -> & Hx); cbn [numOf].
  - assert (0 <= x < 2 ^ 256). { split; [lia|]. eapply Z.lt_le_trans; [apply Hx|]. apply Z.pow_le_mono_r; [lia|]. set_unfold in Hn. lia. }
    rewrite be_to_Z_word by done. rewrite decide_False by lia. done.
  - by rewrite be_to_Z_word.
Qed.

Lemma ReadInteger_signed n z : valOk (IntTy n) z -> ReadInteger false n (word (numOf z)) = aok z.
Proof.
  intros H. assert (- 2 ^ 255 <= numOf z < 2 ^ 255) as Hr.
  { cbn [valOk] in H. case_decide as Hn; destruct H as (x & -> & Hx); cbn [numOf]; [|done]. assert (2 ^ (n - 1) <= 2 ^ 255) by (apply Z.pow_le_mono_r; [lia|]; set_unfold in Hn; lia). lia. }
  unfold ReadInteger. set (r := if Z.testbit _ _ then _ else _). assert (r = numOf z) as ->.
  { unfold r, word. rewrite be_to_of_Z. change (256 ^ Z.of_nat 32) with (2 ^ 256). rewrite Z.mod_pow2_bits_low by lia. unfold MaxUint256. destruct (decide (0 <= numOf z)) as [H0|H0].
    - rewrite Z.mod_small by lia. rewrite Z.bits_above_log2; [done|lia|]. destruct (decide (numOf z = 0)) as [->|]; [done|]. apply Z.log2_lt_pow2; lia.
    - rewrite <-(Z_mod_plus_full _ 1), Z.mod_small by lia. assert (Z.testbit (numOf z) 255 = true) as ->; [|lia]. rewrite <-(Z.opp_involutive (numOf z)), Z.bits_opp by lia. apply negb_true_iff. 
      apply Z.bits_above_log2; [lia|]. destruct (decide (Z.pred (- numOf z) = 0)) as [->|]; [done|]. apply Z.log2_lt_pow2; lia. }
  cbn [valOk] in H. case_decide as Hn; destruct H as (x & -> & Hx); cbn [numOf]; [|done]. rewrite decide_False by lia. done.
Qed.

Lemma readBool_word (b : bool) : readBool (word (if b then 1 else 0)) = aok b.
Proof. by destruct b. Qed.

(** ** Loops *)

(** The decoder reads a value of the type back. *)
Definition readsBack (t : abiType) (v : goVal) : Prop :=
  forall index output, Z.of_nat (length output) < 2 ^ 61 -> placed (isDynamicType t) (enc t v) output index -> toGoType t index output = aok v.

Lemma placed_bound dynamic d output i : placed dynamic d output i -> 0 <= i <= Z.of_nat (length output).
Proof. unfold placed. destruct dynamic; [intros (off & _ & H & _)|intros H]; apply stands_bound in H; lia. Qed.

Lemma virtualWords_headLen t : sizesOk t -> (1 + virtualWords t) * 32 = headLen t.
Proof.
  intros Hs. pose proof (headLen_words t Hs) as [H1 [k Hk]]. unfold virtualWords. destruct t; try done.
  - destruct (isDynamicType _) eqn:E; [by rewrite headLen_dynamic|]. rewrite getTypeSize_headLen by done. rewrite Hk, Z.quot_mul; lia.
  - destruct (isDynamicType _) eqn:E; [by rewrite headLen_dynamic|]. rewrite getTypeSize_headLen by done. rewrite Hk, Z.quot_mul; lia.
Qed.

Lemma unpackLoop_ok ts vs output idx virt pos acc : Z.of_nat (length output) < 2 ^ 61 -> Forall sizesOk ts -> Forall2 readsBack ts vs -> placements ts vs output pos -> (idx + virt) * 32 = pos ->
  unpackLoop (map (fun t => (virtualWords t, fun i => toGoType t i output)) ts) idx virt acc = aok (acc ++ vs).
Proof.
  intros Ho Hs H. revert idx virt pos acc. induction H as [|t v ts vs Ht _ IH]; intros idx virt pos acc HP Hpos; [by rewrite app_nil_r|]. apply Forall_cons in Hs as [Hs Hs']. destruct HP as [HP HP'].
  cbn [map unpackLoop]. pose proof (placed_bound _ _ _ _ HP). rewrite Hpos, i64_small by (unfold in_i64; lia). rewrite (Ht pos output) by done. cbn [abind aok].
  rewrite (IH Hs' _ _ (pos + headLen t)); [by rewrite <-app_assoc|done|]. rewrite <-virtualWords_headLen by done. lia.
Qed.

Lemma eachLoop_ok e vs output pos acc : Z.of_nat (length output) < 2 ^ 61 -> sizesOk e -> Forall (readsBack e) vs -> placements (replicate (length vs) e) vs output pos ->
  eachLoop (fun i => toGoType e i output) (getTypeSize e) (length vs) pos acc = aok (GoSeq (acc ++ vs)).
Proof.
  intros Ho Hs H. rewrite getTypeSize_headLen by done. revert pos acc. induction H as [|v vs Hv _ IH]; intros pos acc HP; [by rewrite app_nil_r|]. destruct HP as [HP HP']. cbn [length eachLoop].
  rewrite (Hv pos output) by done. cbn [abind aok]. pose proof (placed_bound _ _ _ _ HP). pose proof (headLen_words e Hs). rewrite i64_small by (unfold in_i64; lia). rewrite IH by done. by rewrite <-app_assoc.
Qed.

(** The elements of a slice or an array, at the start of [rest]. *)
Lemma forEachUnpack_ok e vs q : let rest := encTuple (encItems (replicate (length vs) e) vs) ++ q in
  Z.of_nat (length rest) < 2 ^ 61 -> wfType e -> sizesOk e -> 0 < headLen e -> Forall (valOk e) vs -> Forall (readsBack e) vs ->
  forEachUnpack (fun i => toGoType e i rest) (getTypeSize e) rest 0 (Z.of_nat (length vs)) = aok (GoSeq vs) /\ Z.of_nat (length vs) <= Z.of_nat (length rest).
Proof.
  intros rest Ho Hw Hs H0 Hv Hr. assert (Forall2 (fun t v => isDynamicType t = false -> Z.of_nat (length (enc t v)) = headLen t) (replicate (length vs) e) vs) as HF.
  { clear - Hv Hw Hs. induction Hv as [|v vs Hv _ IH]; constructor; [|done]. by apply enc_static. }
  assert (32 * Z.of_nat (length vs) <= Z.of_nat (length rest)) as Hl.
  { unfold rest. rewrite length_app, Nat2Z.inj_add, length_encTuple, encItems_lens, headLens_replicate by done. destruct (headLen_words e Hs) as [? [k Hk]].
    pose proof (Z.mul_le_mono_nonneg_l 32 (headLen e) (Z.of_nat (length vs)) ltac:(lia) ltac:(lia)). lia. }
  assert (placements (replicate (length vs) e) vs rest 0) as HP by (by apply encTuple_placements). clearbody rest.
  split; [|lia]. unfold forEachUnpack. rewrite decide_False by lia. rewrite i64_small by (unfold in_i64; lia). rewrite decide_False by lia. rewrite Nat2Z.id.
  by apply (eachLoop_ok e vs rest 0 []).
Qed.

(** ** Reading back *)

Lemma lengthPrefix_ok index output off n d : Z.of_nat (length output) < 2 ^ 61 -> 0 <= off -> 0 <= n <= Z.of_nat (length d) ->
  standsAt output index (word off) -> standsAt output off (word n ++ d) -> lengthPrefixPointsTo index output = aok (off + 32, n).
Proof.
  intros Ho H0 Hn H1 H2. unfold lengthPrefixPointsTo. pose proof (stands_bound _ _ _ H2) as Hb. rewrite length_app, length_word in Hb. rewrite (stands_word _ _ _ H1). cbn [mbind outcome_bind].
  rewrite be_to_Z_word by lia. rewrite decide_False by lia. pose proof (BitLen_small (off + 32) ltac:(lia)). rewrite decide_False by lia. replace (off + 32 - 32) with off by lia.
  apply stands_app in H2 as [H2 _]. rewrite (stands_word _ _ _ H2). cbn [mbind outcome_bind]. rewrite be_to_Z_word by lia. pose proof (BitLen_small (off + 32 + n) ltac:(lia)).
  rewrite decide_False by lia. by rewrite decide_False by lia.
Qed.

(** What [toGoType] does with the word or the place and length it found. *)
Definition toGoBody (t : abiType) (index : Z) (output : list Z) (begin len : Z) (returnOutput : list Z) : abi goVal :=
  match t with
  | TupleTy l =>
      begin <-- (if isDynamicType t then tuplePointsTo index output else aok index);
      rest ← subslice output begin (Z.of_nat (length output));
      vs <-- unpackLoop (map (fun t => (virtualWords t, fun i => toGoType t i rest)) (map snd l)) 0 0 [];
      aok (GoSeq vs)
  | SliceTy e =>
      rest ← subslice output begin (Z.of_nat (length output));
      forEachUnpack (fun i => toGoType e i rest) (getTypeSize e) rest 0 len
  | ArrayTy e n =>
      begin <-- (if isDynamicType e then
                   w ← subslice returnOutput 24 32;
                   if decide (Z.of_nat (length output) < be_to_Z w) then aerr errOffset else aok (be_to_Z w)
                 else aok index);
      rest ← subslice output begin (Z.of_nat (length output));
      forEachUnpack (fun i => toGoType e i rest) (getTypeSize e) rest 0 n
  | StringTy => s ← subslice output begin (begin + len); aok (GoStr s)
  | IntTy n => ReadInteger false n returnOutput
  | UintTy n => ReadInteger true n returnOutput
  | BoolTy => b <-- readBool returnOutput; aok (GoBool b)
  | AddressTy => aok (goBytes (BytesToAddress returnOutput))
  | HashTy => aok (goBytes (BytesToHash returnOutput))
  | BytesTy => s ← subslice output begin (begin + len); aok (goBytes s)
  | FixedBytesTy n => l <-- ReadFixedBytes n returnOutput; aok (goBytes l)
  | FunctionTy => l <-- readFunctionType returnOutput; aok (goBytes l)
  | FixedPointTy => aerr errUnknownType
  end.

Lemma toGoType_eq t index output : toGoType t index output =
  if decide (Z.of_nat (length output) < i64 (index + 32)) then aerr errTooShort
  else if requiresLengthPrefix t then '(begin, len) <-- lengthPrefixPointsTo index output; toGoBody t index output begin len []
  else w ← subslice output index (index + 32); toGoBody t index output 0 0 w.
Proof.
  destruct t; cbn [toGoType requiresLengthPrefix toGoBody]; (case_decide; [done|]); try (by destruct (lengthPrefixPointsTo index output) as [[|[]]| |]); try by destruct (subslice output index (index + 32)).
  destruct (subslice output index (index + 32)); try done. cbn [mbind outcome_bind abind aok].
  destruct (if isDynamicType (TupleTy elems) then tuplePointsTo index output else aok index) as [[|begin]| |]; try done. cbn [abind]. destruct (subslice output begin _); try done. cbn [mbind outcome_bind]. by rewrite map_map.
Qed.

(** A value in place, and one with an offset. *)
Lemma toGo_static t index output d : Z.of_nat (length output) < 2 ^ 61 -> requiresLengthPrefix t = false -> standsAt output index d -> length d = 32%nat ->
  toGoType t index output = toGoBody t index output 0 0 d.
Proof.
  intros Ho Ht H Hl. rewrite toGoType_eq, Ht. pose proof (stands_bound _ _ _ H). rewrite i64_small by (unfold in_i64; lia). rewrite decide_False by lia. apply stands_slice in H. rewrite Hl in H. change (Z.of_nat 32) with 32 in H. by rewrite H.
Qed.

Lemma toGo_prefix t index output off n d : Z.of_nat (length output) < 2 ^ 61 -> requiresLengthPrefix t = true -> 0 <= off -> 0 <= n <= Z.of_nat (length d) ->
  standsAt output index (word off) -> standsAt output off (word n ++ d) -> toGoType t index output = toGoBody t index output (off + 32) n [].
Proof.
  intros Ho Ht H0 Hn H1 H2. rewrite toGoType_eq, Ht. pose proof (stands_bound _ _ _ H1) as Hb. rewrite length_word in Hb. rewrite i64_small by (unfold in_i64; lia). rewrite decide_False by lia.
  by rewrite (lengthPrefix_ok index output off n d).
Qed.

Lemma padded_prefix b : exists q, padded b = b ++ q.
Proof. by eexists. Qed.

(** Text and bytes. *)
Lemma toGo_bytes t index output off b : Z.of_nat (length output) < 2 ^ 61 -> requiresLengthPrefix t = true -> 0 <= off -> standsAt output index (word off) ->
  standsAt output off (word (Z.of_nat (length b)) ++ padded b) -> toGoType t index output = toGoBody t index output (off + 32) (Z.of_nat (length b)) [] /\
  subslice output (off + 32) (off + 32 + Z.of_nat (length b)) = Done b.
Proof.
  intros Ho Ht H0 H1 H2. split; [apply (toGo_prefix _ _ _ _ _ (padded b)); try done; split; [lia|]; unfold padded; rewrite length_app; lia|].
  apply stands_app in H2 as [_ H2]. rewrite length_word in H2. destruct (padded_prefix b) as [q Hq]. rewrite Hq in H2. apply stands_app in H2 as [H2 _]. by apply stands_slice in H2.
Qed.

Lemma static_word e d output index : standsAt output index d -> Z.of_nat (length d) = headLen e -> sizesOk e -> 0 < headLen e -> exists w, standsAt output index w /\ length w = 32%nat.
Proof.
  intros H Hl Hs H0. destruct (headLen_words e Hs) as [_ [k Hk]]. exists (take 32 d). rewrite <-(take_drop 32 d) in H. apply stands_app in H as [H _]. split; [done|]. rewrite length_take. lia.
Qed.

Lemma toGoType_elem t v : wfType t -> sizesOk t -> valOk t v -> match t with SliceTy _ | ArrayTy _ _ | TupleTy _ => False | _ => True end -> readsBack t v.
Proof.
  intros Hw Hs Hv Ht index output Ho HP. destruct t as [n|n| | | | | | |n| | | | ]; try done; cbn [isDynamicType placed enc] in HP.
  1-3: erewrite toGo_static by (try exact HP; try apply length_word; done); cbn [toGoBody].
  - by apply ReadInteger_signed.
  - by apply ReadInteger_unsigned.
  - destruct Hv as [b ->]. pose proof (readBool_word b) as Hb. destruct b; by rewrite Hb.
  - destruct Hv as (s & -> & _), HP as (off & H0 & H1 & H2). destruct (toGo_bytes StringTy index output off s Ho eq_refl H0 H1 H2) as [-> Hb]. cbn [toGoBody]. by rewrite Hb.
  - destruct Hv as (l & -> & _ & Hl). rewrite rawOf_goBytes in HP. erewrite toGo_static by (try exact HP; try (rewrite length_app, length_replicate; lia); done). cbn [toGoBody]. do 2 f_equal.
    unfold BytesToAddress. rewrite SetBytes_long; rewrite ?length_app, ?length_replicate, Hl; [|unfold AddressLength; lia]. done.
  - destruct Hv as (l & -> & _ & Hl). rewrite rawOf_goBytes in HP. cbn in Hs. erewrite toGo_static by (try exact HP; try (rewrite length_app, length_replicate; lia); done). cbn [toGoBody]. unfold ReadFixedBytes.
    assert (standsAt (l ++ replicate (32 - length l) 0) 0 l) as HL by (exists [], (replicate (32 - length l) 0); done). apply stands_slice in HL. rewrite Hl, Z.add_0_l in HL. by rewrite HL.
  - destruct Hv as (l & -> & _), HP as (off & H0 & H1 & H2). rewrite rawOf_goBytes in H2. destruct (toGo_bytes BytesTy index output off l Ho eq_refl H0 H1 H2) as [-> Hb]. cbn [toGoBody]. by rewrite Hb.
  - destruct Hv as (l & -> & _ & Hl). rewrite rawOf_goBytes in HP. erewrite toGo_static by (try exact HP; try (rewrite length_app, length_replicate; lia); done). cbn [toGoBody]. unfold readFunctionType.
    rewrite Hl. change (32 - 24)%nat with 8%nat. assert (standsAt (l ++ replicate 8 0) 0 l) as HL by (by exists [], (replicate 8 0)). apply stands_slice in HL. rewrite Hl in HL. change (0 + Z.of_nat 24) with 24 in HL.
    assert (standsAt (l ++ replicate 8 0) 24 (replicate 8 0)) as HG by (exists l, []; rewrite Hl; done). apply stands_slice in HG. change (24 + Z.of_nat (length (replicate 8 0))) with 32 in HG. rewrite HG. cbn [mbind outcome_bind]. rewrite decide_False by (intros []; done). by rewrite HL.
Qed.

Lemma seq_back e vs : (forall v, wfType e -> sizesOk e -> 0 < headLen e -> valOk e v -> readsBack e v) -> wfType e -> sizesOk e -> 0 < headLen e -> Forall (valOk e) vs -> Forall (readsBack e) vs.
Proof. intros H Hw Hs H0 Hv. eapply Forall_impl; [exact Hv|]. intros v Hx. by apply H. Qed.

(** The elements at a place. *)
Lemma toGo_seq e vs output i : Z.of_nat (length output) < 2 ^ 61 -> standsAt output i (encTuple (encItems (replicate (length vs) e) vs)) -> wfType e -> sizesOk e -> 0 < headLen e ->
  Forall (valOk e) vs -> Forall (readsBack e) vs ->
  exists rest, subslice output i (Z.of_nat (length output)) = Done rest /\ forEachUnpack (fun i => toGoType e i rest) (getTypeSize e) rest 0 (Z.of_nat (length vs)) = aok (GoSeq vs).
Proof.
  intros Ho H Hw Hs H0 Hv Hr. destruct (stands_rest _ _ _ H) as (q & Hq & Hl). eexists. split; [exact Hq|]. apply forEachUnpack_ok; try done. lia.
Qed.

Lemma toGoType_enc t v : wfType t -> sizesOk t -> 0 < headLen t -> valOk t v -> readsBack t v.
Proof.
  revert v. induction t as [n|n| | |e IH|e n IH|l IH| |n| | | | ] using abiType_ind'; intros v Hw Hs H0 Hv; try (by apply toGoType_elem); intros index output Ho HP.
  - destruct Hv as (vs & -> & Hvs), Hw as [Hw He], HP as (off & Hoff & H1 & H2). pose proof (seq_back e vs IH Hw Hs He Hvs) as HR. cbn [enc seqOf] in H2. rewrite encItems_seq in H2.
    pose proof (stands_app _ _ _ _ H2) as [_ H3]. rewrite length_word in H3. change (Z.of_nat 32) with 32 in H3. erewrite (toGo_prefix (SliceTy e) index output off _ _ Ho eq_refl Hoff); [| |exact H1|exact H2]; [|split; [lia|]].
    + cbn [toGoBody]. destruct (toGo_seq e vs output (off + 32) Ho H3 Hw Hs He Hvs HR) as (rest & -> & HR'). exact HR'.
    + destruct (stands_bound _ _ _ H3) as [_ Hb]. pose proof (forEachUnpack_ok e vs [] ltac:(rewrite app_nil_r; lia) Hw Hs He Hvs HR) as [_ Hle]. by rewrite app_nil_r in Hle.
  - destruct Hv as (vs & -> & Hvs & <-), Hw as [Hw He]. pose proof Hs as (Hn & Hs' & _). pose proof (seq_back e vs IH Hw Hs' He Hvs) as HR. cbn [isDynamicType enc seqOf] in HP. rewrite encItems_seq in HP. destruct (isDynamicType e) eqn:E.
    + destruct HP as (off & Hoff & H1 & H2). erewrite toGo_static by (try exact H1; try apply length_word; done). cbn [toGoBody]. rewrite E. pose proof (stands_bound _ _ _ H2).
      rewrite word_tail by lia. cbn [mbind outcome_bind]. rewrite be_to_of_Z, Z.mod_small by (cbn; lia). rewrite decide_False by lia. cbn [abind aok].
      destruct (toGo_seq e vs output off Ho H2 Hw Hs' He Hvs HR) as (rest & -> & HR'). exact HR'.
    + assert (Z.of_nat (length (encTuple (encItems (replicate (length vs) e) vs))) = headLen (ArrayTy e (Z.of_nat (length vs)))) as HL.
      { rewrite <-encItems_seq. apply (enc_static (ArrayTy e (Z.of_nat (length vs))) (GoSeq vs)); [done|done|by exists vs|done]. }
      destruct (static_word _ _ _ _ HP HL Hs H0) as (w & H1 & Hw32). erewrite toGo_static by (try exact H1; done). cbn [toGoBody]. rewrite E. cbn [abind aok].
      destruct (toGo_seq e vs output index Ho HP Hw Hs' He Hvs HR) as (rest & -> & HR'). exact HR'.
  - pose proof Hv as (vs & -> & Hvs)%valOk_tuple. pose proof (wfType_elems l Hw) as [HW HZ]. pose proof Hs as [HS HL]%sizesOk_tuple.
    assert (Forall2 readsBack (map snd l) vs /\ Forall2 (fun t v => isDynamicType t = false -> Z.of_nat (length (enc t v)) = headLen t) (map snd l) vs) as [HR HF].
    { clear - IH Hvs HW HZ HS. induction Hvs as [|t w ts vs Hx _ IHv]; [split; constructor|]. apply Forall_cons in IH as [? ?], HW as [? ?], HZ as [? ?], HS as [? ?]. destruct IHv as [? ?]; try done. split; (constructor; [|done]); [auto|by intros; apply enc_static]. }
    set (ts := map snd l) in *. rewrite enc_tuple in HP. fold ts in HP. cbn [seqOf] in HP.
    assert (forall i, standsAt output i (encTuple (encItems ts vs)) -> exists rest, subslice output i (Z.of_nat (length output)) = Done rest /\
       unpackLoop (map (fun t => (virtualWords t, fun i => toGoType t i rest)) ts) 0 0 [] = aok vs) as HU.
    { intros i Hi. destruct (stands_rest _ _ _ Hi) as (q & Hq & Hlq). eexists. split; [exact Hq|]. apply (unpackLoop_ok ts vs _ 0 0 0 []); try done; [lia|]. by apply encTuple_placements. }
    unfold placed in HP. destruct (isDynamicType (TupleTy l)) eqn:E.
    + destruct HP as (off & Hoff & H1 & H2). erewrite toGo_static by (try exact H1; try apply length_word; done). cbn [toGoBody]. rewrite E. unfold tuplePointsTo. rewrite (stands_word _ _ _ H1). cbn [mbind outcome_bind].
      pose proof (stands_bound _ _ _ H2). rewrite be_to_Z_word by lia. pose proof (BitLen_small off ltac:(lia)). rewrite !decide_False by lia. cbn [abind aok]. destruct (HU off H2) as (rest & -> & HR'). cbn [mbind outcome_bind]. fold ts. by rewrite HR'.
    + assert (Z.of_nat (length (encTuple (encItems ts vs))) = headLen (TupleTy l)) as HL'. { rewrite headLens_tuple by done. apply static_items_length; [by apply tuple_static|done]. }
      destruct (static_word _ _ _ _ HP HL' Hs H0) as (w & H1 & Hw32). erewrite toGo_static by (try exact H1; done). cbn [toGoBody]. rewrite E. cbn [abind aok]. destruct (HU index HP) as (rest & -> & HR'). cbn [mbind outcome_bind]. fold ts. by rewrite HR'.
Qed.

(** ** All data *)

(** The result is a value of the type or an error. *)
Definition sound {A : Type} (P : A -> Prop) (r : abi A) : Prop := match r with Done (inr a) => P a | Done (inl _) => True | _ => False end.

Lemma sound_bind {A B} (P : A -> Prop) (Q : B -> Prop) (m : abi A) (f : A -> abi B) : sound P m -> (forall a, P a -> sound Q (f a)) -> sound Q (abind m f).
Proof. destruct m as [[e|a]| |]; cbn; auto. Qed.

Lemma sound_slice {B} (Q : B -> Prop) (output : list Z) i j (f : list Z -> abi B) : bytes_ok output -> 0 <= i <= j -> j <= Z.of_nat (length output) ->
  (forall s, bytes_ok s -> Z.of_nat (length s) = j - i -> sound Q (f s)) -> sound Q (subslice output i j ≫= f).
Proof.
  intros Hb Hi Hj H. unfold subslice. rewrite decide_True by lia. cbn [mbind outcome_bind]. apply H; [by apply Forall_take, Forall_drop|]. rewrite length_take, length_drop. lia.
Qed.

Lemma ReadInteger_sound (unsigned : bool) n b : bytes_ok b -> length b = 32%nat -> sound (valOk (if unsigned then UintTy n else IntTy n)) (ReadInteger unsigned n b).
Proof.
  intros Hb Hl. pose proof (be_to_Z_bound b Hb) as Hz. rewrite Hl in Hz. change (256 ^ Z.of_nat 32) with (2 ^ 256) in Hz. unfold ReadInteger. destruct unsigned; cbn [valOk].
  - case_decide; [|by exists (be_to_Z b)]. case_decide; [done|]. exists (be_to_Z b). split; [done|lia].
  - set (r := if Z.testbit _ _ then _ else _). assert (- 2 ^ 255 <= r < 2 ^ 255) as Hr.
    { unfold r, MaxUint256. pose proof (Z.testbit_spec' (be_to_Z b) 255 ltac:(lia)) as Ht. pose proof (Z.div_mod (be_to_Z b) (2 ^ 255) ltac:(lia)). pose proof (Z.mod_pos_bound (be_to_Z b) (2 ^ 255) ltac:(lia)).
      assert (0 <= be_to_Z b `div` 2 ^ 255 < 2) as Hq by (split; [apply Z.div_pos; lia|apply Z.div_lt_upper_bound; lia]). rewrite (Z.mod_small _ 2) in Ht by done. destruct (Z.testbit _ _); cbn [Z.b2z] in Ht; lia. }
    clearbody r. case_decide; [|by exists r]. case_decide; [done|]. exists r. split; [done|lia].
Qed.

Lemma readBool_sound b : bytes_ok b -> length b = 32%nat -> sound (fun _ => True) (readBool b).
Proof.
  intros Hb Hl. unfold readBool. apply sound_slice; [done|lia|lia|]. intros s _ _. case_match; [done|]. destruct (index_in_range b 31) as [x Hx]; [lia|]. rewrite Hx. cbn [mbind outcome_bind]. repeat case_decide; done.
Qed.

Lemma lengthPrefix_sound i output : bytes_ok output -> 0 <= i -> i + 32 <= Z.of_nat (length output) ->
  sound (fun r => 0 <= r.1 /\ 0 <= r.2 /\ r.1 + r.2 <= Z.of_nat (length output)) (lengthPrefixPointsTo i output).
Proof.
  intros Hb H0 Hi. unfold lengthPrefixPointsTo. apply sound_slice; [done|lia|lia|]. intros w Hw _. pose proof (be_to_Z_bound w Hw). repeat case_decide; try done.
  apply sound_slice; [done|lia|lia|]. intros x Hx _. pose proof (be_to_Z_bound x Hx). repeat case_decide; try done. cbn. lia.
Qed.

Lemma eachLoop_sound (P : goVal -> Prop) f elemSize bound size i acc : 0 <= elemSize < 2 ^ 61 -> bound < 2 ^ 61 -> 0 <= i < 2 ^ 62 -> Forall P acc ->
  (forall i, 0 <= i < 2 ^ 62 -> sound (fun v => P v /\ i <= bound) (f i)) -> sound (fun v => exists vs, v = GoSeq vs /\ Forall P vs /\ length vs = (length acc + size)%nat) (eachLoop f elemSize size i acc).
Proof.
  intros He Hb Hi Ha Hf. revert i acc Hi Ha. induction size as [|size IH]; intros i acc Hi Ha; cbn [eachLoop]; [exists acc; split; [done|]; split; [done|lia]|].
  eapply sound_bind; [by apply Hf|]. intros v [Hv Hle]. rewrite i64_small by (unfold in_i64; lia).
  assert (0 <= i + elemSize < 2 ^ 62) as Hi' by lia. specialize (IH (i + elemSize) (acc ++ [v]) Hi'). rewrite length_app in IH. cbn [length] in IH.
  replace (length acc + S size)%nat with (length acc + 1 + size)%nat by lia. apply IH. apply Forall_app_2; [done|by repeat constructor].
Qed.

Lemma forEachUnpack_sound (P : goVal -> Prop) f elemSize output size : Z.of_nat (length output) < 2 ^ 61 -> 0 <= elemSize < 2 ^ 61 -> 0 <= size < 2 ^ 62 ->
  (forall i, 0 <= i < 2 ^ 62 -> sound (fun v => P v /\ i <= Z.of_nat (length output)) (f i)) ->
  sound (fun v => exists vs, v = GoSeq vs /\ Forall P vs /\ Z.of_nat (length vs) = size) (forEachUnpack f elemSize output 0 size).
Proof.
  intros Ho He Hs Hf. unfold forEachUnpack. case_decide; [done|]. case_decide; [done|]. pose proof (eachLoop_sound P f elemSize _ (Z.to_nat size) 0 [] He Ho ltac:(lia) (Forall_nil_2 _) Hf) as HE.
  destruct (eachLoop _ _ _ _ _) as [[|v]| |]; try done. destruct HE as (vs & -> & HF & Hl). exists vs. split; [done|]. split; [done|]. cbn in Hl. lia.
Qed.

Lemma unpackLoop_sound ts output idx virt pos acc vs0 ts0 : Forall sizesOk ts -> Forall2 valOk ts0 vs0 -> acc = vs0 -> (idx + virt) * 32 = pos -> 0 <= pos -> pos + headLens ts < 2 ^ 62 ->
  Forall (fun t => forall i, 0 <= i < 2 ^ 62 -> sound (valOk t) (toGoType t i output)) ts ->
  sound (fun vs => Forall2 valOk (ts0 ++ ts) vs) (unpackLoop (map (fun t => (virtualWords t, fun i => toGoType t i output)) ts) idx virt acc).
Proof.
  intros Hs H0 -> Hpos Hp Hb H. revert idx virt pos vs0 ts0 H0 Hpos Hp Hb. induction H as [|t ts Ht _ IH]; intros idx virt pos vs0 ts0 H0 Hpos Hp Hb; [cbn; by rewrite app_nil_r|].
  apply Forall_cons in Hs as [Hs Hs']. unfold headLens in Hb. cbn [map foldr] in Hb. fold (headLens ts) in Hb. pose proof (headLens_nonneg ts Hs'). pose proof (headLen_words t Hs) as [Hl _]. cbn [map unpackLoop].
  rewrite Hpos, i64_small by (unfold in_i64; lia). eapply sound_bind; [apply Ht; lia|]. intros v Hv. replace (ts0 ++ t :: ts) with ((ts0 ++ [t]) ++ ts) by (by rewrite <-app_assoc).
  apply (IH Hs' _ _ (pos + headLen t)); [apply Forall2_app; [done|by repeat constructor]|rewrite <-virtualWords_headLen by done; lia|lia|lia].
Qed.

Lemma sound_impl {A} (P Q : A -> Prop) (m : abi A) : sound P m -> (forall a, P a -> Q a) -> sound Q m.
Proof. intros H HPQ. destruct m as [[e|a]| |]; cbn in *; auto. Qed.

Lemma toGoBody_elem t index output begin len w : match t with SliceTy _ | ArrayTy _ _ | TupleTy _ => False | _ => True end -> sizesOk t -> bytes_ok output ->
  (if requiresLengthPrefix t then 0 <= begin /\ 0 <= len /\ begin + len <= Z.of_nat (length output) else bytes_ok w /\ length w = 32%nat) ->
  sound (valOk t) (toGoBody t index output begin len w).
Proof.
  intros Ht Hs Hb Hr. destruct t as [n|n| | | | | | |n| | | | ]; try done; cbn [requiresLengthPrefix toGoBody valOk] in *.
  - apply (ReadInteger_sound false); apply Hr.
  - apply (ReadInteger_sound true); apply Hr.
  - eapply sound_bind; [apply readBool_sound; apply Hr|]. intros b _. by exists b.
  - apply sound_slice; [done|lia|lia|]. intros s Hx _. by exists s.
  - eexists. split; [done|]. destruct Hr as [Hw Hl]. unfold BytesToAddress. split; [|by rewrite length_SetBytes, length_replicate]. rewrite SetBytes_long by (rewrite length_replicate; unfold AddressLength; lia). by apply Forall_drop.
  - eapply (sound_bind (fun l => bytes_ok l /\ Z.of_nat (length l) = n)); [|intros l [? ?]; by exists l]. unfold ReadFixedBytes. cbn in Hs. apply sound_slice; [naive_solver|lia|lia|]. intros s Hx Hl. cbn. split; [done|lia].
  - apply sound_slice; [done|lia|lia|]. intros s Hx _. by exists s.
  - eexists. split; [done|]. destruct Hr as [Hw Hl]. rewrite BytesToHash_id by done. done.
  - eapply (sound_bind (fun l => bytes_ok l /\ length l = 24%nat)); [|intros l [? ?]; by exists l]. unfold readFunctionType. apply sound_slice; [naive_solver|lia|lia|]. intros s _ _. case_decide; [done|].
    apply sound_slice; [naive_solver|lia|lia|]. intros x Hx Hl. cbn. split; [done|lia].
Qed.

(** Whatever the data, [toGoType] ends with a value of the type or an error. *)
Lemma toGoType_sound t index output : sizesOk t -> bytes_ok output -> Z.of_nat (length output) < 2 ^ 61 -> 0 <= index < 2 ^ 62 ->
  sound (fun v => valOk t v /\ index <= Z.of_nat (length output)) (toGoType t index output).
Proof.
  revert index output. induction t as [n|n| | |e IH|e n IH|l IH| |n| | | | ] using abiType_ind'; intros index output Hs Hb Ho Hi; rewrite toGoType_eq; rewrite i64_small by (unfold in_i64; lia); (case_decide; [done|]); cbn [requiresLengthPrefix].
  all: try (apply sound_slice; [done|lia|lia|]; intros w Hw Hl; eapply sound_impl; [apply toGoBody_elem; [done|done|done|split; [done|lia]]|]; intros v Hv; split; [done|lia]).
  all: try (eapply sound_bind; [apply lengthPrefix_sound; [done|lia|lia]|]; intros [begin len] (H1 & H2 & H3); cbn [fst snd] in *).
  all: try (eapply sound_impl; [by apply toGoBody_elem|]; intros v Hv; split; [done|lia]).
  - cbn [toGoBody]. apply sound_slice; [done|lia|lia|]. intros rest Hr Hl. eapply sound_impl; [apply (forEachUnpack_sound (valOk e)); [lia| |lia|intros i Hx; apply IH; [done|done|lia|done]]|].
    + rewrite getTypeSize_headLen by done. apply (headLen_words e Hs).
    + intros v (vs & -> & Hvs & _). split; [by exists vs|lia].
  - destruct Hs as (Hn & Hs & _). apply sound_slice; [done|lia|lia|]. intros w Hw Hl. cbn [toGoBody]. eapply (sound_bind (fun b => 0 <= b <= Z.of_nat (length output))).
    + destruct (isDynamicType e); [|cbn; lia]. apply sound_slice; [done|lia|lia|]. intros x Hx _. pose proof (be_to_Z_bound x Hx). case_decide; [done|cbn; lia].
    + intros begin Hbg. apply sound_slice; [done|lia|lia|]. intros rest Hr Hlr. eapply sound_impl; [apply (forEachUnpack_sound (valOk e)); [lia| |lia|intros i Hx; apply IH; [done|done|lia|done]]|].
      * rewrite getTypeSize_headLen by done. apply (headLen_words e Hs).
      * intros v (vs & -> & Hvs & Hlv). split; [by exists vs|lia].
  - apply sizesOk_tuple in Hs as [HS HL]. apply sound_slice; [done|lia|lia|]. intros w Hw Hl. cbn [toGoBody]. eapply (sound_bind (fun b => 0 <= b <= Z.of_nat (length output))).
    + destruct (isDynamicType _); [|cbn; lia]. unfold tuplePointsTo. apply sound_slice; [done|lia|lia|]. intros x Hx _. pose proof (be_to_Z_bound x Hx). repeat case_decide; try done. cbn. lia.
    + intros begin Hbg. apply sound_slice; [done|lia|lia|]. intros rest Hr Hlr. eapply sound_bind; [apply (unpackLoop_sound (map snd l) rest 0 0 0 [] [] []); try done; [lia|]|].
      * clear HL. induction (map snd l) as [|t ts IHl]; constructor; apply Forall_cons in IH as [IH IH2], HS as [HS HS2]; [|by apply IHl].
        intros i Hx. eapply sound_impl; [apply IH; [done|done|lia|done]|]. by intros v [? _].
      * intros vs Hvs. cbn in Hvs. split; [|lia]. apply valOk_tuple. by exists vs.
Qed.

Definition argTypes (arguments : list Argument) : list abiType := map (fun a => typ (argType a)) arguments.

(** Arguments whose sizes can be computed with. *)
Definition argSizes (ts : list abiType) : Prop := Forall sizesOk ts /\ headLens ts < 2 ^ 61.

Lemma unpack_total arguments data : argSizes (argTypes (NonIndexed arguments)) -> bytes_ok data -> Z.of_nat (length data) < 2 ^ 61 ->
  exists r, Unpack arguments data = Done r /\ forall vs, r = inr vs -> Forall2 valOk (argTypes (NonIndexed arguments)) vs.
Proof.
  intros [Hs HL] Hb Ho. assert (sound (fun vs => Forall2 valOk (argTypes (NonIndexed arguments)) vs) (Unpack arguments data)) as H.
  { unfold Unpack. case_decide as Hd; [case_decide as Hn; [done|]|].
    - assert (NonIndexed arguments = []) as -> by (by destruct (NonIndexed arguments)). apply Forall2_nil_2.
    - unfold UnpackValues. rewrite <-(map_map (fun a => typ (argType a)) (fun t => (virtualWords t, fun i => toGoType t i data))). apply (unpackLoop_sound (argTypes (NonIndexed arguments)) data 0 0 0 [] [] []); try done; [lia|].
      eapply Forall_impl; [exact Hs|]. intros t Ht i Hi. eapply sound_impl; [by apply toGoType_sound|]. by intros v [? _]. }
  destruct (Unpack arguments data) as [r| |]; try done. exists r. split; [done|]. intros vs ->. exact H.
Qed.

Lemma pack_unpack arguments vs : let ts := argTypes arguments in
  Forall (fun a => argIndexed a = false) arguments -> argSizes ts -> Forall wfType ts -> Forall (fun t => 0 < headLen t) ts -> Forall2 valOk ts vs ->
  Z.of_nat (length (encTuple (encItems ts vs))) < 2 ^ 61 ->
  Pack arguments (zip (map GetType ts) vs) = aok (encTuple (encItems ts vs)) /\ Unpack arguments (encTuple (encItems ts vs)) = aok vs.
Proof.
  intros ts Hx [HS HL] HW HZ Hv Hl. assert (NonIndexed arguments = arguments) as HN by (apply filter_all; intros a Ha; by apply (proj1 (Forall_forall _ _) Hx)).
  assert (Forall2 readsBack ts vs /\ Forall2 (fun t v => isDynamicType t = false -> Z.of_nat (length (enc t v)) = headLen t) ts vs) as [HR HF].
  { clear - Hv HW HZ HS. induction Hv as [|t w ts vs Hx _ IHv]; [split; constructor|]. apply Forall_cons in HW as [? ?], HZ as [? ?], HS as [? ?]. destruct IHv as [? ?]; try done. split; (constructor; [|done]); [by apply toGoType_enc|by intros; apply enc_static]. }
  split.
  - unfold Pack. pose proof (Forall2_length _ _ _ Hv) as Hlen. unfold ts, argTypes in Hlen. rewrite length_map in Hlen. rewrite decide_False by (intros []; rewrite length_zip_with, length_map; unfold ts, argTypes; rewrite length_map; lia).
    change (encTuple (encItems ts vs)) with ([] ++ encTuple (encItems ts vs)). apply packHeads_tuple; [|lia|left; rewrite headSize_headLens by done; symmetry; by apply encItems_lens].
    assert (Forall2 (fun t v => pack t (GetType t) v = aok (enc t v)) ts vs) as HP.
    { apply Forall2_same_length_lookup. split; [by eapply Forall2_length|]. intros i t v Ht Hvi. assert ((isDynamicType t, enc t v) ∈ encItems ts vs) as Hin by (eapply (list_elem_of_lookup_2 _ i); unfold encItems; by rewrite lookup_zip_with, Ht, Hvi).
      apply encTuple_item in Hin. cbn [snd] in Hin. apply pack_enc; [by eapply Forall_lookup in HW|by eapply Forall_lookup in HS|by eapply Forall2_lookup_lr in Hv|lia]. }
    clear - HP. unfold ts, argTypes in *. clear ts. revert vs HP. induction arguments as [|a l IH]; intros vs HP; inversion HP; subst; [constructor|]. cbn. constructor; [cbn; by f_equal|by apply IH].
  - unfold Unpack. rewrite HN. case_decide as Hd.
    + destruct arguments as [|a l]; [inversion Hv; done|]. exfalso. pose proof (length_encTuple (encItems ts vs)) as HE. rewrite Hd, encItems_lens in HE by done. unfold ts, argTypes in *. cbn [map] in *. apply Forall_cons in HZ as [HZ _], HS as [_ HS].
      unfold headLens in HE. cbn [map foldr] in HE. pose proof (headLens_nonneg _ HS) as H0. unfold headLens in H0. cbn [length] in HE. lia.
    + unfold UnpackValues. rewrite HN. rewrite <-(map_map (fun a => typ (argType a)) (fun t => (virtualWords t, fun i => toGoType t i (encTuple (encItems ts vs))))). apply (unpackLoop_ok ts vs _ 0 0 0 []); try done.
      rewrite <-(app_nil_r (encTuple _)). by apply encTuple_placements.
Qed.

(** The comment in [ReadInteger] takes all other sizes to be 256: the number in the
    word is answered whatever the size. *)
Lemma odd_size_unchecked name kind n z : n ∉ [8; 16; 32; 64] -> 0 <= z < 2 ^ 256 ->
  Unpack [mkArg name (mkType (UintTy n) kind) false] (word z) = aok [GoPtr (GoNum z)].
Proof.
  intros Hn Hz. destruct (pack_unpack [mkArg name (mkType (UintTy n) kind) false] [GoPtr (GoNum z)]) as [_ H].
  - by repeat constructor.
  - split; [repeat constructor|cbn; lia].
  - repeat constructor.
  - repeat constructor.
  - apply Forall2_cons_2; [|apply Forall2_nil_2]. cbn [valOk argType typ]. rewrite decide_False by done. by exists z.
  - change (Z.of_nat (length (word z ++ [])) < 2 ^ 61). rewrite app_nil_r, length_word. lia.
  - change (encTuple _) with (word z ++ []) in H. by rewrite app_nil_r in H.
Qed.

(** C11: whatever the data, [Unpack] ends without a panic, with an error or with
    one value for every argument.  The value has the argument's Go type; and if
    the integers of the type have 8, 16, 32, 64 or 256 bits, they are within the
    ranges of their types.  Integers of other sizes are not checked. *)
Theorem Unpack_total arguments data : argSizes (argTypes (NonIndexed arguments)) -> bytes_ok data -> Z.of_nat (length data) < 2 ^ 61 ->
  exists r, Unpack arguments data = Done r /\
    forall vs, r = inr vs -> Forall2 (fun t v => valOk t v /\ (checkedSizes t -> inRange t v)) (argTypes (NonIndexed arguments)) vs.
Proof.
  intros Hs Hb Hl. destruct (unpack_total arguments data Hs Hb Hl) as (r & Hr & HV). exists r. split; [exact Hr|]. intros vs Hvs.
  eapply Forall2_impl; [exact (HV vs Hvs)|]. intros t v Hv. split; [exact Hv|]. intros Hc. by apply valOk_inRange.
Qed.

(** C10: [Pack] writes the documented encoding of values of the arguments'
    types, and [Unpack] gives the values back. *)
Theorem Pack_Unpack arguments vs : let ts := argTypes arguments in
  Forall (fun a => argIndexed a = false) arguments -> argSizes ts -> Forall wfType ts -> Forall (fun t => 0 < headLen t) ts -> Forall2 valOk ts vs ->
  Z.of_nat (length (encTuple (encItems ts vs))) < 2 ^ 61 ->
  Pack arguments (zip (map GetType ts) vs) = aok (encTuple (encItems ts vs)) /\ Unpack arguments (encTuple (encItems ts vs)) = aok vs.
Proof. apply pack_unpack. Qed.

Module AbiSample.
(** A list of strings, a pair of a signed and an unsigned number, and an array. *)
Definition pairType : abiType := TupleTy [(lit "low", lit "Low", IntTy 16); (lit "high", lit "High", UintTy 256)].
Definition sampleArgs : list Argument := [
  mkArg (lit "names") (mkType (SliceTy StringTy) (lit "string[]")) false;
  mkArg (lit "range") (mkType pairType (lit "(int16,uint256)")) false;
  mkArg (lit "flags") (mkType (ArrayTy BoolTy 2) (lit "bool[2]")) false].
Definition sampleValues : list goVal := [GoSeq [GoStr [104; 105]; GoStr []]; GoSeq [GoNum (-5); GoPtr (GoNum (2 ^ 255))]; GoSeq [GoBool true; GoBool false]].

Definition sampleBytes : list Z := encTuple (encItems (argTypes sampleArgs) sampleValues).

Lemma sampleArgs_ok : argSizes (argTypes sampleArgs) /\ Forall wfType (argTypes sampleArgs) /\ Forall (fun t => 0 < headLen t) (argTypes sampleArgs).
Proof.
  split; [split; [repeat constructor; cbn; lia|cbn; lia]|]. split; [|repeat constructor]. repeat constructor; cbn; try lia; try discriminate; try reflexivity; [apply not_elem_of_cons; split; [discriminate|]|]; apply not_elem_of_nil.
Qed.

Lemma sampleValues_ok : Forall2 valOk (argTypes sampleArgs) sampleValues.
Proof.
  repeat apply Forall2_cons_2; [| | |apply Forall2_nil_2].
  - eexists. split; [reflexivity|]. repeat constructor; eexists; (split; [reflexivity|by apply bytes_ok_check]).
  - apply valOk_tuple. eexists. split; [reflexivity|]. repeat apply Forall2_cons_2; [| |apply Forall2_nil_2]; cbn [valOk snd].
    + rewrite decide_True by (right; left). exists (-5). split; [reflexivity|lia].
    + rewrite decide_False by (rewrite !elem_of_cons, elem_of_nil; lia). exists (2 ^ 255). split; [reflexivity|lia].
  - eexists. split; [reflexivity|]. split; [|reflexivity]. repeat constructor; by eexists.
Qed.
End AbiSample.

Import AbiSample.

Lemma Pack_Unpack_witness :
  Pack sampleArgs (zip (map GetType (argTypes sampleArgs)) sampleValues) = aok (encTuple (encItems (argTypes sampleArgs) sampleValues)) /\
  Unpack sampleArgs (encTuple (encItems (argTypes sampleArgs) sampleValues)) = aok sampleValues.
Proof.
  destruct sampleArgs_ok as (H1 & H2 & H3). apply (Pack_Unpack sampleArgs sampleValues); [by repeat constructor|exact H1|exact H2|exact H3|exact sampleValues_ok|vm_compute; reflexivity].
Defined.

Lemma Unpack_total_witness : exists r, Unpack sampleArgs sampleBytes = Done r /\ r = inr sampleValues /\
  Forall2 (fun t v => valOk t v /\ (checkedSizes t -> inRange t v)) (argTypes sampleArgs) sampleValues.
Proof.
  destruct sampleArgs_ok as (H1 & _).
  destruct (Unpack_total sampleArgs sampleBytes) as (r & H2 & H3); [exact H1|apply bytes_ok_check; vm_compute; reflexivity|vm_compute; reflexivity|].
  assert (H4 : Unpack sampleArgs sampleBytes = aok sampleValues) by (vm_compute; reflexivity).
  exists r. split; [exact H2|]. rewrite H4 in H2. injection H2 as <-. split; [reflexivity|]. exact (H3 sampleValues eq_refl).
Defined.
