(* ===== verification/AbiBind.v ===== *)
(** * Contracts

    How values get into Go structs ([accounts/abi/reflect.go], [argument.go]), the
    methods and events of a contract ([abi.go], [method.go], [event.go],
    [error.go], [topics.go]) and the contract that bindings are written against
    ([accounts/abi/bind/base.go]).  The decoding of JSON is left out: an
    interface is given by the entries of its description.  The text forms of methods and events,
    which are for printing, are left out. *)

From S2P Require Import Prelude Bytes AbiType AbiCodec.

Local Open Scope Z_scope.
Local Open Scope abi_scope.

(** ** Setting values

    Every destination is settable, since it is reached from a pointer; a
    [big.Int] is only used behind a pointer. *)

Fixpoint sameType (a b : goType) : bool :=
  match a, b with
  | GUint m, GUint n | GInt m, GInt n => bool_decide (m = n)
  | GBool, GBool | GString, GString | GBig, GBig => true
  | GPtr a, GPtr b | GSlice a, GSlice b => sameType a b
  | GArray m a, GArray n b => bool_decide (m = n) && sameType a b
  | GStruct fs, GStruct gs =>
      (fix go (fs gs : list (list Z * list (list Z * list Z) * goType)) : bool :=
         match fs, gs with
         | [], [] => true
         | f :: fs, g :: gs => bool_decide (f.1 = g.1) && sameType f.2 g.2 && go fs gs
         | _, _ => false
         end) fs gs
  | _, _ => false
  end.

(** The zero value. *)
Fixpoint zeroOf (t : goType) : goVal :=
  match t with
  | GUint _ | GInt _ | GBig => GoNum 0
  | GBool => GoBool false
  | GString => GoStr []
  | GPtr _ => GoNil
  | GSlice _ => GoSeq []
  | GArray n t => GoSeq (replicate (Z.to_nat n) (zeroOf t))
  | GStruct fs => GoSeq (map (fun f => zeroOf f.2) fs)
  end.

Fixpoint mapAbi (f : goVal -> abi goVal) (l : list goVal) : abi (list goVal) :=
  match l with
  | [] => aok []
  | v :: l => x <-- f v; xs <-- mapAbi f l; aok (x :: xs)
  end.

(** What [Len] and [Index] see: the type of the elements and the elements. *)
Definition elements (t : goType) (v : goVal) : outcome (goType * list goVal) :=
  match t, v with
  | GSlice e, GoSeq vs | GArray _ e, GoSeq vs => Done (e, vs)
  | GString, GoStr s => Done (byteType, map GoNum s)
  | _, _ => Panic
  end.

(** [set]: what [d] becomes.  An array and a [big.Int] recurse into one another
    without end. *)
Fixpoint set (dt : goType) (d : goVal) (st : goType) (s : goVal) {struct dt} : abi goVal :=
  let setArray n de st s : abi goVal :=
    '(se, vs) ← elements st s;
    xs <-- mapAbi (set de (zeroOf de) se) (take (Z.to_nat n) vs);
    aok (GoSeq (xs ++ replicate (Z.to_nat n - length vs) (zeroOf de))) in
  match dt with
  | GPtr t =>
      match t with
      | GBig => if sameType st dt then aok s else aerr errCannotSet
      | _ => match d with GoPtr d => r <-- set t d st s; aok (GoPtr r) | _ => Panic end
      end
  | _ =>
      if sameType st dt then aok s
      else match dt, st with
           | GSlice de, GSlice se => match s with GoSeq vs => xs <-- mapAbi (set de (zeroOf de) se) vs; aok (GoSeq xs) | _ => Panic end
           | GArray n de, GPtr _ =>
               '(st, s) ← indirect st s;
               match st with
               | GPtr _ => Stuck
               | _ => if sameType st dt then aok s else setArray n de st s
               end
           | GArray n de, _ => setArray n de st s
           | GStruct fs, GStruct gs =>
               match d, s with
               | GoSeq ds, GoSeq ss =>
                   xs <-- (fix go (fs : list (list Z * list (list Z * list Z) * goType)) (ds : list goVal) (gs : list (list Z * list (list Z * list Z) * goType)) (ss : list goVal) : abi (list goVal) :=
                     match gs, ss with
                     | [], _ => aok ds
                     | g :: gs, s :: ss =>
                         match fs, ds with
                         | f :: fs, d :: ds => x <-- set f.2 d g.2 s; xs <-- go fs ds gs ss; aok (x :: xs)
                         | _, _ => Panic
                         end
                     | _ :: _, [] => Panic
                     end) fs ds gs ss;
                   aok (GoSeq xs)
               | _, _ => Panic
               end
           | GStruct _, _ => Panic
           | _, _ => aerr errCannotSet
           end
  end.

(** Setting field [i] of a struct. *)
Definition setField (fs : list (list Z * list (list Z * list Z) * goType)) (vs : list goVal) (i : nat) (st : goType) (s : goVal) : abi (list goVal) :=
  match fs !! i, vs !! i with
  | Some f, Some d => x <-- set f.2 d st s; aok (<[i := x]> vs)
  | _, _ => Panic
  end.

(** ** Copying values to a struct *)

Definition argGoType (a : Argument) : goType := GetType (typ (argType a)).

Definition copyAtomic (t : goType) (v : goVal) (st : goType) (s : goVal) : abi goVal :=
  match t, v with
  | GStruct fs, GoSeq vs => vs <-- setField fs vs 0 st s; aok (GoSeq vs)
  | _, _ => set t v st s
  end.

(** [value] and [marshalledValues] with their types. *)
Definition copyTuple (arguments : list Argument) (t : goType) (v : goVal) (values : list goVal) : abi goVal :=
  let nonIndexedArgs := NonIndexed arguments in
  match t, v with
  | GStruct fs, GoSeq vs =>
      abi2struct <-- mapArgNamesToStructFields (map argName nonIndexedArgs) fs;
      vs <-- fold_abi (fun vs '(a, value) =>
          match FieldByName fs (fieldOf abi2struct (argName a)), value with
          | None, _ => aerr errNoField
          | Some (i, _), Some value => setField fs vs i (argGoType a) value
          | _, None => Panic
          end) (imap (fun i a => (a, values !! i)) nonIndexedArgs) vs;
      aok (GoSeq vs)
  | GSlice e, GoSeq vs | GArray _ e, GoSeq vs =>
      if decide (length vs < length values)%nat then aerr errArgCount
      else
        vs <-- fold_abi (fun vs '(i, a) =>
            match vs !! i, values !! i with
            | Some d, Some value => x <-- set e d (argGoType a) value; aok (<[i := x]> vs)
            | _, _ => Panic
            end) (imap pair nonIndexedArgs) vs;
        aok (GoSeq vs)
  | _, _ => aerr errCannotSet
  end.

(** [Arguments.Copy] to what a pointer of type [*t] points to. *)
Definition Copy (arguments : list Argument) (t : goType) (v : goVal) (values : list goVal) : abi goVal :=
  match values with
  | [] => if decide (NonIndexed arguments <> []) then aerr errNoValues else aok v
  | value :: _ =>
      if decide (1 < length arguments)%nat then copyTuple arguments t v values
      else match NonIndexed arguments with
           | a :: _ => copyAtomic t v (argGoType a) value
           | [] => Panic
           end
  end.

(** [ConvertType] of a value to a new [t]; a struct is not convertible to a
    pointer. *)
Definition ConvertType (st : goType) (s : goVal) (t : goType) : abi goVal :=
  r ← set t (zeroOf t) st s;
  match r with inr v => aok v | inl _ => Panic end.

(** ** Methods and events *)

Section Contracts.
Context {U : Unicode} (sha : list Z -> list Z).

(** Inputs and outputs that the description leaves out are nil. *)
Abbreviation Arguments_ := (option (list Argument)) (only parsing).

Inductive FunctionType := Constructor_ | Fallback_ | Receive_ | Function_.

#[local] Instance FunctionType_eq_dec : EqDecision FunctionType.
Proof. solve_decision. Defined.

Record Method := mkMethod {
  mName : list Z; mRawName : list Z; mType : FunctionType; mStateMutability : list Z; mConstant : bool; mPayable : bool;
  mInputs : Arguments_; mOutputs : Arguments_; mSig : list Z; mID : list Z
}.

(** The zero value. *)
Definition noMethod : Method := mkMethod [] [] Constructor_ [] false false None None [] [].

Definition signature (rawName : list Z) (inputs : Arguments_) : list Z :=
  rawName ++ [40] ++ joinWith [44] (map (fun a => stringKind (argType a)) (default [] inputs)) ++ [41].

Definition NewMethod (name rawName : list Z) (funType : FunctionType) (mutability : list Z) (isConst isPayable : bool) (inputs outputs : Arguments_) : Method :=
  let sig := if decide (funType = Function_) then signature rawName inputs else [] in
  let id := if decide (funType = Function_) then take 4 (sha sig) else [] in
  mkMethod name rawName funType mutability isConst isPayable inputs outputs sig id.

(** Arguments without a name are named by their position. *)
Definition nameArguments (inputs : list Argument) : list Argument :=
  imap (fun i a => if decide (argName a = []) then mkArg (lit "arg" ++ itoa i) (argType a) (argIndexed a) else a) inputs.

Record Event := mkAbiEvent { eName : list Z; eRawName : list Z; eAnonymous : bool; eInputs : Arguments_; eSig : list Z; eID : Hash }.

Definition NewEvent (name rawName : list Z) (anonymous : bool) (inputs : Arguments_) : Event :=
  let sig := signature rawName inputs in
  mkAbiEvent name rawName anonymous (nameArguments <$> inputs) sig (BytesToHash (sha sig)).

Record AbiError := mkAbiError { erName : list Z; erInputs : Arguments_; erSig : list Z; erID : Hash }.

Definition NewError (name : list Z) (inputs : Arguments_) : AbiError :=
  let sig := signature name inputs in mkAbiError name (nameArguments <$> inputs) sig (BytesToHash (sha sig)).

Record ABI := mkABI {
  Constructor__ : Method; Methods : gmap (list Z) Method; Events : gmap (list Z) Event; Errors : gmap (list Z) AbiError; Fallback__ : Method; Receive__ : Method
}.

(** An entry of a contract's description. *)
Record abiEntry := mkEntry {
  enType : list Z; enName : list Z; enInputs : option (list ArgumentMarshaling); enOutputs : option (list ArgumentMarshaling);
  enStateMutability : list Z; enConstant : bool; enPayable : bool; enAnonymous : bool
}.

Definition unmarshalArgs (l : option (list ArgumentMarshaling)) : abi Arguments_ :=
  match l with
  | None => aok None
  | Some l => args <-- fold_abi (fun acc c => a <-- UnmarshalArgument c; aok (acc ++ [a])) l []; aok (Some args)
  end.

Definition abiStep (a : ABI) (field : abiEntry * (Arguments_ * Arguments_)) : abi ABI :=
  let '(f, (inputs, outputs)) := field in
  let method name rawName typ inputs outputs := NewMethod name rawName typ (enStateMutability f) (enConstant f) (enPayable f) inputs outputs in
  if decide (enType f = lit "constructor") then
    aok (mkABI (method [] [] Constructor_ inputs None) (Methods a) (Events a) (Errors a) (Fallback__ a) (Receive__ a))
  else if decide (enType f = lit "function") then
    name ← ResolveNameConflict (base.size (Methods a)) (enName f) (fun s => bool_decide (is_Some (Methods a !! s)));
    aok (mkABI (Constructor__ a) (<[name := method name (enName f) Function_ inputs outputs]> (Methods a)) (Events a) (Errors a) (Fallback__ a) (Receive__ a))
  else if decide (enType f = lit "fallback") then
    if decide (mType (Fallback__ a) = Fallback_) then aerr errFallback
    else aok (mkABI (Constructor__ a) (Methods a) (Events a) (Errors a) (method [] [] Fallback_ None None) (Receive__ a))
  else if decide (enType f = lit "receive") then
    if decide (mType (Receive__ a) = Receive_) then aerr errReceive
    else if decide (enStateMutability f <> lit "payable") then aerr errMutability
    else aok (mkABI (Constructor__ a) (Methods a) (Events a) (Errors a) (Fallback__ a) (method [] [] Receive_ None None))
  else if decide (enType f = lit "event") then
    name ← ResolveNameConflict (base.size (Events a)) (enName f) (fun s => bool_decide (is_Some (Events a !! s)));
    aok (mkABI (Constructor__ a) (Methods a) (<[name := NewEvent name (enName f) (enAnonymous f) inputs]> (Events a)) (Errors a) (Fallback__ a) (Receive__ a))
  else if decide (enType f = lit "error") then
    aok (mkABI (Constructor__ a) (Methods a) (Events a) (<[enName f := NewError (enName f) inputs]> (Errors a)) (Fallback__ a) (Receive__ a))
  else aerr errFieldType.

(** [UnmarshalJSON] on the entries. *)
Definition UnmarshalABI (fields : list abiEntry) : abi ABI :=
  fields <-- fold_abi (fun acc f =>
      inputs <-- unmarshalArgs (enInputs f); outputs <-- unmarshalArgs (enOutputs f); aok (acc ++ [(f, (inputs, outputs))])) fields [];
  fold_abi abiStep fields (mkABI noMethod ∅ ∅ ∅ noMethod noMethod).

Definition getArguments (a : ABI) (name data : list Z) : abi (list Argument) :=
  args <-- (match Methods a !! name with
            | Some m => if decide (length data `mod` 32 <> 0)%nat then aerr errOutputFormat else aok (mOutputs m)
            | None => aok None
            end);
  let args := match Events a !! name with Some e => eInputs e | None => args end in
  match args with Some args => aok args | None => aerr errNoName end.

(** [ABI.Pack]. *)
Definition abiPack (a : ABI) (name : list Z) (args : list (goType * goVal)) : abi (list Z) :=
  if decide (name = []) then Pack (default [] (mInputs (Constructor__ a))) args
  else match Methods a !! name with
       | None => aerr errNoMethod
       | Some m => arguments <-- Pack (default [] (mInputs m)) args; aok (mID m ++ arguments)
       end.

Definition abiUnpack (a : ABI) (name data : list Z) : abi (list goVal) :=
  args <-- getArguments a name data; Unpack args data.

Definition UnpackIntoInterface (a : ABI) (t : goType) (v : goVal) (name data : list Z) : abi goVal :=
  args <-- getArguments a name data;
  unpacked <-- Unpack args data;
  Copy args t v unpacked.

(** ** Topics *)

(** The value of an indexed argument with its type. *)
Definition parseTopic (a : Argument) (topic : Hash) : abi (goType * goVal) :=
  if negb (argIndexed a) then aerr errNotIndexed
  else match typ (argType a) with
       | TupleTy _ => aerr errTupleTopic
       | StringTy | BytesTy | SliceTy _ | ArrayTy _ _ => aok (GArray 32 byteType, goBytes topic)
       | FunctionTy =>
           garbage ← subslice topic 0 8;
           if decide (be_to_Z garbage <> 0) then aerr errFunction
           else tmp ← subslice topic 8 32; aok (GArray 24 byteType, goBytes tmp)
       | t => v <-- toGoType t 0 topic; aok (GetType t, v)
       end.

(** [ParseTopics] into a struct; setting a field of another type, or none,
    panics. *)
Definition ParseTopics (t : goType) (v : goVal) (fields : list Argument) (topics : list Hash) : abi goVal :=
  if decide (length fields <> length topics) then aerr errTopicCount
  else fold_abi (fun v '(a, topic) =>
      '(st, s) <-- parseTopic a topic;
      match t, v with
      | GStruct fs, GoSeq vs =>
          match FieldByName fs (ToCamelCase (argName a)) with
          | Some (i, ft) => if sameType st ft then aok (GoSeq (<[i := s]> vs)) else Panic
          | None => Panic
          end
      | _, _ => Panic
      end) (zip fields topics) v.

(** ** Bound contracts *)

(** [UnpackLog] into a struct, for a log with these topics and data. *)
Definition UnpackLog (a : ABI) (t : goType) (v : goVal) (event : list Z) (topics : list Hash) (data : list Z) : abi goVal :=
  match topics with
  | [] => aerr errNoEventSignature
  | topic :: topics =>
      let id := match Events a !! event with Some e => eID e | None => zeroHash end in
      let inputs := match Events a !! event with Some e => default [] (eInputs e) | None => [] end in
      if decide (topic <> id) then aerr errEventSignatureMismatch
      else
        v <-- (if decide (data = []) then aok v else UnpackIntoInterface a t v event data);
        ParseTopics t v (filter (fun x => argIndexed x = true) inputs) topics
  end.

(** [Call] with no results given: the node answers the call with [output], or
    an error, and has the code [code] at the address, or fails. *)
Definition Call (a : ABI) (callContract : list Z -> option (list Z)) (codeAt : option (list Z)) (method : list Z) (params : list (goType * goVal)) : abi (list goVal) :=
  input <-- abiPack a method params;
  match callContract input with
  | None => aerr errCall
  | Some output =>
      _ <-- (if decide (output = []) then match codeAt with None => aerr errCall | Some code => if decide (code = []) then aerr errNoCode else aok () end else aok ());
      abiUnpack a method output
  end.
End Contracts.
