(* ===== verification/Contracts.v ===== *)
(** * The layer-one contracts

    The bindings of [contract/CommitmentManager.go] and
    [contract/StorageManager.go] that the synchroniser calls.  The descriptions of
    the contracts are those of the files, entry by entry, without the
    internal types. *)

From S2P Require Import Prelude Bytes RlpEncode AbiType AbiCodec AbiSpec AbiRead AbiBind.

Local Open Scope Z_scope.
Local Open Scope abi_scope.

(** ** Descriptions *)

Definition CommitmentManagerMetaData : list abiEntry := [
  mkEntry (lit "constructor") []
    (Some [])
    None (lit "nonpayable") false false false;
  mkEntry (lit "event") (lit "Initialized")
    (Some [mkArgM (lit "version") (lit "uint8") [] false])
    None [] false false false;
  mkEntry (lit "event") (lit "OwnershipTransferred")
    (Some [mkArgM (lit "previousOwner") (lit "address") [] true; mkArgM (lit "newOwner") (lit "address") [] true])
    None [] false false false;
  mkEntry (lit "event") (lit "SendDACommitment")
    (Some [mkArgM (lit "commitment") (lit "tuple") [mkArgM (lit "X") (lit "uint256") [] false; mkArgM (lit "Y") (lit "uint256") [] false] false; mkArgM (lit "timestamp") (lit "uint256") [] false; mkArgM (lit "nonce") (lit "uint256") [] false; mkArgM (lit "index") (lit "uint256") [] false; mkArgM (lit "len") (lit "uint256") [] false; mkArgM (lit "dasKey") (lit "bytes32") [] false; mkArgM (lit "nameSpaceId") (lit "uint256") [] false; mkArgM (lit "signatures") (lit "bytes[]") [] false])
    None [] false false false;
  mkEntry (lit "function") (lit "COMMITMENTS")
    (Some [mkArgM (lit "_nonce") (lit "uint256") [] false])
    (Some [mkArgM [] (lit "tuple") [mkArgM (lit "timestamp") (lit "uint256") [] false; mkArgM (lit "hashSignatures") (lit "bytes32") [] false] false]) (lit "view") false false false;
  mkEntry (lit "function") (lit "COMMITMENTS")
    (Some [mkArgM (lit "_user") (lit "address") [] false; mkArgM (lit "_index") (lit "uint256") [] false])
    (Some [mkArgM [] (lit "tuple") [mkArgM (lit "timestamp") (lit "uint256") [] false; mkArgM (lit "hashSignatures") (lit "bytes32") [] false] false]) (lit "view") false false false;
  mkEntry (lit "function") (lit "SubmitCommitment")
    (Some [mkArgM (lit "_length") (lit "uint256") [] false; mkArgM (lit "_timeout") (lit "uint256") [] false; mkArgM (lit "_nameSpaceId") (lit "uint256") [] false; mkArgM (lit "_nodeGroupKey") (lit "bytes32") [] false; mkArgM (lit "_signatures") (lit "bytes[]") [] false; mkArgM (lit "_commitment") (lit "tuple") [mkArgM (lit "X") (lit "uint256") [] false; mkArgM (lit "Y") (lit "uint256") [] false] false])
    (Some []) (lit "payable") false false false;
  mkEntry (lit "function") (lit "commitments")
    (Some [mkArgM [] (lit "uint256") [] false])
    (Some [mkArgM (lit "X") (lit "uint256") [] false; mkArgM (lit "Y") (lit "uint256") [] false]) (lit "view") false false false;
  mkEntry (lit "function") (lit "daDetails")
    (Some [mkArgM [] (lit "bytes32") [] false])
    (Some [mkArgM (lit "timestamp") (lit "uint256") [] false; mkArgM (lit "hashSignatures") (lit "bytes32") [] false]) (lit "view") false false false;
  mkEntry (lit "function") (lit "getNameSpaceCommitment")
    (Some [mkArgM (lit "_nameSpaceId") (lit "uint256") [] false; mkArgM (lit "_index") (lit "uint256") [] false])
    (Some [mkArgM [] (lit "tuple") [mkArgM (lit "X") (lit "uint256") [] false; mkArgM (lit "Y") (lit "uint256") [] false] false]) (lit "view") false false false;
  mkEntry (lit "function") (lit "getUserCommitment")
    (Some [mkArgM (lit "_user") (lit "address") [] false; mkArgM (lit "_index") (lit "uint256") [] false])
    (Some [mkArgM [] (lit "tuple") [mkArgM (lit "X") (lit "uint256") [] false; mkArgM (lit "Y") (lit "uint256") [] false] false]) (lit "view") false false false;
  mkEntry (lit "function") (lit "indices")
    (Some [mkArgM [] (lit "address") [] false])
    (Some [mkArgM [] (lit "uint256") [] false]) (lit "view") false false false;
  mkEntry (lit "function") (lit "initialize")
    (Some [mkArgM (lit "_nodeManager") (lit "address") [] false; mkArgM (lit "_storageManagement") (lit "address") [] false])
    (Some []) (lit "nonpayable") false false false;
  mkEntry (lit "function") (lit "nameSpaceCommitments")
    (Some [mkArgM [] (lit "uint256") [] false; mkArgM [] (lit "uint256") [] false])
    (Some [mkArgM (lit "X") (lit "uint256") [] false; mkArgM (lit "Y") (lit "uint256") [] false]) (lit "view") false false false;
  mkEntry (lit "function") (lit "nameSpaceIndex")
    (Some [mkArgM [] (lit "uint256") [] false])
    (Some [mkArgM [] (lit "uint256") [] false]) (lit "view") false false false;
  mkEntry (lit "function") (lit "nodeManager")
    (Some [])
    (Some [mkArgM [] (lit "address") [] false]) (lit "view") false false false;
  mkEntry (lit "function") (lit "nonce")
    (Some [])
    (Some [mkArgM [] (lit "uint256") [] false]) (lit "view") false false false;
  mkEntry (lit "function") (lit "owner")
    (Some [])
    (Some [mkArgM [] (lit "address") [] false]) (lit "view") false false false;
  mkEntry (lit "function") (lit "renounceOwnership")
    (Some [])
    (Some []) (lit "nonpayable") false false false;
  mkEntry (lit "function") (lit "storageManagement")
    (Some [])
    (Some [mkArgM [] (lit "address") [] false]) (lit "view") false false false;
  mkEntry (lit "function") (lit "transferOwnership")
    (Some [mkArgM (lit "newOwner") (lit "address") [] false])
    (Some []) (lit "nonpayable") false false false;
  mkEntry (lit "function") (lit "userCommitments")
    (Some [mkArgM [] (lit "address") [] false; mkArgM [] (lit "uint256") [] false])
    (Some [mkArgM (lit "X") (lit "uint256") [] false; mkArgM (lit "Y") (lit "uint256") [] false]) (lit "view") false false false;
  mkEntry (lit "function") (lit "version")
    (Some [])
    (Some [mkArgM [] (lit "string") [] false]) (lit "view") false false false;
  mkEntry (lit "function") (lit "withdraw")
    (Some [])
    (Some []) (lit "nonpayable") false false false].

Definition StorageManagerMetaData : list abiEntry := [
  mkEntry (lit "constructor") []
    (Some [])
    None (lit "nonpayable") false false false;
  mkEntry (lit "event") (lit "Initialized")
    (Some [mkArgM (lit "version") (lit "uint8") [] false])
    None [] false false false;
  mkEntry (lit "event") (lit "NameSpaceCreated")
    (Some [mkArgM (lit "id") (lit "uint256") [] true; mkArgM (lit "creator") (lit "address") [] true; mkArgM (lit "addr") (lit "address[]") [] false])
    None [] false false false;
  mkEntry (lit "event") (lit "NodeInfoStored")
    (Some [mkArgM (lit "user") (lit "address") [] true; mkArgM (lit "key") (lit "bytes32") [] true; mkArgM (lit "addrs") (lit "address[]") [] false])
    None [] false false false;
  mkEntry (lit "function") (lit "NAMESPACE")
    (Some [mkArgM (lit "_id") (lit "uint256") [] false])
    (Some [mkArgM [] (lit "tuple") [mkArgM (lit "creator") (lit "address") [] false; mkArgM (lit "addr") (lit "address[]") [] false] false]) (lit "view") false false false;
  mkEntry (lit "function") (lit "NODEGROUP")
    (Some [mkArgM (lit "_key") (lit "bytes32") [] false])
    (Some [mkArgM [] (lit "tuple") [mkArgM (lit "requiredAmountOfSignatures") (lit "uint256") [] false; mkArgM (lit "addrs") (lit "address[]") [] false] false]) (lit "view") false false false;
  mkEntry (lit "function") (lit "createNameSpace")
    (Some [mkArgM (lit "_addrs") (lit "address[]") [] false])
    (Some [mkArgM [] (lit "uint256") [] false]) (lit "nonpayable") false false false;
  mkEntry (lit "function") (lit "getKeyForAddresses")
    (Some [mkArgM (lit "_addrs") (lit "address[]") [] false; mkArgM (lit "_requiredAmountOfSignatures") (lit "uint256") [] false])
    (Some [mkArgM [] (lit "bytes32") [] false]) (lit "view") false false false;
  mkEntry (lit "function") (lit "initialize")
    (Some [mkArgM (lit "_nodeManager") (lit "address") [] false])
    (Some []) (lit "nonpayable") false false false;
  mkEntry (lit "function") (lit "nameSpace")
    (Some [mkArgM [] (lit "uint256") [] false])
    (Some [mkArgM (lit "creator") (lit "address") [] false]) (lit "view") false false false;
  mkEntry (lit "function") (lit "nodeGroup")
    (Some [mkArgM [] (lit "bytes32") [] false])
    (Some [mkArgM (lit "requiredAmountOfSignatures") (lit "uint256") [] false]) (lit "view") false false false;
  mkEntry (lit "function") (lit "nodeManager")
    (Some [])
    (Some [mkArgM [] (lit "address") [] false]) (lit "view") false false false;
  mkEntry (lit "function") (lit "nonce")
    (Some [])
    (Some [mkArgM [] (lit "uint256") [] false]) (lit "view") false false false;
  mkEntry (lit "function") (lit "storeAddressMapping")
    (Some [mkArgM (lit "_requiredAmountOfSignatures") (lit "uint256") [] false; mkArgM (lit "_addrs") (lit "address[]") [] false])
    (Some [mkArgM (lit "ksHash") (lit "bytes32") [] false]) (lit "nonpayable") false false false;
  mkEntry (lit "function") (lit "version")
    (Some [])
    (Some [mkArgM [] (lit "string") [] false]) (lit "view") false false false].

(** ** Bindings *)

Definition bigPtr : goType := GPtr GBig.
Definition PairingG1Point : goType := GStruct [(lit "X", [], bigPtr); (lit "Y", [], bigPtr)].

(** The field [Raw] gets the log and takes no part in the decoding. *)
Definition CommitmentManagerSendDACommitment : goType := GStruct [
  (lit "Commitment", [], PairingG1Point); (lit "Timestamp", [], bigPtr); (lit "Nonce", [], bigPtr); (lit "Index", [], bigPtr); (lit "Len", [], bigPtr);
  (lit "DasKey", [], GArray 32 byteType); (lit "NameSpaceId", [], bigPtr); (lit "Signatures", [], GSlice (GSlice byteType)); (lit "Raw", [], GStruct [])].

Definition NameSpaceType : goType := GStruct [(lit "Creator", [], GArray 20 byteType); (lit "Addr", [], GSlice (GArray 20 byteType))].

(** The event; a number is nil if nothing was read into it. *)
Record daEvent := mkEvent {
  evCommitment : option Z * option Z; evTimestamp : option Z; evNonce : option Z; evIndex : option Z; evLen : option Z; evDasKey : list Z;
  evNameSpaceId : option Z; evSignatures : list (list Z)
}.

Definition bigOf (v : goVal) : option Z := match v with GoPtr (GoNum z) => Some z | _ => None end.

Definition eventOf (v : goVal) : outcome daEvent :=
  match v with
  | GoSeq [GoSeq [x; y]; timestamp; nonce; index; len; dasKey; nameSpaceId; signatures; _] =>
      Done (mkEvent (bigOf x, bigOf y) (bigOf timestamp) (bigOf nonce) (bigOf index) (bigOf len) (rawOf dasKey) (bigOf nameSpaceId) (map rawOf (seqOf signatures)))
  | _ => Panic
  end.

(** The names in the descriptions are ASCII, so that the tables of package
    [unicode] are not asked ([tables_unused]). *)
#[local] Instance asciiNames : Unicode := {| tableLetter := fun _ => false; tableDigit := fun _ => false |}.

Section Bindings.
Variable sha : list Z -> list Z.

(** A contract whose description cannot be read is a nil instance, which the
    callers use. *)
Definition GetAbi (metaData : list abiEntry) : outcome ABI :=
  r ← UnmarshalABI sha metaData;
  match r with inr a => Done a | inl _ => Panic end.

Definition ParseSendDACommitment (topics : list Hash) (data : list Z) : abi daEvent :=
  a ← GetAbi CommitmentManagerMetaData;
  v <-- UnpackLog a CommitmentManagerSendDACommitment (zeroOf CommitmentManagerSendDACommitment) (lit "SendDACommitment") topics data;
  ev ← eventOf v;
  aok ev.

(** The Go type of the first result of a method. *)
Definition resultType (a : ABI) (method : list Z) : goType :=
  match Methods a !! method with Some m => match default [] (mOutputs m) with r :: _ => argGoType r | [] => GBool end | None => GBool end.

(** [NAMESPACE]: the addresses of the answer. *)
Definition NAMESPACE (callContract : list Z -> option (list Z)) (codeAt : option (list Z)) (id : Z) : abi (list Address) :=
  a ← GetAbi StorageManagerMetaData;
  out <-- Call a callContract codeAt (lit "NAMESPACE") [(bigPtr, GoPtr (GoNum id))];
  out0 ← index out 0;
  v <-- ConvertType (resultType a (lit "NAMESPACE")) out0 NameSpaceType;
  match v with GoSeq [_; addr] => aok (map rawOf (seqOf addr)) | _ => Panic end.
End Bindings.

Lemma tables_unused (u : Unicode) (sha : list Z -> list Z) :
  @UnmarshalABI u sha CommitmentManagerMetaData = UnmarshalABI sha CommitmentManagerMetaData /\ @UnmarshalABI u sha StorageManagerMetaData = UnmarshalABI sha StorageManagerMetaData.
Proof. split; [vm_cast_no_check (eq_refl (UnmarshalABI sha CommitmentManagerMetaData))|vm_cast_no_check (eq_refl (UnmarshalABI sha StorageManagerMetaData))]. Qed.

(** ** The description of the commitment manager *)

Definition uint256Type : Type_ := mkType (UintTy 256) (lit "uint256").
Definition bytes32Type : Type_ := mkType (FixedBytesTy 32) (lit "bytes32").
Definition bytesSliceType : Type_ := mkType (SliceTy BytesTy) (lit "bytes[]").
Definition pointType : Type_ := mkType (TupleTy [(lit "X", lit "X", UintTy 256); (lit "Y", lit "Y", UintTy 256)]) (lit "(uint256,uint256)").

Definition sendDAInputs : list Argument := [
  mkArg (lit "commitment") pointType false; mkArg (lit "timestamp") uint256Type false; mkArg (lit "nonce") uint256Type false; mkArg (lit "index") uint256Type false;
  mkArg (lit "len") uint256Type false; mkArg (lit "dasKey") bytes32Type false; mkArg (lit "nameSpaceId") uint256Type false; mkArg (lit "signatures") bytesSliceType false].

Definition sendDASig : list Z := lit "SendDACommitment((uint256,uint256),uint256,uint256,uint256,uint256,bytes32,uint256,bytes[])".

Definition submitInputs : list Argument := [
  mkArg (lit "_length") uint256Type false; mkArg (lit "_timeout") uint256Type false; mkArg (lit "_nameSpaceId") uint256Type false; mkArg (lit "_nodeGroupKey") bytes32Type false;
  mkArg (lit "_signatures") bytesSliceType false; mkArg (lit "_commitment") pointType false].

Definition submitSig : list Z := lit "SubmitCommitment(uint256,uint256,uint256,bytes32,bytes[],(uint256,uint256))".

Definition nameSpaceInputs : list Argument := [mkArg (lit "_id") uint256Type false].
Definition nameSpaceOutput : abiType := TupleTy [(lit "creator", lit "Creator", AddressTy); (lit "addr", lit "Addr", SliceTy AddressTy)].
Definition nameSpaceOutputs : list Argument := [mkArg [] (mkType nameSpaceOutput (lit "(address,address[])")) false].
Definition nameSpaceSig : list Z := lit "NAMESPACE(uint256)".

Definition isSome {A : Type} (o : option A) : bool := match o with Some _ => true | None => false end.

Lemma triple_eq {A B C} (a a' : A) (b b' : B) (c c' : C) : (a, b, c) = (a', b', c') -> a = a' /\ b = b' /\ c = c'.
Proof. by intros [= -> -> ->]. Qed.

Section Reading.
Variable sha : list Z -> list Z.

Lemma manager_abi : exists a, GetAbi sha CommitmentManagerMetaData = Done a /\
  Events a !! lit "SendDACommitment" = Some (mkAbiEvent (lit "SendDACommitment") (lit "SendDACommitment") false (Some sendDAInputs) sendDASig (BytesToHash (sha sendDASig))) /\
  Methods a !! lit "SendDACommitment" = None /\
  (exists m, Methods a !! lit "SubmitCommitment" = Some m /\ mInputs m = Some submitInputs /\ mID m = take 4 (sha submitSig)).
Proof.
  destruct (isDone_true (GetAbi sha CommitmentManagerMetaData)) as [a Ha]; [vm_compute; reflexivity|]. exists a. split; [exact Ha|].
  assert (H : match GetAbi sha CommitmentManagerMetaData with
              | Done a => (Events a !! lit "SendDACommitment", isSome (Methods a !! lit "SendDACommitment"), (fun m => (mInputs m, mID m)) <$> Methods a !! lit "SubmitCommitment")
              | _ => (None, true, None)
              end = (Some (mkAbiEvent (lit "SendDACommitment") (lit "SendDACommitment") false (Some sendDAInputs) sendDASig (BytesToHash (sha sendDASig))), false,
                     Some (Some submitInputs, take 4 (sha submitSig)))) by (vm_compute; reflexivity).
  rewrite Ha in H. apply triple_eq in H as (H1 & H2 & H3). split; [exact H1|]. split; [by destruct (Methods a !! lit "SendDACommitment")|].
  destruct (Methods a !! lit "SubmitCommitment") as [m|]; [|discriminate H3]. exists m. apply (f_equal (from_option id (mInputs m, mID m))) in H3. cbn [from_option fmap option_fmap option_map id] in H3.
  apply pair_equal_spec in H3 as [H3 H4]. split; [done|]. split; [exact H3|exact H4].
Qed.

(** ** The event *)

(** The values of the event in the order of its arguments. *)
Definition eventValues (x y timestamp nonce index len : Z) (dasKey : list Z) (nameSpaceId : Z) (signatures : list (list Z)) : list goVal :=
  let big z := GoPtr (GoNum z) in
  [GoSeq [big x; big y]; big timestamp; big nonce; big index; big len; goBytes dasKey; big nameSpaceId; GoSeq (map goBytes signatures)].

Lemma copy_event x y timestamp nonce index len dasKey nameSpaceId signatures :
  Copy sendDAInputs CommitmentManagerSendDACommitment (zeroOf CommitmentManagerSendDACommitment) (eventValues x y timestamp nonce index len dasKey nameSpaceId signatures) =
  aok (GoSeq (eventValues x y timestamp nonce index len dasKey nameSpaceId signatures ++ [GoSeq []])).
Proof. vm_compute. reflexivity. Qed.

(** An event with no number missing, each a number of 256 bits. *)
Definition eventOk (ev : daEvent) : Prop :=
  exists x y timestamp nonce index len nameSpaceId,
    ev = mkEvent (Some x, Some y) (Some timestamp) (Some nonce) (Some index) (Some len) (evDasKey ev) (Some nameSpaceId) (evSignatures ev) /\
    Forall (fun z => 0 <= z < 2 ^ 256) [x; y; timestamp; nonce; index; len; nameSpaceId] /\
    hash_ok (evDasKey ev) /\ Forall bytes_ok (evSignatures ev).

(** The values of the event in [ev] are those of the list. *)
Definition eventHas (ev : daEvent) (vs : list goVal) : Prop :=
  exists x y timestamp nonce index len nameSpaceId,
    ev = mkEvent (Some x, Some y) (Some timestamp) (Some nonce) (Some index) (Some len) (evDasKey ev) (Some nameSpaceId) (evSignatures ev) /\
    vs = eventValues x y timestamp nonce index len (evDasKey ev) nameSpaceId (evSignatures ev).

(** What is left in the struct when the log has no data. *)
Definition emptyEvent : daEvent := mkEvent (None, None) None None None None (replicate 32 0) None [].

Lemma rawOf_list (l : list (list Z)) : map rawOf (map goBytes l) = l.
Proof. induction l as [|b l IH]; [done|]. cbn [map]. by rewrite rawOf_goBytes, IH. Qed.

Lemma event_of x y timestamp nonce index len dasKey nameSpaceId signatures :
  eventOf (GoSeq (eventValues x y timestamp nonce index len dasKey nameSpaceId signatures ++ [GoSeq []])) =
  Done (mkEvent (Some x, Some y) (Some timestamp) (Some nonce) (Some index) (Some len) dasKey (Some nameSpaceId) signatures).
Proof. cbn [eventOf eventValues app bigOf seqOf]. by rewrite rawOf_goBytes, rawOf_list. Qed.

Lemma sendDA_indexed : filter (fun x => argIndexed x = true) sendDAInputs = [].
Proof. done. Qed.

(** What is done with a log, for a contract with the event. *)
Lemma unpackLog_eq a e inputs t v event topics data : Events a !! event = Some e -> eInputs e = Some inputs -> Methods a !! event = None -> filter (fun x => argIndexed x = true) inputs = [] -> topics <> [] ->
  UnpackLog a t v event topics data =
  (if decide (head topics <> Some (eID e)) then aerr errEventSignatureMismatch
   else
     v <-- (if decide (data = []) then aok v else unpacked <-- Unpack inputs data; Copy inputs t v unpacked);
     if decide (0%nat <> length (tail topics)) then aerr errTopicCount else aok v).
Proof.
  intros He Hi Hm Hf Ht. destruct topics as [|topic topics]; [done|]. cbn [UnpackLog head tail]. rewrite He, Hi. cbn [default from_option].
  destruct (decide (topic = eID e)) as [->|Hn]; [|rewrite decide_True by done; by rewrite decide_True by congruence]. rewrite !(decide_False (P := _ <> _)) by (intros []; done).
  assert (UnpackIntoInterface a t v event data = unpacked <-- Unpack inputs data; Copy inputs t v unpacked) as -> by (unfold UnpackIntoInterface, getArguments; by rewrite Hm, He, Hi).
  destruct (if decide (data = []) then _ else _) as [[|w]| |]; try done. cbn [abind]. unfold ParseTopics, id. rewrite Hf. by destruct topics.
Qed.

Lemma parse_eq topics data : topics <> [] -> ParseSendDACommitment sha topics data =
  (if decide (head topics <> Some (BytesToHash (sha sendDASig))) then aerr errEventSignatureMismatch
   else
     v <-- (if decide (data = []) then aok (zeroOf CommitmentManagerSendDACommitment)
            else unpacked <-- Unpack sendDAInputs data; Copy sendDAInputs CommitmentManagerSendDACommitment (zeroOf CommitmentManagerSendDACommitment) unpacked);
     if decide (0%nat <> length (tail topics)) then aerr errTopicCount else ev ← eventOf v; aok ev).
Proof.
  intros Ht. destruct manager_abi as (a & Ha & He & Hm & _). unfold ParseSendDACommitment. rewrite Ha. cbn [mbind outcome_bind]. 
  rewrite (unpackLog_eq a _ sendDAInputs _ _ _ _ _ He eq_refl Hm sendDA_indexed Ht).
  cbn [eID].
  
  destruct (decide (head topics <> _)); [reflexivity|].
  destruct (if decide (data = []) then _ else _) as [[|w]| |]; [reflexivity| |reflexivity|reflexivity]. cbn [abind].
  destruct (decide (0%nat <> _)); reflexivity.
Qed.

(** A log without data gives an event without numbers. *)
Lemma ParseSendDACommitment_empty : ParseSendDACommitment sha [BytesToHash (sha sendDASig)] [] = aok emptyEvent.
Proof. rewrite parse_eq by discriminate. cbn [head tail]. rewrite decide_False by (intros []; reflexivity). reflexivity. Qed.

Lemma valOk_u256 v : valOk (UintTy 256) v -> exists z, v = GoPtr (GoNum z) /\ 0 <= z < 2 ^ 256.
Proof. cbn [valOk]. by rewrite decide_False by (rewrite !elem_of_cons, elem_of_nil; lia). Qed.

Lemma valOk_u256_intro z : 0 <= z < 2 ^ 256 -> valOk (UintTy 256) (GoPtr (GoNum z)).
Proof. cbn [valOk]. rewrite decide_False by (rewrite !elem_of_cons, elem_of_nil; lia). by exists z. Qed.

Lemma bytes_list vs : Forall (valOk BytesTy) vs -> exists l, vs = map goBytes l /\ Forall bytes_ok l.
Proof. induction 1 as [|v vs (b & -> & Hb) _ (l & -> & Hl)]; [by exists []|]. exists (b :: l). split; [done|by constructor]. Qed.

Lemma event_shape vs : Forall2 valOk (argTypes sendDAInputs) vs ->
  exists x y timestamp nonce index len dasKey nameSpaceId signatures, vs = eventValues x y timestamp nonce index len dasKey nameSpaceId signatures /\
    Forall (fun z => 0 <= z < 2 ^ 256) [x; y; timestamp; nonce; index; len; nameSpaceId] /\ hash_ok dasKey /\ Forall bytes_ok signatures.
Proof.
  intros H. unfold sendDAInputs in H. cbn [argTypes map argType typ pointType uint256Type bytes32Type bytesSliceType] in H.
  repeat match goal with H : Forall2 _ (_ :: _) _ |- _ => apply Forall2_cons_inv_l in H as (? & ? & ? & H & ->) | H : Forall2 _ [] _ |- _ => apply Forall2_nil_inv_l in H as -> end.
  repeat match goal with H : valOk (UintTy 256) _ |- _ => apply valOk_u256 in H as (? & -> & ?) end.
  match goal with H : valOk (TupleTy _) _ |- _ => apply valOk_tuple in H as (? & -> & H); cbn [map snd] in H; rename H into HT end.
  repeat match goal with H : Forall2 _ (_ :: _) _ |- _ => apply Forall2_cons_inv_l in H as (? & ? & ? & H & ->) | H : Forall2 _ [] _ |- _ => apply Forall2_nil_inv_l in H as -> end.
  repeat match goal with H : valOk (UintTy 256) _ |- _ => apply valOk_u256 in H as (? & -> & ?) end.
  match goal with H : valOk (FixedBytesTy 32) _ |- _ => destruct H as (? & -> & ? & ?) end.
  match goal with H : valOk (SliceTy _) _ |- _ => destruct H as (? & -> & H); apply bytes_list in H as (? & -> & ?) end.
  do 9 eexists. split; [reflexivity|]. split; [repeat first [apply Forall_nil_2 | apply Forall_cons_2; [done|]]|]. split; [|done]. split; [unfold HashLength; lia|done].
Qed.

Lemma event_sizes : argSizes (argTypes sendDAInputs).
Proof. split; [repeat constructor; cbn; lia|]. cbn. lia. Qed.

(** C9: whatever log the layer one has, [ParseSendDACommitment] ends without
    a panic.  An event it answers comes from a log with the event's topic and no
    other.  If the log has data, [Unpack] reads it, and the event has the values
    read, with no number missing and each of 256 bits; if it has none, the event
    is the empty struct, with all its numbers nil. *)
Theorem ParseSendDACommitment_total topics data : bytes_ok data -> Z.of_nat (length data) < 2 ^ 61 ->
  exists r, ParseSendDACommitment sha topics data = Done r /\
    forall ev, r = inr ev -> topics = [BytesToHash (sha sendDASig)] /\
      (data = [] /\ ev = emptyEvent \/ data <> [] /\ eventOk ev /\ exists vs, Unpack sendDAInputs data = aok vs /\ eventHas ev vs).
Proof.
  intros Hb Hl. destruct topics as [|topic topics].
  { destruct (manager_abi) as (a & Ha & _). unfold ParseSendDACommitment. rewrite Ha. cbn [mbind outcome_bind UnpackLog abind aerr]. eexists. split; [reflexivity|]. intros ev [=]. }
  rewrite parse_eq by discriminate. cbn [head tail]. destruct (decide (Some topic <> _)) as [Hn|Hn]; [eexists; split; [reflexivity|intros ev [=]]|].
  assert (topic = BytesToHash (sha sendDASig)) as -> by (apply dec_stable in Hn; congruence).
  destruct (decide (data = [])) as [Hd|Hd].
  - cbn [abind aok]. destruct topics as [|t2 topics]; [|eexists; split; [reflexivity|intros ev [=]]]. eexists. split; [reflexivity|]. intros ev [= <-]. split; [reflexivity|]. left. split; [exact Hd|reflexivity].
  - destruct (unpack_total sendDAInputs data event_sizes Hb Hl) as (r & Hr & HV). rewrite Hr. destruct r as [e|vs]; [eexists; split; [reflexivity|intros ev [=]]|]. cbn [abind].
    destruct (event_shape vs (HV vs eq_refl)) as (x & y & ts & nonce & index & len & key & ns & sigs & -> & HN & HK & HS). rewrite copy_event. cbn [abind aok].
    destruct topics as [|t2 topics]; [|eexists; split; [reflexivity|intros ev [=]]]. rewrite decide_False by (intros []; reflexivity). rewrite event_of. cbn [mbind outcome_bind]. eexists. split; [reflexivity|].
    intros ev [= <-]. split; [reflexivity|]. right. split; [exact Hd|]. split; [do 7 eexists; split; [reflexivity|by split]|].
    eexists. split; [reflexivity|]. do 7 eexists. split; reflexivity.
Qed.

(** C8: the log that the contract emits, with the event's values packed, is
    read back completely. *)
Theorem ParseSendDACommitment_roundtrip x y timestamp nonce index len dasKey nameSpaceId signatures :
  let vs := eventValues x y timestamp nonce index len dasKey nameSpaceId signatures in
  let data := encTuple (encItems (argTypes sendDAInputs) vs) in
  Forall (fun z => 0 <= z < 2 ^ 256) [x; y; timestamp; nonce; index; len; nameSpaceId] -> hash_ok dasKey -> Forall bytes_ok signatures -> Z.of_nat (length data) < 2 ^ 61 ->
  Pack sendDAInputs (zip (map argGoType sendDAInputs) vs) = aok data /\
  ParseSendDACommitment sha [BytesToHash (sha sendDASig)] data =
    aok (mkEvent (Some x, Some y) (Some timestamp) (Some nonce) (Some index) (Some len) dasKey (Some nameSpaceId) signatures).
Proof.
  intros vs data Hn [Hk1 Hk2] Hs Hl. assert (Forall2 valOk (argTypes sendDAInputs) vs) as HV.
  { repeat (apply Forall_cons in Hn as [? Hn]). unfold vs, eventValues, sendDAInputs. cbn [argTypes map argType typ pointType uint256Type bytes32Type bytesSliceType].
    repeat apply Forall2_cons_2; try (by apply valOk_u256_intro); [|by exists dasKey; unfold HashLength in Hk1; rewrite Hk1| |apply Forall2_nil_2].
    - apply valOk_tuple. eexists. split; [reflexivity|]. repeat apply Forall2_cons_2; try (by apply valOk_u256_intro). apply Forall2_nil_2.
    - exists (map goBytes signatures). split; [reflexivity|]. apply Forall_map. eapply Forall_impl; [exact Hs|]. intros b Hb. by exists b. }
  destruct (pack_unpack sendDAInputs vs) as [HP HU]; [by repeat constructor|apply event_sizes| |by repeat constructor|exact HV|exact Hl|].
  { repeat constructor; try done; cbn; try lia; try discriminate; try (apply not_elem_of_cons; split; [discriminate|]); apply not_elem_of_nil. }
  split; [exact HP|]. rewrite parse_eq by discriminate. cbn [head tail]. rewrite decide_False by (intros []; reflexivity). rewrite decide_False by discriminate. fold data in HU. rewrite HU. cbn [abind aok]. unfold vs. rewrite copy_event. cbn [abind aok length].
  rewrite decide_False by (intros []; reflexivity). by rewrite event_of.
Qed.

(** ** The storage manager *)

Lemma storage_abi : exists a m, GetAbi sha StorageManagerMetaData = Done a /\ Events a !! lit "NAMESPACE" = None /\ Methods a !! lit "NAMESPACE" = Some m /\
  mInputs m = Some nameSpaceInputs /\ mOutputs m = Some nameSpaceOutputs /\ mID m = take 4 (sha nameSpaceSig).
Proof.
  destruct (isDone_true (GetAbi sha StorageManagerMetaData)) as [a Ha]; [vm_compute; reflexivity|].
  assert (H : match GetAbi sha StorageManagerMetaData with
              | Done a => (isSome (Events a !! lit "NAMESPACE"), isSome (Methods a !! lit "NAMESPACE"), (fun m => (mInputs m, mOutputs m, mID m)) <$> Methods a !! lit "NAMESPACE")
              | _ => (true, false, None)
              end = (false, true, Some (Some nameSpaceInputs, Some nameSpaceOutputs, take 4 (sha nameSpaceSig)))) by (vm_compute; reflexivity).
  rewrite Ha in H. apply triple_eq in H as (H1 & H2 & H3). destruct (Methods a !! lit "NAMESPACE") as [m|] eqn:Em; [|discriminate H2]. exists a, m.
  apply (f_equal (from_option id (mInputs m, mOutputs m, mID m))) in H3. cbn [from_option fmap option_fmap option_map id] in H3. apply triple_eq in H3 as (H3 & H4 & H5).
  split; [exact Ha|]. split; [destruct (Events a !! lit "NAMESPACE"); [discriminate H1|reflexivity]|]. split; [exact Em|]. split; [exact H3|]. split; [exact H4|exact H5].
Qed.

(** The values of the answer. *)
Definition nameSpaceValue (creator : Address) (addr : list Address) : goVal := GoSeq [goBytes creator; GoSeq (map goBytes addr)].

Lemma convert_nameSpace creator addr : ConvertType (GetType nameSpaceOutput) (nameSpaceValue creator addr) NameSpaceType = aok (nameSpaceValue creator addr).
Proof. vm_compute. reflexivity. Qed.

Lemma pack_id z : Pack nameSpaceInputs [(bigPtr, GoPtr (GoNum z))] = aok (word z).
Proof. unfold Pack. rewrite decide_False by (intros []; reflexivity). cbn [nameSpaceInputs zip_with map packHeads argType uint256Type typ isDynamicType pack bigPtr indirect mbind outcome_bind typeCheck fst snd]. rewrite decide_False by (intros []; vm_compute; reflexivity).
  cbn [abind aok packElement packNum]. rewrite U256Bytes_word. cbn [mbind outcome_bind abind aok app]. by rewrite app_nil_r. Qed.

Lemma nameSpace_eq callContract codeAt z : NAMESPACE sha callContract codeAt z =
  match callContract (take 4 (sha nameSpaceSig) ++ word z) with
  | None => aerr errCall
  | Some output =>
      if decide (output = []) then match codeAt with None => aerr errCall | Some [] => aerr errNoCode | Some _ => aerr errEmptyData end
      else if decide (length output `mod` 32 <> 0)%nat then aerr errOutputFormat
      else
        out <-- Unpack nameSpaceOutputs output;
        out0 ← index out 0;
        v <-- ConvertType (GetType nameSpaceOutput) out0 NameSpaceType;
        match v with GoSeq [_; addr] => aok (map rawOf (seqOf addr)) | _ => Panic end
  end.
Proof.
  destruct storage_abi as (a & m & Ha & He & Hm & Hi & Ho & Hid). unfold NAMESPACE. rewrite Ha. cbn [mbind outcome_bind]. unfold Call, abiPack, abiUnpack, getArguments, resultType. rewrite decide_False by discriminate. rewrite Hm, Hi, He.
  cbn [default from_option id]. rewrite pack_id. cbn [abind aok]. rewrite Hid, Ho. destruct (callContract _) as [output|]; [|reflexivity]. cbn [abind aok default from_option id nameSpaceOutputs argGoType argType typ].
  destruct (decide (output = [])) as [->|Hn].
  - destruct codeAt as [[|c code]|]; [reflexivity| |reflexivity]. rewrite (decide_False (P := c :: code = [])) by discriminate. cbn [abind]. rewrite decide_False by (intros []; reflexivity). reflexivity.
  - cbn [abind]. destruct (decide (length output `mod` 32 <> 0)%nat); reflexivity.
Qed.

Lemma addresses_list vs : Forall (valOk AddressTy) vs -> exists l, vs = map goBytes l.
Proof. induction 1 as [|v vs (b & -> & Hb) _ (l & ->)]; [by exists []|]. by exists (b :: l). Qed.

Lemma nameSpace_shape vs : Forall2 valOk (argTypes nameSpaceOutputs) vs -> exists creator addr, vs = [nameSpaceValue creator addr].
Proof.
  intros H. apply Forall2_cons_inv_l in H as (v & vs' & Hv & H & ->). apply Forall2_nil_inv_l in H as ->. apply valOk_tuple in Hv as (ws & -> & H).
  apply Forall2_cons_inv_l in H as (w1 & ws1 & (c & -> & _) & H & ->). apply Forall2_cons_inv_l in H as (w2 & ws2 & (l & -> & Hl) & H & ->). apply Forall2_nil_inv_l in H as ->. apply addresses_list in Hl as (addr & ->). by exists c, addr.
Qed.

Lemma nameSpace_wf : argSizes (argTypes nameSpaceOutputs) /\ Forall wfType (argTypes nameSpaceOutputs) /\ Forall (fun t => 0 < headLen t) (argTypes nameSpaceOutputs).
Proof.
  split; [split; [repeat constructor; cbn; lia|cbn; lia]|]. split; [|repeat constructor]. repeat constructor; cbn; try lia; try discriminate; try reflexivity; [apply not_elem_of_cons; split; [discriminate|]|]; apply not_elem_of_nil.
Qed.

Lemma nameSpace_value creator addr : address_ok creator -> Forall address_ok addr -> Forall2 valOk (argTypes nameSpaceOutputs) [nameSpaceValue creator addr].
Proof.
  intros [Hc1 Hc2] Ha. apply Forall2_cons_2; [|apply Forall2_nil_2]. apply valOk_tuple. eexists. split; [reflexivity|]. apply Forall2_cons_2; [by exists creator|]. apply Forall2_cons_2; [|apply Forall2_nil_2].
  eexists. split; [reflexivity|]. apply Forall_map. eapply Forall_impl; [exact Ha|]. intros b [Hb1 Hb2]. by exists b.
Qed.

(** Whatever the node answers, [NAMESPACE] ends without a panic, and if
    the answer is the encoding of a name space, it gives its addresses. *)
Theorem NAMESPACE_correct callContract codeAt z : (forall d out, callContract d = Some out -> bytes_ok out /\ Z.of_nat (length out) < 2 ^ 61) ->
  exists r, NAMESPACE sha callContract codeAt z = Done r /\
    forall creator addr, address_ok creator -> Forall address_ok addr ->
      callContract (take 4 (sha nameSpaceSig) ++ word z) = Some (encTuple (encItems (argTypes nameSpaceOutputs) [nameSpaceValue creator addr])) -> r = inr addr.
Proof.
  intros HC. rewrite nameSpace_eq. destruct (callContract _) as [output|] eqn:EC; [|eexists; split; [reflexivity|]; intros ? ? _ _ [=]]. destruct (HC _ _ EC) as [Hb Hl]. destruct nameSpace_wf as (HS & HW & HZ).
  assert (forall creator addr, address_ok creator -> Forall address_ok addr -> output = encTuple (encItems (argTypes nameSpaceOutputs) [nameSpaceValue creator addr]) ->
    output <> [] /\ (length output `mod` 32 = 0)%nat /\ Unpack nameSpaceOutputs output = aok [nameSpaceValue creator addr]) as HE.
  { intros creator addr Hc Ha Ho. pose proof (nameSpace_value creator addr Hc Ha) as HV. destruct (pack_unpack nameSpaceOutputs [nameSpaceValue creator addr]) as [_ HU]; [by repeat constructor|done..|by rewrite <-Ho|]. rewrite <-Ho in HU.
    split; [|split; [|exact HU]].
    - intros ->. discriminate HU.
    - assert (32 | Z.of_nat (length output)) as [k Hk]. { rewrite Ho. apply encItems_divide. inversion HV as [|? ? ? ? Hv _]; subst. apply Forall2_cons_2; [|apply Forall2_nil_2]. apply enc_divide; [by inversion HW|destruct HS as [HS _]; by inversion HS|exact Hv]. }
      apply Nat2Z.inj. rewrite Nat2Z.inj_mod, Hk. change (Z.of_nat 32) with 32. by rewrite Z_mod_mult. }
  destruct (decide (output = [])) as [H0|H0].
  { destruct codeAt as [[|c code]|]; (eexists; split; [reflexivity|]); intros cr ad Hc Ha [= Ho]; by destruct (HE cr ad Hc Ha Ho). }
  destruct (decide (length output `mod` 32 <> 0)%nat) as [Hm|Hm]; [eexists; split; [reflexivity|]; intros cr ad Hc Ha [= Ho]; destruct (HE cr ad Hc Ha Ho) as (_ & ? & _); contradiction|].
  destruct (unpack_total nameSpaceOutputs output HS Hb Hl) as (r & Hr & HV). rewrite Hr in HE |- *. destruct r as [e|vs].
  { eexists. split; [reflexivity|]. intros cr ad Hc Ha [= Ho]. by destruct (HE cr ad Hc Ha Ho) as (_ & _ & [=]). }
  destruct (nameSpace_shape vs (HV vs eq_refl)) as (creator & addr & ->). cbn [abind]. rewrite index_0. cbn [mbind outcome_bind]. rewrite convert_nameSpace. cbn [abind aok nameSpaceValue seqOf]. rewrite rawOf_list.
  eexists. split; [reflexivity|]. intros cr ad Hc Ha [= Ho]. destruct (HE cr ad Hc Ha Ho) as (_ & _ & HU). unfold aok, nameSpaceValue in HU. injection HU as _ HU. apply (f_equal (map rawOf)) in HU. rewrite !rawOf_list in HU. by rewrite HU.
Qed.

(** ** Call data of [SubmitCommitment] *)

Definition submitValues (length_ timeout nameSpaceId : Z) (nodeGroupKey : list Z) (signatures : list (list Z)) (x y : Z) : list goVal :=
  let big z := GoPtr (GoNum z) in
  [big length_; big timeout; big nameSpaceId; goBytes nodeGroupKey; GoSeq (map goBytes signatures); GoSeq [big x; big y]].

(** The Go types of the parameters of the binding. *)
Definition submitTypes : list goType := [bigPtr; bigPtr; bigPtr; GArray 32 byteType; GSlice (GSlice byteType); PairingG1Point].

(** The call data that [SubmitCommitment] sends. *)
Definition submitData (args : list goVal) : abi (list Z) :=
  a ← GetAbi sha CommitmentManagerMetaData;
  abiPack a (lit "SubmitCommitment") (zip submitTypes args).

Lemma pack_struct l fs vs : pack (TupleTy l) (GStruct fs) (GoSeq vs) =
  fieldmap <-- mapArgNamesToStructFields (map (fun f => f.1.1) l) fs;
  packHeads (map (fun f => (isDynamicType f.2,
      match FieldByName fs (fieldOf fieldmap f.1.1) with
      | None => aerr errNoField
      | Some (i, ft) => match vs !! i with Some fv => pack f.2 ft fv | None => Panic end
      end)) l) (headSize (map snd l)) [] [].
Proof. cbn [pack indirect mbind outcome_bind typeCheck]. rewrite decide_False by (intros []; reflexivity). reflexivity. Qed.

(** The struct of the binding packs like the tuple's own. *)
Lemma pack_point x y : pack (typ pointType) PairingG1Point (GoSeq [GoPtr (GoNum x); GoPtr (GoNum y)]) = pack (typ pointType) (GetType (typ pointType)) (GoSeq [GoPtr (GoNum x); GoPtr (GoNum y)]).
Proof.
  unfold PairingG1Point, pointType. cbn [typ GetType map fst snd]. rewrite !pack_struct. cbn [map fst snd].
  assert (forall fs, mapArgNamesToStructFields [lit "X"; lit "Y"] fs = aok (<[lit "Y" := lit "Y"]> {[lit "X" := lit "X"]}) -> FieldByName fs (lit "X") = Some (0%nat, bigPtr) -> FieldByName fs (lit "Y") = Some (1%nat, bigPtr) ->
    (fieldmap <-- mapArgNamesToStructFields [lit "X"; lit "Y"] fs;
     packHeads [(isDynamicType (UintTy 256), match FieldByName fs (fieldOf fieldmap (lit "X")) with None => aerr errNoField | Some (i, ft) => match [GoPtr (GoNum x); GoPtr (GoNum y)] !! i with Some fv => pack (UintTy 256) ft fv | None => Panic end end);
                (isDynamicType (UintTy 256), match FieldByName fs (fieldOf fieldmap (lit "Y")) with None => aerr errNoField | Some (i, ft) => match [GoPtr (GoNum x); GoPtr (GoNum y)] !! i with Some fv => pack (UintTy 256) ft fv | None => Panic end end)]
       (headSize [UintTy 256; UintTy 256]) [] []) = packHeads [(false, pack (UintTy 256) bigPtr (GoPtr (GoNum x))); (false, pack (UintTy 256) bigPtr (GoPtr (GoNum y)))] (headSize [UintTy 256; UintTy 256]) [] []) as H.
  { intros fs HM HX HY. rewrite HM. cbn [abind aok]. assert (fieldOf (<[lit "Y" := lit "Y"]> {[lit "X" := lit "X"]}) (lit "X") = lit "X") as -> by (vm_compute; reflexivity).
    assert (fieldOf (<[lit "Y" := lit "Y"]> {[lit "X" := lit "X"]}) (lit "Y") = lit "Y") as -> by (vm_compute; reflexivity). rewrite HX, HY. reflexivity. }
  rewrite !H by (vm_compute; reflexivity). reflexivity.
Qed.

(** The encoding, with the offset of the signatures at the fifth place. *)
Lemma submit_enc length_ timeout nameSpaceId nodeGroupKey signatures x y : length nodeGroupKey = 32%nat ->
  let items := encItems (argTypes submitInputs) (submitValues length_ timeout nameSpaceId nodeGroupKey signatures x y) in
  encTuple items = word length_ ++ word timeout ++ word nameSpaceId ++ nodeGroupKey ++ word 224 ++ word x ++ word y ++ tails items.
Proof.
  intros Hk items. assert (exists d, items = [(false, word length_); (false, word timeout); (false, word nameSpaceId); (false, nodeGroupKey); (true, d); (false, word x ++ word y)]) as [d Hd].
  { exists (enc (SliceTy BytesTy) (GoSeq (map goBytes signatures))). unfold items, submitValues, submitInputs. cbn [argTypes map argType typ pointType uint256Type bytes32Type bytesSliceType encItems zip_with isDynamicType existsb orb fst snd].
    rewrite enc_tuple. cbn [enc numOf map snd seqOf encItems zip_with isDynamicType]. rewrite rawOf_goBytes, Hk. cbn [replicate Nat.sub]. rewrite app_nil_r. unfold encTuple. cbn [heads tails map concat fst app]. by rewrite !app_nil_r. }
  rewrite Hd. unfold encTuple. cbn [heads]. assert (itemLens [(false, word length_); (false, word timeout); (false, word nameSpaceId); (false, nodeGroupKey); (true, d); (false, word x ++ word y)] = 224) as ->.
  { unfold itemLens. cbn [map foldr]. unfold itemLen. cbn [fst snd]. rewrite length_app, !length_word, Hk. reflexivity. }
  rewrite <-!app_assoc. reflexivity.
Qed.

Lemma submit_layout length_ timeout nameSpaceId nodeGroupKey signatures x y :
  let vs := submitValues length_ timeout nameSpaceId nodeGroupKey signatures x y in
  Forall (fun z => 0 <= z < 2 ^ 256) [length_; timeout; nameSpaceId; x; y] -> hash_ok nodeGroupKey -> Forall bytes_ok signatures ->
  Z.of_nat (length (encTuple (encItems (argTypes submitInputs) vs))) < 2 ^ 61 ->
  exists rest, submitData vs =
    aok (take 4 (sha submitSig) ++ word length_ ++ word timeout ++ word nameSpaceId ++ nodeGroupKey ++ word 224 ++ word x ++ word y ++ rest).
Proof.
  intros vs Hn [Hk1 Hk2] Hs Hl. assert (Forall2 valOk (argTypes submitInputs) vs) as HV.
  { repeat (apply Forall_cons in Hn as [? Hn]). unfold vs, submitValues, submitInputs. cbn [argTypes map argType typ pointType uint256Type bytes32Type bytesSliceType].
    repeat apply Forall2_cons_2; try (by apply valOk_u256_intro); [by exists nodeGroupKey; unfold HashLength in Hk1; rewrite Hk1| | |apply Forall2_nil_2].
    - exists (map goBytes signatures). split; [reflexivity|]. apply Forall_map. eapply Forall_impl; [exact Hs|]. intros b Hb. by exists b.
    - apply valOk_tuple. eexists. split; [reflexivity|]. repeat apply Forall2_cons_2; try (by apply valOk_u256_intro). apply Forall2_nil_2. }
  destruct (pack_unpack submitInputs vs) as [HP _]; [by repeat constructor|split; [repeat constructor; cbn; lia|cbn; lia]| |by repeat constructor|exact HV|exact Hl|].
  { repeat constructor; try done; cbn; try lia; try discriminate; try (apply not_elem_of_cons; split; [discriminate|]); apply not_elem_of_nil. }
  destruct manager_abi as (a & Ha & _ & _ & m & Hm & Hi & Hid). unfold submitData. rewrite Ha. cbn [mbind outcome_bind]. unfold abiPack. rewrite decide_False by discriminate. rewrite Hm, Hi. cbn [default from_option id].
  assert (Pack submitInputs (zip submitTypes vs) = Pack submitInputs (zip (map GetType (argTypes submitInputs)) vs)) as ->.
  { unfold Pack. rewrite !decide_False by (intros []; reflexivity). unfold vs, submitValues, submitTypes, submitInputs. cbn [zip zip_with argTypes map argType typ uint256Type bytes32Type bytesSliceType fst snd]. change (TupleTy [(lit "X", lit "X", UintTy 256); (lit "Y", lit "Y", UintTy 256)]) with (typ pointType). by rewrite pack_point. }
  rewrite HP. cbn [abind aok]. rewrite Hid. unfold vs. rewrite submit_enc by exact Hk1. by eexists.
Qed.
End Reading.

Module ContractSample.
Definition hash7 (_ : list Z) : list Z := replicate 32 7.
Definition owner : Address := replicate 20 4.
(** A node that answers every call with one name space, of one member. *)
Definition answer (_ : list Z) : option (list Z) := Some (encTuple (encItems (argTypes nameSpaceOutputs) [nameSpaceValue owner [owner]])).
(** The data of a log, and the event that is in it. *)
Definition sampleLog : list Z := encTuple (encItems (argTypes sendDAInputs) (eventValues 1 2 1700000000 7 2 1 (replicate 32 0) 3 [[1; 2]; []])).
Definition sampleEvent : daEvent := mkEvent (Some 1, Some 2) (Some 1700000000) (Some 7) (Some 2) (Some 1) (replicate 32 0) (Some 3) [[1; 2]; []].
End ContractSample.

Import ContractSample.

Lemma ParseSendDACommitment_total_witness : exists ev, ParseSendDACommitment hash7 [replicate 32 7] sampleLog = aok ev /\ eventOk ev /\ evLen ev = Some 1 /\ evNonce ev = Some 7.
Proof.
  destruct (ParseSendDACommitment_total hash7 [replicate 32 7] sampleLog) as (r & H1 & H2); [apply bytes_ok_check; vm_compute; reflexivity|vm_compute; reflexivity|].
  assert (H3 : ParseSendDACommitment hash7 [replicate 32 7] sampleLog = aok sampleEvent) by (vm_compute; reflexivity).
  rewrite H3 in H1. injection H1 as <-. exists sampleEvent. destruct (H2 sampleEvent eq_refl) as [_ [[H0 _]|(_ & H4 & _)]]; [discriminate H0|]. split; [exact H3|]. split; [exact H4|]. by split.
Defined.

Lemma ParseSendDACommitment_roundtrip_witness :
  match Pack sendDAInputs (zip (map argGoType sendDAInputs) (eventValues 1 2 1700000000 7 2 1 (replicate 32 0) 3 [[1; 2]; []])) with
  | Done (inr data) => ParseSendDACommitment hash7 [replicate 32 7] data = aok (mkEvent (Some 1, Some 2) (Some 1700000000) (Some 7) (Some 2) (Some 1) (replicate 32 0) (Some 3) [[1; 2]; []])
  | _ => False
  end.
Proof.
  destruct (ParseSendDACommitment_roundtrip hash7 1 2 1700000000 7 2 1 (replicate 32 0) 3 [[1; 2]; []]) as [HP HR].
  - repeat constructor; lia.
  - split; [reflexivity|by apply bytes_ok_check].
  - repeat constructor; lia.
  - vm_compute. reflexivity.
  - rewrite HP. exact HR.
Defined.

Lemma NAMESPACE_correct_witness : NAMESPACE hash7 answer None 3 = aok [owner].
Proof.
  destruct (NAMESPACE_correct hash7 answer None 3) as (r & HR & HV).
  - intros d out H. injection H as <-. split; [|vm_compute; reflexivity]. apply bytes_ok_check. vm_compute. reflexivity.
  - rewrite HR. rewrite (HV owner [owner]); [reflexivity|split; [reflexivity|by apply bytes_ok_check]| |reflexivity].
    apply Forall_cons_2; [split; [reflexivity|by apply bytes_ok_check]|apply Forall_nil_2].
Defined.
