(* ===== verification/ChainSync.v ===== *)
(** * The Ethereum synchroniser

    [eth/sync.go]: how blocks of the layer-one chain are fetched, searched for
    commitment transactions, written to the tables, and matched with pooled
    records; with [SetCurrentBlock] and [CurrentBlock] of [core/].

    Records are shared: [GetDAByCommit] answers the pool's own pointer and
    [processBlocks] writes through it, so the records live in a heap
    ([wHeap]), and [wOwner] says which one each pool key points to.  The cache
    of commitments is the [OrderedMap] with its in-place deletion.  The
    answers of the node, of the contracts and of the clock are arguments. *)

From S2P Require Import Prelude Bytes DAType TimeText FilePool OrderedMap Store Ledger AbiType AbiCodec AbiSpec AbiRead AbiBind Contracts.

Local Open Scope Z_scope.

(** [db.CommitDetail] *)
Record CommitDetail := mkDetail {
  cdNonce : Z;
  cdIndex : Z;
  cdBlockNum : Z;
  cdCommit : list Z;
  cdTxHash : Hash;
  cdSigData : list (list Z);
  cdNameSpaceId : option Z;
  cdSignAddress : list (list Z);
  cdTime : time;
  cdOutOfTime : time;
  cdRoot : Hash
}.

(** [time.Unix(sec, 0)]; seconds from year 1 to 1970 are added as an [int64]. *)
Definition unixTime (sec : Z) : time := i64 (i64 sec + 62135596800) * second.

(** The configuration of the synchroniser, and the node's answers to calls of
    the storage manager and for its code. *)
Record syncConfig := mkSyncConfig {
  CommitmentManagerProxy : list Z;
  GenesisBlockNumber : Z;
  csNodeType : list Z;
  csAddress : Address;
  csCallContract : list Z -> option (list Z);
  csCodeAt : option (list Z)
}.

(** What the outside answers during one [processBlocks]: the receipts, the
    clock when key [i] is looked at and when its record is stamped, the
    database the pool sees, and what [Add] needs. *)
Record answers (DB : Type) := mkAnswers {
  rcptOf : nat -> Hash -> option l1Receipt;
  nowCheck : nat -> time;
  nowStamp : nat -> time;
  sqlSeen : nat -> nat -> DB;
  addFs : nat -> fsAnswers;
  addNow : nat -> nat -> time
}.
Arguments rcptOf {DB}.
Arguments nowCheck {DB}.
Arguments nowStamp {DB}.
Arguments sqlSeen {DB}.
Arguments addFs {DB}.
Arguments addNow {DB}.

Definition addressIncluded (list : list Address) (targe : Address) : bool := bool_decide (targe ∈ list).

(** ** Pool keys *)

Section pool_keys.
Context `{kzg : KZG} `{sdk : SDK} `{codec : !DACodec}.

(** The keys [lookup.Add] files a record under. *)
Definition keysOf (d : DA) : list Hash :=
  (if bool_decide (Cmp (TxHash d) zeroHash <> 0) then [TxHash d] else []) ++ (if commitIsEmpty d then [] else [cmHash d]).

Lemma lookupAdd_lookup t d h :
  lcollector (lookupAdd t d) !! h = if decide (h ∈ keysOf d) then Some d else lcollector t !! h.
Proof.
  unfold lookupAdd, keysOf. destruct (bool_decide _), (commitIsEmpty d); cbn [andb negb app lcollector];
    rewrite ?lookup_insert; repeat case_decide; set_solver.
Qed.

Lemma owners_lookup (p : nat) (ks : list Hash) (m : gmap Hash nat) (h : Hash) :
  foldr (fun h => insert h p) m ks !! h = if decide (h ∈ ks) then Some p else m !! h.
Proof.
  induction ks as [|k ks IH]; cbn [foldr]; [by rewrite decide_False by apply not_elem_of_nil|].
  rewrite lookup_insert, IH. repeat case_decide; set_solver.
Qed.

Lemma Add_one fs now fp d local :
  exists fp' errs, Add fs now fp [Some d] local = Done (fp', errs)
    /\ forall h, get fp' h = if decide (head errs = Some None /\ h ∈ keysOf d) then Some d else get fp h.
Proof.
  pose proof (Add_eq fs now fp [d] local) as HA. rewrite fmap_cons, fmap_nil in HA. rewrite HA. clear HA.
  destruct (diskAll_frame fp [d]) as [Hall _]. cbn [addFdsLocked].
  assert (HG : forall h, get (add fs (now 0%nat) (diskAll fp [d]) d).1 h
    = if decide ((add fs (now 0%nat) (diskAll fp [d]) d).2 = None /\ h ∈ keysOf d) then Some d else get fp h).
  { intros h. unfold add, get, lookupGet. rewrite Hall. destruct (lcollector (all fp) !! poolHash d);
      [cbn [fst snd]; by rewrite decide_False, Hall by naive_solver|].
    case_decide; [cbn [fst snd]; by rewrite decide_False, Hall by naive_solver|]. cbn [fst snd all set_beats set_all].
    rewrite (proj1 (journalFd_frame _ _ _ _)), Hall, lookupAdd_lookup. repeat case_decide; naive_solver. }
  destruct (add fs (now 0%nat) (diskAll fp [d]) d) as [fp1 err]. cbn [fst snd] in HG. eexists _, _. split; [done|].
  intros h. cbn [head app]. unfold SendNewFileDataEvent. case_decide; unfold get in *; cbn [all send]; rewrite HG;
    apply decide_ext; naive_solver.
Qed.

Lemma keysOf_elem h d : h ∈ keysOf d -> h = TxHash d \/ h = cmHash d.
Proof.
  unfold keysOf. intros [Hin|Hin]%elem_of_app; [left; destruct (bool_decide _)|right; destruct (commitIsEmpty d)];
    by (apply list_elem_of_singleton in Hin || apply not_elem_of_nil in Hin).
Qed.

End pool_keys.

Section ChainSync.
Context `{kzg : KZG} `{crypto : Crypto} `{sdk : SDK} `{codec : !DACodec} `{gorm : Gorm} `{tables : !Tables gorm}.
Context (encodeBlock : l1Block -> list Z) (decodeBlock : list Z -> option l1Block).
(** A digest with the two coordinates, and the time zone and [Unix] of a time. *)
Context (coords : list Z -> list Z -> Digest) (zone : Z) (unix : time -> Z) (cs : syncConfig).

(** ** State *)

(** [wStored] is what [rawdb.WriteBlock] was given, [wCurrent] the cached head. *)
Record world := mkWorld {
  wPool : FilePool;
  wHeap : list DA;
  wOwner : gmap Hash nat;
  wDB : sqlState;
  wStored : list l1Block;
  wCurrent : option l1Block
}.

Definition set_wPool fp w := mkWorld fp (wHeap w) (wOwner w) (wDB w) (wStored w) (wCurrent w).
Definition set_wDB s w := mkWorld (wPool w) (wHeap w) (wOwner w) s (wStored w) (wCurrent w).

(** [*p = g( *p)], seen from the pool as well. *)
Definition writeObj (p : nat) (g : DA -> DA) (w : world) : world :=
  let keys := dom (filter (fun kp => kp.2 = p) (wOwner w)) in
  mkWorld (rewriteRecords keys g (wPool w)) (alter g p (wHeap w)) (wOwner w) (wDB w) (wStored w) (wCurrent w).

(** [fileDataPool.Add([]*types.DA{p}, local, false)]: the pool keeps the pointer
    when it takes the record. *)
Definition addObj (local : bool) (fs : fsAnswers) (now : nat -> time) (p : nat) (w : world) : outcome world :=
  match wHeap w !! p with
  | None => Panic
  | Some d =>
      '(fp, errs) ← Add fs now (wPool w) [Some d] local;
      Done (mkWorld fp (wHeap w)
              (if decide (head errs = Some None) then foldr (fun h => insert h p) (wOwner w) (keysOf d) else wOwner w)
              (wDB w) (wStored w) (wCurrent w))
  end.

(** The chain's head. *)
Definition SetCurrentBlock (w : world) (block : option l1Block) : world :=
  match block with
  | None => w
  | Some b =>
      let tx := tBegin (wDB w) in
      let '(num, err) := GetLastBlockNum (wDB w) in
      let '(tx, _) := if (err : bool) || bool_decide (num = 0) then AddLastBlockNum tx (u64 (bkNumber b))
                      else UpDataLastBlocNum tx num (u64 (bkNumber b)) in
      mkWorld (wPool w) (wHeap w) (wOwner w) (tCommit tx).1 (wStored w ++ [b]) (Some b)
  end.

(** [CurrentBlock]; [head] and [headBlock] are what [rawdb] answers. *)
Definition CurrentBlock (head : Hash) (headBlock : option l1Block) (w : world) : outcome (option l1Block) :=
  match wCurrent w with
  | Some b => Done (Some b)
  | None =>
      if decide (head = zeroHash) then
        let '(num, err) := GetLastBlockNum (wDB w) in
        if (err : bool) then Done None
        else match GetBlockByNum decodeBlock (wDB w) num with
             | (Blk b, false) => Done (Some b)
             | (_, true) => Done None
             | (_, false) => Panic
             end
      else match headBlock with None => Panic | Some b => Done (Some b) end
  end.

(** ** Commitment transactions *)

(** The commitment in the call data, whose slice has no spare capacity. *)
Definition slice (data : list Z) : outcome (list Z) :=
  x ← subslice data 132 (132 + 32);
  y ← subslice data (132 + 32) (132 + 64);
  Done (Marshal (coords x y)).

Abbreviation cacheT := (@OrderedMap (option CommitDetail)) (only parsing).

Definition newDetail (bc : l1Block) (tx : l1Tx) (commitment : list Z) : CommitDetail :=
  mkDetail 0 0 (u64 (bkNumber bc)) commitment (txHash tx) [] None [] (unixTime (bkTime bc)) 0 zeroHash.

Definition isCommitTx (tx : l1Tx) : bool :=
  match txTo tx with None => false | Some to => bool_decide (AddressHex Keccak256 to = CommitmentManagerProxy cs) end.

Definition collectTx (bc : l1Block) (st : list l1Tx * cacheT) (tx : l1Tx) : outcome (list l1Tx * cacheT) :=
  let '(trans, cache) := st in
  if isCommitTx tx then
    if decide (length (txData tx) = 0)%nat then Done (trans ++ [tx], cache)
    else commitment ← slice (txData tx);
         Done (trans ++ [tx], OMSet cache (HashHex (txHash tx)) (Some (newDetail bc tx commitment)))
  else Done (trans, cache).

(** One block of the first loop; a failed insertion is only logged. *)
Definition collectBlock (st : txState * cacheT) (bc : option l1Block) : outcome (txState * cacheT) :=
  let '(tx, cache) := st in
  match bc with
  | None => Done (tx, cache)
  | Some bc =>
      '(trans, cache) ← fold_outcome (collectTx bc) (bkTransactions bc) ([], cache);
      if decide (length trans = 0)%nat then Done (tx, cache)
      else '(tx, _) ← AddBatchTransactions tx trans (i64 (bkNumber bc)); Done (tx, cache)
  end.

(** ** Receipts *)

(** A receipt counts when it is there and says success. *)
Definition receiptOk (r : option l1Receipt) : bool :=
  match r with Some r => bool_decide (rcStatus r = 1) | None => false end.

(** Round [i] of the receipt loop.  [checkHash] is the key slice as it was, but
    its elements are those of the shared array, which [Del] moves. *)
Definition receiptStep (rcpt : nat -> Hash -> option l1Receipt) (st : list (option l1Receipt) * cacheT) (i : nat)
  : outcome (list (option l1Receipt) * cacheT) :=
  let '(receipts, cache) := st in
  k ← index (arr cache) (Z.of_nat i);
  let receipt := rcpt i (HexToHash k) in
  if receiptOk receipt then receipts ← store receipts (Z.of_nat i) receipt; Done (receipts, cache)
  else cache ← OMDel cache k; Done (receipts, cache).

Definition fetchReceipts (rcpt : nat -> Hash -> option l1Receipt) (cache : cacheT) : outcome (list (option l1Receipt) * cacheT) :=
  fold_outcome (receiptStep rcpt) (seq 0 (klen cache)) (replicate (klen cache) None, cache).

Definition logsOf (receipts : list (option l1Receipt)) : outcome (list l1Log) :=
  fold_outcome (fun logs r => match r with None => Panic | Some r => Done (logs ++ rcLogs r) end) receipts [].

(** The transaction up to its [Commit]: the tables, the logs and the cache.
    [None] is the error of [AddBatchBlocks]; the others are only logged. *)
Definition writeLedger (rcpt : nat -> Hash -> option l1Receipt) (s : sqlState) (blocks : list (option l1Block))
  : outcome (option (sqlState * list l1Log * cacheT)) :=
  '(tx, err) ← AddBatchBlocks encodeBlock (tBegin s) blocks;
  if (err : bool) then Done None
  else
    '(tx, cache) ← fold_outcome collectBlock blocks (tx, NewOrderedMap);
    '(receipts, cache) ← fetchReceipts rcpt cache;
    '(tx, _) ← AddBatchReceipts tx receipts;
    logs ← logsOf receipts;
    '(tx, _) ← AddBatchLogs tx logs;
    Done (Some ((tCommit tx).1, logs, cache)).

(** ** Matching records *)

(** [big.Int.Int64] is [unixTime]'s conversion; a nil number panics. *)
Definition withEvent (d : CommitDetail) (l : l1Log) (ev : daEvent) (signers : list (list Z)) : outcome CommitDetail :=
  match evNonce ev, evIndex ev, evTimestamp ev with
  | Some nonce, Some index, Some timestamp =>
      Done (mkDetail (u64 nonce) (u64 index) (lgBlockNumber l) (cdCommit d) (cdTxHash d) (evSignatures ev)
              (evNameSpaceId ev) signers (cdTime d) (unixTime timestamp) (cdRoot d))
  | _, _, _ => Panic
  end.

(** One log: the details of its transaction are filled in; a transaction that
    is not cached gets a nil entry. *)
Definition fillDetail (fp : FilePool) (cache : cacheT) (l : l1Log) : outcome cacheT :=
  let key := HashHex (lgTxHash l) in
  parsed ← ParseSendDACommitment Keccak256 (lgTopics l) (lgData l);
  match OMGet cache key, parsed with
  | Some d, inr ev =>
      match d with
      | None => Panic
      | Some d =>
          senders ← GetSender unix fp (evSignatures ev);
          d ← withEvent d l ev (AddressHex Keccak256 <$> senders.*1);
          Done (OMSet cache key (Some d))
      end
  | Some d, inl _ => Done (OMSet cache key d)
  | None, _ => Done (OMSet cache key None)
  end.

(** What is written to the record. *)
Definition confirm (key : list Z) (d : CommitDetail) (now : time) (da : DA) : DA :=
  mkDA (Sender da) (cdNonce d) (Index da) (Length da) (Data da) (Commitment da) (cdSigData d) (cdSignAddress d) (DasKey da)
    (HexToHash key) (cdBlockNum d) now (cdOutOfTime d) (Proof da) (ClaimedValue da) (cdNameSpaceId d) (cdRoot d).

(** The pointer [GetDAByCommit] answered for [commit]: the pool's, or a new one
    for a record from the database. *)
Definition pointerOf (w : world) (commit : list Z) (da : DA) : nat * world :=
  let h := BytesToHash (Marshal (DigestSetBytes zeroDigest commit).1) in
  match get (wPool w) h with
  | Some _ => (default 0%nat (wOwner w !! h), w)
  | None => (length (wHeap w), mkWorld (wPool w) (wHeap w ++ [da]) (wOwner w) (wDB w) (wStored w) (wCurrent w))
  end.

Definition takeStep (ans : answers sqlState) (cache : cacheT) (st : world * list nat) (ik : nat * list Z) : outcome (world * list nat) :=
  let '(w, daDatas) := st in
  let '(i, key) := ik in
  match OMGet cache key with
  | None => Done (w, daDatas)
  | Some None => Panic
  | Some (Some d) =>
      if decide (cdTime d + 14 * 24 * hour < nowCheck ans i) then Done (w, daDatas)
      else
        '(fp, da, err) ← GetDAByCommit (sqlSeen ans i) (wPool w) (cdCommit d);
        let w := set_wPool fp w in
        match da, err with
        | Some da, false =>
            let '(p, w) := pointerOf w (cdCommit d) da in
            let w := writeObj p (confirm key d (nowStamp ans i)) w in
            w ← addObj false (addFs ans i) (addNow ans i) p w;
            Done (w, daDatas ++ [p])
        | _, _ => Done (w, daDatas)
        end
  end.

(** ** Saving *)

Definition saveStep (current : option l1Block) (w : world) (p : nat) : outcome world :=
  match wHeap w !! p with
  | None => Panic
  | Some da =>
      match NameSpaceID da with
      | None => Panic
      | Some ns =>
          w ← (if bool_decide (u64 ns <> 0) && bool_decide (csNodeType cs = lit "s")
               then match current with
                    | None => Panic
                    | Some _ =>
                        addr ← NAMESPACE Keccak256 (csCallContract cs) (csCodeAt cs) ns;
                        if addressIncluded (match addr with inr addr => addr | inl _ => [] end) (csAddress cs)
                        then '(s, _) ← SaveDACommit zone (wDB w) da true; Done (set_wDB s w)
                        else Done w
                    end
               else Done w);
          if bool_decide (csNodeType cs = lit "b")
          then '(s, _) ← SaveDACommit zone (wDB w) da true; Done (set_wDB s w)
          else Done w
      end
  end.

Definition deref (w : world) (ps : list nat) : list DA := omap (fun p => wHeap w !! p) ps.

(** The world and whether an error was returned. *)
Definition processBlocks (head : Hash) (headBlock : option l1Block) (ans : answers sqlState) (w : world) (blocks : list (option l1Block))
  : outcome (world * bool) :=
  r ← writeLedger (rcptOf ans) (wDB w) blocks;
  match r with
  | None => Done (w, true)
  | Some (s, logs, cache) =>
      let w := set_wDB s w in
      cache ← fold_outcome (fillDetail (wPool w)) logs cache;
      '(w, daDatas) ← fold_outcome (takeStep ans cache) (imap pair (OMKeys cache)) (w, []);
      w ← (if decide (length daDatas = 0)%nat then Done w
           else
             num ← CurrentBlock head headBlock w;
             w ← fold_outcome (saveStep num) daDatas w;
             let fp := SendNewFileDataEvent (wPool w) (deref w daDatas) in
             fp ← RemoveFileData fp (Some <$> deref w daDatas);
             Done (set_wPool fp w));
      match last blocks with
      | None => Done (w, false)
      | Some b => Done (SetCurrentBlock w b, false)
      end
  end.

(** ** Following the chain *)

(** The synchroniser with its [forced] flag. *)
Record syncer := mkSyncer { syWorld : world; forced : bool }.

Definition SyncChunkSize : Z := 10.

(** How a call of [doEthereumSync] ends. *)
Inductive syncEnd := syncDone | syncFailed | syncCancelled.

(** The inner loop: the blocks from [j] on, [n] rounds of it left.
    [block j] is the node's answer and [stop j] whether the context was done
    when block [j] was waited for. *)
Fixpoint gather (block : Z -> option l1Block) (stop : Z -> bool) (l1Num : Z) (n : nat) (j : Z) (blocks : list (option l1Block))
  : list (option l1Block) * bool + syncEnd :=
  match n with
  | O => inl (blocks, false)
  | S n =>
      if decide (l1Num <= j) then inl (blocks, true)
      else if stop j then inr syncCancelled
      else match block j with
           | None => inr syncFailed
           | Some b => gather block stop l1Num n (u64 (j + 1)) (blocks ++ [Some b])
           end
  end.

(** The rounds of [for j := i; j < i+SyncChunkSize; j++] on [uint64]. *)
Definition chunkRounds (i : Z) : nat := Z.to_nat (u64 (i + SyncChunkSize) - i).

(** The outer loop from [i] on; [process k] is [processBlocks] on the [k]-th
    chunk, whose error is dropped. *)
Fixpoint fromGenesis (block : Z -> option l1Block) (stop : Z -> bool) (process : nat -> world -> list (option l1Block) -> outcome world)
  (l1Num : Z) (fuel : nat) (k : nat) (i : Z) (w : world) : outcome (syncer * syncEnd) :=
  match fuel with
  | O => Stuck
  | S fuel =>
      match gather block stop l1Num (chunkRounds i) i [] with
      | inr syncFailed => Done (mkSyncer w false, syncFailed)
      | inr e => Done (mkSyncer w true, e)
      | inl (blocks, shouldBreak) =>
          w ← process k w blocks;
          if (shouldBreak : bool) then Done (mkSyncer w false, syncDone)
          else fromGenesis block stop process l1Num fuel (S k) (u64 (i + SyncChunkSize)) w
      end
  end.

(** [checkReorg]; the two functions are the node's answers, nil on an error.
    The block a recursive call finds is not used. *)
Fixpoint checkReorg (byNumber : Z -> option l1Block) (byHash : Hash -> option l1Block) (s : sqlState) (fuel : nat) (block : blockPtr)
  : outcome (bool * blockPtr) :=
  match fuel with
  | O => Stuck
  | S fuel =>
      match block with
      | Blk b =>
          if decide (Compare zeroHash (bkHash b) = 0) then Done (false, block)
          else match byNumber (bkNumber b) with
               | None => Panic
               | Some l1Block =>
                   if decide (HashHex (bkHash b) = HashHex (bkHash l1Block)) then Done (false, block)
                   else match byHash (bkParentHash b) with
                        | Some _ => Done (true, block)
                        | None =>
                            let '(parent, _) := GetBlockByHash s (bkParentHash b) in
                            n ← NumberU64 parent;
                            if decide (n = GenesisBlockNumber cs) then Done (true, parent)
                            else _ ← checkReorg byNumber byHash s fuel parent; Done (true, block)
                        end
               end
      | _ => Panic
      end
  end.

(** The deletions after a reorganisation, from [i] down to [org] exclusive. *)
Fixpoint deleteDown (n : nat) (i org : Z) (s : sqlState) : sqlState :=
  match n with
  | O => s
  | S n => if decide (org < i) then deleteDown n (i - 1) org (DeleteBlockByNum s i).1 else s
  end.







(** ** Fetching from genesis *)

Lemma gather_ok block stop l1Num n : forall j blocks,
  0 <= j -> j + Z.of_nat n < 2 ^ 64 -> (0 < n)%nat \/ j <= l1Num ->
  (forall x, j <= x < l1Num -> stop x = false /\ is_Some (block x)) ->
  gather block stop l1Num n j blocks
  = inl (blocks ++ (block <$> seqZ j (Z.min (Z.of_nat n) (l1Num - j))), bool_decide (l1Num - j < Z.of_nat n)).
Proof.
  induction n as [|n IH]; intros j blocks Hj Hn Hl Hb; cbn [gather].
  - rewrite seqZ_nil by lia. rewrite bool_decide_false by lia. by rewrite fmap_nil, app_nil_r.
  - case_decide.
    + rewrite seqZ_nil by lia. rewrite fmap_nil, app_nil_r. by rewrite bool_decide_true by lia.
    + destruct (Hb j) as [-> [b Hbj]]; [lia|]. rewrite Hbj.
      rewrite u64_small by (unfold in_u64; lia). rewrite IH by (lia || (intros; apply Hb; lia)).
      rewrite (seqZ_cons j) by lia. rewrite fmap_cons, Hbj, <-(assoc_L (++)). cbn [app].
      replace (Z.pred (Z.min (Z.of_nat (S n)) (l1Num - j))) with (Z.min (Z.of_nat n) (l1Num - (j + 1))) by lia.
      rewrite <-Z.add_1_r. do 2 f_equal. apply bool_decide_ext. lia.
Qed.

Lemma fromGenesis_round block stop process l1Num fuel k i w :
  0 <= i -> i + SyncChunkSize < 2 ^ 64 -> (forall x, i <= x < l1Num -> stop x = false /\ is_Some (block x)) ->
  fromGenesis block stop process l1Num (S fuel) k i w
  = (w ← process k w (block <$> seqZ i (Z.min SyncChunkSize (l1Num - i)));
     if bool_decide (l1Num - i < SyncChunkSize) then Done (mkSyncer w false, syncDone)
     else fromGenesis block stop process l1Num fuel (S k) (i + SyncChunkSize) w).
Proof.
  intros H0 Hi Hb. cbn [fromGenesis]. unfold chunkRounds, SyncChunkSize in *.
  rewrite (u64_small (i + 10)) by (unfold in_u64; lia).
  rewrite gather_ok by (lia || done). replace (Z.of_nat (Z.to_nat (i + 10 - i))) with 10 by lia. done.
Qed.

(** The chunks from block [i] on, of which [n] follow the first. *)
Fixpoint chunksFrom (block : Z -> option l1Block) (l1Num : Z) (n : nat) (i : Z) : list (list (option l1Block)) :=
  (block <$> seqZ i (Z.min SyncChunkSize (l1Num - i))) :: match n with O => [] | S n => chunksFrom block l1Num n (i + SyncChunkSize) end.

(** The number of full chunks. *)
Lemma full_chunks l1Num start n : n = Z.to_nat ((l1Num - start) / SyncChunkSize) ->
  match n with
  | O => l1Num - start < SyncChunkSize
  | S m => SyncChunkSize <= l1Num - start /\ m = Z.to_nat ((l1Num - (start + SyncChunkSize)) / SyncChunkSize)
  end.
Proof.
  unfold SyncChunkSize. intros ->. pose proof (Z.div_mod (l1Num - start) 10). pose proof (Z.mod_pos_bound (l1Num - start) 10).
  replace (l1Num - (start + 10)) with (l1Num - start + (-1) * 10) by lia. rewrite Z.div_add by lia. destruct (Z.to_nat _) eqn:E; lia.
Qed.

Lemma fromGenesis_chunks block stop process l1Num n : forall k start w,
  0 <= start -> Z.max start l1Num + SyncChunkSize < 2 ^ 64 ->
  (forall x, start <= x < l1Num -> stop x = false /\ is_Some (block x)) -> n = Z.to_nat ((l1Num - start) / SyncChunkSize) ->
  fromGenesis block stop process l1Num (S n) k start w
  = (w' ← fold_outcome (fun w kb => process kb.1 w kb.2) (imap (fun i b => ((k + i)%nat, b)) (chunksFrom block l1Num n start)) w; Done (mkSyncer w' false, syncDone)).
Proof.
  induction n as [|n IH]; intros k start w H0 Hmax Hb Hn; apply full_chunks in Hn; rewrite fromGenesis_round by (lia || done); cbn [chunksFrom]; rewrite imap_cons; cbn [fold_outcome fst snd]; rewrite Nat.add_0_r.
  - rewrite bool_decide_true by done. by destruct (process k w _).
  - destruct Hn as [Hge Hn]. rewrite bool_decide_false by lia. destruct (process k w _) as [w'| |]; [|done..]. cbn [mbind outcome_bind].
    rewrite IH; [|unfold SyncChunkSize; lia|unfold SyncChunkSize in *; lia|intros; apply Hb; unfold SyncChunkSize in *; lia|done]. do 2 f_equal. apply imap_ext. intros i x _. simpl. f_equal. lia.
Qed.

Lemma chunks_cover block l1Num n : forall start, n = Z.to_nat ((l1Num - start) / SyncChunkSize) ->
  concat (chunksFrom block l1Num n start) = block <$> seqZ start (l1Num - start) /\ Forall (fun c => Z.of_nat (length c) <= SyncChunkSize) (chunksFrom block l1Num n start).
Proof.
  induction n as [|n IH]; intros start Hn; apply full_chunks in Hn; cbn [chunksFrom concat].
  - rewrite Z.min_r, app_nil_r by lia. split; [done|]. apply Forall_singleton. rewrite length_fmap, length_seqZ. unfold SyncChunkSize in *. lia.
  - destruct Hn as [Hge Hn]. destruct (IH _ Hn) as [-> HF]. rewrite Z.min_l by lia. split.
    + replace (l1Num - start) with (SyncChunkSize + (l1Num - (start + SyncChunkSize))) by lia. rewrite seqZ_app by (unfold SyncChunkSize in *; lia). by rewrite fmap_app.
    + apply Forall_cons. split; [|done]. rewrite length_fmap, length_seqZ. unfold SyncChunkSize. lia.
Qed.

(** [processBlocks] on the [k]-th chunk, with the answers it gets there; its
    error is dropped. *)
Definition processChunk (heads : nat -> Hash * option l1Block) (ans : nat -> answers sqlState) (k : nat) (w : world) (blocks : list (option l1Block)) : outcome world :=
  '(w, _) ← processBlocks (heads k).1 (heads k).2 (ans k) w blocks; Done w.

(** C37: a synchronisation from genesis, for which the node has the blocks and
    which is not cancelled, is [processBlocks] on every block from the genesis
    number up to the node's head, the head itself excluded, once and in
    order, in chunks of at most ten, after which the [forced] flag is cleared.
    It ends when [processBlocks] does on every chunk, and panics when it does
    on one; one round per chunk is enough fuel. *)
Theorem fromGenesis_covers block stop heads ans l1Num start w :
  0 <= start -> Z.max start l1Num + SyncChunkSize < 2 ^ 64 ->
  (forall x, start <= x < l1Num -> stop x = false /\ is_Some (block x)) ->
  exists chunks,
    fromGenesis block stop (processChunk heads ans) l1Num (S (Z.to_nat ((l1Num - start) / SyncChunkSize))) 0 start w
      = (w' ← fold_outcome (fun w kb => processChunk heads ans kb.1 w kb.2) (imap pair chunks) w; Done (mkSyncer w' false, syncDone))
    /\ concat chunks = block <$> seqZ start (l1Num - start)
    /\ Forall (fun c => Z.of_nat (length c) <= SyncChunkSize) chunks.
Proof.
  intros H0 Hmax Hb. eexists. split; [by apply (fromGenesis_chunks _ _ _ _ _ 0)|]. by apply chunks_cover.
Qed.

(** ** Reorganisations *)

Lemma GetBlockByHash_no_number s h : NumberU64 (GetBlockByHash s h).1 = Panic.
Proof. unfold GetBlockByHash. by destruct (tBlockByHash s _). Qed.

Lemma deleteDown_same n i s : deleteDown n i i s = s.
Proof. destruct n; cbn [deleteDown]; [done|]. by rewrite decide_False by lia. Qed.

(** [checkReorg] never finds an earlier block.  Whether the chain was
    reorganised or not it answers the very block it was asked about, when it
    does not panic; it panics when the node has no block of that number, and
    when the block was replaced and the node does not know its parent, because
    the stored parent cannot be read back.  So nothing is deleted and the
    synchronisation goes on behind the replaced block. *)
Theorem checkReorg_never_rewinds byNumber byHash s fuel b :
  checkReorg byNumber byHash s (S fuel) (Blk b)
  = (if decide (Compare zeroHash (bkHash b) = 0) then Done (false, Blk b)
     else match byNumber (bkNumber b) with
          | None => Panic
          | Some l =>
              if decide (HashHex (bkHash b) = HashHex (bkHash l)) then Done (false, Blk b)
              else match byHash (bkParentHash b) with Some _ => Done (true, Blk b) | None => Panic end
          end)
  /\ forall n, deleteDown (Z.to_nat n) n n s = s.
Proof.
  split; [|intros; apply deleteDown_same]. cbn [checkReorg]. case_decide; [done|]. destruct (byNumber (bkNumber b)) as [l|]; [|done].
  case_decide; [done|]. destruct (byHash (bkParentHash b)); [done|].
  pose proof (GetBlockByHash_no_number s (bkParentHash b)) as Hn. destruct (GetBlockByHash s (bkParentHash b)) as [parent err].
  simpl in Hn. by rewrite Hn.
Qed.



(** ** Receipts that do not come *)

Lemma delLoop_not_stuck {A : Type} key todo : forall i (om : @OrderedMap A), delLoop key todo i om <> Stuck.
Proof.
  induction todo as [|todo IH]; intros i om; [done|]. cbn [delLoop]. destruct (arr om !! i); [|done].
  case_decide; [|apply IH]. unfold cutKey. case_decide; [apply IH|done].
Qed.

Lemma receiptStep_not_stuck rcpt st i : receiptStep rcpt st i <> Stuck.
Proof.
  destruct st as [rs cache]. unfold receiptStep, index. rewrite decide_True by lia.
  destruct (arr cache !! _) as [k|]; [|done]. cbn [mbind outcome_bind]. cbn zeta. destruct (receiptOk _).
  - unfold store. by case_decide.
  - pose proof (delLoop_not_stuck k (klen cache) 0 (mkOM (arr cache) (klen cache) (delete k (values cache)))) as Hs.
    unfold OMDel. by destruct (delLoop _ _ _ _).
Qed.

(** What the receipt loop leaves after [i] rounds: the cache it started with, or
    an empty slot; the slots to come are empty. *)
Definition receiptsAt (cache : cacheT) (i : nat) (st : list (option l1Receipt) * cacheT) : Prop :=
  length st.1 = klen cache /\ (forall j, (i <= j < klen cache)%nat -> st.1 !! j = Some None)
  /\ (st.2 = cache \/ exists j, (j < i)%nat /\ st.1 !! j = Some None).

Lemma receiptStep_at rcpt cache i st st' :
  (i < klen cache)%nat -> receiptsAt cache i st -> receiptStep rcpt st i = Done st' -> receiptsAt cache (i + 1) st'.
Proof.
  intros Hi (Hl & Hn & Hc). destruct st as [rs c]. simpl in *. unfold receiptStep.
  destruct (index (arr c) (Z.of_nat i)) as [k| |]; cbn [mbind outcome_bind]; [|done..]. cbn zeta. destruct (receiptOk _) eqn:Hok.
  - rewrite store_Done by lia. cbn [mbind outcome_bind]. intros [= <-]. rewrite Nat2Z.id. split_and!; simpl.
    + by rewrite length_insert.
    + intros j Hj. rewrite list_lookup_insert_ne by lia. apply Hn. lia.
    + destruct Hc as [->|(j & Hj & Hrs)]; [by left|]. right. exists j. rewrite list_lookup_insert_ne by lia. split; [lia|done].
  - destruct (OMDel c k) as [c'| |]; cbn [mbind outcome_bind]; [|done..]. intros [= <-]. split_and!; simpl; [done| |].
    + intros j Hj. apply Hn. lia.
    + right. exists i. split; [lia|]. apply Hn. lia.
Qed.

Lemma receiptStep_other rcpt st i st' j : receiptStep rcpt st i = Done st' -> j <> i -> st'.1 !! j = st.1 !! j.
Proof.
  destruct st as [rs c]. unfold receiptStep. intros Hst Hj. revert Hst.
  destruct (index (arr c) (Z.of_nat i)); cbn [mbind outcome_bind]; [|done..]. cbn zeta. destruct (receiptOk _).
  - unfold store. case_decide; [|done]. cbn [mbind outcome_bind]. intros [= <-]. simpl. by rewrite list_lookup_insert_ne by lia.
  - destruct (OMDel c _); cbn [mbind outcome_bind]; [|done..]. by intros [= <-].
Qed.

(** The round of a key without receipt leaves its slot empty, or came after a
    round that did. *)
Lemma receiptStep_fails rcpt cache i k st st' :
  (klen cache <= length (arr cache))%nat -> OMKeys cache !! i = Some k -> receiptOk (rcpt i (HexToHash k)) = false ->
  receiptsAt cache i st -> receiptStep rcpt st i = Done st' -> exists j, (j <= i)%nat /\ st'.1 !! j = Some None.
Proof.
  intros Hlen Hk Hok Hat Hst. pose proof (lookup_lt_Some _ _ _ Hk) as Hi. unfold OMKeys in Hi. rewrite length_take_le in Hi by done.
  destruct Hat as (Hl & Hn & [Hc0|(j & Hj & Hnj)]); destruct st as [rs c]; cbn [fst snd] in *.
  - subst c. revert Hst. unfold receiptStep. rewrite (index_nat _ _ k) by (apply lookup_take_Some in Hk as [Hk _]; exact Hk).
    cbn [mbind outcome_bind]. cbn zeta. rewrite Hok. destruct (OMDel cache k); cbn [mbind outcome_bind]; [|done..]. intros [= <-].
    exists i. split; [done|]. apply Hn. lia.
  - exists j. split; [lia|]. by rewrite (receiptStep_other _ _ _ _ j Hst) by lia.
Qed.

Lemma fetchReceipts_fails rcpt cache i k rs cache' :
  (klen cache <= length (arr cache))%nat -> OMKeys cache !! i = Some k -> receiptOk (rcpt i (HexToHash k)) = false ->
  fetchReceipts rcpt cache = Done (rs, cache') -> exists j, rs !! j = Some None.
Proof.
  intros Hlen Hk Hok. pose proof (lookup_lt_Some _ _ _ Hk) as Hi. unfold OMKeys in Hi. rewrite length_take_le in Hi by done.
  unfold fetchReceipts. replace (klen cache) with (i + S (klen cache - S i))%nat at 1 by lia. rewrite seq_app, fold_outcome_app.
  destruct (fold_outcome _ (seq 0 i) _) as [st| |] eqn:Hpre; cbn [mbind outcome_bind]; [|done..].
  apply (fold_outcome_seq (receiptsAt cache)) in Hpre.
  - cbn [seq fold_outcome]. destruct (receiptStep rcpt st _) as [st1| |] eqn:Hst; [|done..].
    destruct (receiptStep_fails _ _ _ _ _ _ Hlen Hk Hok Hpre Hst) as (j & Hj & Hn). intros Hpost.
    exists j. apply (fold_outcome_seq (fun _ st => st.1 !! j = Some None) _ _ _ _ _ Hn) in Hpost; [exact Hpost|].
    intros i' s s' Hi' Hs Hs'. by rewrite (receiptStep_other _ _ _ _ j Hs') by lia.
  - split_and!; simpl; [by rewrite length_replicate| |by left]. intros j Hj. apply lookup_replicate_2. lia.
  - intros i' s s' Hi' Hs Hs'. eapply receiptStep_at; [simpl in Hi'; lia|done|done].
Qed.

Lemma logsOf_nil_slot rs j : rs !! j = Some None -> logsOf rs = Panic.
Proof.
  intros Hj. apply list_elem_of_lookup_2 in Hj. unfold logsOf. generalize ([] : list l1Log).
  induction rs as [|r rs IH]; intros acc; [by apply not_elem_of_nil in Hj|]. cbn [fold_outcome].
  apply elem_of_cons in Hj as [<-|Hj]; [done|]. destruct r; [by apply IH|done].
Qed.

Lemma collectTx_wf bc st t st' : om_wf st.2 -> collectTx bc st t = Done st' -> om_wf st'.2.
Proof.
  destruct st as [tr c]. intros Hc. simpl in Hc. unfold collectTx. destruct (isCommitTx t); [|by intros [= <-]].
  case_decide; [by intros [= <-]|]. destruct (slice _); cbn [mbind outcome_bind]; [|done..]. intros [= <-]. simpl. by apply OMSet_wf.
Qed.

Lemma collectBlock_wf st bc st' : om_wf st.2 -> collectBlock st bc = Done st' -> om_wf st'.2.
Proof.
  destruct st as [tx c]. intros Hc. simpl in Hc. unfold collectBlock. destruct bc as [bc|]; [|by intros [= <-]].
  destruct (fold_outcome (collectTx bc) _ _) as [[trans c1]| |] eqn:Ht; cbn [mbind outcome_bind]; [|done..].
  apply (fold_outcome_Done (fun st => om_wf st.2)) in Ht; [|intros ???; apply collectTx_wf|done]. simpl in Ht.
  case_decide; [by intros [= <-]|]. destruct (AddBatchTransactions _ _ _) as [[tx1 e]| |]; cbn [mbind outcome_bind]; [|done..].
  by intros [= <-].
Qed.

Lemma receiptRowOf_not_stuck r : receiptRowOf r <> Stuck.
Proof. destruct r as [r|]; [|done]. simpl. by destruct (rcBlockNumber r). Qed.

Lemma writeLedger_no_receipt rcpt s blocks tx tx' cache i k :
  AddBatchBlocks encodeBlock (tBegin s) blocks = Done (tx, false) ->
  fold_outcome collectBlock blocks (tx, NewOrderedMap) = Done (tx', cache) ->
  OMKeys cache !! i = Some k -> receiptOk (rcpt i (HexToHash k)) = false -> writeLedger rcpt s blocks = Panic.
Proof.
  intros Hb Hc Hk Hok. unfold writeLedger. rewrite Hb. cbn [mbind outcome_bind]. rewrite Hc. cbn [mbind outcome_bind].
  apply (fold_outcome_Done (fun st => om_wf st.2)) in Hc as (Hlen & _ & _); [|intros ???; apply collectBlock_wf|apply om_wf_new].
  destruct (fetchReceipts rcpt cache) as [[rs c]| |] eqn:Hf; cbn [mbind outcome_bind]; [|done|].
  - destruct (fetchReceipts_fails _ _ _ _ _ _ Hlen Hk Hok Hf) as [j Hj].
    destruct (AddBatchReceipts tx' rs) as [[tx2 e]| |] eqn:Ha; cbn [mbind outcome_bind]; [by rewrite (logsOf_nil_slot rs j)|done|].
    exfalso. revert Ha. apply insertAll_not_stuck, receiptRowOf_not_stuck.
  - exfalso. revert Hf. apply fold_outcome_not_stuck. intros. apply receiptStep_not_stuck.
Qed.

(** A commitment transaction whose receipt does not come, or reports a
    failure, makes [processBlocks] panic: its slot of the receipt list stays
    nil, and the list is read to its end. *)
Theorem failed_receipt_panics head headBlock ans w blocks tx tx' cache i k :
  AddBatchBlocks encodeBlock (tBegin (wDB w)) blocks = Done (tx, false) ->
  fold_outcome collectBlock blocks (tx, NewOrderedMap) = Done (tx', cache) ->
  OMKeys cache !! i = Some k -> receiptOk (rcptOf ans i (HexToHash k)) = false ->
  processBlocks head headBlock ans w blocks = Panic.
Proof. intros Hb Hc Hk Hok. unfold processBlocks. by rewrite (writeLedger_no_receipt _ _ _ _ _ _ _ _ Hb Hc Hk Hok). Qed.

(** *** Call data that is too short *)

Lemma slice_short data : (length data < 196)%nat -> slice data = Panic.
Proof.
  intros Hl. unfold slice, subslice. rewrite (decide_False (P := 0 <= 132 + 32 <= 132 + 64 /\ _)) by lia. by case_decide.
Qed.

(** C7: from the call data that the repository's own binding of
    [SubmitCommitment] packs, [processBlocks] takes the offset of the signatures as
    the X coordinate of the commitment, and the X coordinate as Y. *)
Theorem submit_misread length_ timeout nameSpaceId nodeGroupKey signatures x y :
  let vs := submitValues length_ timeout nameSpaceId nodeGroupKey signatures x y in
  Forall (fun z => 0 <= z < 2 ^ 256) [length_; timeout; nameSpaceId; x; y] -> hash_ok nodeGroupKey -> Forall bytes_ok signatures ->
  Z.of_nat (length (encTuple (encItems (argTypes submitInputs) vs))) < 2 ^ 61 -> length (Keccak256 submitSig) = 32%nat ->
  exists data, submitData Keccak256 vs = aok data /\ slice data = Done (Marshal (coords (word 224) (word x))).
Proof.
  intros vs Hn Hk Hs Hl HK. destruct (submit_layout Keccak256 length_ timeout nameSpaceId nodeGroupKey signatures x y Hn Hk Hs Hl) as (rest & HD). eexists. split; [exact HD|].
  set (id := take 4 (Keccak256 submitSig)). assert (length id = 4%nat) as Hid by (unfold id; rewrite length_take, HK; reflexivity). clearbody id. destruct Hk as [Hk _]. unfold HashLength in Hk. unfold slice.
  set (data := _ ++ _). assert (standsAt data 132 (word 224)) as H1.
  { exists (id ++ word length_ ++ word timeout ++ word nameSpaceId ++ nodeGroupKey), (word x ++ word y ++ rest). split; [unfold data; by rewrite <-!app_assoc|]. rewrite !length_app, !length_word, Hid, Hk. reflexivity. }
  assert (standsAt data (132 + 32) (word x)) as H2.
  { exists (id ++ word length_ ++ word timeout ++ word nameSpaceId ++ nodeGroupKey ++ word 224), (word y ++ rest). split; [unfold data; by rewrite <-!app_assoc|]. rewrite !length_app, !length_word, Hid, Hk. reflexivity. }
  clearbody data. rewrite (stands_word _ _ _ H1). cbn [mbind outcome_bind]. apply stands_word in H2. change (132 + 32 + 32) with (132 + 64) in H2. by rewrite H2.
Qed.

Lemma slice_not_stuck data : slice data <> Stuck.
Proof. unfold slice, subslice. by repeat case_decide. Qed.

Lemma collectTx_not_stuck bc st t : collectTx bc st t <> Stuck.
Proof.
  destruct st as [tr c]. unfold collectTx. destruct (isCommitTx t); [|done]. case_decide; [done|].
  pose proof (slice_not_stuck (txData t)). by destruct (slice (txData t)).
Qed.

Lemma collectBlock_not_stuck st bc : collectBlock st bc <> Stuck.
Proof.
  destruct st as [tx c]. unfold collectBlock. destruct bc as [bc|]; [|done].
  pose proof (fold_outcome_not_stuck (collectTx bc) (bkTransactions bc) ([], c) (collectTx_not_stuck bc)).
  destruct (fold_outcome _ _ _) as [[trans c1]| |]; cbn [mbind outcome_bind]; [|done..]. case_decide; [done|].
  assert (Hi : AddBatchTransactions tx trans (i64 (bkNumber bc)) <> Stuck) by (by apply insertAll_not_stuck).
  by destruct (AddBatchTransactions _ _ _) as [[]| |].
Qed.

(** A transaction to the commitment contract with fewer than 196 bytes of
    call data, but some, makes [processBlocks] panic, wherever it is in the
    blocks: the commitment is cut out without looking at the length. *)
Theorem short_call_data_panics head headBlock ans w blocks tx b t :
  AddBatchBlocks encodeBlock (tBegin (wDB w)) blocks = Done (tx, false) ->
  Some b ∈ blocks -> t ∈ bkTransactions b -> isCommitTx t = true -> (0 < length (txData t) < 196)%nat ->
  processBlocks head headBlock ans w blocks = Panic.
Proof.
  intros Hadd Hb Ht Hc Hl. unfold processBlocks, writeLedger. rewrite Hadd. cbn [mbind outcome_bind].
  rewrite (fold_outcome_Panic collectBlock blocks (Some b)); [done|apply collectBlock_not_stuck|done|].
  intros [tx1 c]. unfold collectBlock. rewrite (fold_outcome_Panic (collectTx b) (bkTransactions b) t); [done|apply collectTx_not_stuck|done|].
  intros [tr c1]. unfold collectTx. rewrite Hc, decide_False by lia. by rewrite slice_short by lia.
Qed.

(** *** Blocks without commitments *)

Lemma collectBlocks_none blocks tx cache :
  (forall b, Some b ∈ blocks -> Forall (fun t => isCommitTx t = false) (bkTransactions b)) ->
  fold_outcome collectBlock blocks (tx, cache) = Done (tx, cache).
Proof.
  induction blocks as [|b blocks IH]; intros Hn; [done|]. cbn [fold_outcome].
  assert (Hs : collectBlock (tx, cache) b = Done (tx, cache)).
  { unfold collectBlock. destruct b as [b|]; [|done]. specialize (Hn b ltac:(set_solver)).
    enough (HT : fold_outcome (collectTx b) (bkTransactions b) ([], cache) = Done ([], cache)) by (by rewrite HT).
    induction Hn as [|t ts Ht _ IHt]; [done|]. cbn [fold_outcome]. unfold collectTx at 1. by rewrite Ht. }
  rewrite Hs. apply IH. set_solver.
Qed.

(** ** The tables get everything or nothing *)

(** The receipts of the keys, in order. *)
Definition receiptsFor (rcpt : nat -> Hash -> option l1Receipt) (keys : list (list Z)) : list (option l1Receipt) :=
  imap (fun i k => rcpt i (HexToHash k)) keys.

Lemma fetchReceipts_from rcpt cache m : forall pre,
  (klen cache <= length (arr cache))%nat -> (length pre + m)%nat = klen cache ->
  (forall i k, OMKeys cache !! i = Some k -> receiptOk (rcpt i (HexToHash k)) = true) ->
  fold_outcome (receiptStep rcpt) (seq (length pre) m) (pre ++ replicate m None, cache)
  = Done (pre ++ drop (length pre) (receiptsFor rcpt (OMKeys cache)), cache).
Proof.
  induction m as [|m IH]; intros pre Hlen Hm Hok; cbn [seq fold_outcome replicate].
  - rewrite drop_ge; [done|]. unfold receiptsFor. rewrite length_imap. unfold OMKeys. rewrite length_take. lia.
  - destruct (lookup_lt_is_Some_2 (OMKeys cache) (length pre)) as [k Hk]; [unfold OMKeys; rewrite length_take; lia|].
    unfold receiptStep at 1. rewrite (index_nat _ _ k) by (unfold OMKeys in Hk; apply lookup_take_Some in Hk as [Hk _]; exact Hk).
    cbn [mbind outcome_bind]. cbn zeta. rewrite (Hok _ _ Hk).
    rewrite store_Done by (rewrite length_app; simpl; lia). cbn [mbind outcome_bind].
    rewrite Nat2Z.id, insert_app_r_alt, Nat.sub_diag by done. cbn [insert list_insert].
    specialize (IH (pre ++ [rcpt (length pre) (HexToHash k)])). rewrite length_app in IH. cbn [length] in IH.
    rewrite <-!(assoc_L (++)), Nat.add_1_r in IH. cbn [app] in IH. rewrite IH by (done || lia).
    f_equal. f_equal. f_equal. symmetry. apply drop_S. unfold receiptsFor. by rewrite list_lookup_imap, Hk.
Qed.

Lemma fetchReceipts_all rcpt cache :
  (klen cache <= length (arr cache))%nat ->
  (forall i k, OMKeys cache !! i = Some k -> receiptOk (rcpt i (HexToHash k)) = true) ->
  fetchReceipts rcpt cache = Done (receiptsFor rcpt (OMKeys cache), cache).
Proof. intros Hlen Hok. by apply (fetchReceipts_from rcpt cache (klen cache) []). Qed.

Lemma logsOf_Some rs : logsOf (Some <$> rs) = Done (concat (rcLogs <$> rs)).
Proof.
  unfold logsOf. change (concat (rcLogs <$> rs)) with ([] ++ concat (rcLogs <$> rs)). generalize ([] : list l1Log).
  induction rs as [|r rs IH]; intros acc; cbn [fmap list_fmap fold_outcome concat]; [by rewrite app_nil_r|].
  rewrite IH. by rewrite (assoc_L (++)).
Qed.

Lemma receipts_all_ok rcpt keys :
  (forall i k, keys !! i = Some k -> receiptOk (rcpt i (HexToHash k)) = true) ->
  exists rs, receiptsFor rcpt keys = Some <$> rs /\ length rs = length keys /\ Forall (fun r => rcStatus r = 1) rs.
Proof.
  unfold receiptsFor. revert rcpt. induction keys as [|k keys IH]; intros rcpt Hok; [by exists []|]. rewrite imap_cons.
  pose proof (Hok 0%nat k eq_refl) as Hk. destruct (rcpt 0%nat (HexToHash k)) as [r|]; [|done].
  destruct (IH (fun i => rcpt (S i))) as (rs & Hrs & Hl & Hall); [intros i k' Hi; by apply (Hok (S i))|].
  exists (r :: rs). rewrite fmap_cons. split_and!; [f_equal; exact Hrs|simpl; by rewrite Hl|].
  apply Forall_cons. split; [by apply bool_decide_eq_true in Hk|done].
Qed.

(** All keys have their receipts, or one has not. *)
Lemma receipts_cases rcpt (keys : list (list Z)) :
  (forall i k, keys !! i = Some k -> receiptOk (rcpt i (HexToHash k)) = true)
  \/ exists i k, keys !! i = Some k /\ receiptOk (rcpt i (HexToHash k)) = false.
Proof.
  revert rcpt. induction keys as [|k keys IH]; intros rcpt; [left; by intros [|i] k|].
  destruct (receiptOk (rcpt 0%nat (HexToHash k))) eqn:Hk; [|right; by exists 0%nat, k].
  destruct (IH (fun i => rcpt (S i))) as [Hall|(i & k' & Hi & Hf)]; [|right; by exists (S i), k'].
  left. intros [|i] k' Hi; [by simplify_eq/=|by apply Hall].
Qed.

(** The commitment transactions of a block, and their rows. *)
Definition commitTxs (b : l1Block) : list l1Tx := filter (fun t => isCommitTx t = true) (bkTransactions b).

Definition commitRows (blocks : list (option l1Block)) : list row :=
  concat ((fun b => match b with Some b => madeRows (txRowOf (i64 (bkNumber b))) (commitTxs b) | None => [] end) <$> blocks).

Lemma collectTx_trans bc txs : forall tr c tr' c',
  fold_outcome (collectTx bc) txs (tr, c) = Done (tr', c') -> tr' = tr ++ filter (fun t => isCommitTx t = true) txs.
Proof.
  induction txs as [|t txs IH]; intros tr c tr' c'; cbn [fold_outcome]; [intros [= <- _]; by rewrite filter_nil, app_nil_r|].
  unfold collectTx at 1. destruct (isCommitTx t) eqn:Ht.
  - rewrite filter_cons_True by done. replace (tr ++ t :: filter _ txs) with ((tr ++ [t]) ++ filter (fun t => isCommitTx t = true) txs)
      by (by rewrite <-(assoc_L (++))).
    case_decide; [apply IH|]. destruct (slice _); cbn [mbind outcome_bind]; [apply IH|done..].
  - rewrite filter_cons_False by (by rewrite Ht). apply IH.
Qed.

Section ledger_laws.
Context `{!TablesLaws gorm tables}.

Lemma collectBlocks_wrote blocks : forall tx c tx' c',
  fold_outcome collectBlock blocks (tx, c) = Done (tx', c') -> wrote tx tx' (commitRows blocks).
Proof.
  induction blocks as [|b blocks IH]; intros tx c tx' c'; cbn [fold_outcome]; [intros [= <- _]; apply wrote_nil|].
  destruct (collectBlock (tx, c) b) as [[tx1 c1]| |] eqn:Hb; [|done..]. intros Hf. apply IH in Hf.
  unfold commitRows. rewrite fmap_cons. cbn [concat]. eapply wrote_trans; [|exact Hf]. clear Hf IH. revert Hb. unfold collectBlock.
  destruct b as [b|]; [|intros [= <- _]; apply wrote_nil].
  destruct (fold_outcome (collectTx b) _ _) as [[trans c2]| |] eqn:Ht; cbn [mbind outcome_bind]; [|done..].
  apply collectTx_trans in Ht. cbn [app] in Ht. fold (commitTxs b) in Ht. case_decide as Hl.
  - intros [= <- _]. destruct (commitTxs b); [apply wrote_nil|by subst trans].
  - destruct (AddBatchTransactions _ _ _) as [[tx2 e]| |] eqn:Ha; cbn [mbind outcome_bind]; [|done..].
    intros [= <- _]. rewrite <-Ht. by eapply insertAll_wrote.
Qed.

(** C15: when [processBlocks] gets past its transaction, all receipts were there
    and successful, the logs are theirs, and the tables have gained the rows of
    all blocks, of all commitment transactions, of all receipts and of all
    logs, in this order, or none of them. *)
Theorem ledger_all_or_nothing rcpt s blocks s' logs cache :
  writeLedger rcpt s blocks = Done (Some (s', logs, cache)) ->
  exists receipts,
    receiptsFor rcpt (OMKeys cache) = Some <$> receipts /\ Forall (fun r => rcStatus r = 1) receipts
    /\ logs = concat (rcLogs <$> receipts)
    /\ (stRows s' = stRows s
        \/ stRows s' = stRows s ++ madeRows (blockRowOf encodeBlock) blocks ++ commitRows blocks
                         ++ madeRows receiptRowOf (Some <$> receipts) ++ madeRows logRowOf logs).
Proof.
  intros HW. pose proof HW as HW'. revert HW'. unfold writeLedger.
  destruct (AddBatchBlocks _ _ _) as [[tx []]| |] eqn:Hb; cbn [mbind outcome_bind]; [done| |done..].
  destruct (fold_outcome collectBlock _ _) as [[tx1 c]| |] eqn:Hc; cbn [mbind outcome_bind]; [|done..].
  destruct (receipts_cases rcpt (OMKeys c)) as [Hok|(i & k & Hi & Hf)];
    [|by rewrite (writeLedger_no_receipt _ _ _ _ _ _ _ _ Hb Hc Hi Hf) in HW].
  pose proof Hc as (Hlen & _ & _)%(fold_outcome_Done (fun st => om_wf st.2)); [|intros ???; apply collectBlock_wf|apply om_wf_new].
  rewrite fetchReceipts_all by done. cbn [mbind outcome_bind].
  destruct (receipts_all_ok rcpt (OMKeys c) Hok) as (rs & Hrs & _ & Hall). rewrite Hrs.
  destruct (AddBatchReceipts tx1 _) as [[tx2 e2]| |] eqn:H2; cbn [mbind outcome_bind]; [|done..].
  rewrite logsOf_Some. cbn [mbind outcome_bind].
  destruct (AddBatchLogs tx2 _) as [[tx3 e3]| |] eqn:H3; cbn [mbind outcome_bind]; [|done..]. intros [= <- <- <-].
  exists rs. split_and!; [done..|]. apply wrote_commit.
  eapply wrote_trans; [by eapply insertAll_wrote|]. eapply wrote_trans; [by eapply collectBlocks_wrote|].
  eapply wrote_trans; by eapply insertAll_wrote.
Qed.

End ledger_laws.

(** ** Confirmed records *)

(** The pool's entries are the objects their keys point to. *)
Definition coherent (w : world) : Prop :=
  forall h d, get (wPool w) h = Some d -> exists p, wOwner w !! h = Some p /\ wHeap w !! p = Some d.

Lemma addObj_coherent local fs now p w w' : coherent w -> addObj local fs now p w = Done w' -> coherent w'.
Proof.
  intros Hc. unfold addObj. destruct (wHeap w !! p) as [d|] eqn:Hp; [|done].
  destruct (Add_one fs now (wPool w) d local) as (fp & errs & -> & HG). cbn [mbind outcome_bind]. intros [= <-] h x. simpl.
  rewrite HG. destruct (decide (head errs = Some None /\ h ∈ keysOf d)) as [Hh|Hh].
  - intros [= <-]. destruct Hh as [He Hin]. rewrite decide_True by done. rewrite owners_lookup, decide_True by done. eauto.
  - intros Hx. destruct (Hc h x Hx) as (q & Hq & Hd). exists q. split; [|done].
    destruct (decide (head errs = Some None)); [|done]. rewrite owners_lookup, decide_False; [done|]. intros Hin. by apply Hh.
Qed.

Lemma writeObj_get p g w h :
  get (wPool (writeObj p g w)) h = (fun d => if decide (wOwner w !! h = Some p) then g d else d) <$> get (wPool w) h.
Proof.
  clear encodeBlock decodeBlock coords zone unix cs.
  unfold get, lookupGet, writeObj. cbn [wPool rewriteRecords all set_all lcollector]. rewrite map_lookup_imap.
  destruct (lcollector (all (wPool w)) !! h) as [d|]; [|done]. simpl. f_equal. apply decide_ext.
  rewrite elem_of_dom. unfold is_Some. setoid_rewrite map_lookup_filter_Some. simpl. naive_solver.
Qed.

Lemma writeObj_coherent p g w : coherent w -> coherent (writeObj p g w).
Proof.
  intros Hc h x. rewrite writeObj_get. destruct (get (wPool w) h) as [d|] eqn:Hd; [|done]. simpl. intros [= <-].
  destruct (Hc h d Hd) as (q & Hq & Hx). exists q. split; [done|]. rewrite list_lookup_alter.
  rewrite Hq. repeat case_decide; simplify_eq; by rewrite Hx.
Qed.

Lemma GetDAByCommit_all sqls fp c fp' da err : GetDAByCommit sqls fp c = Done (fp', da, err) -> all fp' = all fp.
Proof.
  rewrite GetDAByCommit_eq. cbn zeta. destruct (get fp _); [by intros [= <- _ _]|].
  destruct (GetDAByCommitment (sqls 0%nat) c) as [[o [] ]| |]; cbn [mbind outcome_bind]; [|destruct o|done|done].
  - destruct o; by intros [= <- _ _].
  - by intros [= <- _ _].
  - destruct (GetDAByCommitment (sqls 1%nat) c) as [[o' e']| |]; cbn [mbind outcome_bind]; [|done..]. by intros [= <- _ _].
Qed.

(** [w'] has the pool entries, the owners and the objects of [w]. *)
Definition extends (w w' : world) : Prop :=
  all (wPool w') = all (wPool w) /\ wOwner w' = wOwner w /\ exists l, wHeap w' = wHeap w ++ l.

Lemma extends_coherent w w' : extends w w' -> coherent w -> coherent w'.
Proof.
  intros (Ha & Ho & l & Hh) Hc h d. unfold get, lookupGet. rewrite Ha. intros Hd. destruct (Hc h d Hd) as (p & Hp & Hx).
  exists p. rewrite Ho, Hh. split; [done|]. by apply lookup_app_l_Some.
Qed.

(** The key of the pool for the commitment of a transaction. *)
Definition commitHash (det : CommitDetail) : Hash := BytesToHash (Marshal (DigestSetBytes zeroDigest (cdCommit det)).1).

(** Where the object [p] of a transaction comes from: it is the pool's, or a new
    one for a record of the database. *)
Definition origin (ans : answers sqlState) (i : nat) (det : CommitDetail) (w w1 : world) (p : nat) : Prop :=
  (exists da, get (wPool w) (commitHash det) = Some da /\ p = default 0%nat (wOwner w !! commitHash det) /\ wHeap w1 = wHeap w)
  \/ (exists da n, get (wPool w) (commitHash det) = None /\ p = length (wHeap w) /\ wHeap w1 = wHeap w ++ [da] /\ GetDAByCommitment (sqlSeen ans i n) (cdCommit det) = Done (Some da, false)).

Lemma GetDAByCommit_found sqls fp det fp' da : GetDAByCommit sqls fp (cdCommit det) = Done (fp', Some da, false) ->
  get fp (commitHash det) = Some da \/ get fp (commitHash det) = None /\ exists n, GetDAByCommitment (sqls n) (cdCommit det) = Done (Some da, false).
Proof.
  rewrite GetDAByCommit_eq. cbn zeta. fold (commitHash det). destruct (get fp (commitHash det)) as [d|]; [by intros [= _ <-]; left|]. intros H. right. split; [done|]. revert H.
  destruct (GetDAByCommitment (sqls 0%nat) _) as [[o []]| |] eqn:E0; cbn [mbind outcome_bind]; [by destruct o| |done..]. destruct o as [d|]; [intros [= _ <-]; by exists 0%nat|].
  destruct (GetDAByCommitment (sqls 1%nat) _) as [[o' []]| |] eqn:E1; cbn [mbind outcome_bind]; [done| |done..]. intros [= _ ->]. by exists 1%nat.
Qed.

(** A key is passed over, or its record is written to and added. *)
Lemma takeStep_cases ans cache w ps i key w' ps' :
  takeStep ans cache (w, ps) (i, key) = Done (w', ps') ->
  (extends w w' /\ ps' = ps)
  \/ exists det p w1, OMGet cache key = Some (Some det) /\ extends w w1 /\ ps' = ps ++ [p]
       /\ addObj false (addFs ans i) (addNow ans i) p (writeObj p (confirm key det (nowStamp ans i)) w1) = Done w' /\ origin ans i det w w1 p.
Proof.
  unfold takeStep. assert (Hrefl : forall w, extends w w) by (intros w0; split_and!; [done|done|exists []; by rewrite app_nil_r]).
  destruct (OMGet cache key) as [[det|]|]; [|done|by intros [= <- <-]; left].
  case_decide; [by intros [= <- <-]; left|].
  destruct (GetDAByCommit _ _ _) as [[[fp da] err]| |] eqn:HG; cbn [mbind outcome_bind]; [|done..]. cbn zeta.
  pose proof (GetDAByCommit_all _ _ _ _ _ _ HG) as Hall.
  assert (He : extends w (set_wPool fp w)) by (split_and!; [done|done|exists []; by rewrite app_nil_r]).
  destruct da as [da|]; [|by intros [= <- <-]; left]. destruct err; [by intros [= <- <-]; left|]. apply GetDAByCommit_found in HG.
  destruct (pointerOf (set_wPool fp w) (cdCommit det) da) as [p w1] eqn:Hp.
  destruct (addObj _ _ _ _) as [w2| |] eqn:Ha; cbn [mbind outcome_bind]; [|done..]. intros [= <- <-].
  right. exists det, p, w1. revert Hp. unfold pointerOf. fold (commitHash det). assert (get (wPool (set_wPool fp w)) (commitHash det) = get (wPool w) (commitHash det)) as -> by (unfold get; cbn [wPool set_wPool]; by rewrite Hall).
  destruct HG as [HG|[HG [n Hn]]]; rewrite HG; intros [= <- <-]; (split_and!; [done| |done|done|]); [done|left; by exists da|split_and!; [done|done|by eexists]|right; by exists da, n].
Qed.

Lemma addObj_heap local fs now p w w' : addObj local fs now p w = Done w' -> wHeap w' = wHeap w /\ is_Some (wHeap w !! p).
Proof.
  unfold addObj. destruct (wHeap w !! p) as [d|]; [|done]. destruct (Add _ _ _ _ _) as [[fp errs]| |]; cbn [mbind outcome_bind]; [|done..].
  intros [= <-]. split; [done|by eexists].
Qed.

Lemma addObj_get local fs now p w w' d h :
  addObj local fs now p w = Done w' -> wHeap w !! p = Some d -> get (wPool w') h = get (wPool w) h \/ (get (wPool w') h = Some d /\ h ∈ keysOf d).
Proof.
  clear encodeBlock decodeBlock coords zone unix cs.
  intros HA Hp. revert HA. unfold addObj. rewrite Hp. destruct (Add_one fs now (wPool w) d local) as (fp & errs & -> & HG).
  cbn [mbind outcome_bind]. intros [= <-]. cbn [wPool]. rewrite !HG.
  destruct (decide (head errs = Some None /\ h ∈ keysOf d)); [right|left]; naive_solver.
Qed.

(** The pool holds, under [h], a record whose commitment hash it is. *)
Definition held (h : Hash) (w : world) : Prop := coherent w /\ exists d, get (wPool w) h = Some d /\ cmHash d = h.

Lemma cmHash_ext d d' : Commitment d' = Commitment d -> cmHash d' = cmHash d.
Proof. unfold cmHash. by intros ->. Qed.

Lemma extends_held h w w' : extends w w' -> held h w -> held h w'.
Proof.
  intros He [Hc (d & Hd & Hh)]. split; [by eapply extends_coherent|]. exists d. split; [|done].
  destruct He as [Ha _]. unfold get in *. by rewrite Ha.
Qed.

Lemma writeObj_held h p g w : (forall d, Commitment (g d) = Commitment d) -> held h w -> held h (writeObj p g w).
Proof.
  intros Hg [Hc (d & Hd & Hh)]. split; [by apply writeObj_coherent|]. eexists. rewrite writeObj_get, Hd. split; [reflexivity|].
  case_decide; [|done]. by rewrite (cmHash_ext d).
Qed.

Lemma takeStep_held h ans cache w ps i key w' ps' :
  held h w -> HexToHash key <> h -> takeStep ans cache (w, ps) (i, key) = Done (w', ps') -> held h w'.
Proof.
  intros Hh Hk [[He _]|(det & p & w1 & _ & He & _ & Ha & _)]%takeStep_cases; [by eapply extends_held|].
  apply (extends_held _ _ _ He) in Hh. clear He. set (g := confirm key det (nowStamp ans i)) in *.
  assert (Hh2 : held h (writeObj p g w1)) by (by apply writeObj_held). destruct Hh2 as [Hc2 (d & Hd & Hcm)].
  split; [by eapply addObj_coherent|].
  destruct (addObj_heap _ _ _ _ _ _ Ha) as [_ [d' Hd']].
  destruct (addObj_get _ _ _ _ _ _ _ h Ha Hd') as [->|[Hg Hin]]; [by exists d|]. exists d'. split; [done|].
  assert (Ht : TxHash d' = HexToHash key).
  { cbn [wHeap writeObj] in Hd'. rewrite list_lookup_alter, decide_True in Hd' by done. apply fmap_Some in Hd' as (d0 & _ & ->). done. }
  apply keysOf_elem in Hin as [Hin|Hin]; [by rewrite Ht in Hin|done].
Qed.














(** A log of a cached transaction with the event's topic and no data makes
    [processBlocks] read nil numbers. *)
Lemma empty_event_panics fp cache l d : OMGet cache (HashHex (lgTxHash l)) = Some (Some d) -> lgTopics l = [BytesToHash (Keccak256 sendDASig)] -> lgData l = [] ->
  fillDetail fp cache l = Panic.
Proof.
  intros Hd Ht He. unfold fillDetail. rewrite Ht, He, ParseSendDACommitment_empty, Hd. cbn [mbind outcome_bind aok evSignatures].
  change (GetSender unix fp []) with (Done ([] : list (Address * option sigErr))). reflexivity.
Qed.



(** ** Two transactions for one commitment *)

Lemma addObj_owner local fs now p w w' h : addObj local fs now p w = Done w' -> wOwner w !! h = Some p -> wOwner w' !! h = Some p.
Proof.
  unfold addObj. destruct (wHeap w !! p) as [d|]; [|done]. destruct (Add _ _ _ _ _) as [[fp errs]| |]; cbn [mbind outcome_bind]; [|done..].
  intros [= <-] Ho. cbn [wOwner]. destruct (decide (head errs = Some None)); [|done]. rewrite owners_lookup. by case_decide.
Qed.

(** Taking a key whose record is the pooled object [p] appends [p] and writes
    the details of the key to it. *)
Lemma takeStep_object h p ans cache w ps i key det w' ps' :
  held h w -> wOwner w !! h = Some p -> OMGet cache key = Some (Some det) -> nowCheck ans i <= cdTime det + 14 * 24 * hour ->
  h = BytesToHash (Marshal (DigestSetBytes zeroDigest (cdCommit det)).1) ->
  takeStep ans cache (w, ps) (i, key) = Done (w', ps') ->
  ps' = ps ++ [p] /\ wOwner w' !! h = Some p /\ exists d, wHeap w' !! p = Some (confirm key det (nowStamp ans i) d).
Proof.
  intros [Hc (d & Hd & Hcm)] Ho Hget Htime Hh. unfold takeStep. rewrite Hget, decide_False by lia. rewrite GetDAByCommit_eq. cbn zeta.
  rewrite <-Hh, Hd. cbn [mbind outcome_bind]. unfold pointerOf. rewrite <-Hh. cbn [wPool set_wPool]. rewrite Hd. cbn [wOwner set_wPool].
  destruct (Hc h d Hd) as (q & Hq & Hp). rewrite Ho in Hq. injection Hq as <-. rewrite Ho. cbn [default].
  destruct (addObj _ _ _ _) as [w2| |] eqn:Ha; cbn [mbind outcome_bind]; [|done..]. intros [= <- <-].
  destruct (addObj_heap _ _ _ _ _ _ Ha) as [Hheap _]. split_and!; [done|by eapply addObj_owner|].
  exists d. rewrite Hheap. cbn [wHeap writeObj]. rewrite list_lookup_alter_eq. simpl. by rewrite Hp.
Qed.

(** When two confirmed transactions carry the same commitment, the list of
    records to store holds the same object twice, with the details of the
    second transaction: those of the first are overwritten. *)
Theorem same_commitment_overwritten h ans cache w k1 k2 det1 det2 w' ps :
  held h w -> HexToHash k1 <> h ->
  OMGet cache k1 = Some (Some det1) -> OMGet cache k2 = Some (Some det2) ->
  nowCheck ans 0 <= cdTime det1 + 14 * 24 * hour -> nowCheck ans 1 <= cdTime det2 + 14 * 24 * hour ->
  h = BytesToHash (Marshal (DigestSetBytes zeroDigest (cdCommit det1)).1) -> cdCommit det2 = cdCommit det1 ->
  fold_outcome (takeStep ans cache) (imap pair [k1; k2]) (w, []) = Done (w', ps) ->
  exists d, deref w' ps = [d; d] /\ TxHash d = HexToHash k2 /\ BlockNum d = cdBlockNum det2 /\ SignData d = cdSigData det2.
Proof.
  intros Hh Hk1 G1 G2 T1 T2 Hc1 Hc2. cbn [imap fold_outcome compose].
  assert (Hp : exists p, wOwner w !! h = Some p) by (destruct Hh as [Hc (d & Hd & _)]; destruct (Hc h d Hd) as (p & Hp & _); eauto).
  destruct Hp as [p Hp]. destruct (takeStep ans cache (w, []) (0%nat, k1)) as [[w1 ps1]| |] eqn:H1; [|done..].
  pose proof (takeStep_held _ _ _ _ _ _ _ _ _ Hh Hk1 H1) as Hh1.
  destruct (takeStep_object _ p _ _ _ _ _ _ _ _ _ Hh Hp G1 T1 Hc1 H1) as (-> & Hp1 & _).
  destruct (takeStep ans cache (w1, [] ++ [p]) (1%nat, k2)) as [[w2 ps2]| |] eqn:H2; [|done..]. intros [= <- <-].
  rewrite <-Hc2 in Hc1. destruct (takeStep_object _ p _ _ _ _ _ _ _ _ _ Hh1 Hp1 G2 T2 Hc1 H2) as (-> & _ & d & Hd).
  exists (confirm k2 det2 (nowStamp ans 1) d). unfold deref. cbn [app omap list_omap]. rewrite Hd. done.
Qed.
End ChainSync.

(** ** A small chain, and the properties on it *)

Module SyncSample.
Import Sample PoolSample.

Definition blocksIn (rows : list row) : list blockRow := omap (fun r => match r with RBlock b => Some b | _ => None end) rows.
Definition syncIn (rows : list row) : list Z := omap (fun r => match r with RSync n => Some n | _ => None end) rows.

(** A database of record rows and of the rows of the other tables. *)
#[export] Instance syncGorm : Gorm := {|
  sqlState := list daRow * list row;
  gCount s := Some (Z.of_nat (length s.1));
  gFind s col v :=
    if decide (col ∈ daColumns)
    then Some (match v with VText t => default zeroRow (head (filter (fun r => rTxHash r = t) s.1)) | VBlob _ => zeroRow end)
    else None;
  gSelect s _ := Some s.1;
  gCreate s rs := ((s.1 ++ rs, s.2), false);
  gDelete s _ _ := (s, false);
  gMaxNonce s := head s.1
|}.

#[export] Instance syncTables : Tables syncGorm := {|
  txState := (list daRow * list row) * list row * bool;
  tBegin s := (s, s.2, true);
  tCreate t r := if t.2 then (t.1.1, t.1.2 ++ [r], true, false) else (t, true);
  tSyncUpdate t _ _ := (t, negb t.2);
  tRollback t := (t.1.1, t.1.2, false);
  tCommit t := if t.2 then ((t.1.1.1, t.1.2), false) else (t.1.1, true);
  tInsert s r := ((s.1, s.2 ++ [r]), false);
  tDelete s _ _ := (s, false);
  tBlockCount s := Some (Z.of_nat (length (blocksIn s.2)));
  tBlockByNum s n := head (filter (fun b => bBlockNum b = n) (blocksIn s.2));
  tBlockByHash s h := head (filter (fun b => bBlockHash b = h) (blocksIn s.2));
  tLastBlock s := last (blocksIn s.2);
  tSyncCount s := Some (Z.of_nat (length (syncIn s.2)));
  tSyncLast s := last (syncIn s.2);
  tNameSpace _ _ := None
|}.

#[export] Instance syncTablesLaws : TablesLaws syncGorm syncTables.
Proof.
  refine {| stRows := fun s : @sqlState syncGorm => s.2; txRows := fun t : @txState syncGorm syncTables => t.1.2;
            txBase := fun t : @txState syncGorm syncTables => t.1.1.2; txOpen := fun t : @txState syncGorm syncTables => t.2 |}.
  - done.
  - intros [[b rows] []] r t'; cbn [tCreate syncTables fst snd]; [|done]. by intros [= <-].
  - intros [[b rows] []] r t'; cbn [tCreate syncTables fst snd]; [done|]. by intros [= <-].
  - done.
  - intros [[b rows] []] s; cbn [tCommit syncTables fst snd]; [|done]. by intros [= <-].
  - intros [[b rows] []] s; cbn [tCommit syncTables fst snd]; [done|]. by intros [= <-].
  - by intros [[b rows] []].
Defined.

Definition proxyAddr : Address := replicate 20 1.

Definition sampleSync : syncConfig := mkSyncConfig (AddressHex Keccak256 proxyAddr) 100 (lit "b") (replicate 20 9) (fun _ => None) None.

(** The data of the event. *)
Definition sampleData : list Z := encTuple (encItems (argTypes sendDAInputs) (eventValues 1 2 1700000000 7 2 1 (replicate 32 0) 3 [])).

Definition sampleCoords (x y : list Z) : Digest := (be_to_Z x, be_to_Z y).

(** A transaction that commits to the digest of [badDA], its log and receipt. *)
Definition commitTx (n : Z) : l1Tx := mkTx (Some proxyAddr) (replicate 132 0 ++ Marshal (Commitment badDA)) (replicate 32 n) [n].
Definition commitLog (n : Z) : l1Log := mkLog proxyAddr [BytesToHash (Keccak256 sendDASig)] sampleData 101 (replicate 32 n) 0 (replicate 32 3) false.
Definition commitReceipt (n : Z) : l1Receipt := mkReceipt 2 1 21000 21000 (replicate 32 n) (replicate 20 0) (Some 101) [commitLog n].

Definition sampleBlock (txs : list l1Tx) : l1Block := mkBlock 101 (replicate 32 3) (replicate 32 4) 1700000000 txs.

(** The clock is at the time of the block; every receipt comes, or none. *)
Definition sampleAnswers (ok : bool) : answers (@sqlState syncGorm) :=
  mkAnswers _ (fun _ h => if ok then Some (commitReceipt (hd 0 h)) else None) (fun _ => unixTime 1700000000)
    (fun _ => unixTime 1700000000) (fun _ _ => ([], [])) (fun _ => fsFine) (fun _ _ => 0).

Definition sampleWorld : world :=
  mkWorld pool1 [badDA] {[ cmHash badDA := 0%nat ]} (([], []) : @sqlState syncGorm) [] None.

Abbreviation pb := (processBlocks (fun b => [bkNumber b]) (fun _ => None) sampleCoords 0 (fun t => t) sampleSync zeroHash None) (only parsing).
Abbreviation pc := (processChunk (fun b => [bkNumber b]) (fun _ => None) sampleCoords 0 (fun t => t) sampleSync (fun _ => (zeroHash, None)) (fun _ => sampleAnswers true)) (only parsing).
Abbreviation wl := (writeLedger (fun b => [bkNumber b]) sampleCoords sampleSync) (only parsing).
Abbreviation cb := (collectBlock sampleCoords sampleSync) (only parsing).

Definition oneBlock : list (option l1Block) := [Some (sampleBlock [commitTx 5])].

Definition key5 : list Z := HashHex (replicate 32 5).

(** The details of the transaction, and with the log's event. *)
Definition detail5 : CommitDetail := newDetail (sampleBlock [commitTx 5]) (commitTx 5) (Marshal (Commitment badDA)).
Definition cache5 : OrderedMap := OMSet NewOrderedMap key5 (Some detail5).

(** A second transaction for the same commitment. *)
Definition key6 : list Z := HashHex (replicate 32 6).
Definition detail6 : CommitDetail := newDetail (sampleBlock [commitTx 6]) (commitTx 6) (Marshal (Commitment badDA)).
Definition cache56 : OrderedMap := OMSet cache5 key6 (Some detail6).

End SyncSample.

Section sync_witnesses.
Import Sample PoolSample SyncSample.

Lemma sampleWorld_coherent : coherent sampleWorld.
Proof.
  intros h d Hd. exists 0%nat. cbn [wOwner wHeap sampleWorld] in *.
  assert (HP : lcollector (all pool1) = {[ cmHash badDA := badDA ]}) by reflexivity.
  unfold get, lookupGet in Hd. cbn [wPool sampleWorld] in Hd. rewrite HP in Hd.
  apply lookup_singleton_Some in Hd as [<- <-]. split; [apply lookup_singleton_eq|done].
Qed.

(** Twenty-five blocks, of which one confirms the record of the pool. *)
Definition sampleChain (x : Z) : option l1Block := Some (mkBlock x (replicate 32 3) (replicate 32 4) 1700000000 (if decide (x = 112) then [commitTx 5] else [])).

Lemma fromGenesis_covers_witness :
  exists chunks w', fold_outcome (fun w kb => pc kb.1 w kb.2) (imap pair chunks) sampleWorld = Done w'
    /\ concat chunks = sampleChain <$> seqZ 100 25 /\ Forall (fun c => Z.of_nat (length c) <= SyncChunkSize) chunks
    /\ fromGenesis sampleChain (fun _ => false) pc 125 3 0 100 sampleWorld = Done (mkSyncer w' false, syncDone) /\ get (wPool w') (cmHash badDA) = None.
Proof.
  destruct (fromGenesis_covers (fun b => [bkNumber b]) (fun _ => None) sampleCoords 0 (fun t => t) sampleSync sampleChain (fun _ => false)
    (fun _ => (zeroHash, None)) (fun _ => sampleAnswers true) 125 100 sampleWorld) as (chunks & H1 & H2 & H3); [discriminate|reflexivity|intros x _; split; [reflexivity|by eexists]|].
  change (S (Z.to_nat ((125 - 100) / SyncChunkSize))) with 3%nat in H1.
  assert (HP : match fromGenesis sampleChain (fun _ => false) pc 125 3 0 100 sampleWorld with Done (s, _) => bool_decide (get (wPool (syWorld s)) (cmHash badDA) = None) | _ => false end = true) by (vm_compute; reflexivity).
  destruct (fold_outcome _ (imap pair chunks) sampleWorld) as [w'| |] eqn:E; rewrite H1 in HP; [|discriminate HP..]. exists chunks, w'. split_and!; [exact E|exact H2|exact H3|exact H1|].
  by apply bool_decide_eq_true in HP.
Defined.


Lemma failed_receipt_panics_witness : pb (sampleAnswers false) sampleWorld oneBlock = Panic.
Proof.
  eapply (failed_receipt_panics _ _ _ _ _ _ _ _ _ _ _ _ _ _ 0%nat (HashHex (replicate 32 5))).
  - reflexivity.
  - reflexivity.
  - reflexivity.
  - reflexivity.
Defined.

Lemma short_call_data_panics_witness :
  pb (sampleAnswers true) sampleWorld [Some (sampleBlock [mkTx (Some proxyAddr) [1; 2; 3; 4] (replicate 32 5) []])] = Panic.
Proof.
  eapply (short_call_data_panics _ _ _ _ _ _ _ _ _ _ _ _ (sampleBlock [mkTx (Some proxyAddr) [1; 2; 3; 4] (replicate 32 5) []])
    (mkTx (Some proxyAddr) [1; 2; 3; 4] (replicate 32 5) [])).
  - reflexivity.
  - apply list_elem_of_here.
  - apply list_elem_of_here.
  - reflexivity.
  - simpl. lia.
Defined.

Lemma ledger_all_or_nothing_witness :
  exists s' logs cache, wl (rcptOf (sampleAnswers true)) (([], []) : @sqlState syncGorm) oneBlock = Done (Some (s', logs, cache))
    /\ exists receipts, receiptsFor (rcptOf (sampleAnswers true)) (OMKeys cache) = Some <$> receipts.
Proof.
  eexists _, _, _. split; [reflexivity|].
  edestruct (ledger_all_or_nothing (fun b => [bkNumber b]) sampleCoords sampleSync (rcptOf (sampleAnswers true))
    (([], []) : @sqlState syncGorm) oneBlock) as (receipts & H & _); [reflexivity|]. by exists receipts.
Defined.



(** The same world with room in the pool. *)
Definition roomyWorld : world :=
  set_wPool (mkPool (mkConfig (lit "fileData.rlp") true 100) (nodeType pool1) (signer pool1) (journal pool1) (jfile pool1) (all pool1) (diskCache pool1)
               (collector pool1) (beats pool1) (sent pool1)) sampleWorld.

(** Confirmed by two transactions of one chunk, the record stays in the pool
    under the hash of the first, though both are done with. *)
Example twice_confirmed_stays :
  match pb (sampleAnswers true) roomyWorld [Some (sampleBlock [commitTx 5; commitTx 6])] with
  | Done (w', _) => (isSome (get (wPool w') (HexToHash key5)), isSome (get (wPool w') (HexToHash key6)), isSome (get (wPool w') (cmHash badDA)))
  | _ => (false, false, false)
  end = (true, false, false).
Proof. vm_compute. reflexivity. Qed.

Lemma submit_misread_witness :
  exists data, submitData Keccak256 (submitValues 1 2 3 (replicate 32 4) [[5]] 6 7) = aok data /\ slice sampleCoords data = Done (Marshal (224, 6)).
Proof.
  destruct (submit_misread sampleCoords 1 2 3 (replicate 32 4) [[5]] 6 7) as (data & H1 & H2).
  - repeat constructor; lia.
  - split; [reflexivity|by apply bytes_ok_check].
  - repeat constructor; lia.
  - vm_compute. reflexivity.
  - reflexivity.
  - exists data. split; [exact H1|exact H2].
Defined.

Lemma same_commitment_overwritten_witness :
  exists w' ps d, fold_outcome (takeStep (sampleAnswers true) cache56) (imap pair [key5; key6]) (sampleWorld, []) = Done (w', ps)
    /\ deref w' ps = [d; d] /\ TxHash d = HexToHash key6.
Proof.
  assert (HP : exists r, fold_outcome (takeStep (sampleAnswers true) cache56) (imap pair [key5; key6]) (sampleWorld, []) = Done r)
    by (apply isDone_true; vm_compute; reflexivity).
  destruct HP as [[w' ps] HP].
  destruct (same_commitment_overwritten (cmHash badDA) (sampleAnswers true) cache56 sampleWorld key5 key6 detail5 detail6 w' ps)
    as (d & H1 & H2 & _).
  - split; [apply sampleWorld_coherent|]. exists badDA. split; reflexivity.
  - discriminate.
  - vm_compute. reflexivity.
  - vm_compute. reflexivity.
  - vm_compute. discriminate.
  - vm_compute. discriminate.
  - reflexivity.
  - reflexivity.
  - exact HP.
  - exists w', ps, d. split; [exact HP|]. split; [exact H1|exact H2].
Defined.
End sync_witnesses.
