(* ===== verification/ScriptParser.v ===== *)
(** * Inscriptions in Bitcoin transactions

    [eth/scriptparser/script_parser.go]: validators and inscriptions are read
    from the witness scripts of a transaction.  btcd's script tokenizer is a
    parameter, the list of the tokens of a script and whether the script ends
    in a malformed push; a token is the opcode and its data, [None] for the nil
    of an opcode without data.  [ParsePubKey] and the address of a key are
    parameters as well. *)

From S2P Require Import Prelude Bytes.

Local Open Scope Z_scope.

Definition OP_0 : Z := 0.
Definition OP_FALSE : Z := 0.
Definition OP_DATA_1 : Z := 1.
Definition OP_PUSHDATA4 : Z := 78.
Definition OP_IF : Z := 99.
Definition OP_ENDIF : Z := 104.
Definition TaprootAnnexTag : Z := 80.

Definition ProtocolID : list Z := lit "6f7264".
Definition ContentTypeTag : list Z := lit "01".

Record token := mkToken { tkOp : Z; tkData : option (list Z) }.

Record InscriptionContent := mkInscription {
  ContentType : list Z;
  ContentBody : list Z;
  ContentLength : Z;
  IsUnrecognizedEvenField : bool
}.

Record TransactionInscription := mkTxInscription {
  ValidatorAddresses : list (list Z);
  Inscription : InscriptionContent;
  TxInIndex : Z;
  TxInOffset : Z
}.

(** ** One inscription *)

(** Where a loop over [Next] stopped: the last opcode, whether [Next] had said
    that there is nothing more, and what is left. *)
Record stop := mkStop { lastOp : Z; ranOut : bool; left_ : list token }.

(** The loop over the content body; [None] is [return nil]. *)
Fixpoint bodyLoop (ts : list token) (op : Z) (body : list Z) : option (list Z) * stop :=
  match ts with
  | [] => (Some body, mkStop op true [])
  | t :: ts =>
      if decide (tkOp t = OP_ENDIF) then (Some body, mkStop OP_ENDIF false ts)
      else if decide (tkOp t = OP_0) then bodyLoop ts (tkOp t) body
      else if decide (OP_DATA_1 <= tkOp t <= OP_PUSHDATA4) then
        if decide (520 < length (default [] (tkData t)))%nat then (None, mkStop (tkOp t) false ts)
        else bodyLoop ts (tkOp t) (body ++ default [] (tkData t))
      else (None, mkStop (tkOp t) false ts)
  end.

(** The loop over the tags, up to the end of the envelope or of its body. *)
Fixpoint tagLoop (ts : list token) (op : Z) (tags : gmap (list Z) (list Z)) : option (gmap (list Z) (list Z) * list Z) * stop :=
  match ts with
  | [] => (Some (tags, []), mkStop op true [])
  | t :: ts =>
      if decide (tkOp t = OP_ENDIF) then (Some (tags, []), mkStop OP_ENDIF false ts)
      else if decide (tkOp t = OP_0) then
        let '(body, s) := bodyLoop ts (tkOp t) [] in
        (match body with None => None | Some body => Some (tags, body) end, s)
      else match tkData t with
           | None => (None, mkStop (tkOp t) false ts)
           | Some data =>
               let tag := EncodeToString data in
               if decide (is_Some (tags !! tag)) then (None, mkStop (tkOp t) false ts)
               else match ts with
                    | [] => (Some (tags, []), mkStop (tkOp t) true [])
                    | v :: ts =>
                        if bool_decide (tkOp v <> OP_0) && bool_decide (tkData v = None) then (None, mkStop (tkOp v) false ts)
                        else tagLoop ts (tkOp v) (<[tag := default [] (tkData v)]> tags)
                    end
           end
  end.

(** An unrecognized tag with an even first byte. *)
Definition evenTag (key : list Z) : bool :=
  negb (bool_decide (key = ContentTypeTag)) &&
  match (DecodeString key).1 with b :: _ => bool_decide (b mod 2 = 0) | [] => false end.

(** [parseOneInscription] behind a token with opcode [op]; [bad] says whether
    the script ends in a malformed push, which is an error once [Next] has come
    to it.  Ranging over the tags only collects whether one is even. *)
Definition parseOneInscription (bad : bool) (ts : list token) (op : Z) : option InscriptionContent * list token :=
  let '(r, s) := tagLoop ts op ∅ in
  (match r with
   | None => None
   | Some (tags, body) =>
       if decide (lastOp s <> OP_ENDIF) then None
       else if ranOut s && bad then None
       else Some (mkInscription (default [] (tags !! ContentTypeTag)) body (Z.of_nat (length body))
                    (existsb evenTag (map_to_list tags).*1))
   end, left_ s).

(** ** A witness script *)

(** [hex.EncodeToString(tokenizer.Data())] *)
Definition dataHex (t : token) : list Z := EncodeToString (default [] (tkData t)).

Fixpoint inscriptionsFrom (fuel : nat) (bad : bool) (ts : list token) (acc : list InscriptionContent) : outcome (list InscriptionContent) :=
  match fuel with
  | O => Stuck
  | S fuel =>
      match ts with
      | [] => Done acc
      | t :: ts =>
          if decide (tkOp t = OP_FALSE) then
            match ts with
            | t1 :: t2 :: ts =>
                if decide (tkOp t1 = OP_IF /\ dataHex t2 = ProtocolID) then
                  let '(i, rest) := parseOneInscription bad ts (tkOp t2) in
                  inscriptionsFrom fuel bad rest (acc ++ option_list i)
                else Done acc
            | _ => Done acc
            end
          else inscriptionsFrom fuel bad ts acc
      end
  end.

(** ** Termination *)

Lemma bodyLoop_left ts : forall op body, (length (left_ (bodyLoop ts op body).2) <= length ts)%nat.
Proof.
  induction ts as [|t ts IH]; intros op body; [done|]. cbn [bodyLoop].
  repeat case_decide; cbn [snd left_ length]; try lia; etrans; [apply IH|lia|apply IH|lia].
Qed.

Lemma tagLoop_left n : forall ts op tags, (length ts <= n)%nat -> (length (left_ (tagLoop ts op tags).2) <= length ts)%nat.
Proof.
  induction n as [|n IH]; intros [|t ts] op tags Hn; simpl in Hn; try done; try lia. cbn [tagLoop].
  case_decide; [simpl; lia|]. case_decide.
  - pose proof (bodyLoop_left ts (tkOp t) []). destruct (bodyLoop ts (tkOp t) []) as [b s]. simpl in *. lia.
  - destruct (tkData t) as [d|]; [|simpl; lia]. cbn zeta. case_decide; [simpl; lia|]. destruct ts as [|v ts]; [simpl; lia|].
    destruct (_ && _); [simpl; lia|]. etrans; [apply IH; simpl in Hn; lia|simpl; lia].
Qed.

Lemma parseOne_left bad ts op : (length (parseOneInscription bad ts op).2 <= length ts)%nat.
Proof.
  unfold parseOneInscription. pose proof (tagLoop_left (length ts) ts op ∅ (le_n _)). by destruct (tagLoop ts op ∅) as [r s].
Qed.

(** A token per round is enough fuel. *)
Lemma inscriptionsFrom_done fuel bad : forall ts acc,
  (length ts < fuel)%nat -> exists l, inscriptionsFrom fuel bad ts acc = Done l.
Proof.
  induction fuel as [|fuel IH]; intros ts acc Hf; [lia|]. cbn [inscriptionsFrom]. destruct ts as [|t ts]; [eauto|]. simpl in Hf.
  case_decide; [|apply IH; lia]. destruct ts as [|t1 [|t2 ts]]; [eauto..|]. case_decide; [|eauto].
  pose proof (parseOne_left bad ts (tkOp t2)). destruct (parseOneInscription bad ts (tkOp t2)) as [i rest]. apply IH. simpl in *. lia.
Qed.

(** ** Reading back an envelope *)

(** A push of [d] with a push opcode. *)
Definition isPush (t : token) : Prop := OP_DATA_1 <= tkOp t <= OP_PUSHDATA4 /\ is_Some (tkData t).

(** What an inscription is written as. *)
Definition envelope (tagTok ctTok : token) (chunks : list token) : list token :=
  [tagTok; ctTok; mkToken OP_0 None] ++ chunks ++ [mkToken OP_ENDIF None].

Lemma bodyLoop_chunks chunks post : forall op body,
  Forall (fun t => isPush t /\ (length (default [] (tkData t)) <= 520)%nat) chunks ->
  bodyLoop (chunks ++ mkToken OP_ENDIF None :: post) op body
  = (Some (body ++ concat ((fun t => default [] (tkData t)) <$> chunks)), mkStop OP_ENDIF false post).
Proof.
  induction chunks as [|t chunks IH]; intros op body Hc; [cbn [app bodyLoop tkOp]; rewrite decide_True by done; cbn; by rewrite app_nil_r|].
  apply Forall_cons in Hc as [[[Ho Hs] Hl] Hc]. unfold OP_DATA_1, OP_PUSHDATA4 in *. cbn [app bodyLoop].
  rewrite decide_False by (unfold OP_ENDIF; lia). rewrite decide_False by (unfold OP_0; lia).
  rewrite decide_True by (unfold OP_DATA_1, OP_PUSHDATA4; lia). rewrite decide_False by lia.
  rewrite IH by done. rewrite fmap_cons. cbn [concat]. by rewrite (assoc_L (++)).
Qed.

Lemma parseOne_envelope bad tagTok ctTok chunks post op ct :
  isPush tagTok -> dataHex tagTok = ContentTypeTag -> isPush ctTok -> tkData ctTok = Some ct ->
  Forall (fun t => isPush t /\ (length (default [] (tkData t)) <= 520)%nat) chunks ->
  let body := concat ((fun t => default [] (tkData t)) <$> chunks) in
  parseOneInscription bad (envelope tagTok ctTok chunks ++ post) op
  = (Some (mkInscription ct body (Z.of_nat (length body)) false), post).
Proof.
  intros [Ht [d Hd]] Htag [Hc _] Hct Hch. unfold OP_DATA_1, OP_PUSHDATA4 in *. unfold parseOneInscription, envelope. cbn [app].
  cbn [tagLoop]. rewrite !decide_False by (unfold OP_ENDIF, OP_0; lia). rewrite Hd. cbn zeta.
  unfold dataHex in Htag. rewrite Hd in Htag. change (EncodeToString d = ContentTypeTag) in Htag. rewrite Htag, decide_False by (rewrite lookup_empty; by intros [? ?]).
  rewrite Hct, (bool_decide_false (Some ct = None)), andb_false_r by done. cbn [tkOp default].
  rewrite decide_False by done. rewrite decide_True by done. rewrite <-(assoc_L (++)). cbn [app].
  rewrite bodyLoop_chunks by done. cbn [app lastOp ranOut left_]. rewrite decide_False by auto. cbn [andb].
  rewrite lookup_insert_eq, insert_empty, map_to_list_singleton. done.
Qed.

Section ScriptParser.
Context (tokens : list Z -> list token * bool).
Context {PubKey : Type} (ParsePubKey : list Z -> option PubKey) (keyText : PubKey -> option (list Z)).

Definition ParseInscriptions (witnessScript : list Z) : outcome (list InscriptionContent) :=
  let '(ts, bad) := tokens witnessScript in inscriptionsFrom (S (length ts)) bad ts [].

Definition needParse (witnessScript : list Z) : bool :=
  match (tokens witnessScript).1 !! 8%nat with Some t => bool_decide (dataHex t = ProtocolID) | None => false end.

(** The key at position 0 or 2: the error of [ParsePubKey] is dropped, and the
    nil key serialised. *)
Definition validatorAddress (t : token) : outcome (list Z) :=
  match ParsePubKey (default [] (tkData t)) with
  | None => Panic
  | Some k => Done (default [] (keyText k))
  end.

Definition ParseValidator (witnessScript : list Z) : outcome (list (list Z)) :=
  fold_outcome (fun acc '(pos, t) =>
    if bool_decide (pos = 0%nat) || bool_decide (pos = 2%nat) then a ← validatorAddress t; Done (acc ++ [a]) else Done acc)
    (imap pair (tokens witnessScript).1) [].

(** ** A transaction *)

(** The script of an input with the given witness, [None] to skip the input. *)
Definition witnessScriptOf (witness : list (list Z)) : outcome (option (list Z)) :=
  let n := Z.of_nat (length witness) in
  if decide (n <= 1) then Done None
  else
    lastElem ← index witness (n - 1);
    tag ← index lastElem 0;
    if decide (n = 2 /\ tag = TaprootAnnexTag) then Done None
    else if decide (tag = TaprootAnnexTag) then Done (Some lastElem)
    else s ← index witness (n - 2); Done (Some s).

Definition parseInput (acc : list TransactionInscription) (iw : nat * list (list Z)) : outcome (list TransactionInscription) :=
  let '(idx, witness) := iw in
  o ← witnessScriptOf witness;
  match o with
  | None => Done acc
  | Some witnessScript =>
      if negb (needParse witnessScript) then Done acc
      else
        validators ← ParseValidator witnessScript;
        if decide (length validators = 0)%nat then Done acc
        else
          inscriptions ← ParseInscriptions witnessScript;
          Done (acc ++ imap (fun off ins => mkTxInscription validators ins (u32 (Z.of_nat idx)) (Z.of_nat off)) inscriptions)
  end.

(** A transaction is known by the witnesses of its inputs. *)
Definition HasWitness (txIn : list (list (list Z))) : bool := existsb (fun w => negb (bool_decide (length w = 0)%nat)) txIn.

Definition ParseInscriptionsFromTransaction (txIn : list (list (list Z))) : outcome (list TransactionInscription) :=
  if negb (HasWitness txIn) then Done [] else fold_outcome parseInput (imap pair txIn) [].

(** ** The properties *)

Lemma inscriptionsFrom_skip bad pre : forall fuel ts acc,
  Forall (fun t => tkOp t <> OP_FALSE) pre -> (length pre < fuel)%nat ->
  inscriptionsFrom fuel bad (pre ++ ts) acc = inscriptionsFrom (fuel - length pre) bad ts acc.
Proof.
  induction pre as [|t pre IH]; intros [|fuel] ts acc Hp Hf; simpl in Hf; try lia; [done|].
  apply Forall_cons in Hp as [Ht Hp]. cbn [app inscriptionsFrom length]. rewrite decide_False by done. rewrite IH by (done || lia). done.
Qed.

Lemma inscriptionsFrom_end bad post fuel acc :
  Forall (fun t => tkOp t <> OP_FALSE) post -> (length post < fuel)%nat -> inscriptionsFrom fuel bad post acc = Done acc.
Proof.
  intros Hp Hf. pose proof (inscriptionsFrom_skip bad post fuel [] acc Hp Hf) as HS. rewrite app_nil_r in HS. rewrite HS.
  destruct (fuel - length post)%nat eqn:Hn; [lia|done].
Qed.

(** C32: an inscription is read back from the script that carries it: whatever
    opcodes but [OP_FALSE] stand before and behind it, a script with one
    envelope (header, content type, body in pushes of at most 520 bytes) gives
    one inscription with that content type, the pushes joined, and their
    length. *)
Theorem inscription_roundtrip script pre ifTok idTok tagTok ctTok chunks post bad ct :
  tokens script = (pre ++ mkToken OP_FALSE None :: ifTok :: idTok :: envelope tagTok ctTok chunks ++ post, bad) ->
  Forall (fun t => tkOp t <> OP_FALSE) pre -> Forall (fun t => tkOp t <> OP_FALSE) post ->
  tkOp ifTok = OP_IF -> dataHex idTok = ProtocolID -> isPush tagTok -> dataHex tagTok = ContentTypeTag ->
  isPush ctTok -> tkData ctTok = Some ct ->
  Forall (fun t => isPush t /\ (length (default [] (tkData t)) <= 520)%nat) chunks ->
  let body := concat ((fun t => default [] (tkData t)) <$> chunks) in
  ParseInscriptions script = Done [mkInscription ct body (Z.of_nat (length body)) false].
Proof.
  intros Htk Hpre Hpost Hif Hid Htag Htag' Hct Hct' Hch. unfold ParseInscriptions. rewrite Htk.
  rewrite inscriptionsFrom_skip by (done || (rewrite length_app; lia)). rewrite length_app.
  destruct (S (length pre + _) - length pre)%nat as [|m] eqn:Hm; [simpl in Hm; lia|]. cbn [length] in Hm. rewrite length_app in Hm.
  cbn [inscriptionsFrom tkOp]. rewrite decide_True by done. rewrite decide_True by done.
  rewrite (parseOne_envelope bad tagTok ctTok chunks post (tkOp idTok) ct) by done.
  apply inscriptionsFrom_end; [done|]. lia.
Qed.

(** A script whose first or third token is not a key. *)
Definition badKey (script : list Z) : Prop :=
  exists t, ((tokens script).1 !! 0%nat = Some t \/ (tokens script).1 !! 2%nat = Some t) /\ ParsePubKey (default [] (tkData t)) = None.

Definition inputPanics (witness : list (list Z)) : Prop :=
  (2 <= length witness)%nat /\
  (last witness = Some [] \/ exists script, witnessScriptOf witness = Done (Some script) /\ needParse script = true /\ badKey script).

Lemma ParseValidator_panics script :
  ParseValidator script <> Stuck /\ (ParseValidator script = Panic <-> badKey script).
Proof.
  unfold ParseValidator.
  set (f := fun (acc : list (list Z)) '(pos, t) => if bool_decide (pos = 0%nat) || bool_decide (pos = 2%nat) then a ← validatorAddress t; Done (acc ++ [a]) else Done acc).
  assert (Hst : forall s a, f s a <> Stuck).
  { intros s [pos t]. unfold f, validatorAddress. destruct (_ || _); [|done]. by destruct (ParsePubKey _). }
  split; [by apply fold_outcome_not_stuck|].
  rewrite (fold_outcome_Panic_iff (fun pt => (pt.1 = 0%nat \/ pt.1 = 2%nat) /\ ParsePubKey (default [] (tkData pt.2)) = None) f); [|done|].
  - unfold badKey. split.
    + intros ([pos t] & Hin & Hpos & Hk). apply elem_of_lookup_imap in Hin as (i & t' & [= <- <-] & Hi). simpl in *.
      exists t. destruct Hpos as [->| ->]; auto.
    + intros (t & [Ht|Ht] & Hk); [exists (0%nat, t)|exists (2%nat, t)]; (split; [|by auto]); apply elem_of_lookup_imap; eauto.
  - intros s [pos t]. unfold f, validatorAddress. cbn [fst snd]. destruct (bool_decide_reflect (pos = 0%nat)), (bool_decide_reflect (pos = 2%nat));
      cbn [orb]; destruct (ParsePubKey (default [] (tkData t))); cbn [mbind outcome_bind]; naive_solver.
Qed.

Lemma witnessScriptOf_cases w :
  match witnessScriptOf w with
  | Stuck => False
  | Panic => (2 <= length w)%nat /\ last w = Some []
  | Done None => (length w < 2)%nat \/ last w <> Some []
  | Done (Some _) => (2 <= length w)%nat /\ last w <> Some []
  end.
Proof.
  unfold witnessScriptOf. cbn zeta. case_decide; [left; lia|]. rewrite last_lookup.
  destruct (lookup_lt_is_Some_2 w (pred (length w))) as [e He]; [lia|].
  replace (Z.of_nat (length w) - 1) with (Z.of_nat (pred (length w))) by lia. rewrite (index_nat w _ e He), He. cbn [mbind outcome_bind].
  destruct e as [|tag e]; [unfold index; rewrite decide_True by lia; split; [lia|done]|].
  change 0 with (Z.of_nat 0) at 1. rewrite (index_nat (tag :: e) 0 tag) by done. cbn [mbind outcome_bind]. case_decide; [by right|]. case_decide; [split; [lia|done]|].
  destruct (index_in_range w (Z.of_nat (length w) - 2)) as [x ->]; [lia|]. split; [lia|done].
Qed.

Lemma parseInput_panics acc i w : parseInput acc (i, w) <> Stuck /\ (parseInput acc (i, w) = Panic <-> inputPanics w).
Proof.
  unfold parseInput, inputPanics. pose proof (witnessScriptOf_cases w) as HW.
  destruct (witnessScriptOf w) as [[script|]| |]; cbn [mbind outcome_bind]; [| |by split; [|tauto]|done].
  2: { split; [done|]. split; [done|]. intros [Hl [Hlast|(s & Hs & _)]]; [|done]. destruct HW; [lia|done]. }
  destruct (needParse script) eqn:Hn; cbn [negb].
  2: { split; [done|]. split; [done|]. intros [_ [?|(s & [= <-] & Hs & _)]]; [tauto|congruence]. }
  destruct (ParseValidator_panics script) as [Hst Hp]. destruct (ParseValidator script) as [vs| |]; cbn [mbind outcome_bind]; [| |done].
  2: { split; [done|]. split; [|done]. intros _. split; [tauto|]. right. exists script. tauto. }
  assert (Hnb : ~ badKey script) by (intros Hb; by apply Hp in Hb).
  assert (HR : forall o : outcome (list TransactionInscription), o <> Stuck -> o <> Panic ->
    o <> Stuck /\ (o = Panic <-> (2 <= length w)%nat /\ (last w = Some [] \/ exists s, Done (Some script) = Done (Some s) /\ needParse s = true /\ badKey s))).
  { intros o H1 H2. split; [done|]. split; [done|]. intros [_ [?|(s & [= <-] & _ & Hb)]]; tauto. }
  apply HR; case_decide; try done; unfold ParseInscriptions; destruct (tokens script) as [ts bad];
    by destruct (inscriptionsFrom_done (S (length ts)) bad ts []) as [l ->]; [lia|].
Qed.

(** Parsing a transaction ends, and it panics exactly when one of the inputs
    has two or more witness elements of which the last is empty, or carries a
    script marked as an inscription whose first or third token is not a valid
    public key.  Anybody can put such a transaction on the chain. *)
Theorem inscription_parse_panics_iff txIn :
  ParseInscriptionsFromTransaction txIn <> Stuck
  /\ (ParseInscriptionsFromTransaction txIn = Panic <-> exists w, w ∈ txIn /\ inputPanics w).
Proof.
  assert (HF : fold_outcome parseInput (imap pair txIn) [] <> Stuck
    /\ (fold_outcome parseInput (imap pair txIn) [] = Panic <-> exists w, w ∈ txIn /\ inputPanics w)).
  { split; [apply fold_outcome_not_stuck; intros s [i w]; apply parseInput_panics|].
    rewrite (fold_outcome_Panic_iff (fun iw => inputPanics iw.2)); [|intros s [i w]; apply parseInput_panics..]. split.
    - intros ([i w] & Hin & Hp). apply elem_of_lookup_imap in Hin as (j & w' & [= <- <-] & Hj). exists w. split; [|done].
      by eapply list_elem_of_lookup_2.
    - intros (w & [i Hi]%list_elem_of_lookup & Hp). exists (i, w). split; [|done]. apply elem_of_lookup_imap. eauto. }
  unfold ParseInscriptionsFromTransaction. destruct (HasWitness txIn) eqn:Hw; cbn [negb]; [done|]. split; [done|]. split; [done|].
  intros (w & Hin & [Hl _]). exfalso. rewrite <-not_true_iff_false in Hw. apply Hw. apply existsb_exists. exists w.
  rewrite list_elem_of_In in Hin. split; [done|]. rewrite bool_decide_false by lia. done.
Qed.

End ScriptParser.

(** ** A script, and the round trip on it *)

Module ScriptSample.

(** One push per byte of the script, as if each were a token of its own. *)
Definition sampleTokens (script : list Z) : list token * bool :=
  ([mkToken 32 (Some [7])] ++
   mkToken OP_FALSE None :: mkToken OP_IF None :: mkToken 3 (Some [111; 114; 100]) ::
   envelope (mkToken 1 (Some [1])) (mkToken 2 (Some [84; 88])) ((fun b => mkToken 1 (Some [b])) <$> script) ++ [], false).

End ScriptSample.

Section script_witnesses.
Import ScriptSample.

Lemma inscription_roundtrip_witness :
  ParseInscriptions sampleTokens [9; 8; 7] = Done [mkInscription [84; 88] [9; 8; 7] 3 false].
Proof.
  etransitivity; [apply (inscription_roundtrip sampleTokens [9; 8; 7] [mkToken 32 (Some [7])] (mkToken OP_IF None) (mkToken 3 (Some [111; 114; 100]))
    (mkToken 1 (Some [1])) (mkToken 2 (Some [84; 88])) ((fun b => mkToken 1 (Some [b])) <$> [9; 8; 7]) [] false [84; 88])|].
  - reflexivity.
  - by repeat constructor.
  - constructor.
  - reflexivity.
  - reflexivity.
  - split; [split; discriminate|by eexists].
  - reflexivity.
  - split; [split; discriminate|by eexists].
  - reflexivity.
  - repeat (apply Forall_cons_2; [split; [split; [split; discriminate|by eexists]|simpl; lia]|]). apply Forall_nil_2.
  - reflexivity.
Defined.

End script_witnesses.
