(* ===== verification/Bitcoin.v ===== *)
(** * The Bitcoin synchroniser

    [eth/worker_service.go] and [doBitcoinSync] of [eth/sync.go]: the blocks of
    the Bitcoin chain are fetched, saved with their transactions and
    inscribed files, the inscriptions that carry a commitment are turned into
    briefs, and pooled records are completed and stored from them.

    The client's answers are the record [btcClient]; the tables of
    [eth/basemodel] are the class [BtcTables].  [GetTransactionFee], a sum of
    floating-point numbers, and the JSON text of inputs and outputs are
    parameters. *)

From S2P Require Import Prelude Bytes SortCache DAType FilePool Store Ledger ChainSync ScriptParser.

Local Open Scope Z_scope.

(** ** The node *)

Record btcBlock := mkBtcBlock {
  vbHeight : Z; vbHash : list Z; vbConfirmations : Z; vbStrippedSize : Z; vbSize : Z; vbWeight : Z; vbMerkleRoot : list Z;
  vbTx : list (list Z); vbTime : Z; vbNonce : Z; vbBits : list Z; vbPreviousHash : list Z; vbNextHash : list Z
}.

(** The fields of a verbose transaction; [vtVin] and [vtVout] are [None] when
    they cannot be marshalled. *)
Record btcTx := mkBtcTx {
  vtHex : list Z; vtTxid : list Z; vtHash : list Z; vtSize : Z; vtVsize : Z; vtWeight : Z; vtLockTime : Z;
  vtVin : option (list Z); vtVout : option (list Z); vtBlockHash : list Z; vtConfirmations : Z; vtTime : Z; vtBlocktime : Z
}.

(** What the node answers; [None] is an error.  [rawWitnesses] are the witnesses
    of the inputs of [GetRawTransaction]. *)
Record btcClient := mkBtcClient {
  GetBlockCount : option Z;
  GetBlockHash : Z -> option (list Z);
  GetBlockVerbose : list Z -> option btcBlock;
  GetBlockHeader : list Z -> bool;
  GetRawTransactionVerbose : list Z -> option btcTx;
  rawWitnesses : list Z -> option (list (list (list Z)));
  NewHashFromStr : list Z -> option (list Z)
}.

(** ** Tables *)

Record baseBlock := mkBaseBlock { bbBlock : btcBlock; bbTransactionCnt : Z; bbCreateAt : Z }.

Record baseTransaction := mkBaseTx { btTx : btcTx; btVin : list Z; btVout : list Z; btBlockHeight : Z; btFee : list Z; btCreateAt : Z }.

Record baseFile := mkBaseFile {
  bfBlockHeight : Z; bfBlockHash : list Z; bfTransactionHash : list Z; bfContentType : list Z; bfContentLength : Z;
  bfContentBody : list Z; bfIndex : Z; bfOffset : Z; bfCreateAt : Z
}.

(** [FirstOrCreate] on the chain row with the starting height, [First] and
    [Save] of it, and the three batch insertions that ignore conflicts.  A
    [bool] says whether there was an error. *)
Class BtcTables (g : Gorm) := {
  chainFirstOrCreate : sqlState -> Z -> sqlState * option Z;
  chainSave : sqlState -> Z -> sqlState * bool;
  createBlocks : sqlState -> list baseBlock -> sqlState * bool;
  createTxs : sqlState -> list baseTransaction -> sqlState * bool;
  createFiles : sqlState -> list baseFile -> sqlState * bool
}.

(** The stored height: a failed save leaves it, the other tables do not touch
    it, and reading it creates it with the starting height. *)
Class BtcTablesLaws (g : Gorm) (t : BtcTables g) := {
  storedHeight : sqlState -> option Z;
  chainFirstOrCreate_height s n s' h :
    chainFirstOrCreate s n = (s', Some h) -> h = default n (storedHeight s) /\ storedHeight s' = Some h;
  chainFirstOrCreate_err s n s' : chainFirstOrCreate s n = (s', None) -> storedHeight s' = storedHeight s;
  chainSave_height s h s' : chainSave s h = (s', false) -> storedHeight s' = Some h;
  chainSave_err s h s' : chainSave s h = (s', true) -> storedHeight s' = storedHeight s;
  createBlocks_height s l : storedHeight (createBlocks s l).1 = storedHeight s;
  createTxs_height s l : storedHeight (createTxs s l).1 = storedHeight s;
  createFiles_height s l : storedHeight (createFiles s l).1 = storedHeight s
}.

(** ** The worker *)

Record TransactionBrief := mkBrief { tbCommitment : list Z; tbBlockNum : Z; tbAddresses : list (list Z); tbSignatures : list (list Z) }.

Definition CUSTOM_CONTENT_TYPE : list Z := lit "MultiAaptiveCM;charset=utf-8".

Section Worker.
Context `{gorm : Gorm} `{btc : !BtcTables gorm}.
Context (tokens : list Z -> list token * bool) {PubKey : Type} (ParsePubKey : list Z -> option PubKey) (keyText : PubKey -> option (list Z)).
Context (fee : list Z -> list Z) (cli : btcClient) (startNum : Z) (now : Z).

Abbreviation blocksT := (sortCache Z btcBlock) (only parsing).

(** [GetBlocks]: [n] heights from [i] on; [None] is an error.  The headers are
    only asked for. *)
Fixpoint getBlocksFrom (n : nat) (i : Z) (blocks : blocksT) (headers : sortCache Z unit) : option (blocksT * sortCache Z unit) :=
  match n with
  | O => Some (blocks, headers)
  | S n =>
      match GetBlockHash cli i with
      | None => None
      | Some blockHash =>
          match GetBlockVerbose cli blockHash with
          | None => None
          | Some blockVerbose =>
              if GetBlockHeader cli blockHash
              then getBlocksFrom n (i + 1) (Set_ blocks i blockVerbose) (Set_ headers i tt)
              else None
          end
      end
  end.

Definition GetBlocks (from to : Z) := getBlocksFrom (Z.to_nat (to - from + 1)) from newSortCache newSortCache.

Definition SaveBlocks (s : sqlState) (headers : sortCache Z unit) (blocks : blocksT) : sqlState * bool :=
  createBlocks s (omap (fun blockHeight =>
    (fun b => mkBaseBlock b (u32 (Z.of_nat (length (vbTx b)))) now) <$> SortCache.Get blocks blockHeight) (Keys headers)).

(** The row of transaction [tx], if all of it can be read. *)
Definition txModel (blockHeight : Z) (tx : list Z) : option baseTransaction :=
  match NewHashFromStr cli tx with
  | None => None
  | Some txid =>
      match GetRawTransactionVerbose cli txid with
      | None => None
      | Some v =>
          match vtVin v, vtVout v with
          | Some vin, Some vout => Some (mkBaseTx v vin vout blockHeight (fee tx) now)
          | _, _ => None
          end
      end
  end.

Definition SaveTransactions (s : sqlState) (blocks : blocksT) : sqlState * bool :=
  createTxs s (concat ((fun blockHeight =>
    match SortCache.Get blocks blockHeight with None => [] | Some b => omap (txModel blockHeight) (vbTx b) end) <$> Keys blocks)).

(** [ParseTransaction]: [None] is an error. *)
Definition ParseTransaction (txID : list Z) : outcome (option (list TransactionInscription)) :=
  match NewHashFromStr cli txID with
  | None => Done None
  | Some txHash =>
      match rawWitnesses cli txHash with
      | None => Done None
      | Some txIn => l ← ParseInscriptionsFromTransaction tokens ParsePubKey keyText txIn; Done (Some l)
      end
  end.

Definition isCustom (ins : TransactionInscription) : bool := bool_decide (ContentType (Inscription ins) = CUSTOM_CONTENT_TYPE).

Definition fileModel (blockHeight : Z) (blockHash tx : list Z) (ins : TransactionInscription) : baseFile :=
  mkBaseFile blockHeight blockHash tx (ContentType (Inscription ins)) (ContentLength (Inscription ins)) (ContentBody (Inscription ins))
    (TxInIndex ins) (TxInOffset ins) now.

(** The files of one block. *)
Definition blockFiles (blockHeight : Z) (files : list baseFile) (b : btcBlock) : outcome (list baseFile) :=
  fold_outcome (fun files tx =>
    o ← ParseTransaction tx;
    match o with
    | None => Done files
    | Some inss => Done (files ++ (fileModel blockHeight (vbHash b) tx <$> filter (fun ins => isCustom ins = true) inss))
    end) (vbTx b) files.

Definition SaveFiles (s : sqlState) (blocks : blocksT) : outcome (sqlState * bool) :=
  files ← fold_outcome (fun files blockHeight =>
    match SortCache.Get blocks blockHeight with None => Done files | Some b => blockFiles blockHeight files b end) (Keys blocks) [];
  Done (createFiles s files).

Definition GetTransactionSignature (txID : list Z) : option (list Z) :=
  match NewHashFromStr cli txID with
  | None => None
  | Some txHash => vtHex <$> GetRawTransactionVerbose cli txHash
  end.

Abbreviation briefsT := (sortCache (list Z) (list TransactionBrief)) (only parsing).

Definition briefOf (blockHeight : Z) (signature : list Z) (ins : TransactionInscription) : TransactionBrief :=
  mkBrief (ContentBody (Inscription ins)) blockHeight (ValidatorAddresses ins) [signature].

(** One transaction of [GenerateBrief]. *)
Definition briefStep (blockHeight : Z) (acc : briefsT) (tx : list Z) : outcome briefsT :=
  o ← ParseTransaction tx;
  match o, GetTransactionSignature tx with
  | Some inss, Some signature => Done (Set_ acc tx (briefOf blockHeight signature <$> filter (fun ins => isCustom ins = true) inss))
  | _, _ => Done acc
  end.

Definition GenerateBrief (blocks : blocksT) : outcome briefsT :=
  fold_outcome (fun acc blockHeight =>
    match SortCache.Get blocks blockHeight with
    | None => Done acc
    | Some b => fold_outcome (briefStep blockHeight) (vbTx b) acc
    end) (Keys blocks) newSortCache.

(** How [RunSync] ends: an error, nothing new, or the briefs. *)
Inductive runResult := RunError | NothingNew | RunBriefs (briefs : briefsT).

Definition RunSync (s : sqlState) : outcome (sqlState * runResult) :=
  match GetBlockCount cli with
  | None => Done (s, RunError)
  | Some currentBlockHeight =>
      let '(s, present) := chainFirstOrCreate s startNum in
      match present with
      | None => Done (s, RunError)
      | Some present =>
          let presentBlockHeight := i64 present in
          if decide (currentBlockHeight <= presentBlockHeight) then Done (s, NothingNew)
          else
            match GetBlocks (presentBlockHeight + 1) currentBlockHeight with
            | None => Done (s, RunError)
            | Some (blocks, headers) =>
                let '(s, err) := SaveBlocks s headers blocks in
                if (err : bool) then Done (s, RunError)
                else
                  let '(s, err) := SaveTransactions s blocks in
                  if (err : bool) then Done (s, RunError)
                  else
                    '(s, err) ← SaveFiles s blocks;
                    if (err : bool) then Done (s, RunError)
                    else
                      briefs ← GenerateBrief blocks;
                      let '(s, err) := chainSave s (u64 currentBlockHeight) in
                      Done (s, if (err : bool) then RunError else RunBriefs briefs)
            end
      end
  end.

(** ** Which blocks are fetched *)

Lemma Set_new {V} (c : sortCache Z V) k v : k ∉ keyList c -> cache_wf c -> Keys (Set_ c k v) = Keys c ++ [k] /\ cache_wf (Set_ c k v).
Proof.
  intros Hk Hwf. split; [|by apply Set_wf]. unfold Keys, Set_. simpl. destruct Hwf as [_ Hd].
  destruct (SortCache.cache c !! k) eqn:Hc; [|done]. destruct Hk. apply Hd. by eexists.
Qed.

Lemma getBlocksFrom_keeps n : forall j i bs hs bs' hs',
  i < j -> getBlocksFrom n j bs hs = Some (bs', hs') -> SortCache.Get bs' i = SortCache.Get bs i.
Proof.
  induction n as [|n IH]; intros j i bs hs bs' hs' Hj; cbn [getBlocksFrom]; [by intros [= <- _]|].
  destruct (GetBlockHash cli j) as [h|]; [|done]. destruct (GetBlockVerbose cli h); [|done]. destruct (GetBlockHeader cli h); [|done].
  intros HG. rewrite (IH (j + 1) i _ _ _ _ ltac:(lia) HG). unfold SortCache.Get, Set_. simpl. by rewrite lookup_insert_ne by lia.
Qed.

(** Every height once and in order, each with the block the node has for it. *)
Lemma getBlocksFrom_keys n : forall i blocks headers blocks' headers',
  cache_wf blocks -> cache_wf headers -> (forall k, k ∈ Keys blocks -> k < i) -> Keys headers = Keys blocks ->
  getBlocksFrom n i blocks headers = Some (blocks', headers') ->
  Keys blocks' = Keys blocks ++ seqZ i (Z.of_nat n) /\ Keys headers' = Keys blocks'
  /\ forall k, i <= k < i + Z.of_nat n -> exists h, GetBlockHash cli k = Some h /\ SortCache.Get blocks' k = GetBlockVerbose cli h.
Proof.
  induction n as [|n IH]; intros i blocks headers blocks' headers' Hb Hh Hlt Hk; cbn [getBlocksFrom].
  { intros [= <- <-]. rewrite app_nil_r. split_and!; [done|done|intros; lia]. }
  destruct (GetBlockHash cli i) as [h|] eqn:H1; [|done]. destruct (GetBlockVerbose cli h) as [b|] eqn:H2; [|done].
  destruct (GetBlockHeader cli h); [|done]. intros HG.
  assert (Hni : i ∉ Keys blocks) by (intros Hi; specialize (Hlt i Hi); lia).
  destruct (Set_new blocks i b Hni Hb) as [Hk1 Hw1]. destruct (Set_new headers i tt) as [Hk2 Hw2]; [by rewrite <-Hk in Hni|done|].
  pose proof HG as HG'. apply IH in HG as (Hkeys & Hkh & Hget); [|done|done| |by rewrite Hk1, Hk2, Hk].
  2: { intros k. rewrite Hk1, elem_of_app, list_elem_of_singleton. intros [Hin| ->]; [specialize (Hlt k Hin)|]; lia. }
  split_and!; [|done|].
  - rewrite Hkeys, Hk1, <-(assoc_L (++)). rewrite (seqZ_cons i) by lia. cbn [app]. do 3 f_equal; lia.
  - intros k Hki. destruct (decide (k = i)) as [->|Hne]; [|apply Hget; lia]. exists h. split; [done|]. rewrite H2.
    rewrite (getBlocksFrom_keeps n (i + 1) i _ _ _ _ ltac:(lia) HG'). unfold SortCache.Get, Set_. simpl. by rewrite lookup_insert_eq.
Qed.

Lemma GetBlocks_keys from to blocks headers :
  GetBlocks from to = Some (blocks, headers) ->
  Keys blocks = seqZ from (to - from + 1)
  /\ forall k, from <= k <= to -> exists h, GetBlockHash cli k = Some h /\ SortCache.Get blocks k = GetBlockVerbose cli h.
Proof.
  intros HG. unfold GetBlocks in HG. destruct (Z.le_gt_cases 0 (to - from + 1)) as [Hle|Hgt].
  - apply getBlocksFrom_keys in HG as (Hk & _ & Hget); [|apply newSortCache_wf|apply newSortCache_wf|intros k Hk; by apply not_elem_of_nil in Hk|done].
    cbn [Keys newSortCache keyList app] in Hk. rewrite Z2Nat.id in Hk, Hget by done. split; [done|]. intros k Hki. apply Hget. lia.
  - replace (Z.to_nat (to - from + 1)) with 0%nat in HG by lia. injection HG as <- _. rewrite seqZ_nil by lia. split; [done|]. intros; lia.
Qed.

Section height.
Context `{!BtcTablesLaws gorm btc}.

(** C31: a run of the Bitcoin worker is all or nothing for its place in the
    chain: when it hands out briefs they come from exactly the blocks behind
    the stored height up to the node's head, each fetched once and in order,
    and the stored height is that head; in every other case the next run
    starts from the same height. *)
Theorem RunSync_height s s' r :
  RunSync s = Done (s', r) ->
  match r with
  | RunBriefs briefs => exists current blocks, GetBlockCount cli = Some current
      /\ (let from := i64 (default startNum (storedHeight s)) + 1 in
          from <= current /\ Keys blocks = seqZ from (current - from + 1)
          /\ forall k, from <= k <= current -> exists h, GetBlockHash cli k = Some h /\ SortCache.Get blocks k = GetBlockVerbose cli h)
      /\ GenerateBrief blocks = Done briefs /\ storedHeight s' = Some (u64 current)
  | _ => default startNum (storedHeight s') = default startNum (storedHeight s)
  end.
Proof.
  unfold RunSync. destruct (GetBlockCount cli) as [current|]; [|by intros [= <- <-]].
  destruct (chainFirstOrCreate s startNum) as [s1 [present|]] eqn:H1; [|intros [= <- <-]; by erewrite chainFirstOrCreate_err].
  apply chainFirstOrCreate_height in H1 as [Hp Hs1]. cbn zeta.
  assert (Hret : forall s2, storedHeight s2 = storedHeight s1 -> default startNum (storedHeight s2) = default startNum (storedHeight s))
    by (intros s2 ->; rewrite Hs1; exact Hp).
  case_decide; [intros [= <- <-]; by apply Hret|].
  destruct (GetBlocks _ _) as [[blocks headers]|] eqn:HG; [|intros [= <- <-]; by apply Hret].
  pose proof (createBlocks_height s1) as C1. unfold SaveBlocks. specialize (C1 (omap (fun k => (fun b => mkBaseBlock b (u32 (Z.of_nat (length (vbTx b)))) now) <$> SortCache.Get blocks k) (Keys headers))).
  destruct (createBlocks _ _) as [s2 []]; cbn [fst] in C1; [intros [= <- <-]; by apply Hret|].
  pose proof (createTxs_height s2) as C2. unfold SaveTransactions.
  match goal with |- context [createTxs s2 ?l] => specialize (C2 l) end.
  destruct (createTxs _ _) as [s3 []]; cbn [fst] in C2; [intros [= <- <-]; apply Hret; congruence|].
  unfold SaveFiles. destruct (fold_outcome _ (Keys blocks) []) as [files| |]; cbn [mbind outcome_bind]; [|done..].
  pose proof (createFiles_height s3 files) as C3. destruct (createFiles s3 files) as [s4 []]; cbn [fst] in C3; [intros [= <- <-]; apply Hret; congruence|].
  destruct (GenerateBrief blocks) as [briefs| |] eqn:HB; cbn [mbind outcome_bind]; [|done..].
  destruct (chainSave s4 (u64 current)) as [s5 []] eqn:H5; intros [= <- <-].
  - apply Hret. apply chainSave_err in H5. congruence.
  - apply chainSave_height in H5. exists current, blocks. apply GetBlocks_keys in HG as [Hk Hget]. rewrite <-Hp. split_and!; [done|lia|done|done|done|done].
Qed.

End height.

(** ** Which briefs are made *)

(** The transactions of the cached blocks with their heights, in order. *)
Definition txsOf (blocks : blocksT) : list (Z * list Z) :=
  concat ((fun h => match SortCache.Get blocks h with None => [] | Some b => pair h <$> vbTx b end) <$> Keys blocks).

(** The briefs of one transaction, [None] when it is left out. *)
Definition briefsFor (h : Z) (tx : list Z) (o : option (list TransactionInscription)) : option (list TransactionBrief) :=
  match o, GetTransactionSignature tx with
  | Some inss, Some sg => Some (briefOf h sg <$> filter (fun ins => isCustom ins = true) inss)
  | _, _ => None
  end.

Lemma fold_outcome_fmap {A B S} (f : S -> B -> outcome S) (g : A -> B) l s :
  fold_outcome f (g <$> l) s = fold_outcome (fun s a => f s (g a)) l s.
Proof. revert s. induction l as [|a l IH]; intros s; [done|]. rewrite fmap_cons. cbn [fold_outcome]. by destruct (f s (g a)). Qed.

Lemma GenerateBrief_flat blocks :
  GenerateBrief blocks = fold_outcome (fun acc ht => briefStep ht.1 acc ht.2) (txsOf blocks) newSortCache.
Proof.
  unfold GenerateBrief, txsOf. generalize (newSortCache (K := list Z) (V := list TransactionBrief)).
  induction (Keys blocks) as [|h ks IH]; intros acc; [done|]. rewrite fmap_cons. cbn [fold_outcome concat]. rewrite fold_outcome_app.
  destruct (SortCache.Get blocks h) as [b|]; [|apply IH]. rewrite fold_outcome_fmap. simpl.
  destruct (fold_outcome (briefStep h) (vbTx b) acc); [apply IH|done..].
Qed.

Lemma briefStep_get h acc tx acc' :
  briefStep h acc tx = Done acc' ->
  exists o, ParseTransaction tx = Done o
    /\ forall t, SortCache.Get acc' t = if decide (t = tx) then match briefsFor h tx o with Some l => Some l | None => SortCache.Get acc t end
                              else SortCache.Get acc t.
Proof.
  unfold briefStep, briefsFor. destruct (ParseTransaction tx) as [o| |]; cbn [mbind outcome_bind]; [|done..]. intros Ha.
  exists o. split; [done|]. intros t. destruct o as [inss|]; [destruct (GetTransactionSignature tx) as [sg|]|]; injection Ha as <-;
    [|by case_decide..]. unfold SortCache.Get, Set_. simpl. rewrite lookup_insert.
  destruct (decide (t = tx)) as [->|Hne]; [by rewrite decide_True|by rewrite decide_False by congruence].
Qed.

Lemma briefs_fold P : forall acc acc',
  NoDup P.*2 -> (forall tx, tx ∈ P.*2 -> SortCache.Get acc tx = None) ->
  fold_outcome (fun acc ht => briefStep ht.1 acc ht.2) P acc = Done acc' ->
  (forall h tx, (h, tx) ∈ P -> exists o, ParseTransaction tx = Done o /\ SortCache.Get acc' tx = briefsFor h tx o)
  /\ forall tx, tx ∉ P.*2 -> SortCache.Get acc' tx = SortCache.Get acc tx.
Proof.
  induction P as [|[h tx] P IH]; intros acc acc' Hnd Hnone; cbn [fold_outcome fst snd].
  { intros [= <-]. split; [by intros ? ? ?%not_elem_of_nil|done]. }
  rewrite fmap_cons in Hnd, Hnone. apply NoDup_cons in Hnd as [Hn Hnd]. cbn [snd] in *.
  destruct (briefStep h acc tx) as [acc1| |] eqn:Hs; [|done..]. apply briefStep_get in Hs as (o & Ho & Hget). intros Hf.
  apply IH in Hf as [Hin Hout]; [|done|].
  2: { intros t Ht. rewrite Hget, decide_False by (intros ->; done). apply Hnone. set_solver. }
  split.
  - intros h' tx' [[= -> ->]|Hp]%elem_of_cons; [|by apply Hin]. exists o. split; [done|]. rewrite Hout by done.
    rewrite Hget, decide_True by done. rewrite (Hnone tx) by set_solver. by destruct (briefsFor h tx o).
  - intros t Ht. rewrite fmap_cons in Ht. rewrite Hout by set_solver. rewrite Hget, decide_False; [done|]. set_solver.
Qed.

(** The briefs of a run are those of its transactions: when no transaction
    id occurs twice, every transaction of a fetched block is entered with one
    brief per inscription of the commitment content type, in order, with the
    content as commitment and the height of its block; a transaction that
    cannot be read is left out, and nothing else is entered. *)
Theorem GenerateBrief_correct blocks briefs :
  NoDup (txsOf blocks).*2 -> GenerateBrief blocks = Done briefs ->
  (forall h tx, (h, tx) ∈ txsOf blocks -> exists o, ParseTransaction tx = Done o /\ SortCache.Get briefs tx = briefsFor h tx o)
  /\ forall tx, tx ∉ (txsOf blocks).*2 -> SortCache.Get briefs tx = None.
Proof. intros Hnd. rewrite GenerateBrief_flat. intros Hf. apply briefs_fold in Hf as [H1 H2]; [|done|done]. split; [done|]. intros. by rewrite H2. Qed.
End Worker.

(** ** Completing the records *)

Definition knownNet (net : list Z) : bool :=
  bool_decide (toLower net ∈ [lit "regtest"; lit "mainnet"; lit "simnet"; lit "testnet3"]).

(** What the outside answers when the [i]-th brief is looked at. *)
Record btcAnswers (DB : Type) := mkBtcAnswers {
  btcNow : nat -> time;
  btcSeen : nat -> nat -> DB;
  btcFs : nat -> fsAnswers;
  btcAddNow : nat -> nat -> time
}.
Arguments btcNow {DB}.
Arguments btcSeen {DB}.
Arguments btcFs {DB}.
Arguments btcAddNow {DB}.

Section doBitcoinSync.
Context `{kzg : KZG} `{crypto : Crypto} `{sdk : SDK} `{codec : !DACodec} `{gorm : Gorm} (zone : Z).

(** What is written to the record. *)
Definition btcConfirm (nonce : Z) (tx : list Z) (b : TransactionBrief) (now : time) (da : DA) : DA :=
  mkDA (Sender da) nonce (Index da) (Length da) (Data da) (Commitment da) (Hex2Bytes <$> tbSignatures b) (tbAddresses b) (DasKey da)
    (HexToHash tx) (u64 (tbBlockNum b)) now (OutOfTime da) (Proof da) (ClaimedValue da) (NameSpaceID da) (Root da).

(** One brief: the records taken so far and the state nonce go along. *)
Definition btcTake (ans : btcAnswers sqlState) (st : world * list nat * Z) (itb : nat * (list Z * TransactionBrief))
  : outcome (world * list nat * Z) :=
  let '(w, daDatas, stateNonce) := st in
  let '(i, (tx, b)) := itb in
  '(fp, da, err) ← GetDAByCommit (btcSeen ans i) (wPool w) (tbCommitment b);
  let w := set_wPool fp w in
  match da, err with
  | Some da, false =>
      let stateNonce := u64 (stateNonce + 1) in
      let '(p, w) := pointerOf w (tbCommitment b) da in
      let w := writeObj p (btcConfirm stateNonce tx b (btcNow ans i)) w in
      w ← addObj true (btcFs ans i) (btcAddNow ans i) p w;
      Done (w, daDatas ++ [p], stateNonce)
  | _, _ => Done (w, daDatas, stateNonce)
  end.

(** The briefs of all keys, in order. *)
Definition allBriefs (briefs : option (sortCache (list Z) (list TransactionBrief))) : list (list Z * TransactionBrief) :=
  concat ((fun tx => match briefs with
                     | Some c => match SortCache.Get c tx with Some bs => pair tx <$> bs | None => [] end
                     | None => []
                     end) <$> TxKeys briefs).

(** [doBitcoinSync] with the run of the worker as an argument: world, [forced]
    flag, and whether an error was returned. *)
Definition doBitcoinSync (run : sqlState -> outcome (sqlState * runResult)) (net : list Z) (ans : btcAnswers sqlState) (sy : syncer)
  : outcome (syncer * bool) :=
  if forced sy then Done (sy, true)
  else
    let w := syWorld sy in
    if negb (knownNet net) then Done (mkSyncer w true, true)
    else
      let stateNonce := default 0 (GetMaxIDDANonce (wDB w)) in
      '(s, r) ← run (wDB w);
      let w := set_wDB s w in
      match r with
      | RunError => Done (mkSyncer w true, true)
      | _ =>
          let briefs := match r with RunBriefs b => Some b | _ => None end in
          '(w, daDatas, _) ← fold_outcome (btcTake ans) (imap pair (allBriefs briefs)) (w, [], stateNonce);
          w ← (if decide (length daDatas = 0)%nat then Done w
               else
                 let parentHash := HexToHash (default [] (GetMaxIDDAStateHash (wDB w))) in
                 let fp := SendNewFileDataEvent (wPool w) (deref w daDatas) in
                 '(s, _) ← SaveBatchCommitment zone (wDB w) (Some <$> deref w daDatas) parentHash;
                 fp ← RemoveFileData fp (Some <$> deref w daDatas);
                 Done (set_wPool fp (set_wDB s w)));
          Done (mkSyncer w false, false)
      end.

(** ** Nonces *)

(** The taken objects carry consecutive nonces, as long as none is taken twice. *)
Definition nonces (n0 : Z) (st : world * list nat * Z) : Prop :=
  let '(w, ps, n) := st in
  n = u64 (n0 + Z.of_nat (length ps)) /\
  (NoDup ps -> forall i p, ps !! i = Some p -> exists d, wHeap w !! p = Some d /\ Nonce d = u64 (n0 + Z.of_nat i + 1)).

Lemma u64_succ n0 k : u64 (u64 (n0 + k) + 1) = u64 (n0 + (k + 1)).
Proof. unfold u64, wrap. rewrite Zplus_mod_idemp_l. f_equal. lia. Qed.

Lemma btcTake_nonces n0 ans st itb st' : nonces n0 st -> btcTake ans st itb = Done st' -> nonces n0 st'.
Proof.
  destruct st as [[w ps] n], itb as [i [tx b]], st' as [[w' ps'] n']. intros [Hn Hps]. unfold btcTake.
  destruct (GetDAByCommit _ _ _) as [[[fp da] err]| |]; cbn [mbind outcome_bind]; [|done..]. cbn zeta.
  destruct da as [da|]; [destruct err|]; [by intros [= <- <- <-]| |by intros [= <- <- <-]].
  destruct (pointerOf (set_wPool fp w) (tbCommitment b) da) as [p w1] eqn:Hp.
  destruct (addObj _ _ _ _ _) as [w2| |] eqn:Ha; cbn [mbind outcome_bind]; [|done..]. intros [= <- <- <-].
  destruct (addObj_heap _ _ _ _ _ _ Ha) as [Hheap [d Hd]]. cbn [wHeap writeObj] in Hheap, Hd.
  assert (Hl : exists l, wHeap w1 = wHeap w ++ l).
  { revert Hp. unfold pointerOf. destruct (get _ _); intros [= _ <-]; [exists []; by rewrite app_nil_r|by eexists]. }
  destruct Hl as [l Hl]. split; [rewrite Hn, length_app, u64_succ; f_equal; simpl; lia|].
  intros Hnd j q Hj. apply NoDup_app in Hnd as (Hnd & Hdis & _). rewrite Hheap, list_lookup_alter.
  apply lookup_app_Some in Hj as [Hj|[Hlen Hj]].
  - destruct (Hps Hnd j q Hj) as (d0 & Hd0 & Hnonce). exists d0. rewrite decide_False, Hl, (lookup_app_l_Some _ _ _ _ Hd0); [done|].
    intros ->. apply (Hdis q); [by eapply list_elem_of_lookup_2|set_solver].
  - apply list_lookup_singleton_Some in Hj as [Hj <-]. rewrite decide_True by done. rewrite list_lookup_alter_eq in Hd.
    exists d. split; [done|]. apply fmap_Some in Hd as (d0 & _ & ->). cbn [Nonce btcConfirm]. rewrite Hn, u64_succ. f_equal.
    replace j with (length ps) by lia. lia.
Qed.

(** The records a Bitcoin synchronisation takes are numbered without gaps
    from the highest stored nonce on, in the order of the briefs, as long as
    no record is taken for two briefs. *)
Theorem btc_nonces_consecutive ans briefs w n0 w' ps n :
  in_u64 n0 -> fold_outcome (btcTake ans) (imap pair (allBriefs briefs)) (w, [], n0) = Done (w', ps, n) -> NoDup ps ->
  (Nonce <$> deref w' ps) = (fun i => u64 (n0 + Z.of_nat i + 1)) <$> seq 0 (length ps).
Proof.
  intros Hn0 Hf Hnd. apply (fold_outcome_Done (nonces n0)) in Hf as [_ Hps];
    [|intros st itb st'; apply btcTake_nonces|split; [by rewrite Z.add_0_r, u64_small|by intros _ i p ?]].
  specialize (Hps Hnd). clear Hnd.
  enough (HG : forall k, (forall i p, ps !! i = Some p -> exists d, wHeap w' !! p = Some d /\ Nonce d = u64 (n0 + Z.of_nat (k + i) + 1)) ->
    (Nonce <$> deref w' ps) = (fun i => u64 (n0 + Z.of_nat i + 1)) <$> seq k (length ps)) by (by apply (HG 0%nat)).
  clear Hps. induction ps as [|p ps IH]; intros k Hk; [done|]. cbn [length seq]. rewrite fmap_cons. unfold deref. cbn [omap list_omap].
  destruct (Hk 0%nat p eq_refl) as (d & Hd & Hnon). rewrite Hd, fmap_cons, Hnon, Nat.add_0_r. f_equal. apply IH.
  intros i q Hi. destruct (Hk (S i) q Hi) as (d' & Hd' & Hn'). exists d'. split; [done|]. rewrite Hn'. do 3 f_equal. lia.
Qed.
End doBitcoinSync.

(** ** A small chain, and the properties on it *)

Module BtcSample.
Import Sample PoolSample SyncSample.

(** The height is kept as the last row of [SyncInfo]. *)
#[export] Instance sampleBtcTables : BtcTables syncGorm := {|
  chainFirstOrCreate s n := match last (syncIn s.2) with Some h => (s, Some h) | None => ((s.1, s.2 ++ [RSync n]), Some n) end;
  chainSave s h := ((s.1, s.2 ++ [RSync h]), false);
  createBlocks s _ := (s, false);
  createTxs s _ := (s, false);
  createFiles s _ := (s, false)
|}.

Lemma syncIn_snoc rows n : last (syncIn (rows ++ [RSync n])) = Some n.
Proof. unfold syncIn. rewrite omap_app. apply last_snoc. Qed.

#[export] Instance sampleBtcTablesLaws : BtcTablesLaws syncGorm sampleBtcTables.
Proof.
  refine {| storedHeight := fun s : @sqlState syncGorm => last (syncIn s.2) |}; try done.
  - intros [ds rows] n s' h. cbn [chainFirstOrCreate sampleBtcTables snd fst]. destruct (last (syncIn rows)) as [h'|] eqn:Hl.
    + by intros [= <- <-].
    + intros [= <- <-]. cbn [snd]. split; [done|apply syncIn_snoc].
  - intros [ds rows] n s'. cbn [chainFirstOrCreate sampleBtcTables snd fst]. by destruct (last (syncIn rows)).
  - intros [ds rows] h s'. cbn [chainSave sampleBtcTables snd fst]. intros [= <-]. apply syncIn_snoc.
Defined.

(** A script with two keys, the header at position 6 and the body [script]. *)
Definition btcTokens (script : list Z) : list token * bool :=
  (replicate 6 (mkToken 32 (Some [7])) ++
   [mkToken OP_FALSE None; mkToken OP_IF None; mkToken 3 (Some [111; 114; 100])] ++
   envelope (mkToken 1 (Some [1])) (mkToken 28 (Some CUSTOM_CONTENT_TYPE)) [mkToken 64 (Some script)], false).

(** Block [k] has the hash [[k]] and one transaction, whose witness commits to
    the digest of [badDA]. *)
Definition sampleClient : btcClient :=
  mkBtcClient (Some 102) (fun k => Some [k]) (fun h => Some (mkBtcBlock (hd 0 h) h 1 0 0 0 [] [h] 0 0 [] [] [])) (fun _ => true)
    (fun t => Some (mkBtcTx [97; 98] t t 0 0 0 0 (Some []) (Some []) [] 0 0 0)) (fun _ => Some [[Marshal (Commitment badDA); [1]]]) Some.

Abbreviation runSample := (RunSync btcTokens (fun d => Some d) Some (fun t => t) sampleClient 100 5) (only parsing).

Definition sampleBlocks : sortCache Z btcBlock :=
  match GetBlocks sampleClient 101 102 with Some (b, _) => b | None => newSortCache end.

Definition sampleBriefs : sortCache (list Z) (list TransactionBrief) :=
  match GenerateBrief btcTokens (fun d => Some d) Some sampleClient sampleBlocks with Done b => b | _ => newSortCache end.

Definition firstBrief : TransactionBrief := mkBrief (Marshal (Commitment badDA)) 101 [[7]; [7]] [[97; 98]].

(** The briefs of the first transaction only. *)
Definition oneBrief : sortCache (list Z) (list TransactionBrief) := Set_ newSortCache [101] [firstBrief].

Definition sampleBtcAnswers : btcAnswers (@sqlState syncGorm) := mkBtcAnswers _ (fun _ => 100) (fun _ _ => ([], [])) (fun _ => fsFine) (fun _ _ => 0).

End BtcSample.

Section btc_witnesses.
Import Sample PoolSample SyncSample BtcSample.

Lemma RunSync_height_witness :
  exists s' b, runSample (([], []) : @sqlState syncGorm) = Done (s', RunBriefs b) /\ storedHeight s' = Some 102.
Proof.
  assert (HP : exists r, runSample (([], []) : @sqlState syncGorm) = Done r) by (apply isDone_true; vm_compute; reflexivity).
  destruct HP as [[s' r] HP]. destruct r as [| |b].
  - exfalso. revert HP. vm_compute. discriminate.
  - exfalso. revert HP. vm_compute. discriminate.
  - exists s', b. split; [exact HP|].
    destruct (RunSync_height _ _ _ _ _ _ _ _ _ _ HP) as (current & blocks & Hc & _ & _ & Hh).
    injection Hc as <-. exact Hh.
Defined.

Lemma GenerateBrief_correct_witness : SortCache.Get sampleBriefs [101] = Some [firstBrief].
Proof.
  destruct (GenerateBrief_correct btcTokens (fun d => Some d) Some (fun t => t) sampleClient sampleBlocks sampleBriefs) as [H _].
  - vm_compute. repeat (apply NoDup_cons_2; [apply (bool_decide_unpack _); vm_compute; exact I|]). apply NoDup_nil_2.
  - vm_compute. reflexivity.
  - destruct (H 101 [101]) as (o & Ho & Hget); [vm_compute; apply list_elem_of_here|]. rewrite Hget.
    revert Ho. vm_compute. intros [= <-]. reflexivity.
Defined.

Lemma btc_nonces_consecutive_witness :
  exists w' n, fold_outcome (btcTake sampleBtcAnswers) (imap pair (allBriefs (Some oneBrief))) (sampleWorld, [], 41) = Done (w', [0%nat], n)
    /\ Nonce <$> deref w' [0%nat] = [42].
Proof.
  assert (HP : exists r, fold_outcome (btcTake sampleBtcAnswers) (imap pair (allBriefs (Some oneBrief))) (sampleWorld, [], 41) = Done r)
    by (apply isDone_true; vm_compute; reflexivity).
  destruct HP as [[[w' ps] n] HP].
  assert (Hps : match fold_outcome (btcTake sampleBtcAnswers) (imap pair (allBriefs (Some oneBrief))) (sampleWorld, [], 41) with
                | Done (_, ps, _) => ps | _ => [] end = [0%nat]) by (vm_compute; reflexivity).
  rewrite HP in Hps. subst ps. exists w', n. split; [exact HP|].
  etransitivity; [exact (btc_nonces_consecutive sampleBtcAnswers (Some oneBrief) sampleWorld 41 w' [0%nat] n
    ltac:(unfold in_u64; lia) HP (NoDup_singleton _))|reflexivity].
Defined.

End btc_witnesses.
