(* ===== verification/SyncLoop.v ===== *)
(** * The loop of the synchroniser

    [loop], [startSync] and [doSync] of [eth/sync.go]: every ten seconds a new
    run is started in a goroutine of its own, unless the flag [forced] is set.
    The flag belongs to the runs: a run sets it once it has asked the layer-one
    node for its height, and looks at it first.  The synchronisation itself is in
    [ChainSync] and [Bitcoin]; here a run has the four phases in which it touches
    the flag.  A run clears the flag and hands over its result in one step, to
    the channel it was started with (Go leaves open whether [cs.doneCh] is read
    before or after the run); the end of the loop is left out. *)

From S2P Require Import Prelude Bytes.

Local Open Scope Z_scope.

(** ** Runs *)

Inductive runPhase :=
| Started      (* before it looks at the flag *)
| Asking       (* before it sets the flag *)
| Syncing      (* the flag is set *)
| Returned.    (* its result is in its channel *)

#[export] Instance runPhase_eq_dec : EqDecision runPhase.
Proof. solve_decision. Defined.

(** [forced], the run whose channel is [doneCh], all runs so far. *)
Record syncLoop := mkSyncLoop { forced : bool; doneCh : option nat; runs : list runPhase }.

Definition newSyncLoop : syncLoop := mkSyncLoop false None [].

Definition startSync (s : syncLoop) : syncLoop := mkSyncLoop (forced s) (Some (length (runs s))) (runs s ++ [Started]).

(** The timer fires. *)
Definition loopTick (s : syncLoop) : syncLoop := if forced s then s else startSync s.

(** A result arrives in [doneCh]. *)
Definition loopDone (s : syncLoop) : option syncLoop :=
  match doneCh s with
  | Some j => if decide (runs s !! j = Some Returned) then Some (mkSyncLoop false None (runs s)) else None
  | None => None
  end.

Inductive syncChain := ChainEthereum | ChainBitcoin | ChainOther.

(** Which synchronisation [doSync] runs. *)
Definition doSync (chainName : list Z) : syncChain :=
  let name := toLower chainName in
  if decide (name = lit "ethereum" \/ name = lit "eth") then ChainEthereum
  else if decide (name = lit "bitcoin" \/ name = lit "btc") then ChainBitcoin
  else ChainOther.

Inductive loopEvent :=
| EvTick
| EvDone
| EvCheck (j : nat)               (* the run looks at the flag *)
| EvAskFails (j : nat)
| EvBegin (j : nat)               (* it has the height and sets the flag *)
| EvFinish (j : nat) (clear : bool). (* it ends, with or without clearing the flag *)

Definition setRun (j : nat) (ph : runPhase) (f : bool) (s : syncLoop) : syncLoop := mkSyncLoop f (doneCh s) (<[j := ph]> (runs s)).

Definition syncLoopStep (s : syncLoop) (e : loopEvent) : option syncLoop :=
  match e with
  | EvTick => Some (loopTick s)
  | EvDone => loopDone s
  | EvCheck j => if decide (runs s !! j = Some Started) then Some (setRun j (if forced s then Returned else Asking) (forced s) s) else None
  | EvAskFails j => if decide (runs s !! j = Some Asking) then Some (setRun j Returned (forced s) s) else None
  | EvBegin j => if decide (runs s !! j = Some Asking) then Some (setRun j Syncing true s) else None
  | EvFinish j clear => if decide (runs s !! j = Some Syncing) then Some (setRun j Returned (if clear then false else forced s) s) else None
  end.

(** ** Exclusion *)

(** No run is on its way to the flag. *)
Definition settled (s : syncLoop) : Prop := forall j ph, runs s !! j = Some ph -> ph = Syncing \/ ph = Returned.

(** The timer fires only when the last run has got past the flag. *)
Definition timelyStep (s : syncLoop) (e : loopEvent) (s' : syncLoop) : Prop := syncLoopStep s e = Some s' /\ (e = EvTick -> settled s).

(** The run that has not returned is the last one, and has the flag while it
    synchronises. *)
Definition loopInv (s : syncLoop) : Prop := forall j ph, runs s !! j = Some ph -> ph <> Returned -> doneCh s = Some j /\ (ph = Syncing -> forced s = true).

Lemma loopInv_set s j ph ph0 f : loopInv s -> runs s !! j = Some ph0 -> ph0 <> Returned -> (ph = Syncing -> f = true) -> loopInv (setRun j ph f s).
Proof.
  intros HI Hj Hn Hf i ph' Hi Hn'. cbn [setRun runs doneCh forced] in *. destruct (HI j ph0 Hj Hn) as [Hd _]. destruct (decide (i = j)) as [->|Hne].
  - rewrite list_lookup_insert_eq in Hi by (by eapply lookup_lt_Some). injection Hi as <-. done.
  - rewrite list_lookup_insert_ne in Hi by done. destruct (HI i ph' Hi Hn') as [Hd' _]. congruence.
Qed.

Lemma loopInv_step s e s' : loopInv s -> timelyStep s e s' -> loopInv s'.
Proof.
  intros HI [Hs Ht]. destruct e as [| |j|j|j|j clear]; cbn [syncLoopStep] in Hs.
  - injection Hs as <-. unfold loopTick. destruct (forced s) eqn:Hf; [done|]. intros j ph Hj Hn. cbn [startSync runs doneCh forced] in *.
    apply lookup_app_Some in Hj as [Hj|[Hge Hj]].
    + destruct (HI j ph Hj Hn) as [_ Hsync]. destruct (Ht eq_refl j ph Hj) as [-> | ->]; [|done]. specialize (Hsync eq_refl). congruence.
    + apply list_lookup_singleton_Some in Hj as [Hz <-]. split; [f_equal; lia|done].
  - unfold loopDone in Hs. destruct (doneCh s) as [j|] eqn:Hd; [|done]. case_decide as Hj; [|done]. injection Hs as <-. intros i ph Hi Hn. cbn [runs doneCh forced] in *.
    destruct (HI i ph Hi Hn) as [Hd' _]. rewrite Hd in Hd'. injection Hd' as <-. congruence.
  - case_decide as Hj; [|done]. injection Hs as <-. eapply loopInv_set; [done|done|done|]. by destruct (forced s).
  - case_decide as Hj; [|done]. injection Hs as <-. by eapply loopInv_set.
  - case_decide as Hj; [|done]. injection Hs as <-. by eapply loopInv_set.
  - case_decide as Hj; [|done]. injection Hs as <-. by eapply loopInv_set.
Qed.

(** As long as every run gets past the flag before the timer fires again, at
    most one run synchronises at any time, and the flag is set while it does. *)
Theorem sync_exclusive s i j : reachable (eq newSyncLoop) timelyStep s -> runs s !! i = Some Syncing -> runs s !! j = Some Syncing -> i = j /\ forced s = true.
Proof.
  intros Hr Hi Hj. assert (loopInv s) as HI by (eapply (reachable_inv (eq newSyncLoop) timelyStep loopInv); [intros ? <- k ph Hk; by destruct k|exact loopInv_step|done]).
  destruct (HI i Syncing Hi) as [Hd Hf]; [done|]. destruct (HI j Syncing Hj) as [Hd' _]; [done|]. split; [congruence|by apply Hf].
Qed.

Fixpoint loopRun (s : syncLoop) (es : list loopEvent) : option syncLoop :=
  match es with [] => Some s | e :: es => match syncLoopStep s e with Some s' => loopRun s' es | None => None end end.

(** A run that waits for the height of the layer-one chain while the timer fires
    is joined by a second one, and both synchronise. *)
Theorem syncs_overlap : loopRun newSyncLoop [EvTick; EvCheck 0; EvTick; EvCheck 1; EvBegin 0; EvBegin 1] = Some (mkSyncLoop true (Some 1%nat) [Syncing; Syncing]).
Proof. reflexivity. Qed.

Lemma sync_exclusive_witness : exists s, loopRun newSyncLoop [EvTick; EvCheck 0; EvBegin 0; EvTick; EvFinish 0 true; EvTick; EvCheck 1; EvBegin 1] = Some s /\ runs s !! 1%nat = Some Syncing /\
  (1 = 1 /\ forced s = true)%nat.
Proof.
  eexists. split; [reflexivity|]. split; [reflexivity|].
  apply (sync_exclusive (mkSyncLoop true (Some 1%nat) [Returned; Syncing]) 1 1); [|reflexivity|reflexivity].
  assert (HS : forall s e s', reachable (eq newSyncLoop) timelyStep s -> syncLoopStep s e = Some s' -> (e = EvTick -> settled s) -> reachable (eq newSyncLoop) timelyStep s')
    by (intros s e s' Hr H1 H2; exact (reach_step _ _ s e s' Hr (conj H1 H2))).
  apply (HS (mkSyncLoop false (Some 1%nat) [Returned; Asking]) (EvBegin 1)); [|reflexivity|discriminate].
  apply (HS (mkSyncLoop false (Some 1%nat) [Returned; Started]) (EvCheck 1)); [|reflexivity|discriminate].
  apply (HS (mkSyncLoop false (Some 0%nat) [Returned]) EvTick); [|reflexivity|intros _ [|j] ph [= <-]; by right].
  apply (HS (mkSyncLoop true (Some 0%nat) [Syncing]) (EvFinish 0 true)); [|reflexivity|discriminate].
  apply (HS (mkSyncLoop true (Some 0%nat) [Syncing]) EvTick); [|reflexivity|intros _ [|j] ph [= <-]; by left].
  apply (HS (mkSyncLoop false (Some 0%nat) [Asking]) (EvBegin 0)); [|reflexivity|discriminate].
  apply (HS (mkSyncLoop false (Some 0%nat) [Started]) (EvCheck 0)); [|reflexivity|discriminate].
  apply (HS newSyncLoop EvTick); [by apply reach_init|reflexivity|intros _ [|j] ph Hj; discriminate Hj].
Defined.
