(* ===== verification/Api.v ===== *)
(** * The interface for users

    The data-availability calls of [eth/api_backend.go] and of the [DAAPI] of
    [internal/ethapi/api.go]: a user hands in a record and gets the node's
    signature, and asks for records by hash or commitment.

    A new record is an object of the heap of [ChainSync.world], since the pool
    keeps the pointer.  The node's signing key is there on an Ethereum node
    only ([eth/backend.go] leaves the pointer nil otherwise).  The Schnorr
    signatures of sig-sdk are an argument, as is what a failed decoding leaves
    in the record it decodes into. *)

From S2P Require Import Prelude Bytes DAType FilePool OrderedMap Store Ledger ChainSync.

Local Open Scope Z_scope.

Section Senders.
Context `{kzg : KZG} `{crypto : Crypto} `{sdk : SDK} `{codec : !DACodec} `{gorm : Gorm}.
(** The zone of the clock in minutes, one offset throughout (a change to or from
    summer time between [now] and the expiry is not modelled), and [Unix] of a
    time. *)
Context (zone : Z) (unix : time -> Z).
(** [eth.singer] with its chain id and key. *)
Context (singer : option (option Z * PrivateKey)).

Definition set_ReceiveAt (t : time) (d : DA) : DA :=
  mkDA (Sender d) (Nonce d) (Index d) (Length d) (Data d) (Commitment d) (SignData d) (SignerAddr d) (DasKey d)
    (TxHash d) (BlockNum d) t (OutOfTime d) (Proof d) (ClaimedValue d) (NameSpaceID d) (Root d).

Definition set_OutOfTime (t : time) (d : DA) : DA :=
  mkDA (Sender d) (Nonce d) (Index d) (Length d) (Data d) (Commitment d) (SignData d) (SignerAddr d) (DasKey d)
    (TxHash d) (BlockNum d) (ReceiveAt d) t (Proof d) (ClaimedValue d) (NameSpaceID d) (Root d).

Definition set_SignerAddr (s : list (list Z)) (d : DA) : DA :=
  mkDA (Sender d) (Nonce d) (Index d) (Length d) (Data d) (Commitment d) (SignData d) s (DasKey d)
    (TxHash d) (BlockNum d) (ReceiveAt d) (OutOfTime d) (Proof d) (ClaimedValue d) (NameSpaceID d) (Root d).

(** [new(types.DA)] with its content. *)
Definition newObj (d : DA) (w : world) : nat * world :=
  (length (wHeap w), mkWorld (wPool w) (wHeap w ++ [d]) (wOwner w) (wDB w) (wStored w) (wCurrent w)).

(** [time.Date] of year, month, day and hour of [t] in its zone. *)
Definition hourStart (t : time) : time := t - (t + zone * (60 * 10 ^ 9)) `mod` hour.

(** A call's arguments. *)
Record daParams := mkParams {
  pSender : Address;
  pIndex : Z;
  pLength : Z;
  pCommitment : list Z;
  pData : list Z;
  pDasKey : list Z;
  pProof : list Z;
  pClaimedValue : list Z
}.

(** The record before it is signed; the error of [SetBytes] is dropped. *)
Definition unsigned (a : daParams) (now : time) : DA :=
  set_OutOfTime (hourStart (now + 23 * hour))
    (NewDA (pSender a) (pIndex a) (pLength a) (DigestSetBytes zeroDigest (pCommitment a)).1 (pData a) (pDasKey a) (pProof a) (pClaimedValue a)).

(** [SendDAByParams]: signature, expiry and error.  [received] is the second
    reading of the clock.  What the pool answers is dropped. *)
Definition SendDAByParams (a : daParams) (now received : time) (fs : fsAnswers) (clk : nat -> time) (w : world)
  : outcome (world * (list Z * Z * option verifyErr)) :=
  let fd := unsigned a now in
  let '(flag, err) := VerifyEth fd in
  if bool_decide (is_Some err) || negb flag then Done (w, ([], 0, err))
  else
    match singer with
    | None => Panic
    | Some (chainID, prv) =>
        signData ← SingerTool_Sign unix chainID prv fd;
        let fd := set_SignData [signData] fd in
        addr ← SingerTool_Sender unix chainID fd;
        let fd := set_ReceiveAt received (set_SignerAddr (AddressHex Keccak256 <$> addr.*1) fd) in
        let '(p, w) := newObj fd w in
        w ← addObj true fs clk p w;
        Done (w, (signData, unix (OutOfTime fd), None))
    end.

(** [sigSdk.SigWithSchnorr] *)
Context (SigWithSchnorr : list Z -> list Z -> list Z -> list Z -> list Z -> option (list Z)).

Inductive sendErr := SendVerify (e : verifyErr) | SendSchnorr.

Definition SendBTCDAByParams (btcPrivate : list Z) (commitment data dasKey proof claimedValue revealTx commitTx script : list Z)
    (received : time) (fs : fsAnswers) (clk : nat -> time) (w : world) : outcome (world * (list Z * option sendErr)) :=
  let da := NewDA (replicate AddressLength 0) 0 0 (DigestSetBytes zeroDigest commitment).1 data dasKey proof claimedValue in
  let '(flag, err) := VerifyBtc da in
  if bool_decide (is_Some err) || negb flag then Done (w, ([], SendVerify <$> err))
  else
    match SigWithSchnorr commitment (Hex2Bytes btcPrivate) commitTx revealTx script with
    | None => Done (w, ([], Some SendSchnorr))
    | Some sign =>
        let '(p, w) := newObj (set_ReceiveAt received (set_SignData [sign] da)) w in
        w ← addObj true fs clk p w;
        Done (w, (sign, None))
    end.

(** *** A batch of encoded records *)

(** [rlp.DecodeBytes(data, &da)] that succeeds: the two times, which have no
    encoding, stay. *)
Definition decodedInto (d old : DA) : DA := set_OutOfTime (OutOfTime old) (set_ReceiveAt (ReceiveAt old) d).

(** One round of the loop of [SendBatchDA] on the record [p] it declares before
    the loop.  [partial] is what a failed decoding makes of it. *)
Definition batchStep (partial : nat -> DA -> DA) (received : nat -> time) (fs : nat -> fsAnswers) (clk : nat -> nat -> time) (p : nat)
    (st : world * list (list Z) * list (option verifyErr)) (id : nat * list Z) : outcome (world * list (list Z) * list (option verifyErr)) :=
  let '(w, signHashes, errlist) := st in
  let '(i, data) := id in
  match DecodeBytesDA data with
  | None => Done (writeObj p (partial i) w, signHashes, errlist)
  | Some d =>
      let w := writeObj p (decodedInto d) w in
      da ← match wHeap w !! p with Some da => Done da | None => Panic end;
      let '(flag, err) := VerifyEth da in
      if bool_decide (is_Some err) || negb flag then errlist ← store errlist (Z.of_nat i) err; Done (w, signHashes, errlist)
      else
        let da := set_ReceiveAt (received i) da in
        let w := writeObj p (fun _ => da) w in
        w ← addObj true (fs i) (clk i) p w;
        match singer with
        | None => Panic
        | Some (chainID, prv) =>
            sign ← SingerTool_Sign unix chainID prv da;
            signHashes ← store signHashes (Z.of_nat i) sign;
            Done (w, signHashes, errlist)
        end
  end.

Definition SendBatchDA (partial : nat -> DA -> DA) (received : nat -> time) (fs : nat -> fsAnswers) (clk : nat -> nat -> time)
    (datas : list (list Z)) (w : world) : outcome (world * list (list Z) * list (option verifyErr)) :=
  let '(p, w) := newObj zeroDA w in
  fold_outcome (batchStep partial received fs clk p) (imap pair datas) (w, replicate (length datas) [], replicate (length datas) None).

End Senders.

(** ** Queries *)

Section Queries.
Context `{kzg : KZG} `{crypto : Crypto} `{sqlStore : !DAStore}.

Record RPCDA := mkRPCDA {
  rpcSender : Address;
  rpcLength : Z;
  rpcIndex : Z;
  rpcCommitment : list Z;
  rpcData : list Z;
  rpcSignHash : list Hash;
  rpcTxHash : Hash
}.

(** [NewRPCDA]: the hashes are appended to a slice that is already as long as
    the signatures. *)
Definition NewRPCDA (fd : option DA) : outcome RPCDA :=
  match fd with
  | None => Panic
  | Some fd =>
      Done (mkRPCDA (Sender fd) (Length fd) (Index fd) (Marshal (Commitment fd)) (Data fd)
              (replicate (length (SignData fd)) zeroHash ++ (BytesToHash <$> SignData fd)) (TxHash fd))
  end.

(** [EthAPIBackend.GetBatchDAsByHashes]: [sqls i] is the database during query
    [i].  [Get] never answers an error, so that all errors are nil. *)
Definition GetBatchDAsByHashes (sqls : nat -> nat -> sqlDB) (fp : FilePool) (hashes : list Hash) : outcome (FilePool * list (option DA)) :=
  fold_outcome (fun st ih =>
    let '(fp, das) := st in
    let '(i, hash) := ih in
    '(fp, da) ← Get (sqls i) fp hash;
    match da with
    | Some _ => das ← store das (Z.of_nat i) da; Done (fp, das)
    | None => Done (fp, das)
    end) (imap pair hashes) (fp, replicate (length hashes) None).

(** [EthAPIBackend.GetBatchDAsByCommitments] *)
Definition GetBatchDAsByCommitments (sqls : nat -> nat -> sqlDB) (fp : FilePool) (commitments : list (list Z)) : outcome (FilePool * list (option DA)) :=
  GetBatchDAsByHashes sqls fp (BytesToHash <$> commitments).

(** The loop of the batch calls of [DAAPI] over the records. *)
Definition rpcAll (das : list (option DA)) : outcome (list (option RPCDA)) :=
  fold_outcome (fun res '(i, da) => r ← NewRPCDA da; store res (Z.of_nat i) (Some r)) (imap pair das) (replicate (length das) None).

Definition DAAPI_GetDAByHash (sql : nat -> sqlDB) (fp : FilePool) (hash : Hash) : outcome (FilePool * option RPCDA) :=
  '(fp, fd) ← Get sql fp hash;
  match fd with
  | None => Done (fp, None)
  | Some _ => r ← NewRPCDA fd; Done (fp, Some r)
  end.

Definition DAAPI_GetBatchDAsByHashes (sqls : nat -> nat -> sqlDB) (fp : FilePool) (hashes : list Hash) : outcome (FilePool * list (option RPCDA)) :=
  '(fp, das) ← GetBatchDAsByHashes sqls fp hashes; res ← rpcAll das; Done (fp, res).

(** [DAAPI.GetDAByCommitment]; [None] is an error. *)
Definition DAAPI_GetDAByCommitment (sql : nat -> sqlDB) (fp : FilePool) (commit : list Z) : outcome (FilePool * option RPCDA) :=
  '(fp, fd, err) ← GetDAByCommit sql fp (Hex2Bytes commit);
  match fd, err with
  | None, true => Done (fp, None)
  | _, _ => r ← NewRPCDA fd; Done (fp, Some r)
  end.

Definition DAAPI_GetBatchDAsByCommitments (sqls : nat -> nat -> sqlDB) (fp : FilePool) (commitments : list (list Z)) : outcome (FilePool * list (option RPCDA)) :=
  '(fp, das) ← GetBatchDAsByCommitments sqls fp (Hex2Bytes <$> commitments); res ← rpcAll das; Done (fp, res).

(** *** What they answer *)

Context (sqls : nat -> nat -> sqlDB) (byTx byCommit : Hash -> option DA * bool).
Hypothesis HbyTx : forall i h, GetCommitmentByTxHash (sqls i 0%nat) h = Done (byTx h).
Hypothesis HbyCommit : forall i h, GetDAByCommitmentHash (sqls i 0%nat) h = Done (byCommit h).

(** The record of a hash, in the pool or the database. *)
Definition findDA (fp : FilePool) (h : Hash) : option DA :=
  match get fp h with Some d => Some d | None => match okDA (byTx h) with Some d => Some d | None => okDA (byCommit h) end end.

Lemma Get_findDA i fp h : exists fp', Get (sqls i) fp h = Done (fp', findDA fp h) /\ all fp' = all fp.
Proof.
  unfold Get. rewrite Get_from_eq, HbyTx, HbyCommit. unfold findDA. destruct (get fp h); [by eexists|]. cbn [mbind outcome_bind].
  destruct (okDA (byTx h)); [by eexists|]. destruct (okDA (byCommit h)); by eexists.
Qed.

Lemma store_app {A} (l l' : list A) x y : store (l ++ x :: l') (Z.of_nat (length l)) y = Done (l ++ y :: l').
Proof.
  rewrite store_Done by (rewrite length_app; simpl; lia). rewrite Nat2Z.id. by rewrite insert_app_r_alt, Nat.sub_diag by done.
Qed.

Lemma batch_findDA fp hashes extra : exists fp', all fp' = all fp /\
  fold_outcome (fun st ih =>
    let '(fp, das) := st in
    let '(i, hash) := ih in
    '(fp, da) ← Get (sqls i) fp hash;
    match da with
    | Some _ => das ← store das (Z.of_nat i) da; Done (fp, das)
    | None => Done (fp, das)
    end) (imap pair hashes) (fp, replicate (length hashes) None ++ extra) = Done (fp', (findDA fp <$> hashes) ++ extra).
Proof.
  revert extra. induction hashes as [|h hashes IH] using rev_ind; intros extra; [by exists fp|].
  rewrite length_app, replicate_add, <-(assoc_L (++)), imap_app, fold_outcome_app, fmap_app, <-(assoc_L (++)).
  destruct (IH (None :: extra)) as (fp1 & Hs & IH'). cbn [length replicate app]. rewrite IH'. clear IH IH'.
  cbn [mbind outcome_bind imap fold_outcome compose]. destruct (Get_findDA (length hashes + 0) fp1 h) as (fp2 & HG & Hs2).
  rewrite HG. cbn [mbind outcome_bind]. exists fp2. split; [by rewrite Hs2|].
  assert (Hf : findDA fp1 h = findDA fp h) by (unfold findDA, get; by rewrite Hs). rewrite Hf. cbn [fmap list_fmap app].
  destruct (findDA fp h) as [d|]; [|done]. rewrite Nat.add_0_r, <-(length_fmap (findDA fp) hashes), store_app. done.
Qed.

Definition rpcOf (fd : DA) : RPCDA :=
  mkRPCDA (Sender fd) (Length fd) (Index fd) (Marshal (Commitment fd)) (Data fd)
    (replicate (length (SignData fd)) zeroHash ++ (BytesToHash <$> SignData fd)) (TxHash fd).

Definition isNil (d : option DA) : bool := match d with None => true | Some _ => false end.

Lemma rpcAll_spec das :
  rpcAll das = if existsb isNil das then Panic else Done (option_map rpcOf <$> das).
Proof.
  unfold rpcAll. assert (H : forall extra, fold_outcome (fun res '(i, da) => r ← NewRPCDA da; store res (Z.of_nat i) (Some r)) (imap pair das)
    (replicate (length das) None ++ extra) = if existsb isNil das then Panic else Done ((option_map rpcOf <$> das) ++ extra));
    [|specialize (H []); by rewrite !app_nil_r in H].
  induction das as [|d das IH] using rev_ind; intros extra; [done|].
  rewrite length_app, replicate_add, <-(assoc_L (++)), imap_app, fold_outcome_app, fmap_app, <-(assoc_L (++)).
  cbn [length replicate app]. rewrite (IH (None :: extra)). clear IH.
  rewrite existsb_app. destruct (existsb isNil das); [done|]. cbn [mbind outcome_bind imap fold_outcome compose existsb orb].
  destruct d as [d|]; cbn [NewRPCDA mbind outcome_bind isNil]; [|done]. rewrite Nat.add_0_r, <-(length_fmap (option_map rpcOf) das), store_app. done.
Qed.

(** The batch queries answer the records of the hashes in order when the node
    has all of them, each with a zero hash in front for every signature; one
    hash without a record makes the whole call panic. *)
Theorem batch_query_panics fp hashes : exists fp', all fp' = all fp /\
  DAAPI_GetBatchDAsByHashes sqls fp hashes =
  if existsb isNil (findDA fp <$> hashes) then Panic else Done (fp', option_map rpcOf <$> (findDA fp <$> hashes)).
Proof.
  destruct (batch_findDA fp hashes []) as (fp' & Hs & H). rewrite !app_nil_r in H. exists fp'. split; [done|].
  unfold DAAPI_GetBatchDAsByHashes, GetBatchDAsByHashes. rewrite H. cbn [mbind outcome_bind]. rewrite rpcAll_spec. by destruct (existsb isNil _).
Qed.

End Queries.

(** ** What senders get *)

Section Laws.
Context `{kzg : KZG} `{crypto : Crypto} `{sdk : SDK} `{codec : !DACodec} `{gorm : Gorm}.
Context (unix : time -> Z) (singer : option (option Z * PrivateKey)).

(** The pool takes a record that it does not hold while a slot is free. *)
Definition hasRoom (fp : FilePool) (d : DA) : Prop :=
  get fp (poolHash d) = None /\ u64 (i64 (slots (all fp) + 1)) <= GlobalSlots (fpConfig fp).

Lemma Add_room fs clk fp d local fp' errs :
  Add fs clk fp [Some d] local = Done (fp', errs) -> head errs = Some None <-> hasRoom fp d.
Proof.
  pose proof (Add_eq fs clk fp [d] local) as HA. rewrite fmap_cons, fmap_nil in HA. rewrite HA. clear HA.
  cbn [addFdsLocked]. destruct (diskAll_frame fp [d]) as [Hall _].
  assert (Hc : fpConfig (diskAll fp [d]) = fpConfig fp) by (unfold diskAll; cbn [foldl]; by destruct (isStorageNode fp)).
  assert (He : (add fs (clk 0%nat) (diskAll fp [d]) d).2 = None <-> hasRoom fp d).
  { unfold add, hasRoom, get, lookupGet. rewrite Hall, Hc. destruct (lcollector (all fp) !! poolHash d); [naive_solver|].
    case_decide; cbn [snd]; naive_solver lia. }
  destruct (add _ _ _ _) as [fp1 err]. cbn [snd] in He. intros [= _ <-]. cbn [head app]. rewrite <-He. naive_solver.
Qed.

(** Handing a new object to the pool. *)
Lemma addObj_new fs clk d w :
  let w1 := (newObj d w).2 in
  exists w', addObj true fs clk (newObj d w).1 w1 = Done w' /\ wHeap w' = wHeap w ++ [d] /\
    ((hasRoom (wPool w) d /\ forall h, get (wPool w') h = if decide (h ∈ keysOf d) then Some d else get (wPool w) h) \/
     (~ hasRoom (wPool w) d /\ forall h, get (wPool w') h = get (wPool w) h)).
Proof.
  cbn [newObj fst snd]. unfold addObj. cbn [wHeap wPool]. rewrite list_lookup_middle by done.
  destruct (Add_one fs clk (wPool w) d true) as (fp & errs & HA & HG). pose proof (Add_room _ _ _ _ _ _ _ HA) as Hr. rewrite HA.
  cbn [mbind outcome_bind]. eexists. split; [done|]. cbn [wHeap wPool]. split; [done|].
  destruct (decide (head errs = Some None)) as [He|He]; [left|right]; (split; [tauto|]); intros h; rewrite HG; apply decide_ext || rewrite decide_False; tauto.
Qed.

(** *** Batches *)

(** Relative to [w0], the keys that were added point to the object [p]. *)
Definition sharesOne (w0 : world) (p : nat) (w : world) : Prop :=
  exists d, wHeap w !! p = Some d /\ forall h,
    (get (wPool w) h = Some d /\ wOwner w !! h = Some p) \/
    (get (wPool w) h = get (wPool w0) h /\ (get (wPool w0) h = None \/ wOwner w !! h <> Some p)).

Lemma sharesOne_write w0 p g w : sharesOne w0 p w -> sharesOne w0 p (writeObj p g w).
Proof.
  intros (d & Hp & Hs). exists (g d). split; [cbn [wHeap writeObj]; by rewrite list_lookup_alter_eq, Hp|].
  intros h. rewrite writeObj_get. cbn [wOwner writeObj]. destruct (Hs h) as [[-> Ho]|[-> Ho]].
  - left. cbn [fmap option_fmap option_map]. by rewrite decide_True.
  - right. split; [|done]. destruct (get (wPool w0) h); [|done]. cbn [fmap option_fmap option_map]. rewrite decide_False; [done|]. naive_solver.
Qed.

Lemma sharesOne_add w0 p fs clk w w' : sharesOne w0 p w -> addObj true fs clk p w = Done w' -> sharesOne w0 p w'.
Proof.
  intros (d & Hp & Hs) Ha. exists d. pose proof (addObj_heap _ _ _ _ _ _ Ha) as [Hh _]. split; [by rewrite Hh|].
  revert Ha. unfold addObj. rewrite Hp. destruct (Add_one fs clk (wPool w) d true) as (fp & errs & -> & HG).
  cbn [mbind outcome_bind]. intros [= <-] h. cbn [wPool wOwner]. rewrite HG. destruct (decide (head errs = Some None)) as [He|He].
  - rewrite owners_lookup. destruct (decide (h ∈ keysOf d)) as [Hin|Hin]; [left; by rewrite decide_True|]. rewrite decide_False by tauto. apply Hs.
  - rewrite decide_False by tauto. apply Hs.
Qed.

Lemma sharesOne_batch partial received fs clk p w0 st id st' :
  sharesOne w0 p st.1.1 -> batchStep unix singer partial received fs clk p st id = Done st' -> sharesOne w0 p st'.1.1.
Proof.
  destruct st as [[w signs] errs], id as [i data]. cbn [fst]. intros Hs. unfold batchStep.
  destruct (DecodeBytesDA data) as [d|]; [|intros [= <-]; by apply sharesOne_write].
  apply (sharesOne_write _ _ (decodedInto d)) in Hs. destruct (wHeap (writeObj p (decodedInto d) w) !! p) as [da|]; [|done].
  cbn [mbind outcome_bind]. destruct (VerifyEth da) as [flag err]. destruct (_ || _).
  - destruct (store errs _ err); cbn [mbind outcome_bind]; [|done..]. by intros [= <-].
  - apply (sharesOne_write _ _ (fun _ => set_ReceiveAt (received i) da)) in Hs.
    destruct (addObj _ _ _ _ _) as [w1| |] eqn:Ha; cbn [mbind outcome_bind]; [|done..]. apply (sharesOne_add _ _ _ _ _ _ Hs) in Ha.
    destruct singer as [[chainID prv]|]; [|done]. destruct (SingerTool_Sign _ _ _ _); cbn [mbind outcome_bind]; [|done..].
    destruct (store signs _ _); cbn [mbind outcome_bind]; [|done..]. by intros [= <-].
Qed.

(** [SendBatchDA] decodes all records of a batch into one variable and pools
    the pointer to it: whatever keys it adds to the pool, all of them lead to
    one and the same record, that of the last decoding. *)
Theorem SendBatchDA_shares partial received fs clk datas w w' signs errs :
  coherent w -> SendBatchDA unix singer partial received fs clk datas w = Done (w', signs, errs) ->
  exists d, forall h, get (wPool w') h = Some d \/ get (wPool w') h = get (wPool w) h.
Proof.
  intros Hc. unfold SendBatchDA. cbn [newObj]. set (w1 := mkWorld _ _ _ _ _ _). intros HF.
  assert (sharesOne w (length (wHeap w)) w') as (d & _ & Hs); [|exists d; intros h; destruct (Hs h) as [[? _]|[? _]]; auto].
  apply (fold_outcome_Done (fun st => sharesOne w (length (wHeap w)) st.1.1)) in HF; [done| |].
  - intros st id st' Hst Hb. by eapply sharesOne_batch.
  - exists zeroDA. cbn [fst]. unfold w1. cbn [wHeap wPool wOwner]. rewrite list_lookup_middle by done. split; [done|]. intros h. right. split; [done|].
    destruct (get (wPool w) h) as [x|] eqn:Hx; [right|by left]. destruct (Hc h x Hx) as (q & Hq & Hq'). rewrite Hq. intros [= ->].
    apply lookup_lt_Some in Hq'. lia.
Qed.

(** *** Single records *)

Context (zone : Z).

Lemma hourStart_bounds t : t - hour < hourStart zone t <= t /\ (hourStart zone t + zone * (60 * 10 ^ 9)) `mod` hour = 0.
Proof.
  unfold hourStart. set (l := t + zone * (60 * 10 ^ 9)). assert (Hh : 0 < hour) by done.
  pose proof (Z.mod_pos_bound l hour Hh). split; [lia|].
  replace (t - l `mod` hour + zone * (60 * 10 ^ 9)) with (l `div` hour * hour); [apply Z.mod_mul; lia|].
  pose proof (Z.div_mod l hour ltac:(lia)). unfold l in *. lia.
Qed.

Context `{!CryptoLaws crypto}.

(** The record with the node's signature. *)
Definition signedRecord (a : daParams) (now received : time) (prv : PrivateKey) (sig : list Z) : DA :=
  set_ReceiveAt received (set_SignerAddr [AddressHex Keccak256 (keyAddress prv)] (set_SignData [sig] (unsigned zone a now))).

(** C23: a record handed in with [SendDAByParams] whose proof the SDK accepts is
    signed for an expiry at a full hour, 22 to 23 hours away, and the signature
    in the answer recovers to the node's address; the record is filed with it,
    and from then on served for its commitment, if the pool has room and does
    not hold the commitment yet.  If not, the caller gets the signature all the
    same.  A proof the SDK rejects without an error is answered without an
    error, too. *)
Theorem SendDAByParams_correct a now received fs clk w :
  match VerifyEth (unsigned zone a now), singer with
  | (true, None), Some (chainID, prv) => forall sig, SingerTool_Sign unix chainID prv (unsigned zone a now) = Done sig ->
      let fd := signedRecord a now received prv sig in
      exists w', SendDAByParams zone unix singer a now received fs clk w = Done (w', (sig, unix (OutOfTime fd), None)) /\
        SingerTool_Sender unix chainID fd = Done [(keyAddress prv, None)] /\
        now + 22 * hour < OutOfTime fd <= now + 23 * hour /\ (OutOfTime fd + zone * (60 * 10 ^ 9)) `mod` hour = 0 /\
        (hasRoom (wPool w) fd -> commitIsEmpty fd = false -> forall (sqlStore : DAStore) (sql : nat -> sqlDB),
           GetDAByCommit sql (wPool w') (pCommitment a) = Done (wPool w', Some fd, false)) /\
        (~ hasRoom (wPool w) fd -> forall h, get (wPool w') h = get (wPool w) h)
  | (true, None), None => SendDAByParams zone unix singer a now received fs clk w = Panic
  | (_, err), _ => SendDAByParams zone unix singer a now received fs clk w = Done (w, ([], 0, err))
  end.
Proof.
  unfold SendDAByParams. cbn zeta. destruct (VerifyEth (unsigned zone a now)) as [[] [e|]]; try done.
  cbn [negb orb]. rewrite bool_decide_eq_false_2 by (by intros []). destruct singer as [[chainID prv]|]; [|done].
  intros sig Hs. rewrite Hs. cbn [mbind outcome_bind orb]. pose proof (Sender_Sign _ _ _ _ _ Hs) as Hsend. rewrite Hsend.
  cbn [mbind outcome_bind fmap list_fmap fst]. fold (signedRecord a now received prv sig). set (fd := signedRecord a now received prv sig).
  destruct (addObj_new fs clk fd w) as (w' & Ha & _ & Hg). destruct (newObj fd w) as [p w1]. cbn [fst snd] in Ha. rewrite Ha. cbn [mbind outcome_bind].
  exists w'. pose proof (hourStart_bounds (now + 23 * hour)) as [Hb Hm].
  split; [done|]. split; [exact Hsend|]. split; [cbn; lia|]. split; [exact Hm|]. split; [|naive_solver].
  intros Hr He sqlStore sql. rewrite GetDAByCommit_eq. cbn zeta.
  destruct Hg as [[_ Hg]|[Hn _]]; [|done]. rewrite Hg, decide_True; [done|]. unfold keysOf. rewrite He. set_solver.
Qed.

End Laws.

(** ** A node, and the properties on it *)

Module ApiSample.
Import Sample SyncSample.

#[export] Instance acceptingSDK : SDK := {| sdkInit := true; VerifyCommitWithProof _ _ _ := Some true |}.

(** Record [n], and a codec for it. *)
Definition recordN (n : Z) : DA :=
  NewDA (replicate 20 7) n 1 (n, n) [n] (replicate 32 0) [1] [2].

#[export] Instance apiCodec : DACodec := {|
  encodeDA d := Some [Index d];
  decodeDA s := match s with [] => DecEOF | n :: rest => DecOk (recordN n) rest end;
  DecodeBytesDA s := match s with [n] => Some (recordN n) | _ => None end
|}.

Definition apiPool : FilePool :=
  mkPool (mkConfig [] false 10) (lit "b") HomesteadFdSigner None None newLookup ∅ ∅ ∅ [].

Definition apiWorld : world := mkWorld apiPool [] ∅ (([], []) : @sqlState syncGorm) [] None.

Definition apiSinger : option (option Z * PrivateKey) := Some (Some 5, 42%nat).

Definition twoRecords := SendBatchDA (fun t => t) apiSinger (fun _ d => d) (fun _ => 9) (fun _ => fsFine) (fun _ _ => 8) [[1]; [2]] apiWorld.

Definition sampleParams : daParams := mkParams (replicate 20 7) 3 1 (Marshal ((5, 6) : Digest)) [9] (replicate 32 0) [1] [2].

Definition sampleSig : list Z := be_of_Z 32 (2 ^ 250) ++ be_of_Z 32 (sampleS 42) ++ [28].

End ApiSample.

Section api_witnesses.
Import Sample SyncSample ApiSample.

(** Both commitments of a batch lead to the second record. *)
Lemma SendBatchDA_shares_witness : exists w signs errs d,
  twoRecords = Done (w, signs, errs) /\ get (wPool w) (cmHash (recordN 1)) = Some d /\ Data d = [2] /\
  (get (wPool w) zeroHash = Some d \/ get (wPool w) zeroHash = get apiPool zeroHash).
Proof.
  assert (Hd : match twoRecords with Done (w, _, _) => Data <$> get (wPool w) (cmHash (recordN 1)) | _ => None end = Some [2]) by (vm_compute; reflexivity).
  destruct twoRecords as [[[w signs] errs]| |] eqn:Ht; [|discriminate Hd..].
  destruct (SendBatchDA_shares (fun t => t) apiSinger (fun _ d => d) (fun _ => 9) (fun _ => fsFine) (fun _ _ => 8) [[1]; [2]] apiWorld w signs errs) as [d Hs];
    [intros h d; unfold get, lookupGet; cbn; by rewrite lookup_empty|exact Ht|].
  exists w, signs, errs, d. split; [done|]. destruct (Hs (cmHash (recordN 1))) as [H|H]; rewrite H in Hd.
  - cbn in Hd. split; [exact H|]. split; [congruence|exact (Hs zeroHash)].
  - unfold get, lookupGet in Hd. cbn in Hd. by rewrite lookup_empty in Hd.
Defined.

Lemma SendDAByParams_correct_witness : exists w',
  SendDAByParams 480 (fun t => t) apiSinger sampleParams 1000 1001 fsFine (fun _ => 0) apiWorld = Done (w', (sampleSig, hourStart 480 (1000 + 23 * hour), None)) /\
  GetDAByCommit (sqlStore := PoolSample.sampleStore) (fun _ => []) (wPool w') (pCommitment sampleParams) =
    Done (wPool w', Some (signedRecord 480 sampleParams 1000 1001 42%nat sampleSig), false).
Proof.
  pose proof (SendDAByParams_correct (fun t => t) apiSinger 480 sampleParams 1000 1001 fsFine (fun _ => 0) apiWorld) as H.
  assert (Hv : VerifyEth (unsigned 480 sampleParams 1000) = (true, None)) by (vm_compute; reflexivity). rewrite Hv in H. cbn [apiSinger] in H.
  destruct (H sampleSig) as (w' & H1 & _ & _ & _ & H2 & _); [vm_compute; reflexivity|].
  exists w'. split; [exact H1|]. apply H2; [split; [|vm_compute; discriminate]|vm_compute; reflexivity].
  unfold get, lookupGet. cbn. by rewrite lookup_empty.
Defined.

(** One of the two hashes has no record. *)
Lemma batch_query_panics_witness :
  DAAPI_GetBatchDAsByHashes (sqlStore := PoolSample.sampleStore) (fun _ _ => [PoolSample.badDA]) apiPool [cmHash PoolSample.badDA; replicate 32 1] = Panic.
Proof.
  destruct (batch_query_panics (sqlStore := PoolSample.sampleStore) (fun _ _ => [PoolSample.badDA])
    (fun h => (head (filter (fun d => TxHash d = h) [PoolSample.badDA]), false)) (fun h => (head (filter (fun d => cmHash d = h) [PoolSample.badDA]), false))
    (fun _ _ => eq_refl) (fun _ _ => eq_refl) apiPool [cmHash PoolSample.badDA; replicate 32 1]) as (fp' & _ & ->).
  assert (Hn : existsb isNil (findDA (fun h => (head (filter (fun d => TxHash d = h) [PoolSample.badDA]), false))
    (fun h => (head (filter (fun d => cmHash d = h) [PoolSample.badDA]), false)) apiPool <$> [cmHash PoolSample.badDA; replicate 32 1]) = true)
    by (vm_compute; reflexivity).
  by rewrite Hn.
Defined.
End api_witnesses.
